(* ===== verification/_CoqProject ===== *)
-Q . S2P
Prelude.v
Buddy.v
BuddyInv.v
BuddySpec.v
BuddyProps.v
Slab.v
SlabInv.v
SlabLists.v
SlabSpec.v
SlabAlloc.v
SlabFree.v
SlabCaches.v
SlabCreate.v
KmemInit.v
SlabProps.v
Cstring.v
Vm.v
VmInv.v
VmProps.v
VmTheorems.v
Sysproc.v
SysprocProps.v
Bio.v
BioInv.v
BioProps.v
Log.v
LogInv.v
LogProps.v
LogSteps.v
Fs.v
FsNames.v
FsTable.v
FsBlocks.v
FsContent.v
FsDir.v
Pipe.v
File.v
FileProps.v
Sched.v
SchedInv.v
SchedProps.v
Spin.v
Proc.v
ProcSpec.v
ProcLife.v
ProcProps.v
Sysfile.v
SysfileProps.v
Exec.v
ExecProps.v
ExecArgs.v
Ring.v
Virtio.v
VirtioProps.v
Console.v
ConsoleProps.v
Printf.v
PrintfProps.v
Trap.v
TrapProps.v
Sh.v
ShProps.v
ShTotal.v
Ucache.v
UcacheProps.v
Umalloc.v
UmallocInv.v
UmallocSpec.v
UmallocProps.v
UmallocArrays.v
