(* ===== verification/Prelude.v ===== *)
(** Verification of xv6 with a slab allocator.

    The program is the xv6 teaching kernel in which the page free list has been
    replaced by a buddy allocator and the fixed tables of kernel objects by
    caches of a slab allocator.  User processes can be given a slab allocator
    of their own, run by the kernel on an arena behind a window of the
    process's address space.

    ** Parts of the program and files of the development

    Pages.  kernel/buddy.c hands out blocks of 2^k pages, with an array of page
    metadata and one free list per order threaded through the free pages;
    kernel/kalloc.c is its one-page front end.  Buddy.v has the data and
    operations, BuddyInv.v the invariant (the region is tiled by free and
    allocated blocks), BuddySpec.v the correctness of each operation,
    BuddyProps.v the interface to clients and the abstract page allocator that
    every sequence of calls refines.

    Objects.  kernel/slab.c keeps caches of equal-sized objects in slabs taken
    from the buddy allocator.  Slab.v has the data and operations, KmemInit.v
    the start-up; SlabInv.v the invariant (which slabs exist, whose they are,
    which objects of each are free), SlabLists.v the three lists of slabs,
    SlabSpec.v, SlabAlloc.v, SlabFree.v, SlabCaches.v and SlabCreate.v the
    operations, SlabProps.v the theorems.

    Byte memory and page tables.  Cstring.v models kernel/string.c over byte
    memory.  Vm.v models kernel/vm.c: three-level page tables that live in that
    memory.  VmInv.v describes them as trees, VmProps.v proves the operations
    against any page allocator that keeps the promises of a class, VmTheorems.v
    shows that the buddy allocator does and states the theorems.

    Allocators of processes.  Sysproc.v models the system calls of
    kernel/sysproc.c that switch the active allocator and translate pointers
    between the window and the arena, and the argument helpers of
    kernel/syscall.c; SysprocProps.v has the theorems.

    Disk.  Bio.v models the buffer cache of kernel/bio.c as one process sees
    it, BioInv.v its invariant and the logical disk its clients see, BioProps.v
    the theorem.  Log.v models the write-ahead log of kernel/log.c, LogInv.v
    and LogProps.v crash atomicity, LogSteps.v several processes that share the
    log, as a step relation on its critical sections.  Fs.v models kernel/fs.c
    over both; FsBlocks.v treats the block bitmap inside a transaction,
    FsContent.v the contents of files, FsTable.v the inode table, FsNames.v
    path names.  Virtio.v models kernel/virtio_disk.c, the driver with the
    descriptors and rings it shares with the device, VirtioProps.v its
    invariant and theorems; Ring.v has the circular buffers with free-running
    counters that the driver and the console share.

    Files and pipes.  Pipe.v models the ring of kernel/pipe.c with any number
    of readers and writers.  File.v models kernel/file.c and the creation of
    pipes over the slab allocator and the file system, FileProps.v how files
    are handed out and what is never given back.  Sysfile.v models the system
    calls of kernel/sysfile.c over both, SysfileProps.v the descriptors of a
    process.

    Locks and scheduling.  Spin.v models kernel/spinlock.c statement by
    statement on several CPUs.  Sched.v models the scheduler, [sleep],
    [wakeup], [yield] and [kkill] of kernel/proc.c with kernel/sleeplock.c as
    their client, again statement by statement; SchedInv.v has the invariant of
    the process locks, SchedProps.v that of the sleep locks and the theorems.

    Processes.  Proc.v models the process table of kernel/proc.c over the
    virtual memory: creation, fork, exit, wait and kill.  ProcSpec.v says what
    each does to the table, ProcLife.v has the invariant of parents and
    children, ProcProps.v the theorems for any interleaving of calls.  Exec.v
    models kernel/exec.c and [sys_exec], ExecProps.v that a failed call leaves
    the process as it was, ExecArgs.v the stack of the new program.  Trap.v
    models kernel/trap.c, kernel/plic.c and [syscall] over the control
    registers of a hart, with the rest of the kernel as a class; TrapProps.v
    has the theorems.

    Text.  Console.v models kernel/console.c and kernel/uart.c, ConsoleProps.v
    shows that they are a line discipline.  Printf.v models the formatted
    output of the kernel (kernel/printf.c) and of user programs
    (user/printf.c), PrintfProps.v compares them.  Sh.v models the parser of
    the shell (user/sh.c), ShProps.v shows that it inverts printing and
    ShTotal.v that it is safe on every line.

    ** How code is modelled

    This file has the common ground.  A function of C is a value of [prog S A]:
    it takes the state of its component and returns a result and a new state,
    or panics, or does something C leaves undefined (an access outside every
    object, signed overflow, division by zero), or does not end.  [wp m Q s]
    says that [m] ends properly in state [s] with a result and a state that
    satisfy [Q]: the correctness theorems are total unless they say otherwise.
    [keeps R m] says that [m], if it ends properly, relates its states by [R],
    and [wlp] is its form with a postcondition: both serve invariants that hold
    whatever a call of another component did.  Where the code reports errors by
    ending the program (the shell) or by killing the process (traps), [fine] of
    ShTotal.v and [safe] of TrapProps.v admit exactly these ends.

    A component runs code of another through [zoom].  Machine integers are
    values of [Z] with the wrap-around written out at every place where the
    code can reach it.  In the components that one process sees, locks are
    flags: acquiring a held lock panics, as it does in the code for the CPU
    that holds it, and a sleep lock or a condition that only the process itself
    could change ends the run as non-termination.  Where several CPUs or
    processes matter they are steps of a relation: statements in Spin.v and
    Sched.v; runs from one sleep to the next, or between points where no lock
    is held, in Pipe.v, LogSteps.v, Virtio.v, Console.v and ProcProps.v.
    Memory is sequentially consistent.

    ** What the theorems show

    Buddy allocator: allocation and freeing keep the invariant and have exactly
    the effect their names promise, on every branch, bad frees included; every
    run refines the abstract page allocator; on a region with a misaligned base
    freed halves are never merged.

    Slab allocator: the objects handed out never overlap, lie in slabs of their
    cache, and live until they are freed; shrinking, creating and destroying
    caches; the kmalloc classes; what happens on a double free, on sizes that
    wrap and on arenas that are too small.

    Virtual memory: what a page table maps after [mappages] and [uvmunmap], and
    that copies to and from user memory round-trip and stay inside their
    buffers for every user pointer.

    Allocator system calls: the allocator of one process cannot touch
    another's, pointers returned lie in the window, and the error paths that
    leave the wrong allocator active.

    Disk: the cache loses no change, a commit is atomic whenever the machine
    stops, a transaction never outgrows the log, and a process that waits for
    log space is never woken; [balloc] and [bfree] change exactly one mark of
    the bitmap; the inode table has one entry per inode; what is written to a
    file is what is read from it; path elements; each call of the driver is
    one transfer, and the driver neither panics nor loses a wakeup.

    Files and pipes: a pipe is a bounded queue for every interleaving; none can
    ever be created, since the cache for pipes is never set, and closing a file
    never gives its memory back; the descriptors of a process always name files
    that are counted.

    Locks and processes: spin locks and sleep locks exclude, no wakeup of a
    sleep lock is lost, no CPU panics or spins for ever; every process but init
    has a living parent, an exited child is found by its parent's wait; an exec
    that fails changes nothing, one that succeeds leaves the arguments where
    [main] expects them; traps return where they should, with the registers set
    up.

    Text: the console edits and hands over lines in order; both printers
    produce the same text for every format, and numbers read back; the shell
    parses every printed tree to itself, and every line to a tree or a syntax
    error inside its buffers.

    ** Bounds and fuel

    Loops run with a bound that is computed from the state and that the
    theorems show to suffice: the number of free blocks, slabs or buffers, the
    length of a range, the size of the memory for strings, the 64 digits of a
    number, the length of a format or of a command line (which also bounds the
    nesting of the shell's parser).  The constants ([MAX_ORDER], [NBUF],
    [LOGBLOCKS], [PIPESIZE] and the like) are those of the headers.

    ** Not modelled

    Assembly (entry.S, swtch.S, trampoline.S, kernelvec.S), the boot sequence
    (start.c, main.c) and the set-up of the trap vector, the interrupt
    controller and the serial port: their meaning is that of the hardware.  A
    switch of stacks is a change of the position of a process in Sched.v, and a
    panic ends a run.  [procdump], the table of devices and the lock of
    [printf].  Allocation of blocks inside [writei], and directories
    ([dirlookup], [dirlink], [namex] and what they call), are modelled in Fs.v
    without theorems.  Of user code: the library (ulib.c, umalloc.c), the
    wrappers of the allocator calls, the shell's [runcmd] and main loop, which
    fork processes, and the other programs and tests; and the tool mkfs, which
    runs on the host. *)

From Stdlib Require Export ZArith Lia.
From stdpp Require Export numbers strings gmap list.

#[export] Set Default Goal Selector "!".

#[export] Set Warnings "-clear-no-such-hyp".

Open Scope Z_scope.

(** * Machine integers

    C integers are [Z] with their wrap-around written out: [u64], [u32],
    [u16] and [u8] are the conversions to the unsigned types, [s32] the
    conversion to [int]. *)

Definition u8 (x : Z) : Z := x mod 2 ^ 8.

Definition u16 (x : Z) : Z := x mod 2 ^ 16.

Definition u32 (x : Z) : Z := x mod 2 ^ 32.

Definition u64 (x : Z) : Z := x mod 2 ^ 64.

Definition s32 (x : Z) : Z := (x + 2 ^ 31) mod 2 ^ 32 - 2 ^ 31.

Definition int_max : Z := 2 ^ 31 - 1.

Definition NULL : Z := 0.

(** Lengths as integers, to compare them with C integers. *)
Abbreviation zlen l := (Z.of_nat (length l)).

(** * Programs

    A piece of C code over a state [S] is a function from the state to an
    outcome: a result with the new state, a kernel [panic], an access the C
    standard leaves undefined, or an exhausted loop bound.  Theorems below
    are total: they exclude the last three. *)

Inductive outcome (A : Type) : Type :=
  | Ok (a : A)
  | Panic (msg : string)
  | UB
  | NoFuel.

Arguments Ok {A} a.

Arguments Panic {A} msg.

Arguments UB {A}.

Arguments NoFuel {A}.

Definition prog (S A : Type) : Type := S → outcome (A * S).

#[export] Instance prog_ret S : MRet (prog S) := λ A a s, Ok (a, s).

#[export] Instance prog_bind S : MBind (prog S) := λ A B f m s,
  match m s with
  | Ok (a, s') => f a s'
  | Panic msg => Panic msg
  | UB => UB
  | NoFuel => NoFuel
  end.

Definition get {S} : prog S S := λ s, Ok (s, s).

Definition gets {S A} (f : S → A) : prog S A := λ s, Ok (f s, s).

Definition modify {S} (f : S → S) : prog S unit := λ s, Ok (tt, f s).

Definition panic {S A} (msg : string) : prog S A := λ _, Panic msg.

Definition undefined {S A} : prog S A := λ _, UB.

(** A process that waits for an event only it could cause. *)
Definition sleep_forever {S A} : prog S A := λ _, NoFuel.

(** [of_option o] reads a cell that must exist: a missing cell is an access
    outside every object. *)
Definition of_option {S A} (o : option A) : prog S A :=
  match o with
  | Some a => mret a
  | None => undefined
  end.

(** [loop fuel body a] runs [body] from the loop state [a]; [inl] continues
    with a new loop state, [inr] leaves the loop. *)
Fixpoint loop {S A B} (fuel : nat) (body : A → prog S (A + B)) (a : A) : prog S B :=
  match fuel with
  | O => λ _, NoFuel
  | Datatypes.S fuel' =>
      r ← body a;
      match r with
      | inl a' => loop fuel' body a'
      | inr b => mret b
      end
  end.

(** [for_from n i body] is [for (j = i; j < i + n; j++) body(j)]. *)
Fixpoint for_from {S} (n : nat) (i : Z) (body : Z → prog S unit) : prog S unit :=
  match n with
  | O => mret tt
  | Datatypes.S n' => _ ← body i; for_from n' (i + 1) body
  end.

Definition for_range {S} (lo hi : Z) (body : Z → prog S unit) : prog S unit :=
  for_from (Z.to_nat (hi - lo)) lo body.

(** [zoom] runs code written against a component inside the state that
    contains it. *)
Definition zoom {S T A} (view : S → T) (put : T → S → S) (m : prog T A) : prog S A :=
  λ s,
    match m (view s) with
    | Ok (a, t) => Ok (a, put t s)
    | Panic msg => Panic msg
    | UB => UB
    | NoFuel => NoFuel
    end.

(** * Weakest preconditions: total correctness *)

Definition wp {S A} (m : prog S A) (Q : A → S → Prop) (s : S) : Prop :=
  match m s with
  | Ok (a, s') => Q a s'
  | _ => False
  end.

Section Wp.

Context {S : Type}.

Lemma wp_mono {A} (m : prog S A) (P Q : A → S → Prop) s :
  wp m P s → (∀ a s', P a s' → Q a s') → wp m Q s.
Proof. unfold wp. destruct (m s) as [[a s']| | |]; naive_solver. Qed.

Lemma wp_ret {A} (a : A) (Q : A → S → Prop) s : Q a s → wp (mret a) Q s.
Proof. done. Qed.

Lemma wp_bind {A B} (m : prog S A) (f : A → prog S B) Q s :
  wp m (λ a s', wp (f a) Q s') s → wp (m ≫= f) Q s.
Proof.
  unfold wp, mbind, prog_bind. by destruct (m s) as [[a s']| | |].
Qed.

Lemma wp_bind_inv {A B} (m : prog S A) (f : A → prog S B) Q s :
  wp (m ≫= f) Q s → wp m (λ a s', wp (f a) Q s') s.
Proof.
  unfold wp, mbind, prog_bind. by destruct (m s) as [[a s']| | |].
Qed.

Lemma wp_bind_assoc {A B C} (m : prog S A) (f : A → prog S B) (g : B → prog S C) Q s :
  wp (a ← m; b ← f a; g b) Q s → wp (b ← (a ← m; f a); g b) Q s.
Proof. intros H%wp_bind_inv. apply wp_bind, wp_bind. eapply wp_mono; [done|].
  intros a s' H'. by apply wp_bind_inv.
Qed.

Lemma wp_bind_group {A B C} (m : prog S A) (f : A → prog S B) (g : B → prog S C) Q s :
  wp (b ← (a ← m; f a); g b) Q s → wp (a ← m; b ← f a; g b) Q s.
Proof.
  intros H%wp_bind_inv%wp_bind_inv. apply wp_bind. eapply wp_mono; [done|].
  intros a s' H'. by apply wp_bind.
Qed.

(** A critical section [m1; b = m2; m3] followed by code that uses its
    result. *)
Lemma wp_section {A B C D} (m1 : prog S A) (m2 : prog S B) (m3 : prog S C) (K : B → prog S D) Q s :
  wp (_ ← m1; b ← m2; _ ← m3; mret b) (λ b s', wp (K b) Q s') s →
  wp (_ ← m1; b ← m2; _ ← m3; K b) Q s.
Proof.
  unfold wp, mbind, prog_bind. destruct (m1 s) as [[? s1]| | |]; [|done..].
  destruct (m2 s1) as [[b s2]| | |]; [|done..]. by destruct (m3 s2) as [[? s3]| | |].
Qed.

Lemma wp_seq3 {A B C D} (m1 : prog S A) (m2 : prog S B) (m3 : prog S C) (K : C → prog S D) Q s :
  wp (_ ← m1; _ ← m2; m3) (λ c s', wp (K c) Q s') s → wp (_ ← m1; _ ← m2; c ← m3; K c) Q s.
Proof.
  unfold wp, mbind, prog_bind. destruct (m1 s) as [[? s1]| | |]; [|done..].
  destruct (m2 s1) as [[b s2]| | |]; [|done..]. by destruct (m3 s2) as [[? s3]| | |].
Qed.

Lemma bind_panics {A B} (m : prog S A) (f : A → prog S B) msg s :
  wp m (λ a s', f a s' = Panic msg) s → (a ← m; f a) s = Panic msg.
Proof. unfold wp, mbind, prog_bind. by destruct (m s) as [[a s']| | |]. Qed.

Lemma wp_unit_r (m : prog S unit) Q s : wp (_ ← m; mret tt) Q s → wp m Q s.
Proof. intros H%wp_bind_inv. eapply wp_mono; [done|]. by intros [] s' ?. Qed.

Lemma wp_get (Q : S → S → Prop) s : Q s s → wp get Q s.
Proof. done. Qed.

Lemma wp_gets {A} (f : S → A) (Q : A → S → Prop) s : Q (f s) s → wp (gets f) Q s.
Proof. done. Qed.

Lemma wp_modify (f : S → S) (Q : unit → S → Prop) s :
  Q tt (f s) → wp (modify f) Q s.
Proof. done. Qed.

Lemma wp_of_option {A} (o : option A) a (Q : A → S → Prop) s :
  o = Some a → Q a s → wp (of_option o) Q s.
Proof. by intros ->. Qed.

Lemma wp_if {A} (c : bool) (m1 m2 : prog S A) Q s :
  (c = true → wp m1 Q s) → (c = false → wp m2 Q s) → wp (if c then m1 else m2) Q s.
Proof. destruct c; auto. Qed.

Lemma wp_Ok {A} (m : prog S A) Q s :
  wp m Q s ↔ ∃ a s', m s = Ok (a, s') ∧ Q a s'.
Proof.
  unfold wp. split; [|by intros (a & s' & -> & HQ)].
  destruct (m s) as [[a s']| | |]; naive_solver.
Qed.

Lemma wp_Ok_eq {A} (m : prog S A) a s s' : wp m (λ b t, b = a ∧ t = s') s → m s = Ok (a, s').
Proof. unfold wp. destruct (m s) as [[b t]| | |]; [|done..]. by intros [-> ->]. Qed.

Lemma wp_result {A} (m : prog S A) Q s a s' : wp m Q s → m s = Ok (a, s') → Q a s'.
Proof. unfold wp. intros H E. by rewrite E in H. Qed.

(** The loop rule: an invariant indexed by a variant that is bounded by the
    fuel and decreases at every iteration. *)
Lemma wp_loop {A B} (I : nat → A → S → Prop) n fuel (body : A → prog S (A + B)) a s Q :
  I n a s → (n < fuel)%nat →
  (∀ n a s, I n a s →
     wp (body a) (λ r s', match r with
                          | inl a' => ∃ n', (n' < n)%nat ∧ I n' a' s'
                          | inr b => Q b s'
                          end) s) →
  wp (loop fuel body a) Q s.
Proof.
  intros HI Hm Hbody. revert n a s HI Hm.
  induction fuel as [|fuel IH]; intros n a s HI Hm; [lia|].
  simpl. apply wp_bind. eapply wp_mono; [by eapply Hbody|].
  intros [a'|b] s' H; simpl in *; [|by apply wp_ret].
  destruct H as (n' & Hn & H). apply (IH n'); [done|lia].
Qed.

Lemma wp_for_from (I : Z → S → Prop) n lo body s (Q : unit → S → Prop) :
  I lo s →
  (∀ i s, lo ≤ i < lo + Z.of_nat n → I i s → wp (body i) (λ _ s', I (i + 1) s') s) →
  (∀ s, I (lo + Z.of_nat n) s → Q tt s) →
  wp (for_from n lo body) Q s.
Proof.
  revert lo s. induction n as [|n IH]; intros lo s HI Hb HQ.
  - apply wp_ret, HQ. by replace (lo + Z.of_nat 0) with lo by lia.
  - simpl. apply wp_bind. eapply wp_mono; [apply Hb; [lia|done]|].
    intros [] s' HI'. apply IH; [done| |].
    + intros i s'' Hi. apply Hb. lia.
    + intros s'' H. apply HQ. by replace (lo + Z.of_nat (Datatypes.S n))
        with (lo + 1 + Z.of_nat n) by lia.
Qed.

(** The [for] rule: the invariant at each counter value. *)
Lemma wp_for_range (I : Z → S → Prop) lo hi body s (Q : unit → S → Prop) :
  lo ≤ hi → I lo s →
  (∀ i s, lo ≤ i < hi → I i s → wp (body i) (λ _ s', I (i + 1) s') s) →
  (∀ s, I hi s → Q tt s) →
  wp (for_range lo hi body) Q s.
Proof.
  intros Hle HI Hb HQ. unfold for_range. apply (wp_for_from I); [done| |].
  - intros i s' Hi. apply Hb. lia.
  - intros s' H. apply HQ. by replace hi with (lo + Z.of_nat (Z.to_nat (hi - lo))) by lia.
Qed.

Lemma wp_zoom {T A} (view : S → T) put (m : prog T A) Q s :
  wp m (λ a t, Q a (put t s)) (view s) → wp (zoom view put m) Q s.
Proof. unfold wp, zoom. by destruct (m (view s)) as [[a t]| | |]. Qed.

End Wp.

(** * Frames

    [keeps R m]: whenever [m] returns, the states before and after are related
    by [R]. *)

Definition keeps {S A} (R : S → S → Prop) (m : prog S A) : Prop := ∀ s a s', m s = Ok (a, s') → R s s'.

Section Keeps.

Context {S : Type} (R : S → S → Prop) `{!PreOrder R}.

Lemma keeps_ret {A} (a : A) : keeps R (mret a).
Proof. by intros s b s' [= _ <-]. Qed.

Lemma keeps_get : keeps R get.
Proof. by intros s b s' [= _ <-]. Qed.

Lemma keeps_undefined {A} : keeps R (undefined : prog S A).
Proof. by intros s b s'. Qed.

Lemma keeps_modify f : (∀ s, R s (f s)) → keeps R (modify f).
Proof. by intros Hf s b s' [= _ <-]. Qed.

Lemma keeps_if {A} (c : bool) (m1 m2 : prog S A) : keeps R m1 → keeps R m2 → keeps R (if c then m1 else m2).
Proof. by destruct c. Qed.

Lemma keeps_bind {A B} (m : prog S A) (f : A → prog S B) :
  keeps R m → (∀ a, keeps R (f a)) → keeps R (m ≫= f).
Proof.
  intros Hm Hf s b s'. unfold mbind, prog_bind. destruct (m s) as [[a s1]| | |] eqn:E; [|done..].
  intros E'. transitivity s1; [by eapply Hm|by eapply Hf].
Qed.

Lemma keeps_for_range lo hi body : (∀ i, keeps R (body i)) → keeps R (for_range lo hi body).
Proof.
  intros Hb. unfold for_range. generalize (Z.to_nat (hi - lo)) as n. intros n. revert lo.
  induction n as [|n IH]; intros lo; simpl; [apply keeps_ret|]. by apply keeps_bind.
Qed.

Lemma keeps_loop {A B} fuel (body : A → prog S (A + B)) a : (∀ a, keeps R (body a)) → keeps R (loop fuel body a).
Proof.
  intros Hb. revert a. induction fuel as [|fuel IH]; intros a; simpl; [by intros s b s'|].
  apply keeps_bind; [done|]. intros [a'|b]; [apply IH|apply keeps_ret].
Qed.

Lemma keeps_zoom {T A} (view : S → T) put (m : prog T A) : (∀ t s, R s (put t s)) → keeps R (zoom view put m).
Proof.
  intros Hp s a s'. unfold zoom. destruct (m (view s)) as [[x t]| | |]; [|done..]. by intros [= _ <-].
Qed.

End Keeps.

(** Walks through code whose leaves are known to keep [R]. *)
Ltac keeps_auto :=
  repeat first
    [ apply keeps_for_range; [exact _|intros ?] | apply keeps_loop; [exact _|intros ?]
    | apply keeps_bind; [exact _| |intros ?] | apply keeps_if | apply keeps_ret; exact _ | apply keeps_get; exact _
    | apply keeps_undefined | assumption ].

(** * What holds whenever code returns *)

Definition wlp {S A} (m : prog S A) (Q : A → S → Prop) (s : S) : Prop := ∀ a s', m s = Ok (a, s') → Q a s'.

Section Wlp.

Context {S : Type}.

Lemma wlp_ret {A} (a : A) (Q : A → S → Prop) s : Q a s → wlp (mret a) Q s.
Proof. by intros HQ b s' [= <- <-]. Qed.

Lemma wlp_bind {A B} (m : prog S A) (f : A → prog S B) Q s :
  wlp m (λ a s', wlp (f a) Q s') s → wlp (m ≫= f) Q s.
Proof.
  intros Hm b s'. unfold mbind, prog_bind. destruct (m s) as [[a s1]| | |] eqn:E; [|done..]. intros E'. by eapply Hm.
Qed.

Lemma wlp_mono {A} (m : prog S A) (P Q : A → S → Prop) s : wlp m P s → (∀ a s', P a s' → Q a s') → wlp m Q s.
Proof. intros HP HQ a s' E. by apply HQ, HP. Qed.

Lemma wp_wlp {A} (m : prog S A) (Q : A → S → Prop) s : wp m Q s → wlp m Q s.
Proof. intros Hw a s' E. unfold wp in Hw. by rewrite E in Hw. Qed.

Lemma wp_and_wlp {A} (m : prog S A) (P Q : A → S → Prop) s : wp m P s → wlp m Q s → wp m (λ a s', P a s' ∧ Q a s') s.
Proof. unfold wp, wlp. destruct (m s) as [[a t]| | |]; [|done..]. auto. Qed.

Lemma wlp_any {A} (m : prog S A) (Q : A → S → Prop) s : (∀ a s', Q a s') → wlp m Q s.
Proof. intros HQ a s' _. apply HQ. Qed.

(** What code keeps, and what it is known to return. *)
Lemma wlp_keeps {A} (R : S → S → Prop) (m : prog S A) (Q : A → S → Prop) s :
  keeps R m → (∀ a s', R s s' → Q a s') → wlp m Q s.
Proof. intros Hm HQ a s' E. by eapply HQ, Hm. Qed.

Lemma wlp_and {A} (m : prog S A) (P Q : A → S → Prop) s : wlp m P s → wlp m Q s → wlp m (λ a s', P a s' ∧ Q a s') s.
Proof. intros HP HQ a s' E. split; [by apply HP|by apply HQ]. Qed.

Lemma wlp_get (Q : S → S → Prop) s : Q s s → wlp get Q s.
Proof. by intros HQ b s' [= <- <-]. Qed.

Lemma wlp_modify f (Q : unit → S → Prop) s : Q tt (f s) → wlp (modify f) Q s.
Proof. by intros HQ b s' [= <- <-]. Qed.

Lemma wlp_undefined {A} (Q : A → S → Prop) s : wlp undefined Q s.
Proof. by intros a s'. Qed.

Lemma wlp_panic {A} msg (Q : A → S → Prop) s : wlp (panic msg) Q s.
Proof. by intros a s'. Qed.

Lemma wlp_of_option {A} (o : option A) (Q : A → S → Prop) s : (∀ a, o = Some a → Q a s) → wlp (of_option o) Q s.
Proof. destruct o; intros HQ; [apply wlp_ret; auto|apply wlp_undefined]. Qed.

(** Code of a component whose effect does not matter. *)
Lemma wlp_zoom {T A} (view : S → T) put (m : prog T A) (Q : A → S → Prop) s :
  (∀ a t, Q a (put t s)) → wlp (zoom view put m) Q s.
Proof. intros HQ a s'. unfold zoom. destruct (m (view s)) as [[b t]| | |]; [|done..]. by intros [= <- <-]. Qed.

Lemma wlp_for_range (I : Z → S → Prop) lo hi body s (Q : unit → S → Prop) :
  I lo s → (∀ i s, lo ≤ i < hi → I i s → wlp (body i) (λ _, I (i + 1)) s) →
  (∀ s', I (Z.max lo hi) s' → Q tt s') → wlp (for_range lo hi body) Q s.
Proof.
  intros Hlo Hb HQ. unfold for_range.
  assert (∀ n i s, lo ≤ i → i + Z.of_nat n = Z.max lo hi → I i s → wlp (for_from n i body) Q s) as Hf.
  { induction n as [|n IH]; intros i s1 Hi Hn HI; simpl.
    - apply wlp_ret, HQ. by replace (Z.max lo hi) with i by lia.
    - apply wlp_bind. eapply wlp_mono; [apply Hb; [lia|done]|]. intros ? s2 HI2. apply IH; [lia|lia|done]. }
  apply Hf; [lia|lia|done].
Qed.

Lemma wlp_loop {A B} (I : A → S → Prop) fuel (body : A → prog S (A + B)) a s Q :
  I a s → (∀ a s, I a s → wlp (body a) (λ r s', match r with inl a' => I a' s' | inr b => Q b s' end) s) →
  wlp (loop fuel body a) Q s.
Proof.
  intros HI Hb. revert a s HI. induction fuel as [|fuel IH]; intros a s HI; simpl; [by intros b s'|].
  apply wlp_bind. eapply wlp_mono; [by apply Hb|]. intros [a'|b] s' H; [by apply IH|by apply wlp_ret].
Qed.

End Wlp.

Ltac wlp_step :=
  lazymatch goal with
  | |- wlp (mbind _ _) _ _ => apply wlp_bind
  | |- wlp (mret _) _ _ => apply wlp_ret
  | |- wlp get _ _ => apply wlp_get
  | |- wlp (modify _) _ _ => apply wlp_modify
  | |- wlp undefined _ _ => apply wlp_undefined
  | |- wlp (panic _) _ _ => apply wlp_panic
  | |- wlp (of_option _) _ _ => apply wlp_of_option; intros ? ?
  end.

Ltac wlp_auto := repeat (wlp_step; cbv beta).

(** [wp_auto] walks through straight-line code and leaves the branch
    conditions and memory accesses as goals. *)
Ltac wp_step :=
  lazymatch goal with
  | |- wp (mbind _ _) _ _ => apply wp_bind
  | |- wp (mret _) _ _ => apply wp_ret
  | |- wp get _ _ => apply wp_get
  | |- wp (gets _) _ _ => apply wp_gets
  | |- wp (modify _) _ _ => apply wp_modify
  | |- wp (zoom _ _ _) _ _ => apply wp_zoom
  end.

Ltac wp_auto := repeat (wp_step; cbv beta).

(** * Functions updated at one place *)

Definition upd {K} `{EqDecision K} {A} (f : K → A) (i : K) (x : A) : K → A := λ j, if decide (j = i) then x else f j.

Lemma upd_eq {K} `{EqDecision K} {A} (f : K → A) i x : upd f i x i = x.
Proof. unfold upd. by rewrite decide_True. Qed.

Lemma upd_ne {K} `{EqDecision K} {A} (f : K → A) i j x : j ≠ i → upd f i x j = f j.
Proof. intros. unfold upd. by rewrite decide_False. Qed.

(** Resolves the updates of a function at known places. *)
Ltac rewrite_upd :=
  repeat match goal with
  | E : context [upd _ ?i _ ?i] |- _ => rewrite upd_eq in E
  | |- context [upd _ ?i _ ?i] => rewrite upd_eq
  | E : context [upd _ ?i _ ?j], N : ?j ≠ ?i |- _ => rewrite (upd_ne _ i j) in E by exact N
  | N : ?j ≠ ?i |- context [upd _ ?i _ ?j] => rewrite (upd_ne _ i j) by exact N
  end.

(** The same by cases, with the contradictory cases solved. *)
Ltac upd_cases := unfold upd in *; repeat case_decide; simplify_eq; try congruence; try done.

(** * Arithmetic shared by the components *)

Lemma u64_small x : 0 ≤ x < 2 ^ 64 → u64 x = x.
Proof. intros. by apply Z.mod_small. Qed.

Lemma u32_small x : 0 ≤ x < 2 ^ 32 → u32 x = x.
Proof. intros. by apply Z.mod_small. Qed.

Lemma u16_small x : 0 ≤ x < 2 ^ 16 → u16 x = x.
Proof. intros. by apply Z.mod_small. Qed.

Lemma u8_small x : 0 ≤ x < 2 ^ 8 → u8 x = x.
Proof. intros. by apply Z.mod_small. Qed.

Lemma s32_small x : - 2 ^ 31 ≤ x < 2 ^ 31 → s32 x = x.
Proof. intros. unfold s32. rewrite Z.mod_small; lia. Qed.

Lemma u64_range x : 0 ≤ u64 x < 2 ^ 64.
Proof. apply Z.mod_pos_bound. lia. Qed.

Lemma u16_range x : 0 ≤ u16 x < 2 ^ 16.
Proof. apply Z.mod_pos_bound. lia. Qed.

(** Distinct indices below [n] are at most [n]. *)
Lemma NoDup_range_length (l : list Z) n :
  0 ≤ n → NoDup l → (∀ j, j ∈ l → 0 ≤ j < n) → zlen l ≤ n.
Proof.
  intros Hn Hnd Hin. assert (l ⊆+ seqZ 0 n) as H%submseteq_length.
  { apply NoDup_submseteq; [done|]. intros j Hj. apply elem_of_seqZ. specialize (Hin j Hj). lia. }
  rewrite length_seqZ in H. lia.
Qed.

Create HintDb xv6.

Create Rewrite HintDb xv6.

#[export] Hint Rewrite u64_small u32_small u16_small u8_small s32_small using lia : xv6.
