(* ===== verification/Buddy.v ===== *)
(** The buddy page allocator (kernel/buddy.h, kernel/buddy.c) and the
    one-page front end (kernel/kalloc.c): data and operations. *)

From S2P Require Import Prelude.

(** * Constants *)

Definition BLOCK_SIZE : Z := 4096.

Definition MAX_ORDER : Z := 15.

(** * Data *)

(** [slab_t] of slab.c: the header at the start of every slab, with the
    [uint16 next[]] array that follows it in the header area.  An array
    entry the code has not written yet is absent. *)
Record slab_t := Slab {
  s_cache : Z;
  first_free : Z;
  free_count : Z;
  inuse : Z;
  s_next : Z;
  s_prev : Z;
  next_array : gmap Z Z }.

(** What the first bytes of a managed page hold: the link word of a free
    block, or a slab header. *)
Inductive cell :=
  | Link (next : Z)
  | SlabHdr (s : slab_t).

Record block_meta_t := BlockMeta {
  free_order : Z;
  is_head_of_free_block : bool;
  alloc_order : Z;
  is_head_of_alloc_block : bool;
  owner_slab : Z }.

#[export] Instance slab_t_eq_dec : EqDecision slab_t.
Proof. solve_decision. Defined.

#[export] Instance cell_eq_dec : EqDecision cell.
Proof. solve_decision. Defined.

#[export] Instance block_meta_t_eq_dec : EqDecision block_meta_t.
Proof. solve_decision. Defined.

(** The buddy half of [struct kmem_state], with the memory it manages.
    Arrays are finite maps from the indices they have. *)
Record bstate := BState {
  managed_start : Z;
  managed_num_blocks : Z;
  free_area : gmap Z Z;
  block_meta : gmap Z block_meta_t;
  buddy_lock : bool;
  mem : gmap Z cell }.

Definition set_free_area (f : gmap Z Z) (b : bstate) : bstate :=
  BState (managed_start b) (managed_num_blocks b) f (block_meta b) (buddy_lock b) (mem b).

Definition set_block_meta (m : gmap Z block_meta_t) (b : bstate) : bstate :=
  BState (managed_start b) (managed_num_blocks b) (free_area b) m (buddy_lock b) (mem b).

Definition set_buddy_lock (l : bool) (b : bstate) : bstate :=
  BState (managed_start b) (managed_num_blocks b) (free_area b) (block_meta b) l (mem b).

Definition set_mem (m : gmap Z cell) (b : bstate) : bstate :=
  BState (managed_start b) (managed_num_blocks b) (free_area b) (block_meta b) (buddy_lock b) m.

Definition set_free_head (v : bool) (m : block_meta_t) : block_meta_t :=
  BlockMeta (free_order m) v (alloc_order m) (is_head_of_alloc_block m) (owner_slab m).

Definition set_free_order (o : Z) (m : block_meta_t) : block_meta_t :=
  BlockMeta o (is_head_of_free_block m) (alloc_order m) (is_head_of_alloc_block m) (owner_slab m).

Definition set_alloc_head (v : bool) (m : block_meta_t) : block_meta_t :=
  BlockMeta (free_order m) (is_head_of_free_block m) (alloc_order m) v (owner_slab m).

Definition set_alloc_order (o : Z) (m : block_meta_t) : block_meta_t :=
  BlockMeta (free_order m) (is_head_of_free_block m) o (is_head_of_alloc_block m) (owner_slab m).

Definition set_owner_slab (s : Z) (m : block_meta_t) : block_meta_t :=
  BlockMeta (free_order m) (is_head_of_free_block m) (alloc_order m) (is_head_of_alloc_block m) s.

(** * Memory accesses *)

Definition in_region (b : bstate) (a : Z) : bool :=
  (managed_start b <=? a) && (a <? managed_start b + managed_num_blocks b * BLOCK_SIZE).

(** [*(void** )a] of a free block. *)
Definition load_link (a : Z) : prog bstate Z :=
  b ← get;
  match mem b !! a with
  | Some (Link q) => mret q
  | _ => undefined
  end.

Definition store_cell (a : Z) (c : cell) : prog bstate unit :=
  b ← get;
  if in_region b a then modify (set_mem (<[a := c]> (mem b))) else undefined.

Definition read_free_area (order : Z) : prog bstate Z :=
  b ← get; of_option (free_area b !! order).

Definition write_free_area (order p : Z) : prog bstate unit :=
  b ← get;
  _ ← of_option (free_area b !! order);
  modify (set_free_area (<[order := p]> (free_area b))).

Definition read_meta (idx : Z) : prog bstate block_meta_t :=
  b ← get; of_option (block_meta b !! idx).

Definition update_meta (idx : Z) (f : block_meta_t → block_meta_t) : prog bstate unit :=
  b ← get;
  m ← of_option (block_meta b !! idx);
  modify (set_block_meta (<[idx := f m]> (block_meta b))).

(** * Locking

    The lock flag is the view of the CPU that runs the code: taking a lock it
    already holds and releasing one it does not hold both panic, as in
    spinlock.c; a critical section is one atomic step for the others. *)

Definition acquire_buddy : prog bstate unit :=
  b ← get; if buddy_lock b then panic "acquire" else modify (set_buddy_lock true).

Definition release_buddy : prog bstate unit :=
  b ← get; if buddy_lock b then modify (set_buddy_lock false) else panic "release".

(** * Operations of buddy.c *)

Definition addr_to_index (b : bstate) (ptr : Z) : Z :=
  if ptr <? managed_start b then -1
  else
    let off := u64 (ptr - managed_start b) in
    if negb (off mod BLOCK_SIZE =? 0) then -1
    else
      let idx := s32 (off / BLOCK_SIZE) in
      if (idx <? 0) || (idx >=? managed_num_blocks b) then -1 else idx.

Definition push_free (order blk : Z) : prog bstate unit :=
  head ← read_free_area order;
  _ ← store_cell blk (Link head);
  write_free_area order blk.

Definition pop_free (order : Z) : prog bstate Z :=
  blk ← read_free_area order;
  if blk =? NULL then mret NULL
  else
    next ← load_link blk;
    _ ← write_free_area order next;
    b ← get;
    let pop_idx := addr_to_index b blk in
    _ ← (if pop_idx >=? 0 then update_meta pop_idx (set_free_head false) else mret tt);
    mret blk.

Definition buddy_of (addr bytes : Z) : Z := Z.lxor addr bytes.

Definition mark_free_head (addr order : Z) : prog bstate unit :=
  b ← get;
  let idx := addr_to_index b addr in
  _ ← update_meta idx (set_free_head true);
  update_meta idx (set_free_order (u8 order)).

Definition mark_not_free_head (addr : Z) : prog bstate unit :=
  b ← get;
  let idx := addr_to_index b addr in
  update_meta idx (set_free_head false).

(** A free list holds at most one entry per managed page, so the fuel covers
    the walk over any list the allocator can build. *)
Definition list_fuel (b : bstate) : nat :=
  Datatypes.S (Datatypes.S (Z.to_nat (managed_num_blocks b))).

Definition remove_from_freelist (order blk : Z) : prog bstate bool :=
  b ← get;
  head ← read_free_area order;
  loop (list_fuel b)
    (λ '(prev, cur),
       if cur =? NULL then mret (inr false)
       else
         next ← load_link cur;
         if cur =? blk then
           _ ← (if negb (prev =? NULL) then store_cell prev (Link next)
                else write_free_area order next);
           mret (inr true)
         else mret (inl (cur, next)))
    (NULL, head).

(** [initialNumOfPages] is an [int] that is doubled; a doubling past
    [INT_MAX] is signed overflow.  The comparison converts it to [uint64]. *)
Fixpoint order_loop (fuel : nat) (initialOrder initialNumOfPages size_in_pages : Z) : outcome Z :=
  match fuel with
  | O => NoFuel
  | Datatypes.S fuel' =>
      if u64 initialNumOfPages <? size_in_pages then
        if initialNumOfPages * 2 >? int_max then UB
        else order_loop fuel' (initialOrder + 1) (initialNumOfPages * 2) size_in_pages
      else Ok initialOrder
  end.

Definition order_for_pages (size_in_pages : Z) : outcome Z :=
  order_loop 32 0 1 size_in_pages.

(** Largest order that fits in [remaining] pages and is aligned at [curr]. *)
Fixpoint pick_order (order : nat) (curr remaining : Z) : Z :=
  match order with
  | O => 0
  | Datatypes.S order' =>
      let block_pages := Z.shiftl 1 (Z.of_nat order) in
      if (block_pages <=? remaining) && (curr mod block_pages =? 0) then Z.of_nat order
      else pick_order order' curr remaining
  end.

Definition reset_meta (i : Z) : prog bstate unit :=
  _ ← update_meta i (set_free_head false);
  _ ← update_meta i (set_free_order 0);
  _ ← update_meta i (set_alloc_head false);
  _ ← update_meta i (set_alloc_order 0);
  update_meta i (set_owner_slab NULL).

Definition buddy_init : prog bstate unit :=
  _ ← modify (set_buddy_lock false);
  _ ← for_range 0 (MAX_ORDER + 1) (λ o, write_free_area o NULL);
  b ← get;
  let n := managed_num_blocks b in
  _ ← for_range 0 n reset_meta;
  loop (Datatypes.S (Z.to_nat n))
    (λ curr,
       if curr <? n then
         let remaining := n - curr in
         let order := pick_order 15 curr remaining in
         let block_pages := Z.shiftl 1 order in
         _ ← update_meta curr (set_free_head true);
         _ ← update_meta curr (set_free_order (u8 order));
         let addr := u64 (managed_start b + curr * BLOCK_SIZE) in
         _ ← push_free order addr;
         mret (inl (curr + block_pages))
       else mret (inr tt))
    0.

Definition lift_outcome {S A} (o : outcome A) : prog S A :=
  λ s, match o with
       | Ok a => Ok (a, s)
       | Panic msg => Panic msg
       | UB => UB
       | NoFuel => NoFuel
       end.

(** [while (k <= MAX_ORDER && free_area[k] == NULL) k++] *)
Definition find_order (target : Z) : prog bstate Z :=
  loop 17
    (λ k,
       if k <=? MAX_ORDER then
         head ← read_free_area k;
         if head =? NULL then mret (inl (k + 1)) else mret (inr k)
       else mret (inr k))
    target.

(** The splitting loop of [buddy_alloc]. *)
Definition split_down (blk k target : Z) : prog bstate unit :=
  loop 17
    (λ k,
       if k >? target then
         let k := k - 1 in
         let chunk_bytes := Z.shiftl BLOCK_SIZE k in
         let buddy := u64 (blk + chunk_bytes) in
         _ ← mark_free_head buddy k;
         _ ← push_free k buddy;
         mret (inl k)
       else mret (inr tt))
    k.

Definition buddy_alloc (size_in_pages : Z) : prog bstate Z :=
  if size_in_pages =? 0 then mret NULL
  else
    _ ← acquire_buddy;
    target ← lift_outcome (order_for_pages size_in_pages);
    if target >? MAX_ORDER then _ ← release_buddy; mret NULL
    else
      k ← find_order target;
      if k >? MAX_ORDER then _ ← release_buddy; mret NULL
      else
        blk ← pop_free k;
        _ ← mark_not_free_head blk;
        _ ← split_down blk k target;
        b ← get;
        let idx := addr_to_index b blk in
        _ ← update_meta idx (set_alloc_head true);
        _ ← update_meta idx (set_alloc_order (u8 target));
        _ ← update_meta idx (set_free_head false);
        _ ← release_buddy;
        mret blk.

(** The merging loop of [buddy_free_order]. *)
Definition merge_up (addr order : Z) : prog bstate (Z * Z) :=
  loop 17
    (λ '(addr, cur),
       if cur <? MAX_ORDER then
         let bytes := Z.shiftl BLOCK_SIZE cur in
         let buddy := Z.lxor addr bytes in
         b ← get;
         let bidx := addr_to_index b buddy in
         if bidx <? 0 then mret (inr (addr, cur))
         else
           m ← read_meta bidx;
           if negb (is_head_of_free_block m && (free_order m =? cur) &&
                    (owner_slab m =? NULL) && negb (is_head_of_alloc_block m))
           then mret (inr (addr, cur))
           else
             removed ← remove_from_freelist cur buddy;
             if negb removed then mret (inr (addr, cur))
             else
               _ ← update_meta bidx (set_free_head false);
               mret (inl (if buddy <? addr then buddy else addr, cur + 1))
       else mret (inr (addr, cur)))
    (addr, order).

Definition buddy_free_order (ptr order : Z) : prog bstate unit :=
  if ptr =? NULL then mret tt
  else
    b ← get;
    if negb (u64 (ptr - managed_start b) mod BLOCK_SIZE =? 0) then mret tt
    else
      '(addr, cur) ← merge_up ptr order;
      b ← get;
      let idx := addr_to_index b addr in
      _ ← update_meta idx (set_free_head true);
      _ ← update_meta idx (set_free_order (u8 cur));
      push_free cur addr.

Definition buddy_free (ptr : Z) : prog bstate unit :=
  if ptr =? NULL then mret tt
  else
    _ ← acquire_buddy;
    b ← get;
    let idx := addr_to_index b ptr in
    if idx <? 0 then release_buddy
    else
      m ← read_meta idx;
      if negb (is_head_of_alloc_block m) || negb (owner_slab m =? NULL) then release_buddy
      else
        let order := alloc_order m in
        _ ← update_meta idx (set_alloc_head false);
        _ ← buddy_free_order ptr order;
        release_buddy.

(** * kalloc.c *)

Definition kalloc : prog bstate Z := buddy_alloc 1.

Definition kfree (pa : Z) : prog bstate unit := buddy_free pa.
