(* ===== verification/BuddyInv.v ===== *)
(** The invariant of the buddy allocator: the managed region is tiled by free
    and allocated blocks, the metadata array and the free lists agree with the
    tiling.  Pure lemmas on the invariant; the operations are treated in
    BuddySpec.v. *)

From S2P Require Import Prelude.
From S2P Require Import Buddy.

(** * Blocks *)

(** A block is a run of [2 ^ order] pages, named by the index of its first
    page. *)
Inductive blk :=
  | Free (o : Z)
  | Alloc (o : Z).

#[export] Instance blk_eq_dec : EqDecision blk.
Proof. solve_decision. Defined.

Definition order_of (x : blk) : Z :=
  match x with
  | Free o => o
  | Alloc o => o
  end.

(** Address of page [i]. *)
Definition paddr (b : bstate) (i : Z) : Z := managed_start b + i * BLOCK_SIZE.

(** A null-terminated list of link words. *)
Fixpoint chain (m : gmap Z cell) (p : Z) (l : list Z) : Prop :=
  match l with
  | [] => p = NULL
  | a :: l' => p = a ∧ a ≠ NULL ∧ ∃ q, m !! a = Some (Link q) ∧ chain m q l'
  end.

Record region_ok (b : bstate) : Prop := {
  ro_start : 0 < managed_start b;
  ro_num : 0 ≤ managed_num_blocks b ≤ int_max;
  ro_top : managed_start b + managed_num_blocks b * BLOCK_SIZE ≤ 2 ^ 64 }.

(** Metadata of page [i], given the block that starts there.  A block in
    limbo is one an operation has taken off the free lists and not yet
    handed out. *)
Definition meta_ok (x : option blk) (limbo : bool) (m : block_meta_t) : Prop :=
  match x with
  | Some (Free o) =>
      is_head_of_free_block m = true ∧ is_head_of_alloc_block m = false ∧ free_order m = o
  | Some (Alloc o) =>
      is_head_of_free_block m = false ∧ is_head_of_alloc_block m = negb limbo ∧
      (limbo = false → alloc_order m = o)
  | None => is_head_of_free_block m = false ∧ is_head_of_alloc_block m = false
  end.

(** List [l] is the free list of order [o]. *)
Definition freelist_ok (b : bstate) (B : gmap Z blk) (o : Z) (h : Z) (l : list Z) : Prop :=
  free_area b !! o = Some h ∧ chain (mem b) h l ∧ NoDup l ∧
  ∀ a, a ∈ l ↔ ∃ i, a = paddr b i ∧ B !! i = Some (Free o).

(** The tiling: blocks lie in the region, do not overlap and leave no page
    out. *)
Record tiling (n : Z) (B : gmap Z blk) : Prop := {
  t_bound : ∀ i x, B !! i = Some x → 0 ≤ i ∧ 0 ≤ order_of x ≤ MAX_ORDER ∧ i + 2 ^ order_of x ≤ n;
  t_disj : ∀ i j x y, B !! i = Some x → B !! j = Some y → i < j → i + 2 ^ order_of x ≤ j;
  t_cover : ∀ p, 0 ≤ p < n → ∃ i x, B !! i = Some x ∧ i ≤ p < i + 2 ^ order_of x }.

Record core (b : bstate) (B : gmap Z blk) (L : gset Z) : Prop := {
  c_region : region_ok b;
  c_tiling : tiling (managed_num_blocks b) B;
  c_limbo : ∀ i, i ∈ L → ∃ o, B !! i = Some (Alloc o);
  c_meta : ∀ i, 0 ≤ i < managed_num_blocks b →
    ∃ m, block_meta b !! i = Some m ∧ meta_ok (B !! i) (bool_decide (i ∈ L)) m;
  c_owner : ∀ i x p m, B !! i = Some x → (x = Free (order_of x) ∨ i ∈ L) →
    i ≤ p < i + 2 ^ order_of x → block_meta b !! p = Some m → owner_slab m = NULL;
  c_lists : ∀ o, 0 ≤ o ≤ MAX_ORDER → ∃ h l, freelist_ok b B o h l }.

(** Blocks the clients of the allocator own. *)
Definition kept (B : gmap Z blk) (L : gset Z) (i o : Z) : Prop :=
  B !! i = Some (Alloc o) ∧ i ∉ L.

(** What an operation leaves alone: the region, the slab owners and the
    memory of the blocks in [keep]. *)
Record bframe (keep : Z → Z → Prop) (b b' : bstate) : Prop := {
  f_start : managed_start b' = managed_start b;
  f_num : managed_num_blocks b' = managed_num_blocks b;
  f_lock : buddy_lock b' = buddy_lock b;
  f_owner : ∀ p, owner_slab <$> block_meta b' !! p = owner_slab <$> block_meta b !! p;
  f_mem : ∀ i o a, keep i o → paddr b i ≤ a < paddr b (i + 2 ^ o) → mem b' !! a = mem b !! a }.

(** * Powers of two *)

Lemma pow2_pos o : 0 ≤ o → 1 ≤ 2 ^ o.
Proof. intros. pose proof (Z.pow_pos_nonneg 2 o). lia. Qed.

Lemma pow2_pred k : 1 ≤ k → 2 ^ k = 2 * 2 ^ (k - 1).
Proof. intros. replace k with (Z.succ (k - 1)) at 1 by lia. apply Z.pow_succ_r. lia. Qed.

Lemma pow2_succ k : 0 ≤ k → 2 ^ (k + 1) = 2 * 2 ^ k.
Proof. intros. apply Z.pow_succ_r. lia. Qed.

Lemma pow2_order_bound o : 0 ≤ o ≤ MAX_ORDER → 1 ≤ 2 ^ o ≤ 2 ^ 15.
Proof.
  unfold MAX_ORDER. intros. split; [apply pow2_pos; lia|]. apply Z.pow_le_mono_r; lia.
Qed.

Lemma shiftl_block k : 0 ≤ k → Z.shiftl BLOCK_SIZE k = 2 ^ k * BLOCK_SIZE.
Proof. intros. rewrite Z.shiftl_mul_pow2 by lia. lia. Qed.

Lemma block_pow2 k : 0 ≤ k → 2 ^ k * BLOCK_SIZE = 2 ^ (k + 12).
Proof. intros. unfold BLOCK_SIZE. rewrite Z.pow_add_r by lia. lia. Qed.

(** Flipping one bit moves an address up or down by exactly one block. *)
Lemma lxor_pow2 a m :
  0 ≤ a → 0 ≤ m →
  Z.lxor a (2 ^ m) = a + 2 ^ m ∨ (Z.lxor a (2 ^ m) = a - 2 ^ m ∧ 2 ^ m ≤ a).
Proof.
  intros Ha Hm. destruct (Z.testbit a m) eqn:E.
  - right. assert (Z.ldiff (2 ^ m) a = 0) as Hd.
    { apply Z.bits_inj'. intros i Hi. rewrite Z.ldiff_spec, Z.pow2_bits_eqb, Z.bits_0 by lia.
      destruct (Z.eqb_spec m i) as [->|]; [by rewrite E|done]. }
    assert (Z.lxor a (2 ^ m) = Z.ldiff a (2 ^ m)) as ->.
    { apply Z.bits_inj'. intros i Hi. rewrite Z.ldiff_spec, Z.lxor_spec, Z.pow2_bits_eqb by lia.
      destruct (Z.eqb_spec m i) as [->|]; [by rewrite E|by destruct (Z.testbit a i)]. }
    rewrite <-Z.sub_nocarry_ldiff by done. split; [done|].
    apply Z.ldiff_le in Hd; lia.
  - left. symmetry. apply Z.add_nocarry_lxor. apply Z.bits_inj'. intros i Hi.
    rewrite Z.land_spec, Z.pow2_bits_eqb, Z.bits_0 by lia.
    destruct (Z.eqb_spec m i) as [->|]; [by rewrite E|by rewrite andb_false_r].
Qed.

Lemma lxor_u64 a m : 0 ≤ a < 2 ^ 64 → 0 ≤ m < 64 → 0 ≤ Z.lxor a (2 ^ m) < 2 ^ 64.
Proof.
  intros [Ha0 Ha] Hm. split; [apply Z.lxor_nonneg; split; intros; [apply Z.pow_nonneg|]; lia|].
  destruct (lxor_pow2 a m) as [E|[E ?]]; [lia|lia| |lia].
  apply Z.log2_lt_cancel. rewrite Z.log2_pow2 by lia.
  assert (Z.log2 a < 64) as H1.
  { destruct (Z.eq_dec a 0) as [->|]; [done|]. apply Z.log2_lt_pow2; lia. }
  pose proof (Z.log2_lxor a (2 ^ m)) as H2. rewrite Z.log2_pow2 in H2 by lia.
  pose proof (Z.pow_pos_nonneg 2 m). lia.
Qed.

(** * Addresses and indices *)

Lemma paddr_inj b i j : paddr b i = paddr b j → i = j.
Proof. unfold paddr, BLOCK_SIZE. lia. Qed.

(** [addr_to_index] is exact for every address less than 2^44 bytes above the
    region's start: it returns the page index, or -1 for an address that is
    not the start of a managed page. *)
Lemma addr_to_index_cases b a :
  region_ok b → a < managed_start b + 2 ^ 44 →
  (∃ i, 0 ≤ i < managed_num_blocks b ∧ a = paddr b i ∧ addr_to_index b a = i) ∨
  ((∀ i, 0 ≤ i < managed_num_blocks b → a ≠ paddr b i) ∧ addr_to_index b a = -1).
Proof.
  intros [Hs Hn Ht] Ha. unfold addr_to_index, paddr, int_max in *.
  destruct (Z.ltb_spec a (managed_start b)) as [Hlt|Hge].
  { right. split; [|done]. unfold BLOCK_SIZE. lia. }
  rewrite u64_small by lia.
  set (off := a - managed_start b).
  assert (a = managed_start b + off) as Eoff by lia.
  pose proof (Z.div_mod off BLOCK_SIZE) as Hdm.
  pose proof (Z.mod_pos_bound off BLOCK_SIZE) as Hmb.
  unfold BLOCK_SIZE in *.
  destruct (Z.eqb_spec (off mod 4096) 0) as [E|E]; simpl.
  2:{ right. split; [|done]. lia. }
  assert (0 ≤ off / 4096 < 2 ^ 32) as Hq by lia.
  assert (s32 (off / 4096) = off / 4096 ∧ off / 4096 < 2 ^ 31 ∨
          s32 (off / 4096) < 0 ∧ 2 ^ 31 ≤ off / 4096) as [[Es ?]|[Es ?]].
  { destruct (Z.lt_ge_cases (off / 4096) (2 ^ 31)).
    - left. rewrite s32_small; lia.
    - right. unfold s32. replace (off / 4096 + 2 ^ 31)
        with (off / 4096 - 2 ^ 31 + 1 * 2 ^ 32) by lia.
      rewrite Z.mod_add, Z.mod_small by lia. lia. }
  - rewrite Es. destruct (Z.ltb_spec (off / 4096) 0); [lia|]. simpl.
    rewrite Z.geb_leb. destruct (Z.leb_spec (managed_num_blocks b) (off / 4096)).
    + right. split; [|done]. lia.
    + left. exists (off / 4096). split; [lia|]. split; [lia|done].
  - right. destruct (Z.ltb_spec (s32 (off / 4096)) 0); [|lia]. simpl. split; [|done]. lia.
Qed.

Lemma addr_to_index_paddr b i :
  region_ok b → 0 ≤ i < managed_num_blocks b → addr_to_index b (paddr b i) = i.
Proof.
  intros Hr Hi.
  destruct (addr_to_index_cases b (paddr b i)) as [(j & Hj & E & ->)|[H _]]; [done| | |].
  - destruct Hr as [? ? ?]. unfold paddr, BLOCK_SIZE, int_max in *. lia.
  - symmetry. by eapply paddr_inj.
  - by destruct (H i).
Qed.

Lemma paddr_pos b i : region_ok b → 0 ≤ i → paddr b i ≠ NULL.
Proof. intros [? ? ?] ?. unfold paddr, BLOCK_SIZE, NULL. lia. Qed.

Lemma paddr_range b i :
  region_ok b → 0 ≤ i < managed_num_blocks b → 0 ≤ paddr b i < 2 ^ 64.
Proof. intros [? ? ?] ?. unfold paddr, BLOCK_SIZE in *. lia. Qed.

Lemma in_region_paddr b i :
  0 ≤ i < managed_num_blocks b → in_region b (paddr b i) = true.
Proof.
  intros. unfold in_region, paddr, BLOCK_SIZE. apply andb_true_iff. split.
  - apply Z.leb_le. lia.
  - apply Z.ltb_lt. lia.
Qed.

(** * Link chains *)

Lemma chain_elem m p l a : chain m p l → a ∈ l → a ≠ NULL ∧ ∃ q, m !! a = Some (Link q).
Proof.
  revert p. induction l as [|x l IH]; intros p Hc Ha; [by apply elem_of_nil in Ha|].
  destruct Hc as (-> & Hx & q & Hq & Hc). apply elem_of_cons in Ha as [->|Ha]; eauto.
Qed.

Lemma chain_fresh m p l a c : a ∉ l → chain m p l → chain (<[a:=c]> m) p l.
Proof.
  revert p. induction l as [|x l IH]; intros p Ha Hc; [done|].
  apply not_elem_of_cons in Ha as [Hax Ha].
  destruct Hc as (-> & Hx & q & Hq & Hc). split; [done|]. split; [done|].
  exists q. rewrite lookup_insert_ne by done. auto.
Qed.

Lemma chain_push m h l a :
  a ≠ NULL → a ∉ l → chain m h l → chain (<[a:=Link h]> m) a (a :: l).
Proof.
  intros Ha Hl Hc. split; [done|]. split; [done|]. exists h.
  rewrite lookup_insert_eq. split; [done|]. by apply chain_fresh.
Qed.

Lemma chain_app m p l1 l2 :
  chain m p (l1 ++ l2) → ∃ q, chain m q l2.
Proof.
  revert p. induction l1 as [|x l1 IH]; intros p Hc; [by exists p|].
  destruct Hc as (_ & _ & q & _ & Hc). eauto.
Qed.

(** Unlinking an inner node: its predecessor takes over its link. *)
Lemma chain_unlink m p l1 a b l2 q :
  NoDup (l1 ++ a :: b :: l2) → m !! b = Some (Link q) →
  chain m p (l1 ++ a :: b :: l2) → chain (<[a:=Link q]> m) p (l1 ++ a :: l2).
Proof.
  revert p. induction l1 as [|x l1 IH]; intros p Hnd Hb Hc; simpl in *.
  - destruct Hc as (-> & Ha & r & Hr & -> & Hb0 & q' & Hq' & Hc).
    split; [done|]. split; [done|]. exists q. rewrite lookup_insert_eq. split; [done|].
    replace q with q' by congruence. apply chain_fresh; [|done].
    apply NoDup_cons in Hnd as [Hnd _]. by apply not_elem_of_cons in Hnd as [_ ?].
  - apply NoDup_cons in Hnd as [Hx Hnd].
    destruct Hc as (-> & Hx0 & r & Hr & Hc). split; [done|]. split; [done|]. exists r.
    rewrite lookup_insert_ne by set_solver. split; [done|]. by apply IH.
Qed.

(** * The tiling *)

Section Tiling.

Context (n : Z) (B : gmap Z blk).

Lemma tiling_inside i j x y :
  tiling n B → B !! i = Some x → B !! j = Some y → i ≤ j < i + 2 ^ order_of x → j = i.
Proof.
  intros HT Hi Hj H. destruct (Z.eq_dec i j) as [|Hne]; [done|].
  pose proof (t_disj _ _ HT i j x y Hi Hj). lia.
Qed.

Lemma tiling_restate i x y :
  tiling n B → B !! i = Some x → order_of y = order_of x → tiling n (<[i:=y]> B).
Proof.
  intros [Hb Hd Hc] Hi Ho. split.
  - intros j z. rewrite lookup_insert. case_decide; intros; simplify_eq; [rewrite Ho|]; eauto.
  - intros j k z w. rewrite !lookup_insert. repeat case_decide; subst; intros; simplify_eq.
    + lia.
    + rewrite Ho. eauto.
    + eauto.
    + eauto.
  - intros p Hp. destruct (Hc p Hp) as (j & z & Hj & Hjp).
    destruct (decide (i = j)) as [->|Hne].
    + exists j, y. rewrite lookup_insert_eq. simplify_eq. by rewrite Ho.
    + exists j, z. by rewrite lookup_insert_ne.
Qed.

Lemma tiling_split_fresh i k :
  tiling n B → B !! i = Some (Alloc k) → 1 ≤ k → B !! (i + 2 ^ (k - 1)) = None.
Proof.
  intros HT Hi Hk. destruct (B !! (i + 2 ^ (k - 1))) as [y|] eqn:E; [|done].
  pose proof (pow2_pred k Hk). pose proof (pow2_pos (k - 1)).
  pose proof (tiling_inside i _ _ _ HT Hi E). simpl in *. lia.
Qed.

Lemma tiling_apart i j x y :
  tiling n B → B !! i = Some x → B !! j = Some y → i ≠ j →
  i + 2 ^ order_of x ≤ j ∨ j + 2 ^ order_of y ≤ i.
Proof.
  intros HT Hi Hj Hne. destruct (Z.lt_ge_cases i j).
  - left. by eapply t_disj.
  - right. eapply t_disj; [done..|lia].
Qed.

Lemma tiling_split i k :
  tiling n B → B !! i = Some (Alloc k) → 1 ≤ k →
  tiling n (<[i + 2 ^ (k - 1):=Alloc (k - 1)]> (<[i:=Alloc (k - 1)]> B)).
Proof.
  intros HT Hi Hk. pose proof (pow2_pred k Hk) as Hp. pose proof (pow2_pos (k - 1)) as Hpos.
  pose proof (t_bound _ _ HT i _ Hi) as Hbi. simpl in Hbi.
  set (h := 2 ^ (k - 1)) in *.
  set (B' := <[i + h:=Alloc (k - 1)]> (<[i:=Alloc (k - 1)]> B)).
  assert (∀ j z, B' !! j = Some z →
    (j = i ∨ j = i + h) ∧ order_of z = k - 1 ∨
    B !! j = Some z ∧ (i + 2 ^ k ≤ j ∨ j + 2 ^ order_of z ≤ i)) as Hcase.
  { intros j z [[<- <-]|[Hne [[<- <-]|[Hne' Hj]]%lookup_insert_Some]]%lookup_insert_Some;
      [by auto|by auto|]. right. split; [done|]. by apply (tiling_apart i j (Alloc k)). }
  split.
  - intros j z [[[-> | ->] ->]|[Hj _]]%Hcase; [lia|lia|by eapply t_bound].
  - intros j l z w [[Hj Ez]|[Hj Hja]]%Hcase [[Hl Ew]|[Hl Hla]]%Hcase Hlt.
    + rewrite Ez. fold h. lia.
    + rewrite Ez. fold h. pose proof (t_bound _ _ HT l _ Hl).
      pose proof (pow2_pos (order_of w)). lia.
    + lia.
    + by eapply t_disj.
  - intros p Hpn. destruct (t_cover _ _ HT p Hpn) as (j & z & Hj & Hjp).
    destruct (decide (i = j)) as [<-|Hne].
    + simplify_eq/=. destruct (Z.lt_ge_cases p (i + h)).
      * exists i, (Alloc (k - 1)). unfold B'.
        rewrite lookup_insert_ne, lookup_insert_eq by lia. simpl. split; [done|lia].
      * exists (i + h), (Alloc (k - 1)). unfold B'. rewrite lookup_insert_eq.
        simpl. split; [done|]. fold h. lia.
    + exists j, z. unfold B'. destruct (tiling_apart i j (Alloc k) z HT Hi Hj Hne);
        rewrite !lookup_insert_ne by (simpl in *; lia); done.
Qed.

Lemma tiling_join i k :
  tiling n B → B !! i = Some (Alloc k) → B !! (i + 2 ^ k) = Some (Alloc k) →
  0 ≤ k < MAX_ORDER → tiling n (<[i:=Alloc (k + 1)]> (delete (i + 2 ^ k) B)).
Proof.
  intros HT Hi Hj Hk. pose proof (pow2_succ k ltac:(lia)) as Hp.
  pose proof (pow2_pos k ltac:(lia)) as Hpos.
  pose proof (t_bound _ _ HT i _ Hi) as Hbi. pose proof (t_bound _ _ HT _ _ Hj) as Hbj.
  simpl in *. set (h := 2 ^ k) in *.
  set (B' := <[i:=Alloc (k + 1)]> (delete (i + h) B)).
  assert (∀ j z, B' !! j = Some z →
    j = i ∧ order_of z = k + 1 ∨
    B !! j = Some z ∧ (i + 2 * h ≤ j ∨ j + 2 ^ order_of z ≤ i)) as Hcase.
  { intros j z [[<- <-]|[Hne [Hne' Hz]%lookup_delete_Some]]%lookup_insert_Some; [by auto|].
    right. split; [done|]. pose proof (tiling_apart i j _ _ HT Hi Hz Hne) as H1.
    pose proof (tiling_apart (i + h) j _ _ HT Hj Hz Hne') as H2.
    pose proof (t_bound _ _ HT j _ Hz). pose proof (pow2_pos (order_of z)).
    simpl in *. fold h in H1, H2. lia. }
  split.
  - intros j z [[-> ->]|[Hz _]]%Hcase; [lia|by eapply t_bound].
  - intros j l z w [[-> Ez]|[Hz Hja]]%Hcase [[-> Ew]|[Hw Hla]]%Hcase Hlt.
    + lia.
    + rewrite Ez, Hp. pose proof (t_bound _ _ HT l _ Hw).
      pose proof (pow2_pos (order_of w)). lia.
    + lia.
    + by eapply t_disj.
  - intros p Hpn. destruct (t_cover _ _ HT p Hpn) as (l & z & Hl & Hlp).
    destruct (decide (l = i)) as [->|Hni]; [|destruct (decide (l = i + h)) as [->|Hnj]].
    + exists i, (Alloc (k + 1)). unfold B'. rewrite lookup_insert_eq.
      simplify_eq/=. fold h in Hlp. split; [done|lia].
    + exists i, (Alloc (k + 1)). unfold B'. rewrite lookup_insert_eq.
      simplify_eq/=. fold h in Hlp. split; [done|lia].
    + exists l, z. unfold B'. by rewrite lookup_insert_ne, lookup_delete_ne by done.
Qed.

End Tiling.

(** * Frames *)

Lemma bframe_refl keep b : bframe keep b b.
Proof. by split. Qed.

Lemma bframe_trans keep b1 b2 b3 : bframe keep b1 b2 → bframe keep b2 b3 → bframe keep b1 b3.
Proof.
  intros [Hs1 Hn1 Hl1 Ho1 Hm1] [Hs2 Hn2 Hl2 Ho2 Hm2]. split; [congruence..| |].
  - intros p. by rewrite Ho2, Ho1.
  - intros i o a Hk Ha. rewrite (Hm2 i o a), (Hm1 i o a); [done..|].
    unfold paddr in *. by rewrite Hs1.
Qed.

Lemma bframe_weaken (keep keep' : Z → Z → Prop) b b' :
  (∀ i o, keep' i o → keep i o) → bframe keep b b' → bframe keep' b b'.
Proof. intros Hk [? ? ? ? Hm]. split; [done..|]. intros i o a H. by apply Hm, Hk. Qed.

#[export] Hint Resolve bframe_refl : xv6.

(** A metadata update that leaves the owner alone, with a memory write
    outside the kept blocks. *)
Lemma bframe_intro (keep : Z → Z → Prop) b fa i m m' mm :
  block_meta b !! i = Some m → owner_slab m' = owner_slab m →
  (∀ j o a, keep j o → paddr b j ≤ a < paddr b (j + 2 ^ o) → mm !! a = mem b !! a) →
  bframe keep b (BState (managed_start b) (managed_num_blocks b) fa
                   (<[i:=m']> (block_meta b)) (buddy_lock b) mm).
Proof.
  intros Hi Ho Hm. split; [done..| |done].
  intros p. simpl. rewrite lookup_insert. case_decide as Hp; [|done].
  subst. rewrite Hi. simpl. by rewrite Ho.
Qed.

(** * Steps of the invariant *)

Lemma core_index b B L i x : core b B L → B !! i = Some x → 0 ≤ i < managed_num_blocks b.
Proof.
  intros HC Hi. pose proof (t_bound _ _ (c_tiling _ _ _ HC) i x Hi).
  pose proof (pow2_pos (order_of x)). lia.
Qed.

Lemma core_meta_at b B L i x :
  core b B L → B !! i = Some x →
  ∃ m, block_meta b !! i = Some m ∧ meta_ok (Some x) (bool_decide (i ∈ L)) m.
Proof.
  intros HC Hi. destruct (c_meta _ _ _ HC i) as (m & Hm & Hok); [by eapply core_index|].
  exists m. by rewrite <-Hi.
Qed.

Lemma core_order b B L i x : core b B L → B !! i = Some x → 0 ≤ order_of x ≤ MAX_ORDER.
Proof. intros HC Hi. by apply (t_bound _ _ (c_tiling _ _ _ HC) i x Hi). Qed.

Lemma kept_outside b B L i x j o :
  core b B L → B !! i = Some x → (i ∈ L ∨ x = Free (order_of x)) → kept B L j o →
  ¬ (paddr b j ≤ paddr b i < paddr b (j + 2 ^ o)).
Proof.
  intros HC Hi Hx [Hj HjL] Ha. unfold paddr, BLOCK_SIZE in Ha.
  assert (i = j) as ->.
  { eapply (tiling_inside _ B j i (Alloc o) x); [by eapply c_tiling|done|done|]. simpl. lia. }
  rewrite Hj in Hi. simplify_eq. destruct Hx as [?|?]; [done|discriminate].
Qed.

Lemma meta_ok_other (L : gset Z) (i j : Z) :
  i ≠ j → bool_decide (j ∈ L ∖ {[i]}) = bool_decide (j ∈ L).
Proof. intros. apply bool_decide_ext. set_solver. Qed.

(** Handing a limbo block to the free list of its order. *)
Lemma core_give b B L i o m h :
  core b B L → i ∈ L → B !! i = Some (Alloc o) →
  block_meta b !! i = Some m → free_area b !! o = Some h →
  let b' := BState (managed_start b) (managed_num_blocks b)
              (<[o:=paddr b i]> (free_area b))
              (<[i:=BlockMeta o true (alloc_order m) (is_head_of_alloc_block m) (owner_slab m)]>
                 (block_meta b))
              (buddy_lock b) (<[paddr b i:=Link h]> (mem b)) in
  core b' (<[i:=Free o]> B) (L ∖ {[i]}) ∧ bframe (kept B L) b b'.
Proof.
  intros HC HiL Hi Hm Hh b'. pose proof (core_index _ _ _ _ _ HC Hi) as Hri.
  pose proof (core_order _ _ _ _ _ HC Hi) as Hro. simpl in Hro.
  destruct (core_meta_at _ _ _ _ _ HC Hi) as (m0 & Hm0 & Hok). simplify_eq.
  rewrite bool_decide_true in Hok by done. destruct Hok as (Hf & Ha & _).
  split; [split; simpl|].
  - destruct (c_region _ _ _ HC). by split.
  - by apply (tiling_restate _ _ _ (Alloc o)); [by eapply c_tiling| |].
  - intros j Hj. rewrite lookup_insert_ne by set_solver. apply (c_limbo _ _ _ HC). set_solver.
  - intros j Hj. rewrite !lookup_insert. case_decide as E; [by eexists|].
    rewrite meta_ok_other by done. by apply HC.
  - intros j x p mp. rewrite !lookup_insert. intros Hj Hx Hp Hmp.
    assert (∃ mp', block_meta b !! p = Some mp' ∧ owner_slab mp = owner_slab mp')
      as (mp' & Hmp' & ->).
    { case_decide; simplify_eq; eauto. }
    clear Hmp. destruct (decide (i = j)) as [<-|Hne].
    + injection Hj as <-. apply (c_owner _ _ _ HC i (Alloc o) p mp'); auto.
    + apply (c_owner _ _ _ HC j x p mp'); [done| |done..]. set_solver.
  - intros o' Ho'. destruct (c_lists _ _ _ HC o' Ho') as (h' & l & Hfa & Hc & Hnd & Hl).
    assert (paddr b i ∉ l) as Hni.
    { intros (j & Ej & Hj)%Hl. apply paddr_inj in Ej as <-. congruence. }
    destruct (decide (o' = o)) as [->|Hne].
    + exists (paddr b i), (paddr b i :: l). split; [cbn; by rewrite lookup_insert_eq|].
      simplify_eq/=. split; [apply chain_push; [apply paddr_pos; [by eapply c_region|lia]|done..]|].
      split; [by constructor|]. intros a. rewrite elem_of_cons, Hl.
      change (paddr b') with (paddr b). split.
      * intros [->|(j & -> & Hj)]; [exists i; by rewrite lookup_insert_eq|].
        exists j. rewrite lookup_insert_ne by congruence. done.
      * intros (j & -> & Hj). rewrite lookup_insert in Hj. case_decide; subst; eauto.
    + exists h', l. split; [cbn; by rewrite lookup_insert_ne|]. split; [by apply chain_fresh|].
      split; [done|]. intros a. rewrite Hl. change (paddr b') with (paddr b).
      split; intros (j & -> & Hj); exists j; (split; [done|]).
      * by rewrite lookup_insert_ne by congruence.
      * rewrite lookup_insert in Hj. case_decide; congruence.
  - eapply bframe_intro; [done|done|]. intros j o' a Hk Ha'. simpl.
    rewrite lookup_insert_ne; [done|]. intros <-.
    by eapply (kept_outside b B L i (Alloc o) j o'); auto.
Qed.

(** Taking a free block off its list: the list without it, and the block in
    limbo.  The list may have been relinked inside. *)
Lemma core_take b B L i o m h l1 l2 h' mm :
  core b B L → B !! i = Some (Free o) →
  block_meta b !! i = Some m →
  freelist_ok b B o h (l1 ++ paddr b i :: l2) →
  chain mm h' (l1 ++ l2) →
  (mm = mem b ∨ ∃ pa q, pa ∈ l1 ∧ mm = <[pa:=Link q]> (mem b)) →
  let b' := BState (managed_start b) (managed_num_blocks b)
              (<[o:=h']> (free_area b)) (<[i:=set_free_head false m]> (block_meta b))
              (buddy_lock b) mm in
  core b' (<[i:=Alloc o]> B) (L ∪ {[i]}) ∧ bframe (kept B L) b b'.
Proof.
  intros HC Hi Hm (Hh & Hc & Hnd & Hl) Hc' Hmm b'.
  pose proof (core_index _ _ _ _ _ HC Hi) as Hri.
  destruct (core_meta_at _ _ _ _ _ HC Hi) as (m0 & Hm0 & Hf & Ha & Hfo).
  assert (m0 = m) as -> by congruence. clear Hm0.
  assert (∀ pa, pa ∈ l1 → ∃ j, pa = paddr b j ∧ B !! j = Some (Free o)) as Hl1.
  { intros pa Hpa. apply Hl. set_solver. }
  split; [split; simpl|].
  - destruct (c_region _ _ _ HC). by split.
  - by apply (tiling_restate _ _ _ (Free o)); [by eapply c_tiling| |].
  - intros j [Hj| ->%elem_of_singleton]%elem_of_union.
    + rewrite lookup_insert. case_decide; [eauto|]. by apply (c_limbo _ _ _ HC).
    + rewrite lookup_insert_eq. eauto.
  - intros j Hj. rewrite !lookup_insert. case_decide as E.
    + subst j. eexists. split; [done|]. rewrite bool_decide_true by set_solver. by simpl.
    + rewrite (bool_decide_ext (j ∈ L ∪ {[i]}) (j ∈ L)) by set_solver. by apply HC.
  - intros j x p mp. rewrite !lookup_insert. intros Hj Hx Hp Hmp.
    assert (∃ mp', block_meta b !! p = Some mp' ∧ owner_slab mp = owner_slab mp')
      as (mp' & Hmp' & ->).
    { case_decide; simplify_eq; eauto. }
    clear Hmp. destruct (decide (i = j)) as [<-|Hne].
    + injection Hj as <-. apply (c_owner _ _ _ HC i (Free o) p mp'); auto.
    + apply (c_owner _ _ _ HC j x p mp'); [done| |done..]. set_solver.
  - intros o' Ho'. destruct (decide (o' = o)) as [->|Hne].
    + exists h', (l1 ++ l2). split; [cbn; by rewrite lookup_insert_eq|]. split; [done|].
      apply NoDup_app in Hnd as (Hnd1 & Hnd12 & [Hni2 Hnd2]%NoDup_cons).
      split; [apply NoDup_app; set_solver|]. intros a. change (paddr b') with (paddr b).
      assert (a ∈ l1 ++ l2 ↔ a ∈ l1 ++ paddr b i :: l2 ∧ a ≠ paddr b i) as ->.
      { rewrite !elem_of_app, elem_of_cons. split; [|naive_solver].
        intros [Hal|Hal]; (split; [by auto|]); intros ->; [|done].
        apply (Hnd12 _ Hal). set_solver. }
      rewrite Hl. split.
      * intros [(j & -> & Hj) Hne]. exists j. rewrite lookup_insert_ne by congruence. done.
      * intros (j & -> & Hj). rewrite lookup_insert in Hj. case_decide; simplify_eq.
        split; [eauto|]. intros E%paddr_inj. congruence.
    + destruct (c_lists _ _ _ HC o' Ho') as (h2 & l & Hfa2 & Hc2 & Hnd2 & Hl2).
      exists h2, l. split; [cbn; by rewrite lookup_insert_ne|]. split; [|split; [done|]].
      * destruct Hmm as [->|(pa & q & Hpa & ->)]; [done|]. apply chain_fresh; [|done].
        intros (j & Ej & Hj)%Hl2. destruct (Hl1 pa Hpa) as (j' & -> & Hj').
        apply paddr_inj in Ej. congruence.
      * intros a. rewrite Hl2. change (paddr b') with (paddr b).
        split; intros (j & -> & Hj); exists j; (split; [done|]).
        -- rewrite lookup_insert_ne by congruence. done.
        -- rewrite lookup_insert in Hj. case_decide; congruence.
  - eapply bframe_intro; [done|done|]. intros j o' a Hk Ha'. simpl.
    destruct Hmm as [->|(pa & q & Hpa & ->)]; [done|].
    rewrite lookup_insert_ne; [done|]. intros <-. destruct (Hl1 pa Hpa) as (j' & -> & Hj').
    by eapply (kept_outside b B L j' _ j o'); eauto.
Qed.

(** Cutting a limbo block in two: a step of the tiling only. *)
Lemma core_split b B L i k :
  core b B L → i ∈ L → B !! i = Some (Alloc k) → 1 ≤ k →
  core b (<[i + 2 ^ (k - 1):=Alloc (k - 1)]> (<[i:=Alloc (k - 1)]> B)) (L ∪ {[i + 2 ^ (k - 1)]}).
Proof.
  intros HC HiL Hi Hk. pose proof (c_tiling _ _ _ HC) as HT.
  pose proof (tiling_split_fresh _ _ _ _ HT Hi Hk) as Hj.
  pose proof (pow2_pos (k - 1)) as Hpos. pose proof (pow2_pred k Hk) as Hpow.
  pose proof (t_bound _ _ HT _ _ Hi) as Hb. simpl in Hb.
  set (j := i + 2 ^ (k - 1)) in *. assert (i ≠ j) as Hij by lia.
  split.
  - apply HC.
  - by apply tiling_split.
  - intros l Hl. rewrite !lookup_insert. repeat case_decide; [eauto|eauto|].
    apply (c_limbo _ _ _ HC). set_solver.
  - intros l Hl. destruct (c_meta _ _ _ HC l Hl) as (m & Hm & Hok). exists m. split; [done|].
    rewrite !lookup_insert. destruct (decide (j = l)) as [E1|E1]; [|destruct (decide (i = l)) as [E2|E2]].
    + subst l. rewrite Hj in Hok. rewrite bool_decide_true by set_solver. simpl in *.
      naive_solver.
    + subst l. rewrite Hi in Hok. rewrite bool_decide_true in * by set_solver. simpl in *.
      naive_solver.
    + by rewrite (bool_decide_ext (l ∈ L ∪ {[j]}) (l ∈ L)) by set_solver.
  - intros l x p m. rewrite !lookup_insert. intros Hx HxL Hp Hm.
    destruct (decide (j = l)) as [E1|E1]; [|destruct (decide (i = l)) as [E2|E2]].
    + injection Hx as <-. subst l. simpl in Hp.
      apply (c_owner _ _ _ HC i (Alloc k) p m); [by auto..| |done]. simpl. lia.
    + injection Hx as <-. subst l. simpl in Hp.
      apply (c_owner _ _ _ HC i (Alloc k) p m); [by auto..| |done]. simpl. lia.
    + apply (c_owner _ _ _ HC l x p m); [done| |done..]. set_solver.
  - intros o Ho. destruct (c_lists _ _ _ HC o Ho) as (h & l & Hfa & Hc & Hnd & Hl).
    exists h, l. split; [done|]. split; [done|]. split; [done|]. intros a. rewrite Hl.
    split; intros (i' & -> & Hi'); exists i'; (split; [done|]).
    + rewrite !lookup_insert_ne by congruence. done.
    + rewrite !lookup_insert in Hi'. repeat case_decide; congruence.
Qed.

(** Joining two adjacent limbo blocks of the same order. *)
Lemma core_join b B L i k :
  core b B L → i ∈ L → i + 2 ^ k ∈ L → B !! i = Some (Alloc k) →
  B !! (i + 2 ^ k) = Some (Alloc k) → k < MAX_ORDER →
  core b (<[i:=Alloc (k + 1)]> (delete (i + 2 ^ k) B)) (L ∖ {[i + 2 ^ k]}).
Proof.
  intros HC HiL HjL Hi Hj Hk. pose proof (c_tiling _ _ _ HC) as HT.
  pose proof (t_bound _ _ HT _ _ Hi) as Hb. simpl in Hb.
  pose proof (pow2_pos k ltac:(lia)) as Hpos. pose proof (pow2_succ k ltac:(lia)) as Hpow.
  set (j := i + 2 ^ k) in *. assert (i ≠ j) as Hij by lia.
  split.
  - apply HC.
  - by apply tiling_join; [..|lia].
  - intros l Hl. rewrite lookup_insert, lookup_delete. repeat case_decide; [eauto|set_solver|].
    apply (c_limbo _ _ _ HC). set_solver.
  - intros l Hl. destruct (c_meta _ _ _ HC l Hl) as (m & Hm & Hok). exists m. split; [done|].
    rewrite lookup_insert, lookup_delete. destruct (decide (i = l)) as [E1|E1]; [|destruct (decide (j = l)) as [E2|E2]].
    + subst l. rewrite Hi in Hok. rewrite bool_decide_true in * by set_solver. simpl in *.
      naive_solver.
    + subst l. rewrite Hj in Hok. rewrite bool_decide_true in Hok by set_solver. simpl in *.
      naive_solver.
    + by rewrite (bool_decide_ext (l ∈ L ∖ {[j]}) (l ∈ L)) by set_solver.
  - intros l x p m. rewrite lookup_insert, lookup_delete. intros Hx HxL Hp Hm.
    destruct (decide (i = l)) as [E1|E1]; [|destruct (decide (j = l)) as [E2|E2]; [done|]].
    + injection Hx as <-. subst l. simpl in Hp. rewrite Hpow in Hp.
      destruct (Z.lt_ge_cases p j).
      * apply (c_owner _ _ _ HC i (Alloc k) p m); [by auto..| |done]. simpl. lia.
      * apply (c_owner _ _ _ HC j (Alloc k) p m); [by auto..| |done]. simpl. lia.
    + apply (c_owner _ _ _ HC l x p m); [done| |done..]. set_solver.
  - intros o Ho. destruct (c_lists _ _ _ HC o Ho) as (h & l & Hfa & Hc & Hnd & Hl).
    exists h, l. split; [done|]. split; [done|]. split; [done|]. intros a. rewrite Hl.
    split; intros (i' & -> & Hi'); exists i'; (split; [done|]).
    + rewrite lookup_insert_ne, lookup_delete_ne by congruence. done.
    + rewrite lookup_insert, lookup_delete in Hi'. repeat case_decide; congruence.
Qed.

(** Claiming a limbo block for a client, or returning a client's block to
    limbo: only the metadata of its head changes. *)
Lemma core_relimbo b B (L L' : gset Z) i o m m' :
  core b B L → B !! i = Some (Alloc o) → block_meta b !! i = Some m →
  owner_slab m' = owner_slab m →
  meta_ok (Some (Alloc o)) (bool_decide (i ∈ L')) m' →
  (∀ j, j ≠ i → j ∈ L' ↔ j ∈ L) →
  (i ∈ L' → ∀ p mp, i ≤ p < i + 2 ^ o → block_meta b !! p = Some mp → owner_slab mp = NULL) →
  core (set_block_meta (<[i:=m']> (block_meta b)) b) B L'.
Proof.
  intros HC Hi Hm Ho Hok HL Hown. split; simpl.
  - destruct (c_region _ _ _ HC). by split.
  - apply HC.
  - intros j Hj. destruct (decide (j = i)) as [->|Hne]; [eauto|].
    apply (c_limbo _ _ _ HC). by apply HL.
  - intros j Hj. destruct (decide (j = i)) as [->|E].
    + exists m'. by rewrite lookup_insert_eq, Hi.
    + rewrite lookup_insert_ne by done. rewrite (bool_decide_ext (j ∈ L') (j ∈ L)) by (apply HL; congruence). by apply HC.
  - intros j x p mp Hj Hx Hp. rewrite lookup_insert. intros Hmp.
    assert (∃ mp', block_meta b !! p = Some mp' ∧ owner_slab mp = owner_slab mp')
      as (mp' & Hmp' & ->).
    { case_decide; [|eauto]. subst p. injection Hmp as <-. eauto. }
    destruct (decide (j = i)) as [->|Hne].
    + rewrite Hi in Hj. injection Hj as <-. destruct Hx as [Hx|Hx]; [discriminate|].
      by eapply Hown.
    + apply (c_owner _ _ _ HC j x p mp'); [done| |done..]. by rewrite <-HL.
  - apply HC.
Qed.

Lemma bframe_set_meta (keep : Z → Z → Prop) b i m m' :
  block_meta b !! i = Some m → owner_slab m' = owner_slab m →
  bframe keep b (set_block_meta (<[i:=m']> (block_meta b)) b).
Proof. intros Hm Ho. by eapply bframe_intro. Qed.

(** Length of a free list: at most one entry per page. *)
Lemma freelist_length b B L o h l :
  core b B L → freelist_ok b B o h l → (length l ≤ Z.to_nat (managed_num_blocks b))%nat.
Proof.
  intros HC (_ & _ & Hnd & Hl).
  assert (l ⊆+ (paddr b <$> seqZ 0 (managed_num_blocks b))) as Hsub.
  { apply NoDup_submseteq; [done|]. intros a (i & -> & Hi)%Hl.
    apply list_elem_of_fmap. exists i. split; [done|]. apply elem_of_seqZ.
    pose proof (core_index _ _ _ _ _ HC Hi). lia. }
  apply submseteq_length in Hsub. by rewrite length_fmap, length_seqZ in Hsub.
Qed.

(** * The client's view *)

(** The allocated blocks: index of the first page to order. *)
Definition allocs (B : gmap Z blk) : gmap Z Z :=
  omap (λ x, match x with
             | Alloc o => Some o
             | Free _ => None
             end) B.

Lemma lookup_allocs B i o : allocs B !! i = Some o ↔ B !! i = Some (Alloc o).
Proof.
  unfold allocs. rewrite lookup_omap.
  destruct (B !! i) as [[o'|o']|]; simpl; naive_solver.
Qed.

(** [buddy_rep b A]: the state [b] is well formed and exactly the blocks of
    [A] are allocated. *)
Definition buddy_rep (b : bstate) (A : gmap Z Z) : Prop :=
  ∃ B, core b B ∅ ∧ A = allocs B.
