(* ===== verification/BuddySpec.v ===== *)
(** Total correctness of the buddy allocator's operations against the
    invariant of BuddyInv.v. *)

From S2P Require Import Prelude.
From S2P Require Import Buddy.
From S2P Require Import BuddyInv.

(** * Memory accesses *)

Lemma wp_read_free_area b o h (Q : Z → bstate → Prop) :
  free_area b !! o = Some h → Q h b → wp (read_free_area o) Q b.
Proof. intros H HQ. unfold read_free_area. wp_auto. by eapply wp_of_option. Qed.

Lemma wp_write_free_area b o h p (Q : unit → bstate → Prop) :
  free_area b !! o = Some h → Q tt (set_free_area (<[o:=p]> (free_area b)) b) →
  wp (write_free_area o p) Q b.
Proof.
  intros H HQ. unfold write_free_area. wp_auto. eapply wp_of_option; [done|]. by wp_auto.
Qed.

Lemma wp_read_meta b i m (Q : block_meta_t → bstate → Prop) :
  block_meta b !! i = Some m → Q m b → wp (read_meta i) Q b.
Proof. intros H HQ. unfold read_meta. wp_auto. by eapply wp_of_option. Qed.

Lemma wp_update_meta b i f m (Q : unit → bstate → Prop) :
  block_meta b !! i = Some m → Q tt (set_block_meta (<[i:=f m]> (block_meta b)) b) →
  wp (update_meta i f) Q b.
Proof.
  intros H HQ. unfold update_meta. wp_auto. eapply wp_of_option; [done|]. by wp_auto.
Qed.

Lemma wp_load_link b a q (Q : Z → bstate → Prop) :
  mem b !! a = Some (Link q) → Q q b → wp (load_link a) Q b.
Proof. intros H HQ. unfold load_link. wp_auto. by rewrite H. Qed.

Lemma wp_store_cell b a c (Q : unit → bstate → Prop) :
  in_region b a = true → Q tt (set_mem (<[a:=c]> (mem b)) b) → wp (store_cell a c) Q b.
Proof. intros H HQ. unfold store_cell. wp_auto. by rewrite H. Qed.

Lemma wp_push_free b o a h (Q : unit → bstate → Prop) :
  free_area b !! o = Some h → in_region b a = true →
  Q tt (set_free_area (<[o:=a]> (free_area b)) (set_mem (<[a:=Link h]> (mem b)) b)) →
  wp (push_free o a) Q b.
Proof.
  intros Hh Ha HQ. unfold push_free. wp_auto. eapply wp_read_free_area; [done|].
  wp_auto. eapply wp_store_cell; [done|]. by eapply wp_write_free_area.
Qed.

(** * Free-list steps *)

(** Marking the head of a limbo block free and pushing it. *)
Lemma wp_give {A} b B L i o (k : prog bstate A) Q :
  core b B L → i ∈ L → B !! i = Some (Alloc o) →
  (∀ b', core b' (<[i:=Free o]> B) (L ∖ {[i]}) → bframe (kept B L) b b' → wp k Q b') →
  wp (_ ← update_meta i (set_free_head true);
      _ ← update_meta i (set_free_order (u8 o));
      _ ← push_free o (paddr b i); k) Q b.
Proof.
  intros HC HiL Hi Hk. pose proof (core_order _ _ _ _ _ HC Hi) as Ho. simpl in Ho.
  destruct (core_meta_at _ _ _ _ _ HC Hi) as (m & Hm & _).
  destruct (c_lists _ _ _ HC o Ho) as (h & l & Hh & _).
  destruct (core_give b B L i o m h HC HiL Hi Hm Hh) as [HC' HF].
  wp_auto. eapply wp_update_meta; [done|]. wp_auto.
  eapply wp_update_meta; [apply lookup_insert_eq|]. wp_auto.
  eapply wp_push_free; [done|exact (in_region_paddr b i (core_index _ _ _ _ _ HC Hi))|]. simpl.
  unfold MAX_ORDER in Ho. rewrite insert_insert_eq, u8_small by lia. by apply Hk.
Qed.

Lemma wp_give_last b B L i o (Q : unit → bstate → Prop) :
  core b B L → i ∈ L → B !! i = Some (Alloc o) →
  (∀ b', core b' (<[i:=Free o]> B) (L ∖ {[i]}) → bframe (kept B L) b b' → Q tt b') →
  wp (_ ← update_meta i (set_free_head true);
      _ ← update_meta i (set_free_order (u8 o));
      push_free o (paddr b i)) Q b.
Proof.
  intros HC HiL Hi HQ.
  pose proof (wp_give b B L i o (mret tt) Q HC HiL Hi HQ) as H%wp_bind_inv.
  apply wp_bind. eapply wp_mono; [exact H|]. intros [] s Hs%wp_bind_inv.
  apply wp_bind. eapply wp_mono; [exact Hs|]. intros [] s' Hs'. by apply wp_unit_r.
Qed.

Lemma wp_mark_free_head {A} b i o (k : prog bstate A) Q :
  region_ok b → 0 ≤ i < managed_num_blocks b →
  wp (_ ← update_meta i (set_free_head true); _ ← update_meta i (set_free_order (u8 o)); k) Q b →
  wp (_ ← mark_free_head (paddr b i) o; k) Q b.
Proof.
  intros Hr Hi HQ. apply wp_bind. unfold mark_free_head. apply wp_bind, wp_get. cbv beta zeta.
  rewrite addr_to_index_paddr by done. by apply wp_bind_inv, wp_bind_assoc.
Qed.

(** Popping the head of a non-empty list. *)
Lemma wp_pop_free b B L o h :
  core b B L → 0 ≤ o ≤ MAX_ORDER → free_area b !! o = Some h → h ≠ NULL →
  wp (pop_free o) (λ blk b', ∃ i, blk = paddr b i ∧ B !! i = Some (Free o) ∧
     core b' (<[i:=Alloc o]> B) (L ∪ {[i]}) ∧ bframe (kept B L) b b') b.
Proof.
  intros HC Ho Hh Hnz. destruct (c_lists _ _ _ HC o Ho) as (h' & l & Hok).
  pose proof Hok as (Hh' & Hc & Hnd & Hl). simplify_eq.
  destruct l as [|a l]; simpl in Hc; [done|]. destruct Hc as (-> & _ & q & Hq & Hc).
  destruct (proj1 (Hl a) ltac:(set_solver)) as (i & -> & Hi).
  pose proof (core_index _ _ _ _ _ HC Hi) as Hri.
  destruct (core_meta_at _ _ _ _ _ HC Hi) as (m & Hm & _).
  unfold pop_free. wp_auto. eapply wp_read_free_area; [done|].
  rewrite (proj2 (Z.eqb_neq _ _) Hnz). wp_auto. eapply wp_load_link; [done|]. wp_auto.
  eapply wp_write_free_area; [done|]. wp_auto.
  change (addr_to_index (set_free_area (<[o:=q]> (free_area b)) b) (paddr b i))
    with (addr_to_index b (paddr b i)).
  rewrite addr_to_index_paddr by (try apply HC; done).
  rewrite Z.geb_leb, (proj2 (Z.leb_le 0 i)) by lia.
  eapply wp_update_meta; [done|]. wp_auto. exists i. split; [done|]. split; [done|].
  by eapply (core_take b B L i o m (paddr b i) [] l q (mem b)); auto.
Qed.

(** Unlinking a free block anywhere in its list. *)
Lemma wp_remove_from_freelist b B L i o (Q : bool → bstate → Prop) :
  core b B L → B !! i = Some (Free o) →
  (∀ h h' mm l1 l2,
     freelist_ok b B o h (l1 ++ paddr b i :: l2) → chain mm h' (l1 ++ l2) →
     (mm = mem b ∨ ∃ pa q, pa ∈ l1 ∧ mm = <[pa:=Link q]> (mem b)) →
     Q true (BState (managed_start b) (managed_num_blocks b) (<[o:=h']> (free_area b))
               (block_meta b) (buddy_lock b) mm)) →
  wp (remove_from_freelist o (paddr b i)) Q b.
Proof.
  intros HC Hi HQ. pose proof (core_order _ _ _ _ _ HC Hi) as Ho. simpl in Ho.
  destruct (c_lists _ _ _ HC o Ho) as (h & l & Hok).
  pose proof (freelist_length _ _ _ _ _ _ HC Hok) as Hlen.
  pose proof Hok as (Hh & Hc & Hnd & Hl).
  assert (paddr b i ∈ l) as Hil by (apply Hl; eauto).
  unfold remove_from_freelist. wp_auto. eapply wp_read_free_area; [done|].
  apply (wp_loop (λ n '(prev, cur) s, s = b ∧ ∃ l1 l2, l = l1 ++ l2 ∧ n = length l2 ∧
    chain (mem b) cur l2 ∧ paddr b i ∈ l2 ∧
    ((l1 = [] ∧ prev = NULL ∧ cur = h) ∨ ∃ l1', l1 = l1' ++ [prev])) (length l)).
  - split; [done|]. exists [], l. auto 10.
  - unfold list_fuel. lia.
  - intros n [prev cur] s (-> & l1 & l2 & -> & -> & Hc2 & Hi2 & Hprev).
    destruct l2 as [|x l2]; [by apply elem_of_nil in Hi2|].
    destruct Hc2 as (-> & Hx0 & q & Hq & Hc2).
    rewrite (proj2 (Z.eqb_neq _ _) Hx0). wp_auto. eapply wp_load_link; [done|].
    destruct (Z.eqb_spec x (paddr b i)) as [->|Hne].
    + wp_auto. destruct Hprev as [(-> & -> & <-)|(l1' & ->)].
      * eapply wp_write_free_area; [done|]. wp_auto.
        by apply (HQ (paddr b i) q (mem b) [] l2); auto.
      * rewrite <-app_assoc in *. simpl in *.
        assert (prev ∈ l1' ++ prev :: paddr b i :: l2) as Hpl by set_solver.
        destruct (chain_elem _ _ _ _ Hc Hpl) as [Hp0 _].
        destruct (proj1 (Hl prev) Hpl) as (j & -> & Hj).
        rewrite (proj2 (Z.eqb_neq _ _) Hp0).
        eapply wp_store_cell; [apply in_region_paddr; by eapply core_index|]. wp_auto.
        specialize (HQ h h (<[paddr b j:=Link q]> (mem b)) (l1' ++ [paddr b j]) l2).
        rewrite (insert_id (free_area b) o h), <-!app_assoc in HQ by done. simpl in HQ.
        apply HQ; [done|by eapply chain_unlink|]. right. exists (paddr b j), q. set_solver.
    + wp_auto. exists (length l2). split; [simpl; lia|]. split; [done|].
      exists (l1 ++ [x]), l2. rewrite <-app_assoc. apply elem_of_cons in Hi2 as [?|?]; [done|].
      split; [done|]. split; [done|]. split; [done|]. split; [done|]. right. by exists l1.
Qed.

(** * order_for_pages *)

Lemma order_loop_spec fuel o sz :
  0 ≤ o ≤ 30 → 0 ≤ sz ≤ 2 ^ 30 → 30 < o + Z.of_nat fuel →
  (∀ t', 0 ≤ t' < o → 2 ^ t' < sz) →
  ∃ t, order_loop fuel o (2 ^ o) sz = Ok t ∧ 0 ≤ t ≤ 30 ∧ sz ≤ 2 ^ t ∧
       ∀ t', 0 ≤ t' < t → 2 ^ t' < sz.
Proof.
  revert o. induction fuel as [|fuel IH]; intros o Ho Hsz Hf Hlow; [lia|]. simpl.
  pose proof (pow2_pos o ltac:(lia)) as Hp.
  assert (2 ^ o ≤ 2 ^ 30) as Hp30 by (apply Z.pow_le_mono_r; lia).
  rewrite u64_small by lia. destruct (Z.ltb_spec (2 ^ o) sz) as [Hlt|Hge].
  - assert (o < 30) as Ho30.
    { destruct (Z.eq_dec o 30) as [->|]; lia. }
    assert (2 ^ (o + 1) ≤ 2 ^ 30) as Hp1 by (apply Z.pow_le_mono_r; lia).
    rewrite pow2_succ in Hp1 by lia. rewrite Z.gtb_ltb, (proj2 (Z.ltb_ge _ _))
      by (unfold int_max; lia).
    replace (2 ^ o * 2) with (2 ^ (o + 1)) by (rewrite pow2_succ; lia).
    apply IH; [lia|lia|lia|]. intros t' Ht'. destruct (Z.eq_dec t' o) as [->|]; [done|].
    apply Hlow. lia.
  - exists o. split; [done|]. split; [lia|]. split; [lia|done].
Qed.

(** [order_for_pages] returns the least order whose block holds the request. *)
Lemma order_for_pages_spec sz :
  0 ≤ sz ≤ 2 ^ 30 →
  ∃ t, order_for_pages sz = Ok t ∧ 0 ≤ t ≤ 30 ∧ sz ≤ 2 ^ t ∧
       ∀ t', 0 ≤ t' < t → 2 ^ t' < sz.
Proof. intros. apply (order_loop_spec 32 0 sz); lia. Qed.

(** * Searching, splitting and merging *)

Lemma wp_find_order b B L target (Q : Z → bstate → Prop) :
  core b B L → 0 ≤ target ≤ MAX_ORDER →
  (∀ k h, target ≤ k ≤ MAX_ORDER → free_area b !! k = Some h → h ≠ NULL → Q k b) →
  ((∀ i o, B !! i = Some (Free o) → o < target) → Q (MAX_ORDER + 1) b) →
  wp (find_order target) Q b.
Proof.
  intros HC Ht HQ HQ'. unfold find_order.
  apply (wp_loop (λ n k s, s = b ∧ target ≤ k ≤ MAX_ORDER + 1 ∧
    n = Z.to_nat (MAX_ORDER + 1 - k) ∧ ∀ i o, B !! i = Some (Free o) → target ≤ o → k ≤ o)
    (Z.to_nat (MAX_ORDER + 1 - target))).
  - split; [done|]. split; [lia|]. split; [done|]. auto.
  - unfold MAX_ORDER. lia.
  - intros n k s (-> & Hk & -> & Hlow). destruct (Z.leb_spec k MAX_ORDER) as [Hle|Hgt].
    + destruct (c_lists _ _ _ HC k ltac:(lia)) as (h & l & Hh & Hc & _ & Hl).
      wp_auto. eapply wp_read_free_area; [done|].
      destruct (Z.eqb_spec h NULL) as [->|Hnz]; wp_auto.
      * exists (Z.to_nat (MAX_ORDER + 1 - (k + 1))). split; [lia|]. split; [done|].
        split; [lia|]. split; [done|]. intros i o Hi Ho. specialize (Hlow i o Hi Ho).
        destruct (Z.eq_dec k o) as [<-|]; [|lia].
        destruct l as [|a l]; [|by destruct Hc as (<- & ? & _)].
        assert (paddr b i ∈ []) as Hin by (apply Hl; eauto). by apply elem_of_nil in Hin.
      * eapply HQ; [|done..]. lia.
    + wp_auto. replace k with (MAX_ORDER + 1) by lia. apply HQ'. intros i o Hi.
      pose proof (core_order _ _ _ _ _ HC Hi) as Ho. simpl in Ho.
      destruct (Z.lt_ge_cases o target); [done|]. specialize (Hlow i o Hi). lia.
Qed.

Definition same_kept (B B' : gmap Z blk) (L L' : gset Z) : Prop :=
  ∀ j o, kept B L j o ↔ kept B' L' j o.

Lemma same_kept_trans B1 B2 B3 L1 L2 L3 :
  same_kept B1 B2 L1 L2 → same_kept B2 B3 L2 L3 → same_kept B1 B3 L1 L3.
Proof. intros H1 H2 j o. by rewrite (H1 j o), (H2 j o). Qed.

Lemma same_kept_give B (L : gset Z) i o :
  i ∈ L → same_kept B (<[i:=Free o]> B) L (L ∖ {[i]}).
Proof.
  intros Hi j o'. unfold kept. rewrite lookup_insert. case_decide as E; [subst|]; set_solver.
Qed.

Lemma same_kept_take B (L : gset Z) i o :
  B !! i = Some (Free o) → same_kept B (<[i:=Alloc o]> B) L (L ∪ {[i]}).
Proof.
  intros Hi j o'. unfold kept. rewrite lookup_insert. case_decide as E; [subst|]; [|set_solver].
  rewrite Hi. set_solver.
Qed.

Lemma same_kept_split B (L : gset Z) i j x y :
  i ∈ L → B !! j = None → same_kept B (<[j:=x]> (<[i:=y]> B)) L (L ∪ {[j]}).
Proof.
  intros Hi Hj l o'. unfold kept. destruct (decide (l = j)) as [->|]; [rewrite Hj; set_solver|].
  rewrite lookup_insert_ne by done. destruct (decide (l = i)) as [->|]; [set_solver|].
  rewrite lookup_insert_ne by done. set_solver.
Qed.

Lemma same_kept_join B (L : gset Z) i j y :
  i ∈ L → j ∈ L → i ≠ j → same_kept B (<[i:=y]> (delete j B)) L (L ∖ {[j]}).
Proof.
  intros Hi Hj Hne l o'. unfold kept. destruct (decide (l = i)) as [->|]; [set_solver|].
  rewrite lookup_insert_ne by done. destruct (decide (l = j)) as [->|].
  - rewrite lookup_delete_eq. set_solver.
  - rewrite lookup_delete_ne by done. set_solver.
Qed.

Lemma bframe_step B B' (L L' : gset Z) b s b' :
  bframe (kept B L) b s → same_kept B B' L L' → bframe (kept B' L') s b' → bframe (kept B L) b b'.
Proof.
  intros HF HS HF'. eapply bframe_trans; [done|]. eapply bframe_weaken; [|done].
  intros i o. by apply HS.
Qed.

Lemma wp_split_down b B i k target :
  core b B {[i]} → B !! i = Some (Alloc k) → 0 ≤ target ≤ k →
  wp (split_down (paddr b i) k target) (λ _ b', ∃ B',
     core b' B' {[i]} ∧ B' !! i = Some (Alloc target) ∧
     bframe (kept B {[i]}) b b' ∧ same_kept B B' {[i]} {[i]}) b.
Proof.
  intros HC Hi Ht. pose proof (core_order _ _ _ _ _ HC Hi) as Hk. simpl in Hk.
  unfold split_down.
  apply (wp_loop (λ n k' s, ∃ B', n = Z.to_nat (k' - target) ∧ target ≤ k' ∧
    core s B' {[i]} ∧ B' !! i = Some (Alloc k') ∧ bframe (kept B {[i]}) b s ∧
    same_kept B B' {[i]} {[i]}) (Z.to_nat (k - target))).
  - exists B. split; [done|]. split; [lia|]. split; [done|]. split; [done|].
    split; [apply bframe_refl|by intros ? ?].
  - unfold MAX_ORDER in Hk. lia.
  - intros n k' s (B' & -> & Hk' & HC' & Hi' & HF & HS).
    rewrite Z.gtb_ltb. destruct (Z.ltb_spec target k') as [Hlt|Hge]; wp_auto.
    2:{ exists B'. replace target with k' by lia. done. }
    pose proof (core_order _ _ _ _ _ HC' Hi') as Hk2. simpl in Hk2.
    pose proof (core_split _ _ _ i k' HC' ltac:(set_solver) Hi' ltac:(lia)) as HC2.
    set (j := i + 2 ^ (k' - 1)) in *.
    pose proof (pow2_pos (k' - 1) ltac:(lia)) as Hpos.
    set (B2 := <[j:=Alloc (k' - 1)]> (<[i:=Alloc (k' - 1)]> B')) in *.
    assert (B2 !! j = Some (Alloc (k' - 1))) as Hj by apply lookup_insert_eq.
    assert (u64 (paddr b i + Z.shiftl BLOCK_SIZE (k' - 1)) = paddr s j) as Ea.
    { pose proof (paddr_range s j (c_region _ _ _ HC2) (core_index _ _ _ _ _ HC2 Hj)) as Hr.
      assert (paddr b i + Z.shiftl BLOCK_SIZE (k' - 1) = paddr s j) as Ea.
      { rewrite shiftl_block by lia. unfold paddr, j. rewrite (f_start _ _ _ HF). lia. }
      rewrite Ea. by rewrite u64_small. }
    rewrite Ea. apply wp_bind_inv, wp_mark_free_head; [apply HC2|by eapply core_index|].
    apply (wp_give s B2 ({[i]} ∪ {[j]}) j (k' - 1)); [done|set_solver|done|].
    intros b' HCb HFb. wp_auto. exists (Z.to_nat (k' - 1 - target)). split; [lia|].
    assert (same_kept B B2 {[i]} ({[i]} ∪ {[j]})) as HS2.
    { eapply same_kept_trans; [done|]. apply same_kept_split; [set_solver|].
      eapply tiling_split_fresh; [by eapply c_tiling|done|lia]. }
    assert (i ≠ j) as Hij by lia.
    assert (({[i]} ∪ {[j]}) ∖ {[j]} = ({[i]} : gset Z)) as EL by (clear -Hij; set_solver).
    rewrite EL in HCb. exists (<[j:=Free (k' - 1)]> B2). split; [done|]. split; [lia|]. split; [done|].
    split; [by unfold B2; rewrite !lookup_insert_ne, lookup_insert_eq by lia|].
    split; [by eapply bframe_step|]. eapply same_kept_trans; [done|].
    pose proof (same_kept_give B2 ({[i]} ∪ {[j]}) j (k' - 1) ltac:(set_solver)) as H.
    by rewrite EL in H.
Qed.

(** The buddy of a limbo block, when it is free with the same order, lies right
    before or right after it. *)
Lemma buddy_adjacent b B L i o :
  core b B L → B !! i = Some (Alloc o) → 0 ≤ o < MAX_ORDER →
  let buddy := Z.lxor (paddr b i) (Z.shiftl BLOCK_SIZE o) in
  (buddy = paddr b (i + 2 ^ o) ∨ buddy = paddr b (i - 2 ^ o)) ∧
  buddy < managed_start b + 2 ^ 44.
Proof.
  intros HC Hi Ho buddy. pose proof (core_index _ _ _ _ _ HC Hi) as Hri.
  pose proof (paddr_range b i (c_region _ _ _ HC) Hri) as Hr.
  destruct (c_region _ _ _ HC) as [Hs Hn Ht].
  assert (2 ^ o ≤ 2 ^ 15) as Hle by (unfold MAX_ORDER in Ho; apply Z.pow_le_mono_r; lia).
  unfold buddy. rewrite shiftl_block, block_pow2 by lia.
  destruct (lxor_pow2 (paddr b i) (o + 12)) as [E|[E _]]; [lia|lia| |]; rewrite E;
    rewrite <-block_pow2 by lia; unfold paddr, BLOCK_SIZE, int_max in *; lia.
Qed.

(** Two adjacent limbo blocks of one order become one block of the next. *)
Lemma join_limbo b B i j c :
  core b B ({[i]} ∪ {[j]}) → B !! i = Some (Alloc c) → B !! j = Some (Alloc c) →
  (j = i + 2 ^ c ∨ j = i - 2 ^ c) → 0 ≤ c < MAX_ORDER →
  core b (<[Z.min i j:=Alloc (c + 1)]> (delete (Z.max i j) B)) {[Z.min i j]} ∧
  same_kept B (<[Z.min i j:=Alloc (c + 1)]> (delete (Z.max i j) B)) ({[i]} ∪ {[j]}) {[Z.min i j]}.
Proof.
  intros HC Hi Hj Hadj Hc. pose proof (pow2_pos c ltac:(lia)) as Hpos.
  assert (Z.max i j = Z.min i j + 2 ^ c) as Emax by lia.
  assert (({[i]} ∪ {[j]}) ∖ {[Z.max i j]} = ({[Z.min i j]} : gset Z)) as EL.
  { destruct Hadj as [-> | ->].
    - rewrite Z.max_r, Z.min_l by lia. assert (i ≠ i + 2 ^ c) as H by lia. clear -H. set_solver.
    - rewrite Z.max_l, Z.min_r by lia. assert (i ≠ i - 2 ^ c) as H by lia. clear -H. set_solver. }
  assert (∀ x, x = i ∨ x = j → x ∈ ({[i]} ∪ {[j]} : gset Z) ∧ B !! x = Some (Alloc c)) as Hx.
  { intros x [-> | ->]; (split; [set_solver|done]). }
  rewrite <-EL. split.
  - rewrite Emax. apply core_join; [done|apply Hx; lia|rewrite <-Emax; apply Hx; lia| | |lia].
    + apply Hx. lia.
    + rewrite <-Emax. apply Hx. lia.
  - apply same_kept_join; [apply Hx; lia|apply Hx; lia|lia].
Qed.

(** A page whose metadata says it heads a free block of order [c] does. *)
Lemma free_head_block b B L j m c :
  core b B L → 0 ≤ j < managed_num_blocks b → block_meta b !! j = Some m → 0 ≤ c →
  is_head_of_free_block m = true → free_order m = c →
  B !! j = Some (Free c) ∧ is_head_of_alloc_block m = false ∧ owner_slab m = NULL.
Proof.
  intros HC Hj Hm Hc0 Hfh Hfo. destruct (c_meta _ _ _ HC j Hj) as (m' & Hm' & Hok). rewrite Hm in Hm'. injection Hm' as <-.
  assert (B !! j = Some (Free c)) as HBj.
  { destruct (B !! j) as [[o'|o']|]; simpl in Hok; [|destruct Hok as [Hok _]; congruence..].
    destruct Hok as (_ & _ & <-). by rewrite Hfo. }
  rewrite HBj in Hok. destruct Hok as (_ & Hah & _). split_and!; [done|done|].
  apply (c_owner _ _ _ HC j (Free c) j m HBj); [by auto| |done]. pose proof (pow2_pos c). simpl. lia.
Qed.

Lemma wp_merge_up b B i o :
  core b B {[i]} → B !! i = Some (Alloc o) →
  wp (merge_up (paddr b i) o) (λ '(a, c) b', ∃ i' B',
     a = paddr b' i' ∧ core b' B' {[i']} ∧ B' !! i' = Some (Alloc c) ∧
     bframe (kept B {[i]}) b b' ∧ same_kept B B' {[i]} {[i']}) b.
Proof.
  intros HC Hi. pose proof (core_order _ _ _ _ _ HC Hi) as Ho. simpl in Ho.
  unfold merge_up.
  apply (wp_loop (λ n '(a, c) s, ∃ i' B', n = Z.to_nat (MAX_ORDER - c) ∧
    a = paddr s i' ∧ core s B' {[i']} ∧ B' !! i' = Some (Alloc c) ∧
    bframe (kept B {[i]}) b s ∧ same_kept B B' {[i]} {[i']}) (Z.to_nat (MAX_ORDER - o))).
  - exists i, B. split; [done|]. split; [done|]. split; [done|]. split; [done|].
    split; [apply bframe_refl|by intros ? ?].
  - unfold MAX_ORDER in *. lia.
  - clear HC Hi Ho. intros n [a c] s (i' & B' & -> & -> & HC & Hi & HF & HS).
    pose proof (core_order _ _ _ _ _ HC Hi) as Hc. simpl in Hc.
    destruct (Z.ltb_spec c MAX_ORDER) as [Hlt|Hge]; wp_auto; [|by exists i', B'].
    destruct (buddy_adjacent s B' {[i']} i' c HC Hi ltac:(lia)) as [Hadj H44].
    set (buddy := Z.lxor (paddr s i') (Z.shiftl BLOCK_SIZE c)) in *. cbv zeta.
    destruct (addr_to_index_cases s buddy (c_region _ _ _ HC) H44)
      as [(j & Hj & Eb & ->)|[_ ->]]; [|wp_auto; by exists i', B'].
    rewrite (proj2 (Z.ltb_ge j 0)) by lia.
    destruct (c_meta _ _ _ HC j Hj) as (m & Hm & _). wp_auto.
    eapply wp_read_meta; [done|].
    destruct (is_head_of_free_block m) eqn:Hfh; simpl; [|wp_auto; by exists i', B'].
    destruct (Z.eqb_spec (free_order m) c) as [Hfo|]; simpl; [|wp_auto; by exists i', B'].
    destruct (free_head_block s B' _ j m c HC Hj Hm ltac:(lia) Hfh Hfo) as (HBj & Hah & Hown). rewrite Hah, Hown. simpl.
    wp_auto. rewrite Eb.
    eapply (wp_remove_from_freelist s B' {[i']} j c); [done|done|].
    intros h h' mm l1 l2 Hl Hch Hmm. simpl negb. cbv iota. wp_auto. eapply wp_update_meta; [done|]. wp_auto.
    destruct (core_take s B' {[i']} j c m h l1 l2 h' mm HC HBj Hm Hl Hch Hmm) as [HCt HFt].
    exists (Z.to_nat (MAX_ORDER - (c + 1))). split; [lia|].
    assert (same_kept B (<[j:=Alloc c]> B') {[i]} ({[i']} ∪ {[j]})) as HSt.
    { eapply same_kept_trans; [done|]. by apply same_kept_take. }
    pose proof (bframe_step _ _ _ _ _ _ _ HF HS HFt) as HFb.
    pose proof (pow2_pos c ltac:(lia)) as Hpos.
    assert (i' ≠ j) as Hij.
    { intros ->. congruence. }
    destruct (join_limbo _ _ i' j c HCt) as (HCj & HSj).
    { by rewrite lookup_insert_ne. }
    { apply lookup_insert_eq. }
    { destruct Hadj as [E|E]; rewrite Eb in E; apply paddr_inj in E; lia. }
    { lia. }
    exists (Z.min i' j), (<[Z.min i' j:=Alloc (c + 1)]> (delete (Z.max i' j) (<[j:=Alloc c]> B'))).
    split; [done|]. split.
    { change (paddr _ (Z.min i' j)) with (paddr s (Z.min i' j)).
      destruct (Z.ltb_spec (paddr s j) (paddr s i')) as [Hl1|Hl1];
        unfold paddr, BLOCK_SIZE in Hl1; f_equal; lia. }
    split; [done|]. split; [apply lookup_insert_eq|]. split; [done|].
    by eapply same_kept_trans.
Qed.

(** * Locking *)

Lemma wp_acquire_buddy b (Q : unit → bstate → Prop) :
  buddy_lock b = false → Q tt (set_buddy_lock true b) → wp acquire_buddy Q b.
Proof. intros H HQ. unfold acquire_buddy. wp_auto. by rewrite H. Qed.

Lemma wp_release_buddy b (Q : unit → bstate → Prop) :
  buddy_lock b = true → Q tt (set_buddy_lock false b) → wp release_buddy Q b.
Proof. intros H HQ. unfold release_buddy. wp_auto. by rewrite H. Qed.

Lemma core_lock b B L l : core b B L → core (set_buddy_lock l b) B L.
Proof. intros [[? ? ?] ? ? ? ? ?]. by split. Qed.

Lemma lock_cycle b : buddy_lock b = false → set_buddy_lock false (set_buddy_lock true b) = b.
Proof. destruct b. simpl. by intros ->. Qed.

(** The frame of a whole critical section. *)
Lemma bframe_section keep b b' :
  buddy_lock b = false → bframe keep (set_buddy_lock true b) b' →
  bframe keep b (set_buddy_lock false b').
Proof. intros Hl [? ? ? ? Hm]. split; [done..|]. exact Hm. Qed.

(** * Claiming and returning a block *)

Lemma wp_claim {A} b B i t (k : prog bstate A) Q :
  core b B {[i]} → B !! i = Some (Alloc t) →
  (∀ b', core b' B ∅ → (∀ keep, bframe keep b b') → wp k Q b') →
  wp (_ ← update_meta i (set_alloc_head true);
      _ ← update_meta i (set_alloc_order (u8 t));
      _ ← update_meta i (set_free_head false); k) Q b.
Proof.
  intros HC Hi Hk. pose proof (core_order _ _ _ _ _ HC Hi) as Ho. simpl in Ho.
  destruct (core_meta_at _ _ _ _ _ HC Hi) as (m & Hm & Hok).
  wp_auto. eapply wp_update_meta; [done|]. wp_auto.
  eapply wp_update_meta; [apply lookup_insert_eq|]. wp_auto.
  eapply wp_update_meta; [apply lookup_insert_eq|]. simpl.
  rewrite !insert_insert_eq. unfold MAX_ORDER in Ho. rewrite u8_small by lia. apply Hk.
  - eapply (core_relimbo b B {[i]} ∅ i t m); [done|done|done|done| | |done].
    + by rewrite bool_decide_false by set_solver.
    + set_solver.
  - intros keep. exact (bframe_set_meta keep b i m
      (set_free_head false (set_alloc_order t (set_alloc_head true m))) Hm eq_refl).
Qed.

(** Writing the free flag of a limbo head that is already clear. *)
Lemma wp_mark_not_free_head b B i o Q :
  core b B {[i]} → B !! i = Some (Alloc o) →
  (∀ b', core b' B {[i]} → (∀ keep, bframe keep b b') → Q tt b') →
  wp (mark_not_free_head (paddr b i)) Q b.
Proof.
  intros HC Hi HQ. pose proof (core_index _ _ _ _ _ HC Hi) as Hri.
  destruct (core_meta_at _ _ _ _ _ HC Hi) as (m & Hm & Hf & Ha & Hok).
  unfold mark_not_free_head. wp_auto. cbv zeta.
  rewrite addr_to_index_paddr by (try apply HC; done).
  eapply wp_update_meta; [done|]. apply HQ.
  - eapply (core_relimbo b B {[i]} {[i]} i o m); [done|done|done|done| |done|].
    + by split.
    + intros HiL p mp Hp Hmp. by apply (c_owner _ _ _ HC i (Alloc o) p mp); auto.
  - intros keep. by eapply bframe_set_meta.
Qed.

Lemma allocs_claimed B B' i t :
  same_kept B B' ∅ {[i]} → B' !! i = Some (Alloc t) →
  allocs B !! i = None ∧ allocs B' = <[i:=t]> (allocs B).
Proof.
  intros HS Hi. split.
  - destruct (allocs B !! i) as [o|] eqn:E; [|done]. apply lookup_allocs in E.
    destruct (proj1 (HS i o)) as [_ H]; [by split; [|set_solver]|]. set_solver.
  - apply map_eq. intros j. rewrite lookup_insert. case_decide as E.
    + subst. by apply lookup_allocs.
    + apply option_eq. intros o. rewrite !lookup_allocs. specialize (HS j o).
      unfold kept in HS. set_solver.
Qed.

Lemma owner_frame keep b b' p m' :
  bframe keep b b' → block_meta b' !! p = Some m' →
  ∃ m, block_meta b !! p = Some m ∧ owner_slab m = owner_slab m'.
Proof.
  intros HF Hm. pose proof (f_owner _ _ _ HF p) as H. rewrite Hm in H. simpl in H.
  destruct (block_meta b !! p) as [m|]; simplify_eq/=. eauto.
Qed.

(** * The contract of the allocator *)

(** [buddy_alloc] on a well-formed allocator: either no free block is large
    enough and nothing changes, or the result is the first page of a fresh
    block of the least sufficient order. *)
Definition alloc_post (b : bstate) (A : gmap Z Z) (sz : Z) (r : Z) (b' : bstate) : Prop :=
  (r = NULL ∧ b' = b ∧
   (sz = 0 ∨ 2 ^ MAX_ORDER < sz ∨
    ∀ i m, 0 ≤ i < managed_num_blocks b → block_meta b !! i = Some m →
           is_head_of_free_block m = true → 2 ^ free_order m < sz)) ∨
  (∃ i t, r = paddr b i ∧ r ≠ NULL ∧ A !! i = None ∧
     0 ≤ t ≤ MAX_ORDER ∧ 0 < sz ≤ 2 ^ t ∧ (∀ t', 0 ≤ t' < t → 2 ^ t' < sz) ∧
     buddy_rep b' (<[i:=t]> A) ∧
     bframe (λ j o, A !! j = Some o) b b' ∧
     ∀ p m, i ≤ p < i + 2 ^ t → block_meta b' !! p = Some m → owner_slab m = NULL).

(** No free block is large enough. *)
Lemma no_large_block b B t sz :
  core b B ∅ → (∀ i o, B !! i = Some (Free o) → o < t) → (∀ t', 0 ≤ t' < t → 2 ^ t' < sz) →
  ∀ i m, 0 ≤ i < managed_num_blocks b → block_meta b !! i = Some m → is_head_of_free_block m = true → 2 ^ free_order m < sz.
Proof.
  intros HC Hnone Hleast i m Hi Hm Hf. destruct (c_meta _ _ _ HC i Hi) as (m' & Hm' & Hok). simplify_eq.
  destruct (B !! i) as [[o|o]|] eqn:EB; simpl in Hok; [|destruct Hok as [Hok _]; congruence..].
  destruct Hok as (_ & _ & <-). apply Hleast. split; [|by eapply Hnone].
  by pose proof (core_order _ _ _ _ _ HC EB) as [? _].
Qed.

Lemma wp_buddy_alloc b A sz :
  buddy_rep b A → buddy_lock b = false → 0 ≤ sz ≤ 2 ^ 30 →
  wp (buddy_alloc sz) (alloc_post b A sz) b.
Proof.
  intros (B & HC & ->) Hlock Hsz. unfold buddy_alloc.
  destruct (Z.eqb_spec sz 0) as [->|Hnz]; [wp_auto; left; auto|].
  wp_auto. apply wp_acquire_buddy; [done|]. wp_auto.
  destruct (order_for_pages_spec sz Hsz) as (t & Et & Ht & Hszt & Hleast).
  unfold lift_outcome. rewrite Et. unfold wp at 1.
  pose proof (core_lock b B ∅ true HC) as HC1. set (b1 := set_buddy_lock true b) in *.
  rewrite Z.gtb_ltb. destruct (Z.ltb_spec MAX_ORDER t) as [Hbig|Hsmall].
  { wp_auto. apply wp_release_buddy; [done|]. wp_auto. left. unfold b1. rewrite lock_cycle by done.
    split; [done|]. split; [done|]. right. left. apply Hleast. unfold MAX_ORDER in *. lia. }
  wp_auto. apply (wp_find_order b1 B ∅ t); [done|lia| |].
  2:{ intros Hnone. rewrite Z.gtb_ltb, (proj2 (Z.ltb_lt _ _)) by lia. wp_auto.
      apply wp_release_buddy; [done|]. wp_auto. left. unfold b1. rewrite lock_cycle by done.
      split; [done|]. split; [done|]. right. right. by apply (no_large_block b B t sz). }
  intros k h Hk Hh Hhnz. rewrite Z.gtb_ltb, (proj2 (Z.ltb_ge _ _)) by lia. wp_auto.
  eapply wp_mono; [eapply (wp_pop_free b1 B ∅ k h); [done|lia|done|done]|].
  intros blk b2 (i & -> & HBi & HC2 & HF2). simpl in *. wp_auto.
  pose proof (f_start _ _ _ HF2) as Es2.
  replace (paddr b1 i) with (paddr b2 i) by (unfold paddr; by rewrite Es2).
  replace (∅ ∪ {[i]}) with ({[i]} : gset Z) in HC2 by set_solver.
  set (B2 := <[i:=Alloc k]> B) in *.
  assert (B2 !! i = Some (Alloc k)) as HB2 by apply lookup_insert_eq.
  apply (wp_mark_not_free_head b2 B2 i k); [done..|]. intros b3 HC3 HF3. wp_auto.
  pose proof (f_start _ _ _ (HF3 (λ _ _, False))) as Es3.
  replace (paddr b2 i) with (paddr b3 i) by (unfold paddr; by rewrite Es3).
  eapply wp_mono; [eapply (wp_split_down b3 B2 i k t); [done|done|lia]|].
  intros [] b4 (B4 & HC4 & HB4 & HF4 & HS4). wp_auto. cbv zeta.
  pose proof (f_start _ _ _ HF4) as Es4.
  replace (addr_to_index b4 (paddr b3 i)) with i.
  2:{ replace (paddr b3 i) with (paddr b4 i) by (unfold paddr; by rewrite Es4).
      symmetry. apply addr_to_index_paddr; [apply HC4|by eapply core_index]. }
  apply wp_bind_inv. apply (wp_claim b4 B4 i t); [done..|]. intros b5 HC5 HF5. wp_auto.
  assert (same_kept B B4 ∅ {[i]}) as HS.
  { eapply same_kept_trans; [|done].
    pose proof (same_kept_take B ∅ i k HBi) as H.
    by replace (∅ ∪ {[i]}) with ({[i]} : gset Z) in H by set_solver. }
  assert (bframe (kept B ∅) b1 b5) as HF.
  { eapply bframe_trans; [done|]. eapply bframe_trans; [done|].
    eapply bframe_trans; [|done]. eapply bframe_weaken; [|done].
    intros j o Hj. apply HS4, HS, Hj. }
  apply wp_release_buddy; [by rewrite (f_lock _ _ _ HF)|]. wp_auto.
  destruct (allocs_claimed B B4 i t HS HB4) as [Hnone Hins].
  right. exists i, t. split.
  { unfold paddr in *. by rewrite Es3, Es2. }
  split; [apply paddr_pos; [apply HC3|]; by apply (core_index _ _ _ _ _ HC HBi)|].
  split; [done|]. split; [lia|]. split; [lia|]. split; [done|]. split.
  { exists B4. split; [by apply core_lock|done]. }
  split.
  - apply bframe_section; [done|]. eapply bframe_weaken; [|done].
    intros j o Hj%lookup_allocs. by split; [|set_solver].
  - intros p m Hp Hm. simpl in Hm.
    destruct (owner_frame _ _ _ _ _ (HF5 (λ _ _, False)) Hm) as (m4 & Hm4 & <-).
    apply (c_owner _ _ _ HC4 i (Alloc t) p m4); [done|set_solver|done..].
Qed.

(** * buddy_free *)

Lemma wp_unclaim {A} b B i o m (k : prog bstate A) Q :
  core b B ∅ → B !! i = Some (Alloc o) → block_meta b !! i = Some m →
  (∀ p mp, i ≤ p < i + 2 ^ o → block_meta b !! p = Some mp → owner_slab mp = NULL) →
  (∀ b', core b' B {[i]} → (∀ keep, bframe keep b b') → wp k Q b') →
  wp (_ ← update_meta i (set_alloc_head false); k) Q b.
Proof.
  intros HC Hi Hm Hown Hk. destruct (core_meta_at _ _ _ _ _ HC Hi) as (m' & Hm' & Hf & Ha & Ho).
  assert (m' = m) as -> by congruence. wp_auto. eapply wp_update_meta; [done|]. apply Hk.
  - eapply (core_relimbo b B ∅ {[i]} i o m); [done|done|done|done| | |done].
    + rewrite bool_decide_true by set_solver. by split.
    + set_solver.
  - intros keep. by eapply bframe_set_meta.
Qed.

Lemma allocs_freed B B' i o :
  B !! i = Some (Alloc o) → same_kept B B' {[i]} ∅ → allocs B' = delete i (allocs B).
Proof.
  intros Hi HS. apply map_eq. intros j. rewrite lookup_delete.
  apply option_eq. intros o'. specialize (HS j o'). unfold kept in HS.
  rewrite lookup_allocs. case_decide as E.
  - subst. set_solver.
  - rewrite lookup_allocs. set_solver.
Qed.

Lemma wp_buddy_free_order b B i o :
  core b B {[i]} → B !! i = Some (Alloc o) →
  wp (buddy_free_order (paddr b i) o) (λ _ b', ∃ B',
     core b' B' ∅ ∧ bframe (kept B {[i]}) b b' ∧ same_kept B B' {[i]} ∅) b.
Proof.
  intros HC Hi. pose proof (core_index _ _ _ _ _ HC Hi) as Hri.
  pose proof (paddr_range b i (c_region _ _ _ HC) Hri) as Hr.
  pose proof (ro_start _ (c_region _ _ _ HC)) as Hs0.
  unfold buddy_free_order.
  rewrite (proj2 (Z.eqb_neq _ _)) by (apply paddr_pos; [apply HC|lia]). wp_auto.
  assert (u64 (paddr b i - managed_start b) mod BLOCK_SIZE = 0) as ->.
  { rewrite u64_small by (unfold paddr, BLOCK_SIZE in *; lia).
    replace (paddr b i - managed_start b) with (i * BLOCK_SIZE) by (unfold paddr; lia).
    apply Z.mod_mul. unfold BLOCK_SIZE. lia. }
  simpl. wp_auto. eapply wp_mono; [by apply (wp_merge_up b B i o)|].
  intros [a c] b1 (i' & B' & -> & HC1 & Hi1 & HF & HS). wp_auto. cbv zeta.
  rewrite addr_to_index_paddr; [|apply HC1|by eapply core_index].
  apply wp_bind_inv, (wp_give_last b1 B' {[i']} i' c); [done|set_solver|done|].
  intros b2 HC2 HF2. replace ({[i']} ∖ {[i']}) with (∅ : gset Z) in HC2 by set_solver.
  exists (<[i':=Free c]> B'). split; [done|]. split; [by eapply bframe_step|].
  eapply same_kept_trans; [done|].
  pose proof (same_kept_give B' {[i']} i' c ltac:(set_solver)) as H.
  by replace ({[i']} ∖ {[i']}) with (∅ : gset Z) in H by set_solver.
Qed.

(** Freeing an allocated block whose pages no slab owns. *)
Lemma wp_buddy_free b A i o :
  buddy_rep b A → buddy_lock b = false → A !! i = Some o →
  (∀ p m, i ≤ p < i + 2 ^ o → block_meta b !! p = Some m → owner_slab m = NULL) →
  wp (buddy_free (paddr b i)) (λ _ b',
     buddy_rep b' (delete i A) ∧ bframe (λ j o', delete i A !! j = Some o') b b') b.
Proof.
  intros (B & HC & ->) Hlock Hi Hown. apply lookup_allocs in Hi.
  pose proof (core_index _ _ _ _ _ HC Hi) as Hri. pose proof (core_lock b B ∅ true HC) as HC1.
  destruct (core_meta_at _ _ _ _ _ HC Hi) as (m & Hm & Hf & Ha & Ho).
  rewrite bool_decide_false in Ha, Ho by set_solver. specialize (Ho eq_refl).
  unfold buddy_free.
  rewrite (proj2 (Z.eqb_neq _ _)) by (apply paddr_pos; [apply HC|lia]). wp_auto.
  apply wp_acquire_buddy; [done|]. wp_auto. cbv zeta.
  change (paddr b i) with (paddr (set_buddy_lock true b) i).
  rewrite addr_to_index_paddr; [|apply HC1|done].
  rewrite (proj2 (Z.ltb_ge i 0)) by lia. wp_auto. eapply wp_read_meta; [done|].
  rewrite Ha, (Hown i m ltac:(pose proof (core_order _ _ _ _ _ HC Hi);
    pose proof (pow2_pos o); simpl in *; lia) Hm), Ho. simpl.
  apply (wp_unclaim _ B i o m); [done|done|done|done|]. intros b2 HC2 HF2. wp_auto.
  pose proof (f_start _ _ _ (HF2 (λ _ _, False))) as Es.
  replace (paddr (set_buddy_lock true b) i) with (paddr b2 i) by (unfold paddr; by rewrite Es).
  eapply wp_mono; [by apply (wp_buddy_free_order b2 B i o)|].
  intros [] b3 (B3 & HC3 & HF3 & HS).
  apply wp_release_buddy; [by rewrite (f_lock _ _ _ HF3), (f_lock _ _ _ (HF2 (λ _ _, False)))|].
  rewrite <-(allocs_freed B B3 i o) by done. split.
  - exists B3. split; [by apply core_lock|done].
  - apply bframe_section; [done|]. eapply bframe_trans; [done|].
    eapply bframe_weaken; [|done]. intros j o' Hj%lookup_allocs.
    apply HS. by split; [|set_solver].
Qed.

(** Freeing anything else leaves the allocator as it was. *)
Lemma wp_buddy_free_reject b A ptr :
  buddy_rep b A → buddy_lock b = false → ptr < managed_start b + 2 ^ 44 →
  (∀ i m, ptr = paddr b i → block_meta b !! i = Some m →
          A !! i = None ∨ owner_slab m ≠ NULL) →
  wp (buddy_free ptr) (λ _ b', b' = b) b.
Proof.
  intros (B & HC & ->) Hlock H44 Hrej. pose proof (core_lock b B ∅ true HC) as HC1.
  unfold buddy_free. destruct (Z.eqb_spec ptr NULL) as [_|Hnz]; [by wp_auto|]. wp_auto.
  apply wp_acquire_buddy; [done|]. wp_auto. cbv zeta.
  destruct (addr_to_index_cases (set_buddy_lock true b) ptr (c_region _ _ _ HC1) H44)
    as [(i & Hi & -> & ->)|[_ ->]].
  2:{ apply wp_release_buddy; [done|]. by apply lock_cycle. }
  rewrite (proj2 (Z.ltb_ge i 0)) by lia.
  destruct (c_meta _ _ _ HC i Hi) as (m & Hm & Hok). wp_auto. eapply wp_read_meta; [done|].
  assert (negb (is_head_of_alloc_block m) || negb (owner_slab m =? NULL) = true) as ->.
  { destruct (Hrej i m eq_refl Hm) as [Hno|Hown].
    - destruct (B !! i) as [[o|o]|] eqn:EB; simpl in Hok.
      + destruct Hok as (_ & -> & _). done.
      + assert (allocs B !! i = Some o) by (by apply lookup_allocs). congruence.
      + destruct Hok as (_ & ->). done.
    - rewrite (proj2 (Z.eqb_neq _ _) Hown). apply orb_true_r. }
  apply wp_release_buddy; [done|]. by apply lock_cycle.
Qed.

(** * buddy_init *)

Lemma pick_order_spec k curr remaining :
  1 ≤ remaining →
  0 ≤ pick_order k curr remaining ≤ Z.of_nat k ∧
  2 ^ pick_order k curr remaining ≤ remaining ∧
  curr mod 2 ^ pick_order k curr remaining = 0.
Proof.
  intros Hr. induction k as [|k IH].
  - cbn [pick_order]. rewrite Z.pow_0_r, Z.mod_1_r. split; [lia|]. by split.
  - cbn [pick_order]. rewrite Z.shiftl_1_l.
    destruct (Z.leb_spec (2 ^ Z.of_nat (S k)) remaining) as [Hle|Hgt];
      [destruct (Z.eqb_spec (curr mod 2 ^ Z.of_nat (S k)) 0) as [E|E]|].
    + cbn [andb]. split; [lia|]. by split.
    + cbn [andb]. destruct IH as (IH1 & IH2 & IH3). split; [lia|]. by split.
    + cbn [andb]. destruct IH as (IH1 & IH2 & IH3). split; [lia|]. by split.
Qed.

Definition set_num (n : Z) (b : bstate) : bstate :=
  BState (managed_start b) n (free_area b) (block_meta b) (buddy_lock b) (mem b).

(** A fresh limbo block appended at the end of a tiled prefix. *)
Lemma core_append b B n o :
  core (set_num n b) B ∅ → 0 ≤ o ≤ MAX_ORDER →
  region_ok (set_num (n + 2 ^ o) b) →
  (∀ p, n ≤ p < n + 2 ^ o → ∃ m, block_meta b !! p = Some m ∧
     is_head_of_free_block m = false ∧ is_head_of_alloc_block m = false ∧ owner_slab m = NULL) →
  core (set_num (n + 2 ^ o) b) (<[n:=Alloc o]> B) {[n]}.
Proof.
  intros HC Ho Hr Hm. pose proof (pow2_pos o ltac:(lia)) as Hpos.
  pose proof (c_tiling _ _ _ HC) as HT. simpl in HT.
  assert (∀ i x, B !! i = Some x → 0 ≤ i < n ∧ i + 2 ^ order_of x ≤ n) as Hin.
  { intros i x Hi. pose proof (t_bound _ _ HT i x Hi).
    pose proof (pow2_pos (order_of x)). lia. }
  assert (∀ i x, B !! i = Some x → i ≠ n) as Hne by (intros i x Hi%Hin; lia).
  split; simpl.
  - done.
  - destruct Hr as [_ [Hr0 _] _]. simpl in Hr0. pose proof (ro_num _ (c_region _ _ _ HC)) as Hn.
    simpl in Hn. split.
    + intros i x [[<- <-]|[_ Hi]]%lookup_insert_Some; simpl; [lia|].
      pose proof (t_bound _ _ HT i x Hi). lia.
    + intros i j x y [[<- <-]|[_ Hi]]%lookup_insert_Some [[<- <-]|[_ Hj]]%lookup_insert_Some Hlt.
      * lia.
      * apply Hin in Hj. lia.
      * by apply Hin in Hi as [_ ?].
      * by eapply t_disj.
    + intros p Hp. destruct (Z.lt_ge_cases p n).
      * destruct (t_cover _ _ HT p ltac:(lia)) as (i & x & Hi & Hip). exists i, x.
        rewrite lookup_insert_ne; [done|]. intros E. by apply (Hne i x Hi).
      * exists n, (Alloc o). rewrite lookup_insert_eq. simpl. split; [done|lia].
  - intros i ->%elem_of_singleton. rewrite lookup_insert_eq. eauto.
  - intros i Hi. destruct (Z.lt_ge_cases i n) as [Hlt|Hge].
    + destruct (c_meta _ _ _ HC i) as (m & Hmi & Hok); [simpl; lia|]. exists m.
      split; [done|]. rewrite lookup_insert_ne by lia.
      assert (i ≠ n) as Hin' by lia.
      by rewrite (bool_decide_ext (i ∈ {[n]}) (i ∈ (∅ : gset Z))) by (clear -Hin'; set_solver).
    + destruct (Hm i ltac:(lia)) as (m & Hmi & Hf & Ha & _). exists m. split; [done|].
      rewrite lookup_insert. case_decide as E.
      * subst. rewrite bool_decide_true by set_solver. by split.
      * destruct (B !! i) as [x|] eqn:EB; [|by split]. apply Hin in EB. lia.
  - intros i x p m [[<- <-]|[Hni Hi]]%lookup_insert_Some Hx Hp Hmp; simpl in *.
    + destruct (Hm p Hp) as (m' & Hm' & _ & _ & Hown). congruence.
    + apply (c_owner _ _ _ HC i x p m); [done| |done..]. set_solver.
  - intros o' Ho'. destruct (c_lists _ _ _ HC o' Ho') as (h & l & Hfa & Hc & Hnd & Hl).
    exists h, l. split; [done|]. split; [done|]. split; [done|]. intros a. rewrite Hl.
    split; intros (i & -> & Hi); exists i; (split; [done|]).
    + rewrite lookup_insert_ne; [done|]. intros E. by apply (Hne i _ Hi).
    + rewrite lookup_insert in Hi. case_decide; [discriminate|done].
Qed.

Lemma wp_clear_free_area b (Q : unit → bstate → Prop) :
  (∀ o, 0 ≤ o ≤ MAX_ORDER → is_Some (free_area b !! o)) →
  (∀ fa, (∀ o, 0 ≤ o ≤ MAX_ORDER → fa !! o = Some NULL) → Q tt (set_free_area fa b)) →
  wp (for_range 0 (MAX_ORDER + 1) (λ o, write_free_area o NULL)) Q b.
Proof.
  intros Hfa HQ. apply (wp_for_range (λ i s, ∃ fa, s = set_free_area fa b ∧
    (∀ o, 0 ≤ o ≤ MAX_ORDER → is_Some (fa !! o)) ∧ ∀ o, 0 ≤ o < i → fa !! o = Some NULL)).
  - done.
  - exists (free_area b). split; [by destruct b|]. split; [done|]. intros. lia.
  - intros i s Hi (fa & -> & Hs & Hz). destruct (Hs i ltac:(lia)) as [h Hh].
    eapply wp_write_free_area; [done|]. exists (<[i:=NULL]> fa). split; [done|]. split.
    + intros o Ho. rewrite lookup_insert. case_decide; [done|]. by apply Hs.
    + intros o Ho. rewrite lookup_insert. case_decide; [done|]. apply Hz. lia.
  - intros s (fa & -> & _ & Hz). apply HQ. intros o Ho. apply Hz. lia.
Qed.

Definition zero_meta : block_meta_t := BlockMeta 0 false 0 false NULL.

Lemma wp_reset_metas b n (Q : unit → bstate → Prop) :
  0 ≤ n → (∀ i, 0 ≤ i < n → is_Some (block_meta b !! i)) →
  (∀ bm, (∀ i, 0 ≤ i < n → bm !! i = Some zero_meta) → Q tt (set_block_meta bm b)) →
  wp (for_range 0 n reset_meta) Q b.
Proof.
  intros Hn Hbm HQ. apply (wp_for_range (λ i s, ∃ bm, s = set_block_meta bm b ∧
    (∀ o, 0 ≤ o < n → is_Some (bm !! o)) ∧ ∀ o, 0 ≤ o < i → bm !! o = Some zero_meta)).
  - done.
  - exists (block_meta b). split; [by destruct b|]. split; [done|]. intros. lia.
  - intros i s Hi (bm & -> & Hs & Hz). destruct (Hs i ltac:(lia)) as [m Hm].
    unfold reset_meta. wp_auto. eapply wp_update_meta; [done|]. wp_auto.
    do 3 (eapply wp_update_meta; [apply lookup_insert_eq|]; wp_auto).
    eapply wp_update_meta; [apply lookup_insert_eq|]. simpl. rewrite !insert_insert_eq.
    exists (<[i:=zero_meta]> bm). split; [done|]. split.
    + intros o Ho. rewrite lookup_insert. case_decide; [done|]. by apply Hs.
    + intros o Ho. rewrite lookup_insert. case_decide; [done|]. apply Hz. lia.
  - intros s (bm & -> & _ & Hz). by apply HQ.
Qed.

(** The empty prefix is tiled by no block. *)
Lemma core_empty b :
  region_ok b → (∀ o, 0 ≤ o ≤ MAX_ORDER → free_area b !! o = Some NULL) →
  core (set_num 0 b) ∅ ∅.
Proof.
  intros [Hs Hn Ht] Hfa. split; simpl.
  - split; simpl; unfold int_max, BLOCK_SIZE in *; lia.
  - split; [done|done|]. intros. lia.
  - set_solver.
  - intros. lia.
  - done.
  - intros o Ho. exists NULL, []. split; [by apply Hfa|]. split; [done|]. split; [constructor|].
    set_solver.
Qed.

Lemma allocs_none B i o : allocs B = ∅ → allocs (<[i:=Free o]> (<[i:=Alloc o]> B)) = ∅.
Proof.
  intros HA. apply map_empty. intros j. apply eq_None_not_Some. intros [o' Hj%lookup_allocs].
  rewrite !lookup_insert in Hj. case_decide; [discriminate|].
  apply lookup_allocs in Hj. by rewrite HA in Hj.
Qed.

Lemma wp_buddy_init b :
  region_ok b → (∀ o, 0 ≤ o ≤ MAX_ORDER → is_Some (free_area b !! o)) →
  (∀ i, 0 ≤ i < managed_num_blocks b → is_Some (block_meta b !! i)) →
  wp buddy_init (λ _ b', buddy_rep b' ∅ ∧ buddy_lock b' = false ∧
     managed_start b' = managed_start b ∧ managed_num_blocks b' = managed_num_blocks b ∧
     ∀ i m, 0 ≤ i < managed_num_blocks b → block_meta b' !! i = Some m → owner_slab m = NULL) b.
Proof.
  intros Hr Hfa Hbm. pose proof Hr as [Hs Hn Ht]. unfold buddy_init. wp_auto.
  apply wp_clear_free_area; [done|]. intros fa Hfa0. wp_auto. cbv zeta.
  cbn [managed_num_blocks managed_start set_free_area set_buddy_lock].
  apply wp_reset_metas; [lia|done|]. intros bm Hbm0.
  set (n := managed_num_blocks b) in *.
  set (b0 := set_block_meta bm (set_free_area fa (set_buddy_lock false b))).
  apply (wp_loop (λ k curr s, ∃ B, k = Z.to_nat (n - curr) ∧ 0 ≤ curr ≤ n ∧
    core (set_num curr s) B ∅ ∧ allocs B = ∅ ∧ buddy_lock s = false ∧
    managed_start s = managed_start b ∧ managed_num_blocks s = n ∧
    (∀ i m, 0 ≤ i < n → block_meta s !! i = Some m → owner_slab m = NULL) ∧
    ∀ i, curr ≤ i < n → block_meta s !! i = Some zero_meta) (Z.to_nat n)).
  - exists ∅. split; [f_equal; lia|]. split; [lia|]. split.
    { apply (core_empty b0); [by split|done]. }
    split; [done|]. split; [done|]. split; [done|]. split; [done|]. split; [|done].
    intros i m Hi Hm. simpl in Hm. rewrite Hbm0 in Hm by done. by injection Hm as <-.
  - lia.
  - intros k curr s (B & -> & Hcurr & HC & HA & Hl & Es & En & How & Hz).
    destruct (Z.ltb_spec curr n) as [Hlt|Hge].
    2:{ wp_auto. replace curr with n in HC by lia.
        replace (set_num n s) with s in HC by (destruct s; simpl in *; by subst).
        split; [by exists B|]. done. }
    destruct (pick_order_spec 15 curr (n - curr) ltac:(lia)) as (Ho & Hfit & _).
    set (o := pick_order 15 curr (n - curr)) in *. rewrite Z.shiftl_1_l.
    pose proof (pow2_pos o ltac:(lia)) as Hpos.
    assert (core (set_num (curr + 2 ^ o) s) (<[curr:=Alloc o]> B) {[curr]}) as HC1.
    { apply core_append; [done|unfold MAX_ORDER; lia| |].
      - split; simpl; rewrite ?Es; [done|lia|]. unfold BLOCK_SIZE in *. lia.
      - intros p Hp. exists zero_meta. split; [apply Hz; lia|done]. }
    assert (u64 (managed_start b + curr * BLOCK_SIZE) = paddr s curr) as ->.
    { unfold paddr. rewrite Es. apply u64_small. unfold BLOCK_SIZE in *. lia. }
    destruct (c_lists _ _ _ HC1 o ltac:(unfold MAX_ORDER; lia)) as (h & l & Hh & _).
    destruct (core_give _ _ _ curr o zero_meta h HC1 ltac:(set_solver)
      (lookup_insert_eq _ _ _) (Hz curr ltac:(lia)) Hh) as [HC2 HF2].
    wp_auto. eapply wp_update_meta; [apply Hz; lia|]. wp_auto.
    eapply wp_update_meta; [apply lookup_insert_eq|]. wp_auto.
    eapply wp_push_free; [done|exact (in_region_paddr s curr ltac:(lia))|]. simpl.
    rewrite insert_insert_eq, u8_small by lia. wp_auto.
    exists (Z.to_nat (n - (curr + 2 ^ o))). split; [lia|].
    eexists. split; [done|]. split; [lia|].
    replace ({[curr]} ∖ {[curr]}) with (∅ : gset Z) in HC2 by set_solver.
    split; [exact HC2|]. split; [by apply allocs_none|].
    split; [done|]. split; [done|]. split; [done|]. simpl. split.
    + intros i m Hi [[<- <-]|[_ Hm]]%lookup_insert_Some; [done|by eapply How].
    + intros i Hi. rewrite lookup_insert_ne by lia. apply Hz. lia.
Qed.
