(* ===== verification/BuddyProps.v ===== *)
(** What the buddy allocator guarantees its clients: the contract of
    [buddy_alloc] and [buddy_free] as an interface, the abstract page
    allocator it refines, and the behaviour at the edges of its integer
    arithmetic. *)

From S2P Require Import Prelude.
From S2P Require Import Buddy.
From S2P Require Import BuddyInv.
From S2P Require Import BuddySpec.

(** * Consequences of the representation *)

(** Pages [i .. i + 2^o) and [j .. j + 2^o') share no page. *)
Definition apart (i o j o' : Z) : Prop := i + 2 ^ o ≤ j ∨ j + 2 ^ o' ≤ i.

Lemma buddy_rep_block b A i o :
  buddy_rep b A → A !! i = Some o →
  0 ≤ i ∧ 0 ≤ o ≤ MAX_ORDER ∧ i + 2 ^ o ≤ managed_num_blocks b.
Proof.
  intros (B & HC & ->) Hi%lookup_allocs. exact (t_bound _ _ (c_tiling _ _ _ HC) _ _ Hi).
Qed.

Lemma buddy_rep_apart b A i j o o' :
  buddy_rep b A → A !! i = Some o → A !! j = Some o' → i ≠ j → apart i o j o'.
Proof.
  intros (B & HC & ->) Hi%lookup_allocs Hj%lookup_allocs Hne.
  destruct (Z.lt_total i j) as [H|[H|H]]; [left|done|right].
  - exact (t_disj _ _ (c_tiling _ _ _ HC) _ _ _ _ Hi Hj H).
  - exact (t_disj _ _ (c_tiling _ _ _ HC) _ _ _ _ Hj Hi H).
Qed.

Lemma buddy_rep_region b A : buddy_rep b A → region_ok b.
Proof. by intros (B & HC & _); destruct HC. Qed.

(** * The contract as an interface

    What the slab layer relies on.  [pages_clear b i t] says that no page of
    the block belongs to a slab. *)

Definition pages_clear (b : bstate) (i t : Z) : Prop :=
  ∀ p m, i ≤ p < i + 2 ^ t → block_meta b !! p = Some m → owner_slab m = NULL.

Class PageAllocator (alloc : Z → prog bstate Z) (free : Z → prog bstate unit) : Prop := {
  pa_alloc b A sz :
    buddy_rep b A → buddy_lock b = false → 0 ≤ sz ≤ 2 ^ 30 →
    wp (alloc sz) (λ r b',
      (r = NULL ∧ b' = b) ∨
      (∃ i t, r = paddr b i ∧ r ≠ NULL ∧ A !! i = None ∧ 0 ≤ t ≤ MAX_ORDER ∧ 0 < sz ≤ 2 ^ t ∧
         (∀ t', 0 ≤ t' < t → 2 ^ t' < sz) ∧
         buddy_rep b' (<[i:=t]> A) ∧ bframe (λ j o, A !! j = Some o) b b' ∧
         pages_clear b' i t)) b;
  pa_free b A i o :
    buddy_rep b A → buddy_lock b = false → A !! i = Some o → pages_clear b i o →
    wp (free (paddr b i)) (λ _ b',
      buddy_rep b' (delete i A) ∧ bframe (λ j o', delete i A !! j = Some o') b b') b }.

#[export] Instance buddy_page_allocator : PageAllocator buddy_alloc buddy_free.
Proof.
  split.
  - intros b A sz Hrep Hl Hsz. eapply wp_mono; [by apply wp_buddy_alloc|].
    intros r b' [(? & ? & _)|(i & t & ? & ? & ? & ? & ? & ? & ? & ? & ?)];
      [by left|right]. by exists i, t.
  - intros b A i o Hrep Hl Hi Hc. by eapply wp_buddy_free.
Qed.

(** * The abstract page allocator *)

Inductive bop :=
  | BAlloc (size_in_pages : Z)
  | BFree (ptr : Z).

Definition bop_ok (start : Z) (op : bop) : Prop :=
  match op with
  | BAlloc n => 0 ≤ n ≤ 2 ^ 30
  | BFree p => p < start + 2 ^ 44
  end.

(** One call against the map [A] from first page to order of the live blocks
    of a region of [n] pages at [start]. *)
Inductive page_step (start n : Z) : gmap Z Z → bop → Z → gmap Z Z → Prop :=
  | ps_alloc A sz i t :
      0 < sz → 0 ≤ i → i + 2 ^ t ≤ n → A !! i = None →
      (∀ j o, A !! j = Some o → apart i t j o) →
      sz ≤ 2 ^ t → (∀ t', 0 ≤ t' < t → 2 ^ t' < sz) →
      page_step start n A (BAlloc sz) (start + i * BLOCK_SIZE) (<[i:=t]> A)
  | ps_alloc_fail A sz : page_step start n A (BAlloc sz) NULL A
  | ps_free A i o :
      A !! i = Some o → page_step start n A (BFree (start + i * BLOCK_SIZE)) 0 (delete i A)
  | ps_free_ignored A p :
      (∀ i, p = start + i * BLOCK_SIZE → A !! i = None) →
      page_step start n A (BFree p) 0 A.

Inductive page_steps (start n : Z) : gmap Z Z → list bop → list Z → gmap Z Z → Prop :=
  | pss_nil A : page_steps start n A [] [] A
  | pss_cons A op r A' ops rs A'' :
      page_step start n A op r A' → page_steps start n A' ops rs A'' →
      page_steps start n A (op :: ops) (r :: rs) A''.

Definition exec_op (op : bop) : prog bstate Z :=
  match op with
  | BAlloc n => buddy_alloc n
  | BFree p => _ ← buddy_free p; mret 0
  end.

Fixpoint exec_ops (ops : list bop) : prog bstate (list Z) :=
  match ops with
  | [] => mret []
  | op :: ops' => r ← exec_op op; rs ← exec_ops ops'; mret (r :: rs)
  end.

(** A region whose pages no slab owns and whose lock is free. *)
Record idle (b : bstate) (A : gmap Z Z) : Prop := {
  i_rep : buddy_rep b A;
  i_lock : buddy_lock b = false;
  i_clear : ∀ p m, 0 ≤ p < managed_num_blocks b →
    block_meta b !! p = Some m → owner_slab m = NULL }.

Lemma idle_frame keep b b' A A' :
  idle b A → bframe keep b b' → buddy_rep b' A' → idle b' A'.
Proof.
  intros [Hrep Hl Hc] F Hrep'. split; [done|by rewrite (f_lock _ _ _ F)|].
  intros p m Hp Hm. pose proof (f_owner _ _ _ F p) as E. rewrite Hm in E.
  rewrite (f_num _ _ _ F) in Hp.
  destruct (block_meta b !! p) as [m0|] eqn:E0; [|done].
  injection E as E. rewrite E. by apply (Hc p).
Qed.

Lemma wp_exec_op b A op :
  idle b A → bop_ok (managed_start b) op →
  wp (exec_op op) (λ r b', ∃ A', page_step (managed_start b) (managed_num_blocks b) A op r A' ∧
     idle b' A' ∧ managed_start b' = managed_start b ∧
     managed_num_blocks b' = managed_num_blocks b) b.
Proof.
  intros Hi Hop. pose proof Hi as [Hrep Hl Hc]. destruct op as [sz|p]; simpl in *.
  - eapply wp_mono; [by apply wp_buddy_alloc|].
    intros r b' [(-> & -> & _)|(i & t & -> & Hnn & HA & Ht & Hsz & Hmin & Hrep' & F & _)].
    { exists A. by split; [constructor|]. }
    exists (<[i:=t]> A).
    pose proof (buddy_rep_block _ _ i t Hrep' ltac:(apply lookup_insert_eq)) as (? & ? & Hb).
    rewrite (f_num _ _ _ F) in Hb.
    split; [|split; [by eapply idle_frame|split; apply F]].
    apply ps_alloc; [lia|lia|done|done| |lia|done].
    intros j o Hj. assert (i ≠ j) by congruence.
    apply (buddy_rep_apart _ _ i j t o Hrep'); [apply lookup_insert_eq| |done].
    by rewrite lookup_insert_ne.
  - wp_auto. set (i := (p - managed_start b) / BLOCK_SIZE).
    destruct (decide (p = paddr b i ∧ is_Some (A !! i))) as [[Hp [o Ho]]|Hno].
    + rewrite Hp. eapply wp_mono.
      { eapply wp_buddy_free; [done|done|done|]. intros q m Hq. apply Hc.
        pose proof (buddy_rep_block _ _ _ _ Hrep Ho). lia. }
      intros [] b' [Hrep' F]. wp_auto. exists (delete i A).
      split; [by eapply ps_free|]. split; [by eapply idle_frame|split; apply F].
    + assert (∀ j, p = paddr b j → A !! j = None) as Hnone.
      { intros j Hj. assert (i = j) as E.
        { unfold i. rewrite Hj. unfold paddr, BLOCK_SIZE.
          rewrite Z.add_simpl_l. apply Z.div_mul. lia. }
        destruct (A !! j) eqn:Ej; [|done]. destruct Hno. rewrite E. eauto. }
      eapply wp_mono; [apply (wp_buddy_free_reject b A p); [done..|]|].
      { intros j m Hj _. left. by apply Hnone. }
      intros [] b' ->. wp_auto. exists A. by split; [constructor|].
Qed.

Lemma wp_exec_ops b A ops :
  idle b A → Forall (bop_ok (managed_start b)) ops →
  wp (exec_ops ops) (λ rs b', ∃ A',
     page_steps (managed_start b) (managed_num_blocks b) A ops rs A' ∧ idle b' A') b.
Proof.
  revert b A. induction ops as [|op ops IH]; intros b A Hi Hops; simpl.
  { wp_auto. exists A. by split; [constructor|]. }
  inversion Hops; subst. wp_auto. eapply wp_mono; [by apply (wp_exec_op b A)|].
  intros r b1 (A1 & Hstep & Hi1 & Es & En). wp_auto.
  eapply wp_mono; [apply (IH b1 A1 Hi1); by rewrite Es|].
  intros rs b2 (A2 & Hsteps & Hi2). wp_auto. exists A2. rewrite Es, En in Hsteps.
  by split; [econstructor|].
Qed.

(** * Concrete states *)

Definition state_of {S A} (o : outcome (A * S)) (default : S) : S :=
  match o with
  | Ok (_, s) => s
  | _ => default
  end.

(** A region of [n] pages whose metadata array and list heads exist but hold
    nothing yet. *)
Definition raw_region (start n : Z) : bstate :=
  BState start n
    (list_to_map ((λ o, (o, NULL)) <$> seqZ 0 16))
    (list_to_map ((λ i, (i, zero_meta)) <$> seqZ 0 n)) false ∅.

Definition boot (start n : Z) : bstate := state_of (buddy_init (raw_region start n)) (raw_region start n).

Definition boot4 : bstate := boot 8192 4.

Definition boot4_one : bstate := state_of (buddy_alloc 1 boot4) boot4.

Lemma boot4_idle : idle boot4 ∅.
Proof.
  assert (wp buddy_init (λ _ b', idle b' ∅) (raw_region 8192 4)) as H.
  { eapply wp_mono; [apply wp_buddy_init|].
    - split; vm_compute; intuition congruence.
    - intros o Ho. unfold MAX_ORDER in Ho.
      assert (o ∈ seqZ 0 16) as Hin by (apply elem_of_seqZ; lia).
      clear Ho. revert o Hin. apply Forall_forall. repeat constructor; vm_compute; eauto.
    - intros i Hi. simpl in Hi.
      assert (i ∈ seqZ 0 4) as Hin by (apply elem_of_seqZ; lia).
      clear Hi. revert i Hin. apply Forall_forall. repeat constructor; vm_compute; eauto.
    - intros [] b' (Hrep & Hl & Hs & Hn & Hc). split; [done|done|].
      intros p m Hp. rewrite Hn in Hp. by apply Hc. }
  unfold wp in H. unfold boot4, boot. by destruct (buddy_init _) as [[[] b]| | |].
Qed.

Lemma alloc_one_idle b b1 :
  idle b ∅ → managed_start b = 8192 → buddy_alloc 1 b = Ok (8192, b1) → idle b1 {[0 := 0]}.
Proof.
  intros Hb Hs E. assert (bop_ok (managed_start b) (BAlloc 1)) as Hok by (cbn; lia).
  pose proof (wp_exec_op b ∅ (BAlloc 1) Hb Hok) as H.
  apply wp_Ok in H as (r & b' & E' & A' & Hstep & Hi & _). cbn [exec_op] in E'.
  rewrite E in E'. injection E' as <- <-. rewrite Hs in Hstep.
  inversion Hstep as [? ? i t ? ? ? ? ? Hszt Hmin Heq| | |].
  unfold BLOCK_SIZE in *. subst.
  assert (i = 0) as -> by lia.
  assert (t = 0) as ->.
  { destruct (decide (0 < t)) as [Ht|Ht]; [specialize (Hmin 0); lia|].
    destruct (decide (t = 0)); [done|]. rewrite Z.pow_neg_r in * by lia. lia. }
  by rewrite insert_empty in Hi.
Qed.

Lemma boot4_one_result : buddy_alloc 1 boot4 = Ok (8192, boot4_one).
Proof. vm_compute. reflexivity. Qed.

Lemma boot4_start : managed_start boot4 = 8192.
Proof. vm_compute. reflexivity. Qed.

Lemma boot4_num : managed_num_blocks boot4 = 4.
Proof. vm_compute. reflexivity. Qed.

Lemma boot4_one_start : managed_start boot4_one = 8192.
Proof. vm_compute. reflexivity. Qed.

Lemma boot4_one_num : managed_num_blocks boot4_one = 4.
Proof. vm_compute. reflexivity. Qed.

Lemma boot4_one_idle : idle boot4_one {[0 := 0]}.
Proof. exact (alloc_one_idle _ _ boot4_idle boot4_start boot4_one_result). Qed.

(** * The properties *)

(** C1: [buddy_alloc] on a well-formed allocator terminates without a panic
    or an undefined access.  It returns NULL with the state unchanged exactly
    when the size is zero or larger than the largest block, or when no free
    block is large enough; otherwise it returns the address of a fresh block
    of the least power of two that holds the request, inside the region and
    disjoint from every live block, and leaves the contents of the live blocks
    alone. *)
Theorem buddy_alloc_correct b A sz :
  buddy_rep b A → buddy_lock b = false → 0 ≤ sz ≤ 2 ^ 30 →
  wp (buddy_alloc sz) (λ r b',
    (r = NULL ∧ b' = b ∧
     (sz = 0 ∨ 2 ^ MAX_ORDER < sz ∨
      ∀ i m, 0 ≤ i < managed_num_blocks b → block_meta b !! i = Some m →
             is_head_of_free_block m = true → 2 ^ free_order m < sz)) ∨
    (∃ i t, r = paddr b i ∧ r ≠ NULL ∧ A !! i = None ∧
       0 < sz ≤ 2 ^ t ∧ (∀ t', 0 ≤ t' < t → 2 ^ t' < sz) ∧
       0 ≤ i ∧ i + 2 ^ t ≤ managed_num_blocks b ∧
       (∀ j o, A !! j = Some o → apart i t j o) ∧
       buddy_rep b' (<[i:=t]> A) ∧ bframe (λ j o, A !! j = Some o) b b')) b.
Proof.
  intros Hrep Hl Hsz. eapply wp_mono; [by apply wp_buddy_alloc|].
  intros r b' [?|(i & t & ? & ? & HA & ? & ? & ? & Hrep' & F & _)]; [by left|right].
  pose proof (buddy_rep_block _ _ i t Hrep' ltac:(apply lookup_insert_eq)) as (? & ? & Hb).
  rewrite (f_num _ _ _ F) in Hb. exists i, t.
  split_and!; try done; try lia.
  intros j o Hj. assert (i ≠ j) by congruence.
  apply (buddy_rep_apart _ _ i j t o Hrep'); [apply lookup_insert_eq| |done].
  by rewrite lookup_insert_ne.
Qed.

Lemma buddy_alloc_correct_witness :
  wp (buddy_alloc 3) (λ r b', r ≠ NULL → ∃ i t, r = paddr boot4 i ∧ 3 ≤ 2 ^ t ∧
    buddy_rep b' (<[i:=t]> ∅)) boot4.
Proof.
  eapply wp_mono; [apply (buddy_alloc_correct boot4 ∅ 3);
    [apply boot4_idle|apply boot4_idle|lia]|].
  intros r b' [(-> & _)|(i & t & ? & ? & ? & ? & ? & ? & ? & ? & ? & ?)] Hr; [done|].
  exists i, t. split; [done|]. split; [lia|done].
Defined.

(** C2: [buddy_free] of a live block that no slab owns removes exactly that
    block from the live ones, keeps the allocator well formed and leaves the
    contents of the other live blocks alone. *)
Theorem buddy_free_correct b A i o :
  buddy_rep b A → buddy_lock b = false → A !! i = Some o → pages_clear b i o →
  wp (buddy_free (paddr b i)) (λ _ b',
    buddy_rep b' (delete i A) ∧ bframe (λ j o', delete i A !! j = Some o') b b') b.
Proof. intros. by eapply wp_buddy_free. Qed.

Lemma buddy_free_correct_witness :
  wp (buddy_free 8192) (λ _ b', buddy_rep b' ∅) boot4_one.
Proof.
  eapply wp_mono; [apply (buddy_free_correct boot4_one {[0 := 0]} 0 0)|].
  - apply boot4_one_idle.
  - apply boot4_one_idle.
  - done.
  - intros p m Hp. apply (i_clear _ _ boot4_one_idle). rewrite boot4_one_num. lia.
  - intros [] b' [H _]. by rewrite delete_singleton_eq in H.
Defined.

(** [buddy_free] of anything that is not the start of a live block, a
    double free in particular, and of a block that belongs to a slab, leaves
    the allocator exactly as it was.  The pointer must lie less than 2^44
    bytes above the region's start. *)
Theorem buddy_free_rejects b A ptr :
  buddy_rep b A → buddy_lock b = false → ptr < managed_start b + 2 ^ 44 →
  (∀ i m, ptr = paddr b i → block_meta b !! i = Some m → A !! i = None ∨ owner_slab m ≠ NULL) →
  wp (buddy_free ptr) (λ _ b', b' = b) b.
Proof. intros. by eapply wp_buddy_free_reject. Qed.

(** C3: [buddy_init] on any region that fits the address space builds a
    well-formed allocator with no live block: the free blocks tile the whole
    region, whatever its size. *)
Theorem buddy_init_correct b :
  region_ok b → (∀ o, 0 ≤ o ≤ MAX_ORDER → is_Some (free_area b !! o)) →
  (∀ i, 0 ≤ i < managed_num_blocks b → is_Some (block_meta b !! i)) →
  wp buddy_init (λ _ b', idle b' ∅ ∧ managed_start b' = managed_start b ∧
     managed_num_blocks b' = managed_num_blocks b) b.
Proof.
  intros. eapply wp_mono; [by apply wp_buddy_init|].
  intros [] b' (? & ? & Hs & Hn & Hc). split; [|done]. split; [done|done|].
  intros p m Hp. apply Hc. lia.
Qed.

Lemma buddy_init_correct_witness : wp buddy_init (λ _ b', idle b' ∅) (raw_region 4096 0).
Proof.
  eapply wp_mono; [apply (buddy_init_correct (raw_region 4096 0))|].
  - split; vm_compute; intuition congruence.
  - intros o Ho. unfold MAX_ORDER in Ho.
    assert (o ∈ seqZ 0 16) as Hin by (apply elem_of_seqZ; lia).
    clear Ho. revert o Hin. apply Forall_forall. repeat constructor; vm_compute; eauto.
  - simpl. lia.
  - by intros [] b' [H _].
Defined.



(** [order_for_pages] returns the least order whose block holds the
    request, for every request of at most 2^30 pages; for every larger
    [uint64] request the doubled [int] overflows. *)
Theorem order_for_pages_least sz :
  0 ≤ sz < 2 ^ 64 →
  if sz <=? 2 ^ 30 then
    ∃ t, order_for_pages sz = Ok t ∧ 0 ≤ t ≤ 30 ∧ sz ≤ 2 ^ t ∧
         ∀ t', 0 ≤ t' < t → 2 ^ t' < sz
  else order_for_pages sz = UB.
Proof.
  intros Hsz. destruct (Z.leb_spec sz (2 ^ 30)) as [Hle|Hgt].
  - apply order_for_pages_spec. lia.
  - assert (∀ (o : nat) k, (k ≤ 30)%Z → Z.of_nat o = 30 - k → 0 ≤ k →
      order_loop (o + 2) k (2 ^ k) sz = UB) as H.
    { induction o as [|o IH]; intros k Hk Ho Hk0.
      - assert (k = 30) as -> by lia. cbn [order_loop Nat.add].
        rewrite u64_small by lia. rewrite (proj2 (Z.ltb_lt _ _)) by lia. done.
      - cbn [order_loop Nat.add]. assert (2 ^ k < 2 ^ 30) by (apply Z.pow_lt_mono_r; lia).
        assert (0 < 2 ^ k) by (apply Z.pow_pos_nonneg; lia).
        rewrite u64_small by lia. rewrite (proj2 (Z.ltb_lt _ _)) by lia.
        rewrite Z.gtb_ltb, (proj2 (Z.ltb_ge _ _)) by (unfold int_max; lia).
        rewrite Z.mul_comm, <-pow2_succ by lia. apply IH; lia. }
    apply (H 30%nat 0); lia.
Qed.

(** Allocating and freeing again restores the live blocks and their
    contents. *)
Theorem buddy_alloc_free_roundtrip b A sz :
  idle b A → 0 ≤ sz ≤ 2 ^ 30 →
  wp (p ← buddy_alloc sz; buddy_free p) (λ _ b',
    idle b' A ∧ bframe (λ j o, A !! j = Some o) b b') b.
Proof.
  intros Hi Hsz. pose proof Hi as [Hrep Hl Hc]. wp_auto.
  eapply wp_mono; [by apply wp_buddy_alloc|].
  intros r b1 [(-> & -> & _)|(i & t & -> & Hnn & HA & Ht & Hszt & Hmin & Hrep1 & F1 & Hclr)].
  { unfold buddy_free. cbn. wp_auto. split; [done|apply bframe_refl]. }
  replace (paddr b i) with (paddr b1 i) by (unfold paddr; by rewrite (f_start _ _ _ F1)).
  eapply wp_mono.
  { eapply (wp_buddy_free b1 (<[i:=t]> A) i t); [done| |apply lookup_insert_eq|done].
    by rewrite (f_lock _ _ _ F1). }
  intros [] b2 [Hrep2 F2]. rewrite delete_insert_id in Hrep2 by done.
  assert (bframe (λ j o, A !! j = Some o) b b2) as F.
  { eapply bframe_trans; [done|]. eapply bframe_weaken; [|done]. intros j o Hj.
    by rewrite delete_insert_id. }
  split; [by eapply idle_frame|done].
Qed.

(** Blocks are aligned to page indices when the region is built but to
    absolute addresses when they are merged.  On a two-page region at a base
    that is not a multiple of the region's size, the block that was there
    first is lost for good: after its halves have been allocated and freed
    again, a two-page request fails, while the same calls succeed on an
    aligned base. *)
Theorem misaligned_region_never_merges :
  (∃ b, exec_ops [BAlloc 2; BFree 4096; BAlloc 1; BAlloc 1; BFree 4096; BFree 8192; BAlloc 2]
          (boot 4096 2) = Ok ([4096; 0; 4096; 8192; 0; 0; NULL], b)) ∧
  (∃ b, exec_ops [BAlloc 2; BFree 8192; BAlloc 1; BAlloc 1; BFree 8192; BFree 12288; BAlloc 2]
          (boot 8192 2) = Ok ([8192; 0; 8192; 12288; 0; 0; 8192], b)).
Proof. split; eexists; vm_compute; reflexivity. Qed.

(** [addr_to_index] converts the page number to [int], so a pointer 2^44
    bytes above a live block is taken for the block: freeing it frees the
    block. *)
Theorem addr_to_index_aliases b i :
  region_ok b → 0 ≤ i < managed_num_blocks b → paddr b i + 2 ^ 44 < 2 ^ 64 →
  addr_to_index b (paddr b i + 2 ^ 44) = addr_to_index b (paddr b i).
Proof.
  intros Hr Hi Hb. rewrite (addr_to_index_paddr b i) by done.
  destruct Hr as [Hs Hn Ht]. unfold int_max in Hn.
  unfold addr_to_index, paddr, BLOCK_SIZE in *.
  rewrite (proj2 (Z.ltb_ge _ _)) by lia. rewrite u64_small by lia.
  replace (managed_start b + i * 4096 + 2 ^ 44 - managed_start b)
    with ((i + 2 ^ 32) * 4096) by lia.
  rewrite Z.mod_mul, Z.div_mul by lia. cbn [negb Z.eqb].
  unfold s32. replace (i + 2 ^ 32 + 2 ^ 31) with (i + 2 ^ 31 + 1 * 2 ^ 32) by lia.
  rewrite Z.mod_add by lia. rewrite Z.mod_small by lia. rewrite Z.add_simpl_r.
  rewrite (proj2 (Z.ltb_ge _ _)) by lia. rewrite Z.geb_leb, (proj2 (Z.leb_gt _ _)) by lia. done.
Qed.

