(* ===== verification/Slab.v ===== *)
(** The slab allocator (kernel/slab.h, kernel/slab.c): caches of equal-sized
    objects, slabs of 2^slab_order pages taken from the buddy allocator, and
    the kmalloc size classes on top.  Data and operations. *)

From S2P Require Import Prelude.
From S2P Require Import Buddy.

(** * Constants *)

Definition MAX_NUM_CACHES : Z := 128.

Definition KMALLOC_NUM_CACHES : Z := 13.

Definition MAX_SLAB_ORDER : Z := 6.

Definition MIN_OBJS_PER_SLAB : Z := 8.

Definition NOFREE : Z := 65535.

(** Sizes on the 64-bit RISC-V target. *)
Definition sizeof_ptr : Z := 8.

Definition sizeof_slab : Z := 32.

Definition sizeof_cache : Z := 128.

Definition sizeof_block_meta : Z := 16.

(** * Data *)

Inductive Error :=
  | KMEM_OK
  | KMEM_ERR_NULL_CACHE
  | KMEM_ERR_NO_SPACE_IN_POOL
  | KMEM_ERR_BAD_OBJ_SIZE
  | KMEM_ERR_BUDDY_OOM
  | KMEM_ERR_INVALID_FREE_PTR
  | KMEM_ERR_CACHE_MISMATCH
  | KMEM_ERR_DOUBLE_FREE
  | KMEM_ERR_DESTROY_NOT_EMPTY
  | KMEM_ERR_DESTROY_KMALLOC_CACHE
  | KMEM_ERR_UNINITIALIZED_OBJECT.

#[export] Instance Error_eq_dec : EqDecision Error.
Proof. solve_decision. Defined.

Definition error_num (e : Error) : Z :=
  match e with
  | KMEM_OK => 0
  | KMEM_ERR_NULL_CACHE => 1
  | KMEM_ERR_NO_SPACE_IN_POOL => 2
  | KMEM_ERR_BAD_OBJ_SIZE => 3
  | KMEM_ERR_BUDDY_OOM => 4
  | KMEM_ERR_INVALID_FREE_PTR => 5
  | KMEM_ERR_CACHE_MISMATCH => 6
  | KMEM_ERR_DOUBLE_FREE => 7
  | KMEM_ERR_DESTROY_NOT_EMPTY => 8
  | KMEM_ERR_DESTROY_KMALLOC_CACHE => 9
  | KMEM_ERR_UNINITIALIZED_OBJECT => 10
  end.

(** [struct kmem_cache_s]; function pointers are addresses, [c_name] is
    [None] for a null pointer. *)
Record kmem_cache_t := Cache {
  c_lock : bool;
  full : Z;
  partial : Z;
  empty : Z;
  ctor : Z;
  dtor : Z;
  c_name : option string;
  slab_order : Z;
  object_size : Z;
  objs_per_slab : Z;
  obj_offset : Z;
  error_code : Error;
  is_used : bool;
  destroying : bool;
  c_next : Z;
  c_prev : Z }.

(** A descriptor after [memset(cache_pool, 0, ...)]. *)
Definition zero_cache : kmem_cache_t :=
  Cache false NULL NULL NULL NULL NULL None 0 0 0 0 KMEM_OK false false NULL NULL.

Inductive printf_arg :=
  | PInt (n : Z)
  | PStr (s : option string).

(** What the allocator does besides changing its state. *)
Inductive event :=
  | EvCtor (f obj : Z)
  | EvPrintf (fmt : string) (args : list printf_arg).

(** [struct kmem_state]: the buddy half, the descriptor pool at address
    [cache_pool], the cache list and the kmalloc table; with the console
    output and constructor calls made so far. *)
Record kstate := KState {
  bud : bstate;
  cache_pool : Z;
  caches : gmap Z kmem_cache_t;
  cache_list_lock : bool;
  cache_pool_lock : bool;
  head_of_cache_list : Z;
  tail_of_cache_list : Z;
  kmalloc_caches : gmap Z Z;
  trace : list event }.

Definition set_bud (b : bstate) (k : kstate) : kstate :=
  KState b (cache_pool k) (caches k) (cache_list_lock k) (cache_pool_lock k)
    (head_of_cache_list k) (tail_of_cache_list k) (kmalloc_caches k) (trace k).

Definition set_caches (c : gmap Z kmem_cache_t) (k : kstate) : kstate :=
  KState (bud k) (cache_pool k) c (cache_list_lock k) (cache_pool_lock k)
    (head_of_cache_list k) (tail_of_cache_list k) (kmalloc_caches k) (trace k).

Definition set_cache_list_lock (l : bool) (k : kstate) : kstate :=
  KState (bud k) (cache_pool k) (caches k) l (cache_pool_lock k)
    (head_of_cache_list k) (tail_of_cache_list k) (kmalloc_caches k) (trace k).

Definition set_cache_pool_lock (l : bool) (k : kstate) : kstate :=
  KState (bud k) (cache_pool k) (caches k) (cache_list_lock k) l
    (head_of_cache_list k) (tail_of_cache_list k) (kmalloc_caches k) (trace k).

Definition set_head (h : Z) (k : kstate) : kstate :=
  KState (bud k) (cache_pool k) (caches k) (cache_list_lock k) (cache_pool_lock k)
    h (tail_of_cache_list k) (kmalloc_caches k) (trace k).

Definition set_tail (t : Z) (k : kstate) : kstate :=
  KState (bud k) (cache_pool k) (caches k) (cache_list_lock k) (cache_pool_lock k)
    (head_of_cache_list k) t (kmalloc_caches k) (trace k).

Definition set_kmalloc_caches (m : gmap Z Z) (k : kstate) : kstate :=
  KState (bud k) (cache_pool k) (caches k) (cache_list_lock k) (cache_pool_lock k)
    (head_of_cache_list k) (tail_of_cache_list k) m (trace k).

Definition emit (e : event) (k : kstate) : kstate :=
  KState (bud k) (cache_pool k) (caches k) (cache_list_lock k) (cache_pool_lock k)
    (head_of_cache_list k) (tail_of_cache_list k) (kmalloc_caches k) (trace k ++ [e]).

(** Field updates of a descriptor. *)
Definition with_lock (v : bool) (c : kmem_cache_t) : kmem_cache_t :=
  Cache v (full c) (partial c) (empty c) (ctor c) (dtor c) (c_name c) (slab_order c)
    (object_size c) (objs_per_slab c) (obj_offset c) (error_code c) (is_used c)
    (destroying c) (c_next c) (c_prev c).

Definition with_lists (f p e : Z) (c : kmem_cache_t) : kmem_cache_t :=
  Cache (c_lock c) f p e (ctor c) (dtor c) (c_name c) (slab_order c)
    (object_size c) (objs_per_slab c) (obj_offset c) (error_code c) (is_used c)
    (destroying c) (c_next c) (c_prev c).

Definition with_funs (cf df : Z) (c : kmem_cache_t) : kmem_cache_t :=
  Cache (c_lock c) (full c) (partial c) (empty c) cf df (c_name c) (slab_order c)
    (object_size c) (objs_per_slab c) (obj_offset c) (error_code c) (is_used c)
    (destroying c) (c_next c) (c_prev c).

Definition with_name (n : option string) (c : kmem_cache_t) : kmem_cache_t :=
  Cache (c_lock c) (full c) (partial c) (empty c) (ctor c) (dtor c) n (slab_order c)
    (object_size c) (objs_per_slab c) (obj_offset c) (error_code c) (is_used c)
    (destroying c) (c_next c) (c_prev c).

Definition with_slab_order (o : Z) (c : kmem_cache_t) : kmem_cache_t :=
  Cache (c_lock c) (full c) (partial c) (empty c) (ctor c) (dtor c) (c_name c) o
    (object_size c) (objs_per_slab c) (obj_offset c) (error_code c) (is_used c)
    (destroying c) (c_next c) (c_prev c).

Definition with_object_size (s : Z) (c : kmem_cache_t) : kmem_cache_t :=
  Cache (c_lock c) (full c) (partial c) (empty c) (ctor c) (dtor c) (c_name c) (slab_order c)
    s (objs_per_slab c) (obj_offset c) (error_code c) (is_used c)
    (destroying c) (c_next c) (c_prev c).

Definition with_objs (n : Z) (c : kmem_cache_t) : kmem_cache_t :=
  Cache (c_lock c) (full c) (partial c) (empty c) (ctor c) (dtor c) (c_name c) (slab_order c)
    (object_size c) n (obj_offset c) (error_code c) (is_used c)
    (destroying c) (c_next c) (c_prev c).

Definition with_obj_offset (off : Z) (c : kmem_cache_t) : kmem_cache_t :=
  Cache (c_lock c) (full c) (partial c) (empty c) (ctor c) (dtor c) (c_name c) (slab_order c)
    (object_size c) (objs_per_slab c) off (error_code c) (is_used c)
    (destroying c) (c_next c) (c_prev c).

Definition with_error (e : Error) (c : kmem_cache_t) : kmem_cache_t :=
  Cache (c_lock c) (full c) (partial c) (empty c) (ctor c) (dtor c) (c_name c) (slab_order c)
    (object_size c) (objs_per_slab c) (obj_offset c) e (is_used c)
    (destroying c) (c_next c) (c_prev c).

Definition with_used (u : bool) (c : kmem_cache_t) : kmem_cache_t :=
  Cache (c_lock c) (full c) (partial c) (empty c) (ctor c) (dtor c) (c_name c) (slab_order c)
    (object_size c) (objs_per_slab c) (obj_offset c) (error_code c) u
    (destroying c) (c_next c) (c_prev c).

Definition with_destroying (d : bool) (c : kmem_cache_t) : kmem_cache_t :=
  Cache (c_lock c) (full c) (partial c) (empty c) (ctor c) (dtor c) (c_name c) (slab_order c)
    (object_size c) (objs_per_slab c) (obj_offset c) (error_code c) (is_used c)
    d (c_next c) (c_prev c).

Definition with_links (n p : Z) (c : kmem_cache_t) : kmem_cache_t :=
  Cache (c_lock c) (full c) (partial c) (empty c) (ctor c) (dtor c) (c_name c) (slab_order c)
    (object_size c) (objs_per_slab c) (obj_offset c) (error_code c) (is_used c)
    (destroying c) n p.

Definition set_s_next (n : Z) (s : slab_t) : slab_t :=
  Slab (s_cache s) (first_free s) (free_count s) (inuse s) n (s_prev s) (next_array s).

Definition set_s_prev (p : Z) (s : slab_t) : slab_t :=
  Slab (s_cache s) (first_free s) (free_count s) (inuse s) (s_next s) p (next_array s).

(** * Memory accesses and locks *)

Definition on_bud {A} (m : prog bstate A) : prog kstate A := zoom bud set_bud m.

Definition read_cache (c : Z) : prog kstate kmem_cache_t :=
  k ← get; of_option (caches k !! c).

Definition update_cache (c : Z) (f : kmem_cache_t → kmem_cache_t) : prog kstate unit :=
  k ← get;
  cc ← of_option (caches k !! c);
  modify (set_caches (<[c := f cc]> (caches k))).

Definition read_slab (s : Z) : prog kstate slab_t :=
  k ← get;
  match mem (bud k) !! s with
  | Some (SlabHdr h) => mret h
  | _ => undefined
  end.

Definition update_slab (s : Z) (f : slab_t → slab_t) : prog kstate unit :=
  h ← read_slab s; on_bud (store_cell s (SlabHdr (f h))).

Definition acquire_cache (c : Z) : prog kstate unit :=
  cc ← read_cache c;
  if c_lock cc then panic "acquire" else update_cache c (with_lock true).

Definition release_cache (c : Z) : prog kstate unit :=
  cc ← read_cache c;
  if c_lock cc then update_cache c (with_lock false) else panic "release".

Definition acquire_cache_list : prog kstate unit :=
  k ← get; if cache_list_lock k then panic "acquire" else modify (set_cache_list_lock true).

Definition release_cache_list : prog kstate unit :=
  k ← get; if cache_list_lock k then modify (set_cache_list_lock false) else panic "release".

Definition acquire_cache_pool : prog kstate unit :=
  k ← get; if cache_pool_lock k then panic "acquire" else modify (set_cache_pool_lock true).

Definition release_cache_pool : prog kstate unit :=
  k ← get; if cache_pool_lock k then modify (set_cache_pool_lock false) else panic "release".

(** * Error reporting *)

Definition kmem_cache_error (cachep : Z) : prog kstate Z :=
  if cachep =? NULL then
    _ ← modify (emit (EvPrintf "kmem_cache_error: cachep is NULL\n" []));
    mret (error_num KMEM_ERR_NULL_CACHE)
  else
    c ← read_cache cachep;
    let name := PStr (c_name c) in
    _ ← modify (emit
          match error_code c with
          | KMEM_OK => EvPrintf "%s: OK\n" [name]
          | KMEM_ERR_BUDDY_OOM => EvPrintf "%s: out of memory (buddy_alloc failed)\n" [name]
          | KMEM_ERR_INVALID_FREE_PTR => EvPrintf "%s: invalid free pointer\n" [name]
          | KMEM_ERR_DESTROY_NOT_EMPTY => EvPrintf "%s: destroy called but cache not empty\n" [name]
          | e => EvPrintf "%s: unknown error (%d)\n" [name; PInt (error_num e)]
          end);
    mret (error_num (error_code c)).

(** * The list of caches *)

Definition add_to_cache_list (new_cache : Z) : prog kstate unit :=
  if new_cache =? NULL then _ ← kmem_cache_error new_cache; mret tt
  else
    _ ← acquire_cache_list;
    k ← get;
    let head := head_of_cache_list k in
    _ ← (if head =? NULL then
           _ ← modify (set_head new_cache); modify (set_tail new_cache)
         else
           _ ← update_cache head (λ c, with_links (c_next c) new_cache c);
           _ ← update_cache new_cache (λ c, with_links head (c_prev c) c);
           modify (set_head new_cache));
    release_cache_list.

(** [while (cur && cur != cachep) cur = cur->next]; the pool bounds the
    length of the list. *)
Definition search_cache_list (cachep : Z) (head : Z) : prog kstate Z :=
  loop 130
    (λ cur,
       if (cur =? NULL) || (cur =? cachep) then mret (inr cur)
       else c ← read_cache cur; mret (inl (c_next c)))
    head.

Definition remove_from_cache_list (cachep : Z) : prog kstate Z :=
  _ ← acquire_cache_list;
  k ← get;
  if cachep =? NULL then
    let n := head_of_cache_list k in
    if n =? NULL then _ ← release_cache_list; mret NULL
    else
      nc ← read_cache n;
      let next := c_next nc in
      _ ← modify (set_head next);
      _ ← (if negb (next =? NULL) then update_cache next (λ c, with_links (c_next c) NULL c)
           else modify (set_tail NULL));
      _ ← update_cache n (with_links NULL NULL);
      _ ← release_cache_list;
      mret n
  else
    cur ← search_cache_list cachep (head_of_cache_list k);
    if cur =? NULL then _ ← release_cache_list; mret NULL
    else
      cc ← read_cache cur;
      let prev := c_prev cc in
      let next := c_next cc in
      _ ← (if negb (prev =? NULL) then update_cache prev (λ c, with_links next (c_prev c) c)
           else modify (set_head next));
      _ ← (if negb (next =? NULL) then update_cache next (λ c, with_links (c_next c) prev c)
           else modify (set_tail prev));
      _ ← update_cache cur (with_links NULL NULL);
      _ ← release_cache_list;
      mret cur.

(** * Cache creation *)

Definition ALIGN_UP (addr align : Z) : Z :=
  let remainder := addr mod align in
  if remainder =? 0 then addr else u64 (addr + (align - remainder)).

Definition find_free_cache_slot : prog kstate Z :=
  loop 129
    (λ i,
       if i <? MAX_NUM_CACHES then
         k ← get;
         c ← read_cache (cache_pool k + i * sizeof_cache);
         if is_used c then mret (inl (i + 1)) else mret (inr i)
       else mret (inr (-1)))
    0.

(** One round of the search for a slab size: [Some (n, offset)] when a slab of
    this order holds at least [min_objs] objects. *)
Definition try_slab_order (obj min_objs order : Z) : option (Z * Z) :=
  let slab_bytes := u64 (Z.shiftl BLOCK_SIZE order) in
  let usable0 := u64 (slab_bytes - ALIGN_UP sizeof_slab sizeof_ptr) in
  let n0 := usable0 / obj in
  if n0 <? min_objs then None
  else
    let header := ALIGN_UP (u64 (sizeof_slab + n0 * 2)) sizeof_ptr in
    let usable := if slab_bytes >? header then slab_bytes - header else 0 in
    let n := usable / obj in
    if n >=? min_objs then Some (n, ALIGN_UP (u64 (sizeof_slab + n * 2)) sizeof_ptr) else None.

(** The loop over [c->slab_order]: the first order that fits, or
    [MAX_SLAB_ORDER + 1] with no layout. *)
Fixpoint fit_slab (fuel : nat) (obj min_objs order : Z) : Z * option (Z * Z) :=
  match fuel with
  | O => (order, None)
  | Datatypes.S fuel' =>
      if order <=? MAX_SLAB_ORDER then
        match try_slab_order obj min_objs order with
        | Some layout => (order, Some layout)
        | None => fit_slab fuel' obj min_objs (order + 1)
        end
      else (order, None)
  end.

Definition round_object_size (size : Z) : Z :=
  let obj := if size <? sizeof_ptr then sizeof_ptr else size in
  ALIGN_UP obj sizeof_ptr.

Definition kmem_cache_create (name : option string) (size ctorf dtorf : Z) : prog kstate Z :=
  _ ← acquire_cache_pool;
  index ← find_free_cache_slot;
  if index <? 0 then _ ← release_cache_pool; mret NULL
  else
    k ← get;
    let c := cache_pool k + index * sizeof_cache in
    _ ← update_cache c (with_used true);
    _ ← update_cache c (with_destroying false);
    _ ← release_cache_pool;
    _ ← update_cache c (with_name name);
    _ ← update_cache c (with_funs ctorf dtorf);
    _ ← update_cache c (with_error KMEM_OK);
    _ ← update_cache c (with_lock false);
    let obj := round_object_size size in
    _ ← update_cache c (with_object_size obj);
    let min_objs := if obj >? 2048 then 1 else MIN_OBJS_PER_SLAB in
    if obj =? 0 then undefined
    else
      let '(order, layout) := fit_slab 8 obj min_objs 0 in
      _ ← update_cache c (with_slab_order order);
      _ ← match layout with
          | Some (n, off) =>
              _ ← update_cache c (with_objs n); update_cache c (with_obj_offset off)
          | None => mret tt
          end;
      if order >? MAX_SLAB_ORDER then
        _ ← acquire_cache_pool;
        _ ← update_cache c (with_used false);
        _ ← release_cache_pool;
        mret NULL
      else
        _ ← update_cache c (with_links NULL NULL);
        _ ← update_cache c (with_lists NULL NULL NULL);
        _ ← add_to_cache_list c;
        mret c.

(** * Slab lists

    [slab_t **headp] is one of the three list heads of a cache. *)

Inductive slab_list := LFull | LPartial | LEmpty.

Definition head_of (w : slab_list) (c : kmem_cache_t) : Z :=
  match w with
  | LFull => full c
  | LPartial => partial c
  | LEmpty => empty c
  end.

Definition with_head (w : slab_list) (p : Z) (c : kmem_cache_t) : kmem_cache_t :=
  match w with
  | LFull => with_lists p (partial c) (empty c) c
  | LPartial => with_lists (full c) p (empty c) c
  | LEmpty => with_lists (full c) (partial c) p c
  end.

Definition slab_list_push_front (cachep : Z) (w : slab_list) (s : Z) : prog kstate unit :=
  _ ← update_slab s (set_s_prev NULL);
  c ← read_cache cachep;
  let head := head_of w c in
  _ ← update_slab s (set_s_next head);
  _ ← (if negb (head =? NULL) then update_slab head (set_s_prev s) else mret tt);
  update_cache cachep (with_head w s).

Definition slab_list_pop_front (cachep : Z) (w : slab_list) : prog kstate Z :=
  c ← read_cache cachep;
  let s := head_of w c in
  if s =? NULL then mret NULL
  else
    h ← read_slab s;
    _ ← update_cache cachep (with_head w (s_next h));
    _ ← (if negb (s_next h =? NULL) then update_slab (s_next h) (set_s_prev NULL) else mret tt);
    _ ← update_slab s (set_s_next NULL);
    _ ← update_slab s (set_s_prev NULL);
    mret s.

Definition remove_from_slab_list (cachep : Z) (w : slab_list) : prog kstate Z :=
  c ← read_cache cachep;
  let s := head_of w c in
  if s =? NULL then mret NULL
  else
    h ← read_slab s;
    let next := s_next h in
    _ ← update_cache cachep (with_head w next);
    _ ← (if negb (next =? NULL) then update_slab next (set_s_prev NULL) else mret tt);
    _ ← update_slab s (set_s_next NULL);
    _ ← update_slab s (set_s_prev NULL);
    mret s.

Definition slab_list_remove_node (cachep : Z) (w : slab_list) (s : Z) : prog kstate unit :=
  h ← read_slab s;
  _ ← (if negb (s_prev h =? NULL) then update_slab (s_prev h) (set_s_next (s_next h))
       else update_cache cachep (with_head w (s_next h)));
  h ← read_slab s;
  _ ← (if negb (s_next h =? NULL) then update_slab (s_next h) (set_s_prev (s_prev h)) else mret tt);
  _ ← update_slab s (set_s_next NULL);
  _ ← update_slab s (set_s_prev NULL);
  mret tt.

(** * Objects in a slab *)

Definition set_first_free (i : Z) (s : slab_t) : slab_t :=
  Slab (s_cache s) i (free_count s) (inuse s) (s_next s) (s_prev s) (next_array s).

Definition set_free_count (n : Z) (s : slab_t) : slab_t :=
  Slab (s_cache s) (first_free s) n (inuse s) (s_next s) (s_prev s) (next_array s).

Definition set_inuse (n : Z) (s : slab_t) : slab_t :=
  Slab (s_cache s) (first_free s) (free_count s) n (s_next s) (s_prev s) (next_array s).

Definition set_next_array (a : gmap Z Z) (s : slab_t) : slab_t :=
  Slab (s_cache s) (first_free s) (free_count s) (inuse s) (s_next s) (s_prev s) a.

Definition slab_next_array (s : Z) : Z := u64 (s + ALIGN_UP sizeof_slab 2).

Definition slab_obj_ptr (c : kmem_cache_t) (s idx : Z) : Z :=
  u64 (s + obj_offset c + u64 (idx * object_size c)).

Definition slab_obj_index (c : kmem_cache_t) (s obj : Z) : option Z :=
  if object_size c =? 0 then None
  else Some (u16 (u64 (obj - (s + obj_offset c)) / object_size c)).

(** [next[idx] = v] with [next = slab_next_array(s)].  A write at or past
    [obj_offset] would hit the objects; the model stops there. *)
Definition write_next (c : kmem_cache_t) (s idx v : Z) : prog kstate unit :=
  if (0 <=? idx) && (slab_next_array s + 2 * idx + 2 <=? s + obj_offset c)
  then update_slab s (λ h, set_next_array (<[idx := v]> (next_array h)) h)
  else undefined.

Definition slab_alloc_obj (c : kmem_cache_t) (s : Z) : prog kstate Z :=
  h ← read_slab s;
  if first_free h =? NOFREE then mret NULL
  else
    let idx := first_free h in
    nx ← of_option (next_array h !! idx);
    _ ← update_slab s (set_first_free nx);
    _ ← update_slab s (λ h, set_free_count (u16 (free_count h - 1)) h);
    _ ← update_slab s (λ h, set_inuse (u32 (inuse h + 1)) h);
    mret (slab_obj_ptr c s idx).

Definition slab_free_obj (c : kmem_cache_t) (s obj : Z) : prog kstate unit :=
  idx ← of_option (slab_obj_index c s obj);
  h ← read_slab s;
  _ ← write_next c s idx (first_free h);
  _ ← update_slab s (set_first_free idx);
  _ ← update_slab s (λ h, set_free_count (u16 (free_count h + 1)) h);
  update_slab s (λ h, set_inuse (u32 (inuse h - 1)) h).

Definition page_align_down (p : Z) : Z :=
  if p =? NULL then NULL else Z.land p (u64 (Z.lnot (4096 - 1))).

(** * Slab ownership of pages *)

(** [for (i = 0; i < (1 << slab_order); i++) block_meta[head + i].owner_slab = s]
    under the buddy lock. *)
Definition set_owners (head order s : Z) : prog kstate unit :=
  on_bud (
    _ ← acquire_buddy;
    _ ← for_range 0 (Z.shiftl 1 order) (λ i, update_meta (head + i) (set_owner_slab s));
    release_buddy).

(** The slab whose page [page] is, read under the buddy lock. *)
Definition owner_of_page (page : Z) : prog kstate Z :=
  on_bud (
    _ ← acquire_buddy;
    b ← get;
    let idx := addr_to_index b page in
    slab ← (if idx >=? 0 then m ← read_meta idx; mret (owner_slab m) else mret NULL);
    _ ← release_buddy;
    mret slab).

(** * Allocation *)

(** The part of [kmem_cache_alloc] that takes an object out of a slab of the
    partial list; the cache lock is held on entry and released on exit. *)
Definition alloc_from_slab (cachep slab : Z) : prog kstate Z :=
  c ← read_cache cachep;
  obj ← slab_alloc_obj c slab;
  if obj =? NULL then
    _ ← update_cache cachep (with_error KMEM_ERR_UNINITIALIZED_OBJECT);
    _ ← release_cache cachep;
    mret NULL
  else
    h ← read_slab slab;
    _ ← (if inuse h =? objs_per_slab c then
           _ ← slab_list_remove_node cachep LPartial slab;
           slab_list_push_front cachep LFull slab
         else mret tt);
    _ ← release_cache cachep;
    mret obj.

(** First critical section: [inr obj] is the result of the call, [inl tt]
    says that the cache must grow. *)
Definition alloc_fast (cachep : Z) : prog kstate (unit + Z) :=
  _ ← acquire_cache cachep;
  c ← read_cache cachep;
  if destroying c then _ ← release_cache cachep; mret (inr NULL)
  else
    slab ← (if negb (partial c =? NULL) then mret (partial c)
            else if negb (empty c =? NULL) then
              s ← slab_list_pop_front cachep LEmpty;
              _ ← slab_list_push_front cachep LPartial s;
              mret s
            else mret NULL);
    if negb (slab =? NULL) then obj ← alloc_from_slab cachep slab; mret (inr obj)
    else _ ← release_cache cachep; mret (inl tt).

(** The header of a new slab: every object is on the index free list, in
    order. *)
Definition init_slab (cachep : Z) (base : Z) : prog kstate unit :=
  c ← read_cache cachep;
  let n := u16 (objs_per_slab c) in
  _ ← on_bud (store_cell base (SlabHdr (Slab cachep 0 0 0 NULL NULL ∅)));
  _ ← for_range 0 (n - 1) (λ i, write_next c base i (u16 (i + 1)));
  _ ← write_next c base (n - 1) NOFREE;
  _ ← update_slab base (set_first_free 0);
  update_slab base (set_free_count n).

Definition run_ctors (cachep : Z) (base : Z) : prog kstate unit :=
  c ← read_cache cachep;
  if negb (ctor c =? NULL) then
    for_range 0 (u16 (objs_per_slab c)) (λ i, modify (emit (EvCtor (ctor c) (slab_obj_ptr c base i))))
  else mret tt.

(** Between the critical sections: a slab no other CPU knows is taken from
    the buddy allocator and set up. *)
Definition alloc_grow (cachep : Z) : prog kstate Z :=
  c ← read_cache cachep;
  base ← on_bud (buddy_alloc (u64 (Z.shiftl 1 (slab_order c))));
  if base =? NULL then
    _ ← acquire_cache cachep;
    _ ← update_cache cachep (with_error KMEM_ERR_BUDDY_OOM);
    _ ← release_cache cachep;
    mret NULL
  else
    _ ← init_slab cachep base;
    k ← get;
    _ ← set_owners (addr_to_index (bud k) base) (slab_order c) base;
    _ ← run_ctors cachep base;
    mret base.

(** Last critical section: the new slab joins the cache and serves the
    request, unless the cache is being destroyed meanwhile. *)
Definition alloc_attach (cachep newslab : Z) : prog kstate Z :=
  _ ← acquire_cache cachep;
  c ← read_cache cachep;
  if destroying c then
    _ ← release_cache cachep;
    k ← get;
    _ ← set_owners (addr_to_index (bud k) newslab) (slab_order c) NULL;
    _ ← on_bud (buddy_free newslab);
    mret NULL
  else
    _ ← slab_list_push_front cachep LPartial newslab;
    alloc_from_slab cachep newslab.

Definition kmem_cache_alloc (cachep : Z) : prog kstate Z :=
  if cachep =? NULL then mret NULL
  else
    r ← alloc_fast cachep;
    match r with
    | inr obj => mret obj
    | inl _ =>
        newslab ← alloc_grow cachep;
        if newslab =? NULL then mret NULL else alloc_attach cachep newslab
    end.

(** * Freeing *)

(** [cachep->error_code = e; release(&cachep->lock); return] *)
Definition fail_locked (cachep : Z) (e : Error) : prog kstate unit :=
  _ ← update_cache cachep (with_error e); release_cache cachep.

(** The critical section of [kmem_cache_free]. *)
Definition free_locked (cachep slab objp : Z) : prog kstate unit :=
  _ ← acquire_cache cachep;
  c ← read_cache cachep;
  if destroying c then release_cache cachep
  else
    h ← read_slab slab;
    if negb (s_cache h =? cachep) then fail_locked cachep KMEM_ERR_CACHE_MISMATCH
    else if inuse h =? 0 then fail_locked cachep KMEM_ERR_DOUBLE_FREE
    else
      let was_full := inuse h =? objs_per_slab c in
      _ ← slab_free_obj c slab objp;
      _ ← (if was_full then
             _ ← slab_list_remove_node cachep LFull slab;
             slab_list_push_front cachep LPartial slab
           else mret tt);
      h ← read_slab slab;
      _ ← (if inuse h =? 0 then
             _ ← slab_list_remove_node cachep LPartial slab;
             slab_list_push_front cachep LEmpty slab
           else mret tt);
      release_cache cachep.

Definition kmem_cache_free (cachep objp : Z) : prog kstate unit :=
  if (cachep =? NULL) || (objp =? NULL) then mret tt
  else
    slab ← owner_of_page (page_align_down objp);
    if slab =? NULL then
      _ ← acquire_cache cachep; fail_locked cachep KMEM_ERR_CACHE_MISMATCH
    else free_locked cachep slab objp.

(** * The kmalloc size classes *)

Definition kmalloc_index (sz : Z) : Z :=
  if sz <=? 32 then 0
  else if sz <=? 64 then 1
  else if sz <=? 128 then 2
  else if sz <=? 256 then 3
  else if sz <=? 512 then 4
  else if sz <=? 1024 then 5
  else if sz <=? 2048 then 6
  else if sz <=? 4096 then 7
  else if sz <=? 8192 then 8
  else if sz <=? 16384 then 9
  else if sz <=? 32768 then 10
  else if sz <=? 65536 then 11
  else if sz <=? 131072 then 12
  else -1.

Definition kmalloc (size : Z) : prog kstate Z :=
  if size =? 0 then mret NULL
  else
    let size := ALIGN_UP size 8 in
    let idx := kmalloc_index size in
    if idx <? 0 then mret NULL
    else
      k ← get;
      cache ← of_option (kmalloc_caches k !! idx);
      if cache =? NULL then mret NULL else kmem_cache_alloc cache.

Definition k_free (objp : Z) : prog kstate unit :=
  let page := page_align_down objp in
  k ← get;
  let idx := addr_to_index (bud k) page in
  if idx <? 0 then mret tt
  else
    slab ← on_bud (_ ← acquire_buddy; m ← read_meta idx; _ ← release_buddy; mret (owner_slab m));
    if negb (slab =? NULL) then
      h ← read_slab slab;
      kmem_cache_free (s_cache h) objp
    else if negb (page =? objp) then mret tt
    else on_bud (buddy_free objp).

(** * Shrinking and destroying *)

(** A cache has at most one empty slab per page, which bounds the loop. *)
Definition kmem_cache_shrink (cachep : Z) : prog kstate Z :=
  k ← get;
  loop (list_fuel (bud k))
    (λ freed,
       _ ← acquire_cache cachep;
       slab ← remove_from_slab_list cachep LEmpty;
       _ ← release_cache cachep;
       if slab =? NULL then mret (inr freed)
       else
         c ← read_cache cachep;
         k ← get;
         _ ← set_owners (addr_to_index (bud k) slab) (slab_order c) NULL;
         _ ← on_bud (buddy_free slab);
         mret (inl (freed + 1)))
    0.

(** [for (i = 0; i < KMALLOC_NUM_CACHES; i++) if (kmalloc_caches[i] == cachep) ...] *)
Definition is_kmalloc_cache (k : kstate) (cachep : Z) : bool :=
  existsb (λ i, match kmalloc_caches k !! i with
                | Some p => p =? cachep
                | None => false
                end) (seqZ 0 KMALLOC_NUM_CACHES).

Definition clear_descriptor (c : kmem_cache_t) : kmem_cache_t :=
  with_funs NULL NULL (with_lists NULL NULL NULL (with_slab_order 0 (with_objs 0
    (with_object_size 0 (with_error KMEM_OK (with_name None c)))))).

Definition kmem_cache_destroy (cachep : Z) : prog kstate unit :=
  k ← get;
  if is_kmalloc_cache k cachep then
    _ ← update_cache cachep (with_error KMEM_ERR_DESTROY_KMALLOC_CACHE);
    _ ← kmem_cache_error cachep;
    mret tt
  else
    _ ← acquire_cache cachep;
    _ ← update_cache cachep (with_destroying true);
    c ← read_cache cachep;
    if negb (partial c =? NULL) || negb (full c =? NULL) then
      _ ← update_cache cachep (with_error KMEM_ERR_DESTROY_NOT_EMPTY);
      _ ← kmem_cache_error cachep;
      _ ← update_cache cachep (with_destroying false);
      release_cache cachep
    else
      _ ← release_cache cachep;
      _ ← kmem_cache_shrink cachep;
      _ ← remove_from_cache_list cachep;
      _ ← acquire_cache cachep;
      _ ← acquire_cache_pool;
      _ ← update_cache cachep (with_used false);
      _ ← release_cache_pool;
      _ ← update_cache cachep clear_descriptor;
      release_cache cachep.

(** * Statistics *)

(** Signed arithmetic on [int]: a result out of range is undefined. *)
Definition int_op {S} (x : Z) : prog S Z :=
  if (- 2 ^ 31 <=? x) && (x <=? int_max) then mret x else undefined.

Definition get_num_slabs (head : Z) : prog kstate Z :=
  k ← get;
  loop (list_fuel (bud k))
    (λ '(temp, num_slabs),
       if temp =? NULL then mret (inr num_slabs)
       else
         h ← read_slab temp;
         n ← int_op (num_slabs + 1);
         mret (inl (s_next h, n)))
    (head, 0).

Definition get_objects_in_use (cachep : Z) : prog kstate Z :=
  c ← read_cache cachep;
  nf ← get_num_slabs (full c);
  k ← get;
  loop (list_fuel (bud k))
    (λ '(temp, in_use),
       if temp =? NULL then mret (inr in_use)
       else
         h ← read_slab temp;
         mret (inl (s_next h, s32 (u32 (in_use + inuse h)))))
    (partial c, s32 (u64 (nf * objs_per_slab c))).

Definition kmem_cache_info (cachep : Z) : prog kstate unit :=
  if cachep =? NULL then mret tt
  else
    _ ← acquire_cache cachep;
    c ← read_cache cachep;
    num_empty_slabs ← get_num_slabs (empty c);
    num_partial_slabs ← get_num_slabs (partial c);
    num_full_slabs ← get_num_slabs (full c);
    in_use ← get_objects_in_use cachep;
    let obj_size := s32 (object_size c) in
    let order := slab_order c in
    let objects_per_slab := s32 (objs_per_slab c) in
    _ ← release_cache cachep;
    slab_size ← int_op (Z.shiftl 4096 order);
    total_slabs ← int_op (num_empty_slabs + num_partial_slabs + num_full_slabs);
    capacity_objects ← int_op (objects_per_slab * total_slabs);
    percentage ← (if capacity_objects >? 0 then
                    x ← int_op (in_use * 100); mret (Z.quot x capacity_objects)
                  else mret 0);
    c ← read_cache cachep;
    let name := match c_name c with
                | Some n => n
                | None => "(null)"%string
                end in
    let pr fmt args := modify (emit (EvPrintf fmt args)) in
    _ ← pr "=== kmem_cache_info ===\n"%string [];
    _ ← pr "name: %s\n"%string [PStr (Some name)];
    _ ← pr "object_size: %d\n"%string [PInt obj_size];
    _ ← pr "slab_order: %d\n"%string [PInt order];
    _ ← pr "slab_size_bytes: %d\n"%string [PInt slab_size];
    _ ← pr "objects_per_slab: %d\n"%string [PInt objects_per_slab];
    _ ← pr "slabs: empty=%d partial=%d full=%d total=%d\n"%string
          [PInt num_empty_slabs; PInt num_partial_slabs; PInt num_full_slabs; PInt total_slabs];
    pr "objects: in_use=%d capacity=%d utilization=%d%%\n"%string
      [PInt in_use; PInt capacity_objects; PInt percentage].
