(* ===== verification/SlabInv.v ===== *)
(** The invariant of the slab allocator.  A ghost map records, for every slab,
    its cache, the list it is on and its free objects in free-list order; the
    headers, the three lists of each cache, the page owners and the buddy
    allocator agree with it.  Pure lemmas; the operations are treated in
    SlabSpec.v. *)

From S2P Require Import Prelude.
From S2P Require Import Buddy.
From S2P Require Import BuddyInv.
From S2P Require Import BuddySpec.
From S2P Require Import BuddyProps.
From S2P Require Import Slab.

(** * Ghost state *)

(** [si_where] is [None] for a slab that is on no list: one being set up or
    being moved. *)
Record sinfo := SInfo {
  si_cache : Z;
  si_order : Z;
  si_where : option slab_list;
  si_free : list Z }.

Definition set_where (w : option slab_list) (i : sinfo) : sinfo :=
  SInfo (si_cache i) (si_order i) w (si_free i).

Definition set_free (l : list Z) (i : sinfo) : sinfo :=
  SInfo (si_cache i) (si_order i) (si_where i) l.

#[export] Instance slab_list_eq_dec : EqDecision slab_list.
Proof. solve_decision. Defined.

#[export] Instance sinfo_eq_dec : EqDecision sinfo.
Proof. solve_decision. Defined.

(** * The index free list of a slab *)

Fixpoint idx_chain (nx : gmap Z Z) (p : Z) (l : list Z) : Prop :=
  match l with
  | [] => p = NOFREE
  | j :: l' => p = j ∧ j ≠ NOFREE ∧ ∃ q, nx !! j = Some q ∧ idx_chain nx q l'
  end.

Lemma idx_chain_fresh nx p l j v : j ∉ l → idx_chain nx p l → idx_chain (<[j:=v]> nx) p l.
Proof.
  revert p. induction l as [|a l IH]; intros p Hj; simpl; [done|].
  apply not_elem_of_cons in Hj as [Hne Hj].
  intros (-> & Ha & q & Hq & Hl). split; [done|]. split; [done|]. exists q.
  rewrite lookup_insert_ne by done. auto.
Qed.

Lemma idx_chain_push nx p l j :
  j ∉ l → j ≠ NOFREE → idx_chain nx p l → idx_chain (<[j:=p]> nx) j (j :: l).
Proof.
  intros Hj Hn H. simpl. split; [done|]. split; [done|]. exists p.
  rewrite lookup_insert_eq. split; [done|]. by apply idx_chain_fresh.
Qed.

(** * Doubly linked lists

    [lk s] gives the [next] and [prev] fields of node [s]. *)

Fixpoint dl (lk : Z → option (Z * Z)) (prev p : Z) (l : list Z) : Prop :=
  match l with
  | [] => p = NULL
  | s :: l' => p = s ∧ s ≠ NULL ∧ ∃ n, lk s = Some (n, prev) ∧ dl lk s n l'
  end.

Section Dl.

Implicit Types lk : Z → option (Z * Z).

Lemma dl_ext lk lk' prev p l :
  (∀ s, s ∈ l → lk' s = lk s) → dl lk prev p l → dl lk' prev p l.
Proof.
  revert prev p. induction l as [|s l IH]; intros prev p Hlk; simpl; [done|].
  intros (-> & Hs & n & Hn & Hl). split; [done|]. split; [done|]. exists n.
  rewrite Hlk by set_solver. split; [done|]. apply IH; [|done]. intros. apply Hlk. set_solver.
Qed.

Lemma dl_elem lk prev p l s : dl lk prev p l → s ∈ l → s ≠ NULL ∧ is_Some (lk s).
Proof.
  revert prev p. induction l as [|a l IH]; intros prev p; simpl; [set_solver|].
  intros (-> & Ha & n & Hn & Hl) [->|Hs]%elem_of_cons; [eauto|]. by eapply IH.
Qed.

Lemma dl_next lk prev p l x y z :
  dl lk prev p l → x ∈ l → lk x = Some (y, z) → y ≠ NULL →
  y ∈ l ∧ ∃ y', lk y = Some (y', x).
Proof.
  revert prev p. induction l as [|a l IH]; intros prev p; simpl; [set_solver|].
  intros (-> & Ha & n & Hn & Hl) [->|Hx]%elem_of_cons Hlk Hy.
  - rewrite Hn in Hlk. injection Hlk as -> ->. destruct l as [|b l]; simpl in Hl; [done|].
    destruct Hl as (-> & _ & n' & Hn' & _). split; [set_solver|eauto].
  - destruct (IH _ _ Hl Hx Hlk Hy) as [? ?]. split; [set_solver|done].
Qed.

Lemma dl_prev lk prev p l x y z :
  dl lk prev p l → x ∈ l → lk x = Some (y, z) →
  (z = prev ∧ p = x) ∨ (z ∈ l ∧ ∃ z', lk z = Some (x, z')).
Proof.
  revert prev p. induction l as [|a l IH]; intros prev p; simpl; [set_solver|].
  intros (-> & Ha & n & Hn & Hl) [->|Hx]%elem_of_cons Hlk.
  - rewrite Hn in Hlk. injection Hlk as -> ->. by left.
  - right. destruct (IH _ _ Hl Hx Hlk) as [[-> ->]|[? ?]]; [|set_solver].
    split; [set_solver|eauto].
Qed.

Lemma dl_head lk prev p l : dl lk prev p l → p ≠ NULL → p ∈ l ∧ ∃ n, lk p = Some (n, prev).
Proof.
  destruct l as [|a l]; simpl; [done|]. intros (-> & _ & n & Hn & _) _. split; [set_solver|eauto].
Qed.

Lemma dl_irrefl lk prev p l x y z :
  dl lk prev p l → NoDup l → prev ∉ l → x ∈ l → lk x = Some (y, z) → z ≠ x.
Proof.
  revert prev p. induction l as [|a l IH]; intros prev p; simpl; [set_solver|].
  intros (-> & Ha & n & Hn & Hl) [Hal Hnd]%NoDup_cons Hp [->|Hx]%elem_of_cons Hlk.
  - rewrite Hn in Hlk. injection Hlk as -> ->. set_solver.
  - by apply (IH a n).
Qed.

(** Node [x] of the result when node [s], with links [(n, pv)], is skipped. *)
Definition skip (s n pv : Z) (yz : Z * Z) : Z * Z :=
  (if decide (yz.1 = s) then n else yz.1, if decide (yz.2 = s) then pv else yz.2).

Lemma dl_skip_none lk lk' s n pv prev p l :
  s ∉ l → prev ≠ s → s ≠ NULL →
  (∀ x yz, x ∈ l → lk x = Some yz → lk' x = Some (skip s n pv yz)) →
  dl lk prev p l → dl lk' prev p l.
Proof.
  revert prev p. induction l as [|a l IH]; intros prev p Hs Hp Hn Hlk; simpl; [done|].
  intros (-> & Ha & m & Hm & Hl). split; [done|]. split; [done|]. exists m.
  rewrite (Hlk a (m, prev)) by set_solver. unfold skip. simpl.
  rewrite (decide_False (P := prev = s)) by done.
  rewrite decide_False.
  - split; [done|]. apply IH; [set_solver..|done| |done]. intros. apply Hlk; set_solver.
  - intros ->. destruct l; simpl in Hl; [done|]. destruct Hl as (-> & _). set_solver.
Qed.

Lemma dl_remove lk lk' s n pv prev p l1 l2 :
  dl lk prev p (l1 ++ s :: l2) → lk s = Some (n, pv) → NoDup (l1 ++ s :: l2) → prev ≠ s →
  (∀ x yz, x ∈ l1 ++ l2 → lk x = Some yz → lk' x = Some (skip s n pv yz)) →
  dl lk' prev (if decide (p = s) then n else p) (l1 ++ l2).
Proof.
  revert prev p. induction l1 as [|a l1 IH]; intros prev p Hl Hs Hnd Hp Hlk; simpl in *.
  - destruct Hl as (-> & Hs0 & n' & Hn' & Hl). rewrite decide_True by done.
    rewrite Hs in Hn'. injection Hn' as -> ->. apply NoDup_cons in Hnd as [Hs2 _].
    destruct l2 as [|t l3]; simpl in *; [done|]. destruct Hl as (-> & Ht & m & Hm & Hl).
    split; [done|]. split; [done|]. exists m. rewrite (Hlk t (m, s)) by set_solver.
    unfold skip. simpl. rewrite (decide_True (P := s = s)) by done. rewrite decide_False.
    + split; [done|]. eapply (dl_skip_none lk lk' s t prev); [set_solver|set_solver|done| |done].
      intros. apply Hlk; set_solver.
    + intros ->. destruct l3; simpl in Hl; [done|]. destruct Hl as (-> & _). set_solver.
  - destruct Hl as (-> & Ha & m & Hm & Hl). apply NoDup_cons in Hnd as [Ha2 Hnd].
    assert (a ≠ s) by set_solver. rewrite decide_False by done.
    split; [done|]. split; [done|]. rewrite (Hlk a (m, prev)) by set_solver.
    unfold skip. simpl. rewrite (decide_False (P := prev = s)) by done.
    eexists. split; [done|]. apply IH; [done..|]. intros. apply Hlk; set_solver.
Qed.

(** Skipping [s] is the same change as patching the links of its
    neighbours. *)
Lemma dl_skip_patch lk p l s n pv x y z :
  dl lk NULL p l → s ∈ l → lk s = Some (n, pv) → x ∈ l → lk x = Some (y, z) →
  (if decide (x = pv) then n else y, if decide (x = n) then pv else z) = skip s n pv (y, z).
Proof.
  intros Hl Hsl Hlinks Hx Hyz. unfold skip. simpl.
  destruct (dl_elem _ _ _ _ _ Hl Hsl) as [Hs0 _]. destruct (dl_elem _ _ _ _ _ Hl Hx) as [Hx0 _].
  assert (x = pv ↔ y = s) as E1.
  { split.
    - intros ->. destruct (dl_prev _ _ _ _ _ _ _ Hl Hsl Hlinks) as [[? _]|[_ [z' Hz']]]; [done|].
      congruence.
    - intros ->. destruct (dl_next _ _ _ _ _ _ _ Hl Hx Hyz Hs0) as [_ [y' Hy']]. congruence. }
  assert (x = n ↔ z = s) as E2.
  { split.
    - intros ->. destruct (dl_next _ _ _ _ _ _ _ Hl Hsl Hlinks Hx0) as [_ [y' Hy']]. congruence.
    - intros ->. destruct (dl_prev _ _ _ _ _ _ _ Hl Hx Hyz) as [[? _]|[_ [z' Hz']]]; [done|].
      congruence. }
  f_equal; apply decide_ext; [exact E1|exact E2].
Qed.

Lemma dl_push lk lk' s h l :
  dl lk NULL h l → s ∉ l → s ≠ NULL → NoDup l → lk' s = Some (h, NULL) →
  (∀ x yz, x ∈ l → lk x = Some yz → lk' x = Some (yz.1, if decide (x = h) then s else yz.2)) →
  dl lk' NULL s (s :: l).
Proof.
  intros Hl Hs Hs0 Hnd Hlks Hlk. simpl. split; [done|]. split; [done|]. exists h. split; [done|].
  destruct l as [|t l]; simpl in *; [done|]. destruct Hl as (-> & Ht & m & Hm & Hl).
  split; [done|]. split; [done|]. exists m. rewrite (Hlk t (m, NULL)) by set_solver.
  simpl. rewrite decide_True by done. split; [done|]. apply NoDup_cons in Hnd as [Htl _].
  eapply dl_ext; [|done]. intros x Hx.
  destruct (dl_elem _ _ _ _ _ Hl Hx) as [_ [[y z] Hyz]].
  rewrite (Hlk x (y, z)) by set_solver. rewrite decide_False by set_solver. done.
Qed.

End Dl.

(** * The invariant *)

(** Layout of a slab of the cache: header, index array, then the objects, all
    inside the slab's pages. *)
Record geom_ok (c : kmem_cache_t) : Prop := {
  g_order : 0 ≤ slab_order c ≤ MAX_SLAB_ORDER;
  g_size : sizeof_ptr ≤ object_size c;
  g_objs : 1 ≤ objs_per_slab c;
  g_off : sizeof_slab + 2 * objs_per_slab c ≤ obj_offset c;
  g_fit : obj_offset c + objs_per_slab c * object_size c ≤ BLOCK_SIZE * 2 ^ slab_order c }.

Definition hdr_links (m : gmap Z cell) (s : Z) : option (Z * Z) :=
  match m !! s with
  | Some (SlabHdr h) => Some (s_next h, s_prev h)
  | _ => None
  end.

Definition cache_links (cs : gmap Z kmem_cache_t) (a : Z) : option (Z * Z) :=
  c ← cs !! a; Some (c_next c, c_prev c).

(** The header of a slab of a cache with [n] objects per slab. *)
Record hdr_ok (n : Z) (i : sinfo) (h : slab_t) : Prop := {
  h_cache : s_cache h = si_cache i;
  h_chain : idx_chain (next_array h) (first_free h) (si_free i);
  h_nodup : NoDup (si_free i);
  h_range : ∀ j, j ∈ si_free i → 0 ≤ j < n;
  h_count : free_count h = zlen (si_free i);
  h_inuse : inuse h = n - zlen (si_free i) }.

(** Slab [s] is a live buddy block, its cache is in use, its header agrees
    with the ghost information. *)
Definition slab_at (k : kstate) (A : gmap Z Z) (s : Z) (i : sinfo) : Prop :=
  ∃ idx c h, s = paddr (bud k) idx ∧ A !! idx = Some (si_order i) ∧
    caches k !! si_cache i = Some c ∧ is_used c = true ∧ slab_order c = si_order i ∧
    mem (bud k) !! s = Some (SlabHdr h) ∧ hdr_ok (objs_per_slab c) i h.

(** [l] is the list [w] of the cache at [a]. *)
Definition list_at (k : kstate) (G : gmap Z sinfo) (a : Z) (w : slab_list) (p : Z) : Prop :=
  ∃ l, dl (hdr_links (mem (bud k))) NULL p l ∧ NoDup l ∧
    ∀ s, s ∈ l ↔ ∃ i, G !! s = Some i ∧ si_cache i = a ∧ si_where i = Some w.

Definition covers (b : bstate) (s : Z) (i : sinfo) (p : Z) : Prop :=
  ∃ idx, s = paddr b idx ∧ idx ≤ p < idx + 2 ^ si_order i.

Record pool_ok (k : kstate) : Prop := {
  po_pos : 0 < cache_pool k;
  po_dom : ∀ a, is_Some (caches k !! a) ↔
    ∃ i, 0 ≤ i < MAX_NUM_CACHES ∧ a = cache_pool k + i * sizeof_cache }.

(** The list of caches holds exactly the descriptors in use. *)
Record clist_ok (k : kstate) (C : list Z) : Prop := {
  cl_dl : dl (cache_links (caches k)) NULL (head_of_cache_list k) C;
  cl_nodup : NoDup C;
  cl_used : ∀ a, a ∈ C ↔ ∃ c, caches k !! a = Some c ∧ is_used c = true;
  cl_tail : tail_of_cache_list k = default NULL (last C) }.

(** The slab side of the invariant, which no operation on the list of caches
    touches. *)
Record score (k : kstate) (A : gmap Z Z) (G : gmap Z sinfo) : Prop := {
  kc_buddy : buddy_rep (bud k) A;
  kc_align : managed_start (bud k) mod BLOCK_SIZE = 0;
  kc_pool : pool_ok k;
  kc_geom : ∀ a c, caches k !! a = Some c → is_used c = true → geom_ok c;
  kc_slab : ∀ s i, G !! s = Some i → slab_at k A s i;
  kc_list : ∀ a c w, caches k !! a = Some c → is_used c = true → list_at k G a w (head_of w c);
  kc_owner : ∀ p m, 0 ≤ p < managed_num_blocks (bud k) → block_meta (bud k) !! p = Some m →
    ∀ s, (s ≠ NULL ∧ owner_slab m = s) ↔ ∃ i, G !! s = Some i ∧ covers (bud k) s i p }.

(** A slab is on the list its count of free objects says. *)
Definition settled_at (n : Z) (i : sinfo) : Prop :=
  match si_where i with
  | Some LFull => si_free i = []
  | Some LPartial => 0 < zlen (si_free i) < n
  | Some LEmpty => zlen (si_free i) = n
  | None => False
  end.

Definition settled (k : kstate) (G : gmap Z sinfo) : Prop :=
  ∀ s i c, G !! s = Some i → caches k !! si_cache i = Some c → settled_at (objs_per_slab c) i.

Record unlocked (k : kstate) : Prop := {
  ul_buddy : buddy_lock (bud k) = false;
  ul_cache : ∀ a c, caches k !! a = Some c → c_lock c = false;
  ul_list : cache_list_lock k = false;
  ul_pool : cache_pool_lock k = false }.

(** The allocator between two calls: live buddy blocks [A], slabs [G], caches
    [C]. *)
Record slab_rep (k : kstate) (A : gmap Z Z) (G : gmap Z sinfo) (C : list Z) : Prop := {
  sr_core : score k A G;
  sr_clist : clist_ok k C;
  sr_settled : settled k G;
  sr_unlocked : unlocked k;
  sr_alive : ∀ a c, caches k !! a = Some c → is_used c = true → destroying c = false }.

(** * Memory and ownership changes inside live blocks *)

Lemma core_mem b B L m :
  core b B L →
  (∀ i o, B !! i = Some (Free o) → m !! paddr b i = mem b !! paddr b i) →
  core (set_mem m b) B L.
Proof.
  intros [Hr Ht Hl Hm Ho Hf] Heq. split; [by destruct Hr|done..|].
  intros o Hor. destruct (Hf o Hor) as (h & l & Hh & Hc & Hnd & Hin).
  exists h, l. split; [done|]. split; [|done]. clear Hh Hnd.
  assert (∀ a, a ∈ l → m !! a = mem b !! a) as Hag.
  { intros a (i & -> & Hi)%Hin. by eapply Heq. }
  clear -Hc Hag. simpl. revert h Hc. induction l as [|a l IH]; intros h; simpl; [done|].
  intros (-> & Ha & q & Hq & Hl). split; [done|]. split; [done|]. exists q.
  rewrite Hag by set_solver. split; [done|]. apply IH; [|done]. set_solver.
Qed.

(** Writing at the start of live blocks keeps the buddy allocator well
    formed. *)
Lemma buddy_rep_mem b A m :
  buddy_rep b A →
  (∀ a, m !! a ≠ mem b !! a → ∃ i o, a = paddr b i ∧ A !! i = Some o) →
  buddy_rep (set_mem m b) A.
Proof.
  intros (B & HC & ->) Hm. exists B. split; [|done]. apply core_mem; [done|].
  intros i o Hi. destruct (decide (m !! paddr b i = mem b !! paddr b i)) as [|Hne]; [done|].
  destruct (Hm _ Hne) as (j & o' & E & Hj%lookup_allocs). apply paddr_inj in E as <-. congruence.
Qed.

Lemma core_owner b B L bm :
  core b B L →
  (∀ p, (set_owner_slab NULL) <$> bm !! p = (set_owner_slab NULL) <$> block_meta b !! p) →
  (∀ i x p, B !! i = Some x → (x = Free (order_of x) ∨ i ∈ L) →
     i ≤ p < i + 2 ^ order_of x → bm !! p = block_meta b !! p) →
  core (set_block_meta bm b) B L.
Proof.
  intros [Hr Ht Hl Hm Ho Hf] Hsame Heq. split; [by destruct Hr|done|done| | |].
  - intros i Hi. destruct (Hm i Hi) as (mt & Emt & Hok). simpl.
    specialize (Hsame i). rewrite Emt in Hsame. destruct (bm !! i) as [m'|]; [|done].
    exists m'. split; [done|]. destruct mt, m'; injection Hsame as -> -> -> ->.
    by destruct (B !! i) as [[]|].
  - intros i x p mt Hi Hx Hp Hmt. simpl in Hmt. rewrite (Heq i x) in Hmt by done.
    by eapply Ho.
  - done.
Qed.

(** Changing the owners of pages of live blocks keeps it well formed, too. *)
Lemma buddy_rep_owner b A bm :
  buddy_rep b A →
  (∀ p, (set_owner_slab NULL) <$> bm !! p = (set_owner_slab NULL) <$> block_meta b !! p) →
  (∀ p, bm !! p ≠ block_meta b !! p → ∃ i o, A !! i = Some o ∧ i ≤ p < i + 2 ^ o) →
  buddy_rep (set_block_meta bm b) A.
Proof.
  intros (B & HC & ->) Hs Hne. exists B. split; [|done]. apply core_owner; [done..|].
  intros i x p Hi [Hx|Hx] Hp; [|set_solver].
  destruct (decide (bm !! p = block_meta b !! p)) as [|Hd]; [done|].
  destruct (Hne _ Hd) as (j & o & Hj%lookup_allocs & Hpj).
  pose proof (c_tiling _ _ _ HC) as Ht.
  destruct (Z.lt_total i j) as [H|[H|H]].
  - pose proof (t_disj _ _ Ht _ _ _ _ Hi Hj H). simpl in *. lia.
  - subst. rewrite Hi in Hj. injection Hj as ->. done.
  - pose proof (t_disj _ _ Ht _ _ _ _ Hj Hi H). simpl in *. lia.
Qed.
