(* ===== verification/SlabLists.v ===== *)
(** The three slab lists of a cache: what [slab_list_push_front],
    [slab_list_pop_front], [remove_from_slab_list] and [slab_list_remove_node]
    do to the ghost state. *)

From S2P Require Import Prelude.
From S2P Require Import Buddy.
From S2P Require Import BuddyInv.
From S2P Require Import BuddySpec.
From S2P Require Import BuddyProps.
From S2P Require Import Slab.
From S2P Require Import SlabInv.

(** * Accesses *)

Definition upd_hdr (s : Z) (h : slab_t) (k : kstate) : kstate :=
  set_bud (set_mem (<[s := SlabHdr h]> (mem (bud k))) (bud k)) k.

Definition upd_cache (a : Z) (c : kmem_cache_t) (k : kstate) : kstate :=
  set_caches (<[a := c]> (caches k)) k.

Lemma wp_read_cache k a c (Q : kmem_cache_t → kstate → Prop) :
  caches k !! a = Some c → Q c k → wp (read_cache a) Q k.
Proof. intros Hc HQ. unfold read_cache. wp_auto. by apply (wp_of_option _ c). Qed.

Lemma wp_update_cache k a f c (Q : unit → kstate → Prop) :
  caches k !! a = Some c → Q tt (upd_cache a (f c) k) → wp (update_cache a f) Q k.
Proof.
  intros Hc HQ. unfold update_cache. wp_auto. apply (wp_of_option _ c); [done|]. by wp_auto.
Qed.

Lemma wp_read_slab k s h (Q : slab_t → kstate → Prop) :
  mem (bud k) !! s = Some (SlabHdr h) → Q h k → wp (read_slab s) Q k.
Proof. intros Hs HQ. unfold read_slab. wp_auto. rewrite Hs. by wp_auto. Qed.

Lemma wp_update_slab k s f h (Q : unit → kstate → Prop) :
  mem (bud k) !! s = Some (SlabHdr h) → in_region (bud k) s = true →
  Q tt (upd_hdr s (f h) k) → wp (update_slab s f) Q k.
Proof.
  intros Hs Hr HQ. unfold update_slab, on_bud. wp_auto. apply (wp_read_slab _ _ h); [done|].
  wp_auto. by apply wp_store_cell.
Qed.

Lemma wp_acquire_cache k a c (Q : unit → kstate → Prop) :
  caches k !! a = Some c → c_lock c = false → Q tt (upd_cache a (with_lock true c) k) →
  wp (acquire_cache a) Q k.
Proof.
  intros Hc Hl HQ. unfold acquire_cache. wp_auto. apply (wp_read_cache _ _ c); [done|].
  rewrite Hl. by apply (wp_update_cache _ _ _ c).
Qed.

Lemma wp_release_cache k a c (Q : unit → kstate → Prop) :
  caches k !! a = Some c → c_lock c = true → Q tt (upd_cache a (with_lock false c) k) →
  wp (release_cache a) Q k.
Proof.
  intros Hc Hl HQ. unfold release_cache. wp_auto. apply (wp_read_cache _ _ c); [done|].
  rewrite Hl. by apply (wp_update_cache _ _ _ c).
Qed.

(** * Headers up to their links *)

Definition strip_cell (c : cell) : cell :=
  match c with
  | Link q => Link q
  | SlabHdr h => SlabHdr (set_s_next NULL (set_s_prev NULL h))
  end.

Definition same_hdrs (m m' : gmap Z cell) : Prop :=
  ∀ a, strip_cell <$> m' !! a = strip_cell <$> m !! a.

#[export] Instance same_hdrs_equiv : Equivalence same_hdrs.
Proof. split; [done|by intros m m' H a|intros m1 m2 m3 H1 H2 a; by rewrite H2, H1]. Qed.

Lemma same_hdrs_insert m s h h' :
  m !! s = Some (SlabHdr h) → strip_cell (SlabHdr h') = strip_cell (SlabHdr h) →
  same_hdrs m (<[s:=SlabHdr h']> m).
Proof.
  intros Hs E a. destruct (decide (a = s)) as [->|].
  - rewrite lookup_insert_eq, Hs. simpl in *. by rewrite E.
  - by rewrite lookup_insert_ne.
Qed.

Lemma same_hdrs_lookup m m' s h :
  same_hdrs m m' → m !! s = Some (SlabHdr h) →
  ∃ n p, m' !! s = Some (SlabHdr (set_s_next n (set_s_prev p h))).
Proof.
  intros H Hs. specialize (H s). rewrite Hs in H.
  destruct (m' !! s) as [[|h']|]; [done| |done]. injection H as H1 H2 H3 H4 H5.
  exists (s_next h'), (s_prev h'). destruct h', h. simpl in *. by subst.
Qed.

Lemma same_hdrs_link m m' s q :
  same_hdrs m m' → m !! s = Some (Link q) → m' !! s = Some (Link q).
Proof. intros H Hs. specialize (H s). rewrite Hs in H. by destruct (m' !! s) as [[]|]; simplify_eq/=. Qed.

Lemma same_hdrs_differ m m' a :
  same_hdrs m m' → m' !! a ≠ m !! a → ∃ h, m !! a = Some (SlabHdr h).
Proof.
  intros H Hne. destruct (m !! a) as [[q|h]|] eqn:E; [|by eauto|].
  - by erewrite same_hdrs_link in Hne.
  - specialize (H a). rewrite E in H. by destruct (m' !! a).
Qed.

Lemma hdr_links_insert m s h x :
  hdr_links (<[s:=SlabHdr h]> m) x =
  if decide (x = s) then Some (s_next h, s_prev h) else hdr_links m x.
Proof.
  unfold hdr_links. destruct (decide (x = s)) as [->|].
  - by rewrite lookup_insert_eq.
  - by rewrite lookup_insert_ne.
Qed.

Lemma hdr_links_Some m s yz :
  hdr_links m s = Some yz → ∃ h, m !! s = Some (SlabHdr h) ∧ yz = (s_next h, s_prev h).
Proof.
  unfold hdr_links. intros E. destruct (m !! s) as [[|h]|]; [done| |done].
  injection E as <-. eauto.
Qed.

(** * Relinking

    [relinked X a k k'] changes links of slab headers in [X] and the list
    heads of the cache at [a], nothing else. *)
Definition relinked (X : gset Z) (a : Z) (k k' : kstate) : Prop :=
  ∃ m c f p e, caches k !! a = Some c ∧ same_hdrs (mem (bud k)) m ∧
    (∀ x, x ∉ X → m !! x = mem (bud k) !! x) ∧
    k' = upd_cache a (with_lists f p e c) (set_bud (set_mem m (bud k)) k).

Lemma relinked_trans X a k1 k2 k3 : relinked X a k1 k2 → relinked X a k2 k3 → relinked X a k1 k3.
Proof.
  intros (m & c & f & p & e & Hc & Hm & HX & ->) (m' & c' & f' & p' & e' & Hc' & Hm' & HX' & ->).
  simpl in Hc'. rewrite lookup_insert_eq in Hc'. injection Hc' as <-.
  exists m', c, f', p', e'. split; [done|]. split; [by transitivity m|]. split.
  - intros x Hx. rewrite HX' by done. simpl. auto.
  - unfold upd_cache, set_caches, set_bud. simpl. by rewrite insert_insert_eq.
Qed.

Lemma relinked_cache X a k k' a' c :
  relinked X a k k' → caches k !! a' = Some c →
  ∃ f p e, caches k' !! a' = Some (with_lists f p e c).
Proof.
  intros (m & c' & f & p & e & Hc' & Hm & HX & ->) Hc. simpl. destruct (decide (a' = a)) as [->|].
  - rewrite lookup_insert_eq. rewrite Hc in Hc'. injection Hc' as <-. eauto.
  - rewrite lookup_insert_ne by done. exists (full c), (partial c), (empty c). rewrite Hc.
    by destruct c.
Qed.

Lemma relinked_cache_inv X a k k' a' c' :
  relinked X a k k' → caches k' !! a' = Some c' →
  ∃ c f p e, caches k !! a' = Some c ∧ c' = with_lists f p e c.
Proof.
  intros (m & c & f & p & e & Hc & Hm & HX & ->) Hc'. simpl in Hc'. destruct (decide (a' = a)) as [->|].
  - rewrite lookup_insert_eq in Hc'. injection Hc' as <-. eauto 10.
  - rewrite lookup_insert_ne in Hc' by done. exists c', (full c'), (partial c'), (empty c').
    split; [done|]. by destruct c'.
Qed.

Lemma relinked_region X a k k' s :
  relinked X a k k' → in_region (bud k') s = in_region (bud k) s.
Proof. by intros (m & c & f & p & e & Hc & Hm & HX & ->). Qed.

(** * Facts from the invariant *)

Section Facts.

Context (k : kstate) (A : gmap Z Z) (G : gmap Z sinfo).

Hypothesis Hk : score k A G.

Lemma slab_hdr s i : G !! s = Some i → ∃ h, mem (bud k) !! s = Some (SlabHdr h).
Proof. intros Hs. destruct (kc_slab _ _ _ Hk _ _ Hs) as (? & ? & h & ? & ? & ? & ? & ? & ? & ?). eauto. Qed.

Lemma slab_in_region s i : G !! s = Some i → in_region (bud k) s = true.
Proof.
  intros Hs. destruct (kc_slab _ _ _ Hk _ _ Hs) as (idx & ? & ? & -> & HA & _).
  destruct (buddy_rep_block _ _ _ _ (kc_buddy _ _ _ Hk) HA) as (? & ? & ?).
  pose proof (pow2_pos (si_order i)). apply in_region_paddr. lia.
Qed.

Lemma slab_nonnull s i : G !! s = Some i → s ≠ NULL.
Proof.
  intros Hs. destruct (kc_slab _ _ _ Hk _ _ Hs) as (idx & ? & ? & -> & HA & _).
  destruct (buddy_rep_block _ _ _ _ (kc_buddy _ _ _ Hk) HA) as (? & ? & ?).
  apply paddr_pos; [|lia]. eapply buddy_rep_region, Hk.
Qed.

End Facts.

(** * Relinking keeps the invariant *)

Lemma list_at_frame k k' G G' a w p :
  list_at k G a w p →
  (∀ s, (∃ i, G' !! s = Some i ∧ si_cache i = a ∧ si_where i = Some w) ↔
        (∃ i, G !! s = Some i ∧ si_cache i = a ∧ si_where i = Some w)) →
  (∀ s i, G !! s = Some i → si_cache i = a → si_where i = Some w →
     hdr_links (mem (bud k')) s = hdr_links (mem (bud k)) s) →
  list_at k' G' a w p.
Proof.
  intros (l & Hl & Hnd & Hin) HG Hlk. exists l. split; [|split; [done|]].
  - eapply dl_ext; [|done]. intros s (i & ? & ? & ?)%Hin. by eapply Hlk.
  - intros s. by rewrite HG.
Qed.

Lemma score_relink k k' A G G' a :
  score k A G → relinked (dom G) a k k' →
  (∀ s, set_where None <$> G' !! s = set_where None <$> G !! s) →
  (∀ a c w, caches k' !! a = Some c → is_used c = true → list_at k' G' a w (head_of w c)) →
  score k' A G'.
Proof.
  intros Hk Hrel HG Hlists. pose proof Hk as [Hb Ha Hp Hg Hs Hl Ho].
  destruct Hrel as (m & c & f & p & e & Hc & Hm & HX & ->).
  assert (relinked (dom G) a k (upd_cache a (with_lists f p e c) (set_bud (set_mem m (bud k)) k))) as Hrel.
  { by exists m, c, f, p, e. }
  split; [|done| | | |done|].
  - apply buddy_rep_mem; [done|]. intros x Hx.
    destruct (decide (x ∈ dom G)) as [[i Hi]%elem_of_dom|Hn]; [|by destruct Hx; apply HX].
    destruct (Hs _ _ Hi) as (idx & ? & ? & ? & ? & _). eauto.
  - destruct Hp as [Hp Hd]. split; [done|]. intros x. rewrite <-Hd. simpl.
    rewrite lookup_insert_is_Some'. intuition (subst; eauto).
  - intros x c' Hx Hu. destruct (relinked_cache_inv _ _ _ _ _ _ Hrel Hx) as (c0 & ? & ? & ? & Hc0 & ->).
    by destruct (Hg _ _ Hc0 Hu).
  - intros s i' Hi'. specialize (HG s). rewrite Hi' in HG.
    destruct (G !! s) as [i|] eqn:Ei; [|done]. injection HG as E1 E2 E3.
    destruct (Hs _ _ Ei) as (idx & c0 & h & -> & HA & Hc0 & Hu & Hord & Hh & [H1 H2 H3 H4 H5 H6]).
    destruct (relinked_cache _ _ _ _ _ _ Hrel Hc0) as (f' & p' & e' & Hc1).
    destruct (same_hdrs_lookup _ _ _ _ Hm Hh) as (n & pv & Hh').
    exists idx, (with_lists f' p' e' c0), (set_s_next n (set_s_prev pv h)).
    rewrite E1, E2. split_and!; try done. by split; rewrite ?E1, ?E3.
  - intros q mt Hq Hmt s. rewrite (Ho q mt Hq Hmt s). specialize (HG s).
    destruct (G !! s) as [i|], (G' !! s) as [i'|]; simpl in HG; try done.
    injection HG as E1 E2 E3. unfold covers. split; intros (? & [= <-] & ?); eexists; (split; [done|]).
    + by rewrite E2.
    + by rewrite <-E2.
Qed.

(** * Attaching a slab to a list *)

Lemma head_of_with w w' p c :
  head_of w' (with_head w p c) = if decide (w' = w) then p else head_of w' c.
Proof. by destruct w, w'. Qed.

Lemma with_head_lists w p c : ∃ f q e, with_head w p c = with_lists f q e c.
Proof. destruct w; simpl; eauto. Qed.

Lemma with_head_used w p c : is_used (with_head w p c) = is_used c.
Proof. by destruct w. Qed.

(** Moving slab [s] off or onto list [w] of cache [a] leaves the membership of
    the other lists alone. *)
Lemma where_frame (G : gmap Z sinfo) s i wo wo' a w x :
  G !! s = Some i → si_where i = wo → (si_cache i, wo) ≠ (a, Some w) →
  (si_cache i, wo') ≠ (a, Some w) →
  ((∃ i', <[s:=set_where wo' i]> G !! x = Some i' ∧ si_cache i' = a ∧ si_where i' = Some w) ↔
   (∃ i', G !! x = Some i' ∧ si_cache i' = a ∧ si_where i' = Some w)).
Proof.
  intros Hs Hw H1 H2. destruct (decide (x = s)) as [->|].
  - rewrite lookup_insert_eq. split.
    + intros (i' & [= <-] & ? & ?). simpl in *. congruence.
    + intros (i' & Hi' & ? & ?). rewrite Hs in Hi'. injection Hi' as <-. congruence.
  - by rewrite lookup_insert_ne.
Qed.

Lemma set_where_same (G : gmap Z sinfo) s i w x :
  G !! s = Some i → set_where None <$> <[s:=set_where w i]> G !! x = set_where None <$> G !! x.
Proof.
  intros Hs. destruct (decide (x = s)) as [->|].
  - by rewrite lookup_insert_eq, Hs.
  - by rewrite lookup_insert_ne.
Qed.

Section Attach.

Context (k : kstate) (A : gmap Z Z) (G : gmap Z sinfo) (a s : Z) (c : kmem_cache_t) (i : sinfo).

Hypothesis Hk : score k A G.

Hypothesis Hc : caches k !! a = Some c.

Hypothesis Hs : G !! s = Some i.

Hypothesis Hsa : si_cache i = a.

(** The effect on memory and heads of a push onto list [w]. *)
Lemma score_push w m :
  si_where i = None → same_hdrs (mem (bud k)) m →
  (∀ x, x ∉ dom G → m !! x = mem (bud k) !! x) →
  hdr_links m s = Some (head_of w c, NULL) →
  (∀ x y z, x ≠ s → x ≠ NULL → hdr_links (mem (bud k)) x = Some (y, z) →
     hdr_links m x = Some (y, if decide (x = head_of w c) then s else z)) →
  score (upd_cache a (with_head w s c) (set_bud (set_mem m (bud k)) k)) A
    (<[s:=set_where (Some w) i]> G).
Proof.
  intros Hwi Hm HX Hls Hlk. set (k' := upd_cache _ _ _).
  assert (relinked (dom G) a k k') as Hrel.
  { destruct (with_head_lists w s c) as (f & p & e & E).
    exists m, c, f, p, e. unfold k'. by rewrite E. }
  pose proof (slab_nonnull _ _ _ Hk _ _ Hs) as Hs0.
  destruct (is_used c) eqn:Hu.
  2:{ destruct (kc_slab _ _ _ Hk _ _ Hs) as (? & c' & ? & ? & ? & Hc' & Hu' & _). congruence. }
  destruct (kc_list _ _ _ Hk a c w Hc Hu) as (l & Hl & Hnd & Hin).
  assert (s ∉ l) as Hsl.
  { intros (i' & Hi' & _ & Hw')%Hin. rewrite Hs in Hi'. injection Hi' as <-. congruence. }
  apply (score_relink k k' A G _ a); [done|done|by intros; apply set_where_same|].
  intros a' c' w' Hc' Hu'. destruct (decide (a' = a ∧ w' = w)) as [[-> ->]|Hne].
  - assert (c' = with_head w s c) as ->.
    { simpl in Hc'. rewrite lookup_insert_eq in Hc'. congruence. }
    rewrite head_of_with, decide_True by done. exists (s :: l). split_and!.
    + eapply dl_push; [exact Hl|done|done|done|exact Hls|].
      intros x [y z] Hx Hyz. apply Hlk; [set_solver|by eapply dl_elem|done].
    + by apply NoDup_cons.
    + intros x. rewrite elem_of_cons, Hin. destruct (decide (x = s)) as [->|Hxs].
      * rewrite lookup_insert_eq. split; [|by left]. intros _. by eexists.
      * rewrite lookup_insert_ne by done. naive_solver.
  - assert (∃ c0, caches k !! a' = Some c0 ∧ is_used c0 = true ∧ head_of w' c' = head_of w' c0)
      as (c0 & Hc0 & Hu0 & ->).
    { simpl in Hc'. destruct (decide (a' = a)) as [->|].
      - rewrite lookup_insert_eq in Hc'. injection Hc' as <-. exists c. split; [done|].
        split; [done|]. rewrite head_of_with, decide_False by naive_solver. done.
      - rewrite lookup_insert_ne in Hc' by done. eauto. }
    eapply list_at_frame; [by apply (kc_list _ _ _ Hk)| |].
    + intros x. eapply where_frame; [done|done|congruence|]. intros [= ? ?]. apply Hne. by subst.
    + intros x ix Hx Hxa Hxw. simpl. destruct (slab_hdr _ _ _ Hk _ _ Hx) as [hx Hhx].
      assert (hdr_links (mem (bud k)) x = Some (s_next hx, s_prev hx)) as Ex
        by (unfold hdr_links; by rewrite Hhx).
      rewrite (Hlk x (s_next hx) (s_prev hx)); [|congruence|by eapply slab_nonnull|done].
      rewrite Ex, decide_False; [done|]. intros ->.
      destruct (dl_head _ _ _ _ Hl) as [Hh _]; [by eapply slab_nonnull|].
      apply Hin in Hh as (i2 & Hi2 & ? & ?). rewrite Hx in Hi2. injection Hi2 as <-.
      apply Hne. split; congruence.
Qed.

Lemma wp_slab_list_push_front w :
  si_where i = None →
  wp (slab_list_push_front a w s) (λ _ k', relinked (dom G) a k k' ∧
     ∃ m, k' = upd_cache a (with_head w s c) (set_bud (set_mem m (bud k)) k) ∧
     score k' A (<[s:=set_where (Some w) i]> G)) k.
Proof.
  intros Hwi. destruct (slab_hdr _ _ _ Hk _ _ Hs) as [h Hh].
  pose proof (slab_in_region _ _ _ Hk _ _ Hs) as Hr.
  assert (∀ m, same_hdrs (mem (bud k)) m → (∀ x, x ∉ dom G → m !! x = mem (bud k) !! x) →
    relinked (dom G) a k (upd_cache a (with_head w s c) (set_bud (set_mem m (bud k)) k))) as Hrel.
  { intros m Hm HX. destruct (with_head_lists w s c) as (f & p & e & E).
    exists m, c, f, p, e. by rewrite E. }
  unfold slab_list_push_front. wp_auto.
  apply (wp_update_slab _ _ _ h); [done..|]. wp_auto.
  apply (wp_read_cache _ _ c); [done|]. wp_auto. cbv zeta.
  apply (wp_update_slab _ _ _ (set_s_prev NULL h)); [by simpl; rewrite lookup_insert_eq|done|].
  set (h2 := set_s_next _ _). unfold upd_hdr. simpl. rewrite insert_insert_eq.
  set (m2 := <[s:=SlabHdr h2]> (mem (bud k))).
  assert (s ∈ dom G) as Hsd by (apply elem_of_dom; eauto).
  assert (same_hdrs (mem (bud k)) m2) as Hm2 by (by apply (same_hdrs_insert _ _ h)).
  assert (∀ x, x ∉ dom G → m2 !! x = mem (bud k) !! x) as HX2.
  { intros x Hx. unfold m2. rewrite lookup_insert_ne; [done|]. set_solver. }
  wp_auto. destruct (Z.eqb_spec (head_of w c) NULL) as [E0|E0]; simpl.
  - wp_auto. apply (wp_update_cache _ _ _ c); [done|].
    split; [apply Hrel; done|]. exists m2. split; [done|].
    apply score_push; [done|done|done|unfold m2; by rewrite hdr_links_insert, decide_True|].
    intros x y z Hxs Hx0 Hyz. unfold m2. rewrite hdr_links_insert, decide_False by done.
    rewrite decide_False by congruence. done.
  - destruct (is_used c) eqn:Hu.
    2:{ destruct (kc_slab _ _ _ Hk _ _ Hs) as (? & c' & ? & ? & ? & Hc' & Hu' & _). congruence. }
    destruct (kc_list _ _ _ Hk a c w Hc Hu) as (l & Hl & Hnd & Hin).
    destruct (dl_head _ _ _ _ Hl E0) as [Hhl [n Hn]].
    apply Hin in Hhl as (ih & Hih & ? & Hihw).
    assert (head_of w c ≠ s) as Hne by congruence.
    destruct (slab_hdr _ _ _ Hk _ _ Hih) as [hh Hhh].
    apply (wp_update_slab _ _ _ hh); [by simpl; unfold m2; rewrite lookup_insert_ne by done|
      by apply (slab_in_region _ _ _ Hk _ _ Hih)|].
    unfold upd_hdr. simpl. set (m3 := <[head_of w c:=_]> m2).
    assert (same_hdrs (mem (bud k)) m3) as Hm3.
    { transitivity m2; [done|]. apply (same_hdrs_insert _ _ hh); [|done].
      unfold m2. by rewrite lookup_insert_ne by done. }
    assert (∀ x, x ∉ dom G → m3 !! x = mem (bud k) !! x) as HX3.
    { intros x Hx. unfold m3. rewrite lookup_insert_ne; [by apply HX2|].
      intros <-. apply Hx, elem_of_dom. eauto. }
    wp_auto. apply (wp_update_cache _ _ _ c); [done|].
    split; [apply Hrel; done|]. exists m3. split; [done|].
    apply score_push; [done|done|done| |].
    + unfold m3, m2. by rewrite hdr_links_insert, decide_False, hdr_links_insert, decide_True.
    + intros x y z Hxs Hx0 Hyz. unfold m3, m2. rewrite hdr_links_insert, hdr_links_insert.
      destruct (decide (x = head_of w c)) as [->|].
      * unfold hdr_links in Hyz. rewrite Hhh in Hyz. injection Hyz as <- <-. done.
      * by rewrite decide_False.
Qed.

End Attach.

(** * Detaching a slab from its list *)

Section Detach.

Context (k : kstate) (A : gmap Z Z) (G : gmap Z sinfo) (a s : Z) (c : kmem_cache_t) (i : sinfo).

Context (w : slab_list) (n pv : Z).

Hypothesis Hk : score k A G.

Hypothesis Hc : caches k !! a = Some c.

Hypothesis Hs : G !! s = Some i.

Hypothesis Hsa : si_cache i = a.

Hypothesis Hsw : si_where i = Some w.

Hypothesis Hlinks : hdr_links (mem (bud k)) s = Some (n, pv).

Lemma detach_used : is_used c = true.
Proof.
  destruct (kc_slab _ _ _ Hk _ _ Hs) as (? & c' & ? & ? & ? & Hc' & Hu' & _). congruence.
Qed.

(** The neighbours of [s] are [NULL] or on the same list. *)
Lemma neighbours x :
  (x = n ∨ x = pv) → x ≠ NULL →
  ∃ ix, G !! x = Some ix ∧ si_cache ix = a ∧ si_where ix = Some w.
Proof.
  destruct (kc_list _ _ _ Hk a c w Hc detach_used) as (l & Hl & Hnd & Hin).
  assert (s ∈ l) as Hsl by (apply Hin; eauto).
  intros [->| ->] Hx; apply Hin.
  - by destruct (dl_next _ _ _ _ _ _ _ Hl Hsl Hlinks Hx).
  - by destruct (dl_prev _ _ _ _ _ _ _ Hl Hsl Hlinks) as [[? _]|[? _]].
Qed.

Lemma head_iff_no_prev : head_of w c = s ↔ pv = NULL.
Proof.
  destruct (kc_list _ _ _ Hk a c w Hc detach_used) as (l & Hl & Hnd & Hin).
  assert (s ∈ l) as Hsl by (apply Hin; eauto). pose proof (slab_nonnull _ _ _ Hk _ _ Hs) as Hs0.
  split.
  - intros E. destruct (dl_head _ _ _ _ Hl) as [_ [n' Hn']]; [congruence|]. congruence.
  - intros ->. destruct (dl_prev _ _ _ _ _ _ _ Hl Hsl Hlinks) as [[_ ?]|[Hnl _]]; [done|].
    by apply (dl_elem _ _ _ _ _ Hl) in Hnl as [? _].
Qed.

Lemma score_remove m :
  same_hdrs (mem (bud k)) m → (∀ x, x ∉ dom G → m !! x = mem (bud k) !! x) →
  (∀ x y z, x ≠ s → x ≠ NULL → hdr_links (mem (bud k)) x = Some (y, z) →
     hdr_links m x = Some (if decide (x = pv) then n else y, if decide (x = n) then pv else z)) →
  score (upd_cache a (with_head w (if decide (head_of w c = s) then n else head_of w c) c)
           (set_bud (set_mem m (bud k)) k)) A (<[s:=set_where None i]> G).
Proof.
  intros Hm HX Hlk. set (hd := if decide _ then _ else _). set (k' := upd_cache _ _ _).
  assert (relinked (dom G) a k k') as Hrel.
  { destruct (with_head_lists w hd c) as (f & p & e & E).
    exists m, c, f, p, e. unfold k'. by rewrite E. }
  pose proof (slab_nonnull _ _ _ Hk _ _ Hs) as Hs0. pose proof detach_used as Hu.
  destruct (kc_list _ _ _ Hk a c w Hc Hu) as (l & Hl & Hnd & Hin).
  assert (s ∈ l) as Hsl by (apply Hin; eauto).
  apply (score_relink k k' A G _ a); [done|done|by intros; apply set_where_same|].
  intros a' c' w' Hc' Hu'. destruct (decide (a' = a ∧ w' = w)) as [[-> ->]|Hne].
  - assert (c' = with_head w hd c) as ->.
    { simpl in Hc'. rewrite lookup_insert_eq in Hc'. congruence. }
    rewrite head_of_with, decide_True by done.
    apply list_elem_of_split in Hsl as (l1 & l2 & ->). exists (l1 ++ l2). split_and!.
    + eapply (dl_remove (hdr_links (mem (bud k)))); [exact Hl|exact Hlinks|done|done|].
      intros x [y z] Hx Hyz.
      assert (x ≠ s). { apply NoDup_app in Hnd as (? & Hd & ?%NoDup_cons). set_solver. }
      assert (x ≠ NULL) by (apply (dl_elem _ _ _ _ x Hl); set_solver).
      simpl; rewrite (Hlk x y z) by done. f_equal.
      by apply (dl_skip_patch _ _ _ _ _ _ _ _ _ Hl); [set_solver|..|set_solver|].
    + apply NoDup_app in Hnd as (? & Hd & [??]%NoDup_cons). apply NoDup_app. set_solver.
    + intros x. assert (x ∈ l1 ++ l2 ↔ x ≠ s ∧ x ∈ l1 ++ s :: l2) as ->.
      { apply NoDup_app in Hnd as (? & Hd & [??]%NoDup_cons). set_solver. }
      rewrite Hin. destruct (decide (x = s)) as [->|Hxs].
      * rewrite lookup_insert_eq. split; [naive_solver|]. by intros (? & [= <-] & ? & ?).
      * rewrite lookup_insert_ne by done. naive_solver.
  - assert (∃ c0, caches k !! a' = Some c0 ∧ is_used c0 = true ∧ head_of w' c' = head_of w' c0)
      as (c0 & Hc0 & Hu0 & ->).
    { simpl in Hc'. destruct (decide (a' = a)) as [->|].
      - rewrite lookup_insert_eq in Hc'. injection Hc' as <-. exists c. split; [done|].
        split; [done|]. rewrite head_of_with, decide_False by naive_solver. done.
      - rewrite lookup_insert_ne in Hc' by done. eauto. }
    eapply list_at_frame; [by apply (kc_list _ _ _ Hk)| |].
    + intros x. eapply where_frame; [done|done| |congruence].
      intros [= ? ?]. apply Hne. split; congruence.
    + intros x ix Hx Hxa Hxw. simpl. destruct (slab_hdr _ _ _ Hk _ _ Hx) as [hx Hhx].
      assert (hdr_links (mem (bud k)) x = Some (s_next hx, s_prev hx)) as Ex
        by (unfold hdr_links; by rewrite Hhx).
      pose proof (slab_nonnull _ _ _ Hk _ _ Hx) as Hx0.
      assert (∀ y, (y = n ∨ y = pv) → x ≠ y) as Hfar.
      { intros y Hy <-. destruct (neighbours x Hy Hx0) as (i2 & Hi2 & ? & ?).
        rewrite Hx in Hi2. injection Hi2 as <-. apply Hne. split; congruence. }
      rewrite (Hlk x (s_next hx) (s_prev hx)); [|intros ->; apply Hne; split; congruence|done|done].
      rewrite Ex, !decide_False by (apply Hfar; auto). done.
Qed.

(** The state with slab memory [m] and descriptors [cs]. *)
Definition St (m : gmap Z cell) (cs : gmap Z kmem_cache_t) : kstate :=
  set_caches cs (set_bud (set_mem m (bud k)) k).

Lemma St_eta : k = St (mem (bud k)) (caches k).
Proof. clear. unfold St. by destruct k as [[]]. Qed.

Lemma wp_St {B} (p : prog kstate B) Q : wp p Q (St (mem (bud k)) (caches k)) → wp p Q k.
Proof. by rewrite <-St_eta. Qed.

Lemma wp_link m cs x f h (Q : unit → kstate → Prop) :
  m !! x = Some (SlabHdr h) → in_region (bud k) x = true →
  Q tt (St (<[x:=SlabHdr (f h)]> m) cs) → wp (update_slab x f) Q (St m cs).
Proof. intros Hx Hr HQ. by apply (wp_update_slab _ _ _ h). Qed.

(** Memory [m] in which the links of [s]'s predecessor, but not yet those of
    its successor, skip [s]. *)
Definition patched_prev (m : gmap Z cell) : Prop :=
  same_hdrs (mem (bud k)) m ∧ (∀ x, x ∉ dom G → m !! x = mem (bud k) !! x) ∧
  hdr_links m s = Some (n, pv) ∧
  ∀ x y z, x ≠ s → x ≠ NULL → hdr_links (mem (bud k)) x = Some (y, z) →
    hdr_links m x = Some (if decide (x = pv) then n else y, z).

Definition patched (m : gmap Z cell) : Prop :=
  same_hdrs (mem (bud k)) m ∧ (∀ x, x ∉ dom G → m !! x = mem (bud k) !! x) ∧
  ∀ x y z, x ≠ s → x ≠ NULL → hdr_links (mem (bud k)) x = Some (y, z) →
    hdr_links m x = Some (if decide (x = pv) then n else y, if decide (x = n) then pv else z).

Lemma patched_insert m x h h' :
  same_hdrs (mem (bud k)) m ∧ (∀ x, x ∉ dom G → m !! x = mem (bud k) !! x) →
  is_Some (G !! x) → m !! x = Some (SlabHdr h) → strip_cell (SlabHdr h') = strip_cell (SlabHdr h) →
  same_hdrs (mem (bud k)) (<[x:=SlabHdr h']> m) ∧
  (∀ y, y ∉ dom G → <[x:=SlabHdr h']> m !! y = mem (bud k) !! y).
Proof.
  intros [Hm HX] Hx Hh E. split.
  - transitivity m; [done|]. by apply (same_hdrs_insert _ _ h).
  - intros y Hy. rewrite lookup_insert_ne; [by apply HX|]. intros <-. by apply Hy, elem_of_dom.
Qed.

Lemma patched_start : pv = NULL → patched_prev (mem (bud k)).
Proof.
  intros Hpv. split; [done|]. split; [done|]. split; [done|].
  intros x y z Hxs Hx0 Hyz. by rewrite decide_False by congruence.
Qed.

Lemma wp_unlink_rest {B} m cs (K : prog kstate B) Q :
  patched_prev m → (∀ m', patched m' → wp K Q (St m' cs)) →
  wp (_ ← (if negb (n =? NULL) then update_slab n (set_s_prev pv) else mret tt);
      _ ← update_slab s (set_s_next NULL);
      _ ← update_slab s (set_s_prev NULL); K) Q (St m cs).
Proof.
  intros (Hm & HX & Hms & Hlk) HQ.
  pose proof (slab_in_region _ _ _ Hk _ _ Hs) as Hr. pose proof (slab_nonnull _ _ _ Hk _ _ Hs) as Hs0.
  assert (∀ m', (same_hdrs (mem (bud k)) m' ∧ (∀ x, x ∉ dom G → m' !! x = mem (bud k) !! x)) →
    (∀ x y z, x ≠ s → x ≠ NULL → hdr_links (mem (bud k)) x = Some (y, z) →
       hdr_links m' x = Some (if decide (x = pv) then n else y, if decide (x = n) then pv else z)) →
    wp (_ ← update_slab s (set_s_next NULL); _ ← update_slab s (set_s_prev NULL); K) Q (St m' cs)) as Hfin.
  { intros m' Hm' Hlk'. destruct (slab_hdr _ _ _ Hk _ _ Hs) as [h Hh].
    destruct (same_hdrs_lookup _ _ _ _ (proj1 Hm') Hh) as (nx & px & Hh').
    wp_auto. apply (wp_link _ _ _ _ _ _ Hh' Hr). wp_auto.
    eapply wp_link; [apply lookup_insert_eq|done|]. rewrite insert_insert_eq. apply HQ.
    destruct (patched_insert m' s _ (set_s_prev NULL (set_s_next NULL (set_s_next nx (set_s_prev px h))))
      Hm' ltac:(eauto) Hh' ltac:(done)) as [H1 H2].
    split; [done|]. split; [done|]. intros x y z Hxs Hx0 Hyz.
    rewrite hdr_links_insert, decide_False by done. by apply Hlk'. }
  apply wp_bind. destruct (Z.eqb_spec n NULL) as [En|En]; cbn [negb].
  - apply wp_ret, Hfin; [done|]. intros x y z Hxs Hx0 Hyz.
    rewrite (Hlk x y z) by done. by rewrite (decide_False (P := x = n)) by congruence.
  - destruct (neighbours n (or_introl eq_refl) En) as (ix & Hix & Hixa & Hixw).
    destruct (slab_hdr _ _ _ Hk _ _ Hix) as [h Hh].
    destruct (same_hdrs_lookup _ _ _ _ Hm Hh) as (nx & px & Hh').
    apply (wp_link _ _ _ _ _ _ Hh' (slab_in_region _ _ _ Hk _ _ Hix)).
    apply Hfin; [eapply patched_insert; [split; done|eauto|exact Hh'|done]|].
    intros x y z Hxs Hx0 Hyz. rewrite hdr_links_insert.
    pose proof (Hlk x y z Hxs Hx0 Hyz) as E. destruct (decide (x = n)) as [->|]; [|done].
    unfold hdr_links in E. rewrite Hh' in E. simpl in *. by injection E as -> ->.
Qed.

Lemma unlinked_post m cs :
  patched m → cs = <[a:=with_head w (if decide (head_of w c = s) then n else head_of w c) c]> (caches k) →
  score (St m cs) A (<[s:=set_where None i]> G) ∧ relinked (dom G) a k (St m cs).
Proof.
  intros (Hm & HX & Hlk) ->. split; [by apply score_remove|].
  set (hd := if decide _ then _ else _).
  destruct (with_head_lists w hd c) as (f & p & e & E). exists m, c, f, p, e. by rewrite E.
Qed.

Lemma wp_slab_list_remove_node :
  wp (slab_list_remove_node a w s) (λ _ k',
    score k' A (<[s:=set_where None i]> G) ∧ relinked (dom G) a k k') k.
Proof.
  pose proof head_iff_no_prev as Hhead. pose proof (slab_nonnull _ _ _ Hk _ _ Hs) as Hs0.
  destruct (slab_hdr _ _ _ Hk _ _ Hs) as [h Hh].
  assert (n = s_next h ∧ pv = s_prev h) as [En Ep].
  { unfold hdr_links in Hlinks. rewrite Hh in Hlinks. by injection Hlinks as -> ->. }
  unfold slab_list_remove_node. apply wp_St. wp_auto.
  apply (wp_read_slab _ _ h); [done|]. wp_auto. rewrite <-En, <-Ep.
  destruct (Z.eqb_spec pv NULL) as [E0|E0]; cbn [negb].
  - apply (wp_update_cache _ _ _ c); [done|]. wp_auto. apply (wp_read_slab _ _ h); [done|]. wp_auto.
    rewrite <-En, <-Ep. apply wp_bind_inv.
    apply (wp_unlink_rest (mem (bud k))); [by apply patched_start|].
    intros m' Hm'. wp_auto. apply unlinked_post; [done|]. rewrite decide_True by (by apply Hhead). done.
  - destruct (neighbours pv (or_intror eq_refl) E0) as (ix & Hix & Hixa & Hixw).
    destruct (slab_hdr _ _ _ Hk _ _ Hix) as [hp Hhp].
    assert (pv ≠ s) as Hps.
    { intros ->. destruct (kc_list _ _ _ Hk a c w Hc detach_used) as (l & Hl & Hnd & Hin).
      assert (s ∈ l) as Hsl by (apply Hin; eauto).
      eapply (dl_irrefl _ _ _ _ _ _ _ Hl Hnd); [|exact Hsl|exact Hlinks|done].
      intros Hnl. by apply (dl_elem _ _ _ _ _ Hl) in Hnl as [? _]. }
    apply (wp_link _ _ _ _ _ _ Hhp (slab_in_region _ _ _ Hk _ _ Hix)). wp_auto.
    apply (wp_read_slab _ _ h); [by simpl; rewrite lookup_insert_ne|]. wp_auto.
    rewrite <-En, <-Ep. apply wp_bind_inv, wp_unlink_rest.
    + destruct (patched_insert (mem (bud k)) pv hp (set_s_next n hp)) as [H1 H2];
        [done|eauto|done|done|].
      split; [done|]. split; [done|]. split; [by rewrite hdr_links_insert, decide_False|].
      intros x y z Hxs Hx0 Hyz. rewrite hdr_links_insert. destruct (decide (x = pv)) as [->|]; [|done].
      unfold hdr_links in Hyz. rewrite Hhp in Hyz. simpl. by injection Hyz as <- <-.
    + intros m' Hm'. wp_auto. apply unlinked_post; [done|].
      rewrite decide_False by (by rewrite Hhead). rewrite insert_id; [done|].
      rewrite Hc. by destruct w, c.
Qed.

End Detach.

(** Taking the first slab off a list. *)
Lemma wp_slab_list_pop_front k A G a c w :
  score k A G → caches k !! a = Some c → is_used c = true →
  wp (slab_list_pop_front a w) (λ s k',
    (s = NULL ∧ head_of w c = NULL ∧ k' = k) ∨
    (∃ i, s ≠ NULL ∧ s = head_of w c ∧ G !! s = Some i ∧ si_cache i = a ∧ si_where i = Some w ∧
       score k' A (<[s:=set_where None i]> G) ∧ relinked (dom G) a k k')) k.
Proof.
  intros Hk Hc Hu. destruct (kc_list _ _ _ Hk a c w Hc Hu) as (l & Hl & Hnd & Hin).
  unfold slab_list_pop_front. wp_auto. apply (wp_read_cache _ _ c); [done|]. cbv zeta.
  destruct (Z.eqb_spec (head_of w c) NULL) as [E0|E0]; [wp_auto; by left|].
  set (s := head_of w c) in *. destruct (dl_head _ _ _ _ Hl E0) as [Hsl [n Hn]].
  apply Hin in Hsl as (i & Hi & Hia & Hiw).
  destruct (hdr_links_Some _ _ _ Hn) as (h & Hh & Eh). injection Eh as -> Hpv.
  apply (wp_St k). wp_auto. apply (wp_read_slab _ _ h); [done|]. wp_auto.
  apply (wp_update_cache _ _ _ c); [done|].
  apply (wp_unlink_rest k A G a s c i w (s_next h) NULL Hk Hc Hi Hia Hiw Hn (mem (bud k))).
  - apply patched_start; done.
  - intros m' Hm'. wp_auto. right. exists i. split; [done|]. split; [done|]. split; [done|].
    split; [done|]. split; [done|].
    apply (unlinked_post k A G a s c i w (s_next h) NULL Hk Hc Hi Hia Hiw Hn); [done|].
    by rewrite decide_True.
Qed.

Lemma wp_remove_from_slab_list k A G a c w :
  score k A G → caches k !! a = Some c → is_used c = true →
  wp (remove_from_slab_list a w) (λ s k',
    (s = NULL ∧ head_of w c = NULL ∧ k' = k) ∨
    (∃ i, s ≠ NULL ∧ s = head_of w c ∧ G !! s = Some i ∧ si_cache i = a ∧ si_where i = Some w ∧
       score k' A (<[s:=set_where None i]> G) ∧ relinked (dom G) a k k')) k.
Proof. exact (wp_slab_list_pop_front k A G a c w). Qed.
