(* ===== verification/SlabSpec.v ===== *)
(** The operations of the slab allocator against its invariant: objects,
    slabs and the allocation and free paths. *)

From S2P Require Import Prelude.
From S2P Require Import Buddy.
From S2P Require Import BuddyInv.
From S2P Require Import BuddySpec.
From S2P Require Import BuddyProps.
From S2P Require Import Slab.
From S2P Require Import SlabInv.
From S2P Require Import SlabLists.

(** * Geometry of a slab *)

Section Geometry.

Context (c : kmem_cache_t) (s : Z).

Hypothesis Hg : geom_ok c.

Hypothesis Hs : 0 < s.

Hypothesis Htop : s + BLOCK_SIZE * 2 ^ slab_order c ≤ 2 ^ 64.

Lemma objs_bound : objs_per_slab c ≤ 32768.
Proof using Hg.
  clear Htop Hs. destruct Hg as [Ho Hsz Hn Hoff Hfit]. unfold MAX_SLAB_ORDER, sizeof_ptr, sizeof_slab, BLOCK_SIZE in *.
  assert (2 ^ slab_order c ≤ 2 ^ 6) by (apply Z.pow_le_mono_r; lia). nia.
Qed.

Lemma slab_obj_ptr_eq j :
  0 ≤ j < objs_per_slab c → slab_obj_ptr c s j = s + obj_offset c + j * object_size c.
Proof.
  intros Hj. destruct Hg as [Ho Hsz Hn Hoff Hfit].
  unfold slab_obj_ptr, sizeof_ptr, sizeof_slab in *.
  assert (0 ≤ j * object_size c) by nia.
  assert (j * object_size c + object_size c ≤ objs_per_slab c * object_size c) by nia.
  rewrite (u64_small (j * object_size c)) by lia. apply u64_small. lia.
Qed.

Lemma slab_obj_ptr_inside j :
  0 ≤ j < objs_per_slab c →
  s < slab_obj_ptr c s j ∧
  slab_obj_ptr c s j + object_size c ≤ s + BLOCK_SIZE * 2 ^ slab_order c.
Proof.
  intros Hj. rewrite slab_obj_ptr_eq by done. destruct Hg as [Ho Hsz Hn Hoff Hfit].
  unfold sizeof_ptr, sizeof_slab in *. nia.
Qed.

Lemma slab_obj_index_ptr j :
  0 ≤ j < objs_per_slab c → slab_obj_index c s (slab_obj_ptr c s j) = Some j.
Proof.
  intros Hj. pose proof objs_bound. rewrite slab_obj_ptr_eq by done.
  destruct Hg as [Ho Hsz Hn Hoff Hfit]. unfold slab_obj_index, sizeof_ptr, sizeof_slab in *.
  rewrite (proj2 (Z.eqb_neq _ _)) by lia.
  replace (s + obj_offset c + j * object_size c - (s + obj_offset c)) with (j * object_size c) by lia.
  assert (0 ≤ j * object_size c) by nia.
  assert (j * object_size c + object_size c ≤ objs_per_slab c * object_size c) by nia.
  rewrite u64_small by lia. rewrite Z.div_mul by lia. by rewrite u16_small by lia.
Qed.

Lemma slab_obj_apart j j' :
  0 ≤ j < objs_per_slab c → 0 ≤ j' < objs_per_slab c → j < j' →
  slab_obj_ptr c s j + object_size c ≤ slab_obj_ptr c s j'.
Proof.
  intros Hj Hj' Hlt. rewrite !slab_obj_ptr_eq by done. destruct Hg as [Ho Hsz Hn Hoff Hfit].
  unfold sizeof_ptr in *. nia.
Qed.

Lemma write_next_guard j :
  0 ≤ j < objs_per_slab c →
  (0 <=? j) && (slab_next_array s + 2 * j + 2 <=? s + obj_offset c) = true.
Proof.
  intros Hj. destruct Hg as [Ho Hsz Hn Hoff Hfit]. unfold slab_next_array.
  change (ALIGN_UP sizeof_slab 2) with 32. unfold sizeof_slab, sizeof_ptr in *.
  assert (0 ≤ objs_per_slab c * object_size c) by nia.
  rewrite u64_small by lia. apply andb_true_intro. split; apply Z.leb_le; lia.
Qed.

End Geometry.

(** * Changing a header or a descriptor *)

(** The fields of a descriptor that the slab invariant reads. *)
Definition desc (c : kmem_cache_t) :=
  (is_used c, slab_order c, object_size c, objs_per_slab c, obj_offset c, (full c, partial c, empty c)).

Lemma desc_head w c c' : desc c' = desc c → head_of w c' = head_of w c.
Proof. intros [=]. by destruct w. Qed.

Lemma desc_used c c' : desc c' = desc c → is_used c' = is_used c.
Proof. by intros [=]. Qed.

Lemma desc_geom c c' : desc c' = desc c → geom_ok c → geom_ok c'.
Proof. intros [= ? E1 E2 E3 E4 ? ? ?] []. by split; rewrite ?E1, ?E2, ?E3, ?E4. Qed.

Lemma score_cache k A G a c c' :
  score k A G → caches k !! a = Some c → desc c' = desc c → score (upd_cache a c' k) A G.
Proof.
  intros [Hb Ha Hp Hg Hs Hl Ho] Hc E.
  assert (∀ x cx, caches (upd_cache a c' k) !! x = Some cx →
    ∃ c0, caches k !! x = Some c0 ∧ desc cx = desc c0) as Hback.
  { intros x cx Hx. simpl in Hx. destruct (decide (x = a)) as [->|].
    - rewrite lookup_insert_eq in Hx. injection Hx as <-. eauto.
    - rewrite lookup_insert_ne in Hx by done. eauto. }
  split; [done|done| | | | |done].
  - destruct Hp as [Hp Hd]. split; [done|]. intros x. rewrite <-Hd. simpl.
    rewrite lookup_insert_is_Some'. intuition (subst; eauto).
  - intros x cx Hx Hu. destruct (Hback _ _ Hx) as (c0 & Hc0 & E0).
    eapply desc_geom; [done|]. eapply Hg; [done|]. by rewrite <-(desc_used _ _ E0).
  - intros s i Hi. destruct (Hs _ _ Hi) as (idx & c0 & h & -> & HA & Hc0 & Hu & Hord & Hh & Hok).
    destruct (decide (si_cache i = a)) as [Ea|].
    + rewrite Ea in Hc0. rewrite Hc in Hc0. injection Hc0 as <-. injection E as E1 E2 E3 E4 E5 E6 E7 E8.
      exists idx, c', h. simpl. rewrite Ea, lookup_insert_eq, E1, E2, E4. done.
    + exists idx, c0, h. simpl. by rewrite lookup_insert_ne.
  - intros x cx w Hx Hu. destruct (Hback _ _ Hx) as (c0 & Hc0 & E0).
    rewrite (desc_head w _ _ E0). apply (Hl x c0); [done|]. by rewrite <-(desc_used _ _ E0).
Qed.

Lemma score_hdr k A G s i i' h h' c :
  score k A G → G !! s = Some i → mem (bud k) !! s = Some (SlabHdr h) →
  caches k !! si_cache i = Some c → si_cache i' = si_cache i → si_order i' = si_order i →
  si_where i' = si_where i → s_next h' = s_next h → s_prev h' = s_prev h →
  hdr_ok (objs_per_slab c) i' h' →
  score (upd_hdr s h' k) A (<[s:=i']> G).
Proof.
  intros Hk Hi Hh Hc E1 E2 E3 En Ep Hok. pose proof Hk as [Hb Ha Hp Hg Hs Hl Ho].
  destruct (Hs _ _ Hi) as (idx & c0 & h0 & Es & HA & Hc0 & Hu & Hord & Hh0 & Hok0).
  split; [|done|by destruct Hp|done| | |].
  - apply buddy_rep_mem; [done|]. intros x Hx. destruct (decide (x = s)) as [->|].
    + by exists idx, (si_order i).
    + by rewrite lookup_insert_ne in Hx.
  - intros x ix Hx. destruct (decide (x = s)) as [->|Hne].
    + rewrite lookup_insert_eq in Hx. injection Hx as <-. exists idx, c, h'. simpl.
      rewrite lookup_insert_eq, E1, E2. rewrite Hc in Hc0. injection Hc0 as <-. done.
    + rewrite lookup_insert_ne in Hx by done. destruct (Hs _ _ Hx) as (j & cx & hx & ? & ? & ? & ? & ? & ? & ?).
      exists j, cx, hx. simpl. by rewrite lookup_insert_ne.
  - intros a ca w Hca Hua. eapply list_at_frame; [by apply (Hl a ca w)| |].
    + intros x. destruct (decide (x = s)) as [->|]; [|by rewrite lookup_insert_ne].
      rewrite lookup_insert_eq, Hi. split; intros (? & [= <-] & ? & ?); eexists; (split; [done|]); split; congruence.
    + intros x ix Hx _ _. simpl. rewrite hdr_links_insert. destruct (decide (x = s)) as [->|]; [|done].
      unfold hdr_links. by rewrite Hh, En, Ep.
  - intros p m Hp' Hm x. rewrite (Ho p m Hp' Hm x). destruct (decide (x = s)) as [->|].
    + rewrite lookup_insert_eq, Hi. unfold covers.
      split; intros (? & [= <-] & ?); eexists; (split; [done|]).
      * by rewrite E2.
      * by rewrite <-E2.
    + by rewrite lookup_insert_ne.
Qed.

(** * What a critical section of cache [a] leaves alone

    Only slab headers in [X], the list heads, the error code and the lock of
    the descriptor at [a] change. *)
Definition body (c : kmem_cache_t) : kmem_cache_t :=
  with_lists NULL NULL NULL (with_lock false (with_error KMEM_OK c)).

Definition evolved (X : gset Z) (a : Z) (k k' : kstate) : Prop :=
  ∃ m c c', caches k !! a = Some c ∧ body c' = body c ∧
    (∀ x, x ∉ X → m !! x = mem (bud k) !! x) ∧
    k' = upd_cache a c' (set_bud (set_mem m (bud k)) k).

Lemma evolved_trans X a k1 k2 k3 : evolved X a k1 k2 → evolved X a k2 k3 → evolved X a k1 k3.
Proof.
  intros (m & c & c' & Hc & Hb & HX & ->) (m' & c1 & c1' & Hc1 & Hb' & HX' & ->).
  simpl in Hc1. rewrite lookup_insert_eq in Hc1. injection Hc1 as <-.
  exists m', c, c1'. split; [done|]. split; [congruence|]. split.
  - intros x Hx. rewrite HX' by done. simpl. auto.
  - unfold upd_cache, set_caches, set_bud. simpl. by rewrite insert_insert_eq.
Qed.

Lemma relinked_evolved X a k k' : relinked X a k k' → evolved X a k k'.
Proof. intros (m & c & f & p & e & Hc & Hm & HX & ->). by exists m, c, (with_lists f p e c). Qed.

Lemma set_mem_id k : set_bud (set_mem (mem (bud k)) (bud k)) k = k.
Proof. by destruct k as [[]]. Qed.

Lemma evolved_cache X a k c c' :
  caches k !! a = Some c → body c' = body c → evolved X a k (upd_cache a c' k).
Proof. intros Hc Hb. exists (mem (bud k)), c, c'. by rewrite set_mem_id. Qed.

Lemma upd_cache_id a c k : caches k !! a = Some c → upd_cache a c k = k.
Proof. intros Hc. unfold upd_cache. rewrite insert_id by done. by destruct k. Qed.

Lemma evolved_refl X a k c : caches k !! a = Some c → evolved X a k k.
Proof.
  intros Hc. exists (mem (bud k)), c, c. split; [done|]. split; [done|]. split; [done|].
  by rewrite set_mem_id, upd_cache_id.
Qed.

Lemma evolved_hdr (X : gset Z) a k c s h :
  caches k !! a = Some c → s ∈ X → evolved X a k (upd_hdr s h k).
Proof.
  intros Hc Hs. exists (<[s:=SlabHdr h]> (mem (bud k))), c, c. split; [done|]. split; [done|]. split.
  - intros x Hx. rewrite lookup_insert_ne; [done|]. set_solver.
  - symmetry. by apply (upd_cache_id a c (upd_hdr s h k)).
Qed.

Lemma relinked_at X a k k' c :
  relinked X a k k' → caches k !! a = Some c →
  ∃ c', caches k' !! a = Some c' ∧ c_lock c' = c_lock c ∧ error_code c' = error_code c ∧
    objs_per_slab c' = objs_per_slab c ∧ obj_offset c' = obj_offset c ∧
    object_size c' = object_size c ∧ slab_order c' = slab_order c ∧ is_used c' = is_used c.
Proof.
  intros H Hc. destruct (relinked_cache _ _ _ _ _ _ H Hc) as (f & p & e & Hc').
  by exists (with_lists f p e c).
Qed.

(** * Objects *)

Section Objects.

Context (k : kstate) (A : gmap Z Z) (G : gmap Z sinfo) (s : Z) (i : sinfo) (c : kmem_cache_t).

Hypothesis Hk : score k A G.

Hypothesis Hs : G !! s = Some i.

Hypothesis Hc : caches k !! si_cache i = Some c.

Lemma slab_info :
  ∃ idx h, s = paddr (bud k) idx ∧ A !! idx = Some (si_order i) ∧ is_used c = true ∧
    slab_order c = si_order i ∧ mem (bud k) !! s = Some (SlabHdr h) ∧ hdr_ok (objs_per_slab c) i h.
Proof.
  destruct (kc_slab _ _ _ Hk _ _ Hs) as (idx & c' & h & ? & ? & Hc' & ? & ? & ? & ?).
  rewrite Hc in Hc'. injection Hc' as <-. by exists idx, h.
Qed.

Lemma slab_geom : geom_ok c ∧ 0 < s ∧ s + BLOCK_SIZE * 2 ^ slab_order c ≤ 2 ^ 64.
Proof.
  destruct slab_info as (idx & h & Es & HA & Hu & Ho & _).
  split; [by apply (kc_geom _ _ _ Hk _ _ Hc)|].
  pose proof (kc_buddy _ _ _ Hk) as Hb.
  destruct (buddy_rep_block _ _ _ _ Hb HA) as (H0 & Hord & Htop).
  destruct (buddy_rep_region _ _ Hb) as [R1 R2 R3].
  rewrite Es, Ho. unfold paddr, BLOCK_SIZE in *. split; lia.
Qed.

Lemma wp_slab_alloc_obj j l :
  si_free i = j :: l →
  wp (slab_alloc_obj c s) (λ obj k', obj = slab_obj_ptr c s j ∧
    (∃ h', k' = upd_hdr s h' k ∧ inuse h' = objs_per_slab c - zlen l) ∧
    score k' A (<[s:=set_free l i]> G)) k.
Proof.
  intros Hfree. destruct slab_info as (idx & h & Es & HA & Hu & Ho & Hh & Hok).
  destruct slab_geom as (Hg & Hs0 & Htop). pose proof (objs_bound c Hg) as Hn.
  pose proof (slab_in_region _ _ _ Hk _ _ Hs) as Hr.
  destruct Hok as [O1 O2 O3 O4 O5 O6]. rewrite Hfree in O2, O3, O4, O5, O6. simpl in O2.
  destruct O2 as (O2 & Hj & q & Hq & Hch). rewrite length_cons, Nat2Z.inj_succ in *.
  assert (Z.succ (zlen l) ≤ objs_per_slab c) as Hlen.
  { pose proof (NoDup_range_length (j :: l) (objs_per_slab c)) as H. simpl in H.
    destruct Hg. rewrite <-Nat2Z.inj_succ. apply H; [lia|done..]. }
  unfold slab_alloc_obj. wp_auto. apply (wp_read_slab _ _ h); [done|].
  rewrite O2, (proj2 (Z.eqb_neq _ _)) by done. wp_auto. cbv zeta.
  apply (wp_of_option _ q); [done|]. wp_auto.
  apply (wp_update_slab _ _ _ h); [done..|]. wp_auto.
  eapply wp_update_slab; [apply lookup_insert_eq|done|]. wp_auto.
  eapply wp_update_slab; [apply lookup_insert_eq|done|]. wp_auto.
  split; [done|]. unfold upd_hdr, set_bud, set_mem. simpl. rewrite !insert_insert_eq.
  set (h' := set_inuse _ _). split.
  - exists h'. split; [done|]. simpl. rewrite O6, u32_small; lia.
  - apply (score_hdr k A G s i (set_free l i) h h' c); try done. split; simpl; try done.
    + by apply NoDup_cons in O3 as [_ ?].
    + intros j' Hj'. apply O4. set_solver.
    + rewrite O5, u16_small; lia.
    + rewrite O6, u32_small; lia.
Qed.

Lemma wp_slab_free_obj j :
  0 ≤ j < objs_per_slab c → j ∉ si_free i →
  wp (slab_free_obj c s (slab_obj_ptr c s j)) (λ _ k',
    (∃ h', k' = upd_hdr s h' k ∧ inuse h' = objs_per_slab c - zlen (j :: si_free i)) ∧
    score k' A (<[s:=set_free (j :: si_free i) i]> G)) k.
Proof.
  intros Hj Hjf. destruct slab_info as (idx & h & Es & HA & Hu & Ho & Hh & Hok).
  destruct slab_geom as (Hg & Hs0 & Htop). pose proof (objs_bound c Hg) as Hn.
  pose proof (slab_in_region _ _ _ Hk _ _ Hs) as Hr.
  destruct Hok as [O1 O2 O3 O4 O5 O6].
  assert (zlen (j :: si_free i) ≤ objs_per_slab c) as Hlen.
  { apply NoDup_range_length; [lia|by apply NoDup_cons|].
    intros j' [->|Hj']%elem_of_cons; [done|]. by apply O4. }
  rewrite length_cons, Nat2Z.inj_succ in *.
  unfold slab_free_obj. rewrite slab_obj_index_ptr by done. wp_auto.
  apply (wp_of_option _ j); [done|]. wp_auto. apply (wp_read_slab _ _ h); [done|]. wp_auto.
  unfold write_next. rewrite write_next_guard by done.
  apply (wp_update_slab _ _ _ h); [done..|]. wp_auto.
  eapply wp_update_slab; [apply lookup_insert_eq|done|]. wp_auto.
  eapply wp_update_slab; [apply lookup_insert_eq|done|]. wp_auto.
  eapply wp_update_slab; [apply lookup_insert_eq|done|]. wp_auto.
  unfold upd_hdr, set_bud, set_mem. simpl. rewrite !insert_insert_eq.
  set (h' := set_inuse _ _). split.
  - exists h'. split; [done|]. simpl. rewrite O6, u32_small; lia.
  - apply (score_hdr k A G s i (set_free (j :: si_free i) i) h h' c); try done. split; simpl; try done.
    + apply idx_chain_push; [done| |done]. unfold NOFREE. lia.
    + by apply NoDup_cons.
    + intros j' [->|Hj']%elem_of_cons; [done|]. by apply O4.
    + rewrite O5, u16_small; lia.
    + rewrite O6, u32_small; lia.
Qed.

End Objects.

(** * Moving a slab between lists *)

Lemma dom_same (G : gmap Z sinfo) s i i' : G !! s = Some i → dom (<[s:=i']> G) = dom G.
Proof. intros Hs. apply dom_insert_lookup_L. eauto. Qed.

Lemma relinked_get X a k k' c :
  relinked X a k k' → caches k !! a = Some c → ∃ c', caches k' !! a = Some c'.
Proof. intros H Hc. destruct (relinked_at _ _ _ _ _ H Hc) as (c' & ? & _). eauto. Qed.

Lemma wp_move k A G a c s i w w' :
  score k A G → caches k !! a = Some c → G !! s = Some i → si_cache i = a → si_where i = Some w →
  wp (_ ← slab_list_remove_node a w s; slab_list_push_front a w' s) (λ _ k',
    score k' A (<[s:=set_where (Some w') i]> G) ∧ relinked (dom G) a k k') k.
Proof.
  intros Hk Hc Hs Hia Hiw. destruct (slab_hdr _ _ _ Hk _ _ Hs) as [h Hh]. wp_auto.
  eapply wp_mono.
  { eapply (wp_slab_list_remove_node k A G a s c i w (s_next h) (s_prev h)); try done.
    unfold hdr_links. by rewrite Hh. }
  intros [] k1 [Hk1 Hr1]. destruct (relinked_get _ _ _ _ _ Hr1 Hc) as [c1 Hc1].
  eapply wp_mono.
  { eapply (wp_slab_list_push_front k1 A _ a s c1 (set_where None i)); try done.
    apply lookup_insert_eq. }
  intros [] k2 (Hr2 & m & _ & Hk2). rewrite insert_insert_eq in Hk2.
  rewrite (dom_same G s i) in Hr2 by done. split; [done|]. by eapply relinked_trans.
Qed.

(** * Allocation from a slab *)

(** A cache whose lock is free and whose error code is [e]. *)
Definition released (k : kstate) (a : Z) (e : Error) : Prop :=
  ∃ c, caches k !! a = Some c ∧ c_lock c = false ∧ error_code c = e.

(** Freeing the lock ends a critical section. *)
Lemma wp_release k0 k A G X a c :
  score k A G → evolved X a k0 k → caches k !! a = Some c → c_lock c = true →
  wp (release_cache a) (λ _ k', score k' A G ∧ evolved X a k0 k' ∧ released k' a (error_code c)) k.
Proof.
  intros Hk He Hc Hl. apply (wp_release_cache _ _ c); [done..|]. split; [by eapply score_cache|].
  split; [by eapply evolved_trans, evolved_cache|]. eexists. split; [apply lookup_insert_eq|done].
Qed.

(** The slab after its first free object has been taken. *)
Definition taken (i : sinfo) (l : list Z) : sinfo :=
  SInfo (si_cache i) (si_order i) (Some match l with [] => LFull | _ => LPartial end) l.

Lemma wp_alloc_from_slab k A G a c s i j l :
  score k A G → caches k !! a = Some c → c_lock c = true → G !! s = Some i → si_cache i = a →
  si_where i = Some LPartial → si_free i = j :: l →
  wp (alloc_from_slab a s) (λ obj k', obj = slab_obj_ptr c s j ∧ obj ≠ NULL ∧
    score k' A (<[s:=taken i l]> G) ∧ evolved (dom G) a k k' ∧ released k' a (error_code c)) k.
Proof.
  intros Hk Hc Hl Hs Hia Hiw Hfree. rewrite <-Hia in Hc.
  destruct (slab_info k A G s i c Hk Hs Hc) as (idx & h & Es & HA & Hu & Ho & Hh & Hok).
  destruct (slab_geom k A G s i c Hk Hs Hc) as (Hg & Hs0 & Htop).
  assert (0 ≤ j < objs_per_slab c) as Hj by (apply (h_range _ _ _ Hok); rewrite Hfree; set_solver).
  rewrite Hia in Hc. unfold alloc_from_slab. wp_auto. apply (wp_read_cache _ _ c); [done|]. wp_auto.
  eapply wp_mono; [apply (wp_slab_alloc_obj k A G s i c Hk Hs ltac:(by rewrite Hia) j l Hfree)|].
  intros obj k1 (-> & (h1 & -> & Hin1) & Hk1).
  assert (slab_obj_ptr c s j ≠ NULL) as Hnn.
  { pose proof (slab_obj_ptr_inside c s Hg Hs0 Htop j Hj). unfold NULL. lia. }
  rewrite (proj2 (Z.eqb_neq _ _)) by done. wp_auto.
  apply (wp_read_slab _ _ h1); [apply lookup_insert_eq|]. rewrite Hin1. wp_auto.
  assert (s ∈ dom G) as Hsd by (apply elem_of_dom; eauto).
  pose proof (evolved_hdr (dom G) a k c s h1 Hc Hsd) as He1.
  destruct l as [|j' l]; cbn [length].
  - rewrite (proj2 (Z.eqb_eq _ _)) by lia. eapply wp_mono.
    { eapply (wp_move _ A _ a c s (set_free [] i) LPartial LFull); try done. apply lookup_insert_eq. }
    intros [] k2 [Hk2 Hr2]. rewrite insert_insert_eq in Hk2.
    rewrite (dom_same G s i) in Hr2 by done. wp_auto.
    destruct (relinked_at _ _ _ _ c Hr2 Hc) as (c2 & Hc2 & El & Ee & _).
    eapply wp_mono; [eapply (wp_release k k2 A _ (dom G) a c2); try done|].
    + by eapply evolved_trans, relinked_evolved.
    + congruence.
    + intros [] k3 (? & ? & ?). wp_auto. by rewrite <-Ee.
  - rewrite (proj2 (Z.eqb_neq _ _)) by lia. wp_auto.
    eapply wp_mono; [eapply (wp_release k _ A _ (dom G) a c); try done|].
    intros [] k3 (Hk3 & ? & ?). wp_auto. split; [done|]. split; [done|]. split; [|done].
    unfold taken. by rewrite <-Hiw.
Qed.

(** Object [obj] has been taken from the slab [s] of the cache. *)
Definition took_at (k : kstate) (A : gmap Z Z) (G : gmap Z sinfo) (a : Z) (c : kmem_cache_t)
    (s : Z) (i : sinfo) (obj : Z) (k' : kstate) : Prop :=
  ∃ j l, G !! s = Some i ∧ si_cache i = a ∧ si_free i = j :: l ∧
    obj = slab_obj_ptr c s j ∧ obj ≠ NULL ∧ score k' A (<[s:=taken i l]> G) ∧
    evolved (dom G) a k k' ∧ released k' a (error_code c).

Definition took (k : kstate) (A : gmap Z Z) (G : gmap Z sinfo) (a : Z) (c : kmem_cache_t)
    (obj : Z) (k' : kstate) : Prop :=
  ∃ s i, took_at k A G a c s i obj k'.

Lemma list_head k A G a c w :
  score k A G → caches k !! a = Some c → is_used c = true → head_of w c ≠ NULL →
  ∃ i, G !! head_of w c = Some i ∧ si_cache i = a ∧ si_where i = Some w.
Proof.
  intros Hk Hc Hu Hne. destruct (kc_list _ _ _ Hk a c w Hc Hu) as (l & Hl & Hnd & Hin).
  apply Hin. by destruct (dl_head _ _ _ _ Hl Hne).
Qed.

Lemma lock_cycle_cache a c k :
  caches k !! a = Some c → c_lock c = false →
  upd_cache a (with_lock false (with_lock true c)) (upd_cache a (with_lock true c) k) = k.
Proof.
  intros Hc Hl. unfold upd_cache, set_caches. simpl. rewrite insert_insert_eq, insert_id.
  - by destruct k.
  - rewrite Hc. destruct c. simpl in *. by subst.
Qed.

(** Taking an object from a slab that is on, or has just been put on, the
    partial list. *)
Lemma wp_take k k2 A G a c c2 s i j l :
  G !! s = Some i → si_cache i = a → si_free i = j :: l →
  score k2 A (<[s:=set_where (Some LPartial) i]> G) → evolved (dom G) a k k2 →
  caches k2 !! a = Some c2 → c_lock c2 = true → error_code c2 = error_code c →
  slab_obj_ptr c2 s j = slab_obj_ptr c s j →
  wp (alloc_from_slab a s) (took_at k A G a c s i) k2.
Proof.
  intros Hs Hia Hfree Hk2 He2 Hc2 Hl2 Ee Eo. eapply wp_mono.
  { eapply (wp_alloc_from_slab k2 A _ a c2 s (set_where (Some LPartial) i) j l); try done.
    apply lookup_insert_eq. }
  intros obj k3 (-> & Hnn & Hk3 & He3 & Hr3).
  rewrite insert_insert_eq in Hk3. rewrite (dom_same G s i) in He3 by done.
  exists j, l. rewrite <-Ee. split_and!; try done. by eapply evolved_trans.
Qed.

Lemma settled_nonempty k A G a c s i w :
  score k A G → settled k G → caches k !! a = Some c → is_used c = true →
  G !! s = Some i → si_cache i = a → si_where i = Some w → w ≠ LFull →
  ∃ j l, si_free i = j :: l.
Proof.
  intros Hk Hset Hc Hu Hs Hia Hiw Hn. pose proof (Hset _ _ c Hs ltac:(by rewrite Hia)) as H.
  pose proof (kc_geom _ _ _ Hk _ _ Hc Hu) as [_ _ Hn1 _ _].
  unfold settled_at in H. rewrite Hiw in H. destruct (si_free i); [|eauto].
  destruct w; simpl in H; [done|lia|lia].
Qed.

Lemma wp_alloc_fast k A G a c :
  score k A G → settled k G → caches k !! a = Some c → is_used c = true → c_lock c = false →
  wp (alloc_fast a) (λ r k',
    match r with
    | inl _ => k' = k ∧ destroying c = false ∧ partial c = NULL ∧ empty c = NULL
    | inr obj => (destroying c = true ∧ obj = NULL ∧ k' = k) ∨
                 (destroying c = false ∧ took k A G a c obj k')
    end) k.
Proof.
  intros Hk Hset Hc Hu Hl. unfold alloc_fast. wp_auto. apply (wp_acquire_cache _ _ c); [done..|].
  set (k1 := upd_cache a (with_lock true c) k). set (c1 := with_lock true c).
  assert (caches k1 !! a = Some c1) as Hc1 by apply lookup_insert_eq.
  assert (score k1 A G) as Hk1 by (by eapply score_cache).
  assert (evolved (dom G) a k k1) as He1 by (by eapply evolved_cache).
  wp_auto. apply (wp_read_cache _ _ c1); [done|].
  change (destroying c1) with (destroying c). destruct (destroying c) eqn:Hd.
  { wp_auto. apply (wp_release_cache _ _ c1); [done..|]. wp_auto. left.
    split; [done|]. split; [done|]. by apply lock_cycle_cache. }
  wp_auto. change (partial c1) with (partial c). change (empty c1) with (empty c).
  destruct (Z.eqb_spec (partial c) NULL) as [Ep|Ep]; cbn [negb].
  2:{ destruct (list_head k A G a c LPartial Hk Hc Hu Ep) as (i & Hs & Hia & Hiw). simpl in Hs.
      destruct (settled_nonempty _ _ _ _ _ _ _ _ Hk Hset Hc Hu Hs Hia Hiw)
        as (j & l & Hfree); [done|].
      wp_auto. rewrite (proj2 (Z.eqb_neq _ _)) by done. cbn [negb]. wp_auto.
      eapply wp_mono; [eapply (wp_take k k1 A G a c c1 (partial c) i j l); try done|].
      - rewrite insert_id; [done|]. rewrite Hs. destruct i; simpl in *; by subst.
      - intros obj k' ?. wp_auto. right. split; [done|]. by eexists _, _. }
  destruct (Z.eqb_spec (empty c) NULL) as [Ee|Ee]; cbn [negb].
  { wp_auto. cbn [negb Z.eqb NULL]. wp_auto. apply (wp_release_cache _ _ c1); [done..|].
    wp_auto. split; [by apply lock_cycle_cache|done]. }
  wp_auto. eapply wp_mono; [by apply (wp_slab_list_pop_front k1 A G a c1 LEmpty)|].
  intros s k2 [(-> & E & _)|(i & Hs0 & Es & Hs & Hia & Hiw & Hk2 & Hr2)]; [done|]. wp_auto.
  destruct (relinked_at _ _ _ _ _ Hr2 Hc1) as (c2 & Hc2 & El2 & Ee2 & _).
  eapply wp_mono.
  { eapply (wp_slab_list_push_front k2 A _ a s c2 (set_where None i)); try done.
    apply lookup_insert_eq. }
  intros [] k3 (Hr3 & m & _ & Hk3). rewrite insert_insert_eq in Hk3.
  rewrite (dom_same G s i) in Hr3 by done. wp_auto.
  rewrite (proj2 (Z.eqb_neq _ _)) by done. cbn [negb].
  pose proof (relinked_trans _ _ _ _ _ Hr2 Hr3) as Hr.
  destruct (relinked_at _ _ _ _ _ Hr Hc1) as (c3 & Hc3 & El3 & Ee3 & E1 & E2 & E3 & _).
  destruct (settled_nonempty _ _ _ _ _ _ _ _ Hk Hset Hc Hu Hs Hia Hiw)
    as (j & l & Hfree); [done|].
  wp_auto. eapply wp_mono; [eapply (wp_take k k3 A G a c c3 s i j l); try done|].
  - by eapply evolved_trans, relinked_evolved.
  - unfold slab_obj_ptr. by rewrite E2, E3.
  - intros obj k' ?. wp_auto. right. split; [done|]. by eexists _, _.
Qed.

(** * Setting up a new slab *)

Lemma idx_chain_seq nx lo m :
  0 ≤ lo → lo + Z.of_nat m < NOFREE →
  (∀ j, lo ≤ j < lo + Z.of_nat m → nx !! j = Some (j + 1)) →
  nx !! (lo + Z.of_nat m) = Some NOFREE →
  idx_chain nx lo (seqZ lo (Z.of_nat (S m))).
Proof.
  revert lo. induction m as [|m IH]; intros lo H0 Hb Hnext Hlast.
  - rewrite seqZ_cons by lia. rewrite seqZ_nil by lia. simpl. split; [done|]. split; [lia|].
    exists NOFREE. by replace (lo + Z.of_nat 0) with lo in Hlast by lia.
  - rewrite seqZ_cons by lia. cbn [idx_chain]. split; [done|]. split; [lia|]. exists (lo + 1).
    rewrite Hnext by lia. split; [done|].
    replace (Z.pred (Z.of_nat (S (S m)))) with (Z.of_nat (S m)) by lia.
    replace (Z.succ lo) with (lo + 1) by lia. apply IH; [lia|lia| |].
    + intros j Hj. apply Hnext. lia.
    + by replace (lo + 1 + Z.of_nat m) with (lo + Z.of_nat (S m)) by lia.
Qed.

Lemma upd_hdr_twice s h h' k : upd_hdr s h' (upd_hdr s h k) = upd_hdr s h' k.
Proof. unfold upd_hdr, set_bud, set_mem. simpl. by rewrite insert_insert_eq. Qed.

Lemma wp_write_next k c s h j v (Q : unit → kstate → Prop) :
  geom_ok c → 0 < s → s + BLOCK_SIZE * 2 ^ slab_order c ≤ 2 ^ 64 → in_region (bud k) s = true →
  0 ≤ j < objs_per_slab c →
  Q tt (upd_hdr s (set_next_array (<[j:=v]> (next_array h)) h) k) →
  wp (write_next c s j v) Q (upd_hdr s h k).
Proof.
  intros Hg Hs Htop Hr Hj HQ. unfold write_next. rewrite write_next_guard by done.
  eapply wp_update_slab; [apply lookup_insert_eq|done|]. by rewrite upd_hdr_twice.
Qed.

(** The free list of a new slab holds all its objects in order. *)
Definition fresh (a : Z) (c : kmem_cache_t) : sinfo :=
  SInfo a (slab_order c) None (seqZ 0 (objs_per_slab c)).

Lemma wp_init_slab k a c base :
  caches k !! a = Some c → geom_ok c → 0 < base →
  base + BLOCK_SIZE * 2 ^ slab_order c ≤ 2 ^ 64 → in_region (bud k) base = true →
  wp (init_slab a base) (λ _ k', ∃ h, k' = upd_hdr base h k ∧ hdr_ok (objs_per_slab c) (fresh a c) h) k.
Proof.
  intros Hc Hg Hb Htop Hr. pose proof (objs_bound c Hg) as Hn. pose proof (g_objs _ Hg) as Hn1.
  unfold init_slab. wp_auto. apply (wp_read_cache _ _ c); [done|]. cbv zeta.
  rewrite u16_small by lia. unfold on_bud. wp_auto. apply wp_store_cell; [done|].
  set (h0 := Slab a 0 0 0 NULL NULL ∅). change (set_bud _ k) with (upd_hdr base h0 k). wp_auto.
  apply (wp_for_range (λ j s, ∃ nx, s = upd_hdr base (set_next_array nx h0) k ∧
    ∀ q, 0 ≤ q < j → nx !! q = Some (q + 1))); [lia| | |].
  - exists ∅. split; [done|]. lia.
  - intros j s Hj (nx & -> & Hnx). apply wp_write_next; [done..|lia|].
    exists (<[j:=u16 (j + 1)]> nx). split; [done|]. intros q Hq. rewrite u16_small by lia.
    destruct (decide (q = j)) as [->|]; [by rewrite lookup_insert_eq|].
    rewrite lookup_insert_ne by done. apply Hnx. lia.
  - intros s (nx & -> & Hnx). wp_auto. apply wp_write_next; [done..|lia|]. simpl.
    set (nx' := <[_:=NOFREE]> nx). wp_auto.
    eapply wp_update_slab; [apply lookup_insert_eq|done|]. rewrite upd_hdr_twice. wp_auto.
    eapply wp_update_slab; [apply lookup_insert_eq|done|]. rewrite upd_hdr_twice.
    eexists. split; [done|]. split; simpl.
    + done.
    + replace (objs_per_slab c) with (Z.of_nat (S (Z.to_nat (objs_per_slab c - 1)))) by lia.
      apply idx_chain_seq; [lia|unfold NOFREE; lia| |].
      * intros q Hq. unfold nx'. rewrite lookup_insert_ne by lia. apply Hnx. lia.
      * unfold nx'. replace (0 + _) with (objs_per_slab c - 1) by lia. by rewrite lookup_insert_eq.
    + apply NoDup_seqZ.
    + intros q Hq%elem_of_seqZ. lia.
    + rewrite length_seqZ. lia.
    + rewrite length_seqZ. lia.
Qed.

(** [block_meta] after the owners of pages [head .. head + n) were set. *)
Definition owners_set (head n s : Z) (bm bm' : gmap Z block_meta_t) : Prop :=
  ∀ p, bm' !! p = if decide (head ≤ p < head + n) then set_owner_slab s <$> bm !! p else bm !! p.

Lemma wp_set_owners k head order s :
  buddy_lock (bud k) = false → 0 ≤ order →
  (∀ p, head ≤ p < head + 2 ^ order → is_Some (block_meta (bud k) !! p)) →
  wp (set_owners head order s) (λ _ k', ∃ bm,
    k' = set_bud (set_block_meta bm (bud k)) k ∧
    owners_set head (2 ^ order) s (block_meta (bud k)) bm) k.
Proof.
  intros Hl Ho Hsome. unfold set_owners, on_bud. wp_auto. apply wp_acquire_buddy; [done|]. wp_auto.
  rewrite Z.shiftl_1_l. pose proof (pow2_pos order Ho) as Hpos. set (n := 2 ^ order) in *.
  apply (wp_for_range (λ j b, ∃ bm, b = set_block_meta bm (set_buddy_lock true (bud k)) ∧
    owners_set head j s (block_meta (bud k)) bm)); [lia| | |].
  - exists (block_meta (bud k)). split; [by destruct (bud k)|].
    intros p. by rewrite decide_False by lia.
  - intros j b Hj (bm & -> & Hbm). destruct (Hsome (head + j)) as [m Hm]; [lia|].
    apply (wp_update_meta _ _ _ m).
    { simpl. rewrite Hbm, decide_False by lia. done. }
    exists (<[head + j:=set_owner_slab s m]> bm). split; [done|]. intros p.
    destruct (decide (p = head + j)) as [->|].
    + rewrite lookup_insert_eq, decide_True by lia. by rewrite Hm.
    + rewrite lookup_insert_ne, Hbm by done.
      destruct (decide (head ≤ p < head + j)); [by rewrite decide_True by lia|].
      by rewrite decide_False by lia.
  - intros b (bm & -> & Hbm). wp_auto. apply wp_release_buddy; [done|]. exists bm. split; [|done].
    destruct (bud k) eqn:E. simpl in *. subst. done.
Qed.

(** * Changes of the buddy allocator under the slabs *)

Lemma score_bud k A A' G b' :
  score k A G → buddy_rep b' A' →
  managed_start b' = managed_start (bud k) → managed_num_blocks b' = managed_num_blocks (bud k) →
  (∀ s i idx, G !! s = Some i → s = paddr (bud k) idx → A !! idx = Some (si_order i) →
     A' !! idx = Some (si_order i)) →
  (∀ s i, G !! s = Some i → mem b' !! s = mem (bud k) !! s) →
  (∀ p, owner_slab <$> block_meta b' !! p = owner_slab <$> block_meta (bud k) !! p) →
  score (set_bud b' k) A' G.
Proof.
  intros [Hb Ha Hp Hg Hs Hl Ho] Hb' Es En HA Hm How.
  assert (∀ x, paddr b' x = paddr (bud k) x) as Ep by (intros; unfold paddr; by rewrite Es).
  split; [done|by simpl; rewrite Es|by destruct Hp|done| | |].
  - intros s i Hi. destruct (Hs _ _ Hi) as (idx & c & h & Hsp & HAi & Hc & Hu & Hord & Hh & Hok).
    exists idx, c, h. simpl. rewrite Ep, (Hm _ _ Hi). split_and!; try done. by eapply HA.
  - intros a c w Hc Hu. eapply list_at_frame; [by apply (Hl a c w)|done|].
    intros s i Hi _ _. unfold hdr_links. simpl. by rewrite (Hm _ _ Hi).
  - intros p m Hpn Hpm s. simpl in Hpn, Hpm. rewrite En in Hpn. specialize (How p).
    rewrite Hpm in How. destruct (block_meta (bud k) !! p) as [m0|] eqn:E0; [|done].
    injection How as How. rewrite How, (Ho p m0 Hpn E0 s). simpl. unfold covers.
    by setoid_rewrite Ep.
Qed.

Lemma slab_page_owner k A G s i p :
  score k A G → G !! s = Some i → covers (bud k) s i p →
  ∃ m, block_meta (bud k) !! p = Some m ∧ owner_slab m = s ∧ 0 ≤ p < managed_num_blocks (bud k).
Proof.
  intros Hk Hs Hcov. destruct (kc_slab _ _ _ Hk _ _ Hs) as (idx & c & h & Es & HA & _).
  destruct Hcov as (idx' & Es' & Hp). pose proof Es' as Ei. rewrite Es in Ei. apply paddr_inj in Ei as <-.
  destruct (buddy_rep_block _ _ _ _ (kc_buddy _ _ _ Hk) HA) as (H0 & Hord & Htop).
  assert (0 ≤ p < managed_num_blocks (bud k)) as Hpn by lia.
  destruct (kc_buddy _ _ _ Hk) as (B & HC & _).
  destruct (c_meta _ _ _ HC p Hpn) as (m & Hm & _). exists m. split; [done|]. split; [|done].
  apply (kc_owner _ _ _ Hk p m Hpn Hm s). exists i. split; [done|]. by exists idx.
Qed.

(** A block whose pages no slab owns starts no slab and meets none. *)
Lemma clear_no_slab k A G idx o s i p :
  score k A G → pages_clear (bud k) idx o → idx ≤ p < idx + 2 ^ o →
  G !! s = Some i → ¬ covers (bud k) s i p.
Proof.
  intros Hk Hclr Hp Hs Hcov. destruct (slab_page_owner _ _ _ _ _ _ Hk Hs Hcov) as (m & Hm & Ho & _).
  apply (slab_nonnull _ _ _ Hk _ _ Hs). rewrite <-Ho. by apply (Hclr p).
Qed.

Lemma score_new k A G a c idx h bm :
  let base := paddr (bud k) idx in
  score k A G → caches k !! a = Some c → is_used c = true → A !! idx = Some (slab_order c) →
  pages_clear (bud k) idx (slab_order c) → hdr_ok (objs_per_slab c) (fresh a c) h →
  owners_set idx (2 ^ slab_order c) base (block_meta (bud k)) bm →
  G !! base = None ∧
  score (set_bud (set_block_meta bm (bud (upd_hdr base h k))) (upd_hdr base h k)) A
    (<[base:=fresh a c]> G).
Proof.
  intros base Hk Hc Hu HA Hclr Hok Hbm. pose proof Hk as [Hb Ha Hp Hg Hs Hl Ho].
  pose proof (g_order _ (Hg _ _ Hc Hu)) as Hord. pose proof (pow2_pos (slab_order c)) as Hpos.
  assert (base ≠ NULL) as Hb0.
  { apply paddr_pos; [by eapply buddy_rep_region|]. by apply (buddy_rep_block _ _ _ _ Hb HA). }
  assert (G !! base = None) as Hnone.
  { destruct (G !! base) as [i|] eqn:Ei; [|done]. exfalso.
    destruct (Hs _ _ Ei) as (idx' & ? & ? & Ebase & HA' & _). apply paddr_inj in Ebase as <-.
    rewrite HA in HA'. injection HA' as HA'.
    eapply (clear_no_slab k A G idx _ base i idx Hk Hclr); [lia|done|].
    exists idx. split; [done|]. rewrite <-HA'. lia. }
  split; [done|]. split; [|done|by destruct Hp|done| | |].
  - apply buddy_rep_owner.
    + apply buddy_rep_mem; [done|]. intros x Hx. destruct (decide (x = base)) as [->|].
      * eauto.
      * by rewrite lookup_insert_ne in Hx.
    + intros p. simpl. rewrite Hbm. case_decide; [|done]. by destruct (block_meta (bud k) !! p).
    + intros p Hne. exists idx, (slab_order c). split; [done|]. simpl in Hne.
      rewrite Hbm in Hne. by case_decide.
  - intros s i Hi. destruct (decide (s = base)) as [->|Hne].
    + rewrite lookup_insert_eq in Hi. injection Hi as <-. exists idx, c, h. simpl.
      by rewrite lookup_insert_eq.
    + rewrite lookup_insert_ne in Hi by done. destruct (Hs _ _ Hi) as (j & cx & hx & ? & ? & ? & ? & ? & ? & ?).
      exists j, cx, hx. simpl. by rewrite lookup_insert_ne.
  - intros x cx w Hcx Hux. eapply list_at_frame; [by apply (Hl x cx w)| |].
    + intros s. destruct (decide (s = base)) as [->|]; [|by rewrite lookup_insert_ne].
      rewrite lookup_insert_eq, Hnone. split; [by intros (? & [= <-] & ? & ?)|by intros (? & ? & _)].
    + intros s i Hi _ _. simpl. rewrite hdr_links_insert, decide_False by congruence. done.
  - intros p m Hpn Hm s. simpl in Hpn, Hm. rewrite Hbm in Hm. destruct (decide (s = base)) as [->|Hne].
    + rewrite lookup_insert_eq. case_decide as Hin.
      * destruct (block_meta (bud k) !! p) as [m0|]; [|done]. injection Hm as <-. simpl.
        split; [|done]. intros _. eexists. split; [done|]. by exists idx.
      * split.
        -- intros Hown. apply (Ho p m Hpn Hm) in Hown as (i & ? & _). congruence.
        -- intros (? & [= <-] & idx' & Ei & Hr).
           by apply (paddr_inj (bud k)) in Ei as <-.
    + rewrite lookup_insert_ne by done. case_decide as Hin; [|by apply (Ho p m)].
      destruct (block_meta (bud k) !! p) as [m0|] eqn:E0; [|done]. injection Hm as <-. simpl.
      split; [intros [_ <-]; done|]. intros (i & Hi & Hcov).
      by destruct (clear_no_slab k A G idx _ s i p Hk Hclr Hin Hi).
Qed.
