(* ===== verification/SlabAlloc.v ===== *)
(** [kmem_cache_alloc] against the invariant of SlabInv.v, and what a call on
    one cache leaves alone. *)

From S2P Require Import Prelude.
From S2P Require Import Buddy.
From S2P Require Import BuddyInv.
From S2P Require Import BuddySpec.
From S2P Require Import BuddyProps.
From S2P Require Import Slab.
From S2P Require Import SlabInv.
From S2P Require Import SlabLists.
From S2P Require Import SlabSpec.

(** * Growing a cache *)

Definition ctor_events (c : kmem_cache_t) (base : Z) : list event :=
  if ctor c =? NULL then []
  else (λ j, EvCtor (ctor c) (slab_obj_ptr c base j)) <$> seqZ 0 (objs_per_slab c).

Definition set_trace (t : list event) (k : kstate) : kstate :=
  KState (bud k) (cache_pool k) (caches k) (cache_list_lock k) (cache_pool_lock k)
    (head_of_cache_list k) (tail_of_cache_list k) (kmalloc_caches k) t.

Lemma wp_run_ctors k a c base :
  caches k !! a = Some c → geom_ok c →
  wp (run_ctors a base) (λ _ k', k' = set_trace (trace k ++ ctor_events c base) k) k.
Proof.
  intros Hc Hg. pose proof (objs_bound c Hg). pose proof (g_objs _ Hg).
  unfold run_ctors. wp_auto. apply (wp_read_cache _ _ c); [done|]. unfold ctor_events.
  destruct (Z.eqb_spec (ctor c) NULL); cbn [negb].
  { wp_auto. rewrite app_nil_r. by destruct k. }
  rewrite u16_small by lia.
  apply (wp_for_range (λ j s, s = set_trace (trace k ++
    ((λ j, EvCtor (ctor c) (slab_obj_ptr c base j)) <$> seqZ 0 j)) k)); [lia| | |done].
  - rewrite seqZ_nil by lia. simpl. rewrite app_nil_r. by destruct k.
  - intros j s Hj ->. wp_auto. unfold emit, set_trace. simpl. f_equal.
    rewrite <-app_assoc. f_equal. by rewrite seqZ_app, fmap_app by lia.
Qed.

Lemma score_trace k A G t : score k A G → score (set_trace t k) A G.
Proof. intros [Hb Ha [Hp Hd] Hg Hs Hl Ho]. by split. Qed.

(** What growing leaves alone. *)
Record grown (A : gmap Z Z) (k k' : kstate) : Prop := {
  gr_caches : caches k' = caches k;
  gr_pool : cache_pool k' = cache_pool k;
  gr_llock : cache_list_lock k' = cache_list_lock k;
  gr_plock : cache_pool_lock k' = cache_pool_lock k;
  gr_head : head_of_cache_list k' = head_of_cache_list k;
  gr_tail : tail_of_cache_list k' = tail_of_cache_list k;
  gr_kmalloc : kmalloc_caches k' = kmalloc_caches k;
  gr_start : managed_start (bud k') = managed_start (bud k);
  gr_num : managed_num_blocks (bud k') = managed_num_blocks (bud k);
  gr_block : buddy_lock (bud k') = buddy_lock (bud k);
  gr_mem : ∀ j o x, A !! j = Some o → paddr (bud k) j ≤ x < paddr (bud k) (j + 2 ^ o) →
    mem (bud k') !! x = mem (bud k) !! x }.

(** The slab of cache [a] with address [base] is new and on no list yet. *)
Definition added (k : kstate) (A : gmap Z Z) (G : gmap Z sinfo) (a : Z) (c : kmem_cache_t)
    (base : Z) (k' : kstate) : Prop :=
  ∃ idx, base = paddr (bud k) idx ∧ base ≠ NULL ∧ A !! idx = None ∧ G !! base = None ∧
    score k' (<[idx:=slab_order c]> A) (<[base:=fresh a c]> G) ∧ grown A k k' ∧
    trace k' = trace k ++ ctor_events c base.

(** In a block allocation for [2 ^ o] pages the order is [o]. *)
Lemma least_order_pow o t :
  0 ≤ o → 0 ≤ t → 2 ^ o ≤ 2 ^ t → (∀ t', 0 ≤ t' < t → 2 ^ t' < 2 ^ o) → t = o.
Proof.
  intros Ho Ht Hle Hmin. destruct (Z.lt_total t o) as [H|[H|H]]; [|done|].
  - pose proof (Z.pow_lt_mono_r 2 t o). lia.
  - specialize (Hmin o). lia.
Qed.

(** The buddy allocator has handed out a block. *)
Lemma score_block k A G b1 idx o :
  score k A G → A !! idx = None → buddy_rep b1 (<[idx:=o]> A) → bframe (λ j o', A !! j = Some o') (bud k) b1 →
  score (set_bud b1 k) (<[idx:=o]> A) G.
Proof.
  intros Hk HA Hrep F. pose proof F as [Fs Fn Fl Fo Fm]. apply (score_bud k A); [done|done|done|done| | |done].
  - intros s i j Hs Es HAj. rewrite lookup_insert_ne; [done|congruence].
  - intros s i Hs. destruct (kc_slab _ _ _ Hk _ _ Hs) as (j & ? & ? & -> & HAj & _).
    pose proof (buddy_rep_block _ _ _ _ (kc_buddy _ _ _ Hk) HAj) as (? & ? & ?).
    pose proof (pow2_pos (si_order i)).
    apply (Fm j (si_order i)); [done|]. unfold paddr, BLOCK_SIZE. lia.
Qed.

(** The buddy allocator has refused. *)
Lemma wp_report_oom k a c (Q : Z → kstate → Prop) :
  caches k !! a = Some c → c_lock c = false → Q NULL (upd_cache a (with_error KMEM_ERR_BUDDY_OOM c) k) →
  wp (_ ← acquire_cache a; _ ← update_cache a (with_error KMEM_ERR_BUDDY_OOM); _ ← release_cache a; mret NULL) Q k.
Proof.
  intros Hc Hl HQ. wp_auto. apply (wp_acquire_cache _ _ c); [done..|]. wp_auto.
  eapply wp_update_cache; [apply lookup_insert_eq|]. wp_auto.
  eapply wp_release_cache; [apply lookup_insert_eq|done|]. wp_auto.
  replace (upd_cache a _ _) with (upd_cache a (with_error KMEM_ERR_BUDDY_OOM c) k); [done|].
  unfold upd_cache, set_caches. simpl. rewrite !insert_insert_eq. repeat f_equal. destruct c. simpl in *. by subst.
Qed.

Lemma wp_alloc_grow k A G a c :
  score k A G → caches k !! a = Some c → is_used c = true → c_lock c = false →
  buddy_lock (bud k) = false →
  wp (alloc_grow a) (λ r k',
    (r = NULL ∧ k' = upd_cache a (with_error KMEM_ERR_BUDDY_OOM c) k) ∨ added k A G a c r k') k.
Proof.
  intros Hk Hc Hu Hl Hbl. pose proof (kc_geom _ _ _ Hk _ _ Hc Hu) as Hg.
  pose proof (g_order _ Hg) as Ho. unfold MAX_SLAB_ORDER in Ho.
  assert (1 ≤ 2 ^ slab_order c ≤ 2 ^ 6) as Hpow.
  { split; [apply pow2_pos; lia|apply Z.pow_le_mono_r; lia]. }
  unfold alloc_grow. wp_auto. apply (wp_read_cache _ _ c); [done|]. unfold on_bud. wp_auto.
  rewrite Z.shiftl_1_l, u64_small by lia.
  eapply wp_mono; [apply (pa_alloc (bud k) A); [apply Hk|done|lia]|].
  intros r b1 [(-> & ->)|(idx & t & -> & Hnn & HA & Ht & Hsz & Hmin & Hrep & F & Hclr)].
  { cbn [Z.eqb NULL]. wp_auto. replace (set_bud (bud k) k) with k by (by destruct k).
    apply wp_bind_inv, (wp_report_oom k a c); [done..|]. by left. }
  assert (t = slab_order c) as -> by (apply least_order_pow; lia || done).
  rewrite (proj2 (Z.eqb_neq _ _)) by done. wp_auto.
  set (k1 := set_bud b1 k). pose proof F as [Fs Fn Fl Fo Fm].
  assert (score k1 (<[idx:=slab_order c]> A) G) as Hk1 by (by apply score_block).
  assert (A !! idx = None ∧ <[idx:=slab_order c]> A !! idx = Some (slab_order c)) as [_ HAi]
    by (split; [done|apply lookup_insert_eq]).
  assert (paddr b1 idx = paddr (bud k) idx) as Ep by (unfold paddr; by rewrite Fs).
  destruct (buddy_rep_block _ _ _ _ Hrep HAi) as (Hi0 & _ & Hitop).
  destruct (buddy_rep_region _ _ Hrep) as [R1 R2 R3].
  assert (in_region b1 (paddr b1 idx) = true) as Hr by (apply in_region_paddr; lia).
  rewrite <-Ep. eapply wp_mono.
  { apply (wp_init_slab k1 a c); [done|done| | |done];
      unfold paddr, BLOCK_SIZE in *; lia. }
  intros [] k2 (h & -> & Hok). wp_auto.
  replace (addr_to_index (bud (upd_hdr (paddr b1 idx) h k1)) (paddr b1 idx)) with idx.
  2:{ symmetry. apply (addr_to_index_paddr (bud (upd_hdr (paddr b1 idx) h k1)) idx); [done|]. simpl. lia. }
  eapply wp_mono.
  { apply wp_set_owners; [simpl; congruence|lia|]. intros p Hp. simpl.
    destruct Hrep as (B & HC & _). destruct (c_meta _ _ _ HC p) as (m & Hm & _); [lia|eauto]. }
  intros [] k3 (bm & -> & Hbm).
  destruct (score_new k1 _ G a c idx h bm Hk1 Hc Hu HAi Hclr Hok Hbm) as [Hnone Hk3].
  wp_auto. eapply wp_mono; [by apply (wp_run_ctors _ a c)|].
  intros [] k4 ->. wp_auto. right. exists idx. rewrite <-Ep. split; [done|]. split; [congruence|].
  split; [done|]. split; [done|]. split; [by apply score_trace|]. split; [|done].
  split; try done. intros j o x Hj Hx. simpl. rewrite lookup_insert_ne; [by apply (Fm j o)|].
  intros <-. assert (idx ≠ j) by congruence.
  assert (<[idx:=slab_order c]> A !! j = Some o) as Hj' by (by rewrite lookup_insert_ne).
  destruct (buddy_rep_apart _ _ idx j _ _ Hrep HAi Hj') as [Hd|Hd]; [done| |];
    unfold paddr, BLOCK_SIZE in *; lia.
Qed.

(** * What a call on cache [a] leaves alone *)

Record kframe (A : gmap Z Z) (G : gmap Z sinfo) (a : Z) (k k' : kstate) : Prop := {
  kf_other : ∀ x, x ≠ a → caches k' !! x = caches k !! x;
  kf_body : ∀ x, body <$> caches k' !! x = body <$> caches k !! x;
  kf_pool : cache_pool k' = cache_pool k;
  kf_llock : cache_list_lock k' = cache_list_lock k;
  kf_plock : cache_pool_lock k' = cache_pool_lock k;
  kf_head : head_of_cache_list k' = head_of_cache_list k;
  kf_tail : tail_of_cache_list k' = tail_of_cache_list k;
  kf_kmalloc : kmalloc_caches k' = kmalloc_caches k;
  kf_start : managed_start (bud k') = managed_start (bud k);
  kf_num : managed_num_blocks (bud k') = managed_num_blocks (bud k);
  kf_block : buddy_lock (bud k') = buddy_lock (bud k);
  kf_mem : ∀ j o x, A !! j = Some o → paddr (bud k) j ≤ x < paddr (bud k) (j + 2 ^ o) →
    x ∉ dom G → mem (bud k') !! x = mem (bud k) !! x }.

Lemma grown_kframe A G a k k' : grown A k k' → kframe A G a k k'.
Proof. intros []. split; try congruence; eauto. Qed.

Lemma evolved_kframe A G a k k' : evolved (dom G) a k k' → kframe A G a k k'.
Proof.
  intros (m & c & c' & Hc & Hb & HX & ->). split; try done.
  - intros x Hx. simpl. by rewrite lookup_insert_ne.
  - intros x. simpl. destruct (decide (x = a)) as [->|]; [|by rewrite lookup_insert_ne].
    rewrite lookup_insert_eq, Hc. simpl. by rewrite Hb.
  - intros j o x _ _ Hx. by apply HX.
Qed.

Lemma kframe_trans A A' G G' a k1 k2 k3 :
  kframe A G a k1 k2 → kframe A' G' a k2 k3 →
  (∀ j o, A !! j = Some o → A' !! j = Some o) →
  (∀ j o x, A !! j = Some o → paddr (bud k1) j ≤ x < paddr (bud k1) (j + 2 ^ o) →
     x ∉ dom G → x ∉ dom G') →
  kframe A G a k1 k3.
Proof.
  intros [] [] HA HG. split; try congruence.
  - intros x Hx. rewrite kf_other1, kf_other0; done.
  - intros j o x Hj Hx Hn. rewrite (kf_mem1 j o); [by eapply kf_mem0|by apply HA| |by eapply HG].
    unfold paddr in *. by rewrite kf_start0.
Qed.

Lemma body_links c c' : body c' = body c →
  c_next c' = c_next c ∧ c_prev c' = c_prev c ∧ is_used c' = is_used c ∧
  destroying c' = destroying c ∧ objs_per_slab c' = objs_per_slab c ∧
  object_size c' = object_size c ∧ obj_offset c' = obj_offset c ∧ slab_order c' = slab_order c.
Proof. by intros [=]. Qed.

Lemma kframe_cache A G a k k' x c' :
  kframe A G a k k' → caches k' !! x = Some c' →
  ∃ c, caches k !! x = Some c ∧ body c' = body c.
Proof.
  intros F Hc'. pose proof (kf_body _ _ _ _ _ F x) as E. rewrite Hc' in E.
  destruct (caches k !! x) as [c|]; [|done]. apply (inj Some) in E. eauto.
Qed.

Lemma kframe_cache_fwd A G a k k' x c :
  kframe A G a k k' → caches k !! x = Some c →
  ∃ c', caches k' !! x = Some c' ∧ body c' = body c.
Proof.
  intros F Hc. pose proof (kf_body _ _ _ _ _ F x) as E. rewrite Hc in E.
  destruct (caches k' !! x) as [c'|]; [|done]. apply (inj Some) in E. eauto.
Qed.

Lemma clist_kframe A G a k k' C : kframe A G a k k' → clist_ok k C → clist_ok k' C.
Proof.
  intros F [Hd Hn Hu Ht]. split.
  - rewrite (kf_head _ _ _ _ _ F). eapply dl_ext; [|exact Hd]. intros x Hx. unfold cache_links.
    pose proof (kf_body _ _ _ _ _ F x) as E.
    destruct (caches k' !! x) as [c'|], (caches k !! x) as [c|]; try done.
    apply (inj Some) in E. simpl. by destruct (body_links c c' E) as (-> & -> & _).
  - done.
  - intros x. rewrite Hu. split; intros (c & Hc & Huc).
    + destruct (kframe_cache_fwd _ _ _ _ _ _ _ F Hc) as (c' & Hc' & (_ & _ & E & _)%body_links).
      exists c'. split; [done|congruence].
    + destruct (kframe_cache _ _ _ _ _ _ _ F Hc) as (c' & Hc' & (_ & _ & E & _)%body_links).
      exists c'. split; [done|congruence].
  - by rewrite (kf_tail _ _ _ _ _ F).
Qed.

(** Putting the invariant together again at the end of a call. *)
Lemma slab_rep_intro k k' A A' G0 G G' C a e :
  slab_rep k A G C → kframe A G0 a k k' → score k' A' G' → released k' a e →
  (∀ s i c, G' !! s = Some i → caches k' !! si_cache i = Some c → G' !! s ≠ G !! s →
     settled_at (objs_per_slab c) i) →
  slab_rep k' A' G' C.
Proof.
  intros [Hk Hcl Hset Hul Hal] F Hk' (c & Hc & Hl & _) Hnew.
  split; [done|by eapply clist_kframe| | |].
  - intros s i c' Hi Hc'. destruct (decide (G' !! s = G !! s)) as [E|Hne]; [|by eapply Hnew].
    rewrite E in Hi.
    destruct (kframe_cache _ _ _ _ _ _ _ F Hc') as (c0 & Hc0 & (_ & _ & _ & _ & -> & _)%body_links).
    by eapply Hset.
  - destruct Hul as [U1 U2 U3 U4]. split.
    + by rewrite (kf_block _ _ _ _ _ F).
    + intros x cx Hx. destruct (decide (x = a)) as [->|]; [congruence|].
      rewrite (kf_other _ _ _ _ _ F) in Hx by done. by eapply U2.
    + by rewrite (kf_llock _ _ _ _ _ F).
    + by rewrite (kf_plock _ _ _ _ _ F).
  - intros x cx Hx Hux.
    destruct (kframe_cache _ _ _ _ _ _ _ F Hx) as (c0 & Hc0 & (_ & _ & E & -> & _)%body_links).
    eapply Hal; [done|congruence].
Qed.

(** * kmem_cache_alloc *)

Lemma settled_taken k A G c s i j l :
  score k A G → G !! s = Some i → caches k !! si_cache i = Some c → si_free i = j :: l →
  settled_at (objs_per_slab c) (taken i l).
Proof.
  intros Hk Hs Hc Hfree.
  destruct (slab_info k A G s i c Hk Hs Hc) as (idx & h & _ & _ & Hu & _ & _ & Hok).
  pose proof (NoDup_range_length (j :: l) (objs_per_slab c)) as Hlen. rewrite <-Hfree in Hlen.
  pose proof (g_objs _ (kc_geom _ _ _ Hk _ _ Hc Hu)).
  specialize (Hlen ltac:(lia) (h_nodup _ _ _ Hok) (h_range _ _ _ Hok)). rewrite Hfree in Hlen.
  destruct l; simpl in *; [done|]. unfold settled_at. simpl. lia.
Qed.

(** The result of a successful allocation: the first free object [j] of a
    slab [s] of the cache, an existing one or one just added. *)
Definition alloc_ok (k : kstate) (A : gmap Z Z) (G : gmap Z sinfo) (C : list Z) (a : Z)
    (c : kmem_cache_t) (r : Z) (k' : kstate) : Prop :=
  ∃ A' s i j l, r = slab_obj_ptr c s j ∧ r ≠ NULL ∧ si_cache i = a ∧ si_free i = j :: l ∧
    ((A' = A ∧ G !! s = Some i ∧ trace k' = trace k) ∨
     (∃ idx, s = paddr (bud k) idx ∧ A !! idx = None ∧ G !! s = None ∧
        A' = <[idx:=slab_order c]> A ∧ i = fresh a c ∧ partial c = NULL ∧ empty c = NULL ∧
        trace k' = trace k ++ ctor_events c s)) ∧
    slab_rep k' A' (<[s:=taken i l]> G) C ∧ kframe A G a k k'.

Lemma evolved_trace X a k k' : evolved X a k k' → trace k' = trace k.
Proof. by intros (m & c & c' & _ & _ & _ & ->). Qed.

Lemma took_ok k A G C a c obj k' :
  slab_rep k A G C → caches k !! a = Some c → took k A G a c obj k' → alloc_ok k A G C a c obj k'.
Proof.
  intros Hrep Hc (s & i & j & l & Hs & Hia & Hfree & -> & Hnn & Hk' & He & Hr).
  pose proof (evolved_kframe A G a k k' He) as F.
  exists A, s, i, j, l. split; [done|]. split; [done|]. split; [done|]. split; [done|]. split.
  { left. split; [done|]. split; [done|]. by eapply evolved_trace. }
  split; [|done]. eapply slab_rep_intro; [done|done|done|done|].
  intros x ix cx Hx Hcx Hne. destruct (decide (x = s)) as [->|];
    [|by rewrite lookup_insert_ne in Hne].
  rewrite lookup_insert_eq in Hx. injection Hx as <-. simpl in Hcx. rewrite Hia in Hcx.
  destruct (kframe_cache _ _ _ _ _ _ _ F Hcx) as (c0 & Hc0 & (_ & _ & _ & _ & -> & _)%body_links).
  rewrite Hc in Hc0. injection Hc0 as <-. subst a.
  by eapply (settled_taken k A G c s i j l); [apply Hrep|..].
Qed.

Lemma wp_alloc_attach k A G a c s :
  score k A G → caches k !! a = Some c → is_used c = true → c_lock c = false →
  destroying c = false → G !! s = Some (fresh a c) →
  wp (alloc_attach a s) (took_at k A G a c s (fresh a c)) k.
Proof.
  intros Hk Hc Hu Hl Hd Hs. unfold alloc_attach. wp_auto.
  apply (wp_acquire_cache _ _ c); [done..|]. set (k1 := upd_cache a (with_lock true c) k).
  set (c1 := with_lock true c).
  assert (caches k1 !! a = Some c1) as Hc1 by apply lookup_insert_eq.
  assert (score k1 A G) as Hk1 by (by eapply score_cache).
  wp_auto. apply (wp_read_cache _ _ c1); [done|]. change (destroying c1) with (destroying c).
  rewrite Hd. wp_auto. eapply wp_mono.
  { eapply (wp_slab_list_push_front k1 A G a s c1 (fresh a c)); done. }
  intros [] k2 (Hr2 & m & _ & Hk2).
  destruct (relinked_at _ _ _ _ _ Hr2 Hc1) as (c2 & Hc2 & El & Ee & En & Eo & Esz & Eor & Eu).
  pose proof (g_objs _ (kc_geom _ _ _ Hk _ _ Hc Hu)) as Hn.
  eapply (wp_take k k2 A G a c c2 s (fresh a c) 0 (seqZ 1 (objs_per_slab c - 1))); try done.
  - simpl. rewrite seqZ_cons by lia. by rewrite <-Z.sub_1_r.
  - eapply evolved_trans; [|by apply relinked_evolved]. by eapply evolved_cache.
  - unfold slab_obj_ptr. by rewrite Eo, Esz.
Qed.

Lemma wp_kmem_cache_alloc k A G C a c :
  slab_rep k A G C → caches k !! a = Some c → is_used c = true → a ≠ NULL →
  wp (kmem_cache_alloc a) (λ r k',
    (r = NULL ∧ partial c = NULL ∧ empty c = NULL ∧
     k' = upd_cache a (with_error KMEM_ERR_BUDDY_OOM c) k) ∨
    alloc_ok k A G C a c r k') k.
Proof.
  intros Hrep Hc Hu Ha0. pose proof Hrep as [Hk Hcl Hset Hul Hal].
  pose proof (ul_cache _ Hul _ _ Hc) as Hl. pose proof (Hal _ _ Hc Hu) as Hd.
  unfold kmem_cache_alloc. rewrite (proj2 (Z.eqb_neq _ _)) by done. wp_auto.
  eapply wp_mono; [by apply (wp_alloc_fast k A G a c)|].
  intros [[]|obj] k1.
  2:{ intros [(? & _)|[_ Htook]]; [congruence|]. wp_auto. right. by apply took_ok. }
  intros (-> & _ & Ep & Ee). wp_auto.
  eapply wp_mono; [apply (wp_alloc_grow k A G a c); try done; apply Hul|].
  intros base k2 [(-> & ->)|(idx & -> & Hnn & HA & HG & Hk2 & Hgr & Htr)].
  { cbn. wp_auto. by left. }
  rewrite (proj2 (Z.eqb_neq _ _)) by done. set (s := paddr (bud k) idx) in *.
  assert (caches k2 !! a = Some c) as Hc2 by (by rewrite (gr_caches _ _ _ Hgr)).
  eapply wp_mono.
  { eapply (wp_alloc_attach k2 _ _ a c s); try done. apply lookup_insert_eq. }
  intros obj k3 (j & l & _ & Hia & Hfree & -> & Hobj & Hk3 & He & Hr). right.
  rewrite insert_insert_eq in Hk3.
  assert (kframe A G a k k3) as F.
  { eapply (kframe_trans A (<[idx:=slab_order c]> A)); [by apply grown_kframe|by apply evolved_kframe| |].
    - intros x o Hx. rewrite lookup_insert_ne; [done|congruence].
    - intros x o y Hx Hy Hny. rewrite dom_insert_L. apply not_elem_of_union. split; [|done].
      intros ->%elem_of_singleton.
      assert (idx ≠ x) by congruence.
      assert (<[idx:=slab_order c]> A !! x = Some o) as Hx' by (by rewrite lookup_insert_ne).
      pose proof (kc_buddy _ _ _ Hk2) as Hb2.
      destruct (buddy_rep_apart _ _ idx x _ _ Hb2 (lookup_insert_eq _ _ _) Hx') as [H1|H1]; [done| |];
        unfold s, paddr, BLOCK_SIZE in Hy; pose proof (pow2_pos (slab_order c)); lia. }
  exists (<[idx:=slab_order c]> A), s, (fresh a c), j, l.
  split; [done|]. split; [done|]. split; [done|]. split; [done|]. split.
  { right. exists idx. split_and!; try done. by rewrite (evolved_trace _ _ _ _ He). }
  split; [|done]. eapply slab_rep_intro; [done|done|done|done|].
  intros x ix cx Hx Hcx Hne. destruct (decide (x = s)) as [->|];
    [|by rewrite lookup_insert_ne in Hne].
  rewrite lookup_insert_eq in Hx. injection Hx as <-. simpl in Hcx.
  destruct (kframe_cache _ _ _ _ _ _ _ F Hcx) as (c0 & Hc0 & (_ & _ & _ & _ & -> & _)%body_links).
  rewrite Hc in Hc0. injection Hc0 as <-.
  by eapply (settled_taken k2 _ _ c s (fresh a c) j l); [exact Hk2|apply lookup_insert_eq|..].
Qed.
