(* ===== verification/SlabFree.v ===== *)
(** [kmem_cache_free] and [k_free] against the invariant of SlabInv.v. *)

From S2P Require Import Prelude.
From S2P Require Import Buddy.
From S2P Require Import BuddyInv.
From S2P Require Import BuddySpec.
From S2P Require Import BuddyProps.
From S2P Require Import Slab.
From S2P Require Import SlabInv.
From S2P Require Import SlabLists.
From S2P Require Import SlabSpec.
From S2P Require Import SlabAlloc.

(** * Finding the slab of an object *)

Lemma page_align_down_eq p : 0 ≤ p < 2 ^ 64 → page_align_down p = p - p mod BLOCK_SIZE.
Proof.
  intros Hp. unfold page_align_down, BLOCK_SIZE. destruct (Z.eqb_spec p NULL) as [->|_]; [done|].
  change (u64 (Z.lnot (4096 - 1))) with (Z.shiftl (Z.ones 52) 12).
  assert (p - p mod 4096 = Z.shiftl (Z.shiftr p 12) 12) as ->.
  { rewrite Z.shiftl_mul_pow2, Z.shiftr_div_pow2 by lia. change (2 ^ 12) with 4096.
    pose proof (Z.div_mod p 4096). lia. }
  apply Z.bits_inj'. intros n Hn. rewrite Z.land_spec, !Z.shiftl_spec by done.
  destruct (Z.ltb_spec n 12) as [Hlt|Hge].
  { rewrite !(Z.testbit_neg_r _ (n - 12)) by lia. apply andb_false_r. }
  rewrite Z.shiftr_spec by lia. replace (n - 12 + 12) with n by lia.
  destruct (Z.ltb_spec n 64) as [H64|H64].
  - rewrite Z.ones_spec_low by lia. apply andb_true_r.
  - assert (Z.testbit p n = false) as ->; [|done].
    destruct (Z.eq_dec p 0) as [->|]; [apply Z.bits_0|]. apply Z.bits_above_log2; [lia|].
    assert (Z.log2 p < 64) by (apply Z.log2_lt_pow2; lia). lia.
Qed.

(** The slab that owns the page at address [x], [NULL] when there is none. *)
Definition owner_at (b : bstate) (x : Z) : Z :=
  let idx := addr_to_index b x in
  if idx >=? 0 then default NULL (owner_slab <$> block_meta b !! idx) else NULL.

Lemma addr_to_index_meta b A x :
  buddy_rep b A → 0 ≤ addr_to_index b x → ∃ m, block_meta b !! addr_to_index b x = Some m ∧
    0 ≤ addr_to_index b x < managed_num_blocks b.
Proof.
  intros (B & HC & _) Hx. assert (addr_to_index b x < managed_num_blocks b) as Hlt.
  { revert Hx. unfold addr_to_index. cbv zeta.
    destruct (x <? managed_start b); [lia|].
    destruct (u64 (x - managed_start b) mod BLOCK_SIZE =? 0); simpl; [|lia].
    destruct (Z.ltb_spec (s32 (u64 (x - managed_start b) / BLOCK_SIZE)) 0); simpl; [lia|].
    rewrite Z.geb_leb. destruct (Z.leb_spec (managed_num_blocks b)
      (s32 (u64 (x - managed_start b) / BLOCK_SIZE))); lia. }
  destruct (c_meta _ _ _ HC (addr_to_index b x)) as (m & Hm & _); [lia|]. eauto.
Qed.

Lemma wp_owner_of_page k A x :
  buddy_rep (bud k) A → buddy_lock (bud k) = false →
  wp (owner_of_page x) (λ s k', s = owner_at (bud k) x ∧ k' = k) k.
Proof.
  intros Hrep Hl. unfold owner_of_page, on_bud. wp_auto. apply wp_acquire_buddy; [done|]. wp_auto.
  cbv zeta. change (addr_to_index (set_buddy_lock true (bud k)) x) with (addr_to_index (bud k) x).
  unfold owner_at. rewrite Z.geb_leb. destruct (Z.leb_spec 0 (addr_to_index (bud k) x)) as [H|H].
  - destruct (addr_to_index_meta _ _ _ Hrep H) as (m & Hm & _). wp_auto.
    apply (wp_read_meta _ _ m); [done|]. wp_auto. apply wp_release_buddy; [done|]. wp_auto.
    rewrite lock_cycle, Hm by done. split; [done|]. by destruct k.
  - wp_auto. apply wp_release_buddy; [done|]. wp_auto. rewrite lock_cycle by done.
    split; [done|]. by destruct k.
Qed.

(** A non-null owner is a slab of the ghost map that covers the page. *)
Lemma owner_at_slab k A G x s :
  score k A G → owner_at (bud k) x = s → s ≠ NULL →
  ∃ i, G !! s = Some i ∧ covers (bud k) s i (addr_to_index (bud k) x).
Proof.
  intros Hk. unfold owner_at. rewrite Z.geb_leb. destruct (Z.leb_spec 0 (addr_to_index (bud k) x)) as [H|H].
  - destruct (addr_to_index_meta _ _ _ (kc_buddy _ _ _ Hk) H) as (m & Hm & Hr). rewrite Hm. simpl.
    intros Hs Hn. by apply (kc_owner _ _ _ Hk _ m Hr Hm).
  - congruence.
Qed.

(** The page of an object belongs to the object's slab. *)
Lemma owner_at_object k A G s i c j :
  score k A G → G !! s = Some i → caches k !! si_cache i = Some c → 0 ≤ j < objs_per_slab c →
  owner_at (bud k) (page_align_down (slab_obj_ptr c s j)) = s ∧
  slab_obj_ptr c s j ≠ NULL.
Proof.
  intros Hk Hs Hc Hj. destruct (slab_info k A G s i c Hk Hs Hc) as (idx & h & Es & HA & Hu & Ho & _).
  destruct (slab_geom k A G s i c Hk Hs Hc) as (Hg & Hs0 & Htop).
  pose proof (slab_obj_ptr_inside c s Hg Hs0 Htop j Hj) as [Hlo Hhi].
  pose proof (g_size _ Hg) as Hsz. unfold sizeof_ptr in Hsz.
  set (p := slab_obj_ptr c s j) in *. split; [|unfold NULL; lia].
  rewrite page_align_down_eq by lia.
  pose proof (kc_align _ _ _ Hk) as Hal. set (st := managed_start (bud k)) in *.
  set (q := (p - st) / BLOCK_SIZE).
  assert (p - p mod BLOCK_SIZE = paddr (bud k) q) as ->.
  { unfold paddr, q. fold st. unfold BLOCK_SIZE in *.
    pose proof (Z.div_mod (p - st) 4096). assert ((p - st) mod 4096 = p mod 4096); [|lia].
    rewrite Zminus_mod, Hal, Z.sub_0_r. apply Z.mod_mod. lia. }
  assert (idx ≤ q < idx + 2 ^ si_order i) as Hq.
  { rewrite Es in Hlo, Hhi. unfold paddr in Hlo, Hhi. fold st in Hlo, Hhi. unfold q, BLOCK_SIZE in *.
    rewrite <-Ho. split; [apply Z.div_le_lower_bound; lia|apply Z.div_lt_upper_bound; lia]. }
  assert (covers (bud k) s i q) as Hcov by (by exists idx).
  destruct (slab_page_owner _ _ _ _ _ _ Hk Hs Hcov) as (m & Hm & Hown & Hqn).
  unfold owner_at. rewrite addr_to_index_paddr; [|eapply buddy_rep_region, Hk|done].
  rewrite Z.geb_leb, (proj2 (Z.leb_le _ _)) by lia. by rewrite Hm.
Qed.

(** * kmem_cache_free *)

(** The slab after object [j] has been put back. *)
Definition returned (n : Z) (i : sinfo) (j : Z) : sinfo :=
  SInfo (si_cache i) (si_order i)
    (Some (if decide (zlen (j :: si_free i) = n) then LEmpty else LPartial)) (j :: si_free i).

Section Free.

Context (k : kstate) (A : gmap Z Z) (G : gmap Z sinfo) (a s : Z) (i : sinfo) (c : kmem_cache_t) (j : Z).

Hypothesis Hk : score k A G.

Hypothesis Hc : caches k !! a = Some c.

Hypothesis Hs : G !! s = Some i.

Hypothesis Hia : si_cache i = a.

Hypothesis Hj : 0 ≤ j < objs_per_slab c.

Hypothesis Hjf : j ∉ si_free i.

Lemma free_length : zlen (j :: si_free i) ≤ objs_per_slab c.
Proof.
  assert (caches k !! si_cache i = Some c) as Hc' by congruence.
  destruct (slab_info k A G s i c Hk Hs Hc') as (idx & h & _ & _ & _ & _ & _ & Hok).
  apply NoDup_range_length; [lia|apply NoDup_cons; split; [done|apply Hok]|].
  intros q [->|Hq]%elem_of_cons; [done|]. by apply (h_range _ _ _ Hok).
Qed.

(** The list moves after the object is back: first [LFull] to [LPartial] when
    the slab was full, then to [LEmpty] when it has no object in use. *)
Lemma wp_resettle k1 i1 c1 :
  score k1 A (<[s:=i1]> G) → caches k1 !! a = Some c1 → si_cache i1 = a →
  si_free i1 = j :: si_free i → si_order i1 = si_order i →
  objs_per_slab c1 = objs_per_slab c → si_where i1 = Some LPartial →
  wp (h ← read_slab s;
      (if inuse h =? 0 then
         _ ← slab_list_remove_node a LPartial s; slab_list_push_front a LEmpty s
       else mret tt))
    (λ _ k2, score k2 A (<[s:=returned (objs_per_slab c) i j]> G) ∧
       (k2 = k1 ∨ relinked (dom G) a k1 k2)) k1.
Proof.
  intros Hk1 Hc1 Hi1 Hf1 Ho1 Hn1 Hw1.
  assert (caches k1 !! si_cache i1 = Some c1) as Hc1' by congruence.
  destruct (slab_info k1 A _ s i1 c1 Hk1 (lookup_insert_eq _ _ _) Hc1')
    as (idx & h & _ & _ & _ & _ & Hh & Hok).
  wp_auto. apply (wp_read_slab _ _ h); [done|].
  rewrite (h_inuse _ _ _ Hok), Hf1, Hn1. unfold returned.
  destruct (decide (zlen (j :: si_free i) = objs_per_slab c)) as [E|E].
  - rewrite (proj2 (Z.eqb_eq _ _)) by lia. eapply wp_mono.
    { eapply (wp_move k1 A _ a c1 s i1 LPartial LEmpty); try done. apply lookup_insert_eq. }
    intros [] k2 [Hk2 Hr2]. rewrite insert_insert_eq in Hk2.
    rewrite (dom_same G s i) in Hr2 by done. split; [|by right].
    unfold set_where in Hk2. by rewrite Hf1, Ho1, Hi1, <-Hia in Hk2.
  - rewrite (proj2 (Z.eqb_neq _ _)) by lia. wp_auto. split; [|by left].
    replace (SInfo _ _ _ _) with i1; [done|]. destruct i1. simpl in *. by subst.
Qed.

Hypothesis Hset : settled_at (objs_per_slab c) i.

Hypothesis Hl : c_lock c = false.

Hypothesis Hd : destroying c = false.

Lemma wp_unfull k2 c1 :
  score k2 A (<[s:=set_free (j :: si_free i) i]> G) → caches k2 !! a = Some c1 →
  wp (if objs_per_slab c - zlen (si_free i) =? objs_per_slab c then
        _ ← slab_list_remove_node a LFull s; slab_list_push_front a LPartial s
      else mret tt)
    (λ _ k3, score k3 A (<[s:=set_where (Some LPartial) (set_free (j :: si_free i) i)]> G) ∧
       (k3 = k2 ∨ relinked (dom G) a k2 k3)) k2.
Proof.
  intros Hk2 Hc1. pose proof free_length as Hlen. rewrite length_cons, Nat2Z.inj_succ in Hlen.
  destruct (Z.eqb_spec (objs_per_slab c - zlen (si_free i)) (objs_per_slab c)) as [E|E].
  - assert (si_free i = []) as Hnil by (destruct (si_free i); [done|simpl in E; lia]).
    assert (si_where i = Some LFull) as Hw.
    { unfold settled_at in Hset. rewrite Hnil in Hset. destruct (si_where i) as [[]|]; simpl in *;
        [done|lia|lia|done]. }
    eapply wp_mono.
    { eapply (wp_move k2 A _ a c1 s (set_free (j :: si_free i) i) LFull LPartial); try done.
      apply lookup_insert_eq. }
    intros [] k3 [Hk3 Hr3]. rewrite insert_insert_eq in Hk3.
    rewrite (dom_same G s i) in Hr3 by done. split; [done|by right].
  - wp_auto. split; [|by left].
    assert (si_where i = Some LPartial) as Hw.
    { unfold settled_at in Hset. destruct (si_where i) as [[]|]; simpl in *; [|done|lia|done].
      rewrite Hset in E. simpl in E. lia. }
    unfold set_where. simpl. by rewrite <-Hw.
Qed.

Lemma wp_free_locked :
  wp (free_locked a s (slab_obj_ptr c s j)) (λ _ k',
    score k' A (<[s:=returned (objs_per_slab c) i j]> G) ∧ evolved (dom G) a k k' ∧
    released k' a (error_code c)) k.
Proof.
  pose proof free_length as Hlen. rewrite length_cons, Nat2Z.inj_succ in Hlen.
  unfold free_locked. wp_auto. apply (wp_acquire_cache _ _ c); [done..|].
  set (k1 := upd_cache a (with_lock true c) k). set (c1 := with_lock true c).
  assert (caches k1 !! a = Some c1) as Hc1 by apply lookup_insert_eq.
  assert (score k1 A G) as Hk1 by (by eapply score_cache).
  assert (evolved (dom G) a k k1) as He1 by (by eapply evolved_cache).
  wp_auto. apply (wp_read_cache _ _ c1); [done|]. change (destroying c1) with (destroying c).
  rewrite Hd. wp_auto.
  assert (caches k1 !! si_cache i = Some c1) as Hc1' by congruence.
  destruct (slab_info k1 A G s i c1 Hk1 Hs Hc1') as (idx & h & _ & _ & _ & _ & Hh & Hok).
  apply (wp_read_slab _ _ h); [done|].
  rewrite (h_cache _ _ _ Hok), Hia, Z.eqb_refl. cbn [negb].
  rewrite (h_inuse _ _ _ Hok). change (objs_per_slab c1) with (objs_per_slab c).
  rewrite (proj2 (Z.eqb_neq _ _)) by lia. cbv zeta. wp_auto.
  eapply wp_mono; [apply (wp_slab_free_obj k1 A G s i c1 Hk1 Hs Hc1' j Hj Hjf)|].
  intros [] k2 ((h2 & -> & Hin2) & Hk2). set (k2 := upd_hdr s h2 k1) in *.
  assert (s ∈ dom G) as Hsd by (apply elem_of_dom; eauto).
  assert (evolved (dom G) a k k2) as He2.
  { eapply evolved_trans; [done|]. by eapply evolved_hdr. }
  wp_auto. eapply wp_mono; [by apply (wp_unfull k2 c1)|].
  intros [] k3 [Hk3 Hr3]. wp_auto.
  assert (∃ c3, caches k3 !! a = Some c3 ∧ c_lock c3 = true ∧ error_code c3 = error_code c ∧
    objs_per_slab c3 = objs_per_slab c) as (c3 & Hc3 & Hl3 & Ee3 & En3).
  { destruct Hr3 as [->|Hr3]; [by exists c1|].
    destruct (relinked_at _ _ _ _ c1 Hr3 Hc1) as (c3 & ? & ? & ? & ? & _). by exists c3. }
  apply wp_bind_inv, wp_bind_group, wp_bind. eapply wp_mono.
  { by eapply (wp_resettle k3 (set_where (Some LPartial) (set_free (j :: si_free i) i)) c3). }
  intros [] k4 [Hk4 Hr4].
  assert (evolved (dom G) a k k4 ∧ ∃ c4, caches k4 !! a = Some c4 ∧ c_lock c4 = true ∧
    error_code c4 = error_code c) as (He4 & c4 & Hc4 & Hl4 & Ee4).
  { assert (evolved (dom G) a k k3) as He3.
    { destruct Hr3 as [->|Hr3]; [done|]. by eapply evolved_trans, relinked_evolved. }
    destruct Hr4 as [->|Hr4]; [eauto|]. split; [by eapply evolved_trans, relinked_evolved|].
    destruct (relinked_at _ _ _ _ c3 Hr4 Hc3) as (c4 & ? & ? & ? & _). exists c4.
    split; [done|]. split; congruence. }
  eapply wp_mono; [by eapply (wp_release k k4 A _ (dom G) a c4)|].
  intros [] k5 (? & ? & ?). by rewrite <-Ee4.
Qed.

End Free.

Lemma settled_returned n i j :
  zlen (j :: si_free i) ≤ n → settled_at n (returned n i j).
Proof. unfold settled_at, returned. simpl. intros. case_decide; [done|]. lia. Qed.

(** Object [j] of slab [s] of the cache at [a] is allocated. *)
Definition allocated (k : kstate) (G : gmap Z sinfo) (a s : Z) (i : sinfo) (c : kmem_cache_t)
    (j : Z) : Prop :=
  G !! s = Some i ∧ si_cache i = a ∧ caches k !! a = Some c ∧ 0 ≤ j < objs_per_slab c ∧
  j ∉ si_free i.

Lemma slab_used k A G s i c :
  score k A G → G !! s = Some i → caches k !! si_cache i = Some c → is_used c = true.
Proof. intros Hk Hs Hc. by destruct (slab_info k A G s i c Hk Hs Hc) as (? & ? & ? & ? & ? & ?). Qed.

Lemma wp_kmem_cache_free k A G C a s i c j :
  slab_rep k A G C → a ≠ NULL → allocated k G a s i c j →
  wp (kmem_cache_free a (slab_obj_ptr c s j)) (λ _ k',
    slab_rep k' A (<[s:=returned (objs_per_slab c) i j]> G) C ∧ kframe A G a k k') k.
Proof.
  intros Hrep Ha0 (Hs & Hia & Hc & Hj & Hjf). pose proof Hrep as [Hk Hcl Hset Hul Hal].
  assert (caches k !! si_cache i = Some c) as Hc' by congruence.
  pose proof (slab_used _ _ _ _ _ _ Hk Hs Hc') as Hu.
  destruct (owner_at_object k A G s i c j Hk Hs Hc' Hj) as [Hown Hnn].
  unfold kmem_cache_free. rewrite !(proj2 (Z.eqb_neq _ _)) by done. cbn [orb]. wp_auto.
  eapply wp_mono; [apply (wp_owner_of_page k A); [apply Hk|apply Hul]|].
  intros r k1 [-> ->]. rewrite Hown, (proj2 (Z.eqb_neq _ _)) by (by eapply slab_nonnull).
  eapply wp_mono.
  { apply (wp_free_locked k A G a s i c j); try done.
    - by apply (Hset s).
    - by apply (ul_cache _ Hul a).
    - by apply (Hal a). }
  intros [] k2 (Hk2 & He2 & Hr2). pose proof (evolved_kframe A G a k k2 He2) as F.
  split; [|done]. eapply slab_rep_intro; [done|done|done|done|].
  intros x ix cx Hx Hcx Hne. destruct (decide (x = s)) as [->|];
    [|by rewrite lookup_insert_ne in Hne].
  rewrite lookup_insert_eq in Hx. injection Hx as <-. simpl in Hcx. rewrite Hia in Hcx.
  destruct (kframe_cache _ _ _ _ _ _ _ F Hcx) as (c0 & Hc0 & (_ & _ & _ & _ & -> & _)%body_links).
  rewrite Hc in Hc0. injection Hc0 as <-. apply settled_returned.
  by eapply (free_length k A G a s i c j).
Qed.

(** ** The error paths *)

Lemma wp_fail_locked k a c e (Q : unit → kstate → Prop) :
  caches k !! a = Some c → c_lock c = false → Q tt (upd_cache a (with_error e c) k) →
  wp (fail_locked a e) Q (upd_cache a (with_lock true c) k).
Proof.
  intros Hc Hl HQ. unfold fail_locked. wp_auto.
  eapply wp_update_cache; [apply lookup_insert_eq|].
  eapply wp_release_cache; [apply lookup_insert_eq|done|].
  unfold upd_cache, set_caches in *. simpl in *. rewrite !insert_insert_eq.
  destruct c. simpl in *. by subst.
Qed.

(** The error a free of [objp] to cache [a] reports: the page has no slab, or
    the slab is another cache's, or no object of the slab is in use. *)
Definition free_error (k : kstate) (G : gmap Z sinfo) (a objp : Z) : option Error :=
  let s := owner_at (bud k) (page_align_down objp) in
  if decide (s = NULL) then Some KMEM_ERR_CACHE_MISMATCH
  else
    i ← G !! s;
    if decide (si_cache i ≠ a) then Some KMEM_ERR_CACHE_MISMATCH
    else
      c ← caches k !! a;
      if decide (zlen (si_free i) = objs_per_slab c) then Some KMEM_ERR_DOUBLE_FREE else None.

Lemma wp_kmem_cache_free_error k A G C a c objp e :
  slab_rep k A G C → a ≠ NULL → objp ≠ NULL → caches k !! a = Some c → is_used c = true →
  free_error k G a objp = Some e →
  wp (kmem_cache_free a objp) (λ _ k', k' = upd_cache a (with_error e c) k) k.
Proof.
  intros Hrep Ha0 Hp0 Hc Hu Herr. pose proof Hrep as [Hk Hcl Hset Hul Hal].
  pose proof (ul_cache _ Hul _ _ Hc) as Hl.
  unfold kmem_cache_free. rewrite !(proj2 (Z.eqb_neq _ _)) by done. cbn [orb]. wp_auto.
  eapply wp_mono; [apply (wp_owner_of_page k A); [apply Hk|apply Hul]|].
  intros r k1 [-> ->]. unfold free_error in Herr.
  set (s := owner_at (bud k) (page_align_down objp)) in *.
  destruct (Z.eqb_spec s NULL) as [Es|Es].
  { rewrite decide_True in Herr by done. injection Herr as <-. wp_auto.
    apply (wp_acquire_cache _ _ c); [done..|]. by apply wp_fail_locked. }
  rewrite decide_False in Herr by done.
  destruct (owner_at_slab k A G _ s Hk eq_refl Es) as (i & Hi & _). rewrite Hi in Herr. simpl in Herr.
  destruct (kc_slab _ _ _ Hk _ _ Hi) as (idx & ci & h & _ & _ & Hci & _ & _ & Hh & Hok).
  unfold free_locked. wp_auto. apply (wp_acquire_cache _ _ c); [done..|]. wp_auto.
  eapply wp_read_cache; [apply lookup_insert_eq|].
  change (destroying (with_lock true c)) with (destroying c). rewrite (Hal _ _ Hc Hu). wp_auto.
  apply (wp_read_slab _ _ h); [done|]. rewrite (h_cache _ _ _ Hok).
  destruct (Z.eqb_spec (si_cache i) a) as [Ea|Ea]; cbn [negb].
  2:{ rewrite decide_True in Herr by done. injection Herr as <-. by apply wp_fail_locked. }
  rewrite decide_False in Herr by naive_solver. rewrite Hc in Herr. simpl in Herr.
  case_decide as Hlen; [|done]. injection Herr as <-.
  rewrite Ea, Hc in Hci. injection Hci as <-.
  rewrite (h_inuse _ _ _ Hok), (proj2 (Z.eqb_eq _ _)) by lia. by apply wp_fail_locked.
Qed.

(** * k_free *)

Lemma wp_k_free_object k A G C a s i c j :
  slab_rep k A G C → a ≠ NULL → allocated k G a s i c j →
  wp (k_free (slab_obj_ptr c s j)) (λ _ k',
    slab_rep k' A (<[s:=returned (objs_per_slab c) i j]> G) C ∧ kframe A G a k k') k.
Proof.
  intros Hrep Ha0 Hall. pose proof Hall as (Hs & Hia & Hc & Hj & Hjf).
  pose proof Hrep as [Hk Hcl Hset Hul Hal].
  assert (caches k !! si_cache i = Some c) as Hc' by congruence.
  destruct (owner_at_object k A G s i c j Hk Hs Hc' Hj) as [Hown Hnn].
  unfold k_free. wp_auto. cbv zeta. revert Hown. unfold owner_at. rewrite Z.geb_leb.
  destruct (Z.leb_spec 0 (addr_to_index (bud k) (page_align_down (slab_obj_ptr c s j)))) as [H|H].
  2:{ intros E. by destruct (slab_nonnull _ _ _ Hk _ _ Hs). }
  destruct (addr_to_index_meta _ _ _ (kc_buddy _ _ _ Hk) H) as (m & Hm & _). rewrite Hm. simpl.
  intros Hown. rewrite (proj2 (Z.ltb_ge _ _)) by done. unfold on_bud. wp_auto.
  apply wp_acquire_buddy; [apply Hul|]. wp_auto. apply (wp_read_meta _ _ m); [done|]. wp_auto.
  apply wp_release_buddy; [done|]. wp_auto. rewrite lock_cycle by apply Hul.
  replace (set_bud (bud k) k) with k by (by destruct k).
  rewrite Hown, (proj2 (Z.eqb_neq _ _)) by (by eapply slab_nonnull). cbn [negb]. wp_auto.
  destruct (slab_info k A G s i c Hk Hs Hc') as (idx & h & _ & _ & _ & _ & Hh & Hok).
  apply (wp_read_slab _ _ h); [done|]. rewrite (h_cache _ _ _ Hok), Hia.
  by apply wp_kmem_cache_free.
Qed.

(** * Giving a slab back to the buddy allocator *)

Lemma score_drop k A G s i idx bm :
  score k A G → G !! s = Some i → si_where i = None → s = paddr (bud k) idx →
  A !! idx = Some (si_order i) →
  owners_set idx (2 ^ si_order i) NULL (block_meta (bud k)) bm →
  score (set_bud (set_block_meta bm (bud k)) k) A (delete s G) ∧
  pages_clear (set_block_meta bm (bud k)) idx (si_order i).
Proof.
  intros Hk Hs Hw Es HA Hbm. pose proof Hk as [Hb Ha Hp Hg Hsl Hl Ho]. split.
  - split; [|done|by destruct Hp|done| | |].
    + apply buddy_rep_owner; [done| |].
      * intros p. rewrite Hbm. case_decide; [|done]. by destruct (block_meta (bud k) !! p).
      * intros p Hne. exists idx, (si_order i). split; [done|]. rewrite Hbm in Hne. by case_decide.
    + intros x ix [Hne Hx]%lookup_delete_Some. exact (Hsl _ _ Hx).
    + intros x cx w Hcx Hux. eapply list_at_frame; [by apply (Hl x cx w)| |done].
      intros y. destruct (decide (y = s)) as [->|]; [|by rewrite lookup_delete_ne].
      rewrite lookup_delete_eq, Hs. split; [by intros (? & ? & _)|]. intros (? & [= <-] & _ & ?). congruence.
    + intros p m Hpn Hm x. simpl in Hpn, Hm. rewrite Hbm in Hm. case_decide as Hin.
      * destruct (block_meta (bud k) !! p) as [m0|] eqn:E0; [|done]. injection Hm as <-. simpl.
        split; [by intros [? <-]|]. intros (ix & [Hne Hx]%lookup_delete_Some & Hcov).
        assert (covers (bud k) s i p) as Hcs by (by exists idx).
        destruct (slab_page_owner _ _ _ _ _ _ Hk Hs Hcs) as (m1 & Hm1 & E1 & _).
        destruct (slab_page_owner _ _ _ _ _ _ Hk Hx Hcov) as (m2 & Hm2 & E2 & _). congruence.
      * rewrite (Ho p m Hpn Hm x). destruct (decide (x = s)) as [->|].
        -- rewrite lookup_delete_eq, Hs. split; [|by intros (? & ? & _)].
           intros (? & [= <-] & idx' & Ei & Hr). rewrite Es in Ei. apply paddr_inj in Ei as <-. done.
        -- by rewrite lookup_delete_ne.
  - intros p m Hp' Hm. simpl in Hm. rewrite Hbm, decide_True in Hm by done.
    destruct (block_meta (bud k) !! p); [|done]. by injection Hm as <-.
Qed.

Lemma wp_drop k A G s i c :
  score k A G → G !! s = Some i → si_where i = None → caches k !! si_cache i = Some c →
  buddy_lock (bud k) = false →
  wp (_ ← set_owners (addr_to_index (bud k) s) (slab_order c) NULL; on_bud (buddy_free s))
    (λ _ k', ∃ idx b', s = paddr (bud k) idx ∧ A !! idx = Some (si_order i) ∧
       score k' (delete idx A) (delete s G) ∧ k' = set_bud b' k ∧
       managed_start b' = managed_start (bud k) ∧
       managed_num_blocks b' = managed_num_blocks (bud k) ∧ buddy_lock b' = false ∧
       ∀ j o x, delete idx A !! j = Some o → paddr (bud k) j ≤ x < paddr (bud k) (j + 2 ^ o) →
         mem b' !! x = mem (bud k) !! x) k.
Proof.
  intros Hk Hs Hw Hc Hl. destruct (slab_info k A G s i c Hk Hs Hc) as (idx & h & Es & HA & Hu & Ho & _).
  pose proof (kc_buddy _ _ _ Hk) as Hb.
  destruct (buddy_rep_block _ _ _ _ Hb HA) as (H0 & Hord & Htop). pose proof (pow2_pos (si_order i)).
  wp_auto. rewrite Es at 1. rewrite addr_to_index_paddr; [|by eapply buddy_rep_region|lia].
  rewrite Ho. eapply wp_mono.
  { apply wp_set_owners; [done|lia|]. intros p Hp. destruct Hb as (B & HC & _).
    destruct (c_meta _ _ _ HC p) as (m & Hm & _); [lia|eauto]. }
  intros [] k1 (bm & -> & Hbm).
  destruct (score_drop k A G s i idx bm Hk Hs Hw Es HA Hbm) as [Hk1 Hclr].
  set (k1 := set_bud _ k) in *. unfold on_bud. wp_auto.
  assert (s = paddr (bud k1) idx) as Es1 by done. rewrite Es1 at 1.
  eapply wp_mono.
  { by apply (pa_free (bud k1) A idx (si_order i)); [apply Hk1|..]. }
  intros [] b2 [Hrep2 F2]. pose proof F2 as [Fs Fn Fl Fo Fm]. exists idx, b2.
  split; [done|]. split; [done|]. split; [|split_and!; [done|done|done|by rewrite Fl|exact Fm]].
  apply (score_bud k1 A); [done|done|done|done| | |done].
  - intros x ix j [Hne Hx]%lookup_delete_Some Ex HAj. rewrite lookup_delete_ne; [done|]. congruence.
  - intros x ix [Hne Hx]%lookup_delete_Some.
    destruct (kc_slab _ _ _ Hk _ _ Hx) as (j & ? & ? & Ex & HAj & _).
    pose proof (buddy_rep_block _ _ _ _ Hb HAj) as (? & ? & ?).
    pose proof (pow2_pos (si_order ix)).
    apply (Fm j (si_order ix)); [|rewrite Ex; unfold paddr, BLOCK_SIZE; simpl; lia].
    rewrite lookup_delete_ne; [done|congruence].
Qed.
