(* ===== verification/SlabCaches.v ===== *)
(** Whole caches: [kmem_cache_shrink] and the list of caches against the
    invariant of SlabInv.v. *)

From S2P Require Import Prelude.
From S2P Require Import Buddy.
From S2P Require Import BuddyInv.
From S2P Require Import BuddySpec.
From S2P Require Import BuddyProps.
From S2P Require Import Slab.
From S2P Require Import SlabInv.
From S2P Require Import SlabLists.
From S2P Require Import SlabSpec.
From S2P Require Import SlabAlloc.
From S2P Require Import SlabFree.

(** * kmem_cache_shrink *)

(** The slab side of the state between two calls. *)
Record quiet (k : kstate) (A : gmap Z Z) (G : gmap Z sinfo) : Prop := {
  q_core : score k A G;
  q_settled : settled k G;
  q_unlocked : unlocked k }.

(** A slab of cache [a] with no object in use. *)
Definition idle_slab (a : Z) (i : sinfo) : Prop := si_cache i = a ∧ si_where i = Some LEmpty.

Lemma kframe_weaken (A A' : gmap Z Z) G a k k' :
  (∀ j o, A' !! j = Some o → A !! j = Some o) → kframe A G a k k' → kframe A' G a k k'.
Proof. intros HA []. split; try done. intros j o x Hj. by apply kf_mem, HA. Qed.

Lemma kframe_unlocked A G a k k' e :
  kframe A G a k k' → released k' a e → unlocked k → unlocked k'.
Proof.
  intros F (c & Hc & Hl & _) [U1 U2 U3 U4]. split.
  - by rewrite (kf_block _ _ _ _ _ F).
  - intros x cx Hx. destruct (decide (x = a)) as [->|]; [congruence|].
    rewrite (kf_other _ _ _ _ _ F) in Hx by done. by eapply U2.
  - by rewrite (kf_llock _ _ _ _ _ F).
  - by rewrite (kf_plock _ _ _ _ _ F).
Qed.

Lemma kframe_settled (A : gmap Z Z) G0 (G G' : gmap Z sinfo) a k k' :
  kframe A G0 a k k' → settled k G → (∀ s i, G' !! s = Some i → G !! s = Some i) → settled k' G'.
Proof.
  intros F Hset Hsub s i c Hs Hc.
  destruct (kframe_cache _ _ _ _ _ _ _ F Hc) as (c0 & Hc0 & (_ & _ & _ & _ & -> & _)%body_links).
  eapply Hset; [by apply Hsub|done].
Qed.

#[export] Instance idle_slab_dec a i : Decision (idle_slab a i).
Proof. unfold idle_slab. apply _. Defined.

Definition idle_slabs (a : Z) (G : gmap Z sinfo) : gmap Z sinfo := filter (λ p, idle_slab a p.2) G.

(** Every slab has a page of its own. *)
Lemma slab_count k A G : score k A G → (size G ≤ Z.to_nat (managed_num_blocks (bud k)))%nat.
Proof.
  intros Hk. pose proof (kc_buddy _ _ _ Hk) as Hb. destruct (buddy_rep_region _ _ Hb) as [_ Hn _].
  set (pg := λ s, (s - managed_start (bud k)) / BLOCK_SIZE).
  assert (∀ s, s ∈ elements (dom G) → ∃ idx, s = paddr (bud k) idx ∧ pg s = idx ∧
    0 ≤ idx < managed_num_blocks (bud k)) as Hpg.
  { intros s [i Hi]%elem_of_elements%elem_of_dom.
    destruct (kc_slab _ _ _ Hk _ _ Hi) as (idx & ? & ? & -> & HA & _).
    destruct (buddy_rep_block _ _ _ _ Hb HA) as (H0 & Ho & Ht). pose proof (pow2_pos (si_order i)).
    exists idx. split; [done|]. split; [|lia]. unfold pg, paddr. rewrite Z.add_simpl_l.
    apply Z.div_mul. by unfold BLOCK_SIZE. }
  assert (zlen (pg <$> elements (dom G)) ≤ managed_num_blocks (bud k)) as H.
  { apply NoDup_range_length; [lia| |].
    - apply NoDup_fmap_2_strong; [|apply NoDup_elements]. intros x y Hx Hy E.
      destruct (Hpg x Hx) as (ix & -> & Ex & _), (Hpg y Hy) as (iy & -> & Ey & _). congruence.
    - intros j (s & -> & Hs)%list_elem_of_fmap. destruct (Hpg s Hs) as (? & _ & -> & ?). done. }
  rewrite length_fmap in H. change (length (elements (dom G))) with (size (dom G)) in H.
  rewrite size_dom in H. lia.
Qed.

(** The first critical section of an iteration takes an empty slab, if there
    is one, off its list. *)
Lemma wp_take_empty k A G a c :
  quiet k A G → caches k !! a = Some c → is_used c = true →
  wp (_ ← acquire_cache a; slab ← remove_from_slab_list a LEmpty; _ ← release_cache a; mret slab)
    (λ s k1,
      (s = NULL ∧ k1 = k ∧ ∀ x i, G !! x = Some i → ¬ idle_slab a i) ∨
      (∃ i, s ≠ NULL ∧ G !! s = Some i ∧ idle_slab a i ∧ score k1 A (<[s:=set_where None i]> G) ∧
         evolved (dom G) a k k1 ∧ released k1 a (error_code c))) k.
Proof.
  intros [Hk Hset Hul] Hc Hu. pose proof (ul_cache _ Hul _ _ Hc) as Hl. wp_auto.
  apply (wp_acquire_cache _ _ c); [done..|].
  set (k1 := upd_cache a (with_lock true c) k). set (c1 := with_lock true c).
  assert (caches k1 !! a = Some c1) as Hc1 by apply lookup_insert_eq.
  assert (score k1 A G) as Hk1 by (by eapply score_cache).
  wp_auto. eapply wp_mono; [by apply (wp_remove_from_slab_list k1 A G a c1 LEmpty)|].
  intros s k2 [(-> & E & ->)|(i & Hs0 & Es & Hs & Hia & Hiw & Hk2 & Hr2)]; wp_auto.
  - apply (wp_release_cache _ _ c1); [done..|]. wp_auto. left. split; [done|].
    split; [by apply lock_cycle_cache|]. intros x i Hx [Hxa Hxw].
    destruct (kc_list _ _ _ Hk a c LEmpty Hc Hu) as (l & Hdl & Hnd & Hin).
    assert (x ∈ l) as Hxl by (apply Hin; eauto). simpl in E. change (empty c1) with (empty c) in E.
    destruct l; [set_solver|]. simpl in Hdl. destruct Hdl as (E' & Hn & _). congruence.
  - destruct (relinked_at _ _ _ _ _ Hr2 Hc1) as (c2 & Hc2 & El2 & Ee2 & _).
    eapply wp_mono; [eapply (wp_release k k2 A _ (dom G) a c2); try done|].
    + eapply (evolved_trans _ _ k k1 k2); [by eapply evolved_cache|by apply relinked_evolved].
    + intros [] k3 (Hk3 & He3 & Hr3). wp_auto. right. exists i.
      split_and!; try done. change (error_code c) with (error_code c1). by rewrite <-Ee2.
Qed.

(** The state after some empty slabs of cache [a] were freed. *)
Record shrunk (a : Z) (k : kstate) (A : gmap Z Z) (G : gmap Z sinfo)
    (k' : kstate) (A' : gmap Z Z) (G' : gmap Z sinfo) : Prop := {
  sh_quiet : quiet k' A' G';
  sh_frame : kframe A' G a k k';
  sh_sub : ∀ s i, G' !! s = Some i → G !! s = Some i;
  sh_keep : ∀ s i, G !! s = Some i → ¬ idle_slab a i → G' !! s = Some i;
  sh_blocks : ∀ x o, A' !! x = Some o ↔
    A !! x = Some o ∧ (is_Some (G !! paddr (bud k) x) → is_Some (G' !! paddr (bud k) x));
  sh_error : error_code <$> caches k' !! a = error_code <$> caches k !! a;
  sh_trace : trace k' = trace k }.

Lemma shrunk_refl a k A G : quiet k A G → shrunk a k A G k A G.
Proof. intros Hq. split; try done. intros x o. naive_solver. Qed.

Lemma shrunk_step a k A G k1 A1 G1 c1 s i k2 k3 idx b3 :
  shrunk a k A G k1 A1 G1 → caches k1 !! a = Some c1 → G1 !! s = Some i → idle_slab a i →
  evolved (dom G1) a k1 k2 → released k2 a (error_code c1) →
  s = paddr (bud k2) idx → score k3 (delete idx A1) (delete s (<[s:=set_where None i]> G1)) →
  k3 = set_bud b3 k2 → managed_start b3 = managed_start (bud k2) →
  managed_num_blocks b3 = managed_num_blocks (bud k2) → buddy_lock b3 = false →
  (∀ j o x, delete idx A1 !! j = Some o → paddr (bud k2) j ≤ x < paddr (bud k2) (j + 2 ^ o) →
         mem b3 !! x = mem (bud k2) !! x) →
  shrunk a k A G k3 (delete idx A1) (delete s G1).
Proof.
  intros [Hq F Hsub Hkeep Hbl Herr Htr] Hc1 Hs Hidle He2 Hr2 Es Hk3 -> E1 E2 E3 Hmem.
  rewrite delete_insert_eq in Hk3. pose proof (evolved_kframe A1 G1 a k1 k2 He2) as F2.
  assert (kframe (delete idx A1) G1 a k2 (set_bud b3 k2)) as F3.
  { split; try done.
    - simpl. by rewrite E3, (kf_block _ _ _ _ _ F2), (ul_buddy _ (q_unlocked _ _ _ Hq)).
    - intros j o x Hj Hx _. by eapply Hmem. }
  assert (∀ j o, delete idx A1 !! j = Some o → A1 !! j = Some o) as HA.
  { by intros j o [_ ?]%lookup_delete_Some. }
  assert (kframe (delete idx A1) G1 a k1 (set_bud b3 k2)) as F13.
  { eapply (kframe_trans _ (delete idx A1) _ G1); [by eapply kframe_weaken|done|done|done]. }
  assert (kframe (delete idx A1) G a k (set_bud b3 k2)) as F03.
  { eapply (kframe_trans _ (delete idx A1) _ G1); [by eapply kframe_weaken|done|done|].
    intros j o x _ _ Hn [ix Hix]%elem_of_dom. apply Hn, elem_of_dom. exists ix. by apply Hsub. }
  split.
  - split; [done| |].
    + eapply (kframe_settled _ _ G1); [exact F13|apply Hq|]. by intros x ix [_ ?]%lookup_delete_Some.
    + eapply kframe_unlocked; [exact F13|exact Hr2|apply Hq].
  - done.
  - intros x ix [_ Hx]%lookup_delete_Some. by apply Hsub.
  - intros x ix Hx Hn. rewrite lookup_delete_ne; [by apply Hkeep|]. intros <-.
    apply Hsub in Hs. congruence.
  - intros x o. assert (paddr (bud k2) idx = paddr (bud k) idx) as Ep.
    { unfold paddr. by rewrite (kf_start _ _ _ _ _ F2), (kf_start _ _ _ _ _ F). }
    rewrite lookup_delete_Some, Hbl. destruct (decide (idx = x)) as [<-|Hne].
    + split; [naive_solver|]. intros [_ H]. exfalso.
      rewrite <-Ep, <-Es, lookup_delete_eq in H.
      destruct H as [? ?]; [|done]. exists i. by apply Hsub.
    + rewrite lookup_delete_ne; [naive_solver|]. rewrite Es, Ep. by intros ?%paddr_inj.
  - rewrite <-Herr, Hc1. destruct Hr2 as (c2 & Hc2 & _ & Ee). simpl. rewrite Hc2. simpl. by rewrite Ee.
  - simpl. by rewrite (evolved_trace _ _ _ _ He2).
Qed.

Lemma idle_slabs_delete a G s i :
  G !! s = Some i → idle_slab a i →
  size (idle_slabs a G) = S (size (idle_slabs a (delete s G))).
Proof.
  intros Hs Hi. unfold idle_slabs. rewrite map_filter_delete.
  rewrite map_size_delete_Some; [|exists i; by apply map_lookup_filter_Some].
  assert (size (filter (λ p, idle_slab a p.2) G) ≠ 0%nat); [|lia].
  apply map_size_ne_0_lookup. exists s. exists i. by apply map_lookup_filter_Some.
Qed.

Lemma wp_kmem_cache_shrink k A G a c :
  quiet k A G → caches k !! a = Some c → is_used c = true →
  wp (kmem_cache_shrink a) (λ freed k', ∃ A' G', shrunk a k A G k' A' G' ∧
    (∀ s i, G' !! s = Some i → ¬ idle_slab a i) ∧ freed = Z.of_nat (size (idle_slabs a G))) k.
Proof.
  intros Hq Hc Hu. unfold kmem_cache_shrink. wp_auto.
  apply (wp_loop (λ n freed k1, ∃ A1 G1, shrunk a k A G k1 A1 G1 ∧
    n = size (idle_slabs a G1) ∧ freed = Z.of_nat (size (idle_slabs a G)) - Z.of_nat n))
    with (n := size (idle_slabs a G)).
  - exists A, G. split; [by apply shrunk_refl|]. split; [done|lia].
  - pose proof (slab_count k A G (q_core _ _ _ Hq)). unfold list_fuel.
    assert (size (idle_slabs a G) ≤ size G)%nat by (apply map_size_filter). lia.
  - intros n freed k1 (A1 & G1 & Hsh & -> & Hfr).
    destruct (kframe_cache_fwd _ _ _ _ _ _ _ (sh_frame _ _ _ _ _ _ _ Hsh) Hc)
      as (c1 & Hc1 & (_ & _ & Eu & _)%body_links). rewrite Hu in Eu.
    apply wp_section. eapply wp_mono; [apply (wp_take_empty k1 A1 G1 a c1); [apply Hsh|done..]|].
    intros s k2 [(-> & -> & Hno)|(i & Hs0 & Hs & Hidle & Hk2 & He2 & Hr2)].
    { cbn [Z.eqb NULL]. wp_auto. exists A1, G1. split; [done|]. split; [done|].
      assert (idle_slabs a G1 = ∅) as E.
      { apply map_empty. intros x. apply map_lookup_filter_None. right. intros ix Hx. by apply (Hno x). }
      rewrite E, map_size_empty in Hfr. lia. }
    rewrite (proj2 (Z.eqb_neq _ _)) by done. wp_auto.
    pose proof Hr2 as (c2 & Hc2 & _).
    apply (wp_read_cache _ _ c2); [done|]. wp_auto. apply wp_bind_inv, wp_bind_group, wp_bind.
    eapply wp_mono.
    { eapply (wp_drop k2 A1 _ s (set_where None i) c2); [exact Hk2|apply lookup_insert_eq|done| |].
      - destruct Hidle as [Hia _]. simpl. by rewrite Hia.
      - rewrite (kf_block _ _ _ _ _ (evolved_kframe A1 G1 a k1 k2 He2)).
        apply (sh_quiet _ _ _ _ _ _ _ Hsh). }
    intros [] k3 (idx & b3 & Es & HAi & Hk3 & -> & E1 & E2 & E3 & Hmem). wp_auto.
    pose proof (idle_slabs_delete a G1 s i Hs Hidle) as Hsz.
    exists (size (idle_slabs a (delete s G1))). split; [lia|].
    exists (delete idx A1), (delete s G1). split; [|split; [done|lia]].
    by eapply (shrunk_step a k A G k1 A1 G1 c1 s i k2 _ idx b3).
Qed.

(** * The list of caches *)

Lemma wp_acquire_cache_list k (Q : unit → kstate → Prop) :
  cache_list_lock k = false → Q tt (set_cache_list_lock true k) → wp acquire_cache_list Q k.
Proof. intros Hl HQ. unfold acquire_cache_list. wp_auto. rewrite Hl. by wp_auto. Qed.

Lemma wp_release_cache_list k (Q : unit → kstate → Prop) :
  cache_list_lock k = true → Q tt (set_cache_list_lock false k) → wp release_cache_list Q k.
Proof. intros Hl HQ. unfold release_cache_list. wp_auto. rewrite Hl. by wp_auto. Qed.

Lemma wp_acquire_cache_pool k (Q : unit → kstate → Prop) :
  cache_pool_lock k = false → Q tt (set_cache_pool_lock true k) → wp acquire_cache_pool Q k.
Proof. intros Hl HQ. unfold acquire_cache_pool. wp_auto. rewrite Hl. by wp_auto. Qed.

Lemma wp_release_cache_pool k (Q : unit → kstate → Prop) :
  cache_pool_lock k = true → Q tt (set_cache_pool_lock false k) → wp release_cache_pool Q k.
Proof. intros Hl HQ. unfold release_cache_pool. wp_auto. rewrite Hl. by wp_auto. Qed.

Lemma cache_links_insert cs a c x :
  cache_links (<[a:=c]> cs) x =
  if decide (x = a) then Some (c_next c, c_prev c) else cache_links cs x.
Proof.
  unfold cache_links. destruct (decide (x = a)) as [->|].
  - by rewrite lookup_insert_eq.
  - by rewrite lookup_insert_ne.
Qed.

(** A descriptor up to its links. *)
Definition unlink (c : kmem_cache_t) : kmem_cache_t := with_links NULL NULL c.

(** Only links of descriptors, and the ends of the list, change. *)
Definition relisted (k k' : kstate) : Prop :=
  ∃ cs h t, (∀ x, unlink <$> cs !! x = unlink <$> caches k !! x) ∧
    k' = set_tail t (set_head h (set_caches cs k)).

Lemma relisted_cache k k' x c :
  relisted k k' → caches k !! x = Some c →
  ∃ c', caches k' !! x = Some c' ∧ unlink c' = unlink c.
Proof.
  intros (cs & h & t & Hcs & ->) Hc. specialize (Hcs x). rewrite Hc in Hcs. simpl.
  destruct (cs !! x) as [c'|]; [|done]. apply (inj Some) in Hcs. eauto.
Qed.

Lemma relisted_cache_inv k k' x c' :
  relisted k k' → caches k' !! x = Some c' →
  ∃ c, caches k !! x = Some c ∧ unlink c' = unlink c.
Proof.
  intros (cs & h & t & Hcs & ->) Hc. specialize (Hcs x). simpl in Hc. rewrite Hc in Hcs.
  destruct (caches k !! x) as [c|]; [|done]. apply (inj Some) in Hcs. eauto.
Qed.

Lemma unlink_desc c c' : unlink c' = unlink c →
  desc c' = desc c ∧ c_lock c' = c_lock c ∧ destroying c' = destroying c ∧
  error_code c' = error_code c ∧ is_used c' = is_used c ∧ objs_per_slab c' = objs_per_slab c.
Proof. intros [=]. unfold desc. split_and!; congruence. Qed.

Lemma relisted_pool k k' : relisted k k' → pool_ok k → pool_ok k'.
Proof.
  intros (cs & h & t & Hcs & ->) [Hp Hd]. split; [done|]. intros x. simpl. rewrite <-Hd.
  specialize (Hcs x). destruct (cs !! x), (caches k !! x); simpl in Hcs; try done;
    split; by intros [? ?].
Qed.

Lemma relisted_score k k' A G : relisted k k' → score k A G → score k' A G.
Proof.
  intros Hr [Hb Ha Hp Hg Hs Hl Ho].
  assert (bud k' = bud k) as Eb by (by destruct Hr as (? & ? & ? & _ & ->)).
  split; [by rewrite Eb|by rewrite Eb|by eapply relisted_pool| | | |by rewrite Eb].
  - intros x c' Hx Hu. destruct (relisted_cache_inv _ _ _ _ Hr Hx) as (c & Hc & (E & _ & _ & _ & Eu & _)%unlink_desc).
    eapply desc_geom; [exact E|]. eapply Hg; [done|congruence].
  - intros s i Hi. destruct (Hs _ _ Hi) as (idx & c & h & Es & HA & Hc & Hu & Hord & Hh & Hok).
    destruct (relisted_cache _ _ _ _ Hr Hc) as (c' & Hc' & (E & _ & _ & _ & Eu & En)%unlink_desc).
    exists idx, c', h. rewrite Eb. split_and!; try done; [congruence| |by rewrite En].
    injection E as ? -> ? ? ? ? ? ?. done.
  - intros x c' w Hx Hu. destruct (relisted_cache_inv _ _ _ _ Hr Hx) as (c & Hc & (E & _ & _ & _ & Eu & _)%unlink_desc).
    rewrite (desc_head w _ _ E). eapply list_at_frame; [apply (Hl x c w Hc); congruence|done|].
    intros. by rewrite Eb.
Qed.

(** ** Adding *)

Lemma wp_add_to_cache_list k C a c :
  dl (cache_links (caches k)) NULL (head_of_cache_list k) C → NoDup C →
  tail_of_cache_list k = default NULL (last C) → cache_list_lock k = false →
  caches k !! a = Some c → c_next c = NULL → c_prev c = NULL → a ≠ NULL → a ∉ C →
  wp (add_to_cache_list a) (λ _ k', relisted k k' ∧
    dl (cache_links (caches k')) NULL (head_of_cache_list k') (a :: C) ∧
    tail_of_cache_list k' = default NULL (last (a :: C))) k.
Proof.
  intros Hdl Hnd Htl Hl Hc Hcn Hcp Ha0 HaC. unfold add_to_cache_list.
  rewrite (proj2 (Z.eqb_neq _ _)) by done. wp_auto. apply wp_acquire_cache_list; [done|]. wp_auto.
  cbv zeta. change (head_of_cache_list (set_cache_list_lock true k)) with (head_of_cache_list k).
  destruct (Z.eqb_spec (head_of_cache_list k) NULL) as [E|E].
  - assert (C = []) as ->.
    { destruct C as [|y C]; [done|]. simpl in Hdl. destruct Hdl as (? & ? & _). congruence. }
    wp_auto. apply wp_release_cache_list; [done|]. split.
    + exists (caches k), a, a. split; [done|]. destruct k. simpl in *. by subst.
    + split; [|done]. simpl. split; [done|]. split; [done|]. exists NULL. split; [|done].
      unfold cache_links. rewrite Hc. simpl. by rewrite Hcn, Hcp.
  - set (hd := head_of_cache_list k) in *. destruct (dl_head _ _ _ _ Hdl E) as [Hh [n Hn]].
    assert (hd ≠ a) as Hne by set_solver.
    unfold cache_links in Hn. destruct (caches k !! hd) as [ch|] eqn:Ech; [|done].
    injection Hn as Hn1 Hn2. wp_auto.
    apply (wp_update_cache _ _ _ ch); [done|]. wp_auto.
    apply (wp_update_cache _ _ _ c); [by simpl; rewrite lookup_insert_ne|]. wp_auto.
    apply wp_release_cache_list; [done|].
    set (cs := <[a:=with_links hd (c_prev c) c]> (<[hd:=with_links (c_next ch) a ch]> (caches k))).
    split; [|split].
    + exists cs, a, (tail_of_cache_list k). split; [|destruct k; simpl in *; by subst].
      intros x. unfold cs. destruct (decide (x = a)) as [->|].
      { rewrite lookup_insert_eq, Hc. done. }
      rewrite lookup_insert_ne by done. destruct (decide (x = hd)) as [->|].
      * by rewrite lookup_insert_eq, Ech.
      * by rewrite lookup_insert_ne.
    + simpl. fold cs. apply (dl_push (cache_links (caches k)) (cache_links cs) a hd C);
        [done|done|done|done| |].
      * unfold cs. rewrite cache_links_insert, decide_True by done. simpl. by rewrite Hcp.
      * intros x [y z] Hx Hyz. unfold cs. rewrite !cache_links_insert.
        rewrite decide_False by set_solver. destruct (decide (x = hd)) as [->|]; [|done].
        unfold cache_links in Hyz. rewrite Ech in Hyz. simpl in *. by injection Hyz as <- <-.
    + destruct C as [|y C]; [set_solver|]. done.
Qed.

(** ** Removing *)

Lemma wp_search_cache_list k C a head :
  dl (cache_links (caches k)) NULL head C → (length C < 130)%nat → a ≠ NULL →
  wp (search_cache_list a head) (λ r k', k' = k ∧ r = if decide (a ∈ C) then a else NULL) k.
Proof.
  intros Hdl Hlen Ha. unfold search_cache_list.
  apply (wp_loop (λ n cur k1, k1 = k ∧ ∃ p l, dl (cache_links (caches k)) p cur l ∧
    n = length l ∧ (a ∈ C ↔ a ∈ l))) with (n := length C); [|done|].
  { split; [done|]. by exists NULL, C. }
  intros n cur k1 (-> & p & l & Hl & -> & Hin).
  destruct (Z.eqb_spec cur NULL) as [->|Hc0]; simpl.
  { wp_auto. split; [done|]. rewrite decide_False; [done|]. rewrite Hin.
    destruct l as [|x l]; [set_solver|]. simpl in Hl. destruct Hl as (? & ? & _). congruence. }
  destruct l as [|x l]; simpl in Hl; [done|]. destruct Hl as (-> & _ & n & Hn & Hl).
  destruct (Z.eqb_spec x a) as [->|Hca]; wp_auto.
  { split; [done|]. rewrite decide_True; [done|]. rewrite Hin. set_solver. }
  unfold cache_links in Hn. destruct (caches k !! x) as [cx|] eqn:Ex; [|done].
  injection Hn as Hn1 Hn2. apply (wp_read_cache _ _ cx); [done|]. wp_auto.
  exists (length l). split; [simpl; lia|]. split; [done|]. exists x, l. rewrite Hn1.
  split; [done|]. split; [done|]. rewrite Hin. set_solver.
Qed.

Lemma last_remove (l1 l2 : list Z) a :
  last (l1 ++ l2) = if decide (l2 = []) then last l1 else last (l1 ++ a :: l2).
Proof.
  destruct l2 as [|y l2]; simpl.
  - by rewrite app_nil_r.
  - by rewrite !last_app_cons, last_cons_cons.
Qed.

Lemma dl_split_links lk p0 p l1 a l2 n pv :
  dl lk p0 p (l1 ++ a :: l2) → lk a = Some (n, pv) → NoDup (l1 ++ a :: l2) →
  (n = NULL ↔ l2 = []) ∧ pv = default p0 (last l1).
Proof.
  revert p0 p. induction l1 as [|x l1 IH]; intros p0 p; cbn [app dl].
  - intros (-> & Ha & n' & Hn & Hl) E _. rewrite Hn in E. injection E as -> ->.
    split; [|done]. destruct l2; simpl in Hl; [done|]. naive_solver.
  - intros (-> & Hx & n' & Hn & Hl) E [_ Hnd]%NoDup_cons.
    destruct (IH _ _ Hl E Hnd) as [H1 ->]. split; [done|].
    rewrite last_cons. by destruct (last l1).
Qed.

Section Remove.

Context (k : kstate) (C : list Z) (a : Z) (c : kmem_cache_t) (l1 l2 : list Z).

Hypothesis Hdl : dl (cache_links (caches k)) NULL (head_of_cache_list k) (l1 ++ a :: l2).

Hypothesis Hnd : NoDup (l1 ++ a :: l2).

Hypothesis Htl : tail_of_cache_list k = default NULL (last (l1 ++ a :: l2)).

Hypothesis Hc : caches k !! a = Some c.

Lemma cl_self : cache_links (caches k) a = Some (c_next c, c_prev c).
Proof. unfold cache_links. by rewrite Hc. Qed.

Lemma cl_head : head_of_cache_list k = a ↔ c_prev c = NULL.
Proof.
  destruct (dl_split_links _ _ _ _ _ _ _ _ Hdl cl_self Hnd) as [_ ->].
  destruct l1 as [|x l]; simpl in *.
  - by destruct Hdl as (-> & _).
  - destruct Hdl as (-> & Hx & n & Hn & Hl). apply NoDup_cons in Hnd as [Hxn _].
    split; [intros ->; set_solver|]. intros E. exfalso.
    destruct (dl_elem (cache_links (caches k)) NULL x (x :: l ++ a :: l2) NULL) as [? _].
    + simpl. eauto.
    + rewrite <-E. destruct (last (x :: l)) as [y|] eqn:Ey; [|by apply last_None in Ey].
      apply last_Some_elem_of in Ey. simpl. set_solver.
    + done.
Qed.

(** Descriptors in which the neighbours of [a] skip it. *)
Lemma relisted_remove cs :
  (∀ x, unlink <$> cs !! x = unlink <$> caches k !! x) →
  (∀ x y z, x ≠ a → x ≠ NULL → cache_links (caches k) x = Some (y, z) →
     cache_links cs x = Some (if decide (x = c_prev c) then c_next c else y,
                              if decide (x = c_next c) then c_prev c else z)) →
  dl (cache_links cs) NULL (if decide (head_of_cache_list k = a) then c_next c
                            else head_of_cache_list k) (l1 ++ l2).
Proof.
  intros _ Hlk. assert (a ∈ l1 ++ a :: l2) as Ha by set_solver.
  destruct (dl_elem _ _ _ _ _ Hdl Ha) as [Ha0 _].
  eapply dl_remove; [exact Hdl|exact cl_self|done|done|].
  intros x [y z] Hx Hyz.
  assert (x ≠ a). { apply NoDup_app in Hnd as (? & Hd & ?%NoDup_cons). set_solver. }
  assert (x ∈ l1 ++ a :: l2) as Hx' by set_solver.
  destruct (dl_elem _ _ _ _ _ Hdl Hx') as [Hx0 _].
  rewrite (Hlk x y z) by done. f_equal.
  by apply (dl_skip_patch _ _ _ _ _ _ _ _ _ Hdl Ha cl_self Hx').
Qed.

Lemma cl_neighbour x :
  (x = c_prev c ∨ x = c_next c) → x ≠ NULL → x ≠ a ∧ ∃ cx, caches k !! x = Some cx.
Proof.
  intros Hx Hx0. assert (a ∈ l1 ++ a :: l2) as Ha by set_solver.
  assert (x ∈ l1 ++ a :: l2 ∧ x ≠ a) as [Hin Hne].
  { destruct Hx as [->| ->].
    - destruct (dl_prev _ _ _ _ _ _ _ Hdl Ha cl_self) as [[? _]|[? _]]; [done|]. split; [done|].
      eapply (dl_irrefl _ _ _ _ _ _ _ Hdl Hnd); [|exact Ha|exact cl_self].
      intros Hn. by destruct (dl_elem _ _ _ _ _ Hdl Hn).
    - destruct (dl_next _ _ _ _ _ _ _ Hdl Ha cl_self Hx0) as [? [y Hy]]. split; [done|].
      intros E. rewrite E in Hy. eapply (dl_irrefl _ _ _ _ a y a Hdl Hnd); [|exact Ha|done|done].
      intros Hn. by destruct (dl_elem _ _ _ _ _ Hdl Hn). }
  split; [done|]. destruct (dl_elem _ _ _ _ _ Hdl Hin) as [_ [? E]]. unfold cache_links in E.
  destruct (caches k !! x); [eauto|done].
Qed.

(** [cs] has the links of [k]'s descriptors with [f] applied to those of the
    nodes other than [a]. *)
Definition patched_links (f : Z → Z * Z → Z * Z) (cs : gmap Z kmem_cache_t) : Prop :=
  (∀ x, unlink <$> cs !! x = unlink <$> caches k !! x) ∧ cs !! a = Some c ∧
  ∀ x y z, x ≠ a → x ≠ NULL → cache_links (caches k) x = Some (y, z) →
    cache_links cs x = Some (f x (y, z)).

Lemma patched_links_insert f f' cs x cx cx' :
  patched_links f cs → x ≠ a → cs !! x = Some cx → unlink cx' = unlink cx →
  (∀ w yz, w ≠ a → w ≠ x → f' w yz = f w yz) →
  (∀ y z, f x (y, z) = (c_next cx, c_prev cx) → f' x (y, z) = (c_next cx', c_prev cx')) →
  patched_links f' (<[x:=cx']> cs).
Proof.
  intros (H1 & H2 & H3) Hx Hcx Hu Hf Hfx. split; [|split].
  - intros w. destruct (decide (w = x)) as [->|].
    + rewrite lookup_insert_eq, <-H1, Hcx. simpl. by rewrite Hu.
    + by rewrite lookup_insert_ne.
  - by rewrite lookup_insert_ne.
  - intros w y z Hw Hw0 Hyz. rewrite cache_links_insert. destruct (decide (w = x)) as [->|].
    + f_equal. symmetry. apply Hfx. pose proof (H3 x y z Hw Hw0 Hyz) as E.
      unfold cache_links in E. rewrite Hcx in E. simpl in E. congruence.
    + rewrite Hf by done. by apply H3.
Qed.

Definition skip_prev (x : Z) (yz : Z * Z) : Z * Z :=
  (if decide (x = c_prev c) then c_next c else yz.1, yz.2).

Definition skip_both (x : Z) (yz : Z * Z) : Z * Z :=
  (if decide (x = c_prev c) then c_next c else yz.1,
   if decide (x = c_next c) then c_prev c else yz.2).

Lemma wp_unlink_cache {B} kL (K : prog kstate B) Q :
  caches kL = caches k → head_of_cache_list kL = head_of_cache_list k →
  tail_of_cache_list kL = tail_of_cache_list k →
  (∀ cs, patched_links skip_both cs →
     wp K Q (set_tail (if decide (c_next c = NULL) then c_prev c else tail_of_cache_list k)
               (set_head (if decide (head_of_cache_list k = a) then c_next c
                          else head_of_cache_list k) (set_caches cs kL)))) →
  wp (_ ← (if negb (c_prev c =? NULL)
           then update_cache (c_prev c) (λ x, with_links (c_next c) (c_prev x) x)
           else modify (set_head (c_next c)));
      _ ← (if negb (c_next c =? NULL)
           then update_cache (c_next c) (λ x, with_links (c_next x) (c_prev c) x)
           else modify (set_tail (c_prev c))); K) Q kL.
Proof.
  intros Ec Eh Et HK. apply wp_bind.
  eapply (wp_mono _ (λ _ k1, ∃ cs, patched_links skip_prev cs ∧
    k1 = set_head (if decide (head_of_cache_list k = a) then c_next c
                   else head_of_cache_list k) (set_caches cs kL))).
  { destruct (Z.eqb_spec (c_prev c) NULL) as [E|E]; cbn [negb].
    - wp_auto. exists (caches k). split; [|rewrite decide_True by (by apply cl_head)].
      + split; [done|]. split; [done|]. intros x y z Hx Hx0 Hyz. rewrite Hyz. unfold skip_prev.
        by rewrite decide_False by congruence.
      + destruct kL. simpl in *. by subst.
    - destruct (cl_neighbour (c_prev c) (or_introl eq_refl) E) as (Hne & cp & Hcp).
      apply (wp_update_cache _ _ _ cp); [by rewrite Ec|].
      exists (<[c_prev c:=with_links (c_next c) (c_prev cp) cp]> (caches k)). split.
      + eapply (patched_links_insert (λ _ yz, yz)); [|done|exact Hcp| | |].
        * split; [done|]. split; done.
        * done.
        * intros x [y z] _ Hx. unfold skip_prev. by rewrite decide_False.
        * intros y z [= -> ->]. unfold skip_prev. by rewrite decide_True.
      + rewrite decide_False by (by rewrite cl_head). rewrite <-Eh, <-Ec. by destruct kL. }
  intros [] k1 (cs & Hcs & ->). apply wp_bind.
  eapply (wp_mono _ (λ _ k2, ∃ cs, patched_links skip_both cs ∧
    k2 = set_tail (if decide (c_next c = NULL) then c_prev c else tail_of_cache_list k)
               (set_head (if decide (head_of_cache_list k = a) then c_next c
                          else head_of_cache_list k) (set_caches cs kL)))).
  { destruct (Z.eqb_spec (c_next c) NULL) as [E|E]; cbn [negb].
    - wp_auto. exists cs. rewrite (decide_True (P := c_next c = NULL)) by done. split; [|done].
      destruct Hcs as (H1 & H2 & H3). split; [done|]. split; [done|]. intros x y z Hx Hx0 Hyz.
      rewrite (H3 x y z) by done. unfold skip_both, skip_prev. simpl.
      by rewrite (decide_False (P := x = c_next c)) by congruence.
    - destruct (cl_neighbour (c_next c) (or_intror eq_refl) E) as (Hne & cn0 & Hcn0).
      assert (∃ cn, cs !! c_next c = Some cn) as [cn Hcn].
      { destruct Hcs as (H1 & _). specialize (H1 (c_next c)). rewrite Hcn0 in H1.
        destruct (cs !! c_next c); [eauto|done]. }
      apply (wp_update_cache _ _ _ cn); [done|].
      exists (<[c_next c:=with_links (c_next cn) (c_prev c) cn]> cs). split.
      + eapply patched_links_insert; [exact Hcs|done|exact Hcn| | |].
        * done.
        * intros x [y z] _ Hx. unfold skip_both, skip_prev. simpl.
          by rewrite (decide_False (P := x = c_next c)).
        * intros y z [= E1 E2]. unfold skip_both. simpl. f_equal; [done|].
          by rewrite decide_True.
      + rewrite (decide_False (P := c_next c = NULL)) by done. rewrite <-Et. by destruct kL. }
  intros [] k2 (cs2 & Hcs2 & ->). by apply HK.
Qed.

End Remove.

(** Removing a cache from the list. *)
Lemma wp_remove_from_cache_list k C a c :
  clist_ok k C → (length C < 130)%nat → cache_list_lock k = false → a ≠ NULL →
  caches k !! a = Some c → is_used c = true →
  wp (remove_from_cache_list a) (λ r k', r = a ∧ relisted k k' ∧ ∃ l1 l2, C = l1 ++ a :: l2 ∧
    dl (cache_links (caches k')) NULL (head_of_cache_list k') (l1 ++ l2) ∧
    tail_of_cache_list k' = default NULL (last (l1 ++ l2))) k.
Proof.
  intros [Hdl Hnd Hus Htl] Hlen Hl Ha0 Hc Hu.
  assert (a ∈ C) as HaC by (apply Hus; eauto).
  unfold remove_from_cache_list. wp_auto. apply wp_acquire_cache_list; [done|]. wp_auto.
  rewrite (proj2 (Z.eqb_neq _ _)) by done. wp_auto.
  eapply wp_mono; [by apply (wp_search_cache_list (set_cache_list_lock true k) C a)|].
  intros r k1 [-> ->]. rewrite decide_True by done. rewrite (proj2 (Z.eqb_neq _ _)) by done.
  wp_auto. apply (wp_read_cache _ _ c); [done|]. cbv zeta.
  apply list_elem_of_split in HaC as (l1 & l2 & ->).
  apply (wp_unlink_cache k a c l1 l2 Hdl Hnd Htl Hc); [done..|].
  intros cs Hp. pose proof Hp as (H1 & H2 & H3). wp_auto.
  apply (wp_update_cache _ _ _ c); [done|]. wp_auto. apply wp_release_cache_list; [done|]. wp_auto.
  split; [done|]. set (cs' := <[a:=with_links NULL NULL c]> cs). split.
  - exists cs', (if decide (head_of_cache_list k = a) then c_next c else head_of_cache_list k),
      (if decide (c_next c = NULL) then c_prev c else tail_of_cache_list k).
    split; [|clear -Hl; destruct k; simpl in *; by subst].
    intros x. unfold cs'. destruct (decide (x = a)) as [->|].
    + by rewrite lookup_insert_eq, Hc.
    + by rewrite lookup_insert_ne.
  - exists l1, l2. split; [done|]. simpl. fold cs'. split.
    + assert (∀ x, x ∈ l1 ++ l2 → x ≠ a) as Hne.
      { apply NoDup_app in Hnd as (? & Hd & [??]%NoDup_cons). set_solver. }
      eapply dl_ext; [|apply (relisted_remove k a c l1 l2 Hdl Hnd Htl Hc cs H1); exact H3].
      intros x Hx. unfold cs'. by rewrite cache_links_insert, decide_False by (by apply Hne).
    + destruct (dl_split_links _ _ _ _ _ _ _ _ Hdl (cl_self k a c Hc) Hnd) as [En Ep].
      rewrite (last_remove l1 l2 a). destruct (decide (l2 = [])) as [E|E].
      * by rewrite decide_True by (by apply En).
      * by rewrite decide_False by (by rewrite En).
Qed.
