(* ===== verification/SlabCreate.v ===== *)
(** The layout [kmem_cache_create] computes for a slab, and the creation and
    destruction of caches. *)

From S2P Require Import Prelude.
From S2P Require Import Buddy.
From S2P Require Import BuddyInv.
From S2P Require Import BuddySpec.
From S2P Require Import BuddyProps.
From S2P Require Import Slab.
From S2P Require Import SlabInv.
From S2P Require Import SlabLists.
From S2P Require Import SlabSpec.
From S2P Require Import SlabAlloc.
From S2P Require Import SlabFree.
From S2P Require Import SlabCaches.

(** * The layout of a slab *)

Lemma ALIGN_UP_eq x al :
  0 < al → 0 ≤ x → x + al ≤ 2 ^ 64 → ALIGN_UP x al = (x + al - 1) / al * al.
Proof.
  intros Hal Hx Hb. unfold ALIGN_UP. pose proof (Z.mod_pos_bound x al Hal).
  pose proof (Z.div_mod x al). cbv zeta. destruct (Z.eqb_spec (x mod al) 0) as [E|E].
  - replace ((x + al - 1) / al) with (x / al); [lia|].
    apply Z.div_unique with (al - 1); lia.
  - rewrite u64_small by lia. replace ((x + al - 1) / al) with (x / al + 1); [lia|].
    apply Z.div_unique with (x mod al - 1); lia.
Qed.

Lemma ALIGN_UP_bounds x al :
  0 < al → 0 ≤ x → x + al ≤ 2 ^ 64 → x ≤ ALIGN_UP x al < x + al.
Proof.
  intros Hal Hx Hb. rewrite ALIGN_UP_eq by done.
  pose proof (Z.div_mod (x + al - 1) al). pose proof (Z.mod_pos_bound (x + al - 1) al Hal). lia.
Qed.

Lemma ALIGN_UP_mod x al : 0 < al → 0 ≤ x → x + al ≤ 2 ^ 64 → ALIGN_UP x al mod al = 0.
Proof. intros. rewrite ALIGN_UP_eq by done. apply Z.mod_mul. lia. Qed.

Lemma ALIGN_UP_mono x y al :
  0 < al → 0 ≤ x ≤ y → y + al ≤ 2 ^ 64 → ALIGN_UP x al ≤ ALIGN_UP y al.
Proof.
  intros Hal Hxy Hb. rewrite !ALIGN_UP_eq by lia.
  apply Z.mul_le_mono_nonneg_r; [lia|]. apply Z.div_le_mono; lia.
Qed.

(** [n] objects of [obj] bytes behind the header and its index array fit in a
    slab of [2 ^ order] pages. *)
Record layout_ok (obj min_objs order n off : Z) : Prop := {
  lo_min : min_objs ≤ n;
  lo_off : sizeof_slab + 2 * n ≤ off;
  lo_align : off mod sizeof_ptr = 0;
  lo_fit : off + n * obj ≤ BLOCK_SIZE * 2 ^ order }.

Lemma try_slab_order_ok obj min_objs order n off :
  8 ≤ obj → 1 ≤ min_objs → 0 ≤ order ≤ MAX_SLAB_ORDER →
  try_slab_order obj min_objs order = Some (n, off) → layout_ok obj min_objs order n off.
Proof.
  intros Hobj Hmin Hord. unfold MAX_SLAB_ORDER in Hord.
  assert (1 ≤ 2 ^ order ≤ 2 ^ 6) as Hpow.
  { split; [apply pow2_pos; lia|apply Z.pow_le_mono_r; lia]. }
  unfold try_slab_order. rewrite shiftl_block by lia. change (ALIGN_UP sizeof_slab sizeof_ptr) with 32.
  unfold BLOCK_SIZE in *. rewrite (u64_small (2 ^ order * 4096)) by lia.
  rewrite (u64_small (2 ^ order * 4096 - 32)) by lia. set (bytes := 2 ^ order * 4096) in *.
  set (n0 := (bytes - 32) / obj). destruct (Z.ltb_spec n0 min_objs) as [|Hn0]; [done|].
  assert (n0 * obj ≤ bytes - 32) as Hn0b by (pose proof (Z.mul_div_le (bytes - 32) obj); lia).
  assert (n0 ≤ 32768) as Hn0c by (unfold bytes in *; nia).
  unfold sizeof_slab, sizeof_ptr. rewrite u64_small by lia.
  set (header := ALIGN_UP (32 + n0 * 2) 8).
  assert (32 + n0 * 2 ≤ header < 32 + n0 * 2 + 8) as Hh by (apply ALIGN_UP_bounds; lia).
  rewrite Z.gtb_ltb. destruct (Z.ltb_spec header bytes) as [Hhb|Hhb].
  2:{ rewrite Z.div_0_l by lia. rewrite Z.geb_leb, (proj2 (Z.leb_gt _ _)) by lia. done. }
  set (n1 := (bytes - header) / obj). rewrite Z.geb_leb.
  destruct (Z.leb_spec min_objs n1) as [Hn1|]; [|done]. intros [= <- <-].
  assert (n1 * obj ≤ bytes - header) by (pose proof (Z.mul_div_le (bytes - header) obj); lia).
  assert (n1 ≤ n0) by (apply Z.div_le_mono; lia).
  rewrite u64_small by lia.
  assert (32 + n1 * 2 ≤ ALIGN_UP (32 + n1 * 2) 8) by (apply ALIGN_UP_bounds; lia).
  assert (ALIGN_UP (32 + n1 * 2) 8 ≤ header) by (apply ALIGN_UP_mono; lia).
  split; [done|unfold sizeof_slab; lia|unfold sizeof_ptr; apply ALIGN_UP_mod; lia|]. unfold BLOCK_SIZE. lia.
Qed.

Lemma fit_slab_spec fuel obj min_objs order r l :
  order + Z.of_nat fuel = MAX_SLAB_ORDER + 2 → 0 ≤ order ≤ MAX_SLAB_ORDER + 1 →
  fit_slab fuel obj min_objs order = (r, l) →
  (∀ o, order ≤ o < r → try_slab_order obj min_objs o = None) ∧
  match l with
  | Some (n, off) => order ≤ r ≤ MAX_SLAB_ORDER ∧ try_slab_order obj min_objs r = Some (n, off)
  | None => r = MAX_SLAB_ORDER + 1
  end.
Proof.
  revert order. induction fuel as [|fuel IH]; intros order Hf Ho; [unfold MAX_SLAB_ORDER in *; lia|].
  cbn [fit_slab]. destruct (Z.leb_spec order MAX_SLAB_ORDER) as [Hle|Hgt].
  - destruct (try_slab_order obj min_objs order) as [[n off]|] eqn:E.
    + intros [= <- <-]. split; [lia|]. by split; [lia|].
    + intros H. apply IH in H as [H1 H2]; [|lia|lia]. split.
      * intros o Hor. destruct (decide (o = order)) as [->|]; [done|]. apply H1. lia.
      * destruct l as [[n off]|]; [|done]. destruct H2. split; [lia|done].
  - intros [= <- <-]. split; [lia|lia].
Qed.

Lemma round_object_size_ok size :
  0 ≤ size ≤ 2 ^ 64 - 8 →
  let obj := round_object_size size in
  8 ≤ obj ∧ size ≤ obj ∧ obj mod 8 = 0 ∧ obj < Z.max size 8 + 8.
Proof.
  intros Hs. unfold round_object_size, sizeof_ptr. cbv zeta.
  destruct (Z.ltb_spec size 8).
  - change (ALIGN_UP 8 8) with 8. split_and!; try lia; done.
  - assert (size ≤ ALIGN_UP size 8 < size + 8) by (apply ALIGN_UP_bounds; lia).
    split_and!; try lia. apply ALIGN_UP_mod; lia.
Qed.

(** * Descriptors *)

Definition slot (k : kstate) (i : Z) : Z := cache_pool k + i * sizeof_cache.

Lemma slot_nonnull k i : pool_ok k → 0 ≤ i → slot k i ≠ NULL.
Proof. intros [Hp _] Hi. unfold slot, sizeof_cache, NULL. lia. Qed.

Lemma slot_lookup k i : pool_ok k → 0 ≤ i < MAX_NUM_CACHES → is_Some (caches k !! slot k i).
Proof. intros [_ Hd] Hi. apply Hd. by exists i. Qed.

Lemma wp_find_free_cache_slot k :
  pool_ok k →
  wp find_free_cache_slot (λ i k', k' = k ∧
    ((0 ≤ i < MAX_NUM_CACHES ∧ (∃ c, caches k !! slot k i = Some c ∧ is_used c = false)) ∨
     (i = -1 ∧ ∀ a c, caches k !! a = Some c → is_used c = true))) k.
Proof.
  intros Hp. unfold find_free_cache_slot.
  apply (wp_loop (λ n i k', k' = k ∧ n = Z.to_nat (MAX_NUM_CACHES - i) ∧ 0 ≤ i ≤ MAX_NUM_CACHES ∧
    ∀ j c, 0 ≤ j < i → caches k !! slot k j = Some c → is_used c = true)) with (n := 128%nat);
    [|lia|].
  { split; [done|]. split; [done|]. split; [unfold MAX_NUM_CACHES; lia|]. lia. }
  intros n i k' (-> & -> & Hi & Hused). destruct (Z.ltb_spec i MAX_NUM_CACHES) as [Hlt|Hge].
  - destruct (slot_lookup k i Hp) as [c Hc]; [lia|]. wp_auto. apply (wp_read_cache _ _ c); [done|].
    destruct (is_used c) eqn:Hu; wp_auto.
    + exists (Z.to_nat (MAX_NUM_CACHES - (i + 1))). split; [lia|]. split; [done|]. split; [done|].
      split; [lia|]. intros j cj Hj Hcj. destruct (decide (j = i)) as [->|]; [congruence|].
      apply (Hused j); [lia|done].
    + split; [done|]. left. split; [lia|]. eauto.
  - wp_auto. split; [done|]. right. split; [done|]. intros a c Hc.
    destruct (proj1 (po_dom _ Hp a)) as (j & Hj & ->); [eauto|]. apply (Hused j); [lia|done].
Qed.

Lemma upd_cache_twice a c c' k : upd_cache a c' (upd_cache a c k) = upd_cache a c' k.
Proof. unfold upd_cache, set_caches. simpl. by rewrite insert_insert_eq. Qed.

Lemma wp_update_self k a c f (Q : unit → kstate → Prop) :
  Q tt (upd_cache a (f c) k) → wp (update_cache a f) Q (upd_cache a c k).
Proof.
  intros HQ. eapply wp_update_cache; [apply lookup_insert_eq|]. by rewrite upd_cache_twice.
Qed.

(** No slab belongs to a descriptor that is not in use. *)
Lemma unused_no_slab k A G a c s i :
  score k A G → caches k !! a = Some c → is_used c = false → G !! s = Some i → si_cache i ≠ a.
Proof.
  intros Hk Hc Hu Hs <-. destruct (kc_slab _ _ _ Hk _ _ Hs) as (? & ? & ? & ? & ? & Hc' & ? & _).
  congruence.
Qed.

(** Replacing a descriptor that no slab belongs to. *)
Lemma score_replace k A G a c c' :
  score k A G → caches k !! a = Some c → (∀ s i, G !! s = Some i → si_cache i ≠ a) →
  (is_used c' = true → geom_ok c' ∧ full c' = NULL ∧ partial c' = NULL ∧ empty c' = NULL) →
  score (upd_cache a c' k) A G.
Proof.
  intros [Hb Ha Hp Hg Hs Hl Ho] Hc Hno Hnew. split; [done|done| | | | |done].
  - destruct Hp as [Hp Hd]. split; [done|]. intros x. rewrite <-Hd. simpl.
    rewrite lookup_insert_is_Some'. intuition (subst; eauto).
  - intros x cx Hx Hu. simpl in Hx. destruct (decide (x = a)) as [->|].
    + rewrite lookup_insert_eq in Hx. injection Hx as <-. by apply Hnew.
    + rewrite lookup_insert_ne in Hx by done. by eapply Hg.
  - intros s i Hi. destruct (Hs _ _ Hi) as (idx & c0 & h & ? & ? & ? & ? & ? & ? & ?).
    exists idx, c0, h. simpl. rewrite lookup_insert_ne by (symmetry; by eapply Hno). done.
  - intros x cx w Hx Hu. simpl in Hx. destruct (decide (x = a)) as [->|].
    + rewrite lookup_insert_eq in Hx. injection Hx as <-.
      destruct (Hnew Hu) as (_ & E1 & E2 & E3). exists []. simpl. split; [by destruct w|].
      split; [constructor|]. intros s. split; [set_solver|].
      intros (i & Hi & Hia & _). by destruct (Hno _ _ Hi).
    + rewrite lookup_insert_ne in Hx by done. by apply (Hl x cx).
Qed.

Lemma dl_cache_replace k C a c p :
  dl (cache_links (caches k)) NULL p C → a ∉ C →
  dl (cache_links (caches (upd_cache a c k))) NULL p C.
Proof.
  intros H Ha. eapply dl_ext; [|exact H]. intros x Hx. simpl.
  rewrite cache_links_insert, decide_False; [done|]. set_solver.
Qed.

(** * kmem_cache_create *)

Definition min_objs_for (obj : Z) : Z := if obj >? 2048 then 1 else MIN_OBJS_PER_SLAB.

(** The descriptor of a cache with slabs of [2 ^ order] pages, [n] objects
    each. *)
Definition new_cache (name : option string) (obj ctorf dtorf order n off : Z) : kmem_cache_t :=
  Cache false NULL NULL NULL ctorf dtorf name order obj n off KMEM_OK true false NULL NULL.

Lemma new_cache_geom name obj ctorf dtorf order n off :
  8 ≤ obj → 0 ≤ order ≤ MAX_SLAB_ORDER → layout_ok obj (min_objs_for obj) order n off →
  geom_ok (new_cache name obj ctorf dtorf order n off).
Proof.
  intros Hobj Ho [L1 L2 L3 L4]. split; simpl; try done.
  revert L1. unfold min_objs_for, MIN_OBJS_PER_SLAB. destruct (obj >? 2048); lia.
Qed.

Lemma pool_lock_cycle k a c :
  cache_pool_lock k = false →
  set_cache_pool_lock false (upd_cache a c (set_cache_pool_lock true k)) = upd_cache a c k.
Proof. intros Hl. destruct k. simpl in *. by subst. Qed.

Lemma set_pool_lock_id k :
  cache_pool_lock k = false → set_cache_pool_lock false (set_cache_pool_lock true k) = k.
Proof. intros Hl. destruct k. simpl in *. by subst. Qed.

(** The three outcomes of a creation. *)
Definition create_post (k : kstate) (A : gmap Z Z) (G : gmap Z sinfo) (C : list Z)
    (name : option string) (size ctorf dtorf r : Z) (k' : kstate) : Prop :=
  let obj := round_object_size size in
  (r = NULL ∧ k' = k ∧ ∀ a c, caches k !! a = Some c → is_used c = true) ∨
  (r = NULL ∧ (∀ o, 0 ≤ o ≤ MAX_SLAB_ORDER → try_slab_order obj (min_objs_for obj) o = None) ∧
   slab_rep k' A G C) ∨
  (∃ c0 c' order n off, caches k !! r = Some c0 ∧ is_used c0 = false ∧ r ≠ NULL ∧ (r ∉ C) ∧
     0 ≤ order ≤ MAX_SLAB_ORDER ∧ layout_ok obj (min_objs_for obj) order n off ∧
     (∀ o, 0 ≤ o < order → try_slab_order obj (min_objs_for obj) o = None) ∧
     caches k' !! r = Some c' ∧ unlink c' = new_cache name obj ctorf dtorf order n off ∧
     relisted (upd_cache r (new_cache name obj ctorf dtorf order n off) k) k' ∧
     slab_rep k' A G (r :: C)).

(** A change of an unused descriptor to another unused one. *)
Lemma slab_rep_unused k A G C a c c' :
  slab_rep k A G C → caches k !! a = Some c → is_used c = false → is_used c' = false →
  c_lock c' = false → slab_rep (upd_cache a c' k) A G C.
Proof.
  intros [Hk [Hdl Hnd Hus Htl] Hset [U1 U2 U3 U4] Hal] Hc Hu Hu' Hl'.
  assert (a ∉ C) as HaC. { intros (c1 & Hc1 & ?)%Hus. congruence. }
  assert (∀ s i, G !! s = Some i → si_cache i ≠ a) as Hno by (intros; by eapply unused_no_slab).
  split.
  - eapply score_replace; [done|done|done|congruence].
  - split; [by apply dl_cache_replace|done| |done]. intros x. rewrite Hus. simpl.
    destruct (decide (x = a)) as [->|]; [|by rewrite lookup_insert_ne].
    rewrite lookup_insert_eq. split; intros (? & ? & ?); congruence.
  - intros s i ci Hs Hci. simpl in Hci. rewrite lookup_insert_ne in Hci by (symmetry; by eapply Hno).
    by eapply Hset.
  - split; [done| |done|done]. intros x cx Hx. simpl in Hx. destruct (decide (x = a)) as [->|].
    + rewrite lookup_insert_eq in Hx. congruence.
    + rewrite lookup_insert_ne in Hx by done. by eapply U2.
  - intros x cx Hx Hux. simpl in Hx. destruct (decide (x = a)) as [->|].
    + rewrite lookup_insert_eq in Hx. congruence.
    + rewrite lookup_insert_ne in Hx by done. by eapply Hal.
Qed.

(** A new cache joins the list. *)
Lemma slab_rep_created k A G C a c0 c k' :
  slab_rep k A G C → caches k !! a = Some c0 → is_used c0 = false →
  geom_ok c → is_used c = true → full c = NULL → partial c = NULL → empty c = NULL →
  c_lock c = false → destroying c = false →
  relisted (upd_cache a c k) k' →
  dl (cache_links (caches k')) NULL (head_of_cache_list k') (a :: C) →
  tail_of_cache_list k' = default NULL (last (a :: C)) →
  slab_rep k' A G (a :: C).
Proof.
  intros [Hk [Hdl Hnd Hus Htl] Hset [U1 U2 U3 U4] Hal] Hc Hu Hg Hu' E1 E2 E3 Hl' Hd' Hr Hdl' Htl'.
  assert (∀ s i, G !! s = Some i → si_cache i ≠ a) as Hno by (intros; by eapply unused_no_slab).
  assert (a ∉ C) as HaC. { intros (c1 & Hc1 & ?)%Hus. congruence. }
  assert (∀ x cx, caches k' !! x = Some cx → ∃ c1, (if decide (x = a) then Some c else caches k !! x) = Some c1 ∧
    unlink cx = unlink c1) as Hback.
  { intros x cx Hx. destruct (relisted_cache_inv _ _ _ _ Hr Hx) as (c1 & Hc1 & E). exists c1.
    split; [|done]. simpl in Hc1. destruct (decide (x = a)) as [->|].
    - by rewrite lookup_insert_eq in Hc1.
    - by rewrite lookup_insert_ne in Hc1. }
  assert (bud k' = bud k ∧ cache_list_lock k' = cache_list_lock k ∧ cache_pool_lock k' = cache_pool_lock k)
    as (Eb & Ell & Epl) by (by destruct Hr as (? & ? & ? & _ & ->)).
  split.
  - eapply relisted_score; [done|]. by eapply score_replace.
  - split; [done|by apply NoDup_cons| |done]. intros x. rewrite elem_of_cons, Hus.
    destruct (decide (x = a)) as [->|Hne].
    + split; [|by left]. intros _.
      destruct (relisted_cache _ _ a c Hr (lookup_insert_eq _ _ _)) as (c' & Hc' & E).
      apply unlink_desc in E as (_ & _ & _ & _ & E & _). exists c'. by rewrite E.
    + split.
      * intros [?|(cx & Hcx & Hux)]; [done|].
        destruct (relisted_cache _ _ x cx Hr) as (c' & Hc' & E); [by simpl; rewrite lookup_insert_ne|].
        apply unlink_desc in E as (_ & _ & _ & _ & E & _). exists c'. by rewrite E.
      * intros (cx & Hcx & Hux). right. destruct (Hback _ _ Hcx) as (c1 & Hc1 & E).
        rewrite decide_False in Hc1 by done. apply unlink_desc in E as (_ & _ & _ & _ & E & _).
        exists c1. by rewrite <-E.
  - intros s i ci Hs Hci. destruct (Hback _ _ Hci) as (c1 & Hc1 & E).
    rewrite decide_False in Hc1 by (by eapply Hno).
    apply unlink_desc in E as (_ & _ & _ & _ & _ & ->). by eapply Hset.
  - split; [by rewrite Eb| |by rewrite Ell|by rewrite Epl]. intros x cx Hx.
    destruct (Hback _ _ Hx) as (c1 & Hc1 & E). apply unlink_desc in E as (_ & -> & _).
    case_decide; [congruence|]. by eapply U2.
  - intros x cx Hx Hux. destruct (Hback _ _ Hx) as (c1 & Hc1 & E).
    apply unlink_desc in E as (_ & _ & -> & _ & E & _).
    case_decide; [congruence|]. eapply Hal; [done|congruence].
Qed.

(** The fields [kmem_cache_create] sets before it looks for a slab size. *)
Definition claimed (name : option string) (size ctorf dtorf : Z) (c0 : kmem_cache_t) : kmem_cache_t :=
  with_object_size (round_object_size size) (with_lock false (with_error KMEM_OK
    (with_funs ctorf dtorf (with_name name (with_destroying false (with_used true c0)))))).

(** No slab order fits: the descriptor is given back. *)
Lemma wp_unclaim_cache k A G C a c0 c1 (Q : Z → kstate → Prop) :
  slab_rep k A G C → caches k !! a = Some c0 → is_used c0 = false → c_lock c1 = false →
  (∀ k', slab_rep k' A G C → Q NULL k') →
  wp (_ ← acquire_cache_pool; _ ← update_cache a (with_used false); _ ← release_cache_pool; mret NULL) Q (upd_cache a c1 k).
Proof.
  intros Hrep Hc0 Hu0 Hl HQ. pose proof (ul_pool _ (sr_unlocked _ _ _ _ Hrep)) as Hpl.
  wp_auto. apply wp_acquire_cache_pool; [done|]. wp_auto.
  eapply (wp_update_cache _ a); [apply lookup_insert_eq|]. wp_auto.
  apply wp_release_cache_pool; [done|]. wp_auto.
  replace (set_cache_pool_lock false _) with (upd_cache a (with_used false c1) k).
  - by eapply HQ, slab_rep_unused; [|exact Hc0|..].
  - unfold upd_cache, set_caches, set_cache_pool_lock. simpl. rewrite insert_insert_eq, <-Hpl. by destruct k.
Qed.

(** The finished descriptor is put on the list of caches. *)
Lemma wp_list_cache k A G C a c0 nc (Q : Z → kstate → Prop) :
  slab_rep k A G C → caches k !! a = Some c0 → is_used c0 = false → a ≠ NULL → unlink nc = nc → 
  (∀ k' c', relisted (upd_cache a nc k) k' → caches k' !! a = Some c' → unlink c' = nc →
     dl (cache_links (caches k')) NULL (head_of_cache_list k') (a :: C) →
     tail_of_cache_list k' = default NULL (last (a :: C)) → Q a k') →
  wp (_ ← add_to_cache_list a; mret a) Q (upd_cache a nc k).
Proof.
  intros [Hk Hcl Hset Hul Hal] Hc0 Hu0 Ha0 Hnc HQ.
  assert (a ∉ C) as HaC. { intros (c2 & ? & ?)%(cl_used _ _ Hcl). congruence. }
  wp_auto. eapply wp_mono.
  { eapply (wp_add_to_cache_list (upd_cache a nc k) C a nc); try done.
    - apply dl_cache_replace; [apply Hcl|done].
    - apply Hcl.
    - apply Hcl.
    - apply Hul.
    - apply lookup_insert_eq.
    - by rewrite <- Hnc.
    - by rewrite <- Hnc. }
  intros [] k2 (Hr2 & Hdl2 & Htl2). wp_auto.
  destruct (relisted_cache _ _ a nc Hr2 (lookup_insert_eq _ _ _)) as (c' & Hc' & E).
  apply (HQ k2 c'); try done. congruence.
Qed.

Lemma wp_kmem_cache_create k A G C name size ctorf dtorf :
  slab_rep k A G C → 0 ≤ size ≤ 2 ^ 64 - 8 →
  wp (kmem_cache_create name size ctorf dtorf) (create_post k A G C name size ctorf dtorf) k.
Proof.
  intros Hrep Hsize. pose proof Hrep as [Hk Hcl Hset Hul Hal].
  pose proof (kc_pool _ _ _ Hk) as Hp. pose proof (ul_pool _ Hul) as Hpl.
  destruct (round_object_size_ok size Hsize) as (Hobj & _).
  unfold kmem_cache_create. wp_auto. apply wp_acquire_cache_pool; [done|]. wp_auto.
  set (kP := set_cache_pool_lock true k).
  assert (pool_ok kP) as HpP by (by destruct Hp).
  eapply wp_mono; [by apply wp_find_free_cache_slot|].
  intros i k1 [-> [(Hi & c0 & Hc0 & Hu0)|[-> Hall]]].
  2:{ rewrite (proj2 (Z.ltb_lt _ _)) by lia. wp_auto. apply wp_release_cache_pool; [done|]. wp_auto. left.
      split; [done|]. split; [by apply set_pool_lock_id|done]. }
  rewrite (proj2 (Z.ltb_ge _ _)) by lia. wp_auto. cbv zeta.
  change (cache_pool kP + i * sizeof_cache) with (slot k i).
  change (slot kP i) with (slot k i) in Hc0. set (a := slot k i) in *.
  change (caches kP) with (caches k) in Hc0.
  apply (wp_update_cache _ _ _ c0); [done|]. wp_auto. apply wp_update_self. wp_auto.
  apply wp_release_cache_pool; [done|]. unfold kP. rewrite pool_lock_cycle by done. wp_auto.
  do 5 (apply wp_update_self; wp_auto).
  fold (claimed name size ctorf dtorf c0). set (c1 := claimed name size ctorf dtorf c0).
  rewrite (proj2 (Z.eqb_neq _ _)) by lia.
  set (obj := round_object_size size) in *. fold (min_objs_for obj).
  destruct (fit_slab 8 obj (min_objs_for obj) 0) as [order l] eqn:Efit.
  apply fit_slab_spec in Efit as [Hnone Hlay]; [|done|unfold MAX_SLAB_ORDER; lia].
  assert (1 ≤ min_objs_for obj) as Hmin.
  { unfold min_objs_for, MIN_OBJS_PER_SLAB. destruct (obj >? 2048); lia. }
  wp_auto. apply wp_update_self. wp_auto. assert (a ≠ NULL) as Ha0 by (apply slot_nonnull; [done|lia]).
  destruct l as [[n off]|].
  - destruct Hlay as [Hord Htry]. apply try_slab_order_ok in Htry as Hlo; [|done..].
    wp_auto. apply wp_update_self. wp_auto. apply wp_update_self. wp_auto.
    rewrite Z.gtb_ltb, (proj2 (Z.ltb_ge _ _)) by lia. wp_auto.
    apply wp_update_self. wp_auto. apply wp_update_self. wp_auto.
    change (with_lists _ _ _ _) with (new_cache name obj ctorf dtorf order n off).
    set (nc := new_cache name obj ctorf dtorf order n off).
    apply wp_bind_inv, (wp_list_cache k A G C a c0 nc); [done..|]. intros k2 c' Hr2 Hc' E Hdl2 Htl2. right. right.
    exists c0, c', order, n, off. fold obj. split_and!; try done; [|lia..|].
    { intros (c2 & ? & ?)%(cl_used _ _ Hcl). congruence. }
    eapply (slab_rep_created k A G C a c0 nc); try done. by apply new_cache_geom.
  - subst order. wp_auto. rewrite Z.gtb_ltb, (proj2 (Z.ltb_lt _ _)) by lia. wp_auto.
    apply wp_bind_inv. eapply (wp_unclaim_cache k A G C a c0 (with_slab_order (MAX_SLAB_ORDER + 1) c1)); [done..|].
    intros k2 Hk2. right. left. split; [done|]. split; [intros o Ho; apply Hnone; lia|done].
Qed.

(** * kmem_cache_destroy *)

Lemma clist_length k C : pool_ok k → clist_ok k C → (length C ≤ 128)%nat.
Proof.
  intros [Hp Hd] [Hdl Hnd Hus _]. set (f := λ a, (a - cache_pool k) / sizeof_cache).
  assert (∀ a, a ∈ C → ∃ i, a = slot k i ∧ f a = i ∧ 0 ≤ i < 128) as Hf.
  { intros a (c & Hc & _)%Hus. destruct (proj1 (Hd a)) as (i & Hi & ->); [eauto|].
    exists i. split; [done|]. unfold f, MAX_NUM_CACHES, sizeof_cache in *. split; [|lia].
    rewrite Z.add_simpl_l. by apply Z.div_mul. }
  assert (zlen (f <$> C) ≤ 128) as H.
  { apply NoDup_range_length; [lia| |].
    - apply NoDup_fmap_2_strong; [|done]. intros x y Hx Hy E.
      destruct (Hf x Hx) as (? & -> & Ex & _), (Hf y Hy) as (? & -> & Ey & _). congruence.
    - intros j (a & -> & Ha)%list_elem_of_fmap. by destruct (Hf a Ha) as (? & _ & -> & ?). }
  rewrite length_fmap in H. lia.
Qed.

Lemma slab_rep_destroyed k A G C k1 k2 k3 A' G' a c c2 c3 l1 l2 :
  slab_rep k A G C → caches k !! a = Some c →
  shrunk a (upd_cache a (with_destroying true c) k) A G k1 A' G' →
  (∀ s i, G' !! s = Some i → si_cache i ≠ a) → C = l1 ++ a :: l2 → relisted k1 k2 →
  dl (cache_links (caches k2)) NULL (head_of_cache_list k2) (l1 ++ l2) →
  tail_of_cache_list k2 = default NULL (last (l1 ++ l2)) →
  caches k2 !! a = Some c2 → k3 = upd_cache a c3 k2 → is_used c3 = false → c_lock c3 = false →
  slab_rep k3 A' G' (l1 ++ l2).
Proof.
  intros Hrep Hc Hsh Hno -> Hr Hdl Htl Hc2 -> Hu3 Hl3.
  pose proof Hrep as [Hk [_ Hnd Hus _] Hset Hul Hal].
  pose proof Hsh as [[Hk1 Hset1 Hul1] F _ _ _ _ _].
  assert (∀ x, x ∈ l1 ++ l2 ↔ x ≠ a ∧ x ∈ l1 ++ a :: l2) as Hin.
  { intros x. apply NoDup_app in Hnd as (? & Hd & [??]%NoDup_cons). set_solver. }
  assert (∀ x cx, x ≠ a → caches (upd_cache a c3 k2) !! x = Some cx → ∃ c0, caches k !! x = Some c0 ∧
    is_used cx = is_used c0 ∧ destroying cx = destroying c0 ∧ c_lock cx = c_lock c0) as Hback.
  { intros x cx Hne Hx. simpl in Hx. rewrite lookup_insert_ne in Hx by done.
    destruct (relisted_cache_inv _ _ _ _ Hr Hx) as (c1 & Hc1 & (_ & E1 & E2 & _ & E3 & _)%unlink_desc).
    rewrite (kf_other _ _ _ _ _ F) in Hc1 by done. simpl in Hc1.
    rewrite lookup_insert_ne in Hc1 by done. by exists c1. }
  assert (bud k2 = bud k1 ∧ cache_list_lock k2 = cache_list_lock k1 ∧ cache_pool_lock k2 = cache_pool_lock k1)
    as (Eb & Ell & Epl) by (by destruct Hr as (? & ? & ? & _ & ->)).
  destruct Hul1 as [U1 U2 U3 U4].
  split.
  - eapply score_replace; [by eapply relisted_score|done|done|congruence].
  - split; [| |intros x|done].
    + apply dl_cache_replace; [done|]. rewrite Hin. tauto.
    + apply NoDup_app in Hnd as (? & Hd & [??]%NoDup_cons). apply NoDup_app. set_solver.
    + rewrite Hin, Hus. destruct (decide (x = a)) as [->|Hne].
      { simpl. rewrite lookup_insert_eq. split; [tauto|]. intros (? & ? & ?). congruence. }
      split.
      * intros (_ & c0 & Hc0 & Hu0). simpl. rewrite lookup_insert_ne by done.
        assert (caches k1 !! x = Some c0) as Hc1.
        { rewrite (kf_other _ _ _ _ _ F) by done. simpl. by rewrite lookup_insert_ne. }
        destruct (relisted_cache _ _ _ _ Hr Hc1) as (c' & Hc' & (_ & _ & _ & _ & E & _)%unlink_desc).
        exists c'. by rewrite E.
      * intros (cx & Hx & Hux). split; [done|].
        destruct (Hback _ _ Hne Hx) as (c0 & Hc0 & E & _). exists c0. by rewrite <-E.
  - intros s i ci Hs Hci. simpl in Hci. rewrite lookup_insert_ne in Hci by (symmetry; by eapply Hno).
    destruct (relisted_cache_inv _ _ _ _ Hr Hci) as (c1 & Hc1 & (_ & _ & _ & _ & _ & ->)%unlink_desc).
    by eapply Hset1.
  - split; [by simpl; rewrite Eb| |by simpl; rewrite Ell|by simpl; rewrite Epl].
    intros x cx Hx. destruct (decide (x = a)) as [->|Hne].
    + simpl in Hx. rewrite lookup_insert_eq in Hx. congruence.
    + destruct (Hback _ _ Hne Hx) as (c0 & Hc0 & _ & _ & ->). by eapply (ul_cache _ Hul).
  - intros x cx Hx Hux. destruct (decide (x = a)) as [->|Hne].
    + simpl in Hx. rewrite lookup_insert_eq in Hx. congruence.
    + destruct (Hback _ _ Hne Hx) as (c0 & Hc0 & E & -> & _). eapply Hal; [done|congruence].
Qed.

Lemma wp_kmem_cache_error k a c :
  a ≠ NULL → caches k !! a = Some c →
  wp (kmem_cache_error a) (λ r k', r = error_num (error_code c) ∧ ∃ e, k' = emit e k) k.
Proof.
  intros Ha Hc. unfold kmem_cache_error. rewrite (proj2 (Z.eqb_neq _ _)) by done. wp_auto.
  apply (wp_read_cache _ _ c); [done|]. wp_auto. eauto.
Qed.

(** The cache has objects in use exactly when one of its first two lists is
    not empty. *)
Lemma cache_empty_lists k A G a c :
  score k A G → settled k G → caches k !! a = Some c → is_used c = true →
  partial c = NULL → full c = NULL → ∀ s i, G !! s = Some i → si_cache i = a → idle_slab a i.
Proof.
  intros Hk Hset Hc Hu Ep Ef s i Hs Hia. split; [done|].
  pose proof (Hset _ _ c Hs ltac:(congruence)) as H. unfold settled_at in H.
  destruct (si_where i) as [w|] eqn:Ew; [|done]. destruct (decide (w = LEmpty)) as [->|Hne]; [done|].
  destruct (kc_list _ _ _ Hk a c w Hc Hu) as (l & Hl & _ & Hin).
  assert (s ∈ l) as Hsl by (apply Hin; eauto).
  assert (head_of w c = NULL) as E by (destruct w; done).
  destruct l as [|y l]; [set_solver|]. simpl in Hl. destruct Hl as (? & ? & _). congruence.
Qed.

Definition destroy_ok (k : kstate) (A : gmap Z Z) (G : gmap Z sinfo) (C : list Z) (a : Z)
    (k' : kstate) : Prop :=
  ∃ A' G' l1 l2, C = l1 ++ a :: l2 ∧ slab_rep k' A' G' (l1 ++ l2) ∧
    (∀ s i, G' !! s = Some i ↔ G !! s = Some i ∧ si_cache i ≠ a) ∧
    (∀ x o, A' !! x = Some o ↔ A !! x = Some o ∧
       ∀ i, G !! paddr (bud k) x = Some i → si_cache i ≠ a).

(** Marking a cache as being destroyed disturbs nothing. *)
Lemma quiet_destroying k A G C a c :
  slab_rep k A G C → caches k !! a = Some c → is_used c = true →
  quiet (upd_cache a (with_destroying true c) k) A G ∧ clist_ok (upd_cache a (with_destroying true c) k) C.
Proof.
  intros [Hk Hcl Hset Hul Hal] Hc Hu. pose proof (ul_cache _ Hul _ _ Hc) as Hl. split; [split; [by eapply score_cache| |]|].
  - intros s i ci Hs Hci. simpl in Hci. destruct (decide (si_cache i = a)) as [E|].
    + rewrite E, lookup_insert_eq in Hci. injection Hci as <-. apply (Hset s i c Hs). congruence.
    + rewrite lookup_insert_ne in Hci by done. by eapply Hset.
  - destruct Hul as [U1 U2 U3 U4]. split; [done| |done|done].
    intros x cx Hx. simpl in Hx. destruct (decide (x = a)) as [->|].
    + rewrite lookup_insert_eq in Hx. injection Hx as <-. done.
    + rewrite lookup_insert_ne in Hx by done. by eapply U2.
  - destruct Hcl as [D1 D2 D3 D4]. split; [|done| |done].
    + eapply dl_ext; [|exact D1]. intros x Hx. simpl. rewrite cache_links_insert.
      case_decide as E; [|done]. subst. unfold cache_links. by rewrite Hc.
    + intros x. rewrite D3. simpl. destruct (decide (x = a)) as [->|]; [|by rewrite lookup_insert_ne].
      rewrite lookup_insert_eq, Hc. split; intros (? & [= <-] & ?); eauto.
Qed.

(** The last critical section of [kmem_cache_destroy]. *)
Lemma wp_retire_cache k a c (Q : unit → kstate → Prop) :
  caches k !! a = Some c → c_lock c = false → cache_pool_lock k = false →
  Q tt (upd_cache a (with_lock false (clear_descriptor (with_used false (with_lock true c)))) k) →
  wp (_ ← acquire_cache a;
      _ ← acquire_cache_pool;
      _ ← update_cache a (with_used false);
      _ ← release_cache_pool;
      _ ← update_cache a clear_descriptor;
      release_cache a) Q k.
Proof.
  intros Hc Hl Hpl HQ. wp_auto. apply (wp_acquire_cache _ _ c); [done..|]. wp_auto.
  apply wp_acquire_cache_pool; [done|]. wp_auto.
  eapply (wp_update_cache _ a); [apply lookup_insert_eq|]. wp_auto.
  apply wp_release_cache_pool; [done|]. wp_auto.
  eapply (wp_update_cache _ a); [apply lookup_insert_eq|]. wp_auto.
  eapply wp_release_cache; [apply lookup_insert_eq|done|].
  set (c3 := with_lock false _). replace (upd_cache a c3 _) with (upd_cache a c3 k); [done|].
  unfold upd_cache, set_caches, set_cache_pool_lock. simpl. rewrite !insert_insert_eq, <-Hpl. by destruct k.
Qed.

(** The destruction of a cache without objects in use. *)
Lemma wp_destroy_unused k A G C a c :
  slab_rep k A G C → caches k !! a = Some c → is_used c = true → a ≠ NULL → partial c = NULL → full c = NULL →
  wp (_ ← kmem_cache_shrink a;
      _ ← remove_from_cache_list a;
      _ ← acquire_cache a;
      _ ← acquire_cache_pool;
      _ ← update_cache a (with_used false);
      _ ← release_cache_pool;
      _ ← update_cache a clear_descriptor;
      release_cache a) (λ _ k', destroy_ok k A G C a k') (upd_cache a (with_destroying true c) k).
Proof.
  intros Hrep Hc Hu Ha0 Ep Ef. pose proof Hrep as [Hk Hcl Hset Hul Hal].
  set (cD := with_destroying true c). set (kD := upd_cache a cD k).
  assert (caches kD !! a = Some cD) as HcD by apply lookup_insert_eq.
  destruct (quiet_destroying k A G C a c Hrep Hc Hu) as [HqD HclD]. fold cD kD in HqD, HclD.
  wp_auto. eapply wp_mono; [by apply (wp_kmem_cache_shrink kD A G a cD)|].
  intros r k1 (A' & G' & Hsh & Hnoidle & _). pose proof (sh_frame _ _ _ _ _ _ _ Hsh) as F. wp_auto.
  pose proof (clist_kframe _ _ _ _ _ _ F HclD) as Hcl1.
  destruct (kframe_cache_fwd _ _ _ _ _ _ _ F HcD) as (c1 & Hc1 & (_ & _ & Eu1 & _)%body_links).
  pose proof (q_unlocked _ _ _ (sh_quiet _ _ _ _ _ _ _ Hsh)) as Hul1.
  eapply wp_mono.
  { eapply (wp_remove_from_cache_list k1 C a c1); [done| |apply Hul1|done|done|by rewrite Eu1].
    pose proof (clist_length kD C) as Hlen. destruct (kc_pool _ _ _ Hk) as [P1 P2].
    specialize (Hlen (kc_pool _ _ _ (q_core _ _ _ HqD)) HclD). lia. }
  intros r' k2 (-> & Hr2 & l1 & l2 & EC & Hdl2 & Htl2). wp_auto.
  destruct (relisted_cache _ _ _ _ Hr2 Hc1) as (c2 & Hc2 & (_ & El2 & _)%unlink_desc).
  assert (cache_pool_lock k2 = false) as Hpl2.
  { destruct Hr2 as (? & ? & ? & _ & ->). apply Hul1. }
  apply wp_bind_inv, (wp_retire_cache k2 a c2); [done|rewrite El2; by eapply (ul_cache _ Hul1)|done|].
  assert (∀ s i, G' !! s = Some i ↔ G !! s = Some i ∧ si_cache i ≠ a) as HG'.
  { intros s i. split.
    - intros Hs. pose proof (sh_sub _ _ _ _ _ _ _ Hsh _ _ Hs) as Hs'. split; [done|]. intros Hia.
      apply (Hnoidle s i Hs). by eapply (cache_empty_lists k A G a c).
    - intros [Hs Hne]. apply (sh_keep _ _ _ _ _ _ _ Hsh); [done|]. by intros [? _]. }
  exists A', G', l1, l2. split; [done|]. split.
  { eapply (slab_rep_destroyed k A G C k1 k2 _ A' G' a c c2 _ l1 l2); try done.
    intros s i Hs. by apply HG' in Hs as [_ ?]. }
  split; [done|]. intros x o. rewrite (sh_blocks _ _ _ _ _ _ _ Hsh x o).
  change (paddr (bud kD) x) with (paddr (bud k) x). split; intros [HA H]; (split; [done|]).
  - intros i Hi. destruct H as [i' Hi']; [eauto|]. apply HG' in Hi' as [Hi' ?]. congruence.
  - intros [i Hi]. exists i. apply HG'. auto.
Qed.

Lemma wp_kmem_cache_destroy k A G C a c :
  slab_rep k A G C → caches k !! a = Some c → is_used c = true → a ≠ NULL →
  wp (kmem_cache_destroy a) (λ _ k',
    if is_kmalloc_cache k a
    then ∃ e, k' = emit e (upd_cache a (with_error KMEM_ERR_DESTROY_KMALLOC_CACHE c) k)
    else if negb (partial c =? NULL) || negb (full c =? NULL)
    then ∃ e, k' = emit e (upd_cache a (with_error KMEM_ERR_DESTROY_NOT_EMPTY c) k)
    else destroy_ok k A G C a k') k.
Proof.
  intros Hrep Hc Hu Ha0. pose proof Hrep as [Hk Hcl Hset Hul Hal].
  pose proof (ul_cache _ Hul _ _ Hc) as Hl. pose proof (Hal _ _ Hc Hu) as Hd.
  unfold kmem_cache_destroy. wp_auto. destruct (is_kmalloc_cache k a).
  { wp_auto. apply (wp_update_cache _ _ _ c); [done|]. wp_auto.
    eapply wp_mono; [eapply wp_kmem_cache_error; [done|apply lookup_insert_eq]|].
    intros r k1 [_ [e ->]]. wp_auto. eauto. }
  wp_auto. apply (wp_acquire_cache _ _ c); [done..|]. wp_auto. apply wp_update_self. wp_auto.
  eapply wp_read_cache; [apply lookup_insert_eq|].
  change (partial (with_destroying true (with_lock true c))) with (partial c).
  change (full (with_destroying true (with_lock true c))) with (full c).
  destruct (negb (partial c =? NULL) || negb (full c =? NULL)) eqn:Ene.
  { wp_auto. apply wp_update_self. wp_auto.
    eapply wp_mono; [eapply wp_kmem_cache_error; [done|apply lookup_insert_eq]|].
    intros r k1 [_ [e ->]]. wp_auto. eapply wp_update_cache; [apply lookup_insert_eq|]. wp_auto.
    eapply wp_release_cache; [apply lookup_insert_eq|done|]. exists e.
    unfold upd_cache, set_caches, emit. simpl. rewrite !insert_insert_eq. repeat f_equal.
    destruct c. simpl in *. by subst. }
  apply orb_false_iff in Ene as [Ep%negb_false_iff%Z.eqb_eq Ef%negb_false_iff%Z.eqb_eq].
  wp_auto. eapply wp_release_cache; [apply lookup_insert_eq|done|]. wp_auto. rewrite upd_cache_twice.
  replace (with_lock false (with_destroying true (with_lock true c))) with (with_destroying true c)
    by (destruct c; simpl in *; by subst).
  by apply wp_bind_inv, (wp_destroy_unused k A G C a c).
Qed.
