(* ===== verification/KmemInit.v ===== *)
(** Bringing the allocator up: [kmem_init] and [my_kinit] of kernel/slab.c.
    The control structures are carved out of the start of the region, the
    kernel's heap gives up its top for the per-process windows, the rest goes
    to the buddy allocator, and the thirteen kmalloc caches are created. *)

From S2P Require Import Prelude.
From S2P Require Import Buddy.
From S2P Require Import BuddyInv.
From S2P Require Import BuddySpec.
From S2P Require Import BuddyProps.
From S2P Require Import Slab.
From S2P Require Import SlabInv.
From S2P Require Import SlabLists.
From S2P Require Import SlabSpec.
From S2P Require Import SlabAlloc.
From S2P Require Import SlabFree.
From S2P Require Import SlabCaches.
From S2P Require Import SlabCreate.

(** * Definitions *)

Definition PGSIZE : Z := 4096.

Definition KHEAPWIN_SIZE : Z := 1024 * PGSIZE.

Definition MIN_KERNEL_HEAP_BYTES : Z := 32 * 1024 * 1024.

Definition PHYSTOP : Z := 2147483648 + 128 * 1024 * 1024.

(** A [struct kmem_state] with the globals of slab.c that describe the
    windows. *)
Record boot_state := BootState {
  kst : kstate;
  kheapwin_base0 : Z;
  kheapwin_total : Z }.

Definition set_kst (k : kstate) (s : boot_state) : boot_state :=
  BootState k (kheapwin_base0 s) (kheapwin_total s).

Definition set_windows (base0 total : Z) (s : boot_state) : boot_state :=
  BootState (kst s) base0 total.

(** [buddy_init] works on the buddy half of the state. *)
Definition on_kst {A} (m : prog kstate A) : prog boot_state A := zoom kst set_kst m.

(** Addresses of the control structures at the start of the region. *)
Definition meta_at (space : Z) : Z := u64 (space + (MAX_ORDER + 1) * sizeof_ptr).

Definition pool_at (space block_num : Z) : Z :=
  u64 (meta_at space + u64 (u64 block_num * sizeof_block_meta)).

Definition boot_end (space block_num : Z) : Z :=
  u64 (pool_at space block_num + MAX_NUM_CACHES * sizeof_cache).

Definition page_up (boot : Z) : Z :=
  if negb (boot mod PGSIZE =? 0) then u64 (boot + (PGSIZE - boot mod PGSIZE)) else boot.

(** The state after the three [memset]s. *)
Definition cleared (space block_num : Z) (k : kstate) : kstate :=
  KState
    (BState space block_num
       (list_to_map ((λ o, (o, NULL)) <$> seqZ 0 (MAX_ORDER + 1)))
       (list_to_map ((λ i, (i, zero_meta)) <$> seqZ 0 block_num))
       (buddy_lock (bud k)) (mem (bud k)))
    (pool_at space block_num)
    (list_to_map ((λ i, (pool_at space block_num + i * sizeof_cache, zero_cache))
                    <$> seqZ 0 MAX_NUM_CACHES))
    (cache_list_lock k) (cache_pool_lock k)
    (head_of_cache_list k) (tail_of_cache_list k) (kmalloc_caches k) (trace k).

Definition set_region (start n : Z) (b : bstate) : bstate :=
  BState start n (free_area b) (block_meta b) (buddy_lock b) (mem b).

(** The window carve-out of the kernel's own heap: the new upper end. *)
Definition carve_windows (alloc_lo alloc_hi : Z) : prog boot_state Z :=
  let avail := u64 (alloc_hi - alloc_lo) in
  if avail <=? MIN_KERNEL_HEAP_BYTES then panic "not enough memory for kernel heap"
  else
    let win_avail := avail - MIN_KERNEL_HEAP_BYTES in
    let nwin := s32 (win_avail / KHEAPWIN_SIZE) in
    if nwin <? 1 then panic "not enough space for windows"
    else
      let total := u64 (nwin * KHEAPWIN_SIZE) in
      let base0 := u64 (alloc_hi - total) in
      let base0 := base0 - base0 mod PGSIZE in
      _ ← modify (set_windows base0 total);
      if base0 <=? alloc_lo then panic "window carve-out corrupted heap"
      else mret base0.

Definition kmalloc_classes : list (string * Z) :=
  [("size-32", 32); ("size-64", 64); ("size-128", 128); ("size-256", 256); ("size-512", 512);
   ("size-1024", 1024); ("size-2048", 2048); ("size-4096", 4096); ("size-8192", 8192);
   ("size-16384", 16384); ("size-32768", 32768); ("size-65536", 65536);
   ("size-131072", 131072)]%string.

Fixpoint create_kmalloc_caches (i : Z) (l : list (string * Z)) : prog kstate unit :=
  match l with
  | [] => mret tt
  | (name, size) :: l' =>
      c ← kmem_cache_create (Some name) size NULL NULL;
      _ ← modify (λ k, set_kmalloc_caches (<[i := c]> (kmalloc_caches k)) k);
      create_kmalloc_caches (i + 1) l'
  end.

(** [is_kernel] is [my_kmem == &kmem].  Clearing the control structures past
    the end of the region is a write outside it. *)
Definition kmem_init (is_kernel : bool) (space block_num : Z) : prog boot_state unit :=
  let region_end := u64 (space + u64 (u64 block_num * PGSIZE)) in
  let boot := boot_end space block_num in
  if boot >? region_end then undefined
  else
    _ ← on_kst (modify (cleared space block_num));
    let alloc_lo := page_up boot in
    alloc_hi ← (if is_kernel then carve_windows alloc_lo region_end else mret region_end);
    let n := s32 (u64 (alloc_hi - alloc_lo) / PGSIZE) in
    _ ← on_kst (modify (λ k, set_bud (set_region alloc_lo n (bud k)) k));
    _ ← on_kst (modify (set_cache_list_lock false));
    _ ← on_kst (modify (set_cache_pool_lock false));
    on_kst (_ ← on_bud buddy_init; create_kmalloc_caches 0 kmalloc_classes).

(** [end_] is the linker symbol [end], the first byte after the kernel. *)
Definition my_kinit (end_ : Z) : prog boot_state unit :=
  let block_num := s32 (u64 (PHYSTOP - end_) / BLOCK_SIZE) in
  kmem_init true end_ block_num.

(** A zeroed [struct kmem_state]. *)
Definition zero_kstate : kstate :=
  KState (BState 0 0 ∅ ∅ false ∅) NULL ∅ false false NULL NULL
    (list_to_map ((λ i, (i, NULL)) <$> seqZ 0 KMALLOC_NUM_CACHES)) [].

Definition zero_boot : boot_state := BootState zero_kstate 0 0.

(** * The kmalloc table *)

(** The first [n] size classes have a cache of their own. *)
Definition kmalloc_upto (n : Z) (k : kstate) : Prop :=
  ∀ i, 0 ≤ i < n → ∃ p c, kmalloc_caches k !! i = Some p ∧ p ≠ NULL ∧ caches k !! p = Some c ∧
    is_used c = true ∧ object_size c = 32 * 2 ^ i ∧ ctor c = NULL.

Definition kmalloc_ok (k : kstate) : Prop := kmalloc_upto KMALLOC_NUM_CACHES k.

(** A pool in which every descriptor is in use has a list of 128 caches. *)
Lemma pool_full k C :
  pool_ok k → clist_ok k C → (∀ a c, caches k !! a = Some c → is_used c = true) →
  (128 ≤ length C)%nat.
Proof.
  intros [Hp Hd] [_ Hnd Hus _] Hall.
  assert ((slot k <$> seqZ 0 MAX_NUM_CACHES) ⊆+ C) as H%submseteq_length.
  { apply NoDup_submseteq.
    - apply NoDup_fmap_2_strong; [|apply NoDup_seqZ]. intros x y _ _.
      unfold slot, sizeof_cache. lia.
    - intros a (i & -> & Hi%elem_of_seqZ)%list_elem_of_fmap. apply Hus.
      destruct (proj2 (Hd (slot k i))) as [c Hc]; [exists i; split; [lia|done]|]. eauto. }
  rewrite length_fmap, length_seqZ in H. unfold MAX_NUM_CACHES in H. lia.
Qed.

(** The sizes for which [kmem_cache_create] finds a layout. *)
Definition creatable (size : Z) : Prop :=
  0 ≤ size ≤ 2 ^ 64 - 8 ∧ round_object_size size = size ∧
  ∃ o, 0 ≤ o ≤ MAX_SLAB_ORDER ∧ try_slab_order size (min_objs_for size) o ≠ None.

Lemma unlink_size c c' : unlink c' = unlink c →
  object_size c' = object_size c ∧ ctor c' = ctor c.
Proof. by intros [=]. Qed.

Lemma wp_create_one k A G C n name size :
  slab_rep k A G C → (length C < 128)%nat → creatable size → 0 ≤ n →
  kmalloc_upto n k → size = 32 * 2 ^ n →
  wp (kmem_cache_create (Some name) size NULL NULL) (λ r k', (r ∉ C) ∧ slab_rep k' A G (r :: C) ∧
    kmalloc_upto (n + 1) (set_kmalloc_caches (<[n := r]> (kmalloc_caches k')) k') ∧
    kmalloc_caches k' = kmalloc_caches k ∧ bud k' = bud k ∧ trace k' = trace k) k.
Proof.
  intros Hrep Hlen (Hs & Hround & o & Ho & Hlay) Hn Htab Esz.
  eapply wp_mono; [by apply wp_kmem_cache_create|]. intros r k' Hpost.
  pose proof Hrep as [Hk Hcl _ _ _]. unfold create_post in Hpost. rewrite Hround in Hpost.
  destruct Hpost as [(_ & _ & Hall)|[(_ & Hno & _)|
    (c0 & c' & order & m & off & Hc0 & Hu0 & Hr0 & HrC & _ & _ & _ & Hc' & Ec' & Hrel & Hrep')]].
  { pose proof (pool_full k C (kc_pool _ _ _ Hk) Hcl Hall). lia. }
  { by destruct Hlay; apply Hno. }
  assert (kmalloc_caches k' = kmalloc_caches k ∧ bud k' = bud k ∧ trace k' = trace k)
    as (Ekc & Eb & Et) by (by destruct Hrel as (? & ? & ? & _ & ->)).
  split; [done|]. split; [done|]. split; [|done].
  intros i Hi. simpl. destruct (decide (i = n)) as [->|Hne].
  - exists r, c'. rewrite lookup_insert_eq. split; [done|]. split; [done|]. split; [done|].
    rewrite <-Esz. unfold unlink in Ec'. by destruct c'; injection Ec'; intros; simplify_eq/=.
  - destruct (Htab i) as (p & c & Hp & Hp0 & Hc & Hu & Hsz & Hct); [lia|].
    assert (p ≠ r) by congruence.
    destruct (relisted_cache _ _ p c Hrel) as (cp & Hcp & E); [by simpl; rewrite lookup_insert_ne|].
    destruct (unlink_size _ _ E) as [E1 E2]. apply unlink_desc in E as (_ & _ & _ & _ & E3 & _).
    exists p, cp. rewrite lookup_insert_ne, Ekc by done. split_and!; congruence.
Qed.

(** The table changes nothing the invariant looks at. *)
Lemma slab_rep_table k A G C t :
  slab_rep k A G C → slab_rep (set_kmalloc_caches t k) A G C.
Proof.
  intros [[Hb Ha [Hp Hd] Hg Hs Hl Ho] [D1 D2 D3 D4] Hset [U1 U2 U3 U4] Hal].
  split; [by split|by split|done|by split|done].
Qed.

Lemma wp_create_all l n k C :
  slab_rep k ∅ ∅ C → (length C + length l < 128)%nat → 0 ≤ n → kmalloc_upto n k →
  (∀ j p, l !! j = Some p → creatable p.2 ∧ p.2 = 32 * 2 ^ (n + Z.of_nat j)) →
  wp (create_kmalloc_caches n l) (λ _ k', ∃ C', slab_rep k' ∅ ∅ C' ∧
    length C' = (length l + length C)%nat ∧ kmalloc_upto (n + zlen l) k' ∧ bud k' = bud k) k.
Proof.
  revert n k C. induction l as [|[name size] l IH]; intros n k C Hrep Hlen Hn Htab Hsz; simpl.
  { wp_auto. exists C. split; [done|]. split; [done|]. by replace (n + Z.of_nat 0) with n by lia. }
  destruct (Hsz 0%nat (name, size) eq_refl) as [Hc Es]. simpl in Hc, Es.
  replace (n + Z.of_nat 0) with n in Es by lia. wp_auto. simpl in Hlen.
  eapply wp_mono; [apply (wp_create_one k ∅ ∅ C n); try done; lia|].
  intros r k1 (_ & Hrep1 & Htab1 & _ & Eb & _). wp_auto.
  eapply wp_mono; [apply (IH (n + 1) _ (r :: C)); simpl; try done; [by apply slab_rep_table|lia|lia|]|].
  - intros j p Hj. destruct (Hsz (S j) p Hj) as [? E]. split; [done|]. rewrite E.
    f_equal. f_equal. lia.
  - intros [] k2 (C' & Hrep2 & Hl2 & Htab2 & Eb2). exists C'. split; [done|].
    split; [rewrite Hl2; simpl; lia|]. split; [|by rewrite Eb2].
    by replace (n + Z.of_nat (S (length l))) with (n + 1 + zlen l) by lia.
Qed.

(** All thirteen size classes have a layout. *)
Lemma kmalloc_classes_creatable j p :
  kmalloc_classes !! j = Some p → creatable p.2 ∧ p.2 = 32 * 2 ^ Z.of_nat j.
Proof.
  assert (∀ size o, 0 ≤ size ≤ 2 ^ 64 - 8 → round_object_size size = size → 0 ≤ o ≤ MAX_SLAB_ORDER →
    match try_slab_order size (min_objs_for size) o with Some _ => true | None => false end = true →
    creatable size) as Hmk.
  { intros size o H1 H2 H3 H4. split; [done|]. split; [done|]. exists o. split; [done|].
    by destruct (try_slab_order _ _ _). }
  intros Hj. do 13 (destruct j as [|j]; [injection Hj as <-; split; [|done];
    first [by apply (Hmk _ 0); vm_compute; auto | by apply (Hmk _ 1); vm_compute; auto
          |by apply (Hmk _ 2); vm_compute; auto | by apply (Hmk _ 3); vm_compute; auto
          |by apply (Hmk _ 4); vm_compute; auto | by apply (Hmk _ 5); vm_compute; auto
          |by apply (Hmk _ 6); vm_compute; auto]|]).
  done.
Qed.

(** * Arrays *)

Lemma array_lookup {V} (f : Z → Z) (v : V) m (Hf : ∀ x y, f x = f y → x = y) a w :
  (list_to_map ((λ i, (f i, v)) <$> seqZ 0 m) : gmap Z V) !! a = Some w ↔
  w = v ∧ ∃ i, 0 ≤ i < m ∧ a = f i.
Proof.
  rewrite <-elem_of_list_to_map.
  - rewrite list_elem_of_fmap. setoid_rewrite elem_of_seqZ. split.
    + intros (i & [= -> ->] & Hi). split; [done|]. exists i. split; [lia|done].
    + intros (-> & i & Hi & ->). exists i. split; [done|lia].
  - rewrite <-list_fmap_compose. apply NoDup_fmap_2_strong; [|apply NoDup_seqZ].
    intros x y _ _. simpl. apply Hf.
Qed.

(** * Initialisation *)

Lemma page_up_align x : page_up x = ALIGN_UP x PGSIZE.
Proof. unfold page_up, ALIGN_UP. by destruct (x mod PGSIZE =? 0). Qed.

(** The bytes the control structures of a region of [n] pages take. *)
Definition header_bytes (n : Z) : Z := 128 + 16 * n + 16384.

Lemma boot_end_eq space n :
  0 ≤ space → 0 ≤ n ≤ int_max → space + header_bytes n < 2 ^ 64 →
  pool_at space n = space + 128 + 16 * n ∧ boot_end space n = space + header_bytes n.
Proof.
  unfold header_bytes, int_max, boot_end, pool_at, meta_at, MAX_ORDER, sizeof_ptr, sizeof_block_meta,
    MAX_NUM_CACHES, sizeof_cache. intros Hs Hn Hb. rewrite (u64_small n), (u64_small (n * 16)) by lia.
  rewrite (u64_small (space + (15 + 1) * 8)) by lia.
  rewrite (u64_small (space + (15 + 1) * 8 + n * 16)) by lia. split; [lia|].
  rewrite u64_small; lia.
Qed.

(** The state [buddy_init] starts from. *)
Definition carved (space block_num lo n : Z) (k : kstate) : kstate :=
  let k1 := cleared space block_num k in
  set_cache_pool_lock false (set_cache_list_lock false
    (set_bud (set_region lo n (bud k1)) k1)).

Lemma carved_slab_rep k space block_num lo n b :
  0 < pool_at space block_num → lo mod BLOCK_SIZE = 0 →
  head_of_cache_list k = NULL → tail_of_cache_list k = NULL →
  buddy_rep b ∅ → buddy_lock b = false → managed_start b = lo → managed_num_blocks b = n →
  (∀ i m, 0 ≤ i < n → block_meta b !! i = Some m → owner_slab m = NULL) →
  slab_rep (set_bud b (carved space block_num lo n k)) ∅ ∅ [].
Proof.
  intros Hpool Hlo Hh Ht Hrep Hl Es En Hown.
  assert (∀ a c, caches (set_bud b (carved space block_num lo n k)) !! a = Some c →
    c = zero_cache ∧ ∃ i, 0 ≤ i < MAX_NUM_CACHES ∧ a = pool_at space block_num + i * sizeof_cache)
    as Hcs.
  { intros a c Hc. apply (array_lookup (λ i, pool_at space block_num + i * sizeof_cache)) in Hc; [done|].
    intros x y. unfold sizeof_cache. lia. }
  split.
  - split; [done|by simpl; rewrite Es| | |done| |].
    + split; [done|]. intros a. split; [intros [c Hc]; by apply Hcs in Hc as [_ ?]|].
      intros (i & Hi & ->). exists zero_cache.
      apply (array_lookup (λ i, pool_at space block_num + i * sizeof_cache)); [|eauto].
      intros x y. unfold sizeof_cache. lia.
    + by intros a c [-> _]%Hcs.
    + by intros a c w [-> _]%Hcs.
    + intros p m Hp Hm s. simpl in Hp, Hm. rewrite En in Hp. rewrite (Hown p m Hp Hm).
      split; [by intros [? <-]|]. by intros (? & ? & _).
  - split; [|constructor| |]; simpl; try congruence.
    intros a. split; [set_solver|]. by intros (c & [-> _]%Hcs & ?).
  - done.
  - split; [done| |done|done]. by intros a c [-> _]%Hcs.
  - by intros a c [-> _]%Hcs.
Qed.

Lemma wp_init_rest k space block_num lo n :
  0 < pool_at space block_num → 0 < lo → lo mod BLOCK_SIZE = 0 → 0 ≤ n ≤ block_num →
  block_num ≤ int_max → lo + n * BLOCK_SIZE ≤ 2 ^ 64 →
  head_of_cache_list k = NULL → tail_of_cache_list k = NULL →
  wp (_ ← on_bud buddy_init; create_kmalloc_caches 0 kmalloc_classes) (λ _ k', ∃ C,
    slab_rep k' ∅ ∅ C ∧ length C = 13%nat ∧ kmalloc_ok k' ∧
    managed_start (bud k') = lo ∧ managed_num_blocks (bud k') = n)
    (carved space block_num lo n k).
Proof.
  intros Hpool Hlo Hal Hn Hbn Htop Hh Ht. wp_auto. unfold on_bud. wp_auto.
  eapply wp_mono; [apply wp_buddy_init|].
  - by split; simpl; [|lia|].
  - intros o Ho. exists NULL. apply (array_lookup (λ i, i) NULL (MAX_ORDER + 1)); [done|]. split; [done|].
    exists o. split; [lia|done].
  - intros i Hi. simpl in Hi. exists zero_meta. apply (array_lookup (λ i, i) zero_meta block_num); [done|].
    split; [done|]. exists i. split; [lia|done].
  - intros [] b (Hrep & Hl & Es & En & Hown). simpl in Es, En, Hown.
    pose proof (carved_slab_rep k space block_num lo n b Hpool Hal Hh Ht Hrep Hl Es En Hown) as Hrep0.
    eapply wp_mono; [apply (wp_create_all kmalloc_classes 0 _ []); try done; simpl; try lia|].
    + intros i Hi. lia.
    + intros j p Hj. replace (0 + Z.of_nat j) with (Z.of_nat j) by lia.
      by apply kmalloc_classes_creatable.
    + intros [] k2 (C & HC & HlC & Htab & Eb). exists C. split; [done|]. split; [done|].
      split; [done|]. rewrite Eb. by split.
Qed.

Lemma wp_carve_windows s lo hi :
  0 ≤ lo → hi < 2 ^ 63 → MIN_KERNEL_HEAP_BYTES + KHEAPWIN_SIZE ≤ hi - lo →
  hi - lo < MIN_KERNEL_HEAP_BYTES + 2 ^ 31 * KHEAPWIN_SIZE →
  wp (carve_windows lo hi) (λ r s', kst s' = kst s ∧ r = kheapwin_base0 s' ∧ r mod PGSIZE = 0 ∧
    MIN_KERNEL_HEAP_BYTES - PGSIZE < r - lo ∧ r + kheapwin_total s' ≤ hi ∧
    1 ≤ kheapwin_total s' / KHEAPWIN_SIZE ∧ kheapwin_total s' mod KHEAPWIN_SIZE = 0) s.
Proof.
  unfold MIN_KERNEL_HEAP_BYTES, KHEAPWIN_SIZE, PGSIZE. intros Hlo Hhi Hmin Hmax.
  unfold carve_windows, MIN_KERNEL_HEAP_BYTES, KHEAPWIN_SIZE, PGSIZE.
  rewrite u64_small by lia. rewrite (proj2 (Z.leb_gt _ _)) by lia. cbv zeta.
  set (w := hi - lo - 32 * 1024 * 1024) in *. set (q := w / (1024 * 4096)).
  assert (1 ≤ q) by (apply Z.div_le_lower_bound; lia).
  assert (q < 2 ^ 31) by (apply Z.div_lt_upper_bound; lia).
  assert (q * (1024 * 4096) ≤ w) by (pose proof (Z.mul_div_le w (1024 * 4096)); lia).
  rewrite s32_small by lia. rewrite (proj2 (Z.ltb_ge _ _)) by lia.
  rewrite (u64_small (q * (1024 * 4096))), (u64_small (hi - q * (1024 * 4096))) by lia.
  set (b := hi - q * (1024 * 4096)). pose proof (Z.mod_pos_bound b 4096).
  wp_auto. rewrite (proj2 (Z.leb_gt _ _)) by lia. wp_auto. simpl.
  split; [done|]. split; [done|]. split.
  { rewrite Zminus_mod_idemp_r, Z.sub_diag. done. }
  split; [lia|]. split; [lia|]. split; [rewrite Z.div_mul; lia|]. apply Z.mod_mul. lia.
Qed.

Lemma page_up_bounds x : 0 ≤ x → x + PGSIZE ≤ 2 ^ 64 →
  x ≤ page_up x < x + PGSIZE ∧ page_up x mod BLOCK_SIZE = 0.
Proof.
  intros Hx Hb. rewrite page_up_align. split; [by apply ALIGN_UP_bounds|by apply ALIGN_UP_mod].
Qed.

(** The control structures of a page-aligned region of at least five pages
    do not reach past its end. *)
Lemma header_fits space n :
  space mod PGSIZE = 0 → 5 ≤ n → 0 ≤ space → space + n * PGSIZE + PGSIZE ≤ 2 ^ 64 →
  page_up (space + header_bytes n) ≤ space + n * PGSIZE.
Proof.
  unfold header_bytes, PGSIZE. intros Hal Hn Hs Hb. rewrite page_up_align, ALIGN_UP_eq by (unfold PGSIZE; lia).
  unfold PGSIZE. apply Z.div_exact in Hal; [|lia].
  assert ((space + (128 + 16 * n + 16384) + 4096 - 1) / 4096 ≤ space / 4096 + n); [|lia].
  apply Z.lt_succ_r, Z.div_lt_upper_bound; lia.
Qed.

Lemma wp_kmem_init is_kernel space n s :
  0 < space → 5 ≤ n ≤ int_max → space + n * PGSIZE + PGSIZE ≤ 2 ^ 63 →
  page_up (space + header_bytes n) ≤ space + n * PGSIZE →
  (is_kernel = true → MIN_KERNEL_HEAP_BYTES + KHEAPWIN_SIZE ≤
     space + n * PGSIZE - page_up (space + header_bytes n)) →
  head_of_cache_list (kst s) = NULL → tail_of_cache_list (kst s) = NULL →
  wp (kmem_init is_kernel space n) (λ _ s', ∃ C lo hi, slab_rep (kst s') ∅ ∅ C ∧
    length C = 13%nat ∧ kmalloc_ok (kst s') ∧ lo = page_up (space + header_bytes n) ∧
    managed_start (bud (kst s')) = lo ∧
    managed_num_blocks (bud (kst s')) = (hi - lo) / PGSIZE ∧
    (if is_kernel then hi = kheapwin_base0 s' ∧ hi + kheapwin_total s' ≤ space + n * PGSIZE ∧
       MIN_KERNEL_HEAP_BYTES - PGSIZE < hi - lo ∧ 1 ≤ kheapwin_total s' / KHEAPWIN_SIZE
     else hi = space + n * PGSIZE)) s.
Proof.
  intros Hs Hn Hb Hfit Hker Hh Ht. unfold int_max, PGSIZE in *.
  assert (space + header_bytes n < 2 ^ 64 ∧ header_bytes n ≤ n * 4096) as [Hhb Hhn]
    by (unfold header_bytes; lia).
  destruct (boot_end_eq space n) as [Ep Eb]; [lia|unfold int_max; lia|done|].
  destruct (page_up_bounds (space + header_bytes n)) as [Hup Hal];
    [unfold header_bytes; lia|unfold PGSIZE, header_bytes; lia|].
  unfold kmem_init. cbv zeta. rewrite Eb. unfold PGSIZE.
  rewrite (u64_small n), (u64_small (n * 4096)), (u64_small (space + n * 4096)) by lia.
  rewrite Z.gtb_ltb, (proj2 (Z.ltb_ge _ _)) by lia.
  set (lo := page_up (space + header_bytes n)) in *. set (top := space + n * 4096) in *.
  unfold on_kst. wp_auto. set (s1 := set_kst (cleared space n (kst s)) s).
  eapply (wp_mono _ (λ hi s2, kst s2 = kst s1 ∧ lo ≤ hi ≤ top ∧
    (if is_kernel then hi = kheapwin_base0 s2 ∧ hi + kheapwin_total s2 ≤ top ∧
       MIN_KERNEL_HEAP_BYTES - 4096 < hi - lo ∧ 1 ≤ kheapwin_total s2 / KHEAPWIN_SIZE
     else hi = top))).
  { destruct is_kernel; [|wp_auto; split_and!; [done|lia|lia|done]]. specialize (Hker eq_refl).
    eapply wp_mono; [apply wp_carve_windows|]; unfold header_bytes in *;
      [lia|unfold top; lia|done|unfold MIN_KERNEL_HEAP_BYTES, KHEAPWIN_SIZE, PGSIZE, top, int_max in *; lia|].
    intros hi s2 (E1 & -> & E3 & E4 & E5 & E6 & E7). split; [done|].
    assert (0 ≤ kheapwin_total s2).
    { pose proof (Z.div_mod (kheapwin_total s2) KHEAPWIN_SIZE). unfold KHEAPWIN_SIZE, PGSIZE in *. lia. }
    unfold PGSIZE in *. split; [|done]. unfold MIN_KERNEL_HEAP_BYTES in *. lia. }
  intros hi s2 (Es2 & Hhi & Hwin). wp_auto. set (m := (hi - lo) / 4096).
  assert (u64 (hi - lo) = hi - lo) as -> by (apply u64_small; unfold top in *; unfold header_bytes in *; lia).
  fold m.
  assert (0 ≤ m ≤ n) as Hm.
  { unfold m. split; [apply Z.div_pos; lia|]. apply Z.div_le_upper_bound; unfold header_bytes in *; lia. }
  rewrite (s32_small m) by lia.
  assert (m * 4096 ≤ hi - lo) by (unfold m; pose proof (Z.mul_div_le (hi - lo) 4096); lia).
  pose proof (wp_init_rest (kst s) space n lo m) as Hrest. unfold BLOCK_SIZE, int_max in Hrest.
  unfold header_bytes in *. rewrite Ep in Hrest.
  match goal with |- wp _ _ ?st => assert (st = carved space n lo m (kst s)) as -> end.
  { cbn [set_kst kst]. rewrite Es2. reflexivity. }
  apply wp_bind_inv. eapply wp_mono.
  { apply Hrest; [lia|lia|exact Hal|lia|lia|unfold top in *; lia|exact Hh|exact Ht]. }
  intros [] k' (C & Hrep & Hlen & Htab & E1 & E2). exists C, lo, hi.
  split_and!; done.
Qed.
