(* ===== verification/SlabProps.v ===== *)
(** What the slab allocator guarantees: objects handed out are disjoint and
    inside their slabs, frees undo allocations and nothing else, bad frees
    change no more than an error code, caches come and go without touching
    others, and the size classes of kmalloc hold what was asked for. *)

From S2P Require Import Prelude.
From S2P Require Import Buddy.
From S2P Require Import BuddyInv.
From S2P Require Import BuddySpec.
From S2P Require Import BuddyProps.
From S2P Require Import Slab.
From S2P Require Import SlabInv.
From S2P Require Import SlabLists.
From S2P Require Import SlabSpec.
From S2P Require Import SlabAlloc.
From S2P Require Import SlabFree.
From S2P Require Import SlabCaches.
From S2P Require Import SlabCreate.
From S2P Require Import KmemInit.

(** * Live objects *)

(** Address [p] is an object of cache [a], whose objects have [sz] bytes, that
    has been handed out. *)
Definition live (k : kstate) (G : gmap Z sinfo) (a p sz : Z) : Prop :=
  ∃ s i c j, allocated k G a s i c j ∧ p = slab_obj_ptr c s j ∧ sz = object_size c.

(** Two byte ranges that share no byte. *)
Definition ranges_apart (p sz p' sz' : Z) : Prop := p + sz ≤ p' ∨ p' + sz' ≤ p.

Section Live.

Context (k : kstate) (A : gmap Z Z) (G : gmap Z sinfo).

Hypothesis Hk : score k A G.

(** The block of a slab holds all its objects. *)
Lemma object_inside s i c j :
  G !! s = Some i → caches k !! si_cache i = Some c → 0 ≤ j < objs_per_slab c →
  ∃ idx, s = paddr (bud k) idx ∧ A !! idx = Some (si_order i) ∧
    paddr (bud k) idx < slab_obj_ptr c s j ∧
    slab_obj_ptr c s j + object_size c ≤ paddr (bud k) (idx + 2 ^ si_order i).
Proof.
  intros Hs Hc Hj. destruct (slab_info k A G s i c Hk Hs Hc) as (idx & h & Es & HA & Hu & Ho & _).
  destruct (slab_geom k A G s i c Hk Hs Hc) as (Hg & Hs0 & Htop).
  destruct (slab_obj_ptr_inside c s Hg Hs0 Htop j Hj) as [H1 H2].
  exists idx. split; [done|]. split; [done|]. split; [congruence|]. rewrite Ho in H2.
  rewrite Es in H2 at 2. unfold paddr, BLOCK_SIZE in *. lia.
Qed.

(** Different objects do not overlap. *)
Lemma objects_apart s i c j s' i' c' j' :
  G !! s = Some i → caches k !! si_cache i = Some c → 0 ≤ j < objs_per_slab c →
  G !! s' = Some i' → caches k !! si_cache i' = Some c' → 0 ≤ j' < objs_per_slab c' →
  (s, j) ≠ (s', j') →
  ranges_apart (slab_obj_ptr c s j) (object_size c) (slab_obj_ptr c' s' j') (object_size c').
Proof.
  intros Hs Hc Hj Hs' Hc' Hj' Hne. destruct (decide (s = s')) as [<-|Hss].
  - rewrite Hs in Hs'. injection Hs' as <-. rewrite Hc in Hc'. injection Hc' as <-.
    destruct (slab_geom k A G s i c Hk Hs Hc) as (Hg & Hs0 & Htop).
    assert (j ≠ j') by congruence. destruct (Z.lt_total j j') as [H1|[H1|H1]]; [left|done|right].
    + by apply slab_obj_apart.
    + by apply slab_obj_apart.
  - destruct (object_inside s i c j Hs Hc Hj) as (x & -> & HA & H1 & H2).
    destruct (object_inside s' i' c' j' Hs' Hc' Hj') as (x' & -> & HA' & H1' & H2').
    assert (x ≠ x') as Hx by congruence. pose proof (kc_buddy _ _ _ Hk) as Hb.
    destruct (buddy_rep_apart _ _ _ _ _ _ Hb HA HA' Hx) as [H|H]; [left|right];
      unfold paddr, BLOCK_SIZE in *; lia.
Qed.

Lemma object_size_pos s i c :
  G !! s = Some i → caches k !! si_cache i = Some c → 8 ≤ object_size c.
Proof. intros Hs Hc. by destruct (slab_geom k A G s i c Hk Hs Hc) as ([] & _). Qed.

(** An address is at most one object. *)
Lemma object_unique s i c j s' i' c' j' :
  G !! s = Some i → caches k !! si_cache i = Some c → 0 ≤ j < objs_per_slab c →
  G !! s' = Some i' → caches k !! si_cache i' = Some c' → 0 ≤ j' < objs_per_slab c' →
  slab_obj_ptr c s j = slab_obj_ptr c' s' j' → s = s' ∧ j = j'.
Proof.
  intros Hs Hc Hj Hs' Hc' Hj' E. destruct (decide ((s, j) = (s', j'))) as [[=]|Hne]; [done|].
  pose proof (object_size_pos s i c Hs Hc). pose proof (object_size_pos s' i' c' Hs' Hc').
  destruct (objects_apart s i c j s' i' c' j') as [H1|H1]; try done; lia.
Qed.

End Live.

(** Descriptors with the same body describe the same objects. *)
Lemma body_obj_ptr c c' s j : body c' = body c → slab_obj_ptr c' s j = slab_obj_ptr c s j.
Proof.
  intros (_ & _ & _ & _ & _ & E1 & E2 & _)%body_links. unfold slab_obj_ptr. by rewrite E1, E2.
Qed.

(** Only slab [s] changes: liveness of all other objects is kept. *)
Lemma live_frame k k' (A : gmap Z Z) G0 G s i' a0 a p sz :
  kframe A G0 a0 k k' → si_cache i' = a →
  live k' (<[s:=i']> G) a p sz ↔
  (∃ s' i c j, s' ≠ s ∧ allocated k G a s' i c j ∧ p = slab_obj_ptr c s' j ∧ sz = object_size c) ∨
  (∃ c j, caches k !! a = Some c ∧ 0 ≤ j < objs_per_slab c ∧ (j ∉ si_free i') ∧
     p = slab_obj_ptr c s j ∧ sz = object_size c).
Proof.
  intros F Hi'. split.
  - intros (s' & i & c' & j & (Hs & Hia & Hc' & Hj & Hjf) & -> & ->).
    destruct (kframe_cache _ _ _ _ _ _ _ F Hc') as (c & Hc & Hb).
    pose proof (body_links _ _ Hb) as (_ & _ & _ & _ & En & Esz & _).
    rewrite (body_obj_ptr _ _ _ _ Hb), Esz. rewrite En in Hj.
    destruct (decide (s' = s)) as [->|Hne].
    + rewrite lookup_insert_eq in Hs. injection Hs as <-. right. by exists c, j.
    + rewrite lookup_insert_ne in Hs by done. left. by exists s', i, c, j.
  - intros [(s' & i & c & j & Hne & (Hs & Hia & Hc & Hj & Hjf) & -> & ->)|(c & j & Hc & Hj & Hjf & -> & ->)];
      destruct (kframe_cache_fwd _ _ _ _ _ _ _ F Hc) as (c' & Hc' & Hb);
      pose proof (body_links _ _ Hb) as (_ & _ & _ & _ & En & Esz & _).
    + exists s', i, c', j. split; [|by rewrite (body_obj_ptr _ _ _ _ Hb), Esz].
      split; [by rewrite lookup_insert_ne|]. by rewrite En.
    + exists s, i', c', j. split; [|by rewrite (body_obj_ptr _ _ _ _ Hb), Esz].
      split; [apply lookup_insert_eq|]. by rewrite En.
Qed.

(** Caches other than the slab's are not concerned. *)
Lemma live_other k k' (A : gmap Z Z) G0 G s i' a0 a p sz :
  kframe A G0 a0 k k' → si_cache i' ≠ a → (∀ i, G !! s = Some i → si_cache i ≠ a) →
  live k' (<[s:=i']> G) a p sz ↔ live k G a p sz.
Proof.
  intros F Hi' HG. split.
  - intros (s' & i & c' & j & (Hs & Hia & Hc' & Hj & Hjf) & -> & ->).
    destruct (kframe_cache _ _ _ _ _ _ _ F Hc') as (c & Hc & Hb).
    pose proof (body_links _ _ Hb) as (_ & _ & _ & _ & En & Esz & _).
    rewrite (body_obj_ptr _ _ _ _ Hb), Esz. rewrite En in Hj.
    destruct (decide (s' = s)) as [->|Hne].
    + rewrite lookup_insert_eq in Hs. injection Hs as <-. done.
    + rewrite lookup_insert_ne in Hs by done. by exists s', i, c, j.
  - intros (s' & i & c & j & (Hs & Hia & Hc & Hj & Hjf) & -> & ->).
    destruct (kframe_cache_fwd _ _ _ _ _ _ _ F Hc) as (c' & Hc' & Hb).
    pose proof (body_links _ _ Hb) as (_ & _ & _ & _ & En & Esz & _).
    exists s', i, c', j. split; [|by rewrite (body_obj_ptr _ _ _ _ Hb), Esz].
    assert (s' ≠ s) by (intros ->; by eapply HG).
    split; [by rewrite lookup_insert_ne|]. by rewrite En.
Qed.

Lemma live_taken k k' A0 G0 G s i j l a a0 c r :
  kframe A0 G0 a0 k k' → NoDup (si_free i) → (∀ q, q ∈ si_free i → 0 ≤ q < objs_per_slab c) →
  si_cache i = a → caches k !! a = Some c → si_free i = j :: l → (∀ i0, G !! s = Some i0 → i0 = i) →
  (G !! s = None → ∀ q, 0 ≤ q < objs_per_slab c → q ∈ si_free i) →
  r = slab_obj_ptr c s j →
  ∀ a' p sz, live k' (<[s:=taken i l]> G) a' p sz ↔
    live k G a' p sz ∨ (a' = a ∧ p = r ∧ sz = object_size c).
Proof.
  intros F Hnd Hrg Hia Hc Hfree HG Hnew -> a' p sz. rewrite Hfree in Hnd, Hrg. apply NoDup_cons in Hnd as [Hjl _].
  destruct (decide (a' = a)) as [->|Hne].
  2:{ rewrite (live_other k k' _ _ G s (taken i l) a0 a') by
        (done || (simpl; congruence) || (intros i0 ->%HG; congruence)). naive_solver. }
  rewrite (live_frame k k' A0 G0 G s (taken i l) a0 a) by done. split.
  - intros [(s' & i' & c' & q & Hs & Hall & -> & ->)|(c' & q & Hcq & Hq & Hql & -> & ->)].
    + left. by exists s', i', c', q.
    + rewrite Hc in Hcq. injection Hcq as <-. simpl in Hql.
      destruct (decide (q = j)) as [->|]; [by right|]. left.
      destruct (G !! s) as [i0|] eqn:Es.
      * assert (i0 = i) as -> by (by apply HG). exists s, i, c, q. split; [|done].
        split; [done|]. split; [done|]. split; [done|]. split; [done|]. rewrite Hfree. set_solver.
      * specialize (Hnew eq_refl q Hq). rewrite Hfree in Hnew. set_solver.
  - intros [(s' & i' & c' & q & Hall & -> & ->)|(_ & -> & ->)].
    + destruct (decide (s' = s)) as [->|]; [right|left; by exists s', i', c', q].
      destruct Hall as (Hs & Hia' & Hcq & Hq & Hqf). apply HG in Hs as ->.
      exists c', q. split_and!; try done; try lia. simpl. rewrite Hfree in Hqf. set_solver.
    + right. exists c, j. split_and!; try done; apply Hrg; set_solver.
Qed.

(** A new object overlaps no object that was live before. *)
Lemma taken_apart k k' A A' G0 G s i j l a0 c :
  kframe A G0 a0 k k' → score k' A' (<[s:=taken i l]> G) → caches k !! si_cache i = Some c →
  NoDup (si_free i) → (∀ q, q ∈ si_free i → 0 ≤ q < objs_per_slab c) → si_free i = j :: l →
  (∀ i0, G !! s = Some i0 → i0 = i) →
  ∀ a' p sz, live k G a' p sz → ranges_apart (slab_obj_ptr c s j) (object_size c) p sz.
Proof.
  intros F Hk' Hc Hnd Hrg Hfree HG a' p sz (s' & i' & c' & q & (Hs & Hia & Hc' & Hq & Hqf) & -> & ->).
  assert (0 ≤ j < objs_per_slab c) as Hj by (apply Hrg; rewrite Hfree; set_solver).
  destruct (kframe_cache_fwd _ _ _ _ _ _ _ F Hc) as (d & Hd & Hbd).
  destruct (kframe_cache_fwd _ _ _ _ _ _ _ F Hc') as (d' & Hd' & Hbd').
  rewrite <-(body_obj_ptr _ _ s j Hbd), <-(body_obj_ptr _ _ s' q Hbd').
  pose proof (body_links _ _ Hbd) as (_ & _ & _ & _ & En & Esz & _).
  pose proof (body_links _ _ Hbd') as (_ & _ & _ & _ & En' & Esz' & _).
  rewrite <-Esz, <-Esz'. rewrite <-En in Hj. rewrite <-En' in Hq.
  assert ((s, j) ≠ (s', q)) as Hne.
  { intros [= <- <-]. apply HG in Hs as ->. rewrite Hfree in Hqf. set_solver. }
  destruct (decide (s' = s)) as [->|Hss].
  - apply HG in Hs as ->. eapply (objects_apart k' A' _ Hk' s (taken i l) d j s (taken i l) d' q);
      try done; try apply lookup_insert_eq. simpl. congruence.
  - eapply (objects_apart k' A' _ Hk' s (taken i l) d j s' i' d' q); try done;
      [apply lookup_insert_eq|by rewrite lookup_insert_ne|by rewrite Hia].
Qed.

Lemma alloc_ok_live k A G C a c r k' :
  slab_rep k A G C → caches k !! a = Some c → is_used c = true → alloc_ok k A G C a c r k' →
  ∃ A' G', slab_rep k' A' G' C ∧ kframe A G a k k' ∧
    (∀ j o, A !! j = Some o → A' !! j = Some o) ∧
    (∀ a' p sz, live k G a' p sz → ranges_apart r (object_size c) p sz) ∧
    (∀ a' p sz, live k' G' a' p sz ↔ live k G a' p sz ∨ (a' = a ∧ p = r ∧ sz = object_size c)).
Proof.
  intros Hrep Hc Hu (A' & s & i & j & l & -> & Hr0 & Hia & Hfree & Hcase & Hrep' & F).
  pose proof (sr_core _ _ _ _ Hrep) as Hk. assert (caches k !! si_cache i = Some c) as Hci by congruence.
  assert (NoDup (si_free i) ∧ (∀ q, q ∈ si_free i → 0 ≤ q < objs_per_slab c) ∧
    (∀ i0, G !! s = Some i0 → i0 = i) ∧
    (G !! s = None → ∀ q, 0 ≤ q < objs_per_slab c → q ∈ si_free i) ∧
    (∀ x o, A !! x = Some o → A' !! x = Some o)) as (Hnd & Hrg & HG & Hnew & HA).
  { destruct Hcase as [(-> & Hs & _)|(idx & _ & HA & Hs & -> & -> & _)].
    - destruct (slab_info k A G s i c Hk Hs Hci) as (_ & h & _ & _ & _ & _ & _ & Hok).
      split; [apply Hok|]. split; [apply Hok|]. split; [congruence|]. split; [congruence|done].
    - simpl. split; [apply NoDup_seqZ|]. split; [intros q Hq%elem_of_seqZ; lia|].
      split; [congruence|]. split; [intros _ q Hq; apply elem_of_seqZ; lia|].
      intros x o Hx. rewrite lookup_insert_ne; [done|congruence]. }
  exists A', (<[s:=taken i l]> G). split; [done|]. split; [done|]. split; [done|]. split.
  - by apply (taken_apart k k' A A' G G s i j l a); [|apply Hrep'|..].
  - by apply (live_taken k k' A G G s i j l a a c).
Qed.

(** A failed call sets the error code; the live objects do not depend on it. *)
Lemma slab_rep_error k A G C a c e :
  slab_rep k A G C → caches k !! a = Some c →
  slab_rep (upd_cache a (with_error e c) k) A G C ∧
  kframe A G a k (upd_cache a (with_error e c) k).
Proof.
  intros Hrep Hc. pose proof Hrep as [Hk _ _ Hul _].
  assert (evolved (dom G) a k (upd_cache a (with_error e c) k)) as He by (by eapply evolved_cache).
  pose proof (evolved_kframe A G a k _ He) as F. split; [|done].
  eapply slab_rep_intro; [done|exact F|by eapply score_cache| |].
  - eexists. split; [apply lookup_insert_eq|]. split; [|done]. by apply (ul_cache _ Hul a c).
  - done.
Qed.

Lemma live_bodies k k' G a p sz :
  (∀ x, body <$> caches k' !! x = body <$> caches k !! x) → live k G a p sz → live k' G a p sz.
Proof.
  intros Hb (s & i & c & j & (Hs & Hi & Hc & Hj & Hf) & -> & ->). specialize (Hb a).
  rewrite Hc in Hb. destruct (caches k' !! a) as [c'|] eqn:Hc'; [|done].
  apply (inj Some) in Hb. exists s, i, c', j. pose proof (body_obj_ptr c c' s j Hb) as Ep.
  injection Hb as ??????????. split; [|split; congruence].
  unfold allocated. split_and!; try done; congruence || lia.
Qed.

(** * Freeing: the live objects afterwards *)

Lemma live_returned k k' A0 G0 A G s i j a a0 c :
  kframe A0 G0 a0 k k' → score k A G → allocated k G a s i c j →
  ∀ a' p sz, live k' (<[s:=returned (objs_per_slab c) i j]> G) a' p sz ↔
    live k G a' p sz ∧ p ≠ slab_obj_ptr c s j.
Proof.
  intros F Hk (Hs & Hia & Hc & Hj & Hjf) a' p sz.
  assert (caches k !! si_cache i = Some c) as Hci by congruence.
  assert (∀ s' i' c' q, allocated k G a' s' i' c' q →
    slab_obj_ptr c' s' q = slab_obj_ptr c s j → s' = s ∧ q = j) as Huniq.
  { intros s' i' c' q (Hs' & Hia' & Hc' & Hq & _) E. subst a'.
    by apply (object_unique k A G Hk s' i' c' q s i c j). }
  destruct (decide (a' = a)) as [->|Hne].
  2:{ rewrite (live_other k k' A0 G0 G s (returned (objs_per_slab c) i j) a0 a')
        by (done || (simpl; congruence) || (intros; congruence)).
      split; [|by intros [? _]]. intros (s' & i' & c' & q & Hall & -> & ->).
      split; [by exists s', i', c', q|]. intros E. destruct (Huniq _ _ _ _ Hall E) as [-> ->].
      destruct Hall as (? & ? & _). congruence. }
  rewrite (live_frame k k' A0 G0 G s (returned (objs_per_slab c) i j) a0 a) by done. simpl. split.
  - intros [(s' & i' & c' & q & Hss & Hall & -> & ->)|(c' & q & Hcq & Hq & Hql & -> & ->)].
    + split; [by exists s', i', c', q|]. intros E. by destruct (Huniq _ _ _ _ Hall E).
    + rewrite Hc in Hcq. injection Hcq as <-. apply not_elem_of_cons in Hql as [Hqj Hqf].
      assert (allocated k G a s i c q) as Hall by done.
      split; [by exists s, i, c, q|]. intros E. by destruct (Huniq _ _ _ _ Hall E).
  - intros [(s' & i' & c' & q & Hall & -> & ->) Hp].
    destruct (decide (s' = s)) as [->|]; [right|left; by exists s', i', c', q].
    destruct Hall as (Hs' & _ & Hc' & Hq & Hqf). rewrite Hs in Hs'. injection Hs' as <-.
    exists c', q. split_and!; try done; try lia. rewrite Hc in Hc'. injection Hc' as <-.
    apply not_elem_of_cons. split; [|done]. congruence.
Qed.

(** * kmalloc *)

(** The class of a size is the smallest one that holds it. *)
Lemma kmalloc_index_spec sz :
  0 < sz ≤ 131072 →
  0 ≤ kmalloc_index sz < KMALLOC_NUM_CACHES ∧ sz ≤ 32 * 2 ^ kmalloc_index sz ∧
  (0 < kmalloc_index sz → 32 * 2 ^ (kmalloc_index sz - 1) < sz).
Proof.
  intros H. unfold kmalloc_index, KMALLOC_NUM_CACHES.
  repeat match goal with |- context [sz <=? ?n] => destruct (Z.leb_spec sz n) end; simpl; lia.
Qed.

Lemma kmalloc_index_big sz : 131072 < sz → kmalloc_index sz = -1.
Proof.
  intros H. unfold kmalloc_index.
  repeat (rewrite (proj2 (Z.leb_gt _ _)) by lia). done.
Qed.

(** The cache that serves [kmalloc(size)]. *)
Lemma kmalloc_cache k size :
  kmalloc_ok k → 0 < size ≤ 131072 →
  ∃ a c, kmalloc_caches k !! kmalloc_index (ALIGN_UP size 8) = Some a ∧ a ≠ NULL ∧
    caches k !! a = Some c ∧ is_used c = true ∧ size ≤ object_size c ∧
    object_size c < Z.max 33 (2 * size + 16) ∧ 0 ≤ kmalloc_index (ALIGN_UP size 8).
Proof.
  intros Hok Hs. assert (size ≤ ALIGN_UP size 8 < size + 8) as Hal by (apply ALIGN_UP_bounds; lia).
  assert (ALIGN_UP size 8 ≤ 131072) as Hmax.
  { change 131072 with (ALIGN_UP 131072 8). apply ALIGN_UP_mono; lia. }
  destruct (kmalloc_index_spec (ALIGN_UP size 8)) as (Hi & Hle & Hmin); [lia|].
  destruct (Hok _ Hi) as (a & c & Ha & Ha0 & Hc & Hu & Hsz & _). exists a, c.
  split_and!; try done; try lia. rewrite Hsz.
  destruct (decide (0 < kmalloc_index (ALIGN_UP size 8))) as [Hp|Hp].
  - specialize (Hmin Hp). rewrite (pow2_pred (kmalloc_index (ALIGN_UP size 8))) by lia. lia.
  - replace (kmalloc_index (ALIGN_UP size 8)) with 0 by lia. lia.
Qed.

Lemma wp_kmalloc k A G C size :
  slab_rep k A G C → kmalloc_ok k → 0 < size ≤ 131072 →
  ∃ a c, caches k !! a = Some c ∧ is_used c = true ∧ size ≤ object_size c ∧
    object_size c < Z.max 33 (2 * size + 16) ∧
    wp (kmalloc size) (λ r k',
      (r = NULL ∧ k' = upd_cache a (with_error KMEM_ERR_BUDDY_OOM c) k) ∨
      alloc_ok k A G C a c r k') k.
Proof.
  intros Hrep Hok Hs. destruct (kmalloc_cache k size Hok Hs) as (a & c & Ha & Ha0 & Hc & Hu & H1 & H2 & H3).
  exists a, c. do 4 (split; [done|]). unfold kmalloc.
  rewrite (proj2 (Z.eqb_neq _ _)) by lia. cbv zeta. rewrite (proj2 (Z.ltb_ge _ _)) by done. wp_auto.
  apply (wp_of_option _ a); [done|]. rewrite (proj2 (Z.eqb_neq _ _)) by done.
  eapply wp_mono; [by apply (wp_kmem_cache_alloc k A G C a c)|].
  intros r k' [(? & _ & _ & ?)|?]; [by left|by right].
Qed.

(** * Concrete states *)

Lemma wp_state {S B} (m : prog S B) Q s :
  wp m Q s → ∃ b, m s = Ok (b, state_of (m s) s) ∧ Q b (state_of (m s) s).
Proof. unfold wp. destruct (m s) as [[b s']| | |]; [|done..]. intros HQ. by exists b. Qed.

(** An arena of 40 pages at 64 KB. *)
Definition booted : kstate := kst (state_of (kmem_init false 65536 40 zero_boot) zero_boot).

(** The same arena after one [kmalloc(100)]. *)
Definition booted_one : kstate := state_of (kmalloc 100 booted) booted.

#[local] Opaque booted booted_one.

Lemma booted_rep : ∃ C, slab_rep booted ∅ ∅ C ∧ kmalloc_ok booted.
Proof.
  assert (wp (kmem_init false 65536 40) (λ _ s, ∃ C, slab_rep (kst s) ∅ ∅ C ∧ kmalloc_ok (kst s)) zero_boot) as H.
  { eapply wp_mono; [apply wp_kmem_init|].
    - lia.
    - unfold int_max. lia.
    - unfold PGSIZE. lia.
    - apply header_fits; unfold PGSIZE; done || lia.
    - done.
    - done.
    - done.
    - intros [] s (C & lo & hi & ? & _ & ? & _). eauto. }
  apply wp_state in H as (b & _ & H). Transparent booted. exact H.
Qed.

#[local] Opaque booted.

(** The size-128 cache of the arena. *)
Lemma booted_cache : ∃ C a c, slab_rep booted ∅ ∅ C ∧ kmalloc_ok booted ∧ a ≠ NULL ∧
  caches booted !! a = Some c ∧ is_used c = true.
Proof.
  destruct booted_rep as (C & Hrep & Hok). destruct (Hok 2) as (a & c & _ & Ha & Hc & Hu & _); [done|].
  exists C, a, c. exact (conj Hrep (conj Hok (conj Ha (conj Hc Hu)))).
Qed.

Definition result_of {S B} (o : outcome (B * S)) (d : B) : B :=
  match o with
  | Ok (b, _) => b
  | _ => d
  end.

Lemma booted_one_result : result_of (kmalloc 100 booted) NULL ≠ NULL.
Proof. vm_compute. congruence. Qed.

(** A successful [kmalloc] leaves a live object. *)
Lemma kmalloc_live k C size :
  slab_rep k ∅ ∅ C → kmalloc_ok k → 0 < size ≤ 131072 →
  result_of (kmalloc size k) NULL ≠ NULL →
  ∃ A G a s i c j, slab_rep (state_of (kmalloc size k) k) A G C ∧ a ≠ NULL ∧
    allocated (state_of (kmalloc size k) k) G a s i c j ∧
    slab_obj_ptr c s j = result_of (kmalloc size k) NULL.
Proof.
  intros Hrep Hok Hs Hr.
  destruct (wp_kmalloc k ∅ ∅ C size Hrep Hok Hs) as (a & c & Hc & Hu & _ & _ & H).
  apply wp_state in H as (r & E & H). set (k' := state_of (kmalloc size k) k) in *.
  rewrite E in Hr. simpl in Hr. rewrite E. simpl. destruct H as [(? & _)|H]; [done|].
  destruct (alloc_ok_live k ∅ ∅ C a c r _ Hrep Hc Hu H) as (A' & G' & Hrep' & _ & _ & _ & Hlive).
  assert (live k' G' a r (object_size c)) as (s & i & c' & j & Hall & Er & _).
  { apply Hlive. right. done. }
  exists A', G', a, s, i, c', j. split; [done|]. split; [|done].
  destruct Hall as (_ & _ & Hc' & _). intros ->.
  pose proof (kc_pool _ _ _ (sr_core _ _ _ _ Hrep')) as Hp.
  destruct (proj1 (po_dom _ Hp NULL)) as (x & Hx & Ex); [eauto|].
  pose proof (po_pos _ Hp). unfold NULL, sizeof_cache in Ex. lia.
Qed.

Lemma booted_one_live : ∃ A G C a s i c j, slab_rep booted_one A G C ∧ a ≠ NULL ∧
  allocated booted_one G a s i c j.
Proof.
  destruct booted_rep as (C & Hrep & Hok).
  destruct (kmalloc_live booted C 100 Hrep Hok ltac:(lia) booted_one_result)
    as (A & G & a & s & i & c & j & H1 & H2 & H3 & _).
  Transparent booted_one. exists A, G, C, a, s, i, c, j. exact (conj H1 (conj H2 H3)).
Qed.

#[local] Opaque booted_one.

(** * The properties *)



(** C6: [kmem_cache_free] of a live object of the cache ends the life of
    exactly that object and keeps the allocator well formed. *)
Theorem kmem_cache_free_correct k A G C a p sz :
  slab_rep k A G C → a ≠ NULL → live k G a p sz →
  wp (kmem_cache_free a p) (λ _ k', ∃ G', slab_rep k' A G' C ∧ kframe A G a k k' ∧
    ∀ a' q sz', live k' G' a' q sz' ↔ live k G a' q sz' ∧ q ≠ p) k.
Proof.
  intros Hrep Ha (s & i & c & j & Hall & -> & _).
  eapply wp_mono; [by apply (wp_kmem_cache_free k A G C a s i c j)|].
  intros [] k' [Hrep' F]. eexists. split; [done|]. split; [done|].
  by apply (live_returned k k' A G A G s i j a a c); [|apply Hrep|].
Qed.

Lemma kmem_cache_free_correct_witness :
  ∃ A G C a p, slab_rep booted_one A G C ∧
    wp (kmem_cache_free a p) (λ _ k', ∃ G', slab_rep k' A G' C) booted_one.
Proof.
  destruct booted_one_live as (A & G & C & a & s & i & c & j & Hrep & Ha & Hall).
  exists A, G, C, a, (slab_obj_ptr c s j). split; [exact Hrep|].
  eapply wp_mono; [apply (kmem_cache_free_correct booted_one A G C a _ (object_size c) Hrep Ha)|].
  - exists s, i, c, j. exact (conj Hall (conj eq_refl eq_refl)).
  - intros [] k' (G' & H & _). exists G'. exact H.
Defined.

(** A free that names a page without a slab, a slab of another cache, or
    a slab without objects in use changes nothing but the error code of the
    cache, which says which of these it was. *)
Theorem kmem_cache_free_rejects k A G C a c objp e :
  slab_rep k A G C → a ≠ NULL → objp ≠ NULL → caches k !! a = Some c → is_used c = true →
  free_error k G a objp = Some e →
  wp (kmem_cache_free a objp) (λ _ k', k' = upd_cache a (with_error e c) k) k.
Proof. apply wp_kmem_cache_free_error. Qed.

(** [k_free] finds the cache of a live object by itself and frees exactly
    that object. *)
Theorem k_free_correct k A G C a p sz :
  slab_rep k A G C → a ≠ NULL → live k G a p sz →
  wp (k_free p) (λ _ k', ∃ G', slab_rep k' A G' C ∧ kframe A G a k k' ∧
    ∀ a' q sz', live k' G' a' q sz' ↔ live k G a' q sz' ∧ q ≠ p) k.
Proof.
  intros Hrep Ha (s & i & c & j & Hall & -> & _).
  eapply wp_mono; [by apply (wp_k_free_object k A G C a s i c j)|].
  intros [] k' [Hrep' F]. eexists. split; [done|]. split; [done|].
  by apply (live_returned k k' A G A G s i j a a c); [|apply Hrep|].
Qed.

(** Object numbers and object addresses of a slab correspond: every
    object lies behind the header and inside the slab's pages, its number is
    recovered from its address, and two objects do not overlap. *)
Theorem slab_objects_roundtrip c s j j' :
  geom_ok c → 0 < s → s + BLOCK_SIZE * 2 ^ slab_order c ≤ 2 ^ 64 →
  0 ≤ j < objs_per_slab c → 0 ≤ j' < objs_per_slab c →
  slab_obj_index c s (slab_obj_ptr c s j) = Some j ∧
  slab_next_array s + 2 * objs_per_slab c ≤ slab_obj_ptr c s j ∧
  slab_obj_ptr c s j + object_size c ≤ s + BLOCK_SIZE * 2 ^ slab_order c ∧
  (j < j' → slab_obj_ptr c s j + object_size c ≤ slab_obj_ptr c s j').
Proof.
  intros Hg Hs Htop Hj Hj'. split; [by apply slab_obj_index_ptr|]. split.
  - rewrite slab_obj_ptr_eq by done. destruct Hg as [_ Hsz _ Hoff Hfit].
    unfold slab_next_array. change (ALIGN_UP sizeof_slab 2) with 32. unfold sizeof_slab, sizeof_ptr in *.
    assert (0 ≤ objs_per_slab c * object_size c) by nia. rewrite u64_small by lia. nia.
  - split; [by apply slab_obj_ptr_inside|]. intros. by apply slab_obj_apart.
Qed.

Definition cache_64 : kmem_cache_t := new_cache None 64 NULL NULL 0 61 160.

(** C7: [kmem_cache_create] fails without a trace when all descriptors are
    taken, and with a still unused descriptor when no slab of up to 2^6 pages
    holds enough objects.  Otherwise it returns an unused descriptor, now at
    the head of the list of caches and with empty slab lists: the slab order
    is the least possible, at least the minimum number of objects fit behind
    the header and the index array, and no other cache, slab or block
    changes. *)
Theorem kmem_cache_create_correct k A G C name size ctorf dtorf :
  slab_rep k A G C → 0 ≤ size ≤ 2 ^ 64 - 8 →
  wp (kmem_cache_create name size ctorf dtorf) (create_post k A G C name size ctorf dtorf) k.
Proof. apply wp_kmem_cache_create. Qed.

Lemma kmem_cache_create_correct_witness :
  ∃ C, slab_rep booted ∅ ∅ C ∧
    wp (kmem_cache_create (Some "task"%string) 200 NULL NULL)
      (create_post booted ∅ ∅ C (Some "task"%string) 200 NULL NULL) booted.
Proof.
  destruct booted_rep as (C & Hrep & _). exists C. split; [exact Hrep|].
  apply (kmem_cache_create_correct booted ∅ ∅ C); [exact Hrep|lia].
Defined.

(** C8: [kmem_cache_destroy] refuses a kmalloc cache and a cache with objects
    in use, setting the error code and printing it; otherwise it returns all
    slabs of the cache to the buddy allocator and takes the descriptor off
    the list, while the slabs of the other caches and all other blocks
    stay. *)
Theorem kmem_cache_destroy_correct k A G C a c :
  slab_rep k A G C → caches k !! a = Some c → is_used c = true → a ≠ NULL →
  wp (kmem_cache_destroy a) (λ _ k',
    if is_kmalloc_cache k a
    then ∃ e, k' = emit e (upd_cache a (with_error KMEM_ERR_DESTROY_KMALLOC_CACHE c) k)
    else if negb (partial c =? NULL) || negb (full c =? NULL)
    then ∃ e, k' = emit e (upd_cache a (with_error KMEM_ERR_DESTROY_NOT_EMPTY c) k)
    else ∃ A' G' l1 l2, C = l1 ++ a :: l2 ∧ slab_rep k' A' G' (l1 ++ l2) ∧
      (∀ s i, G' !! s = Some i ↔ G !! s = Some i ∧ si_cache i ≠ a) ∧
      (∀ x o, A' !! x = Some o ↔ A !! x = Some o ∧
         ∀ i, G !! paddr (bud k) x = Some i → si_cache i ≠ a)) k.
Proof. apply wp_kmem_cache_destroy. Qed.

Lemma kmem_cache_destroy_correct_witness :
  ∃ C a c, slab_rep booted ∅ ∅ C ∧ caches booted !! a = Some c ∧
    wp (kmem_cache_destroy a) (λ _ k', True) booted.
Proof.
  destruct booted_cache as (C & a & c & Hrep & _ & Ha & Hc & Hu).
  exists C, a, c. split; [exact Hrep|]. split; [exact Hc|].
  eapply wp_mono; [exact (kmem_cache_destroy_correct booted ∅ ∅ C a c Hrep Hc Hu Ha)|].
  intros ? ? _. exact I.
Defined.

(** [kmem_cache_shrink] terminates, frees every slab of the cache that
    has no object in use and no other slab, and returns how many there
    were. *)
Theorem kmem_cache_shrink_correct k A G a c :
  quiet k A G → caches k !! a = Some c → is_used c = true →
  wp (kmem_cache_shrink a) (λ freed k', ∃ A' G', shrunk a k A G k' A' G' ∧
    (∀ s i, G' !! s = Some i ↔ G !! s = Some i ∧ ¬ idle_slab a i) ∧
    freed = Z.of_nat (size (idle_slabs a G))) k.
Proof.
  intros Hq Hc Hu. eapply wp_mono; [by apply (wp_kmem_cache_shrink k A G a c)|].
  intros freed k' (A' & G' & Hsh & Hno & ->). exists A', G'. split; [done|]. split; [|done].
  intros s i. split.
  - intros Hs. split; [by apply (sh_sub _ _ _ _ _ _ _ Hsh)|by eapply Hno].
  - intros [Hs Hi]. by apply (sh_keep _ _ _ _ _ _ _ Hsh).
Qed.



(** The rounding of sizes wraps around: for the seven largest sizes,
    [kmalloc] behaves as for a size of one and hands out a 32-byte object, and
    [kmem_cache_create] divides by an object size of zero when a descriptor is
    free. *)
Theorem huge_sizes_wrap size :
  2 ^ 64 - 8 < size < 2 ^ 64 →
  (∀ k, kmalloc size k = kmalloc 1 k) ∧ round_object_size size = 0 ∧
  (∀ k A G C name ctorf dtorf, slab_rep k A G C → (length C < 128)%nat →
     kmem_cache_create name size ctorf dtorf k = UB).
Proof.
  intros Hs. assert (ALIGN_UP size 8 = 0) as Eal.
  { unfold ALIGN_UP. cbv zeta. assert (size mod 8 = size - (2 ^ 64 - 8)) as Em.
    { symmetry. apply Z.mod_unique with (2 ^ 61 - 1); lia. }
    rewrite Em, (proj2 (Z.eqb_neq _ _)) by lia. unfold u64.
    by replace (size + (8 - (size - (2 ^ 64 - 8)))) with (2 ^ 64) by lia. }
  assert (round_object_size size = 0) as Er.
  { unfold round_object_size, sizeof_ptr. rewrite (proj2 (Z.ltb_ge _ _)) by lia. exact Eal. }
  split; [|split; [done|]].
  - intros k. unfold kmalloc. rewrite (proj2 (Z.eqb_neq size _)) by lia. cbv zeta. by rewrite Eal.
  - intros k A G C name ctorf dtorf Hrep Hlen. pose proof Hrep as [Hk Hcl _ Hul _].
    assert (wp find_free_cache_slot (λ i k', k' = set_cache_pool_lock true k ∧ 0 ≤ i ∧
      ∃ c, caches k !! slot k i = Some c) (set_cache_pool_lock true k)) as H.
    { pose proof (kc_pool _ _ _ Hk) as Hp.
      eapply wp_mono; [apply wp_find_free_cache_slot; by destruct Hp|].
      intros i k' [-> [(Hi & c & Hc & _)|[_ Hall]]]; [split; [done|]; split; [lia|by exists c]|].
      pose proof (pool_full k C Hp Hcl Hall). lia. }
    apply wp_Ok in H as (i & k' & E & -> & Hi & c & Hc).
    unfold kmem_cache_create, acquire_cache_pool, get, modify, mbind, prog_bind.
    rewrite (ul_pool _ Hul), E. rewrite (proj2 (Z.ltb_ge _ _)) by lia.
    change (cache_pool (set_cache_pool_lock true k) + i * sizeof_cache) with (slot k i).
    unfold update_cache, of_option, release_cache_pool, get, modify, mbind, prog_bind, mret, prog_ret.
    simpl. rewrite Hc. simpl. repeat (rewrite lookup_insert_eq; simpl). by rewrite Er.
Qed.

(** A second free of an object is noticed only when its slab has no
    other object in use.  With another object of the slab in use the object
    enters the free list twice, and two later allocations return the same
    address. *)
Theorem double_free_shares_object :
  ∃ p q k, (p ← kmalloc 100; q ← kmalloc 100; _ ← k_free p; _ ← k_free p;
            x ← kmalloc 100; y ← kmalloc 100; mret (p, q, x, y)) booted = Ok (p, q, p, p, k) ∧
           p ≠ q ∧ p ≠ NULL.
Proof. do 3 eexists. split; [vm_compute; reflexivity|]. split; discriminate. Qed.



(** An arena of fewer than five pages is too small for the control
    structures: [kmem_init] clears memory past its end. *)
Theorem kmem_init_small_arena is_kernel space n s :
  0 < space → 0 ≤ n ≤ 4 → space + 2 ^ 20 ≤ 2 ^ 64 → kmem_init is_kernel space n s = UB.
Proof.
  intros Hs Hn Hb. unfold kmem_init. cbv zeta.
  destruct (boot_end_eq space n) as [_ ->]; [lia|unfold int_max; lia|unfold header_bytes; lia|].
  rewrite (u64_small n) by lia. unfold header_bytes, PGSIZE.
  rewrite (u64_small (n * 4096)), (u64_small (space + n * 4096)) by lia.
  rewrite Z.gtb_ltb, (proj2 (Z.ltb_lt _ _)) by lia. done.
Qed.
