(* ===== verification/Cstring.v ===== *)
(** Byte memory and the string routines of the kernel (kernel/string.c).

    Memory is a finite map from addresses to bytes; an access outside it is
    undefined.  [char] is unsigned on the RISC-V target. *)

From S2P Require Import Prelude.

Abbreviation bmem := (gmap Z Z).

Definition load8 (a : Z) : prog bmem Z := m ← get; of_option (m !! a).

Definition store8 (a v : Z) : prog bmem unit :=
  m ← get;
  match m !! a with
  | Some _ => modify (<[a := v]>)
  | None => undefined
  end.

(** [n--] and [n + 1] on an [int]: signed overflow is undefined. *)
Definition int_dec (n : Z) : prog bmem Z :=
  if n <=? - 2 ^ 31 then undefined else mret (n - 1).

Definition int_inc (n : Z) : prog bmem Z :=
  if int_max <=? n then undefined else mret (n + 1).

(** * The routines *)

Definition memset (dst c n : Z) : prog bmem Z :=
  _ ← loop (S (Z.to_nat n))
        (λ i,
           if u32 i <? n then
             _ ← store8 (u64 (dst + i)) (u8 c);
             i' ← int_inc i; mret (inl i')
           else mret (inr tt))
        0;
  mret dst.

Definition memcmp (v1 v2 n : Z) : prog bmem Z :=
  loop (S (Z.to_nat n))
    (λ '(n, s1, s2),
       if 0 <? n then
         c1 ← load8 s1;
         c2 ← load8 s2;
         if negb (c1 =? c2) then mret (inr (c1 - c2))
         else mret (inl (n - 1, u64 (s1 + 1), u64 (s2 + 1)))
       else mret (inr 0))
    (n, v1, v2).

Definition memmove (dst src n : Z) : prog bmem Z :=
  if n =? 0 then mret dst
  else
    _ ← (if (src <? dst) && (dst <? u64 (src + n)) then
           loop (S (Z.to_nat n))
             (λ '(n, d, s),
                if 0 <? n then
                  let d := u64 (d - 1) in
                  let s := u64 (s - 1) in
                  c ← load8 s; _ ← store8 d c; mret (inl (n - 1, d, s))
                else mret (inr tt))
             (n, u64 (dst + n), u64 (src + n))
         else
           loop (S (Z.to_nat n))
             (λ '(n, d, s),
                if 0 <? n then
                  c ← load8 s; _ ← store8 d c;
                  mret (inl (n - 1, u64 (d + 1), u64 (s + 1)))
                else mret (inr tt))
             (n, dst, src));
    mret dst.

Definition memcpy (dst src n : Z) : prog bmem Z := memmove dst src n.

Definition strncmp (p q n : Z) : prog bmem Z :=
  r ← loop (S (Z.to_nat n))
        (λ '(n, p, q),
           if 0 <? n then
             cp ← load8 p;
             if negb (cp =? 0) then
               cq ← load8 q;
               if cp =? cq then mret (inl (n - 1, u64 (p + 1), u64 (q + 1)))
               else mret (inr (n, p, q))
             else mret (inr (n, p, q))
           else mret (inr (n, p, q)))
        (n, p, q);
  let '(n, p, q) := r in
  if n =? 0 then mret 0
  else cp ← load8 p; cq ← load8 q; mret (cp - cq).

Definition strncpy (s t n : Z) : prog bmem Z :=
  r ← loop (S (Z.to_nat n))
        (λ '(n, s, t),
           n' ← int_dec n;
           if 0 <? n then
             c ← load8 t; _ ← store8 s c;
             if negb (c =? 0) then mret (inl (n', u64 (s + 1), u64 (t + 1)))
             else mret (inr (n', u64 (s + 1)))
           else mret (inr (n', s)))
        (n, s, t);
  _ ← loop (S (Z.to_nat (fst r)))
        (λ '(n, s),
           n' ← int_dec n;
           if 0 <? n then _ ← store8 s 0; mret (inl (n', u64 (s + 1)))
           else mret (inr tt))
        r;
  mret s.

Definition safestrcpy (s t n : Z) : prog bmem Z :=
  if n <=? 0 then mret s
  else
    e ← loop (S (Z.to_nat n))
          (λ '(n, s, t),
             n' ← int_dec n;
             if 0 <? n' then
               c ← load8 t; _ ← store8 s c;
               if negb (c =? 0) then mret (inl (n', u64 (s + 1), u64 (t + 1)))
               else mret (inr (u64 (s + 1)))
             else mret (inr s))
          (n, s, t);
    _ ← store8 e 0;
    mret s.

(** The scan is bounded by the number of mapped bytes: a run of more than
    that many bytes leaves the memory. *)
Definition strlen (s : Z) : prog bmem Z :=
  m ← get;
  loop (S (size m))
    (λ n,
       c ← load8 (u64 (s + n));
       if c =? 0 then mret (inr n) else n' ← int_inc n; mret (inl n'))
    0.

(** * Memory ranges and strings in memory *)

Definition mapped (m : bmem) (a n : Z) : Prop :=
  0 ≤ a ∧ a + n < 2 ^ 64 ∧ ∀ i, 0 ≤ i < n → is_Some (m !! (a + i)).

(** [field m a n l]: the bytes before the first NUL of the [n]-byte field at
    [a] are [l]; a field with no NUL holds [n] bytes. *)
Definition field (m : bmem) (a n : Z) (l : list Z) : Prop :=
  0 ≤ a ∧ a + n < 2 ^ 64 ∧ zlen l ≤ n ∧
  (∀ i c, l !! i = Some c → m !! (a + Z.of_nat i) = Some c ∧ c ≠ 0) ∧
  (zlen l < n → m !! (a + zlen l) = Some 0).

(** A terminated string. *)
Definition cstr (m : bmem) (a : Z) (l : list Z) : Prop := field m a (zlen l + 1) l.

(** [m'] is [m] with the bytes [lo, hi) of [dst] taken from [src]. *)
Definition copied (m : bmem) (dst src lo hi : Z) (m' : bmem) : Prop :=
  ∀ a, m' !! a = if decide (dst + lo ≤ a < dst + hi) then m !! (src + (a - dst)) else m !! a.

Lemma wp_load8 a v m (Q : Z → bmem → Prop) : m !! a = Some v → Q v m → wp (load8 a) Q m.
Proof. intros H HQ. unfold load8. wp_auto. by eapply wp_of_option. Qed.

Lemma wp_store8 a v m (Q : unit → bmem → Prop) :
  is_Some (m !! a) → Q tt (<[a := v]> m) → wp (store8 a v) Q m.
Proof. intros [w H] HQ. unfold store8. wp_auto. rewrite H. by wp_auto. Qed.

Lemma wp_int_dec n m (Q : Z → bmem → Prop) : - 2 ^ 31 < n → Q (n - 1) m → wp (int_dec n) Q m.
Proof. intros H HQ. unfold int_dec. destruct (Z.leb_spec n (- 2 ^ 31)); [lia|by wp_auto]. Qed.

Lemma wp_int_inc n m (Q : Z → bmem → Prop) : n < int_max → Q (n + 1) m → wp (int_inc n) Q m.
Proof. intros H HQ. unfold int_inc. destruct (Z.leb_spec int_max n); [lia|by wp_auto]. Qed.

Lemma mapped_at m a n i : mapped m a n → 0 ≤ i < n → is_Some (m !! (a + i)).
Proof. intros (_ & _ & H). apply H. Qed.

Lemma mapped_sub m a n b k : mapped m a n → a ≤ b → b + k ≤ a + n → mapped m b k.
Proof.
  intros (H0 & H1 & H) Hb Hk. split_and!; [lia..|]. intros i Hi.
  replace (b + i) with (a + (b - a + i)) by lia. apply H. lia.
Qed.

Lemma mapped_insert m a n b v : mapped m a n → is_Some (m !! b) → mapped (<[b := v]> m) a n.
Proof.
  intros (H0 & H1 & H) Hb. split_and!; [done..|]. intros i Hi.
  destruct (decide (b = a + i)) as [->|]; [by rewrite lookup_insert_eq|].
  rewrite lookup_insert_ne by done. by apply H.
Qed.

Lemma copied_nil m dst src i : copied m dst src i i m.
Proof. intros a. by rewrite decide_False by lia. Qed.

Lemma copied_mapped m dst src lo hi m' n b k :
  copied m dst src lo hi m' → 0 ≤ lo → hi ≤ n → mapped m src n → mapped m b k → mapped m' b k.
Proof.
  intros Hc Hlo Hhi (_ & _ & Hs) (H0 & H1 & H). split_and!; [done..|].
  intros i Hi. rewrite Hc. case_decide; [|by apply H].
  apply Hs. lia.
Qed.

(** One more byte, at either end of what has been copied. *)
Lemma copied_up m dst src hi m' v :
  copied m dst src 0 hi m' → 0 ≤ hi → m !! (src + hi) = Some v →
  copied m dst src 0 (hi + 1) (<[dst + hi := v]> m').
Proof.
  intros Hc Hhi Hv a. destruct (decide (a = dst + hi)) as [->|Hne].
  - rewrite lookup_insert_eq, decide_True by lia. rewrite <- Hv. f_equal. lia.
  - rewrite lookup_insert_ne by done. rewrite Hc. repeat case_decide; try done; lia.
Qed.

Lemma copied_down m dst src lo n m' v :
  copied m dst src (lo + 1) n m' → 0 ≤ lo < n → m !! (src + lo) = Some v →
  copied m dst src lo n (<[dst + lo := v]> m').
Proof.
  intros Hc Hlo Hv a. destruct (decide (a = dst + lo)) as [->|Hne].
  - rewrite lookup_insert_eq, decide_True by lia. rewrite <- Hv. f_equal. lia.
  - rewrite lookup_insert_ne by done. rewrite Hc. repeat case_decide; try done; lia.
Qed.

(** * [memset] and [memmove] *)

Lemma wp_memset dst c n m :
  mapped m dst n → 0 ≤ n ≤ int_max →
  wp (memset dst c n) (λ r m', r = dst ∧
    ∀ a, m' !! a = if decide (dst ≤ a < dst + n) then Some (u8 c) else m !! a) m.
Proof.
  intros Hm Hn. unfold memset. wp_auto.
  apply (wp_loop (λ k i m', k = Z.to_nat (n - i) ∧ 0 ≤ i ≤ n ∧
    ∀ a, m' !! a = if decide (dst ≤ a < dst + i) then Some (u8 c) else m !! a) (Z.to_nat n)).
  - split_and!; [f_equal; lia|lia..|]. intros a. by rewrite decide_False by lia.
  - lia.
  - intros k i m' (-> & Hi & Hc). destruct Hm as (H0 & H1 & Hm).
    unfold int_max in Hn. rewrite u32_small by lia.
    destruct (Z.ltb_spec i n); wp_auto.
    + rewrite u64_small by lia. apply wp_store8; [rewrite Hc; case_decide; [done|apply Hm; lia]|].
      wp_auto. apply wp_int_inc; [unfold int_max; lia|]. wp_auto.
      exists (Z.to_nat (n - (i + 1))). split_and!; [lia|done|lia..|].
      intros a. destruct (decide (a = dst + i)) as [->|].
      * by rewrite lookup_insert_eq, decide_True by lia.
      * rewrite lookup_insert_ne by done. rewrite Hc. repeat case_decide; try done; lia.
    + split; [done|]. by replace n with i by lia.
Qed.

Lemma wp_move_down m dst src n :
  0 < n → mapped m dst n → mapped m src n → src < dst → 
  wp (loop (S (Z.to_nat n))
        (λ '(n, d, s),
           if 0 <? n then
             let d := u64 (d - 1) in
             let s := u64 (s - 1) in
             c ← load8 s; _ ← store8 d c; mret (inl (n - 1, d, s))
           else mret (inr tt))
        (n, u64 (dst + n), u64 (src + n))) (λ _, copied m dst src 0 n) m.
Proof.
  intros Hn Hd Hs Hlt. pose proof Hd as (Hd0 & Hd1 & _). pose proof Hs as (Hs0 & Hs1 & _).
  apply (wp_loop (λ k '(i, d, s) m', k = Z.to_nat i ∧ 0 ≤ i ≤ n ∧ d = dst + i ∧ s = src + i ∧
    copied m dst src i n m') (Z.to_nat n)).
  - split_and!; [done|lia..| | |by apply copied_nil]; apply u64_small; lia.
  - lia.
  - intros k [[i d] s] m' (-> & Hi & -> & -> & Hc). destruct (Z.ltb_spec 0 i) as [Hpos|].
    2: { wp_auto. by replace 0 with i by lia. }
    cbv zeta. rewrite !u64_small by lia.
    destruct (mapped_at m src n (i - 1)) as [v Hv]; [done|lia|].
    wp_auto. apply (wp_load8 _ v).
    { rewrite Hc, decide_False by lia. rewrite <- Hv. f_equal. lia. }
    wp_auto. apply wp_store8.
    { replace (dst + i - 1) with (dst + (i - 1)) by lia.
      eapply mapped_at; [apply (copied_mapped _ _ _ _ _ _ n _ _ Hc); [lia..|done|exact Hd]|lia]. }
    wp_auto. exists (Z.to_nat (i - 1)). split_and!; [lia|done|lia..|].
    replace (dst + i - 1) with (dst + (i - 1)) by lia.
    apply copied_down; [by replace (i - 1 + 1) with i by lia|lia|done].
Qed.

Lemma wp_move_up m dst src n :
  0 < n → mapped m dst n → mapped m src n → dst ≤ src ∨ src + n ≤ dst → 
  wp (loop (S (Z.to_nat n))
        (λ '(n, d, s),
           if 0 <? n then
             c ← load8 s; _ ← store8 d c;
             mret (inl (n - 1, u64 (d + 1), u64 (s + 1)))
           else mret (inr tt))
        (n, dst, src)) (λ _, copied m dst src 0 n) m.
Proof.
  intros Hn Hd Hs Hlt. pose proof Hd as (Hd0 & Hd1 & _). pose proof Hs as (Hs0 & Hs1 & _).
  apply (wp_loop (λ k '(i, d, s) m', k = Z.to_nat i ∧ 0 ≤ i ≤ n ∧ d = dst + (n - i) ∧
    s = src + (n - i) ∧ copied m dst src 0 (n - i) m') (Z.to_nat n)).
  - split_and!; [done|lia..|]. replace (n - n) with 0 by lia. apply copied_nil.
  - lia.
  - intros k [[i d] s] m' (-> & Hi & -> & -> & Hc). destruct (Z.ltb_spec 0 i) as [Hpos|].
    2: { wp_auto. by replace (n - i) with n in Hc by lia. }
    destruct (mapped_at m src n (n - i)) as [v Hv]; [done|lia|].
    wp_auto. apply (wp_load8 _ v); [by rewrite Hc, decide_False by lia|].
    wp_auto. apply wp_store8; [eapply mapped_at; [apply (copied_mapped _ _ _ _ _ _ n _ _ Hc); [lia..|done|exact Hd]|lia]|].
    wp_auto. rewrite !u64_small by lia. exists (Z.to_nat (i - 1)). split_and!; [lia|done|lia..|].
    replace (n - (i - 1)) with (n - i + 1) by lia. apply copied_up; [done|lia|done].
Qed.

Lemma wp_memmove dst src n m :
  0 ≤ n < 2 ^ 32 → mapped m dst n → mapped m src n →
  wp (memmove dst src n) (λ r m', r = dst ∧ copied m dst src 0 n m') m.
Proof.
  intros Hn Hd Hs. unfold memmove. destruct (Z.eqb_spec n 0) as [->|Hne].
  { apply wp_ret. split; [done|apply copied_nil]. }
  pose proof Hd as (Hd0 & Hd1 & _). pose proof Hs as (Hs0 & Hs1 & _).
  apply wp_bind. assert (u64 (src + n) = src + n) as E by (apply u64_small; lia).
  destruct (Z.ltb_spec src dst), (Z.ltb_spec dst (u64 (src + n))); cbn [andb].
  1: eapply wp_mono; [apply wp_move_down; [lia|done..]|].
  2-4: eapply wp_mono; [apply wp_move_up; [lia|done..|lia]|].
  all: intros [] m' Hc; by wp_auto.
Qed.

(** * Strings *)

(** The byte of a string at index [i], the terminator included. *)
Definition nul (l : list Z) (i : nat) : Z := default 0 (l !! i).

Lemma field_nul m a n l i :
  field m a n l → (i ≤ length l)%nat → Z.of_nat i < n → m !! (a + Z.of_nat i) = Some (nul l i).
Proof.
  intros (_ & _ & _ & Hl & H0) Hi Hn. unfold nul. destruct (l !! i) as [c|] eqn:E; simpl.
  - by apply Hl.
  - apply lookup_ge_None_1 in E. replace i with (length l) in * by lia. apply H0. lia.
Qed.

Lemma field_nul_0 m a n l i : field m a n l → (i ≤ length l)%nat → nul l i = 0 → i = length l.
Proof.
  intros (_ & _ & _ & Hl & _) Hi H0. unfold nul in H0. destruct (l !! i) as [c|] eqn:E.
  - destruct (Hl i c) as [_ ?]; [done|]. by simpl in H0.
  - apply lookup_ge_None_1 in E. lia.
Qed.

(** A longer common prefix. *)
Lemma take_nul_S m a b n l1 l2 i :
  field m a n l1 → field m b n l2 → (i ≤ length l1)%nat → (i ≤ length l2)%nat →
  take i l1 = take i l2 → nul l1 i = nul l2 i →
  (nul l1 i = 0 → l1 = l2) ∧
  (nul l1 i ≠ 0 → (S i ≤ length l1)%nat ∧ (S i ≤ length l2)%nat ∧ take (S i) l1 = take (S i) l2).
Proof.
  intros H1 H2 Hi1 Hi2 Ht He. split.
  - intros H0. assert (i = length l1) by (by eapply (field_nul_0 m a n)).
    assert (i = length l2) by (eapply (field_nul_0 m b n); [done..|congruence]).
    rewrite <- (firstn_all l1), <- (firstn_all l2). congruence.
  - intros H0. unfold nul in *. destruct (l1 !! i) as [c|] eqn:E1; [|done].
    destruct (l2 !! i) as [c'|] eqn:E2; [|done]. simpl in *. subst c'.
    pose proof (lookup_lt_Some _ _ _ E1). pose proof (lookup_lt_Some _ _ _ E2).
    split_and!; [lia..|]. rewrite (take_S_r _ _ c), (take_S_r l2 _ c) by done. by rewrite Ht.
Qed.

Lemma wp_strncmp p q n m l1 l2 :
  field m p n l1 → field m q n l2 →
  wp (strncmp p q n) (λ r m', m' = m ∧ (r = 0 → l1 = l2) ∧
    ∃ i, take i l1 = take i l2 ∧ r = nul l1 i - nul l2 i) m.
Proof.
  intros H1 H2. pose proof H1 as (Hp0 & Hp1 & Hl1 & _). pose proof H2 as (Hq0 & Hq1 & Hl2 & _).
  unfold strncmp. apply wp_bind.
  apply (wp_loop (λ k '(j, p', q') m', m' = m ∧ ∃ i : nat, k = Z.to_nat j ∧ j = n - Z.of_nat i ∧
    p' = p + Z.of_nat i ∧ q' = q + Z.of_nat i ∧ (i ≤ length l1)%nat ∧ (i ≤ length l2)%nat ∧
    take i l1 = take i l2) (Z.to_nat n)); [|lia|].
  { split; [done|]. exists 0%nat. split_and!; [done|lia..|done]. }
  intros k [[j p'] q'] m' (-> & i & -> & -> & -> & -> & Hi1 & Hi2 & Ht).
  destruct (Z.ltb_spec 0 (n - Z.of_nat i)) as [Hpos|].
  2: { wp_auto. rewrite (proj2 (Z.eqb_eq _ _)) by lia. apply wp_ret.
    assert (l1 = l2) by (rewrite <- (firstn_all l1), <- (firstn_all l2);
      by replace (length l1) with i by lia; replace (length l2) with i by lia).
    split_and!; [done..|]. exists i. subst. split; [done|lia]. }
  pose proof (field_nul _ _ _ _ i H1 Hi1 ltac:(lia)) as Ep.
  pose proof (field_nul _ _ _ _ i H2 Hi2 ltac:(lia)) as Eq.
  pose proof (take_nul_S m p q n l1 l2 i H1 H2 Hi1 Hi2 Ht) as Hn.
  assert (wp (if n - Z.of_nat i =? 0 then mret 0
    else cp ← load8 (p + Z.of_nat i); cq ← load8 (q + Z.of_nat i); mret (cp - cq))
    (λ r m', m' = m ∧ (r = 0 → nul l1 i = nul l2 i) ∧ ∃ i, take i l1 = take i l2 ∧ r = nul l1 i - nul l2 i) m)
    as Hexit.
  { rewrite (proj2 (Z.eqb_neq _ _)) by lia. wp_auto. apply (wp_load8 _ _ _ _ Ep).
    wp_auto. apply (wp_load8 _ _ _ _ Eq). wp_auto. split_and!; [done|lia|]. by exists i. }
  wp_auto. apply (wp_load8 _ _ _ _ Ep). destruct (Z.eqb_spec (nul l1 i) 0) as [E0|E0]; cbn [negb].
  { wp_auto. eapply wp_mono; [exact Hexit|]. intros r m' (-> & Hr & Hx). split_and!; [done| |done].
    intros ->. by apply (Hn (Hr eq_refl)). }
  wp_auto. apply (wp_load8 _ _ _ _ Eq). destruct (Z.eqb_spec (nul l1 i) (nul l2 i)) as [E|E].
  - wp_auto. destruct (Hn E) as [_ (Hs1 & Hs2 & Hs)]; [done|].
    exists (Z.to_nat (n - Z.of_nat (S i))). split; [lia|]. split; [done|]. exists (S i).
    rewrite !u64_small by lia. split_and!; [lia..|done].
  - wp_auto. eapply wp_mono; [exact Hexit|]. intros r m' (-> & Hr & Hx). split_and!; [done| |done].
    intros ->. by destruct E; apply Hr.
Qed.

(** The destination [s, s + n) and the source [t, t + k) do not overlap. *)
Definition apart (s n t k : Z) : Prop := s + n ≤ t ∨ t + k ≤ s.

(** What a bounded copy of the string [l] leaves in the [n]-byte field [s]. *)
Definition filled (m : bmem) (s n : Z) (l : list Z) (m' : bmem) : Prop :=
  field m' s n l ∧ ∀ a, ¬ (s ≤ a < s + n) → m' !! a = m !! a.

Lemma copied_string m m1 m' s t n k l i :
  field m t k l → (i ≤ length l)%nat → copied m s t 0 (Z.of_nat i) m1 → mapped m s n →
  Z.of_nat i ≤ n → (∀ a, s ≤ a < s + Z.of_nat i → m' !! a = m1 !! a) →
  (Z.of_nat i < n → m' !! (s + Z.of_nat i) = Some 0) →
  field m' s n (take i l).
Proof.
  intros Hf Hi Hc (Hs0 & Hs1 & _) Hin Hsame H0. pose proof Hf as (_ & _ & _ & Hl & _).
  unfold field. rewrite length_take, Nat.min_l by lia. split_and!; [done..| |done].
  intros j c [Hj Hlt]%lookup_take_Some. destruct (Hl j c Hj) as [Hm Hne]. split; [|done].
  rewrite Hsame by lia. rewrite Hc, decide_True by lia. rewrite <- Hm. f_equal. lia.
Qed.

Lemma apart_source m m1 s n t k l i j :
  field m t k l → apart s n t (zlen l + 1) → copied m s t 0 (Z.of_nat i) m1 →
  Z.of_nat i ≤ n → (j ≤ length l)%nat → Z.of_nat j < k → m1 !! (t + Z.of_nat j) = Some (nul l j).
Proof.
  intros Hf Hap Hc Hi Hj Hk. rewrite Hc, decide_False by (unfold apart in Hap; lia).
  by apply (field_nul m t k).
Qed.

Lemma copied_field_up m m1 s t k l i :
  field m t k l → copied m s t 0 (Z.of_nat i) m1 → (i ≤ length l)%nat → Z.of_nat i < k →
  copied m s t 0 (Z.of_nat (S i)) (<[s + Z.of_nat i := nul l i]> m1).
Proof.
  intros Hf Hc Hi Hk. replace (Z.of_nat (S i)) with (Z.of_nat i + 1) by lia.
  apply copied_up; [done|lia|]. by apply (field_nul m t k).
Qed.

Lemma copied_outside m m1 s t i n a :
  copied m s t 0 i m1 → i ≤ n → ¬ (s ≤ a < s + n) → m1 !! a = m !! a.
Proof. intros Hc Hi Ha. rewrite Hc. apply decide_False. lia. Qed.

Lemma nul_field_S m t k l i : field m t k l → (i ≤ length l)%nat → nul l i ≠ 0 → (S i ≤ length l)%nat.
Proof.
  intros Hf Hi Hne. unfold nul in Hne. destruct (l !! i) eqn:E; [|done].
  by apply lookup_lt_Some in E.
Qed.

Lemma cstr_insert m s l a v : cstr m s l → ¬ (s ≤ a ≤ s + zlen l) → cstr (<[a := v]> m) s l.
Proof.
  intros (H0 & H1 & H2 & Hl & Hn) Ha. split_and!; [done..| |].
  - intros j c Hj. destruct (Hl j c Hj) as [Hm ?]. split; [|done].
    pose proof (lookup_lt_Some _ _ _ Hj). by rewrite lookup_insert_ne by lia.
  - intros Hlt. rewrite lookup_insert_ne by lia. by apply Hn.
Qed.

(** The terminator after [i] copied bytes ends the copy. *)
Lemma terminated s t n m m1 l i :
  cstr m t l → mapped m s n → (i ≤ length l)%nat → Z.of_nat i < n →
  i = length l ∨ Z.of_nat i = n - 1 → copied m s t 0 (Z.of_nat i) m1 →
  cstr (<[s + Z.of_nat i := 0]> m1) s (take (Z.to_nat (n - 1)) l) ∧
  ∀ a, ¬ (s ≤ a < s + n) → <[s + Z.of_nat i := 0]> m1 !! a = m !! a.
Proof.
  intros Ht Hs Hi Hin Hor Hc. split.
  - replace (take (Z.to_nat (n - 1)) l) with (take i l).
    2: { destruct Hor as [->|]; [rewrite !take_ge by lia; done|f_equal; lia]. }
    apply (copied_string m m1 _ s t _ _ l i Ht Hi Hc).
    + destruct Hs as (? & ? & Hs). split_and!; [done|rewrite length_take; lia|].
      intros j Hj. apply Hs. rewrite length_take in Hj. lia.
    + rewrite length_take. lia.
    + intros a Ha. apply lookup_insert_ne. lia.
    + intros _. apply lookup_insert_eq.
  - intros a Ha. rewrite lookup_insert_ne by lia. eapply copied_outside; [done| |done]. lia.
Qed.

Lemma copied_field_mapped m m1 s t n k l i :
  field m t k l → (i ≤ length l)%nat → copied m s t 0 (Z.of_nat i) m1 → mapped m s n →
  mapped m1 s n.
Proof.
  intros (_ & _ & _ & Hl & _) Hi Hc (H0 & H1 & Hs). split_and!; [done..|]. intros j Hj. rewrite Hc.
  case_decide; [|by apply Hs]. destruct (lookup_lt_is_Some_2 l (Z.to_nat j)) as [c Hc']; [lia|].
  destruct (Hl _ _ Hc') as [Hm _]. replace (t + (s + j - s)) with (t + Z.of_nat (Z.to_nat j)) by lia.
  by exists c.
Qed.

(** [safestrcpy]: the copy is the longest prefix that leaves room for the
    terminator, and is always terminated. *)
Lemma wp_safestrcpy s t n m l :
  0 < n ≤ int_max → cstr m t l → mapped m s n → apart s n t (zlen l + 1) →
  wp (safestrcpy s t n) (λ r m', r = s ∧ cstr m' s (take (Z.to_nat (n - 1)) l) ∧
    ∀ a, ¬ (s ≤ a < s + n) → m' !! a = m !! a) m.
Proof.
  intros Hn Ht Hs Hap. unfold int_max in Hn. unfold safestrcpy. rewrite (proj2 (Z.leb_gt _ _)) by lia.
  pose proof Hs as (Hs0 & Hs1 & _). pose proof Ht as (Ht0 & Ht1 & _).
  apply wp_bind.
  apply (wp_loop (λ k '(j, s', t') m1, ∃ i : nat, k = Z.to_nat j ∧ j = n - Z.of_nat i ∧
    s' = s + Z.of_nat i ∧ t' = t + Z.of_nat i ∧ (i ≤ length l)%nat ∧ Z.of_nat i < n ∧
    copied m s t 0 (Z.of_nat i) m1) (Z.to_nat n)); [|lia|].
  { exists 0%nat. split_and!; [done|lia..|apply copied_nil]. }
  intros k [[j s'] t'] m1 (i & -> & -> & -> & -> & Hi & Hin & Hc).
  wp_auto. apply wp_int_dec; [lia|]. destruct (Z.ltb_spec 0 (n - Z.of_nat i - 1)) as [Hpos|].
  2: { wp_auto. apply wp_store8.
    { rewrite Hc, decide_False by lia. by apply (mapped_at m s n); [|lia]. }
    wp_auto. split; [done|]. apply (terminated s t n m m1 l i); [done..|lia|done]. }
  wp_auto. apply (wp_load8 _ (nul l i)).
  { eapply (apart_source m m1 s n t _ l i i Ht Hap); [done|lia..|]. lia. }
  wp_auto. apply wp_store8; [rewrite Hc, decide_False by lia; apply (mapped_at m s n); [done|lia]|].
  pose proof (copied_field_up m m1 s t _ l i Ht Hc Hi ltac:(lia)) as Hc'.
  rewrite !(u64_small (s + _ + 1)), !(u64_small (t + _ + 1)) by lia.
  destruct (Z.eqb_spec (nul l i) 0) as [E0|E0]; cbn [negb]; wp_auto.
  - assert (i = length l) by (by eapply (field_nul_0 m t _ l i)).
    apply wp_store8.
    { rewrite lookup_insert_ne by lia. rewrite Hc, decide_False by lia.
      replace (s + Z.of_nat i + 1) with (s + (Z.of_nat i + 1)) by lia.
      apply (mapped_at m s n); [done|lia]. }
    wp_auto. split; [done|]. rewrite E0.
    destruct (terminated s t n m m1 l i Ht Hs Hi Hin ltac:(lia) Hc) as [He1 He2]. split.
    + apply cstr_insert; [done|]. rewrite length_take. lia.
    + intros a Ha. rewrite lookup_insert_ne by lia. by apply He2.
  - exists (Z.to_nat (n - Z.of_nat (S i))). split; [lia|]. exists (S i).
    split_and!; [lia..| | |done]; [by eapply nul_field_S|lia].
Qed.

(** The second loop of [strncpy] fills the rest of the field with zeros. *)
Lemma wp_pad s n i m :
  mapped m s n → 0 ≤ i ≤ n → n ≤ int_max →
  wp (loop (S (Z.to_nat (n - i)))
        (λ '(n, s),
           n' ← int_dec n;
           if 0 <? n then _ ← store8 s 0; mret (inl (n', u64 (s + 1)))
           else mret (inr tt))
        (n - i, s + i))
    (λ _ m', ∀ a, m' !! a = if decide (s + i ≤ a < s + n) then Some 0 else m !! a) m.
Proof.
  intros Hs Hi Hn. unfold int_max in Hn. pose proof Hs as (Hs0 & Hs1 & _).
  apply (wp_loop (λ k '(j, s') m', ∃ d, k = Z.to_nat j ∧ j = n - d ∧ s' = s + d ∧ i ≤ d ≤ n ∧
    ∀ a, m' !! a = if decide (s + i ≤ a < s + d) then Some 0 else m !! a) (Z.to_nat (n - i))).
  - exists i. split_and!; [lia..|]. intros a. by rewrite decide_False by lia.
  - lia.
  - intros k [j s'] m' (d & -> & -> & -> & Hd & Hm). wp_auto. apply wp_int_dec; [lia|].
    destruct (Z.ltb_spec 0 (n - d)); wp_auto.
    + apply wp_store8; [rewrite Hm; case_decide; [done|by apply (mapped_at m s n); [|lia]]|].
      wp_auto. rewrite u64_small by lia. exists (Z.to_nat (n - (d + 1))). split; [lia|].
      exists (d + 1). split_and!; [lia..|]. intros a. destruct (decide (a = s + d)) as [->|].
      * by rewrite lookup_insert_eq, decide_True by lia.
      * rewrite lookup_insert_ne by done. rewrite Hm. repeat case_decide; try done; lia.
    + by replace n with d by lia.
Qed.

(** [strncpy]: the field holds the source, cut to [n] bytes and padded with
    zeros (not terminated when the source has [n] bytes or more). *)
Lemma wp_strncpy s t n k m l :
  0 ≤ n ≤ int_max → n ≤ k → field m t k l → mapped m s n → apart s n t (zlen l + 1) →
  wp (strncpy s t n) (λ r m', r = s ∧ filled m s n (take (Z.to_nat n) l) m' ∧
    ∀ i, zlen l ≤ i < n → m' !! (s + i) = Some 0) m.
Proof.
  intros Hn Hk Ht Hs Hap. pose proof Hs as (Hs0 & Hs1 & _). pose proof Ht as (Ht0 & Ht1 & _).
  unfold strncpy, int_max in *. apply wp_bind.
  apply (wp_loop (λ k '(j, s', t') m1, ∃ i : nat, k = Z.to_nat j ∧ j = n - Z.of_nat i ∧
    s' = s + Z.of_nat i ∧ t' = t + Z.of_nat i ∧ (i ≤ length l)%nat ∧ Z.of_nat i ≤ n ∧
    copied m s t 0 (Z.of_nat i) m1) (Z.to_nat n)); [|lia|].
  { exists 0%nat. split_and!; [done|lia..|apply copied_nil]. }
  intros r [[j s'] t'] m1 (i & -> & -> & -> & -> & Hi & Hin & Hc).
  wp_auto. apply wp_int_dec; [lia|]. destruct (Z.ltb_spec 0 (n - Z.of_nat i)) as [Hpos|].
  2: { wp_auto. cbn [fst]. replace (n - Z.of_nat i - 1) with (-1) by lia. simpl. wp_auto.
    apply wp_int_dec; [lia|]. wp_auto. split; [done|].
    split; [|intros; lia]. split; [|intros a Ha; eapply copied_outside; [done| |done]; lia].
    apply (copied_string m m1 _ s t _ k l _ Ht); [lia| |done|lia|done|lia].
    by replace (Z.of_nat (Z.to_nat n)) with (Z.of_nat i) by lia. }
  wp_auto. apply (wp_load8 _ (nul l i)).
  { eapply (apart_source m m1 s n t k l i i Ht Hap); [done|lia..]. }
  wp_auto. apply wp_store8; [rewrite Hc, decide_False by lia; apply (mapped_at m s n); [done|lia]|].
  pose proof (copied_field_up m m1 s t k l i Ht Hc Hi ltac:(lia)) as Hc'.
  rewrite !u64_small by lia. destruct (Z.eqb_spec (nul l i) 0) as [E0|E0]; cbn [negb]; wp_auto.
  - assert (i = length l) as -> by (by eapply (field_nul_0 m t k l i)). cbn [fst].
    replace (n - zlen l - 1) with (n - (zlen l + 1)) by lia.
    replace (s + zlen l + 1) with (s + (zlen l + 1)) by lia.
    eapply wp_mono; [apply wp_pad; [|lia|unfold int_max; lia]|].
    { apply mapped_insert; [|rewrite Hc, decide_False by lia; apply (mapped_at m s n); [done|lia]].
      by eapply copied_field_mapped. }
    intros [] m' Hm'. wp_auto. split; [done|]. rewrite take_ge by lia. split.
    { split; [|intros a Ha; rewrite Hm', decide_False by lia; rewrite lookup_insert_ne by lia;
        eapply copied_outside; [done| |done]; lia].
      rewrite <- (firstn_all l). apply (copied_string m m1 _ s t _ k l _ Ht); [lia|done|done|lia| |].
      - intros a Ha. rewrite Hm', decide_False by lia. apply lookup_insert_ne. lia.
      - intros _. rewrite Hm', decide_False by lia. by rewrite E0, lookup_insert_eq. }
    intros i Hi'. rewrite Hm'. case_decide; [done|]. replace i with (zlen l) by lia.
    by rewrite E0, lookup_insert_eq.
  - exists (Z.to_nat (n - Z.of_nat (S i))). split; [lia|]. exists (S i).
    split_and!; [lia..| | |done]; [by eapply nul_field_S|lia].
Qed.

Lemma cstr_size m s l : cstr m s l → (length l < size m)%nat.
Proof.
  intros Hs. set (A := (λ i : nat, s + Z.of_nat i) <$> seq 0 (S (length l))).
  assert (NoDup A) as Hnd.
  { apply NoDup_fmap_2, NoDup_seq. intros x y H. lia. }
  assert (list_to_set A ⊆@{gset Z} dom m) as Hsub.
  { intros a. rewrite elem_of_list_to_set, elem_of_dom. intros (i & -> & Hi)%list_elem_of_fmap.
    apply elem_of_seq in Hi. exists (nul l i). apply (field_nul m s (zlen l + 1) l); [done|lia..]. }
  apply subseteq_size in Hsub. rewrite size_list_to_set, size_dom in Hsub by done.
  unfold A in Hsub. rewrite length_fmap, length_seq in Hsub. lia.
Qed.

Lemma wp_strlen s m l :
  cstr m s l → zlen l ≤ int_max → wp (strlen s) (λ r m', r = zlen l ∧ m' = m) m.
Proof.
  intros Hs Hn. pose proof (cstr_size m s l Hs). pose proof Hs as (Hs0 & Hs1 & _).
  unfold strlen. wp_auto.
  apply (wp_loop (λ k n m', m' = m ∧ ∃ i : nat, k = (length l - i)%nat ∧ n = Z.of_nat i ∧
    (i ≤ length l)%nat) (length l)).
  - split; [done|]. exists 0%nat. lia.
  - lia.
  - intros k n m' (-> & i & -> & -> & Hi). wp_auto.
    rewrite u64_small by lia. apply (wp_load8 _ (nul l i)); [by apply (field_nul m s (zlen l + 1)); [done..|lia]|].
    destruct (Z.eqb_spec (nul l i) 0) as [E|E]; wp_auto.
    + split; [|done]. by rewrite (field_nul_0 m s (zlen l + 1) l i Hs Hi E).
    + pose proof (nul_field_S m s (zlen l + 1) l i Hs Hi E). apply wp_int_inc; [lia|]. wp_auto.
      exists (length l - S i)%nat. split; [lia|]. split; [done|]. exists (S i). lia.
Qed.

Lemma wp_memcmp v1 v2 n m :
  0 ≤ n → mapped m v1 n → mapped m v2 n →
  wp (memcmp v1 v2 n) (λ r m', m' = m ∧
    (r = 0 ↔ ∀ i, 0 ≤ i < n → m !! (v1 + i) = m !! (v2 + i))) m.
Proof.
  intros Hn H1 H2. pose proof H1 as (H10 & H11 & _). pose proof H2 as (H20 & H21 & _).
  unfold memcmp.
  apply (wp_loop (λ k '(j, p, q) m', m' = m ∧ ∃ i, k = Z.to_nat j ∧ j = n - i ∧ p = v1 + i ∧
    q = v2 + i ∧ 0 ≤ i ≤ n ∧ ∀ d, 0 ≤ d < i → m !! (v1 + d) = m !! (v2 + d)) (Z.to_nat n)).
  - split; [done|]. exists 0. split_and!; [done|lia..|]. intros; lia.
  - lia.
  - intros k [[j p] q] m' (-> & i & -> & -> & -> & -> & Hi & Hd).
    destruct (Z.ltb_spec 0 (n - i)); wp_auto.
    2: { split; [done|]. split; [|done]. intros _ d Hdn. apply Hd. lia. }
    destruct (mapped_at m v1 n i H1) as [c1 E1]; [lia|].
    destruct (mapped_at m v2 n i H2) as [c2 E2]; [lia|].
    apply (wp_load8 _ _ _ _ E1). wp_auto. apply (wp_load8 _ _ _ _ E2).
    destruct (Z.eqb_spec c1 c2) as [->|Hne]; cbn [negb]; wp_auto.
    + exists (Z.to_nat (n - (i + 1))). split; [lia|]. split; [done|]. exists (i + 1).
      rewrite !u64_small by lia. split_and!; [lia..|]. intros d Hdi.
      destruct (decide (d = i)) as [->|]; [congruence|apply Hd; lia].
    + split; [done|]. split; [lia|]. intros Hall. specialize (Hall i ltac:(lia)). congruence.
Qed.

(** * Properties *)

(** [memmove] copies [n] bytes between any two mapped ranges, overlapping
    or not: afterwards the destination holds what the source held before the
    call, every other byte is unchanged, and the destination is returned. *)
Theorem memmove_correct dst src n m :
  0 ≤ n < 2 ^ 32 → mapped m dst n → mapped m src n →
  wp (memmove dst src n) (λ r m', r = dst ∧
    ∀ a, m' !! a = if decide (dst ≤ a < dst + n) then m !! (src + (a - dst)) else m !! a) m.
Proof.
  intros Hn Hd Hs. eapply wp_mono; [by apply wp_memmove|]. intros r m' [-> Hc].
  split; [done|]. intros a. rewrite (Hc a). by rewrite Z.add_0_r.
Qed.

(** A four-byte memory and an overlapping move inside it. *)
Definition four : bmem := {[100 := 1; 101 := 2; 102 := 3; 103 := 4]}.

Lemma four_mapped a n : 100 ≤ a → a + n ≤ 104 → mapped four a n.
Proof.
  intros Ha Hn. split_and!; [lia..|]. intros i Hi.
  assert (a + i = 100 ∨ a + i = 101 ∨ a + i = 102 ∨ a + i = 103) as [E|[E|[E|E]]] by lia;
    rewrite E; by vm_compute; eexists.
Qed.

(** [safestrcpy] stores the longest prefix of the source string that fits
    in [n - 1] bytes, always followed by a NUL, and touches no byte outside
    the [n] bytes of the destination; with [n <= 0] it does nothing. *)
Theorem safestrcpy_correct s t n m l :
  n ≤ int_max → mapped m s n → cstr m t l → apart s n t (zlen l + 1) →
  wp (safestrcpy s t n) (λ r m', r = s ∧ (n ≤ 0 → m' = m) ∧
     (0 < n → cstr m' s (take (Z.to_nat (n - 1)) l)) ∧
     ∀ a, ¬ (s ≤ a < s + n) → m' !! a = m !! a) m.
Proof.
  intros Hn Hs Ht Hap. destruct (decide (0 < n)) as [Hpos|Hle].
  - eapply wp_mono; [by apply wp_safestrcpy|]. intros r m' (-> & ? & ?). split_and!; [done|lia|done..].
  - unfold safestrcpy. rewrite (proj2 (Z.leb_le _ _)) by lia. wp_auto. by split_and!; [..|lia|].
Qed.

(** "ab" at 100 and an empty 2-byte field at 200. *)
Definition two_strings : bmem := {[100 := 97; 101 := 98; 102 := 0; 200 := 0; 201 := 0]}.
