(* ===== verification/Vm.v ===== *)
(** Virtual memory (kernel/vm.c with the page-table macros of kernel/riscv.h,
    and proc_mapstacks of kernel/proc.c): Sv39 page tables kept in byte
    memory, and copying between kernel and user memory through them.

    The page allocator is a parameter of the section, a pair of programs over
    its own state; VmProps.v states what the proofs need of it and that
    [kalloc] and [kfree] provide it. *)

From S2P Require Import Prelude.
From S2P Require Import Cstring.

(** * Constants and macros *)

Definition PGSIZE : Z := 4096.

Definition PTE_V : Z := 1.

Definition PTE_R : Z := 2.

Definition PTE_W : Z := 4.

Definition PTE_X : Z := 8.

Definition PTE_U : Z := 16.

Definition MAXVA : Z := Z.shiftl 1 (9 + 9 + 9 + 12 - 1).

Definition TRAMPOLINE : Z := MAXVA - PGSIZE.

Definition TRAPFRAME : Z := TRAMPOLINE - PGSIZE.

Definition KSTACK (p : Z) : Z := TRAMPOLINE - (p + 1) * 2 * PGSIZE.

Definition KERNBASE : Z := 2147483648.

Definition PHYSTOP : Z := KERNBASE + 128 * 1024 * 1024.

Definition UART0 : Z := 268435456.

Definition VIRTIO0 : Z := 268439552.

Definition PLIC : Z := 201326592.

Definition NPROC : Z := 64.

Definition PGROUNDUP (sz : Z) : Z := Z.land (u64 (sz + PGSIZE - 1)) (Z.lnot (PGSIZE - 1)).

Definition PGROUNDDOWN (a : Z) : Z := Z.land a (Z.lnot (PGSIZE - 1)).

Definition PA2PTE (pa : Z) : Z := u64 (Z.shiftl (Z.shiftr pa 12) 10).

Definition PTE2PA (pte : Z) : Z := u64 (Z.shiftl (Z.shiftr pte 10) 12).

Definition PTE_FLAGS (pte : Z) : Z := Z.land pte 1023.

Definition PX (level va : Z) : Z := Z.land (Z.shiftr va (12 + 9 * level)) 511.

(** [x & m] as a condition. *)
Definition has (m x : Z) : bool := negb (Z.land x m =? 0).

(** * State: memory, the allocator, and the running process's size and page
    table *)

Record vmst (A : Type) := VmSt {
  ram : bmem;
  pages : A;
  p_sz : Z;
  p_pagetable : Z }.

Arguments VmSt {A} _ _ _ _.

Arguments ram {A} _.

Arguments pages {A} _.

Arguments p_sz {A} _.

Arguments p_pagetable {A} _.

Definition set_ram {A} (m : bmem) (s : vmst A) : vmst A := VmSt m (pages s) (p_sz s) (p_pagetable s).

Definition set_pages {A} (a : A) (s : vmst A) : vmst A := VmSt (ram s) a (p_sz s) (p_pagetable s).

Definition set_sz {A} (z : Z) (s : vmst A) : vmst A := VmSt (ram s) (pages s) z (p_pagetable s).

Definition on_ram {A B} (m : prog bmem B) : prog (vmst A) B := zoom ram set_ram m.

Definition on_pages {A B} (m : prog A B) : prog (vmst A) B := zoom pages set_pages m.

(** 64-bit little-endian loads and stores. *)
Definition load64 (a : Z) : prog bmem Z :=
  b0 ← load8 a;
  b1 ← load8 (a + 1);
  b2 ← load8 (a + 2);
  b3 ← load8 (a + 3);
  b4 ← load8 (a + 4);
  b5 ← load8 (a + 5);
  b6 ← load8 (a + 6);
  b7 ← load8 (a + 7);
  mret (b0 + 256 * (b1 + 256 * (b2 + 256 * (b3 + 256 * (b4 + 256 * (b5 + 256 * (b6 + 256 * b7))))))).

Definition byte_of (v i : Z) : Z := Z.shiftr v (8 * i) mod 256.

Definition store64 (a v : Z) : prog bmem unit :=
  for_range 0 8 (λ i, store8 (a + i) (byte_of v i)).

Definition read_pte {A} (pte : Z) : prog (vmst A) Z := on_ram (load64 pte).

Definition write_pte {A} (pte v : Z) : prog (vmst A) unit := on_ram (store64 pte v).

(** * Page tables *)

Section Vm.

Context {A : Type} (kalloc : prog A Z) (kfree : Z → prog A unit).

Definition walk (pagetable va : Z) (alloc : bool) : prog (vmst A) Z :=
  if MAXVA <=? va then panic "walk"
  else
    loop 3
      (λ '(level, pagetable),
         if 0 <? level then
           let pte := pagetable + 8 * PX level va in
           v ← read_pte pte;
           if has PTE_V v then mret (inl (level - 1, PTE2PA v))
           else if negb alloc then mret (inr 0)
           else
             pagetable ← on_pages kalloc;
             if pagetable =? 0 then mret (inr 0)
             else
               _ ← on_ram (memset pagetable 0 PGSIZE);
               _ ← write_pte pte (Z.lor (PA2PTE pagetable) PTE_V);
               mret (inl (level - 1, pagetable))
         else mret (inr (pagetable + 8 * PX 0 va)))
      (2, pagetable).

Definition walkaddr (pagetable va : Z) : prog (vmst A) Z :=
  if MAXVA <=? va then mret 0
  else
    pte ← walk pagetable va false;
    if pte =? 0 then mret 0
    else
      v ← read_pte pte;
      if negb (has PTE_V v) then mret 0
      else if negb (has PTE_U v) then mret 0
      else mret (PTE2PA v).

(** The body of the [mappages] loop up to the write of the entry; [false] if
    [walk] could not allocate a table page. *)
Definition map_page (pagetable a pa perm : Z) : prog (vmst A) bool :=
  pte ← walk pagetable a true;
  if pte =? 0 then mret false
  else
    v ← read_pte pte;
    if has PTE_V v then panic "mappages: remap"
    else _ ← write_pte pte (Z.lor (Z.lor (PA2PTE pa) perm) PTE_V); mret true.

Definition mappages (pagetable va size pa perm : Z) : prog (vmst A) Z :=
  if negb (va mod PGSIZE =? 0) then panic "mappages: va not aligned"
  else if negb (size mod PGSIZE =? 0) then panic "mappages: size not aligned"
  else if size =? 0 then panic "mappages: size"
  else
    let last := u64 (va + size - PGSIZE) in
    loop (S (Z.to_nat (size / PGSIZE)))
      (λ '(a, pa),
         ok ← map_page pagetable a pa perm;
         if negb ok then mret (inr (-1))
         else if a =? last then mret (inr 0)
         else mret (inl (u64 (a + PGSIZE), u64 (pa + PGSIZE))))
      (va, pa).

Definition uvmcreate : prog (vmst A) Z :=
  pagetable ← on_pages kalloc;
  if pagetable =? 0 then mret 0
  else _ ← on_ram (memset pagetable 0 PGSIZE); mret pagetable.

Definition uvmunmap (pagetable va npages : Z) (do_free : bool) : prog (vmst A) unit :=
  if negb (va mod PGSIZE =? 0) then panic "uvmunmap: not aligned"
  else
    loop (S (Z.to_nat npages))
      (λ a,
         if a <? u64 (va + u64 (npages * PGSIZE)) then
           pte ← walk pagetable a false;
           if pte =? 0 then mret (inl (u64 (a + PGSIZE)))
           else
             v ← read_pte pte;
             if negb (has PTE_V v) then mret (inl (u64 (a + PGSIZE)))
             else
               _ ← (if do_free then on_pages (kfree (PTE2PA v)) else mret tt);
               _ ← write_pte pte 0;
               mret (inl (u64 (a + PGSIZE)))
         else mret (inr tt))
      va.

Definition uvmdealloc (pagetable oldsz newsz : Z) : prog (vmst A) Z :=
  if oldsz <=? newsz then mret oldsz
  else
    _ ← (if PGROUNDUP newsz <? PGROUNDUP oldsz then
           let npages := s32 ((PGROUNDUP oldsz - PGROUNDUP newsz) / PGSIZE) in
           uvmunmap pagetable (PGROUNDUP newsz) (u64 npages) true
         else mret tt);
    mret newsz.

Definition uvmalloc (pagetable oldsz newsz xperm : Z) : prog (vmst A) Z :=
  if newsz <? oldsz then mret oldsz
  else
    let oldsz := PGROUNDUP oldsz in
    loop (S (S (Z.to_nat ((newsz - oldsz) / PGSIZE))))
      (λ a,
         if a <? newsz then
           mem ← on_pages kalloc;
           if mem =? 0 then
             _ ← uvmdealloc pagetable a oldsz; mret (inr 0)
           else
             _ ← on_ram (memset mem 0 PGSIZE);
             r ← mappages pagetable a PGSIZE mem (Z.lor (Z.lor PTE_R PTE_U) xperm);
             if negb (r =? 0) then
               _ ← on_pages (kfree mem);
               _ ← uvmdealloc pagetable a oldsz;
               mret (inr 0)
             else mret (inl (u64 (a + PGSIZE)))
         else mret (inr newsz))
      oldsz.

(** Page-table pages form a tree of three levels; [levels] bounds the
    recursion. *)
Fixpoint freewalk (levels : nat) (pagetable : Z) : prog (vmst A) unit :=
  match levels with
  | O => λ _, NoFuel
  | S levels' =>
      _ ← for_range 0 512 (λ i,
            pte ← read_pte (pagetable + 8 * i);
            if has PTE_V pte && (Z.land pte (Z.lor (Z.lor PTE_R PTE_W) PTE_X) =? 0) then
              _ ← freewalk levels' (PTE2PA pte);
              write_pte (pagetable + 8 * i) 0
            else if has PTE_V pte then panic "freewalk: leaf"
            else mret tt);
      on_pages (kfree pagetable)
  end.

Definition uvmfree (pagetable sz : Z) : prog (vmst A) unit :=
  _ ← (if 0 <? sz then uvmunmap pagetable 0 (PGROUNDUP sz / PGSIZE) true else mret tt);
  freewalk 3 pagetable.

Definition uvmcopy (old new sz : Z) : prog (vmst A) Z :=
  loop (S (S (Z.to_nat (sz / PGSIZE))))
    (λ i,
       if i <? sz then
         pte ← walk old i false;
         if pte =? 0 then mret (inl (u64 (i + PGSIZE)))
         else
           v ← read_pte pte;
           if negb (has PTE_V v) then mret (inl (u64 (i + PGSIZE)))
           else
             let pa := PTE2PA v in
             let flags := PTE_FLAGS v in
             mem ← on_pages kalloc;
             if mem =? 0 then _ ← uvmunmap new 0 (i / PGSIZE) true; mret (inr (-1))
             else
               _ ← on_ram (memmove mem pa PGSIZE);
               r ← mappages new i PGSIZE mem flags;
               if negb (r =? 0) then
                 _ ← on_pages (kfree mem);
                 _ ← uvmunmap new 0 (i / PGSIZE) true;
                 mret (inr (-1))
               else mret (inl (u64 (i + PGSIZE)))
       else mret (inr 0))
    0.

Definition uvmclear (pagetable va : Z) : prog (vmst A) unit :=
  pte ← walk pagetable va false;
  if pte =? 0 then panic "uvmclear"
  else v ← read_pte pte; write_pte pte (Z.ldiff v PTE_U).

(** * Faults and copies *)

Definition ismapped (pagetable va : Z) : prog (vmst A) bool :=
  pte ← walk pagetable va false;
  if pte =? 0 then mret false else v ← read_pte pte; mret (has PTE_V v).

Definition vmfault (pagetable va : Z) : prog (vmst A) Z :=
  s ← get;
  if p_sz s <=? va then mret 0
  else
    let va := PGROUNDDOWN va in
    b ← ismapped pagetable va;
    if b : bool then mret 0
    else
      mem ← on_pages kalloc;
      if mem =? 0 then mret 0
      else
        _ ← on_ram (memset mem 0 PGSIZE);
        r ← mappages (p_pagetable s) va PGSIZE mem (Z.lor (Z.lor PTE_W PTE_U) PTE_R);
        if negb (r =? 0) then _ ← on_pages (kfree mem); mret 0
        else mret mem.

(** [len] bytes touch at most [len / PGSIZE + 2] pages. *)
Definition copy_fuel (len : Z) : nat := S (S (S (Z.to_nat (len / PGSIZE)))).

(** The page behind [va0]: mapped for the user, or faulted in. *)
Definition user_page (pagetable va0 : Z) : prog (vmst A) Z :=
  pa0 ← walkaddr pagetable va0;
  if pa0 =? 0 then vmfault pagetable va0 else mret pa0.

Definition copyout (pagetable dstva src len : Z) : prog (vmst A) Z :=
  loop (copy_fuel len)
    (λ '(dstva, src, len),
       if 0 <? len then
         let va0 := PGROUNDDOWN dstva in
         if MAXVA <=? va0 then mret (inr (-1))
         else
           pa0 ← user_page pagetable va0;
           if pa0 =? 0 then mret (inr (-1))
           else
             pte ← walk pagetable va0 false;
             v ← read_pte pte;
             if negb (has PTE_W v) then mret (inr (-1))
             else
               let n := PGSIZE - (dstva - va0) in
               let n := if len <? n then len else n in
               _ ← on_ram (memmove (u64 (pa0 + (dstva - va0))) src n);
               mret (inl (u64 (va0 + PGSIZE), u64 (src + n), len - n))
       else mret (inr 0))
    (dstva, src, len).

Definition copyin (pagetable dst srcva len : Z) : prog (vmst A) Z :=
  loop (copy_fuel len)
    (λ '(dst, srcva, len),
       if 0 <? len then
         let va0 := PGROUNDDOWN srcva in
         pa0 ← user_page pagetable va0;
         if pa0 =? 0 then mret (inr (-1))
         else
           let n := PGSIZE - (srcva - va0) in
           let n := if len <? n then len else n in
           _ ← on_ram (memmove dst (u64 (pa0 + (srcva - va0))) n);
           mret (inl (u64 (dst + n), u64 (va0 + PGSIZE), len - n))
       else mret (inr 0))
    (dst, srcva, len).

(** The inner loop of [copyinstr] over the rest of a page: [inl] with the
    next destination and the remaining maximum, or [inr tt] after the NUL. *)
Definition copyinstr_page (dst p n max : Z) : prog bmem (Z * Z + unit) :=
  loop (S (Z.to_nat n))
    (λ '(dst, p, n, max),
       if 0 <? n then
         c ← load8 p;
         if c =? 0 then _ ← store8 dst 0; mret (inr (inr tt))
         else _ ← store8 dst c; mret (inl (u64 (dst + 1), u64 (p + 1), n - 1, max - 1))
       else mret (inr (inl (dst, max))))
    (dst, p, n, max).

Definition copyinstr (pagetable dst srcva max : Z) : prog (vmst A) Z :=
  loop (copy_fuel max)
    (λ '(dst, srcva, max),
       if 0 <? max then
         let va0 := PGROUNDDOWN srcva in
         pa0 ← walkaddr pagetable va0;
         if pa0 =? 0 then mret (inr (-1))
         else
           let n := PGSIZE - (srcva - va0) in
           let n := if max <? n then max else n in
           r ← on_ram (copyinstr_page dst (u64 (pa0 + (srcva - va0))) n max);
           match r with
           | inl (dst, max) => mret (inl (dst, u64 (va0 + PGSIZE), max))
           | inr _ => mret (inr 0)
           end
       else mret (inr (-1)))
    (dst, srcva, max).

(** * The kernel's page table *)

Definition kvmmap (kpgtbl va pa sz perm : Z) : prog (vmst A) unit :=
  r ← mappages kpgtbl va sz pa perm;
  if negb (r =? 0) then panic "kvmmap" else mret tt.

Definition proc_mapstacks (kpgtbl : Z) : prog (vmst A) unit :=
  for_range 0 NPROC (λ p,
    pa ← on_pages kalloc;
    if pa =? 0 then panic "kalloc"
    else kvmmap kpgtbl (KSTACK p) pa PGSIZE (Z.lor PTE_R PTE_W)).

(** [etext] and [trampoline] are placed by the linker script. *)
Definition kvmmake (etext trampoline : Z) : prog (vmst A) Z :=
  kpgtbl ← on_pages kalloc;
  _ ← on_ram (memset kpgtbl 0 PGSIZE);
  _ ← kvmmap kpgtbl UART0 UART0 PGSIZE (Z.lor PTE_R PTE_W);
  _ ← kvmmap kpgtbl VIRTIO0 VIRTIO0 PGSIZE (Z.lor PTE_R PTE_W);
  _ ← kvmmap kpgtbl PLIC PLIC 67108864 (Z.lor PTE_R PTE_W);
  _ ← kvmmap kpgtbl KERNBASE KERNBASE (u64 (etext - KERNBASE)) (Z.lor PTE_R PTE_X);
  _ ← kvmmap kpgtbl etext etext (u64 (PHYSTOP - etext)) (Z.lor PTE_R PTE_W);
  _ ← kvmmap kpgtbl TRAMPOLINE trampoline PGSIZE (Z.lor PTE_R PTE_X);
  _ ← proc_mapstacks kpgtbl;
  mret kpgtbl.

(** * Process page tables (kernel/proc.c) *)

Definition proc_pagetable (trampoline trapframe : Z) : prog (vmst A) Z :=
  pagetable ← uvmcreate;
  if pagetable =? 0 then mret 0
  else
    r ← mappages pagetable TRAMPOLINE PGSIZE trampoline (Z.lor PTE_R PTE_X);
    if r <? 0 then _ ← uvmfree pagetable 0; mret 0
    else
      r ← mappages pagetable TRAPFRAME PGSIZE trapframe (Z.lor PTE_R PTE_W);
      if r <? 0 then
        _ ← uvmunmap pagetable TRAMPOLINE 1 false;
        _ ← uvmfree pagetable 0;
        mret 0
      else mret pagetable.

Definition proc_freepagetable (pagetable sz : Z) : prog (vmst A) unit :=
  _ ← uvmunmap pagetable TRAMPOLINE 1 false;
  _ ← uvmunmap pagetable TRAPFRAME 1 false;
  uvmfree pagetable sz.

Definition growproc (n : Z) : prog (vmst A) Z :=
  s ← get;
  let sz := p_sz s in
  if 0 <? n then
    if TRAPFRAME <? u64 (sz + n) then mret (-1)
    else
      sz' ← uvmalloc (p_pagetable s) sz (u64 (sz + n)) PTE_W;
      if sz' =? 0 then mret (-1) else _ ← modify (set_sz sz'); mret 0
  else if n <? 0 then
    sz' ← uvmdealloc (p_pagetable s) sz (u64 (sz + n));
    _ ← modify (set_sz sz'); mret 0
  else _ ← modify (set_sz sz); mret 0.

End Vm.

Definition kv2pa {S} (kva : Z) : prog S Z :=
  if (kva <? KERNBASE) || (PHYSTOP <=? kva) then panic "kv2pa" else mret (kva - KERNBASE).

Definition pa2kv {S} (pa : Z) : prog S Z :=
  if PHYSTOP - KERNBASE <=? pa then panic "pa2kv" else mret (pa + KERNBASE).
