(* ===== verification/VmInv.v ===== *)
(** Page tables as trees of pages in memory: the representation invariant,
    64-bit accesses, and what adding a table page or writing a leaf entry
    does to the translation. *)

From S2P Require Import Prelude.
From S2P Require Import Cstring.
From S2P Require Import Vm.

(** * 64-bit words in byte memory *)

Definition bt (m : bmem) (a : Z) : Z := default 0 (m !! a).

Definition rd64 (m : bmem) (a : Z) : Z :=
  bt m a + 256 * (bt m (a + 1) + 256 * (bt m (a + 2) + 256 * (bt m (a + 3) + 256 *
  (bt m (a + 4) + 256 * (bt m (a + 5) + 256 * (bt m (a + 6) + 256 * bt m (a + 7))))))).

Definition wr64 (m : bmem) (a v : Z) : bmem :=
  <[a + 7 := byte_of v 7]> (<[a + 6 := byte_of v 6]> (<[a + 5 := byte_of v 5]>
  (<[a + 4 := byte_of v 4]> (<[a + 3 := byte_of v 3]> (<[a + 2 := byte_of v 2]>
  (<[a + 1 := byte_of v 1]> (<[a + 0 := byte_of v 0]> m))))))).

Lemma wp_load64 a m (Q : Z → bmem → Prop) : mapped m a 8 → Q (rd64 m a) m → wp (load64 a) Q m.
Proof.
  intros Hm HQ. assert (∀ i, 0 ≤ i < 8 → m !! (a + i) = Some (bt m (a + i))) as H.
  { intros i Hi. unfold bt. by destruct (mapped_at m a 8 i Hm Hi) as [c ->]. }
  unfold load64. wp_auto.
  replace a with (a + 0) at 1 by lia. apply (wp_load8 _ _ _ _ (H 0 ltac:(lia))).
  wp_auto. apply (wp_load8 _ _ _ _ (H 1 ltac:(lia))). wp_auto. apply (wp_load8 _ _ _ _ (H 2 ltac:(lia))).
  wp_auto. apply (wp_load8 _ _ _ _ (H 3 ltac:(lia))). wp_auto. apply (wp_load8 _ _ _ _ (H 4 ltac:(lia))).
  wp_auto. apply (wp_load8 _ _ _ _ (H 5 ltac:(lia))). wp_auto. apply (wp_load8 _ _ _ _ (H 6 ltac:(lia))).
  wp_auto. apply (wp_load8 _ _ _ _ (H 7 ltac:(lia))). wp_auto. rewrite Z.add_0_r. exact HQ.
Qed.

Lemma wp_store64 a v m (Q : unit → bmem → Prop) :
  mapped m a 8 → Q tt (wr64 m a v) → wp (store64 a v) Q m.
Proof.
  intros Hm HQ. unfold store64. change (for_range 0 8 ?f) with (_ ← f 0; _ ← f 1; _ ← f 2; _ ← f 3;
    _ ← f 4; _ ← f 5; _ ← f 6; _ ← f 7; mret tt : prog bmem unit).
  assert (∀ i m', 0 ≤ i < 8 → mapped m' a 8 → is_Some (m' !! (a + i))) as Hat
    by (intros; by eapply mapped_at).
  do 8 (wp_auto; apply wp_store8; [apply Hat; [lia|done]|];
    match goal with |- context [<[a + ?i := ?b]> ?m'] =>
      assert (mapped (<[a + i := b]> m') a 8)
        by (apply mapped_insert; [done|apply Hat; [lia|done]]) end).
  by wp_auto.
Qed.

Lemma wr64_outside m a v b : ¬ (a ≤ b < a + 8) → wr64 m a v !! b = m !! b.
Proof. intros H. unfold wr64. by rewrite !lookup_insert_ne by lia. Qed.

Lemma wr64_inside m a v i : 0 ≤ i < 8 → wr64 m a v !! (a + i) = Some (byte_of v i).
Proof.
  intros H. unfold wr64.
  assert (i = 0 ∨ i = 1 ∨ i = 2 ∨ i = 3 ∨ i = 4 ∨ i = 5 ∨ i = 6 ∨ i = 7)
    as [->|[->|[->|[->|[->|[->|[->| ->]]]]]]] by lia;
    rewrite ?lookup_insert_ne by lia; by rewrite lookup_insert_eq.
Qed.

Lemma rd64_ext m m' a : (∀ i, 0 ≤ i < 8 → m' !! (a + i) = m !! (a + i)) → rd64 m' a = rd64 m a.
Proof.
  intros H. assert (∀ i, 0 ≤ i < 8 → bt m' (a + i) = bt m (a + i)) as E.
  { intros i Hi. unfold bt. by rewrite H. }
  unfold rd64. rewrite !E by lia. pose proof (E 0) as E0. rewrite Z.add_0_r in E0.
  by rewrite E0 by lia.
Qed.

Lemma rd64_wr64_ne m a v b : a + 8 ≤ b ∨ b + 8 ≤ a → rd64 (wr64 m a v) b = rd64 m b.
Proof. intros H. apply rd64_ext. intros i Hi. apply wr64_outside. lia. Qed.

Lemma rd64_wr64 m a v : 0 ≤ v < 2 ^ 64 → rd64 (wr64 m a v) a = v.
Proof.
  intros Hv. assert (∀ i, 0 ≤ i < 8 → bt (wr64 m a v) (a + i) = byte_of v i) as E.
  { intros i Hi. unfold bt. by rewrite wr64_inside. }
  unfold rd64. rewrite !E by lia. pose proof (E 0) as E0. rewrite Z.add_0_r in E0.
  rewrite E0 by lia. unfold byte_of. rewrite !Z.shiftr_div_pow2 by lia. simpl.
  Z.to_euclidean_division_equations. lia.
Qed.

(** * Page-table entries *)

(** A physical page a PTE can name. *)
Definition good_page (pa : Z) : Prop := 0 < pa < 2 ^ 56 ∧ pa mod PGSIZE = 0.

Definition mkpte (pa perm : Z) : Z := Z.lor (Z.lor (PA2PTE pa) perm) PTE_V.

Lemma good_page_mul pa : good_page pa → ∃ k, pa = k * 4096 ∧ 0 < k < 2 ^ 44.
Proof.
  intros [H1 H2]. unfold PGSIZE in H2. exists (pa / 4096).
  pose proof (Z.div_mod pa 4096 ltac:(lia)). lia.
Qed.

Lemma PA2PTE_good k : 0 ≤ k < 2 ^ 44 → PA2PTE (k * 4096) = k * 1024.
Proof.
  intros Hk. unfold PA2PTE. rewrite Z.shiftr_div_pow2, Z.shiftl_mul_pow2 by lia.
  change (2 ^ 12) with 4096. rewrite Z.div_mul by lia. apply u64_small. lia.
Qed.

Lemma small_shiftr x n : 0 ≤ n → 0 ≤ x < 2 ^ n → Z.shiftr x n = 0.
Proof. intros Hn Hx. rewrite Z.shiftr_div_pow2 by done. by apply Z.div_small. Qed.

Lemma mkpte_pa pa perm : good_page pa → 0 ≤ perm < 1024 → PTE2PA (mkpte pa perm) = pa.
Proof.
  intros (k & -> & Hk)%good_page_mul Hp. unfold PTE2PA, mkpte, PTE_V.
  rewrite PA2PTE_good by lia. rewrite !Z.shiftr_lor.
  rewrite (small_shiftr perm 10), (small_shiftr 1 10) by lia. rewrite !Z.lor_0_r.
  rewrite Z.shiftr_div_pow2, Z.shiftl_mul_pow2 by lia. change (2 ^ 10) with 1024.
  rewrite Z.div_mul by lia. rewrite u64_small; lia.
Qed.

Lemma mkpte_valid pa perm : has PTE_V (mkpte pa perm) = true.
Proof.
  unfold has, mkpte, PTE_V. rewrite Z.land_lor_distr_l.
  destruct (Z.eqb_spec (Z.lor (Z.land (Z.lor (PA2PTE pa) perm) 1) (Z.land 1 1)) 0) as [E|]; [|done].
  apply Z.lor_eq_0_iff in E. by destruct E.
Qed.

Lemma lor_range a b n : 0 ≤ n → 0 ≤ a < 2 ^ n → 0 ≤ b < 2 ^ n → 0 ≤ Z.lor a b < 2 ^ n.
Proof.
  intros Hn Ha Hb. split; [by apply Z.lor_nonneg; lia|].
  assert (Z.shiftr (Z.lor a b) n = 0) as E.
  { by rewrite Z.shiftr_lor, !small_shiftr. }
  rewrite Z.shiftr_div_pow2 in E by done.
  assert (0 ≤ Z.lor a b) by (by apply Z.lor_nonneg; lia).
  apply Z.div_small_iff in E; lia.
Qed.

Lemma mkpte_range pa perm : good_page pa → 0 ≤ perm < 1024 → 0 ≤ mkpte pa perm < 2 ^ 64.
Proof.
  intros (k & -> & Hk)%good_page_mul Hp. unfold mkpte, PTE_V. rewrite PA2PTE_good by lia.
  repeat apply lor_range; lia.
Qed.

(** The permission bits of an entry, below the page number. *)
Lemma mkpte_has pa perm b : good_page pa → 0 ≤ b < 1024 → Z.land 1 b = 0 →
  has b (mkpte pa perm) = has b perm.
Proof.
  intros (k & -> & Hk)%good_page_mul Hb Hv. unfold has, mkpte, PTE_V. rewrite PA2PTE_good by lia.
  rewrite !Z.land_lor_distr_l. rewrite Hv, Z.lor_0_r.
  assert (Z.land (k * 1024) b = 0) as ->; [|by rewrite Z.lor_0_l].
  apply Z.bits_inj'. intros n Hn. rewrite Z.land_spec, Z.bits_0.
  change 1024 with (2 ^ 10). rewrite <- Z.shiftl_mul_pow2 by lia.
  destruct (decide (n < 10)); [by rewrite Z.shiftl_spec_low by lia|].
  rewrite (Z.bits_above_log2 b n), andb_false_r; [done|lia|].
  destruct (decide (b = 0)) as [->|]; [simpl; lia|]. apply Z.log2_lt_pow2; [lia|].
  eapply Z.lt_le_trans; [apply Hb|]. change 1024 with (2 ^ 10). apply Z.pow_le_mono_r; lia.
Qed.

(** Positions in the tree: the table page a virtual address goes through at
    each level, and the index inside it. *)
Lemma PX_eq l va : 0 ≤ l → PX l va = va / 2 ^ (12 + 9 * l) mod 512.
Proof.
  intros Hl. unfold PX. rewrite Z.shiftr_div_pow2 by lia.
  change 511 with (Z.ones 9). by rewrite Z.land_ones by lia.
Qed.

Lemma PX_range l va : 0 ≤ l → 0 ≤ PX l va < 512.
Proof. intros Hl. rewrite PX_eq by done. apply Z.mod_pos_bound. lia. Qed.

Lemma PX_prefix l va : 0 < l →
  va / 2 ^ (21 + 9 * l) * 512 + PX l va = va / 2 ^ (21 + 9 * (l - 1)).
Proof.
  intros Hl. rewrite PX_eq by lia. replace (21 + 9 * (l - 1)) with (12 + 9 * l) by lia.
  replace (21 + 9 * l) with (12 + 9 * l + 9) by lia. rewrite Z.pow_add_r by lia.
  change (2 ^ 9) with 512. rewrite <- Z.div_div by lia.
  pose proof (Z.div_mod (va / 2 ^ (12 + 9 * l)) 512 ltac:(lia)). lia.
Qed.

(** * The representation *)

(** [T] maps (level, virtual address prefix) to table pages. *)
Abbreviation tmap := (gmap (Z * Z) Z).

Definition ent (m : bmem) (pg i : Z) : Z := rd64 m (pg + 8 * i).

Record pt_ok (m : bmem) (root : Z) (T : tmap) : Prop := {
  po_root : T !! (2, 0) = Some root;
  po_page k pg : T !! k = Some pg → good_page pg ∧ mapped m pg PGSIZE;
  po_inj k k' pg : T !! k = Some pg → T !! k' = Some pg → k = k';
  po_level l p pg : T !! (l, p) = Some pg → 0 ≤ l ≤ 2;
  po_parent l p pg : T !! (l, p) = Some pg → l < 2 → is_Some (T !! (l + 1, p / 512));
  po_child l p pg i : T !! (l, p) = Some pg → 0 < l → 0 ≤ i < 512 →
    match T !! (l - 1, p * 512 + i) with
    | Some c => ent m pg i = mkpte c 0
    | None => has PTE_V (ent m pg i) = false
    end }.

(** The leaf entry of virtual page number [vpn]; an absent table page is a
    zero entry. *)
Definition pte_at (m : bmem) (T : tmap) (vpn : Z) : Z :=
  match T !! (0, vpn / 512) with
  | Some pg => ent m pg (vpn mod 512)
  | None => 0
  end.

Definition same_dom (m m' : bmem) : Prop := ∀ a, is_Some (m' !! a) ↔ is_Some (m !! a).

(** Addresses inside some table page. *)
Definition in_tables (T : tmap) (a : Z) : Prop := ∃ k pg, T !! k = Some pg ∧ pg ≤ a < pg + PGSIZE.

Lemma same_dom_refl m : same_dom m m.
Proof. done. Qed.

Lemma same_dom_trans m1 m2 m3 : same_dom m1 m2 → same_dom m2 m3 → same_dom m1 m3.
Proof. intros H1 H2 a. rewrite (H2 a). apply H1. Qed.

Lemma same_dom_mapped m m' a n : same_dom m m' → mapped m a n → mapped m' a n.
Proof. intros Hd (H0 & H1 & H). split_and!; [done..|]. intros i Hi. by apply Hd, H. Qed.

Lemma same_dom_insert m a v : is_Some (m !! a) → same_dom m (<[a := v]> m).
Proof.
  intros Ha b. destruct (decide (a = b)) as [->|Hne].
  - rewrite lookup_insert_eq. by split.
  - by rewrite lookup_insert_ne.
Qed.

Lemma same_dom_wr64 m a v : mapped m a 8 → same_dom m (wr64 m a v).
Proof.
  intros Hm b. destruct (decide (a ≤ b < a + 8)).
  - replace b with (a + (b - a)) by lia. rewrite wr64_inside by lia.
    split; [|by eexists]. intros _. apply (mapped_at m a 8); [done|lia].
  - by rewrite wr64_outside.
Qed.

(** Two distinct pages do not overlap. *)
Lemma good_pages_apart p q : good_page p → good_page q → p ≠ q → p + PGSIZE ≤ q ∨ q + PGSIZE ≤ p.
Proof.
  intros (k & -> & _)%good_page_mul (j & -> & _)%good_page_mul Hne. unfold PGSIZE. lia.
Qed.

Lemma ent_mapped m pg i : mapped m pg PGSIZE → 0 ≤ i < 512 → mapped m (pg + 8 * i) 8.
Proof. intros H Hi. eapply mapped_sub; [done| |]; unfold PGSIZE; lia. Qed.

(** An entry of another page, or another entry of the same page. *)
Lemma ent_wr64_ne m p i q j v :
  good_page p → good_page q → 0 ≤ i < 512 → 0 ≤ j < 512 → (p, i) ≠ (q, j) →
  ent (wr64 m (p + 8 * i) v) q j = ent m q j.
Proof.
  intros Hp Hq Hi Hj Hne. apply rd64_wr64_ne. destruct (decide (p = q)) as [->|Hpq].
  - assert (i ≠ j) by congruence. lia.
  - pose proof (good_pages_apart p q Hp Hq Hpq). unfold PGSIZE in *. lia.
Qed.

Lemma ent_ext m m' pg i :
  0 ≤ i < 512 → (∀ a, pg ≤ a < pg + PGSIZE → m' !! a = m !! a) → ent m' pg i = ent m pg i.
Proof. intros Hi H. apply rd64_ext. intros j Hj. apply H. unfold PGSIZE. lia. Qed.

(** * Changing the tree *)

Section PtOk.

Context (m : bmem) (root : Z) (T : tmap) (H : pt_ok m root T).

(** Memory that agrees on the table pages holds the same tree. *)
Lemma pt_ok_ext m' :
  same_dom m m' → (∀ a, in_tables T a → m' !! a = m !! a) →
  pt_ok m' root T ∧ ∀ vpn, pte_at m' T vpn = pte_at m T vpn.
Proof.
  intros Hd Ha. assert (∀ k pg i, T !! k = Some pg → 0 ≤ i < 512 → ent m' pg i = ent m pg i) as He.
  { intros k pg i Hk Hi. apply ent_ext; [done|]. intros a Hr. apply Ha. by exists k, pg. }
  split.
  - destruct H as [H1 H2 H3 H4 H5 H6]. split; [done| |done..|].
    + intros k pg Hk. destruct (H2 k pg Hk). split; [done|]. by eapply same_dom_mapped.
    + intros l p pg i Hk Hl Hi. specialize (H6 l p pg i Hk Hl Hi). by erewrite He.
  - intros vpn. unfold pte_at. destruct (T !! (0, vpn / 512)) as [pg|] eqn:E; [|done].
    eapply He; [done|]. apply Z.mod_pos_bound. lia.
Qed.

(** A leaf entry is written. *)
Lemma pt_write q pg i v :
  T !! (0, q) = Some pg → 0 ≤ i < 512 → 0 ≤ v < 2 ^ 64 →
  pt_ok (wr64 m (pg + 8 * i) v) root T ∧
  ∀ vpn, pte_at (wr64 m (pg + 8 * i) v) T vpn =
         if decide (vpn = q * 512 + i) then v else pte_at m T vpn.
Proof.
  intros Hq Hi Hv. destruct (po_page _ _ _ H _ _ Hq) as [Hg Hm].
  assert (∀ k p j, T !! k = Some p → 0 ≤ j < 512 → (k, j) ≠ ((0, q), i) →
    ent (wr64 m (pg + 8 * i) v) p j = ent m p j) as He.
  { intros k p j Hk Hj Hne. destruct (po_page _ _ _ H _ _ Hk) as [Hgp _].
    apply ent_wr64_ne; [done..|]. intros [= -> ->]. destruct Hne.
    by rewrite (po_inj _ _ _ H _ _ _ Hk Hq). }
  split.
  - pose proof (same_dom_wr64 m _ v (ent_mapped _ _ _ Hm Hi)) as Hd.
    destruct H as [H1 H2 H3 H4 H5 H6]. split; [done| |done..|].
    + intros k p Hk. destruct (H2 k p Hk). split; [done|]. by eapply same_dom_mapped.
    + intros l p pg' j Hk Hl Hj. specialize (H6 l p pg' j Hk Hl Hj).
      rewrite (He _ _ _ Hk Hj); [done|]. intros [= ? ?]. lia.
  - intros vpn. unfold pte_at. case_decide as Hvpn.
    + assert (vpn / 512 = q ∧ vpn mod 512 = i) as [-> ->].
      { split; [|subst vpn]; [symmetry; apply (Z.div_unique _ _ _ i); lia|].
        rewrite Z.add_comm, Z.mod_add by lia. by apply Z.mod_small. }
      rewrite Hq. by apply rd64_wr64.
    + destruct (T !! (0, vpn / 512)) as [p|] eqn:E; [|done].
      apply (He _ _ _ E); [apply Z.mod_pos_bound; lia|]. intros [= H1 H2].
      apply Hvpn. pose proof (Z.div_mod vpn 512 ltac:(lia)). lia.
Qed.

(** The bytes [pg, pg + PGSIZE) are zero. *)
Definition zeroed (m' : bmem) (pg : Z) : Prop := ∀ a, pg ≤ a < pg + PGSIZE → m' !! a = Some 0.

Lemma ent_zeroed m' pg i : zeroed m' pg → 0 ≤ i < 512 → ent m' pg i = 0.
Proof.
  intros Hz Hi. assert (∀ j, 0 ≤ j < 8 → bt m' (pg + 8 * i + j) = 0) as E.
  { intros j Hj. unfold bt. rewrite Hz; [done|unfold PGSIZE; lia]. }
  unfold ent, rd64. rewrite !E by lia. pose proof (E 0) as E0. rewrite Z.add_0_r in E0.
  by rewrite E0.
Qed.

End PtOk.

(** A zeroed page is an empty page table. *)
Lemma pt_ok_root m r : good_page r → mapped m r PGSIZE → zeroed m r → pt_ok m r {[(2, 0) := r]}.
Proof.
  intros Hg Hm Hz.
  assert (∀ k q, ({[(2, 0) := r]} : tmap) !! k = Some q → k = (2, 0) ∧ q = r) as Hk.
  { by intros k q [<- <-]%lookup_singleton_Some. }
  split.
  - apply lookup_singleton_eq.
  - by intros k q [-> ->]%Hk.
  - by intros k k' q [-> ->]%Hk [-> _]%Hk.
  - by intros l p q [[= -> ->] _]%Hk.
  - intros l p q [[= -> ->] _]%Hk. lia.
  - intros l p q i [[= -> ->] ->]%Hk _ Hi. rewrite lookup_singleton_ne by (intros [=]).
    by rewrite (ent_zeroed m r i Hz Hi).
Qed.

(** A zeroed page [c] is linked below entry [i] of the table page [pg]. *)
Section Add.

Context (m m1 : bmem) (root : Z) (T : tmap) (H : pt_ok m root T) (l p pg i c : Z).

Context (Hp : T !! (l, p) = Some pg) (Hl : 0 < l) (Hi : 0 ≤ i < 512).

Context (Hnone : T !! (l - 1, p * 512 + i) = None) (Hc : good_page c) (Hmc : mapped m c PGSIZE).

Context (Hfresh : ∀ k pg', T !! k = Some pg' → pg' ≠ c) (Hd : same_dom m m1) (Hz : zeroed m1 c).

Context (Hsame : ∀ a, ¬ (c ≤ a < c + PGSIZE) → m1 !! a = m !! a).

Let m2 : bmem := wr64 m1 (pg + 8 * i) (mkpte c 0).

Let T2 : tmap := <[(l - 1, p * 512 + i) := c]> T.

Lemma add_dom : same_dom m m2.
Proof.
  destruct (po_page _ _ _ H _ _ Hp) as [Hg Hm]. eapply same_dom_trans; [done|].
  apply same_dom_wr64, ent_mapped; [|done]. by eapply same_dom_mapped.
Qed.

Lemma add_ent_old k q j :
  T !! k = Some q → 0 ≤ j < 512 → (k, j) ≠ ((l, p), i) → ent m2 q j = ent m q j.
Proof.
  intros Hk Hj Hne. destruct (po_page _ _ _ H _ _ Hk) as [Hgq _].
  destruct (po_page _ _ _ H _ _ Hp) as [Hg _]. unfold m2. rewrite ent_wr64_ne; [|done..|].
  - apply ent_ext; [done|]. intros a Ha. apply Hsame.
    pose proof (good_pages_apart q c Hgq Hc (Hfresh _ _ Hk)). lia.
  - intros [= -> ->]. destruct Hne. by rewrite (po_inj _ _ _ H _ _ _ Hk Hp).
Qed.

Lemma add_ent_new j : 0 ≤ j < 512 → ent m2 c j = 0.
Proof.
  intros Hj. destruct (po_page _ _ _ H _ _ Hp) as [Hg _]. pose proof (Hfresh _ _ Hp).
  unfold m2. rewrite ent_wr64_ne; [by apply ent_zeroed|done..|]. congruence.
Qed.

Lemma add_lookup k q :
  T2 !! k = Some q → (k = (l - 1, p * 512 + i) ∧ q = c) ∨ (T !! k = Some q ∧ q ≠ c).
Proof.
  intros Hk. destruct (decide (k = (l - 1, p * 512 + i))) as [->|Hne].
  - left. unfold T2 in Hk. rewrite lookup_insert_eq in Hk. by injection Hk.
  - right. unfold T2 in Hk. rewrite lookup_insert_ne in Hk by done. split; [done|by eapply Hfresh].
Qed.

Lemma add_no_grandchild j : 0 ≤ j < 512 → T !! (l - 1 - 1, (p * 512 + i) * 512 + j) = None.
Proof.
  intros Hj. destruct (T !! (l - 1 - 1, (p * 512 + i) * 512 + j)) as [q|] eqn:E; [|done].
  pose proof (po_level _ _ _ H _ _ _ Hp). destruct (po_parent _ _ _ H _ _ _ E) as [x Hx]; [lia|].
  replace (l - 1 - 1 + 1) with (l - 1) in Hx by lia.
  assert (((p * 512 + i) * 512 + j) / 512 = p * 512 + i) as Ex
    by (symmetry; apply (Z.div_unique _ _ _ j); lia).
  rewrite Ex in Hx. congruence.
Qed.

Lemma add_child l' p' pg' j : T2 !! (l', p') = Some pg' → 0 < l' → 0 ≤ j < 512 →
  match T2 !! (l' - 1, p' * 512 + j) with
  | Some c' => ent m2 pg' j = mkpte c' 0
  | None => has PTE_V (ent m2 pg' j) = false
  end.
Proof.
  intros [[[= -> ->] ->]|[Hk Hne]]%add_lookup Hl' Hj.
  - unfold T2. rewrite lookup_insert_ne by (intros [= ? ?]; lia).
    rewrite add_no_grandchild by done. by rewrite add_ent_new by done.
  - pose proof (po_child _ _ _ H _ _ _ _ Hk Hl' Hj) as Hch. unfold T2.
    destruct (decide ((l' - 1, p' * 512 + j) = (l - 1, p * 512 + i))) as [E|Hne'].
    + rewrite E, lookup_insert_eq. injection E as E1 E2.
      assert (l' = l ∧ p' = p ∧ j = i) as (-> & -> & ->) by lia.
      assert (pg' = pg) as -> by congruence. unfold m2. apply rd64_wr64, mkpte_range; [done|lia].
    + rewrite lookup_insert_ne by congruence. rewrite (add_ent_old _ _ _ Hk Hj); [done|].
      intros [= -> -> ->]. congruence.
Qed.

Lemma pt_add : pt_ok m2 root T2 ∧ (∀ vpn, pte_at m2 T2 vpn = pte_at m T vpn).
Proof.
  split; [split|].
  - unfold T2. rewrite lookup_insert_ne; [apply H|]. intros [= ? ?].
    pose proof (po_level _ _ _ H _ _ _ Hp). lia.
  - intros k q [[-> ->]|[Hk _]]%add_lookup.
    + split; [done|]. eapply same_dom_mapped; [apply add_dom|done].
    + destruct (po_page _ _ _ H _ _ Hk). split; [done|].
      eapply same_dom_mapped; [apply add_dom|done].
  - intros k k' q [[-> ->]|[Hk Hne]]%add_lookup [[-> Hq]|[Hk' Hne']]%add_lookup; [done..|].
    by eapply (po_inj _ _ _ H).
  - intros l' p' q [[[= -> ->] ->]|[Hk Hne]]%add_lookup; [|by eapply (po_level _ _ _ H)].
    pose proof (po_level _ _ _ H _ _ _ Hp). lia.
  - intros l' p' q Hk Hlt. apply lookup_insert_is_Some'. apply add_lookup in Hk.
    destruct Hk as [[[= -> ->] ->]|[Hk Hne]]; [|right; by eapply (po_parent _ _ _ H)].
    right. replace (l - 1 + 1) with l by lia.
    replace ((p * 512 + i) / 512) with p by (apply (Z.div_unique _ _ _ i); lia). by rewrite Hp.
  - exact add_child.
  - intros vpn. unfold pte_at. pose proof (Z.mod_pos_bound vpn 512 ltac:(lia)).
    destruct (T2 !! (0, vpn / 512)) as [q|] eqn:E.
    + apply add_lookup in E as [[E ->]|[Hk Hne]].
      * rewrite E, Hnone. by apply add_ent_new.
      * rewrite Hk. apply (add_ent_old _ _ _ Hk); [done|]. intros [= ? ?]. lia.
    + unfold T2 in E. by apply lookup_insert_None in E as [-> _].
Qed.

End Add.
