(* ===== verification/VmProps.v ===== *)
(** The page-table operations against the abstract translation: [walk],
    [walkaddr], [mappages], [uvmunmap] and the copies between kernel and user
    memory.  The page allocator is an interface; the buddy allocator
    implements it. *)

From S2P Require Import Prelude.
From S2P Require Import Cstring.
From S2P Require Import Vm.
From S2P Require Import VmInv.

(** * What the page tables need of the page allocator

    [owns a O]: the pages of [O] are allocated and not yet freed; [arena]
    holds every page the allocator can return. *)
Class PageSource {A} (kalloc : prog A Z) (kfree : Z → prog A unit)
    (owns : A → gset Z → Prop) (arena : Z → Prop) : Prop := {
  ps_kalloc a O : owns a O →
    wp kalloc (λ r a', (r = 0 ∧ owns a' O) ∨ ((r ∉ O) ∧ arena r ∧ owns a' ({[r]} ∪ O))) a;
  ps_kfree a O pa : owns a O → pa ∈ O → wp (kfree pa) (λ _ a', owns a' (O ∖ {[pa]})) a;
  ps_arena a O pa : owns a O → pa ∈ O → arena pa }.

Section Walk.

Context {A : Type} {kalloc : prog A Z} {kfree : Z → prog A unit}.

Context {owns : A → gset Z → Prop} {arena : Z → Prop} {PS : PageSource kalloc kfree owns arena}.

(** Page table [root] with table pages [T]; [O] are all the pages in use. *)
Record vm_inv (s : vmst A) (root : Z) (T : tmap) (O : gset Z) : Prop := {
  vi_pt : pt_ok (ram s) root T;
  vi_owns : owns (pages s) O;
  vi_tables k pg : T !! k = Some pg → pg ∈ O;
  vi_arena pg : arena pg → good_page pg ∧ mapped (ram s) pg PGSIZE }.

(** The tables may have grown and their entries changed; nothing else has. *)
Record grown (s : vmst A) (T : tmap) (O : gset Z) (s' : vmst A) (T' : tmap) (O' : gset Z) : Prop := {
  gr_T : T ⊆ T';
  gr_new k pg : T' !! k = Some pg → T !! k = Some pg ∨ pg ∉ O;
  gr_O pg : pg ∈ O' → pg ∈ O ∨ ∃ k, T' !! k = Some pg;
  gr_sub : O ⊆ O';
  gr_ram a : ¬ in_tables T' a → ram s' !! a = ram s !! a;
  gr_dom : same_dom (ram s) (ram s');
  gr_sz : p_sz s' = p_sz s;
  gr_pagetable : p_pagetable s' = p_pagetable s }.

Definition same_ptes (s : vmst A) (T : tmap) (s' : vmst A) (T' : tmap) : Prop :=
  ∀ vpn, pte_at (ram s') T' vpn = pte_at (ram s) T vpn.

Lemma same_ptes_trans s1 T1 s2 T2 s3 T3 :
  same_ptes s1 T1 s2 T2 → same_ptes s2 T2 s3 T3 → same_ptes s1 T1 s3 T3.
Proof. intros H1 H2 vpn. by rewrite H2. Qed.

Lemma grown_refl s T O : grown s T O s T O.
Proof. split; try done; auto. Qed.

Lemma grown_refl_pages s T O a' : grown s T O (set_pages a' s) T O.
Proof. split; try done; auto. Qed.

Lemma in_tables_mono T T' a : T ⊆ T' → in_tables T a → in_tables T' a.
Proof. intros HT (k & pg & Hk & Ha). exists k, pg. split; [by eapply lookup_weaken|done]. Qed.

Lemma grown_trans s1 T1 O1 s2 T2 O2 s3 T3 O3 :
  grown s1 T1 O1 s2 T2 O2 → grown s2 T2 O2 s3 T3 O3 → grown s1 T1 O1 s3 T3 O3.
Proof.
  intros [A1 A2 A3 A4 A5 A6 A7 A8] [B1 B2 B3 B4 B5 B6 B7 B8]. split.
  - by transitivity T2.
  - intros k pg [Hk|Hn]%B2; [by apply A2|]. right. set_solver.
  - intros pg [[Hp|[k Hk]]%A3|Hk]%B3; [by left|right|by right].
    exists k. by eapply lookup_weaken.
  - set_solver.
  - intros a Ha. rewrite B5 by done. apply A5. intros Hin. apply Ha. by eapply in_tables_mono.
  - by eapply same_dom_trans.
  - congruence.
  - congruence.
Qed.

Lemma wp_read_pte (s : vmst A) pg i (Q : Z → vmst A → Prop) :
  mapped (ram s) pg PGSIZE → 0 ≤ i < 512 → Q (ent (ram s) pg i) s → wp (read_pte (pg + 8 * i)) Q s.
Proof.
  intros Hm Hi HQ. unfold read_pte, on_ram. apply wp_zoom, wp_load64; [by apply ent_mapped|].
  destruct s; exact HQ.
Qed.

Lemma wp_write_pte (s : vmst A) pg i v (Q : unit → vmst A → Prop) :
  mapped (ram s) pg PGSIZE → 0 ≤ i < 512 → Q tt (set_ram (wr64 (ram s) (pg + 8 * i) v) s) →
  wp (write_pte (pg + 8 * i) v) Q s.
Proof.
  intros Hm Hi HQ. unfold write_pte, on_ram. apply wp_zoom, wp_store64; [by apply ent_mapped|done].
Qed.

Lemma wp_kalloc s root T O (Q : Z → vmst A → Prop) :
  vm_inv s root T O →
  (∀ a', owns a' O → Q 0 (set_pages a' s)) →
  (∀ r a', r ∉ O → arena r → r ≠ 0 → owns a' ({[r]} ∪ O) → Q r (set_pages a' s)) →
  wp (on_pages kalloc) Q s.
Proof.
  intros Hi H0 H1. apply wp_zoom. eapply wp_mono; [apply ps_kalloc, Hi|].
  intros r a' [[-> Ha]|(Hn & Hr & Ha)]; [by apply H0|]. apply H1; [done..| |done].
  intros ->. destruct (vi_arena _ _ _ _ Hi 0 Hr) as [[? _] _]. lia.
Qed.

(** [memset(page, 0, PGSIZE)] *)
Lemma wp_memset_page (s : vmst A) pg (Q : Z → vmst A → Prop) :
  mapped (ram s) pg PGSIZE →
  (∀ m', same_dom (ram s) m' → zeroed m' pg →
     (∀ a, ¬ (pg ≤ a < pg + PGSIZE) → m' !! a = ram s !! a) → Q pg (set_ram m' s)) →
  wp (on_ram (memset pg 0 PGSIZE)) Q s.
Proof.
  intros Hm HQ. apply wp_zoom. eapply wp_mono; [apply wp_memset; [done|]|].
  { unfold PGSIZE, int_max. lia. }
  intros r m' [-> Hm']. apply HQ.
  - intros a. rewrite Hm'. case_decide; [|done]. split; [|by eexists]. intros _.
    destruct Hm as (_ & _ & Hm). replace a with (pg + (a - pg)) by lia. apply Hm. lia.
  - intros a Ha. by rewrite Hm', decide_True.
  - intros a Ha. by rewrite Hm', decide_False.
Qed.

Lemma inv_good s root T O k pg : vm_inv s root T O → T !! k = Some pg →
  good_page pg ∧ mapped (ram s) pg PGSIZE.
Proof. intros Hi Hk. by eapply po_page; [apply Hi|]. Qed.

(** A new table page below an invalid entry. *)
Lemma add_table s root T O l p pg i c a' m1 :
  vm_inv s root T O → T !! (l, p) = Some pg → 0 < l → 0 ≤ i < 512 →
  T !! (l - 1, p * 512 + i) = None → c ∉ O → arena c → owns a' ({[c]} ∪ O) →
  same_dom (ram s) m1 → zeroed m1 c → (∀ a, ¬ (c ≤ a < c + PGSIZE) → m1 !! a = ram s !! a) →
  let s' := set_ram (wr64 m1 (pg + 8 * i) (mkpte c 0)) (set_ram m1 (set_pages a' s)) in
  let T' := <[(l - 1, p * 512 + i) := c]> T in
  vm_inv s' root T' ({[c]} ∪ O) ∧ grown s T O s' T' ({[c]} ∪ O) ∧ same_ptes s T s' T'.
Proof.
  intros Hi Hp Hl Hi' Hnone Hc Hac Ha Hd Hz Hsame s' T'.
  destruct (vi_arena _ _ _ _ Hi c Hac) as [Hg Hm]. pose proof Hi as [Hpt _ Ht Har].
  assert (∀ k q, T !! k = Some q → q ≠ c) as Hfresh by (intros k q Hk ->; by apply Hc, (Ht k)).
  destruct (pt_add (ram s) m1 root T Hpt l p pg i c) as [Hok Hpte]; [done..|].
  pose proof (add_dom (ram s) m1 root T Hpt l p pg i c Hp Hi' Hd) as Hdom.
  assert (∀ k q, T' !! k = Some q → T !! k = Some q ∨ (k = (l - 1, p * 512 + i) ∧ q = c)) as HT'.
  { intros k q [[<- <-]|[_ Hk]]%lookup_insert_Some; auto. }
  split; [|split; [|exact Hpte]]; split.
  - exact Hok.
  - exact Ha.
  - intros k q [Hk|[_ ->]]%HT'; [apply Ht in Hk|]; set_solver.
  - intros q Hq. destruct (Har q Hq). split; [done|]. by eapply same_dom_mapped.
  - by apply insert_subseteq.
  - intros k q [Hk|[_ ->]]%HT'; auto.
  - intros q [->%elem_of_singleton|Hq]%elem_of_union; [right|by left].
    eexists. apply lookup_insert_eq.
  - set_solver.
  - intros a Hna. cbn. assert (¬ (c ≤ a < c + PGSIZE)).
    { intros Hin. apply Hna. exists (l - 1, p * 512 + i), c. split; [apply lookup_insert_eq|done]. }
    rewrite wr64_outside; [by apply Hsame|]. intros Hin. apply Hna.
    exists (l, p), pg. split; [|unfold PGSIZE; lia]. unfold T'. rewrite lookup_insert_ne; [done|].
    intros [= ? ?]; lia.
  - exact Hdom.
  - done.
  - done.
Qed.

(** What [walk] returns: the address of the leaf entry of [va], or 0 when the
    table page that would hold it is missing. *)
Definition leaf_of (T : tmap) (va r : Z) : Prop :=
  (r = 0 ∧ T !! (0, va / 2 ^ 21) = None) ∨
  (∃ pg, T !! (0, va / 2 ^ 21) = Some pg ∧ r = pg + 8 * PX 0 va).

Lemma missing_leaf m root T va l :
  pt_ok m root T → 0 < l ≤ 2 → T !! (l - 1, va / 2 ^ (21 + 9 * (l - 1))) = None → leaf_of T va 0.
Proof.
  intros Hpt Hl Hnone. left. split; [done|]. destruct (T !! (0, va / 2 ^ 21)) as [q|] eqn:E; [|done].
  assert (l = 1 ∨ l = 2) as [-> | ->] by lia; [exact (eq_trans (eq_sym E) Hnone)|].
  destruct (po_parent _ _ _ Hpt _ _ _ E) as [x Hx]; [lia|]. rewrite Z.div_div in Hx by lia.
  change (T !! (0 + 1, va / (2 ^ 21 * 512)) = None) in Hnone. congruence.
Qed.

Lemma wp_walk s root T O va alloc :
  vm_inv s root T O → 0 ≤ va < MAXVA →
  wp (walk kalloc root va alloc) (λ r s', ∃ T' O', vm_inv s' root T' O' ∧ grown s T O s' T' O' ∧
    same_ptes s T s' T' ∧ leaf_of T' va r ∧ (alloc = false → s' = s ∧ T' = T ∧ O' = O)) s.
Proof.
  intros Hi Hva. unfold walk. rewrite (proj2 (Z.leb_gt _ _)) by lia.
  apply (wp_loop (λ k '(l, pt) s', ∃ T' O', k = Z.to_nat l ∧ 0 ≤ l ≤ 2 ∧ vm_inv s' root T' O' ∧
    grown s T O s' T' O' ∧ same_ptes s T s' T' ∧ T' !! (l, va / 2 ^ (21 + 9 * l)) = Some pt ∧
    (alloc = false → s' = s ∧ T' = T ∧ O' = O)) 2); [|lia|].
  { exists T, O. split_and!; [done..|apply grown_refl|done| |done].
    rewrite Z.div_small; [apply Hi|]. change MAXVA with (2 ^ 38) in Hva. simpl. lia. }
  intros k [l pt] s' (T' & O' & -> & Hl & Hi' & Hg & Hpte & Hpt & Hno).
  destruct (Z.ltb_spec 0 l) as [Hpos|].
  2: { wp_auto. exists T', O'. split_and!; [done..| |done]. right. exists pt.
    replace l with 0 in Hpt by lia. done. }
  destruct (inv_good _ _ _ _ _ _ Hi' Hpt) as [Hgp Hmp]. pose proof (PX_range l va ltac:(lia)) as Hx.
  cbv zeta. wp_auto. apply wp_read_pte; [done..|].
  pose proof (po_child _ _ _ (vi_pt _ _ _ _ Hi') _ _ _ _ Hpt Hpos Hx) as Hch.
  rewrite PX_prefix in Hch by done.
  destruct (T' !! (l - 1, va / 2 ^ (21 + 9 * (l - 1)))) as [c|] eqn:Ec.
  - rewrite Hch, mkpte_valid, mkpte_pa; [|apply (inv_good _ _ _ _ _ _ Hi' Ec)|lia]. wp_auto.
    exists (Z.to_nat (l - 1)). split; [lia|]. exists T', O'. split_and!; [lia..|done|done|done|done|done].
  - rewrite Hch.
    assert (T' !! (l - 1, va / 2 ^ (21 + 9 * l) * 512 + PX l va) = None) as Hnone by (by rewrite PX_prefix).
    pose proof (missing_leaf _ _ _ va l (vi_pt _ _ _ _ Hi') ltac:(lia) Ec) as Hleaf.
    destruct alloc; cbn [negb]; [|wp_auto; exists T', O'; by split_and!].
    wp_auto. apply (wp_kalloc _ _ _ _ _ Hi').
    + intros a' Ha. wp_auto. exists T', O'. split_and!; [by destruct Hi'; split| |done|done|done].
      eapply grown_trans; [exact Hg|]. by apply grown_refl_pages.
    + intros c a' Hc Hac Hc0 Ha. rewrite (proj2 (Z.eqb_neq _ _)) by done. wp_auto.
      apply wp_memset_page; [apply (vi_arena _ _ _ _ Hi' c Hac)|]. intros m1 Hd Hz Hsame. wp_auto.
      apply wp_write_pte; [by eapply same_dom_mapped|done|]. wp_auto.
      destruct (add_table s' root T' O' l _ pt (PX l va) c a' m1 Hi' Hpt Hpos Hx Hnone Hc Hac Ha Hd Hz Hsame)
        as (Hi2 & Hg2 & Hpte2).
      exists (Z.to_nat (l - 1)). split; [lia|]. eexists _, _.
      rewrite <- (Z.lor_0_r (PA2PTE c)). split_and!; [done|lia..|exact Hi2| | | |done].
      * eapply grown_trans; [exact Hg|exact Hg2].
      * eapply same_ptes_trans; [exact Hpte|exact Hpte2].
      * rewrite PX_prefix by done. apply lookup_insert_eq.
Qed.

(** * A new page table *)

Lemma wp_uvmcreate s :
  (∀ pg, arena pg → good_page pg ∧ mapped (ram s) pg PGSIZE) → owns (pages s) ∅ →
  wp (uvmcreate kalloc) (λ r s', r = 0 ∨
    (∃ m', vm_inv s' r {[(2, 0) := r]} {[r]} ∧ s' = set_ram m' (set_pages (pages s') s) ∧
       same_dom (ram s) m' ∧ (∀ a, ¬ (r ≤ a < r + PGSIZE) → m' !! a = ram s !! a) ∧
       ∀ vpn, pte_at m' {[(2, 0) := r]} vpn = 0)) s.
Proof.
  intros Har Ho. unfold uvmcreate. wp_auto. apply wp_zoom. eapply wp_mono; [by apply ps_kalloc|].
  intros r a' [[-> _]|(_ & Hr & Ha)]; [wp_auto; by left|].
  destruct (Har r Hr) as [Hg Hm]. rewrite (proj2 (Z.eqb_neq _ _)) by (destruct Hg; lia). wp_auto.
  apply wp_memset_page; [done|]. intros m' Hd Hz Hsame. wp_auto. right. exists m'.
  assert (∀ k q, ({[(2, 0) := r]} : tmap) !! k = Some q → k = (2, 0) ∧ q = r) as Hk.
  { by intros k q [<- <-]%lookup_singleton_Some. }
  split_and!; [|done..|].
  - split.
    + apply pt_ok_root; [done|by eapply same_dom_mapped|done].
    + replace {[r]} with ({[r]} ∪ ∅ : gset Z) by set_solver. exact Ha.
    + intros k q [_ ->]%Hk. set_solver.
    + intros q Hq. destruct (Har q Hq). split; [done|]. by eapply same_dom_mapped.
  - intros vpn. unfold pte_at. by rewrite lookup_singleton_ne by (intros [=]).
Qed.

(** * Translation *)

(** Leaf entry of a virtual address. *)
Lemma vpn_split va : 0 ≤ va → va / PGSIZE / 512 = va / 2 ^ 21 ∧ (va / PGSIZE) mod 512 = PX 0 va.
Proof.
  intros H. rewrite PX_eq by lia. unfold PGSIZE. split; [|done]. rewrite Z.div_div by lia. done.
Qed.

Lemma leaf_pte s root T O va r :
  vm_inv s root T O → 0 ≤ va → leaf_of T va r →
  (r = 0 ∧ pte_at (ram s) T (va / PGSIZE) = 0) ∨
  (∃ pg, r ≠ 0 ∧ T !! (0, va / 2 ^ 21) = Some pg ∧ r = pg + 8 * PX 0 va ∧
     mapped (ram s) pg PGSIZE ∧ pte_at (ram s) T (va / PGSIZE) = ent (ram s) pg (PX 0 va)).
Proof.
  intros Hi Hva Hl. unfold pte_at. destruct (vpn_split va Hva) as [-> ->].
  destruct Hl as [[-> ->]|(pg & E & ->)]; [by left|right]. rewrite E. exists pg.
  destruct (inv_good _ _ _ _ _ _ Hi E) as [[? _] ?]. pose proof (PX_range 0 va ltac:(lia)).
  split_and!; [lia|done..].
Qed.

(** The physical page behind a user address; 0 if it has none. *)
Definition user_pa (s : vmst A) (T : tmap) (va : Z) : Z :=
  let v := pte_at (ram s) T (va / PGSIZE) in
  if has PTE_V v && has PTE_U v then PTE2PA v else 0.

Lemma wp_walk_ro s root T O va (Q : Z → vmst A → Prop) :
  vm_inv s root T O → 0 ≤ va < MAXVA →
  (pte_at (ram s) T (va / PGSIZE) = 0 → Q 0 s) →
  (∀ pg, T !! (0, va / 2 ^ 21) = Some pg → mapped (ram s) pg PGSIZE → pg + 8 * PX 0 va ≠ 0 →
     pte_at (ram s) T (va / PGSIZE) = ent (ram s) pg (PX 0 va) → Q (pg + 8 * PX 0 va) s) →
  wp (walk kalloc root va false) Q s.
Proof.
  intros Hi Hva H0 H1. eapply wp_mono; [by apply wp_walk|].
  intros r s' (T' & O' & Hi' & _ & _ & Hl & Hno). destruct (Hno eq_refl) as (-> & -> & ->).
  destruct (leaf_pte _ _ _ _ _ _ Hi (proj1 Hva) Hl) as [[-> E]|(pg & ? & ? & -> & ? & ?)];
    [by apply H0|by apply H1].
Qed.

Lemma wp_walkaddr s root T O va :
  vm_inv s root T O → 0 ≤ va →
  wp (walkaddr kalloc root va) (λ r s', s' = s ∧ r = if decide (va < MAXVA) then user_pa s T va else 0) s.
Proof.
  intros Hi Hva. unfold walkaddr, user_pa. case_decide as Hlt.
  2: { rewrite (proj2 (Z.leb_le _ _)) by lia. by wp_auto. }
  rewrite (proj2 (Z.leb_gt _ _)) by lia. wp_auto. eapply wp_walk_ro; [done..| |].
  - intros E. rewrite E. by wp_auto.
  - intros pg Hpg Hm Hnz E. rewrite (proj2 (Z.eqb_neq _ _)) by done. wp_auto.
    apply wp_read_pte; [done|by apply PX_range|]. rewrite <- E.
    destruct (has PTE_V _), (has PTE_U _); by wp_auto.
Qed.

(** Writing the leaf entry of [va]. *)
Lemma write_leaf s root T O va pg v :
  vm_inv s root T O → 0 ≤ va → T !! (0, va / 2 ^ 21) = Some pg → 0 ≤ v < 2 ^ 64 →
  let s' := set_ram (wr64 (ram s) (pg + 8 * PX 0 va) v) s in
  vm_inv s' root T O ∧ grown s T O s' T O ∧
  ∀ vpn, pte_at (ram s') T vpn = if decide (vpn = va / PGSIZE) then v else pte_at (ram s) T vpn.
Proof.
  intros Hi Hva Hpg Hv s'. pose proof (PX_range 0 va ltac:(lia)) as Hx.
  destruct (inv_good _ _ _ _ _ _ Hi Hpg) as [Hg Hm].
  destruct (pt_write (ram s) root T (vi_pt _ _ _ _ Hi) _ pg _ v Hpg Hx Hv) as [Hok Hpte].
  pose proof (same_dom_wr64 _ _ v (ent_mapped _ _ _ Hm Hx)) as Hd.
  split_and!.
  - destruct Hi as [_ Ho Ht Ha]. split; [done..|]. intros q Hq. destruct (Ha q Hq).
    split; [done|]. by eapply same_dom_mapped.
  - split; try done; [by left..|]. intros a Hna. apply wr64_outside. intros Hin. apply Hna.
    exists (0, va / 2 ^ 21), pg. split; [done|]. unfold PGSIZE. lia.
  - intros vpn. cbn. rewrite Hpte. destruct (vpn_split va Hva) as [E1 E2].
    assert (va / 2 ^ 21 * 512 + PX 0 va = va / PGSIZE) as ->; [|done].
    rewrite <- E1, <- E2. pose proof (Z.div_mod (va / PGSIZE) 512 ltac:(lia)). lia.
Qed.

(** * [mappages] *)

Lemma wp_map_page s root T O va pa perm :
  vm_inv s root T O → 0 ≤ va < MAXVA → good_page pa → 0 ≤ perm < 1024 →
  has PTE_V (pte_at (ram s) T (va / PGSIZE)) = false →
  wp (map_page kalloc root va pa perm) (λ ok s', ∃ T' O', vm_inv s' root T' O' ∧
    grown s T O s' T' O' ∧ ∀ vpn, pte_at (ram s') T' vpn =
      if decide (ok = true ∧ vpn = va / PGSIZE) then mkpte pa perm else pte_at (ram s) T vpn) s.
Proof.
  intros Hi Hva Hgp Hperm Hfree. unfold map_page. wp_auto. eapply wp_mono; [by apply wp_walk|].
  intros r s1 (T1 & O1 & Hi1 & Hg1 & Hpte1 & Hl & _).
  destruct (leaf_pte _ _ _ _ _ _ Hi1 (proj1 Hva) Hl) as [[-> _]|(pg & Hnz & Hpg & -> & Hm & He)].
  { wp_auto. exists T1, O1. split_and!; [done|done|]. intros vpn. rewrite decide_False by naive_solver.
    apply Hpte1. }
  rewrite (proj2 (Z.eqb_neq _ _)) by done. wp_auto. apply wp_read_pte; [done|by apply PX_range|].
  rewrite <- He, Hpte1, Hfree. wp_auto. apply wp_write_pte; [done|by apply PX_range|].
  destruct (write_leaf s1 root T1 O1 _ pg _ Hi1 (proj1 Hva) Hpg (mkpte_range _ perm Hgp Hperm))
    as (Hi2 & Hg2 & Hpte2).
  wp_auto. exists T1, O1. split_and!; [exact Hi2|by eapply grown_trans|].
  intros vpn. unfold mkpte in *. rewrite Hpte2. repeat case_decide; naive_solver.
Qed.

(** The entries of a table after [k] pages from [va] were mapped to [pa]. *)
Definition mapped_to (s : vmst A) (T : tmap) (va pa perm k vpn : Z) : Z :=
  if decide (va / PGSIZE ≤ vpn < va / PGSIZE + k)
  then mkpte (pa + (vpn - va / PGSIZE) * PGSIZE) perm else pte_at (ram s) T vpn.

Definition map_ok (s : vmst A) (T : tmap) (va size pa perm : Z) : Prop :=
  0 ≤ va ∧ va mod PGSIZE = 0 ∧ size mod PGSIZE = 0 ∧ 0 < size ∧ va + size ≤ MAXVA ∧
  pa mod PGSIZE = 0 ∧ 0 < pa ∧ pa + size ≤ 2 ^ 56 ∧ 0 ≤ perm < 1024 ∧
  ∀ vpn, va / PGSIZE ≤ vpn < (va + size) / PGSIZE → has PTE_V (pte_at (ram s) T vpn) = false.

Lemma map_ok_mul s T va size pa perm : map_ok s T va size pa perm →
  ∃ v n p, va = v * 4096 ∧ size = n * 4096 ∧ pa = p * 4096 ∧ 0 ≤ v ∧ 0 < n ∧ v + n ≤ 2 ^ 26 ∧
    0 < p ∧ p + n ≤ 2 ^ 44.
Proof.
  intros (H1 & H2 & H3 & H4 & H5 & H6 & H7 & H8 & _). unfold PGSIZE in *.
  change MAXVA with (2 ^ 26 * 4096) in H5. exists (va / 4096), (size / 4096), (pa / 4096).
  Z.to_euclidean_division_equations. lia.
Qed.

Lemma wp_mappages s root T O va size pa perm :
  vm_inv s root T O → map_ok s T va size pa perm →
  wp (mappages kalloc root va size pa perm) (λ r s', ∃ T' O' k,
    vm_inv s' root T' O' ∧ grown s T O s' T' O' ∧
    (∀ vpn, pte_at (ram s') T' vpn = mapped_to s T va pa perm k vpn) ∧
    ((r = 0 ∧ k = size / PGSIZE) ∨ (r = -1 ∧ 0 ≤ k < size / PGSIZE))) s.
Proof.
  intros Hi Hok. pose proof Hok as (_ & _ & _ & _ & _ & _ & _ & _ & Hperm & Hfree).
  destruct (map_ok_mul _ _ _ _ _ _ Hok) as (v & n & p & -> & -> & -> & Hv & Hn & Hvn & Hp & Hpn).
  unfold mapped_to, PGSIZE in *. rewrite !Z.div_mul in * by lia.
  replace ((v * 4096 + n * 4096) / 4096) with (v + n) in Hfree by (apply (Z.div_unique _ _ _ 0); lia).
  unfold mappages, PGSIZE. rewrite !Z.mod_mul, Z.div_mul by lia. cbn [negb Z.eqb].
  rewrite (proj2 (Z.eqb_neq _ _)) by lia. cbv zeta. rewrite (u64_small (_ - _)) by lia.
  apply (wp_loop (λ k '(a, pa') s', ∃ T' O' i, k = Z.to_nat (n - i) ∧ 0 ≤ i < n ∧
    a = (v + i) * 4096 ∧ pa' = (p + i) * 4096 ∧ vm_inv s' root T' O' ∧ grown s T O s' T' O' ∧
    ∀ vpn, pte_at (ram s') T' vpn = if decide (v ≤ vpn < v + i)
      then mkpte (p * 4096 + (vpn - v) * 4096) perm else pte_at (ram s) T vpn) (Z.to_nat n)).
  { exists T, O, 0. split_and!; [f_equal; lia|lia..|done|apply grown_refl|].
    intros vpn. by rewrite decide_False by lia. }
  { lia. }
  intros k [a pa'] s' (T' & O' & i & -> & Hin & -> & -> & Hi' & Hg & Hpte).
  wp_auto. eapply wp_mono; [apply (wp_map_page s' root T' O')|].
  - done.
  - change MAXVA with (2 ^ 26 * 4096). lia.
  - split; [lia|]. unfold PGSIZE. by rewrite Z.mod_mul by lia.
  - done.
  - unfold PGSIZE. rewrite Z.div_mul by lia. rewrite Hpte, decide_False, Hfree by lia. done.
  - intros ok s1 (T1 & O1 & Hi1 & Hg1 & Hpte1).
    pose proof (grown_trans _ _ _ _ _ _ _ _ _ Hg Hg1) as Hg1'.
    unfold PGSIZE in Hpte1. rewrite Z.div_mul in Hpte1 by lia.
    destruct ok; cbn [negb].
    2: { wp_auto. exists T1, O1, i. split_and!; [done|done| |right; lia]. intros vpn.
      rewrite Hpte1, decide_False by naive_solver. apply Hpte. }
    assert (∀ vpn, pte_at (ram s1) T1 vpn = if decide (v ≤ vpn < v + (i + 1))
      then mkpte (p * 4096 + (vpn - v) * 4096) perm else pte_at (ram s) T vpn) as Hpte2.
    { intros vpn. rewrite Hpte1, Hpte. repeat case_decide; try (lia || done). f_equal. lia. }
    destruct (Z.eqb_spec ((v + i) * 4096) (v * 4096 + n * 4096 - 4096)); wp_auto.
    + exists T1, O1, n. split_and!; [done|done| |by left].
      intros vpn. rewrite Hpte2. by replace (i + 1) with n by lia.
    + exists (Z.to_nat (n - (i + 1))). split; [lia|]. exists T1, O1, (i + 1).
      rewrite !u64_small by lia. split_and!; [lia..|done|done|exact Hpte2].
Qed.

(** * [uvmunmap] *)

Definition cleared (v : Z) : Z := if has PTE_V v then 0 else v.

(** The page [pg] is mapped by one of the [k] virtual pages from [v]. *)
Definition maps (s : vmst A) (T : tmap) (v k pg : Z) : Prop :=
  ∃ vpn, v ≤ vpn < v + k ∧ has PTE_V (pte_at (ram s) T vpn) = true ∧
    pg = PTE2PA (pte_at (ram s) T vpn).

(** What freeing the pages of a range requires: they are allocated, no table
    page is among them and none is mapped twice. *)
Definition free_ok (s : vmst A) (T : tmap) (O : gset Z) (v n : Z) : Prop :=
  ∀ vpn, v ≤ vpn < v + n → has PTE_V (pte_at (ram s) T vpn) = true →
    PTE2PA (pte_at (ram s) T vpn) ∈ O ∧
    (∀ k, T !! k ≠ Some (PTE2PA (pte_at (ram s) T vpn))) ∧
    (∀ vpn', v ≤ vpn' < v + n → has PTE_V (pte_at (ram s) T vpn') = true →
       PTE2PA (pte_at (ram s) T vpn') = PTE2PA (pte_at (ram s) T vpn) → vpn' = vpn).

(** After [i] pages of the range. *)
Record unmapped (s : vmst A) (T : tmap) (O : gset Z) (do_free : bool) (v i : Z)
    (s' : vmst A) (O' : gset Z) : Prop := {
  un_pte vpn : pte_at (ram s') T vpn =
    if decide (v ≤ vpn < v + i) then cleared (pte_at (ram s) T vpn) else pte_at (ram s) T vpn;
  un_O pg : pg ∈ O' ↔ pg ∈ O ∧ ¬ (do_free = true ∧ maps s T v i pg);
  un_ram a : ¬ in_tables T a → ram s' !! a = ram s !! a;
  un_dom : same_dom (ram s) (ram s');
  un_sz : p_sz s' = p_sz s;
  un_pagetable : p_pagetable s' = p_pagetable s }.

Lemma unmapped_skip s T O b v i s' O' :
  unmapped s T O b v i s' O' → 0 ≤ i → has PTE_V (pte_at (ram s) T (v + i)) = false →
  unmapped s T O b v (i + 1) s' O'.
Proof.
  intros [H1 H2 H3 H4 H5 H6] Hi Hv. split; [| |done..].
  - intros vpn. rewrite H1. destruct (decide (vpn = v + i)) as [->|].
    + rewrite decide_False, decide_True by lia. unfold cleared. by rewrite Hv.
    + repeat case_decide; try done; lia.
  - intros pg. rewrite H2. assert (maps s T v i pg ↔ maps s T v (i + 1) pg) as ->; [|done].
    split; intros (vpn & Hr & Hval & ->); exists vpn; [split; [lia|done]|].
    destruct (decide (vpn = v + i)) as [->|]; [congruence|]. split; [lia|done].
Qed.

(** The entry of page [v + i] was valid, its page is freed if asked, and the
    entry cleared. *)
Lemma wp_unmap_one s T O b v n i s' O' root pg :
  vm_inv s' root T O' → unmapped s T O b v i s' O' → 0 ≤ v → 0 ≤ i < n → (b = true → free_ok s T O v n) →
  has PTE_V (pte_at (ram s) T (v + i)) = true → T !! (0, (v + i) * 4096 / 2 ^ 21) = Some pg →
  wp (_ ← (if b then on_pages (kfree (PTE2PA (pte_at (ram s) T (v + i)))) else mret tt);
      write_pte (pg + 8 * PX 0 ((v + i) * 4096)) 0)
    (λ _ s2, ∃ O2, vm_inv s2 root T O2 ∧ unmapped s T O b v (i + 1) s2 O2) s'.
Proof.
  intros Hi Hu Hv Hin Hfree Hval Hpg. set (pa := PTE2PA (pte_at (ram s) T (v + i))) in *.
  assert (∀ a2 O2, owns a2 O2 → (∀ q, q ∈ O2 ↔ q ∈ O' ∧ ¬ (b = true ∧ q = pa)) →
    wp (write_pte (pg + 8 * PX 0 ((v + i) * 4096)) 0)
      (λ _ s2, ∃ O2, vm_inv s2 root T O2 ∧ unmapped s T O b v (i + 1) s2 O2) (set_pages a2 s')) as Hw.
  { intros a2 O2 Ha2 HO2. pose proof Hi as [Hpt _ Ht Har].
    assert (vm_inv (set_pages a2 s') root T O2) as Hi2.
    { split; [done..| |done]. intros k q Hk. apply HO2. split; [by eapply Ht|]. intros [Hb ->].
      by destruct (Hfree Hb (v + i) ltac:(lia) Hval) as (_ & Hn & _); apply (Hn k). }
    destruct (inv_good _ _ _ _ _ _ Hi2 Hpg) as [_ Hm].
    destruct (write_leaf _ root T O2 ((v + i) * 4096) pg 0 Hi2 ltac:(lia) Hpg ltac:(lia)) as (Hi3 & Hg3 & Hp3).
    apply wp_write_pte; [done|by apply PX_range|]. exists O2. split; [exact Hi3|].
    destruct Hu as [U1 U2 U3 U4 U5 U6]. split.
    - intros vpn. rewrite Hp3. unfold PGSIZE. rewrite Z.div_mul by lia. cbn. rewrite U1.
      destruct (decide (vpn = v + i)) as [->|]; [|repeat case_decide; try done; lia].
      rewrite decide_True by lia. unfold cleared. by rewrite Hval.
    - intros q. rewrite HO2, U2. split.
      + intros [[Hq Hn] Hne]. split; [done|]. intros [Hb (vpn & Hr & Hvl & ->)].
        destruct (decide (vpn = v + i)) as [->|]; [by apply Hne|].
        apply Hn. split; [done|]. exists vpn. split_and!; [lia..|done|done].
      + intros [Hq Hn]. split_and!; [done| |].
        * intros [Hb (vpn & Hr & Hx)]. apply Hn. split; [done|]. exists vpn. split; [lia|done].
        * intros [Hb ->]. apply Hn. split; [done|]. exists (v + i). split_and!; [lia..|done|done].
    - intros a Ha. rewrite (gr_ram _ _ _ _ _ _ Hg3) by done. by apply U3.
    - eapply same_dom_trans; [exact U4|exact (gr_dom _ _ _ _ _ _ Hg3)].
    - done.
    - done. }
  destruct b; wp_auto.
  - assert (pa ∈ O') as Hpa.
    { destruct (Hfree eq_refl (v + i) ltac:(lia) Hval) as (HO & _ & Huniq).
      apply (un_O _ _ _ _ _ _ _ _ Hu). split; [done|]. intros [_ (vpn & Hr & Hvl & E)].
      specialize (Huniq vpn ltac:(lia) Hvl (eq_sym E)). lia. }
    unfold on_pages. apply wp_zoom. eapply wp_mono; [by apply ps_kfree; [apply Hi|]|].
    intros [] a2 Ha2. apply (Hw a2 (O' ∖ {[pa]})); [done|]. set_solver.
  - replace s' with (set_pages (pages s') s') by (by destruct s').
    apply (Hw (pages s') O'); [apply Hi|]. naive_solver.
Qed.

Lemma wp_uvmunmap s root T O va npages do_free :
  vm_inv s root T O → 0 ≤ va → va mod PGSIZE = 0 → 0 ≤ npages → va + npages * PGSIZE ≤ MAXVA →
  (do_free = true → free_ok s T O (va / PGSIZE) npages) →
  wp (uvmunmap kalloc kfree root va npages do_free) (λ _ s', ∃ O',
    vm_inv s' root T O' ∧ unmapped s T O do_free (va / PGSIZE) npages s' O') s.
Proof.
  intros Hi Hva Hal Hn Hmax Hfree. unfold uvmunmap. rewrite Hal. cbn [negb Z.eqb].
  assert (va = va / PGSIZE * 4096) as Ev.
  { unfold PGSIZE in *. pose proof (Z.div_mod va 4096 ltac:(lia)). lia. }
  set (v := va / PGSIZE) in *. clearbody v. subst va. unfold PGSIZE in *.
  change MAXVA with (2 ^ 26 * 4096) in Hmax. rewrite !u64_small by (rewrite ?u64_small; lia).
  apply (wp_loop (λ k a s', ∃ O' i, k = Z.to_nat (npages - i) ∧ 0 ≤ i ≤ npages ∧
    a = (v + i) * 4096 ∧ vm_inv s' root T O' ∧ unmapped s T O do_free v i s' O') (Z.to_nat npages)).
  { exists O, 0. split_and!; [f_equal; lia|lia..|done|]. split; try done.
    - intros vpn. by rewrite decide_False by lia.
    - intros pg. split; [|by intros []]. intros Hp. split; [done|]. intros [_ (vpn & Hr & _)]. lia. }
  { lia. }
  intros k a s' (O' & i & -> & Hin & -> & Hi' & Hu).
  destruct (Z.ltb_spec ((v + i) * 4096) (v * 4096 + npages * 4096)).
  2: { wp_auto. exists O'. split; [done|]. by replace npages with i by lia. }
  wp_auto. rewrite !(u64_small ((v + i) * 4096 + 4096)) by lia.
  assert (pte_at (ram s') T (v + i) = pte_at (ram s) T (v + i)) as Esame.
  { rewrite (un_pte _ _ _ _ _ _ _ _ Hu). by rewrite decide_False by lia. }
  assert (∀ s2 O2, vm_inv s2 root T O2 → unmapped s T O do_free v (i + 1) s2 O2 →
    ∃ k, (k < Z.to_nat (npages - i))%nat ∧ ∃ O' j, k = Z.to_nat (npages - j) ∧ 0 ≤ j ≤ npages ∧
      (v + i) * 4096 + 4096 = (v + j) * 4096 ∧ vm_inv s2 root T O' ∧ unmapped s T O do_free v j s2 O') as Hnext.
  { intros s2 O2 Hi2 Hu2. exists (Z.to_nat (npages - (i + 1))). split; [lia|]. exists O2, (i + 1).
    split_and!; [done|lia..|done|done]. }
  apply (wp_walk_ro s' root T O'); [done|change MAXVA with (2 ^ 26 * 4096); lia| |].
  - unfold PGSIZE. rewrite Z.div_mul by lia. intros E. wp_auto. apply (Hnext s' O' Hi').
    apply unmapped_skip; [done|lia|]. by rewrite <- Esame, E.
  - unfold PGSIZE. rewrite Z.div_mul by lia. intros pg Hpg Hm Hnz E.
    rewrite (proj2 (Z.eqb_neq _ _)) by done. wp_auto. apply wp_read_pte; [done|by apply PX_range|].
    rewrite <- E, Esame. destruct (has PTE_V _) eqn:Hval; cbn [negb].
    + apply wp_bind_group, wp_bind. eapply wp_mono; [eapply (wp_unmap_one s T O do_free v npages i); try done; lia|].
      intros [] s2 (O2 & Hi2 & Hu2). wp_auto. by apply (Hnext s2 O2).
    + wp_auto. apply (Hnext s' O' Hi'). apply unmapped_skip; [done|lia|done].
Qed.

(** * User memory *)

(** The byte a user address denotes. *)
Definition ubyte (s : vmst A) (T : tmap) (va : Z) : option Z :=
  let pa := user_pa s T va in if pa =? 0 then None else ram s !! (pa + va mod PGSIZE).

(** [va] is mapped for the user, to a page that is not a table page. *)
Record user_ok (s : vmst A) (T : tmap) (va : Z) : Prop := {
  uo_va : 0 ≤ va < MAXVA;
  uo_good : good_page (user_pa s T va);
  uo_mapped : mapped (ram s) (user_pa s T va) PGSIZE;
  uo_data k : T !! k ≠ Some (user_pa s T va) }.

Lemma rounddown va : 0 ≤ va → PGROUNDDOWN va = va / PGSIZE * PGSIZE.
Proof.
  intros H. unfold PGROUNDDOWN, PGSIZE. rewrite <- Z.ldiff_land. change (4096 - 1) with (Z.ones 12).
  rewrite Z.ldiff_ones_r by lia. rewrite Z.shiftr_div_pow2, Z.shiftl_mul_pow2 by lia. done.
Qed.

Lemma user_pa_page s T va va' : va / PGSIZE = va' / PGSIZE → user_pa s T va = user_pa s T va'.
Proof. intros E. unfold user_pa. by rewrite E. Qed.

Lemma user_not_table s root T O va a :
  vm_inv s root T O → user_ok s T va → user_pa s T va ≤ a < user_pa s T va + PGSIZE → ¬ in_tables T a.
Proof.
  intros Hi Hu Ha (k & pg & Hk & Hr). destruct (inv_good _ _ _ _ _ _ Hi Hk) as [Hg _].
  destruct (decide (pg = user_pa s T va)) as [->|Hne]; [by eapply uo_data|].
  pose proof (good_pages_apart _ _ Hg (uo_good _ _ _ Hu) Hne). lia.
Qed.

(** Memory changes outside the tables keep the translation. *)
Lemma inv_data s root T O m' :
  vm_inv s root T O → same_dom (ram s) m' → (∀ a, in_tables T a → m' !! a = ram s !! a) →
  vm_inv (set_ram m' s) root T O ∧ ∀ va, user_pa (set_ram m' s) T va = user_pa s T va.
Proof.
  intros [Hpt Ho Ht Ha] Hd Hsame. destruct (pt_ok_ext _ _ _ Hpt m' Hd Hsame) as [Hpt' Hpte]. split.
  - split; [done..|]. intros pg Hp. destruct (Ha pg Hp). split; [done|]. by eapply same_dom_mapped.
  - intros va. unfold user_pa. cbn. by rewrite Hpte.
Qed.

Lemma copied_dom m dst src n m' :
  copied m dst src 0 n m' → mapped m dst n → mapped m src n → same_dom m m'.
Proof.
  intros Hc (_ & _ & Hd) (_ & _ & Hs) a. rewrite Hc. case_decide; [|done].
  split; intros _.
  - replace a with (dst + (a - dst)) by lia. apply Hd. lia.
  - apply Hs. lia.
Qed.

(** The part of a transfer of [len] bytes at [va] that lies in the page of
    [va]. *)
Definition chunk (va len : Z) : Z :=
  let n := PGSIZE - (va - PGROUNDDOWN va) in if len <? n then len else n.

Lemma chunk_spec va len : 0 ≤ va → 0 < len →
  va - PGROUNDDOWN va = va mod PGSIZE ∧ 0 ≤ va mod PGSIZE < PGSIZE ∧
  0 < chunk va len ≤ len ∧ va mod PGSIZE + chunk va len ≤ PGSIZE ∧
  (chunk va len < len → PGROUNDDOWN va + PGSIZE = va + chunk va len) ∧
  ∀ i, 0 ≤ i < chunk va len → (va + i) / PGSIZE = va / PGSIZE ∧ (va + i) mod PGSIZE = va mod PGSIZE + i.
Proof.
  intros Hva Hlen. unfold chunk. rewrite rounddown by done. unfold PGSIZE.
  pose proof (Z.div_mod va 4096 ltac:(lia)). pose proof (Z.mod_pos_bound va 4096 ltac:(lia)).
  destruct (Z.ltb_spec len (4096 - (va - va / 4096 * 4096)));
    (split_and!; [lia..|]); intros i Hi; split;
    [symmetry; apply (Z.div_unique _ _ _ (va mod 4096 + i)); lia
    |symmetry; apply (Z.mod_unique _ _ (va / 4096)); lia
    |symmetry; apply (Z.div_unique _ _ _ (va mod 4096 + i)); lia
    |symmetry; apply (Z.mod_unique _ _ (va / 4096)); lia].
Qed.

Lemma wp_user_page s root T O va :
  vm_inv s root T O → user_ok s T va →
  wp (user_page kalloc kfree root (PGROUNDDOWN va)) (λ r s', s' = s ∧ r = user_pa s T va) s.
Proof.
  intros Hi Hu. pose proof (uo_va _ _ _ Hu). unfold user_page. wp_auto.
  rewrite rounddown by lia. unfold PGSIZE.
  pose proof (Z.div_mod va 4096 ltac:(lia)). pose proof (Z.mod_pos_bound va 4096 ltac:(lia)).
  eapply wp_mono; [apply (wp_walkaddr s root T O); [done|lia]|]. intros r s' [-> ->].
  rewrite decide_True by lia.
  rewrite (user_pa_page s T _ va) by (unfold PGSIZE; rewrite Z.div_mul; lia).
  destruct (uo_good _ _ _ Hu). rewrite (proj2 (Z.eqb_neq _ _)) by lia. by wp_auto.
Qed.

(** A range of user addresses, and a kernel buffer apart from it and from the
    tables. *)
Definition user_range (s : vmst A) (T : tmap) (va len : Z) : Prop :=
  0 ≤ va ∧ va + len ≤ MAXVA ∧ ∀ i, 0 ≤ i < len → user_ok s T (va + i).

Definition kernel_buf (s : vmst A) (T : tmap) (va len buf : Z) : Prop :=
  mapped (ram s) buf len ∧ (∀ a, buf ≤ a < buf + len → ¬ in_tables T a) ∧
  ∀ i, 0 ≤ i < len → user_pa s T (va + i) + PGSIZE ≤ buf ∨ buf + len ≤ user_pa s T (va + i).

Lemma ubyte_at s T va : user_ok s T va → ubyte s T va = ram s !! (user_pa s T va + va mod PGSIZE).
Proof. intros Hu. unfold ubyte. destruct (uo_good _ _ _ Hu). by rewrite (proj2 (Z.eqb_neq _ _)) by lia. Qed.

Lemma user_ok_mem s T va m' :
  user_ok s T va → same_dom (ram s) m' → (∀ va, user_pa (set_ram m' s) T va = user_pa s T va) →
  user_ok (set_ram m' s) T va.
Proof.
  intros [H1 H2 H3 H4] Hd E. split; rewrite ?E; try done. by eapply same_dom_mapped.
Qed.

(** The pages left to visit bound the copy loops. *)
Definition pages_left (va len : Z) : nat := Z.to_nat ((va mod PGSIZE + len + PGSIZE - 1) / PGSIZE).

Lemma pages_left_fuel va len : 0 ≤ len → (pages_left va len < copy_fuel len)%nat.
Proof.
  intros H. unfold pages_left, copy_fuel, PGSIZE. Z.to_euclidean_division_equations. lia.
Qed.

Lemma pages_left_step va len : 0 ≤ va → 0 < len →
  (pages_left (PGROUNDDOWN va + PGSIZE) (len - chunk va len) < pages_left va len)%nat.
Proof.
  intros Hva Hlen. destruct (chunk_spec va len Hva Hlen) as (_ & Ho & Hc & Hb & Hnext & _).
  unfold pages_left. rewrite rounddown in * by done. unfold PGSIZE in *.
  replace (va / 4096 * 4096 + 4096) with ((va / 4096 + 1) * 4096) by lia. rewrite Z.mod_mul by lia.
  pose proof (Z.div_mod va 4096 ltac:(lia)).
  assert (chunk va len = len ∨ chunk va len = 4096 - va mod 4096) as [->| ->] by lia.
  - replace (0 + (len - len) + 4096 - 1) with 4095 by lia. change (4095 / 4096) with 0.
    apply Z2Nat.inj_lt; [lia|apply Z.div_pos; lia|]. apply Z.div_str_pos. lia.
  - replace (va mod 4096 + len + 4096 - 1) with (0 + (len - (4096 - va mod 4096)) + 4096 - 1 + 1 * 4096) by lia.
    rewrite Z.div_add by lia. apply Z2Nat.inj_lt; [apply Z.div_pos; lia|apply Z.add_nonneg_nonneg; [apply Z.div_pos|]; lia|lia].
Qed.

(** * [copyin] *)

Section Copyin.

Context (s : vmst A) (root : Z) (T : tmap) (O : gset Z) (Hi : vm_inv s root T O).

Context (dst srcva len : Z) (Hr : user_range s T srcva len) (Hb : kernel_buf s T srcva len dst).

(** Memory after [i] bytes have arrived. *)
Definition arrived (i : Z) (m' : bmem) : Prop :=
  same_dom (ram s) m' ∧
  ∀ a, m' !! a = if decide (dst ≤ a < dst + i) then ubyte s T (srcva + (a - dst)) else ram s !! a.

Lemma arrived_inv i m' : arrived i m' → i ≤ len →
  vm_inv (set_ram m' s) root T O ∧ (∀ va, user_pa (set_ram m' s) T va = user_pa s T va).
Proof.
  intros [Hd Hm] Hil. apply inv_data; [done..|]. intros a Ha. rewrite Hm. apply decide_False.
  intros Hin. destruct Hb as (_ & Htab & _). apply (Htab a); [lia|done].
Qed.

Lemma arrived_user i m' j a : arrived i m' → i ≤ len → 0 ≤ j < len →
  user_pa s T (srcva + j) ≤ a < user_pa s T (srcva + j) + PGSIZE → m' !! a = ram s !! a.
Proof.
  intros [_ Hm] Hil Hj Ha. rewrite Hm. apply decide_False. destruct Hb as (_ & _ & Hap).
  specialize (Hap j Hj). lia.
Qed.

(** One iteration: the [n] bytes of the page at [srcva + i]. *)
Lemma wp_copyin_chunk i m' n :
  arrived i m' → 0 ≤ i → i < len → n = chunk (srcva + i) (len - i) → len < 2 ^ 32 →
  wp (on_ram (memmove (dst + i) (u64 (user_pa s T (srcva + i) + (srcva + i - PGROUNDDOWN (srcva + i)))) n))
    (λ _ s', ∃ m2, s' = set_ram m2 s ∧ arrived (i + n) m2) (set_ram m' s).
Proof.
  intros Har Hi0 Hil -> Hlen. pose proof Hr as (Hs0 & Hs1 & Hu). pose proof (Hu i ltac:(lia)) as Hui.
  destruct (chunk_spec (srcva + i) (len - i) ltac:(lia) ltac:(lia)) as (-> & Ho & Hc & Hfit & _ & Hpg).
  set (n := chunk (srcva + i) (len - i)) in *. set (off := (srcva + i) mod PGSIZE) in *.
  set (pa := user_pa s T (srcva + i)) in *. destruct (uo_good _ _ _ Hui) as [Hgr _]. fold pa in Hgr.
  unfold PGSIZE in Ho, Hfit. rewrite u64_small by lia. pose proof Har as [Hd Hm'].
  assert (mapped m' (dst + i) n) as Hmd.
  { eapply same_dom_mapped; [done|]. eapply mapped_sub; [apply Hb| |]; lia. }
  assert (mapped m' (pa + off) n) as Hms.
  { eapply same_dom_mapped; [done|]. eapply mapped_sub; [apply Hui| |]; unfold PGSIZE; fold pa; lia. }
  apply wp_zoom. eapply wp_mono; [apply wp_memmove; [lia|done|done]|].
  intros r m2 [-> Hcp]. exists m2. split; [done|]. split.
  - eapply same_dom_trans; [done|]. by eapply copied_dom.
  - intros a. rewrite Hcp. replace (dst + i + 0) with (dst + i) by lia. case_decide as Hin.
    + rewrite decide_True by lia. rewrite (arrived_user i m' i) by (done || lia || (fold pa; unfold PGSIZE; lia)).
      destruct (Hpg (a - (dst + i))) as [E1 E2]; [lia|].
      replace (srcva + (a - dst)) with (srcva + i + (a - (dst + i))) by lia.
      rewrite ubyte_at by (replace (srcva + i + (a - (dst + i))) with (srcva + (i + (a - (dst + i)))) by lia; apply Hu; lia).
      rewrite E2. rewrite (user_pa_page s T _ (srcva + i)) by done. f_equal. fold pa off. lia.
    + rewrite Hm'. repeat case_decide; try done; lia.
Qed.

Lemma wp_copyin :
  0 ≤ len < 2 ^ 32 →
  wp (copyin kalloc kfree root dst srcva len) (λ r s', r = 0 ∧ vm_inv s' root T O ∧
    ∃ m', s' = set_ram m' s ∧ arrived len m') s.
Proof.
  intros Hlen. pose proof Hr as (Hs0 & Hs1 & Hu). change MAXVA with (2 ^ 38) in Hs1.
  destruct (Hb) as ((Hd0 & Hd1 & _) & _ & _). unfold copyin.
  apply (wp_loop (λ k '(d, va, l) s', ∃ i m', k = pages_left va l ∧ 0 ≤ i ≤ len ∧ d = dst + i ∧
    (l = 0 ∨ va = srcva + i) ∧ l = len - i ∧ s' = set_ram m' s ∧ arrived i m') (pages_left srcva len)).
  { exists 0, (ram s). split_and!; [done|lia..|by destruct s|]. split; [done|].
    intros a. by rewrite decide_False by lia. }
  { apply pages_left_fuel. lia. }
  intros k [[d va] l] s' (i & m' & -> & Hil & -> & Hva & -> & -> & Har).
  destruct (arrived_inv i m' Har ltac:(lia)) as [Hi' Hpa].
  destruct (Z.ltb_spec 0 (len - i)) as [Hpos|].
  2: { wp_auto. split; [done|]. split; [done|]. exists m'. by replace len with i by lia. }
  destruct Hva as [?| ->]; [lia|]. pose proof (Hu i ltac:(lia)) as Hui. pose proof (uo_va _ _ _ Hui).
  cbv zeta. wp_auto. eapply wp_mono; [apply (wp_user_page _ root T O _ Hi')|].
  { apply user_ok_mem; [done|apply Har|done]. }
  intros r s1 [-> ->]. rewrite Hpa. destruct (uo_good _ _ _ Hui) as [Hgr _].
  rewrite (proj2 (Z.eqb_neq _ _)) by lia. apply wp_bind.
  eapply wp_mono; [eapply (wp_copyin_chunk i m' _ Har); [lia|lia|reflexivity|lia]|].
  intros ? s2 (m2 & -> & Har2). wp_auto.
  destruct (chunk_spec (srcva + i) (len - i) ltac:(lia) ltac:(lia)) as (_ & Ho & Hc & Hfit & Hnext & _).
  fold (chunk (srcva + i) (len - i)). set (n := chunk (srcva + i) (len - i)) in *.
  assert (PGROUNDDOWN (srcva + i) + PGSIZE < 2 ^ 64) by (rewrite rounddown by lia; unfold PGSIZE; Z.to_euclidean_division_equations; lia).
  assert (0 ≤ PGROUNDDOWN (srcva + i)) by (rewrite rounddown by lia; unfold PGSIZE; Z.to_euclidean_division_equations; lia).
  exists (pages_left (PGROUNDDOWN (srcva + i) + PGSIZE) (len - i - n)).
  split; [by apply pages_left_step; lia|]. exists (i + n), m2.
  rewrite (u64_small (dst + i + n)), (u64_small (PGROUNDDOWN (srcva + i) + PGSIZE)) by (unfold PGSIZE in *; lia).
  split_and!; [done|lia..| | |done|done]; lia.
Qed.

End Copyin.

(** * [copyout] *)

Section Copyout.

Context (s : vmst A) (root : Z) (T : tmap) (O : gset Z) (Hi : vm_inv s root T O).

Context (dstva src len : Z) (Hr : user_range s T dstva len) (Hb : kernel_buf s T dstva len src).

(** The pages are writable and no page is mapped twice in the range. *)
Context (Hw : ∀ i, 0 ≤ i < len → has PTE_W (pte_at (ram s) T ((dstva + i) / PGSIZE)) = true).

Context (Hinj : ∀ i j, 0 ≤ i < len → 0 ≤ j < len → user_pa s T (dstva + i) = user_pa s T (dstva + j) →
  (dstva + i) / PGSIZE = (dstva + j) / PGSIZE).

(** Where byte [j] of the transfer goes. *)
Definition uaddr (j : Z) : Z := user_pa s T (dstva + j) + (dstva + j) mod PGSIZE.

Definition delivered (i : Z) (m' : bmem) : Prop :=
  same_dom (ram s) m' ∧ (∀ j, 0 ≤ j < i → m' !! uaddr j = ram s !! (src + j)) ∧
  ∀ a, (∀ j, 0 ≤ j < i → a ≠ uaddr j) → m' !! a = ram s !! a.

Lemma uaddr_page j : 0 ≤ j < len → user_pa s T (dstva + j) ≤ uaddr j < user_pa s T (dstva + j) + PGSIZE.
Proof. intros Hj. unfold uaddr. pose proof (Z.mod_pos_bound (dstva + j) PGSIZE). unfold PGSIZE in *. lia. Qed.

Lemma uaddr_inj j k : 0 ≤ j < len → 0 ≤ k < len → uaddr j = uaddr k → j = k.
Proof.
  intros Hj Hk E. destruct Hr as (_ & _ & Hu).
  pose proof (uaddr_page j Hj). pose proof (uaddr_page k Hk).
  assert (user_pa s T (dstva + j) = user_pa s T (dstva + k)) as Ep.
  { destruct (decide (user_pa s T (dstva + j) = user_pa s T (dstva + k))) as [|Hne]; [done|].
    pose proof (good_pages_apart _ _ (uo_good _ _ _ (Hu j Hj)) (uo_good _ _ _ (Hu k Hk)) Hne). lia. }
  pose proof (Hinj j k Hj Hk Ep) as Ev. unfold uaddr in E. rewrite Ep in E. unfold PGSIZE in *.
  pose proof (Z.div_mod (dstva + j) 4096 ltac:(lia)). pose proof (Z.div_mod (dstva + k) 4096 ltac:(lia)). lia.
Qed.

Lemma delivered_inv i m' : delivered i m' → i ≤ len →
  vm_inv (set_ram m' s) root T O ∧ (∀ va, user_pa (set_ram m' s) T va = user_pa s T va) ∧
  (∀ vpn, pte_at m' T vpn = pte_at (ram s) T vpn).
Proof.
  intros (Hd & _ & Hm) Hil. assert (∀ a, in_tables T a → m' !! a = ram s !! a) as Hsame.
  { intros a Ha. apply Hm. intros j Hj ->. destruct Hr as (_ & _ & Hu).
    by eapply (user_not_table s root T O (dstva + j)); [done|apply Hu; lia|apply uaddr_page; lia|]. }
  destruct (inv_data _ _ _ _ m' Hi Hd Hsame). split_and!; [done..|].
  by apply (pt_ok_ext _ _ _ (vi_pt _ _ _ _ Hi) m' Hd Hsame).
Qed.

Lemma delivered_src i m' j : delivered i m' → i ≤ len → 0 ≤ j < len →
  m' !! (src + j) = ram s !! (src + j).
Proof.
  intros (_ & _ & Hm) Hil Hj. apply Hm. intros k Hk E. destruct Hb as (_ & _ & Hap).
  pose proof (uaddr_page k ltac:(lia)). specialize (Hap k ltac:(lia)). lia.
Qed.

Lemma wp_copyout_chunk i m' n :
  delivered i m' → 0 ≤ i → i < len → n = chunk (dstva + i) (len - i) → len < 2 ^ 32 →
  wp (on_ram (memmove (u64 (user_pa s T (dstva + i) + (dstva + i - PGROUNDDOWN (dstva + i)))) (src + i) n))
    (λ _ s', ∃ m2, s' = set_ram m2 s ∧ delivered (i + n) m2) (set_ram m' s).
Proof.
  intros Hdl Hi0 Hil -> Hlen. pose proof Hr as (Hs0 & Hs1 & Hu). pose proof (Hu i ltac:(lia)) as Hui.
  destruct (chunk_spec (dstva + i) (len - i) ltac:(lia) ltac:(lia)) as (-> & Ho & Hc & Hfit & _ & Hpg).
  set (n := chunk (dstva + i) (len - i)) in *. destruct (uo_good _ _ _ Hui) as [Hgr _].
  assert (∀ k, 0 ≤ k < n → uaddr (i + k) = uaddr i + k) as Huk.
  { intros k Hk. destruct (Hpg k Hk) as [E1 E2]. unfold uaddr. rewrite Z.add_assoc, E2.
    rewrite (user_pa_page s T (dstva + i + k) (dstva + i)) by done. lia. }
  fold (uaddr i). pose proof (uaddr_page i ltac:(lia)) as Hpi. unfold PGSIZE in Hfit, Hpi, Ho.
  rewrite u64_small by lia. pose proof Hdl as (Hd & Hj & Hm').
  assert (mapped m' (uaddr i) n) as Hmd.
  { eapply same_dom_mapped; [done|]. eapply mapped_sub; [apply Hui| |]; unfold uaddr, PGSIZE; lia. }
  assert (mapped m' (src + i) n) as Hms.
  { eapply same_dom_mapped; [done|]. eapply mapped_sub; [apply Hb| |]; lia. }
  apply wp_zoom. eapply wp_mono; [apply wp_memmove; [lia|done|done]|].
  intros r m2 [-> Hcp]. exists m2. split; [done|]. split_and!.
  - eapply same_dom_trans; [done|]. by eapply copied_dom.
  - intros j Hjn. rewrite Hcp. destruct (decide (i ≤ j)) as [Hge|Hlt].
    + replace j with (i + (j - i)) by lia. rewrite Huk by lia. rewrite decide_True by lia.
      replace (src + i + (uaddr i + (j - i) - uaddr i)) with (src + (i + (j - i))) by lia.
      apply (delivered_src i m'); [done|lia..].
    + rewrite decide_False; [by apply Hj; lia|]. intros Hin.
      assert (uaddr j = uaddr (i + (uaddr j - uaddr i))) as E by (rewrite Huk by lia; lia).
      apply uaddr_inj in E; lia.
  - intros a Ha. rewrite Hcp, decide_False; [apply Hm'; intros j Hjn; apply Ha; lia|].
    intros Hin. apply (Ha (i + (a - uaddr i))); [lia|]. rewrite Huk by lia. lia.
Qed.

Lemma wp_copyout :
  0 ≤ len < 2 ^ 32 →
  wp (copyout kalloc kfree root dstva src len) (λ r s', r = 0 ∧ vm_inv s' root T O ∧
    ∃ m', s' = set_ram m' s ∧ delivered len m') s.
Proof.
  intros Hlen. pose proof Hr as (Hs0 & Hs1 & Hu). change MAXVA with (2 ^ 38) in Hs1.
  destruct (Hb) as ((Hd0 & Hd1 & _) & _ & _). unfold copyout.
  apply (wp_loop (λ k '(va, d, l) s', ∃ i m', k = pages_left va l ∧ 0 ≤ i ≤ len ∧ d = src + i ∧
    (l = 0 ∨ va = dstva + i) ∧ l = len - i ∧ s' = set_ram m' s ∧ delivered i m') (pages_left dstva len)).
  { exists 0, (ram s). split_and!; [done|lia..|by destruct s|]. split_and!; [done|intros; lia|done]. }
  { apply pages_left_fuel. lia. }
  intros k [[va d] l] s' (i & m' & -> & Hil & -> & Hva & -> & -> & Har).
  destruct (delivered_inv i m' Har ltac:(lia)) as (Hi' & Hpa & Hpte).
  destruct (Z.ltb_spec 0 (len - i)) as [Hpos|].
  2: { wp_auto. split; [done|]. split; [done|]. exists m'. by replace len with i by lia. }
  destruct Hva as [?| ->]; [lia|]. pose proof (Hu i ltac:(lia)) as Hui. pose proof (uo_va _ _ _ Hui) as Hv.
  assert (0 ≤ PGROUNDDOWN (dstva + i) < MAXVA ∧ PGROUNDDOWN (dstva + i) / PGSIZE = (dstva + i) / PGSIZE) as [Hv0 Hvp].
  { rewrite rounddown by lia. unfold PGSIZE. rewrite Z.div_mul by lia. Z.to_euclidean_division_equations. lia. }
  cbv zeta. rewrite (proj2 (Z.leb_gt _ _)) by lia.
  wp_auto. eapply wp_mono; [apply (wp_user_page _ root T O _ Hi')|].
  { apply user_ok_mem; [done|apply Har|done]. }
  intros r s1 [-> ->]. rewrite Hpa. destruct (uo_good _ _ _ Hui) as [Hgr _].
  rewrite (proj2 (Z.eqb_neq _ _)) by lia. wp_auto.
  assert (has PTE_W (pte_at m' T (PGROUNDDOWN (dstva + i) / PGSIZE)) = true) as Hwi.
  { rewrite Hpte, Hvp. apply Hw. lia. }
  apply (wp_walk_ro _ root T O); [done..| |]; cbn [ram set_ram].
  { intros E. by rewrite E in Hwi. }
  intros pg Hpg Hm Hnz E. wp_auto. apply wp_read_pte; [done|by apply PX_range|]. cbn [ram set_ram].
  rewrite <- E, Hwi. cbn [negb]. apply wp_bind.
  eapply wp_mono; [eapply (wp_copyout_chunk i m' _ Har); [lia|lia|reflexivity|lia]|].
  intros ? s2 (m2 & -> & Har2). wp_auto.
  destruct (chunk_spec (dstva + i) (len - i) ltac:(lia) ltac:(lia)) as (_ & Ho & Hc & Hfit & Hnext & _).
  fold (chunk (dstva + i) (len - i)). set (n := chunk (dstva + i) (len - i)) in *.
  exists (pages_left (PGROUNDDOWN (dstva + i) + PGSIZE) (len - i - n)).
  split; [by apply pages_left_step; lia|]. exists (i + n), m2. change MAXVA with (2 ^ 38) in Hv0.
  rewrite (u64_small (src + i + n)), (u64_small (PGROUNDDOWN (dstva + i) + PGSIZE)) by (unfold PGSIZE in *; lia).
  split_and!; [done|lia..| | |done|done]; lia.
Qed.

End Copyout.

(** * [copyinstr] *)

(** The first [j] bytes at [p] exist and are not NUL. *)
Definition nonnul (m : bmem) (p j : Z) : Prop :=
  ∀ i, 0 ≤ i < j → ∃ c, m !! (p + i) = Some c ∧ c ≠ 0.

Lemma wp_copyinstr_page d p n max m :
  0 ≤ n → mapped m d n → mapped m p n → apart d n p n →
  wp (copyinstr_page d p n max) (λ r m', match r with
    | inl (d', max') => d' = d + n ∧ max' = max - n ∧ copied m d p 0 n m' ∧ nonnul m p n
    | inr _ => ∃ j, 0 ≤ j < n ∧ copied m d p 0 (j + 1) m' ∧ nonnul m p j ∧ m !! (p + j) = Some 0
    end) m.
Proof.
  intros Hn Hd Hp Hap. pose proof Hd as (Hd0 & Hd1 & _). pose proof Hp as (Hp0 & Hp1 & _).
  unfold copyinstr_page.
  apply (wp_loop (λ k '(d', p', n', max') m', ∃ j, k = Z.to_nat n' ∧ 0 ≤ j ≤ n ∧ d' = d + j ∧
    p' = p + j ∧ n' = n - j ∧ max' = max - j ∧ copied m d p 0 j m' ∧ nonnul m p j) (Z.to_nat n)).
  { exists 0. split_and!; [done|lia..|apply copied_nil|]. intros i Hi. lia. }
  { lia. }
  intros k [[[d' p'] n'] max'] m' (j & -> & Hj & -> & -> & -> & -> & Hc & Hnn).
  destruct (Z.ltb_spec 0 (n - j)).
  2: { wp_auto. by replace j with n in * by lia. }
  destruct (mapped_at m p n j Hp) as [c Ec]; [lia|]. wp_auto.
  apply (wp_load8 _ c); [rewrite Hc, decide_False by (unfold apart in Hap; lia); done|].
  assert (is_Some (m' !! (d + j))) as Hs.
  { rewrite Hc, decide_False by lia. apply (mapped_at m d n); [done|lia]. }
  destruct (Z.eqb_spec c 0) as [->|Hc0]; wp_auto; (apply wp_store8; [done|]); wp_auto.
  - exists j. split_and!; [lia..| |done|done]. apply copied_up; [done|lia|done].
  - exists (Z.to_nat (n - (j + 1))). split; [lia|]. exists (j + 1). rewrite !u64_small by lia.
    split_and!; [lia..| |].
    + apply copied_up; [done|lia|done].
    + intros i Hi'. destruct (decide (i = j)) as [->|]; [by exists c|apply Hnn; lia].
Qed.

Section Copyinstr.

Context (s : vmst A) (root : Z) (T : tmap) (O : gset Z) (Hi : vm_inv s root T O).

Context (dst srcva max : Z) (Hs : 0 ≤ srcva) (Hmax : 0 ≤ max < 2 ^ 32).

(** The buffer is apart from the tables and from every user page. *)
Context (Hm : mapped (ram s) dst max) (Htab : ∀ a, dst ≤ a < dst + max → ¬ in_tables T a).

Context (Huser : ∀ va, 0 ≤ va < MAXVA → user_pa s T va ≠ 0 →
  user_ok s T va ∧ (user_pa s T va + PGSIZE ≤ dst ∨ dst + max ≤ user_pa s T va)).

Definition unonnul (i : Z) : Prop := ∀ j, 0 ≤ j < i → ∃ c, ubyte s T (srcva + j) = Some c ∧ c ≠ 0.

(** The string at [srcva], or the point where the copy gives up. *)
Definition instr_post (r : Z) (m' : bmem) : Prop :=
  (r = 0 ∧ ∃ n, 0 ≤ n < max ∧ unonnul n ∧ ubyte s T (srcva + n) = Some 0 ∧
     arrived s T dst srcva (n + 1) m') ∨
  (r = -1 ∧ ∃ n, 0 ≤ n ≤ max ∧ unonnul n ∧ arrived s T dst srcva n m' ∧
     (n = max ∨ MAXVA ≤ srcva + n ∨ user_pa s T (srcva + n) = 0)).

Lemma instr_inv i m' : arrived s T dst srcva i m' → i ≤ max →
  vm_inv (set_ram m' s) root T O ∧ (∀ va, user_pa (set_ram m' s) T va = user_pa s T va).
Proof.
  intros [Hd Hm'] Hil. apply inv_data; [done..|]. intros a Ha. rewrite Hm'. apply decide_False.
  intros Hin. apply (Htab a); [lia|done].
Qed.

(** Bytes of the page of [srcva + i] read through [m'] are user bytes. *)
Lemma instr_byte i m' j k : arrived s T dst srcva i m' → 0 ≤ i ≤ max → srcva + i < MAXVA →
  user_pa s T (srcva + i) ≠ 0 → k = chunk (srcva + i) (max - i) → 0 < max - i → 0 ≤ j < k →
  m' !! (user_pa s T (srcva + i) + (srcva + i) mod PGSIZE + j) = ubyte s T (srcva + (i + j)).
Proof.
  intros [_ Hm'] Hil Hlt Hnz -> Hpos Hj.
  destruct (chunk_spec (srcva + i) (max - i) ltac:(lia) Hpos) as (_ & Ho & Hc & Hfit & _ & Hpg).
  destruct (Huser (srcva + i) ltac:(lia) Hnz) as [Hui Hap]. destruct (Hpg j Hj) as [E1 E2].
  rewrite Hm', decide_False by lia. unfold ubyte.
  replace (srcva + (i + j)) with (srcva + i + j) by lia.
  rewrite (user_pa_page s T (srcva + i + j) (srcva + i)) by done.
  rewrite (proj2 (Z.eqb_neq _ _)) by done. rewrite E2. f_equal. lia.
Qed.

Lemma arrived_more i m' n m2 :
  arrived s T dst srcva i m' → 0 ≤ i → 0 ≤ n → i + n ≤ max → srcva + i < MAXVA →
  user_pa s T (srcva + i) ≠ 0 → n ≤ chunk (srcva + i) (max - i) → 0 < max - i →
  copied m' (dst + i) (user_pa s T (srcva + i) + (srcva + i) mod PGSIZE) 0 n m2 → same_dom m' m2 →
  arrived s T dst srcva (i + n) m2.
Proof.
  intros Har Hi0 Hn Hle Hlt Hnz Hnc Hpos Hc Hd. split; [by eapply same_dom_trans; [apply Har|]|].
  intros a. rewrite Hc. replace (dst + i + 0) with (dst + i) by lia. case_decide as Hin.
  - rewrite decide_True by lia. erewrite (instr_byte i m' (a - (dst + i))); [|done|lia|done|done|reflexivity|done|lia].
    f_equal. lia.
  - destruct Har as [_ ->]. repeat case_decide; try done; lia.
Qed.

Lemma wp_instr_chunk i m' :
  arrived s T dst srcva i m' → unonnul i → 0 ≤ i < max → srcva + i < MAXVA → user_pa s T (srcva + i) ≠ 0 →
  let n := chunk (srcva + i) (max - i) in
  wp (on_ram (copyinstr_page (dst + i) (u64 (user_pa s T (srcva + i) + (srcva + i - PGROUNDDOWN (srcva + i)))) n (max - i)))
    (λ r s', ∃ m2, s' = set_ram m2 s ∧ match r with
       | inl (d', max') => d' = dst + (i + n) ∧ max' = max - (i + n) ∧
           arrived s T dst srcva (i + n) m2 ∧ unonnul (i + n)
       | inr _ => instr_post 0 m2
       end) (set_ram m' s).
Proof.
  intros Har Hnn Hil Hlt Hnz n.
  destruct (chunk_spec (srcva + i) (max - i) ltac:(lia) ltac:(lia)) as (-> & Ho & Hc & Hfit & _ & _).
  fold n in Hc, Hfit. destruct (Huser (srcva + i) ltac:(lia) Hnz) as [Hui Hap].
  destruct (uo_good _ _ _ Hui) as [Hgr _]. pose proof Har as [Hd Hm'].
  set (p := user_pa s T (srcva + i) + (srcva + i) mod PGSIZE) in *.
  rewrite u64_small by (unfold p, PGSIZE in *; lia).
  assert (mapped m' (dst + i) n) as Hmd.
  { eapply same_dom_mapped; [done|]. eapply mapped_sub; [exact Hm| |]; lia. }
  assert (mapped m' p n) as Hmp.
  { eapply same_dom_mapped; [done|]. eapply mapped_sub; [apply Hui| |]; unfold p; lia. }
  assert (∀ j, j ≤ n → nonnul m' p j → unonnul (i + j)) as Hun.
  { intros j Hjn Hpj k Hk. destruct (decide (k < i)); [apply Hnn; lia|].
    destruct (Hpj (k - i)) as (c & Ec & Hc0); [lia|]. exists c. split; [|done]. rewrite <- Ec.
    unfold p. erewrite (instr_byte i m' (k - i)); [|done|lia|done|done|reflexivity|lia|fold n; lia].
    f_equal. lia. }
  assert (∀ j m2, 0 ≤ j ≤ n → copied m' (dst + i) p 0 j m2 → arrived s T dst srcva (i + j) m2) as Hmore.
  { intros j m2 Hj Hcp. eapply arrived_more; [done|lia..|done|fold n; lia|lia|exact Hcp|].
    eapply copied_dom; [exact Hcp|eapply mapped_sub; [exact Hmd|lia..]|eapply mapped_sub; [exact Hmp|lia..]]. }
  apply wp_zoom. eapply wp_mono; [apply wp_copyinstr_page; [lia|done|done|unfold apart, p in *; lia]|].
  intros [[d' max']|u] m2 Hr; exists m2; (split; [done|]).
  - destruct Hr as (-> & -> & Hcp & Hpn). split_and!; [lia..|apply Hmore; [lia|done]|by apply (Hun n)].
  - destruct Hr as (j & Hj & Hcp & Hpj & Hz). left. split; [done|]. exists (i + j).
    split_and!; [lia..|apply (Hun j); [lia|done]| |].
    + rewrite <- Hz. symmetry. unfold p. eapply (instr_byte i m' j); [done|lia|done|done|reflexivity|lia|fold n; lia].
    + replace (i + j + 1) with (i + (j + 1)) by lia. apply Hmore; [lia|done].
Qed.

Lemma wp_copyinstr :
  wp (copyinstr kalloc root dst srcva max) (λ r s', vm_inv s' root T O ∧
    ∃ m', s' = set_ram m' s ∧ instr_post r m') s.
Proof.
  destruct (Hm) as (Hd0 & Hd1 & _). unfold copyinstr.
  apply (wp_loop (λ k '(d, va, l) s', ∃ i m', k = pages_left va l ∧ 0 ≤ i ≤ max ∧ d = dst + i ∧
    (l = 0 ∨ va = srcva + i) ∧ l = max - i ∧ s' = set_ram m' s ∧ arrived s T dst srcva i m' ∧ unonnul i)
    (pages_left srcva max)).
  { exists 0, (ram s). split_and!; [done|lia..|by destruct s| |intros j Hj; lia]. split; [done|].
    intros a. by rewrite decide_False by lia. }
  { apply pages_left_fuel. lia. }
  intros k [[d va] l] s' (i & m' & -> & Hil & -> & Hva & -> & -> & Har & Hnn).
  destruct (instr_inv i m' Har ltac:(lia)) as [Hi' Hpa].
  assert (∀ n, instr_post (-1) m' → wp (mret (inr (-1) : Z * Z * Z + Z)) (λ r s', match r with
    | inl a' => n a' s' | inr r => vm_inv s' root T O ∧ ∃ m', s' = set_ram m' s ∧ instr_post r m' end)
    (set_ram m' s)) as Hfail.
  { intros n Hp. wp_auto. split; [done|]. by exists m'. }
  destruct (Z.ltb_spec 0 (max - i)) as [Hpos|].
  2: { apply Hfail. right. split; [done|]. exists i. split_and!; [lia..|done|done|left; lia]. }
  destruct Hva as [?| ->]; [lia|]. cbv zeta. wp_auto.
  assert (0 ≤ PGROUNDDOWN (srcva + i) ≤ srcva + i ∧ PGROUNDDOWN (srcva + i) / PGSIZE = (srcva + i) / PGSIZE ∧
    (srcva + i < MAXVA ↔ PGROUNDDOWN (srcva + i) < MAXVA)) as (Hv0 & Hvp & Hvm).
  { rewrite rounddown by lia. unfold PGSIZE. rewrite Z.div_mul by lia. change MAXVA with (2 ^ 26 * 4096).
    Z.to_euclidean_division_equations. lia. }
  eapply wp_mono; [apply (wp_walkaddr _ root T O _ Hi'); lia|]. intros r s1 [-> ->].
  rewrite Hpa, (user_pa_page s T _ (srcva + i) Hvp). case_decide as Hlt.
  2: { apply Hfail. right. split; [done|]. exists i. split_and!; [lia..|done|done|right; left; lia]. }
  destruct (Z.eqb_spec (user_pa s T (srcva + i)) 0) as [E0|Hnz].
  { apply Hfail. right. split; [done|]. exists i. split_and!; [lia..|done|done|by right; right]. }
  wp_auto. eapply wp_mono; [apply (wp_instr_chunk i m' Har Hnn ltac:(lia) ltac:(lia) Hnz)|].
  destruct (chunk_spec (srcva + i) (max - i) ltac:(lia) ltac:(lia)) as (_ & Ho & Hc & Hfit & Hnext & _).
  intros [[d' max']|u] s2 (m2 & -> & H2); wp_auto.
  - destruct H2 as (-> & -> & Har2 & Hnn2). set (n := chunk (srcva + i) (max - i)) in *.
    exists (pages_left (PGROUNDDOWN (srcva + i) + PGSIZE) (max - i - n)).
    split; [by apply pages_left_step; lia|]. exists (i + n), m2. change MAXVA with (2 ^ 38) in Hlt.
    rewrite (u64_small (PGROUNDDOWN (srcva + i) + PGSIZE)) by (unfold PGSIZE in *; lia).
    split_and!; [f_equal; lia|lia..| | |done|done|done]; lia.
  - split; [|by exists m2]. destruct H2 as [(_ & n & Hn & _ & _ & Har2)|[? _]]; [|done].
    by apply (instr_inv (n + 1) m2 Har2); lia.
Qed.

End Copyinstr.

End Walk.
