(* ===== verification/VmTheorems.v ===== *)
(** The theorems about virtual memory, and the buddy allocator as the page
    allocator behind it. *)

From S2P Require Import Prelude.
From S2P Require Import Buddy.
From S2P Require Import BuddyInv.
From S2P Require Import BuddySpec.
From S2P Require Import BuddyProps.
From S2P Require Import Cstring.
From S2P Require Import Vm.
From S2P Require Import VmInv.
From S2P Require Import VmProps.

(** * [kalloc] and [kfree] provide the interface *)

(** The pages of [O] are single-page blocks of the region of [n] pages at
    [start], owned by no slab. *)
Definition buddy_owns (start n : Z) (b : bstate) (O : gset Z) : Prop :=
  managed_start b = start ∧ managed_num_blocks b = n ∧ buddy_lock b = false ∧
  ∃ A, buddy_rep b A ∧ ∀ p, p ∈ O → ∃ i, p = paddr b i ∧ A !! i = Some 0 ∧ pages_clear b i 0.

Definition buddy_arena (start n p : Z) : Prop := ∃ i, 0 ≤ i < n ∧ p = start + i * BLOCK_SIZE.

Lemma clear_frame keep b b' i t : bframe keep b b' → pages_clear b i t → pages_clear b' i t.
Proof.
  intros F Hc p m Hp Hm. pose proof (f_owner _ _ _ F p) as E. rewrite Hm in E.
  destruct (block_meta b !! p) as [m0|] eqn:E0; [|done]. injection E as E. rewrite E. by apply (Hc p).
Qed.

#[export] Instance buddy_page_source start n :
  PageSource kalloc kfree (buddy_owns start n) (buddy_arena start n).
Proof.
  split.
  - intros b O (Hs & Hn & Hl & A & Hrep & HO). unfold kalloc.
    eapply wp_mono; [by apply pa_alloc|]. intros r b' [[-> ->]|(i & t & -> & Hnn & HA & Ht & Hsz & Hmin & Hrep' & F & Hcl)].
    { left. split; [done|]. split_and!; [done..|]. by exists A. }
    right. assert (t = 0) as ->.
    { destruct (decide (t = 0)); [done|]. specialize (Hmin 0 ltac:(lia)). lia. }
    pose proof (buddy_rep_block _ _ i 0 Hrep' ltac:(apply lookup_insert_eq)) as (Hi0 & _ & Hib).
    rewrite (f_num _ _ _ F) in Hib. split_and!.
    + intros (j & Ej & HAj & _)%HO. apply paddr_inj in Ej. congruence.
    + exists i. split; [lia|]. unfold paddr. by rewrite Hs.
    + split_and!; [by rewrite (f_start _ _ _ F)|by rewrite (f_num _ _ _ F)|by rewrite (f_lock _ _ _ F)|].
      exists (<[i:=0]> A). split; [done|]. intros p [->%elem_of_singleton|Hp]%elem_of_union.
      * exists i. split_and!; [unfold paddr; by rewrite (f_start _ _ _ F)|apply lookup_insert_eq|done].
      * destruct (HO p Hp) as (j & -> & Hj & Hcj). exists j.
        split_and!; [unfold paddr; by rewrite (f_start _ _ _ F)| |by eapply clear_frame].
        rewrite lookup_insert_ne by congruence. done.
  - intros b O pa (Hs & Hn & Hl & A & Hrep & HO) Hpa. destruct (HO pa Hpa) as (i & -> & Hi & Hci).
    unfold kfree. eapply wp_mono; [by eapply pa_free|]. intros [] b' [Hrep' F].
    split_and!; [by rewrite (f_start _ _ _ F)|by rewrite (f_num _ _ _ F)|by rewrite (f_lock _ _ _ F)|].
    exists (delete i A). split; [done|]. intros p [Hp Hne]%elem_of_difference.
    destruct (HO p Hp) as (j & -> & Hj & Hcj). exists j.
    split_and!; [unfold paddr; by rewrite (f_start _ _ _ F)| |by eapply clear_frame].
    rewrite lookup_delete_ne; [done|]. intros ->. set_solver.
  - intros b O pa (Hs & Hn & Hl & A & Hrep & HO) Hpa. destruct (HO pa Hpa) as (i & -> & Hi & _).
    destruct (buddy_rep_block _ _ _ _ Hrep Hi) as (H0 & _ & H1). exists i.
    split; [rewrite Hn in H1; lia|]. unfold paddr. by rewrite Hs.
Qed.

(** * Theorems *)

Section Theorems.

Context {A : Type} {kalloc : prog A Z} {kfree : Z → prog A unit}.

Context {owns : A → gset Z → Prop} {arena : Z → Prop} {PS : PageSource kalloc kfree owns arena}.

(** [mappages] over any page allocator: when it returns 0, [walkaddr] of
    every address of the range gives the page that was asked for (0 if the
    permissions lack PTE_U) and of every other address what it gave before;
    when it returns -1 the allocator ran out of pages and a proper prefix of
    the range is mapped.  No memory outside the table pages changes, and the
    tables remain well formed. *)
Theorem mappages_walkaddr (s : vmst A) root T O va size pa perm w :
  vm_inv (owns:=owns) (arena:=arena) s root T O → map_ok s T va size pa perm → 0 ≤ w < MAXVA →
  wp (r ← mappages kalloc root va size pa perm; x ← walkaddr kalloc root w; mret (r, x))
    (λ '(r, x) s', ∃ T' O' k, vm_inv (owns:=owns) (arena:=arena) s' root T' O' ∧
       grown s T O s' T' O' ∧ ((r = 0 ∧ k = size) ∨ (r = -1 ∧ 0 ≤ k < size)) ∧
       x = if decide (va ≤ w < va + k)
           then (if has PTE_U perm then pa + (w / PGSIZE - va / PGSIZE) * PGSIZE else 0)
           else user_pa s T w) s.
Proof.
  intros Hi Hok Hw. apply wp_bind. eapply wp_mono; [by apply wp_mappages|].
  intros r s' (T' & O' & k & Hi' & Hg & Hpte & Hr). apply wp_bind.
  eapply wp_mono; [apply (wp_walkaddr s' root T' O' w Hi'); lia|]. intros x s2 [-> ->]. apply wp_ret.
  pose proof Hok as (_ & _ & _ & _ & _ & _ & _ & _ & Hperm & _).
  destruct (map_ok_mul _ _ _ _ _ _ Hok) as (v & n & p & -> & -> & -> & Hv & Hn & Hvn & Hp & Hpn).
  rewrite decide_True by lia. exists T', O', (k * PGSIZE). unfold PGSIZE in *.
  rewrite !Z.div_mul in Hr by lia. split_and!; [done|done|lia|].
  unfold user_pa. rewrite Hpte. unfold mapped_to, PGSIZE. rewrite !Z.div_mul by lia.
  assert ((v ≤ w / 4096 < v + k) ↔ (v * 4096 ≤ w < v * 4096 + k * 4096)) as E
    by (pose proof (Z.div_mod w 4096 ltac:(lia)); pose proof (Z.mod_pos_bound w 4096 ltac:(lia)); lia).
  destruct (decide (v ≤ w / 4096 < v + k)) as [Hin|Hout].
  2: { rewrite (decide_False (P:=v * 4096 ≤ w < v * 4096 + k * 4096)) by (by rewrite <- E). done. }
  rewrite (decide_True (P:=v * 4096 ≤ w < v * 4096 + k * 4096)) by (by apply E).
  assert (good_page (p * 4096 + (w / 4096 - v) * 4096)) as Hgp.
  { split; [lia|]. rewrite <- Z.mul_add_distr_r. unfold PGSIZE. by rewrite Z.mod_mul by lia. }
  rewrite mkpte_valid, mkpte_has, mkpte_pa by (done || lia). by destruct (has PTE_U perm).
Qed.

(** [uvmunmap] clears every valid entry of the range, leaves every other
    entry as it was, and gives back exactly the pages those entries mapped
    when [do_free] is set and none otherwise; the table pages themselves stay
    allocated and memory outside them is unchanged. *)
Theorem uvmunmap_correct (s : vmst A) root T O va npages do_free :
  vm_inv (owns:=owns) (arena:=arena) s root T O → 0 ≤ va → va mod PGSIZE = 0 → 0 ≤ npages →
  va + npages * PGSIZE ≤ MAXVA → (do_free = true → free_ok s T O (va / PGSIZE) npages) →
  wp (uvmunmap kalloc kfree root va npages do_free) (λ _ s', ∃ O',
    vm_inv (owns:=owns) (arena:=arena) s' root T O' ∧
    (∀ vpn, pte_at (ram s') T vpn =
       if decide (va / PGSIZE ≤ vpn < va / PGSIZE + npages) then cleared (pte_at (ram s) T vpn)
       else pte_at (ram s) T vpn) ∧
    (∀ pg, pg ∈ O' ↔ pg ∈ O ∧ ¬ (do_free = true ∧ maps s T (va / PGSIZE) npages pg)) ∧
    (∀ a, ¬ in_tables T a → ram s' !! a = ram s !! a)) s.
Proof.
  intros Hi Hva Hal Hn Hmax Hf. eapply wp_mono; [by apply (wp_uvmunmap s root T O)|].
  intros [] s' (O' & Hi' & Hu). exists O'. by destruct Hu.
Qed.

(** C11: bytes copied out to user memory and in again are the bytes that were
    sent: over a user range that is mapped and writable, with no page mapped
    twice, [copyout] and [copyin] both succeed, whatever page boundaries the
    range crosses, and the second buffer ends up with the first one's
    contents. *)
Theorem copyout_copyin_roundtrip (s : vmst A) root T O va src buf len :
  vm_inv (owns:=owns) (arena:=arena) s root T O → 0 ≤ len < 2 ^ 32 → user_range s T va len →
  kernel_buf s T va len src → kernel_buf s T va len buf →
  (∀ i, 0 ≤ i < len → has PTE_W (pte_at (ram s) T ((va + i) / PGSIZE)) = true) →
  (∀ i j, 0 ≤ i < len → 0 ≤ j < len → user_pa s T (va + i) = user_pa s T (va + j) →
     (va + i) / PGSIZE = (va + j) / PGSIZE) →
  wp (r1 ← copyout kalloc kfree root va src len; r2 ← copyin kalloc kfree root buf va len; mret (r1, r2))
    (λ r s', r = (0, 0) ∧ vm_inv (owns:=owns) (arena:=arena) s' root T O ∧
       ∀ i, 0 ≤ i < len → ram s' !! (buf + i) = ram s !! (src + i)) s.
Proof.
  intros Hi Hlen Hr Hsrc Hbuf Hw Hinj. apply wp_bind.
  eapply wp_mono; [by apply (wp_copyout s root T O Hi va src len Hr Hsrc Hw Hinj)|].
  intros r1 s1 (-> & Hi1 & m1 & -> & Hdl). apply wp_bind.
  destruct (delivered_inv s root T O Hi va src len Hr len m1 Hdl ltac:(lia)) as (_ & Hpa & _).
  pose proof Hdl as (Hd & Hbytes & _). pose proof Hr as (Hr0 & Hr1 & Hru).
  assert (∀ i, 0 ≤ i < len → user_ok (set_ram m1 s) T (va + i)) as Hru'.
  { intros i Hin. apply user_ok_mem; [by apply Hru|done|done]. }
  eapply wp_mono; [apply (wp_copyin (set_ram m1 s) root T O Hi1 buf va len)|].
  - by split_and!.
  - destruct Hbuf as (Hm & Ht & Hap). split_and!; [by eapply same_dom_mapped|done|].
    intros i Hin. rewrite Hpa. by apply Hap.
  - done.
  - intros r2 s2 (-> & Hi2 & m2 & -> & [_ Harr]). apply wp_ret. split; [done|]. split; [done|].
    intros i Hin. cbn. rewrite Harr, decide_True by lia.
    replace (va + (buf + i - buf)) with (va + i) by lia.
    rewrite ubyte_at by (by apply Hru'). rewrite Hpa. by apply Hbytes.
Qed.

(** C12: [copyinstr] with any user pointer: it returns 0 exactly when a NUL is
    met within [max] mapped bytes, and the buffer then holds the string with
    its NUL; otherwise it returns -1 having stopped at the first unmapped
    page or after [max] bytes without a NUL.  It never writes outside the
    [max] bytes of the buffer. *)
Theorem copyinstr_correct (s : vmst A) root T O dst srcva max :
  vm_inv (owns:=owns) (arena:=arena) s root T O → 0 ≤ srcva → 0 ≤ max < 2 ^ 32 →
  mapped (ram s) dst max → (∀ a, dst ≤ a < dst + max → ¬ in_tables T a) →
  (∀ va, 0 ≤ va < MAXVA → user_pa s T va ≠ 0 →
     user_ok s T va ∧ (user_pa s T va + PGSIZE ≤ dst ∨ dst + max ≤ user_pa s T va)) →
  wp (copyinstr kalloc root dst srcva max) (λ r s', vm_inv (owns:=owns) (arena:=arena) s' root T O ∧
    ∃ n, (∀ j, 0 ≤ j < n → ∃ c, ubyte s T (srcva + j) = Some c ∧ c ≠ 0) ∧
      ((r = 0 ∧ 0 ≤ n < max ∧ ubyte s T (srcva + n) = Some 0 ∧
        ∀ a, ram s' !! a = if decide (dst ≤ a < dst + (n + 1)) then ubyte s T (srcva + (a - dst)) else ram s !! a) ∨
       (r = -1 ∧ 0 ≤ n ≤ max ∧ (n = max ∨ MAXVA ≤ srcva + n ∨ user_pa s T (srcva + n) = 0) ∧
        ∀ a, ¬ (dst ≤ a < dst + max) → ram s' !! a = ram s !! a))) s.
Proof.
  intros Hi Hs Hmax Hm Ht Hu. eapply wp_mono; [by apply (wp_copyinstr s root T O Hi)|].
  intros r s' (Hi' & m' & -> & [(-> & n & Hn & Hnn & Hz & [_ Ha])|(-> & n & Hn & Hnn & [_ Ha] & Hor)]);
    (split; [done|]); exists n; (split; [done|]).
  - left. split_and!; [lia..|done|done].
  - right. split_and!; [lia..|done|]. intros a Hout. cbn. rewrite Ha. apply decide_False. lia.
Qed.

End Theorems.

(** * A concrete user address space

    Four pages of page-allocator memory at 8192, a new page table with the
    data page 28672 mapped at virtual address 0, and a page of kernel buffers
    at 24576. *)

Definition ram0 : bmem := list_to_map ((λ a, (a, 0)) <$> seqZ 8192 24576).

Definition has_ram (m : bmem) : Prop := ∀ a n, 8192 ≤ a → a + n ≤ 32768 → mapped m a n.

Lemma zeros_lookup lo n a : lo ≤ a < lo + n →
  (list_to_map ((λ a, (a, 0)) <$> seqZ lo n) : bmem) !! a = Some 0.
Proof.
  intros Ha. apply elem_of_list_to_map_1.
  - rewrite <- list_fmap_compose. unfold compose. cbn [fst]. change (λ x : Z, x) with (@id Z).
    rewrite list_fmap_id. apply NoDup_seqZ.
  - apply list_elem_of_fmap. exists a. split; [done|]. apply elem_of_seqZ. lia.
Qed.

Lemma ram0_zeroed pg : 8192 ≤ pg ≤ 28672 → zeroed ram0 pg.
Proof. intros Hp a Ha. unfold ram0, PGSIZE in *. apply zeros_lookup. lia. Qed.

Lemma ram0_mapped : has_ram ram0.
Proof.
  intros a n Ha Hn. split_and!; [lia..|]. intros i Hi. exists 0. apply zeros_lookup. lia.
Qed.

Lemma has_ram_dom m m' : same_dom m m' → has_ram m → has_ram m'.
Proof. intros Hd Hm a n Ha Hn. eapply same_dom_mapped; [done|by apply Hm]. Qed.

Lemma arena_good m : has_ram m → ∀ pg, buddy_arena 8192 4 pg → good_page pg ∧ mapped m pg PGSIZE.
Proof.
  intros Hm pg (i & Hi & ->). unfold good_page, BLOCK_SIZE, PGSIZE. split; [split; [lia|]|apply Hm; lia].
  replace (8192 + i * 4096) with ((2 + i) * 4096) by lia. apply Z.mod_mul. lia.
Qed.

Record user_world (s : vmst bstate) (root : Z) (T : tmap) (O : gset Z) : Prop := {
  uw_inv : vm_inv (owns:=buddy_owns 8192 4) (arena:=buddy_arena 8192 4) s root T O;
  uw_pte vpn : pte_at (ram s) T vpn = if decide (vpn = 0) then mkpte 28672 22 else 0;
  uw_ram : has_ram (ram s);
  uw_tables k pg : T !! k = Some pg → 8192 ≤ pg ≤ 20480 }.

(** Three pages taken from the region. *)
Definition three_pages : prog bstate (Z * Z * Z) :=
  a ← kalloc; b ← kalloc; c ← kalloc; mret (a, b, c).

Definition all_found {S} (o : outcome (Z * Z * Z * S)) : bool :=
  match o with
  | Ok ((a, b, c), _) => negb (a =? 0) && negb (b =? 0) && negb (c =? 0)
  | _ => false
  end.

Lemma three_pages_found : all_found (three_pages boot4) = true.
Proof. vm_compute. reflexivity. Qed.

Lemma buddy_owns_boot : buddy_owns 8192 4 boot4 ∅.
Proof.
  destruct boot4_idle as [Hrep Hl _]. split_and!; [vm_compute; reflexivity..|exact Hl|].
  exists ∅. split; [exact Hrep|]. intros p Hp. exfalso. exact (not_elem_of_empty p Hp).
Qed.

#[local] Opaque ram0 boot4.

Lemma all_found_inv (m : prog bstate Z) s :
  all_found ((a ← m; b ← m; c ← m; mret (a, b, c)) s) = true →
  ∃ a b c s1 s2 s3, m s = Ok (a, s1) ∧ m s1 = Ok (b, s2) ∧ m s2 = Ok (c, s3) ∧ a ≠ 0 ∧ b ≠ 0 ∧ c ≠ 0.
Proof.
  unfold mbind, prog_bind. intros H. destruct (m s) as [[a s1]| | |] eqn:E1; cbn in H; [|done..].
  destruct (m s1) as [[b s2]| | |] eqn:E2; cbn in H; [|done..].
  destruct (m s2) as [[c s3]| | |] eqn:E3; cbn in H; [|done..].
  apply andb_true_iff in H as [[Ha Hb]%andb_true_iff Hc].
  apply negb_true_iff, Z.eqb_neq in Ha, Hb, Hc. by exists a, b, c, s1, s2, s3.
Qed.

Lemma kalloc_owned s O r s' :
  buddy_owns 8192 4 s O → kalloc s = Ok (r, s') → r ≠ 0 →
  (r ∉ O) ∧ buddy_arena 8192 4 r ∧ buddy_owns 8192 4 s' ({[r]} ∪ O).
Proof.
  intros H E Hr. pose proof (wp_result _ _ _ _ _ (ps_kalloc _ _ H) E) as [[? _]|W]; [done|exact W].
Qed.

Lemma three_pages_owned : ∃ a b c s, buddy_owns 8192 4 s ({[c]} ∪ ({[b]} ∪ ({[a]} ∪ ∅))) ∧
  a ≠ b ∧ a ≠ c ∧ b ≠ c ∧ buddy_arena 8192 4 a ∧ buddy_arena 8192 4 b ∧ buddy_arena 8192 4 c.
Proof.
  destruct (all_found_inv kalloc boot4 three_pages_found)
    as (a & b & c & s1 & s2 & s3 & E1 & E2 & E3 & Na & Nb & Nc).
  destruct (kalloc_owned _ _ _ _ buddy_owns_boot E1 Na) as (_ & Aa & O1).
  destruct (kalloc_owned _ _ _ _ O1 E2 Nb) as (Fb & Ab & O2).
  destruct (kalloc_owned _ _ _ _ O2 E3 Nc) as (Fc & Ac & O3).
  exists a, b, c, s3. clear E1 E2 E3 O1 O2. split_and!; [exact O3|set_solver..|exact Aa|exact Ab|exact Ac].
Qed.

(** The tables: [a] at the root, [b] and [c] below it, and the entry of
    virtual page 0 in [c]. *)
Lemma arena_range p : buddy_arena 8192 4 p → 8192 ≤ p ≤ 20480.
Proof. intros (i & Hi & ->). unfold BLOCK_SIZE. lia. Qed.

Section Tables.

Context (m0 : bmem) (Hram : has_ram m0) (Hzero : ∀ pg, 8192 ≤ pg ≤ 28672 → zeroed m0 pg).

Context (a b c : Z) (Aa : buddy_arena 8192 4 a) (Ab : buddy_arena 8192 4 b) (Ac : buddy_arena 8192 4 c).

Context (Hab : a ≠ b) (Hac : a ≠ c) (Hbc : b ≠ c).

Let T0 : tmap := {[(2, 0) := a]}.

Let T1 : tmap := <[(1, 0) := b]> T0.

Let T2 : tmap := <[(0, 0) := c]> T1.

Let m1 : bmem := wr64 m0 (a + 8 * 0) (mkpte b 0).

Let m2 : bmem := wr64 m1 (b + 8 * 0) (mkpte c 0).

Lemma tables_root : pt_ok m0 a T0.
Proof.
  destruct (arena_good _ Hram a Aa) as [Hg Hm]. apply pt_ok_root; [done..|].
  apply Hzero. pose proof (arena_range a Aa). lia.
Qed.

Lemma tables_mid : pt_ok m1 a T1 ∧ (∀ vpn, pte_at m1 T1 vpn = pte_at m0 T0 vpn) ∧ same_dom m0 m1.
Proof.
  destruct (arena_good _ Hram a Aa) as [Ga Ma]. destruct (arena_good _ Hram b Ab) as [Gb Mb].
  pose proof (arena_range b Ab).
  destruct (pt_add m0 m0 a T0 tables_root 2 0 a 0 b) as [H1 P1]; [|lia|lia| |done|done| |done| |done|].
  - apply lookup_singleton_eq.
  - by apply lookup_singleton_ne.
  - by intros k q [_ <-]%lookup_singleton_Some.
  - apply Hzero. lia.
  - split_and!; [exact H1|exact P1|]. apply same_dom_wr64, ent_mapped; [done|lia].
Qed.

Lemma tables_low : pt_ok m2 a T2 ∧ (∀ vpn, pte_at m2 T2 vpn = 0) ∧ same_dom m0 m2.
Proof.
  destruct tables_mid as (H1 & P1 & D1). destruct (arena_good _ Hram a Aa) as [Ga _].
  destruct (arena_good _ Hram b Ab) as [Gb Mb]. destruct (arena_good _ Hram c Ac) as [Gc Mc].
  pose proof (arena_range c Ac).
  destruct (pt_add m1 m1 a T1 H1 1 0 b 0 c) as [H2 P2]; [|lia|lia| |done| | |done| |done|].
  - apply lookup_insert_eq.
  - unfold T1. rewrite lookup_insert_ne by done. by apply lookup_singleton_ne.
  - by eapply same_dom_mapped.
  - by intros k q [[_ <-]|[_ [_ <-]%lookup_singleton_Some]]%lookup_insert_Some.
  - intros x Hx. unfold m1. rewrite wr64_outside; [apply (Hzero c); [lia|done]|].
    pose proof (good_pages_apart a c Ga Gc Hac). unfold PGSIZE in *. lia.
  - split_and!; [exact H2| |].
    + intros vpn. etrans; [apply P2|]. rewrite P1. unfold pte_at, T0. by rewrite lookup_singleton_ne.
    + eapply same_dom_trans; [exact D1|]. apply same_dom_wr64, ent_mapped; [|lia]. by eapply same_dom_mapped.
Qed.

Lemma tables_world s : buddy_owns 8192 4 s ({[c]} ∪ ({[b]} ∪ ({[a]} ∪ ∅))) →
  user_world (VmSt (wr64 m2 (c + 8 * 0) (mkpte 28672 22)) s 0 0) a T2 ({[c]} ∪ ({[b]} ∪ ({[a]} ∪ ∅))).
Proof.
  intros Ho. destruct tables_low as (H2 & P2 & D2). destruct (arena_good _ Hram c Ac) as [_ Mc].
  destruct (pt_write m2 a T2 H2 0 c 0 (mkpte 28672 22)) as [H3 P3];
    [apply lookup_insert_eq|lia|apply mkpte_range; [split; [lia|done]|lia]|].
  assert (has_ram (wr64 m2 (c + 8 * 0) (mkpte 28672 22))) as Hr.
  { eapply has_ram_dom; [|exact Hram]. eapply same_dom_trans; [exact D2|].
    apply same_dom_wr64, ent_mapped; [|lia]. by eapply same_dom_mapped. }
  assert (∀ k q, T2 !! k = Some q → q = a ∨ q = b ∨ q = c) as HT.
  { intros k q [[_ <-]|[_ [[_ <-]|[_ [_ <-]%lookup_singleton_Some]]%lookup_insert_Some]]%lookup_insert_Some; auto. }
  split; cbn [ram].
  - split; [exact H3|exact Ho| |exact (arena_good _ Hr)].
    intros k q [->|[->| ->]]%HT; set_solver.
  - intros vpn. rewrite P3, P2. done.
  - exact Hr.
  - intros k q [->|[->| ->]]%HT; by apply arena_range.
Qed.

End Tables.

Lemma user_world_exists : ∃ s root T O, user_world s root T O.
Proof.
  destruct three_pages_owned as (a & b & c & s & Ho & Hab & Hac & Hbc & Aa & Ab & Ac).
  eexists _, _, _, _. exact (tables_world ram0 ram0_mapped ram0_zeroed a b c Aa Ab Ac Hab Hac Hbc s Ho).
Qed.

Lemma world_user_pa s root T O va : user_world s root T O →
  user_pa s T va = if decide (0 ≤ va < 4096) then 28672 else 0.
Proof.
  intros W. unfold user_pa. rewrite (uw_pte _ _ _ _ W). unfold PGSIZE.
  assert (va / 4096 = 0 ↔ 0 ≤ va < 4096) as E by (Z.to_euclidean_division_equations; lia).
  destruct (decide (va / 4096 = 0)) as [H|H].
  - rewrite decide_True by (by apply E). reflexivity.
  - rewrite decide_False by (by rewrite <- E). reflexivity.
Qed.

Lemma world_user_ok s root T O va : user_world s root T O → 0 ≤ va < 4096 → user_ok s T va.
Proof.
  intros W Hva. pose proof (world_user_pa s root T O va W) as E. rewrite decide_True in E by done.
  split; rewrite ?E.
  - change MAXVA with (2 ^ 38). lia.
  - split; [lia|reflexivity].
  - apply (uw_ram _ _ _ _ W); unfold PGSIZE; lia.
  - intros k Hk. apply (uw_tables _ _ _ _ W) in Hk. lia.
Qed.

Lemma world_buf s root T O va len buf : user_world s root T O → 0 ≤ va → va + len ≤ 4096 →
  24576 ≤ buf → buf + len ≤ 28672 → kernel_buf s T va len buf.
Proof.
  intros W Hva Hlen Hb Hbl. split_and!.
  - apply (uw_ram _ _ _ _ W); lia.
  - intros a Ha (k & pg & Hk & Hr). apply (uw_tables _ _ _ _ W) in Hk. unfold PGSIZE in Hr. lia.
  - intros i Hi. rewrite (world_user_pa s root T O) by done. rewrite decide_True by lia. lia.
Qed.

Lemma copyout_copyin_roundtrip_witness : ∃ s root T O, user_world s root T O ∧
  wp (r1 ← copyout kalloc kfree root 100 24576 8; r2 ← copyin kalloc kfree root 24600 100 8; mret (r1, r2))
    (λ r s', r = (0, 0) ∧ ∀ i, 0 ≤ i < 8 → ram s' !! (24600 + i) = ram s !! (24576 + i)) s.
Proof.
  destruct user_world_exists as (s & root & T & O & W). exists s, root, T, O. split; [done|].
  eapply wp_mono; [apply (copyout_copyin_roundtrip s root T O 100 24576 24600 8 (uw_inv _ _ _ _ W))|].
  - lia.
  - split_and!; [lia|change MAXVA with (2 ^ 38); lia|]. intros i Hi.
    apply (world_user_ok s root T O _ W). lia.
  - apply (world_buf s root T O _ _ _ W); lia.
  - apply (world_buf s root T O _ _ _ W); lia.
  - intros i Hi. rewrite (uw_pte _ _ _ _ W). unfold PGSIZE. rewrite Z.div_small by lia. reflexivity.
  - intros i j Hi Hj _. unfold PGSIZE. rewrite !Z.div_small by lia. done.
  - intros r s' (-> & _ & Hb). split; [done|exact Hb].
Defined.

Lemma copyinstr_correct_witness : ∃ s root T O, user_world s root T O ∧
  wp (copyinstr kalloc root 24576 0 64) (λ r _, r = 0 ∨ r = -1) s.
Proof.
  destruct user_world_exists as (s & root & T & O & W). exists s, root, T, O. split; [done|].
  eapply wp_mono; [apply (copyinstr_correct s root T O 24576 0 64 (uw_inv _ _ _ _ W)); [lia|lia| | |]|].
  - apply (uw_ram _ _ _ _ W); lia.
  - intros a Ha (k & pg & Hk & Hr). apply (uw_tables _ _ _ _ W) in Hk. unfold PGSIZE in Hr. lia.
  - intros va Hva Hnz. rewrite (world_user_pa s root T O va W) in *. case_decide; [|done].
    split; [by apply (world_user_ok s root T O)|lia].
  - intros r s' (_ & n & _ & [[-> _]|[-> _]]); auto.
Defined.
