(* ===== verification/Sysproc.v ===== *)
(** The system calls that give a process an allocator of its own
    (kernel/sysproc.c), with the argument fetching of kernel/syscall.c: the
    process hands the kernel a window of its address space, the kernel runs
    the slab allocator on an arena of the same size, and pointers are
    translated between the two. *)

From S2P Require Import Prelude.
From S2P Require Import Buddy.
From S2P Require Import Slab.
From S2P Require Import KmemInit.
From S2P Require Import Cstring.
From S2P Require Import Vm.

(** * State *)

(** The allocators of the system: the kernel's own [kmem], the per-process
    states by the address of their page, and [mycpu()->active_kmem]. *)
Record allocs := Allocs {
  kmem : boot_state;
  ukmems : gmap Z kstate;
  active_kmem : Z }.

Definition set_kmem (b : boot_state) (s : allocs) : allocs := Allocs b (ukmems s) (active_kmem s).

Definition set_ukmems (m : gmap Z kstate) (s : allocs) : allocs := Allocs (kmem s) m (active_kmem s).

Definition set_active (a : Z) (s : allocs) : allocs := Allocs (kmem s) (ukmems s) a.

(** The fields of [struct proc] that describe the window. *)
Record window := Window {
  kheapwin_base : Z;
  kheapwin_pages : Z;
  uheapwin_base : Z;
  ukmem : Z;
  ukmem_inited : bool }.

(** The running process: its window, its argument registers [a0..a5], and the
    memory and page table it runs on. *)
Record sysst := SysSt {
  vm : vmst allocs;
  win : window;
  targs : list Z }.

Definition set_vm (v : vmst allocs) (s : sysst) : sysst := SysSt v (win s) (targs s).

Definition set_win (w : window) (s : sysst) : sysst := SysSt (vm s) w (targs s).

Definition set_ubase (b : Z) (w : window) : window :=
  Window (kheapwin_base w) (kheapwin_pages w) b (ukmem w) (ukmem_inited w).

Definition set_pages_num (n : Z) (w : window) : window :=
  Window (kheapwin_base w) n (uheapwin_base w) (ukmem w) (ukmem_inited w).

Definition set_kbase (b : Z) (w : window) : window :=
  Window b (kheapwin_pages w) (uheapwin_base w) (ukmem w) (ukmem_inited w).

Definition set_inited (w : window) : window :=
  Window (kheapwin_base w) (kheapwin_pages w) (uheapwin_base w) (ukmem w) true.

Definition on_allocs {A} (m : prog allocs A) : prog sysst A :=
  zoom (λ s, pages (vm s)) (λ a s, set_vm (set_pages a (vm s)) s) m.

Definition on_vm {A} (m : prog (vmst allocs) A) : prog sysst A := zoom vm set_vm m.

Definition on_sysram {A} (m : prog bmem A) : prog sysst A := on_vm (on_ram m).

(** * Which allocator runs: [curr_kmem] *)

Definition user_view (k : kstate) (s : allocs) : boot_state :=
  BootState k (kheapwin_base0 (kmem s)) (kheapwin_total (kmem s)).

(** Every entry point of the allocator works on [curr_kmem()]; the flag says
    whether that is the kernel's own state. *)
Definition with_kmem {A} (m : bool → prog boot_state A) : prog allocs A := λ s,
  if active_kmem s =? NULL then zoom kmem set_kmem (m true) s
  else
    match ukmems s !! active_kmem s with
    | None => UB
    | Some k =>
        zoom (user_view k)
          (λ b s, Allocs (set_windows (kheapwin_base0 b) (kheapwin_total b) (kmem s))
                    (<[active_kmem s := kst b]> (ukmems s)) (active_kmem s))
          (m false) s
    end.

Definition on_curr {A} (m : prog kstate A) : prog allocs A := with_kmem (λ _, on_kst m).

Definition curr_kalloc : prog allocs Z := on_curr (on_bud kalloc).

Definition curr_kfree (pa : Z) : prog allocs unit := on_curr (on_bud (kfree pa)).

Definition kmem_push (newst : Z) : prog allocs Z :=
  s ← get;
  _ ← modify (set_active newst);
  mret (active_kmem s).

Definition kmem_pop (old : Z) : prog allocs unit := modify (set_active old).

(** * Arguments *)

Definition argraw (n : Z) : prog sysst Z :=
  s ← get;
  if (0 <=? n) && (n <=? 5) then of_option (targs s !! Z.to_nat n) else panic "argraw".

Definition argint (n : Z) : prog sysst Z := x ← argraw n; mret (s32 x).

Definition argaddr (n : Z) : prog sysst Z := x ← argraw n; mret (u64 x).

(** The [uint64] a system call returns for -1. *)
Definition neg1 : Z := u64 (-1).

Definition MAX_TEST_PAGES : Z := 1024.

(** * Pointer translation *)

Definition to_user (w : window) (k : Z) : Z := u64 (uheapwin_base w + u64 (k - kheapwin_base w)).

Definition to_kernel (w : window) (u : Z) : Z := u64 (kheapwin_base w + u64 (u - uheapwin_base w)).

(** [p->kheapwin_base == 0 || p->uheapwin_base == 0 || p->kheapwin_pages <= 0] *)
Definition no_window (w : window) : bool :=
  (kheapwin_base w =? 0) || (uheapwin_base w =? 0) || (kheapwin_pages w <=? 0).

(** * The system calls *)

Definition sys_kmem_init : prog sysst Z :=
  space ← argaddr 0;
  pages ← argint 1;
  if (pages <=? 0) || (MAX_TEST_PAGES <? pages) then mret neg1
  else
    s ← get;
    if ukmem_inited (win s) then mret neg1
    else
      _ ← modify (λ s, set_win (set_ubase space (win s)) s);
      _ ← modify (λ s, set_win (set_pages_num pages (win s)) s);
      let total_bytes := u64 (pages * PGSIZE) in
      arena ← on_allocs (on_curr (on_bud (buddy_alloc (total_bytes / PGSIZE))));
      if arena =? 0 then mret neg1
      else
        _ ← modify (λ s, set_win (set_kbase arena (win s)) s);
        old ← on_allocs (kmem_push (ukmem (win s)));
        _ ← on_allocs (with_kmem (λ is_kernel, kmem_init is_kernel arena pages));
        _ ← on_allocs (kmem_pop old);
        _ ← modify (λ s, set_win (set_inited (win s)) s);
        mret 0.

(** The NUL-terminated string at [a]. *)
Fixpoint bytes_from (n : nat) (m : bmem) (a : Z) : string :=
  match n with
  | O => EmptyString
  | S n' => String (Ascii.ascii_of_N (Z.to_N (default 0 (m !! a)))) (bytes_from n' m (a + 1))
  end.

Definition string_at (a : Z) : prog bmem string :=
  n ← strlen a; m ← get; mret (bytes_from (Z.to_nat n) m a).

(** [kname] is the address of the 64-byte buffer on the kernel stack. *)
Definition sys_k_kmem_cache_create (kname : Z) : prog sysst Z :=
  uname ← argaddr 0;
  size ← argint 1;
  _ ← argaddr 2;
  _ ← argaddr 3;
  if size <=? 0 then mret 0
  else
    s ← get;
    let p := win s in
    if negb (ukmem_inited p) then mret 0
    else
      old ← on_allocs (kmem_push (ukmem p));
      r ← on_vm (copyinstr curr_kalloc (p_pagetable (vm s)) kname uname 64);
      if r <? 0 then mret 0
      else
        namecopy ← on_allocs curr_kalloc;
        if namecopy =? 0 then mret 0
        else
          _ ← on_sysram (memset namecopy 0 PGSIZE);
          _ ← on_sysram (safestrcpy namecopy kname PGSIZE);
          name ← on_sysram (string_at namecopy);
          c ← on_allocs (on_curr (kmem_cache_create (Some name) size NULL NULL));
          _ ← on_allocs (kmem_pop old);
          mret (to_user p c).

Definition sys_k_kmem_cache_alloc : prog sysst Z :=
  hc ← argaddr 0;
  s ← get;
  let p := win s in
  if negb (ukmem_inited p) then mret 0
  else
    old ← on_allocs (kmem_push (ukmem p));
    if no_window p then mret 0
    else
      let c := to_kernel p hc in
      if c =? 0 then mret 0
      else
        kobj ← on_allocs (on_curr (kmem_cache_alloc c));
        _ ← on_allocs (kmem_pop old);
        if kobj =? 0 then mret 0 else mret (to_user p kobj).

Definition sys_k_kmem_cache_free : prog sysst Z :=
  hc ← argaddr 0;
  uobj ← argaddr 1;
  s ← get;
  let p := win s in
  if negb (ukmem_inited p) then mret 0
  else
    old ← on_allocs (kmem_push (ukmem p));
    if (hc =? 0) || (uobj =? 0) then _ ← on_allocs (kmem_pop old); mret neg1
    else
      let kobj := to_kernel p uobj in
      let c := to_kernel p hc in
      let k_lo := kheapwin_base p in
      let k_hi := u64 (kheapwin_base p + u64 (kheapwin_pages p * PGSIZE)) in
      if (kobj <? k_lo) || (k_hi <=? kobj) then _ ← on_allocs (kmem_pop old); mret neg1
      else
        _ ← on_allocs (on_curr (kmem_cache_free c kobj));
        _ ← on_allocs (kmem_pop old);
        mret 0.

Definition sys_k_kmem_cache_destroy : prog sysst Z :=
  s ← get;
  let p := win s in
  if negb (ukmem_inited p) then mret 0
  else
    old ← on_allocs (kmem_push (ukmem p));
    hc ← argaddr 0;
    let c := to_kernel p hc in
    if c =? 0 then _ ← on_allocs (kmem_pop old); mret neg1
    else
      _ ← on_allocs (on_curr (kmem_cache_destroy c));
      _ ← on_allocs (kmem_pop old);
      mret 0.

Definition sys_kmem_cache_info : prog sysst Z :=
  s ← get;
  let p := win s in
  if negb (ukmem_inited p) then mret 0
  else
    old ← on_allocs (kmem_push (ukmem p));
    hc ← argaddr 0;
    let c := to_kernel p hc in
    if c =? 0 then _ ← on_allocs (kmem_pop old); mret neg1
    else
      _ ← on_allocs (on_curr (kmem_cache_info c));
      _ ← on_allocs (kmem_pop old);
      mret 0.

Definition sys_kmalloc : prog sysst Z :=
  n ← argint 0;
  if n <=? 0 then mret 0
  else
    s ← get;
    let p := win s in
    if negb (ukmem_inited p) then mret 0
    else if no_window p then mret 0
    else
      old ← on_allocs (kmem_push (ukmem p));
      kobj ← on_allocs (on_curr (kmalloc n));
      _ ← on_allocs (kmem_pop old);
      if kobj =? 0 then mret 0 else mret (to_user p kobj).

Definition sys_kfree : prog sysst Z :=
  u ← argaddr 0;
  if u =? 0 then mret neg1
  else
    s ← get;
    let p := win s in
    old ← on_allocs (kmem_push (ukmem p));
    let u_lo := uheapwin_base p in
    let u_hi := u64 (uheapwin_base p + u64 (kheapwin_pages p * PGSIZE)) in
    if (u <? u_lo) || (u_hi <=? u) then _ ← on_allocs (kmem_pop old); mret neg1
    else
      _ ← on_allocs (on_curr (k_free (to_kernel p u)));
      _ ← on_allocs (kmem_pop old);
      mret 0.

Definition SBRK_EAGER : Z := 1.

Definition sys_sbrk : prog sysst Z :=
  n ← argint 0;
  t ← argint 1;
  s ← get;
  let addr := p_sz (vm s) in
  if (t =? SBRK_EAGER) || (n <? 0) then
    r ← on_vm (growproc curr_kalloc curr_kfree n);
    if r <? 0 then mret neg1 else mret addr
  else if u64 (addr + n) <? addr then mret neg1
  else if TRAPFRAME <? u64 (addr + n) then mret neg1
  else
    _ ← on_vm (modify (λ v, set_sz (u64 (p_sz v + n)) v));
    mret addr.

(** Fetching a word or a string from the process. *)
Definition fetchaddr (addr ip : Z) : prog sysst Z :=
  s ← get;
  if (p_sz (vm s) <=? addr) || (p_sz (vm s) <? u64 (addr + 8)) then mret (-1)
  else
    r ← on_vm (copyin curr_kalloc curr_kfree (p_pagetable (vm s)) ip addr 8);
    if negb (r =? 0) then mret (-1) else mret 0.

Definition fetchstr (addr buf max : Z) : prog sysst Z :=
  s ← get;
  r ← on_vm (copyinstr curr_kalloc (p_pagetable (vm s)) buf addr (u64 max));
  if r <? 0 then mret (-1) else on_sysram (strlen buf).

Definition argstr (n buf max : Z) : prog sysst Z := addr ← argaddr n; fetchstr addr buf max.
