(* ===== verification/SysprocProps.v ===== *)
(** What the allocator system calls promise a process: the pointers they
    return lie in its window and name fresh objects of its own allocator, and
    the kernel's allocator and those of other processes are untouched. *)

From S2P Require Import Prelude.
From S2P Require Import Buddy.
From S2P Require Import BuddyInv.
From S2P Require Import BuddySpec.
From S2P Require Import BuddyProps.
From S2P Require Import Slab.
From S2P Require Import SlabInv.
From S2P Require Import SlabLists.
From S2P Require Import SlabSpec.
From S2P Require Import SlabAlloc.
From S2P Require Import SlabFree.
From S2P Require Import SlabCreate.
From S2P Require Import KmemInit.
From S2P Require Import SlabProps.
From S2P Require Import Cstring.
From S2P Require Import Vm.
From S2P Require Import VmProps.
From S2P Require Import Sysproc.

(** The page size of kernel/buddy.h and of kernel/riscv.h. *)
Ltac pg := unfold Vm.PGSIZE, KmemInit.PGSIZE in *.

(** * The window *)

(** The window of [w] and the arena behind it, of the same size. *)
Record window_ok (w : window) : Prop := {
  wo_k : 0 < kheapwin_base w;
  wo_u : 0 < uheapwin_base w;
  wo_pages : 0 < kheapwin_pages w ≤ MAX_TEST_PAGES;
  wo_ktop : kheapwin_base w + kheapwin_pages w * PGSIZE < 2 ^ 64;
  wo_utop : uheapwin_base w + kheapwin_pages w * PGSIZE < 2 ^ 64 }.

Definition in_arena (w : window) (a n : Z) : Prop :=
  kheapwin_base w ≤ a ∧ a + n ≤ kheapwin_base w + kheapwin_pages w * PGSIZE.

Definition in_window (w : window) (u n : Z) : Prop :=
  uheapwin_base w ≤ u ∧ u + n ≤ uheapwin_base w + kheapwin_pages w * PGSIZE.

Lemma to_user_eq w a n : window_ok w → in_arena w a n → 0 ≤ n →
  to_user w a = uheapwin_base w + (a - kheapwin_base w).
Proof.
  intros [H1 H2 H3 H4 H5] [H6 H7] Hn. unfold to_user. rewrite (u64_small (a - _)) by lia.
  apply u64_small. lia.
Qed.

Lemma to_kernel_eq w u n : window_ok w → in_window w u n → 0 ≤ n →
  to_kernel w u = kheapwin_base w + (u - uheapwin_base w).
Proof.
  intros [H1 H2 H3 H4 H5] [H6 H7] Hn. unfold to_kernel. rewrite (u64_small (u - _)) by lia.
  apply u64_small. lia.
Qed.

Lemma to_user_window w a n : window_ok w → in_arena w a n → 0 ≤ n →
  in_window w (to_user w a) n ∧ to_kernel w (to_user w a) = a.
Proof.
  intros Hw Ha Hn. rewrite (to_user_eq w a n) by done.
  assert (in_window w (uheapwin_base w + (a - kheapwin_base w)) n) as Hi
    by (destruct Ha; split; lia).
  split; [done|]. rewrite (to_kernel_eq w _ n) by done. lia.
Qed.

(** * Arguments *)

Lemma wp_argraw n x (Q : Z → sysst → Prop) s :
  0 ≤ n ≤ 5 → targs s !! Z.to_nat n = Some x → Q x s → wp (argraw n) Q s.
Proof.
  intros Hn Hx HQ. unfold argraw. wp_auto. rewrite (proj2 (Z.leb_le 0 n)), (proj2 (Z.leb_le n 5)) by lia.
  by apply (wp_of_option _ x).
Qed.

Lemma wp_argint n x (Q : Z → sysst → Prop) s :
  0 ≤ n ≤ 5 → targs s !! Z.to_nat n = Some x → Q (s32 x) s → wp (argint n) Q s.
Proof. intros Hn Hx HQ. unfold argint. wp_auto. by apply (wp_argraw _ x). Qed.

Lemma wp_argaddr n x (Q : Z → sysst → Prop) s :
  0 ≤ n ≤ 5 → targs s !! Z.to_nat n = Some x → Q (u64 x) s → wp (argaddr n) Q s.
Proof. intros Hn Hx HQ. unfold argaddr. wp_auto. by apply (wp_argraw _ x). Qed.

(** * The process has an allocator *)

Record ready (s : sysst) (k : kstate) (A : gmap Z Z) (G : gmap Z sinfo) (C : list Z) : Prop := {
  rd_inited : ukmem_inited (win s) = true;
  rd_ukmem : ukmem (win s) ≠ NULL;
  rd_state : ukmems (pages (vm s)) !! ukmem (win s) = Some k;
  rd_window : window_ok (win s);
  rd_rep : slab_rep k A G C;
  rd_kmalloc : kmalloc_ok k;
  rd_lo : kheapwin_base (win s) ≤ managed_start (bud k);
  rd_hi : managed_start (bud k) + managed_num_blocks (bud k) * PGSIZE
          ≤ kheapwin_base (win s) + kheapwin_pages (win s) * PGSIZE }.

(** The state with the process's allocator replaced. *)
Definition put_k (k' : kstate) (s : sysst) : sysst :=
  set_vm (set_pages (set_ukmems (<[ukmem (win s) := k']> (ukmems (pages (vm s)))) (pages (vm s))) (vm s)) s.

(** Nothing but the process's own allocator changed. *)
Definition confined (s s' : sysst) : Prop := ∃ k', s' = put_k k' s.

Lemma confined_iff s s' : confined s s' →
  win s' = win s ∧ targs s' = targs s ∧ ram (vm s') = ram (vm s) ∧
  kmem (pages (vm s')) = kmem (pages (vm s)) ∧
  active_kmem (pages (vm s')) = active_kmem (pages (vm s)) ∧
  ∀ x, x ≠ ukmem (win s) → ukmems (pages (vm s')) !! x = ukmems (pages (vm s)) !! x.
Proof.
  intros [k' ->]. split_and!; try done. intros x Hx. cbn. by rewrite lookup_insert_ne by done.
Qed.

Lemma ready_put s k A G C k' A' G' C' :
  ready s k A G C → slab_rep k' A' G' C' → kmalloc_ok k' →
  managed_start (bud k') = managed_start (bud k) →
  managed_num_blocks (bud k') = managed_num_blocks (bud k) → ready (put_k k' s) k' A' G' C'.
Proof.
  intros [H1 H2 H3 H4 H5 H6 H7 H8] Hrep Hok Es En. split; try done.
  - cbn. apply lookup_insert_eq.
  - cbn. by rewrite Es.
  - cbn. by rewrite Es, En.
Qed.

(** A call of the allocator between [kmem_push] and [kmem_pop]. *)
Lemma wp_as_user {B D} s k (m : prog kstate B) (K : B → prog sysst D) Q :
  ukmem (win s) ≠ NULL → ukmems (pages (vm s)) !! ukmem (win s) = Some k →
  wp m (λ x k', wp (K x) Q (put_k k' s)) k →
  wp (old ← on_allocs (kmem_push (ukmem (win s)));
      x ← on_allocs (on_curr m); _ ← on_allocs (kmem_pop old); K x) Q s.
Proof.
  intros Hne Hk Hm. unfold on_allocs, kmem_push. wp_auto. unfold on_curr, with_kmem, wp at 1.
  cbn [pages vm set_vm set_pages set_active active_kmem ukmems].
  rewrite (proj2 (Z.eqb_neq _ _)) by done. rewrite Hk. unfold zoom, on_kst, zoom.
  unfold wp in Hm. cbn [kst user_view]. destruct (m k) as [[x k']| | |]; [|done..].
  apply wp_bind, wp_zoom. unfold kmem_pop. wp_auto. destruct s as [[r [kb uk ac] sz pt] w t].
  destruct kb. exact Hm.
Qed.

(** * The allocator's invariant across one call *)

Lemma kmalloc_ok_frame k k' A G a : kframe A G a k k' → kmalloc_ok k → kmalloc_ok k'.
Proof.
  intros F Hok i Hi. destruct (Hok i Hi) as (p & c & H1 & H2 & H3 & H4 & H5 & H6).
  destruct (kframe_cache_fwd _ _ _ _ _ _ _ F H3) as (c' & Hc' & Hb). exists p, c'.
  rewrite (kf_kmalloc _ _ _ _ _ F). injection Hb as ??????????. split_and!; try done; congruence.
Qed.

(** Live objects lie in the arena. *)
Lemma live_in_arena s k A G C a p sz :
  ready s k A G C → live k G a p sz → in_arena (win s) p sz ∧ 0 < sz ∧ kheapwin_base (win s) < p.
Proof.
  intros H (sl & i & c & j & (Hs & Hia & Hc & Hj & _) & -> & ->). pose proof (sr_core _ _ _ _ (rd_rep _ _ _ _ _ H)) as Hk.
  rewrite <- Hia in Hc. destruct (object_inside k A G Hk sl i c j Hs Hc Hj) as (idx & -> & HA & H1 & H2).
  destruct (buddy_rep_block _ _ _ _ (kc_buddy _ _ _ Hk) HA) as (H3 & H4 & H5).
  pose proof (object_size_pos k A G Hk _ i c Hs Hc). pose proof (rd_lo _ _ _ _ _ H). pose proof (rd_hi _ _ _ _ _ H).
  unfold in_arena, paddr, BLOCK_SIZE, PGSIZE in *. lia.
Qed.

(** What a request of [n] bytes does to the allocator: nothing lives longer or
    shorter than before, and a result is a new object of [n] bytes or more
    that overlaps no other. *)
Definition granted (n : Z) (k : kstate) (G : gmap Z sinfo) (k' : kstate) (G' : gmap Z sinfo) (r : Z) : Prop :=
  (r = NULL ∧ ∀ a p sz, live k' G' a p sz ↔ live k G a p sz) ∨
  (∃ a sz, n ≤ sz ∧ (∀ a' p sz', live k G a' p sz' → ranges_apart r sz p sz') ∧
     ∀ a' p sz', live k' G' a' p sz' ↔ live k G a' p sz' ∨ (a' = a ∧ p = r ∧ sz' = sz)).

Lemma granted_nothing n k G : granted n k G k G NULL.
Proof. by left. Qed.

Lemma wp_kmalloc_granted k A G C n :
  slab_rep k A G C → kmalloc_ok k → 0 < n ≤ int_max →
  wp (kmalloc n) (λ r k', ∃ A' G', slab_rep k' A' G' C ∧ kmalloc_ok k' ∧
    managed_start (bud k') = managed_start (bud k) ∧
    managed_num_blocks (bud k') = managed_num_blocks (bud k) ∧ granted n k G k' G' r) k.
Proof.
  intros Hrep Hok Hn. unfold int_max in Hn. destruct (Z.ltb_spec 131072 n) as [Hbig|Hsm].
  { unfold kmalloc. rewrite (proj2 (Z.eqb_neq _ _)) by lia. cbv zeta.
    assert (n ≤ ALIGN_UP n 8) by (apply ALIGN_UP_bounds; lia).
    rewrite kmalloc_index_big by lia. wp_auto. exists A, G. split_and!; try done. apply granted_nothing. }
  destruct (wp_kmalloc k A G C n Hrep Hok ltac:(lia)) as (a & c & Hc & Hu & H1 & _ & Hwp).
  eapply wp_mono; [exact Hwp|]. intros r k' [[-> ->]|H].
  - destruct (slab_rep_error k A G C a c KMEM_ERR_BUDDY_OOM Hrep Hc) as [Hrep' F].
    exists A, G. split_and!; try done; [by eapply kmalloc_ok_frame|]. left. split; [done|].
    intros a' p sz. split; apply live_bodies; intros x; by rewrite (kf_body _ _ _ _ _ F).
  - destruct (alloc_ok_live k A G C a c r k' Hrep Hc Hu H) as (A' & G' & Hrep' & F & _ & Hap & Hl).
    exists A', G'. split_and!; [done|by eapply kmalloc_ok_frame|apply F|apply F|].
    right. by exists a, (object_size c).
Qed.

Lemma ready_self s k A G C : ready s k A G C → put_k k s = s.
Proof.
  intros H. pose proof (rd_state _ _ _ _ _ H) as E. unfold put_k.
  destruct s as [[r [kb uk ac] sz pt] w t]. cbn in *. by rewrite insert_id.
Qed.

Lemma ready_no_window s k A G C : ready s k A G C → no_window (win s) = false.
Proof.
  intros H. destruct (rd_window _ _ _ _ _ H). unfold no_window.
  rewrite !orb_false_iff, !Z.eqb_neq, Z.leb_gt. lia.
Qed.

Lemma live_cache k A G C a p sz : slab_rep k A G C → live k G a p sz → a ≠ NULL.
Proof.
  intros Hrep (s & i & c & j & (_ & _ & Hc & _) & _) ->.
  pose proof (kc_pool _ _ _ (sr_core _ _ _ _ Hrep)) as Hp.
  destruct (proj1 (po_dom _ Hp NULL)) as (x & Hx & Ex); [eauto|].
  pose proof (po_pos _ Hp). unfold NULL, sizeof_cache in Ex. lia.
Qed.

(** The bounds check of [sys_kfree]. *)
Lemma window_bounds w u n : window_ok w → in_window w u n → 0 < n →
  (u <? uheapwin_base w) || (u64 (uheapwin_base w + u64 (kheapwin_pages w * PGSIZE)) <=? u) = false ∧
  0 < u < 2 ^ 64.
Proof.
  intros [H1 H2 H3 H4 H5] [H6 H7] Hn. unfold PGSIZE, MAX_TEST_PAGES in *.
  rewrite (u64_small (_ * _)) by lia. rewrite u64_small by lia.
  rewrite orb_false_iff, Z.ltb_ge, Z.leb_gt. lia.
Qed.

(** * A concrete process *)

#[local] Opaque booted booted_one.

(** The kernel and one process run the 40-page arena at 64 KB; the window of
    the process starts at 1 GB. *)
Definition example_window (inited : bool) : window := Window 65536 40 1073741824 8192 inited.

Definition example_process (k : kstate) (inited : bool) (args : list Z) : sysst :=
  SysSt (VmSt ∅ (Allocs (BootState booted 0 0) {[8192 := k]} NULL) 0 0) (example_window inited) args.

Lemma example_ready k A G C args : slab_rep k A G C → kmalloc_ok k →
  65536 ≤ managed_start (bud k) → managed_start (bud k) + managed_num_blocks (bud k) * PGSIZE ≤ 229376 →
  ready (example_process k true args) k A G C.
Proof.
  intros Hrep Hok H1 H2. split; try (exact Hrep || exact Hok); cbn; try reflexivity.
  - discriminate.
  - split; cbn; unfold MAX_TEST_PAGES, PGSIZE; lia.
  - exact H1.
  - unfold PGSIZE in *. lia.
Qed.

Lemma booted_region : 65536 ≤ managed_start (bud booted) ∧
  managed_start (bud booted) + managed_num_blocks (bud booted) * PGSIZE ≤ 229376.
Proof. split; vm_compute; discriminate. Qed.

Lemma booted_one_ok : ∃ A G C a p sz, slab_rep booted_one A G C ∧ kmalloc_ok booted_one ∧
  live booted_one G a p sz ∧ 65536 ≤ managed_start (bud booted_one) ∧
  managed_start (bud booted_one) + managed_num_blocks (bud booted_one) * PGSIZE ≤ 229376.
Proof.
  destruct booted_rep as (C & Hrep & Hok). destruct booted_region as [H1 H2].
  pose proof booted_one_result as Hr. Transparent booted_one. unfold booted_one. 
  pose proof (wp_kmalloc_granted booted ∅ ∅ C 100 Hrep Hok ltac:(unfold int_max; lia)) as H.
  apply wp_state in H as (r & E & A' & G' & Hrep' & Hok' & Es & En & Hg).
  rewrite E in Hr. simpl in Hr. destruct Hg as [[? _]|(a & sz & _ & _ & Hl)]; [contradiction|].
  exists A', G', C, a, r, sz. rewrite Es, En.
  exact (conj Hrep' (conj Hok' (conj (proj2 (Hl a r sz) (or_intror (conj eq_refl (conj eq_refl eq_refl)))) (conj H1 H2)))).
Qed.

#[local] Opaque booted_one.

(** * The properties *)

(** C13: the [kmalloc] system call of a process with an allocator returns,
    whatever its argument.  It changes nothing but that process's allocator;
    it returns 0 and every live object stays as it is, or it returns a user
    address inside the window that translates to a new object, at least as
    large as asked for and disjoint from the live ones. *)
Theorem sys_kmalloc_correct s k A G C x :
  ready s k A G C → targs s !! 0%nat = Some x →
  wp sys_kmalloc (λ u s', confined s s' ∧ ∃ k' A' G' r,
    ready s' k' A' G' C ∧ granted (s32 x) k G k' G' r ∧
    if r =? NULL then u = 0
    else u ≠ 0 ∧ to_kernel (win s) u = r ∧ in_window (win s) u (s32 x)) s.
Proof.
  intros H Hx. pose proof (ready_self _ _ _ _ _ H) as Hself. unfold sys_kmalloc. wp_auto.
  apply (wp_argint _ x); [done..|].
  destruct (Z.leb_spec (s32 x) 0) as [Hn|Hn].
  { wp_auto. split; [by exists k|]. exists k, A, G, NULL. split_and!; try done. apply granted_nothing. }
  wp_auto. rewrite (rd_inited _ _ _ _ _ H). simpl. rewrite (ready_no_window _ _ _ _ _ H).
  apply (wp_as_user s k); [apply H|apply H|].
  eapply wp_mono; [apply (wp_kmalloc_granted k A G C (s32 x)); [apply H|apply H|]|].
  { split; [done|]. unfold s32, int_max. pose proof (Z.mod_pos_bound (x + 2 ^ 31) (2 ^ 32)). lia. }
  intros r k' (A' & G' & Hrep & Hok & Es & En & Hg).
  pose proof (ready_put s k A G C k' A' G' C H Hrep Hok Es En) as Hr'.
  apply wp_if; intros E; wp_auto; (split; [by exists k'|]); exists k', A', G', r;
    (split; [done|split; [done|]]); unfold NULL; rewrite E; [done|].
  apply Z.eqb_neq in E. destruct Hg as [[? _]|(a & sz & Hsz & _ & Hl)]; [done|].
  destruct (live_in_arena _ _ _ _ _ a r sz Hr') as ([H1 H2] & H3 & H4).
  { apply Hl. by right. }
  assert (in_arena (win s) r (s32 x)) as Hin by (split; cbn in *; lia).
  destruct (to_user_window (win s) r (s32 x) (rd_window _ _ _ _ _ H) Hin ltac:(lia)) as [H5 H6].
  split_and!; [|done..]. destruct H5 as [H5 _]. pose proof (wo_u _ (rd_window _ _ _ _ _ H)). lia.
Qed.

Lemma sys_kmalloc_correct_witness :
  wp sys_kmalloc (λ u s', confined (example_process booted true [100]) s') (example_process booted true [100]).
Proof.
  destruct booted_rep as (C & Hrep & Hok). destruct booted_region as [H1 H2].
  eapply wp_mono; [apply (sys_kmalloc_correct _ booted ∅ ∅ C 100);
    [exact (example_ready _ _ _ _ _ Hrep Hok H1 H2)|reflexivity]|].
  intros u s' [H _]. exact H.
Defined.

(** The [kfree] system call, given the user address of a live object of
    the process, returns 0, ends the life of exactly that object and changes
    nothing but that process's allocator. *)
Theorem sys_kfree_correct s k A G C a p sz :
  ready s k A G C → live k G a p sz → targs s !! 0%nat = Some (to_user (win s) p) →
  wp sys_kfree (λ r s', r = 0 ∧ confined s s' ∧ ∃ k' G', ready s' k' A G' C ∧
    ∀ a' q sz', live k' G' a' q sz' ↔ live k G a' q sz' ∧ q ≠ p) s.
Proof.
  intros H Hl Hx. pose proof (rd_rep _ _ _ _ _ H) as Hrep.
  destruct (live_in_arena _ _ _ _ _ a p sz H Hl) as (Hin & Hsz & _).
  destruct (to_user_window (win s) p sz (rd_window _ _ _ _ _ H) Hin ltac:(lia)) as [Hw Hk].
  destruct (window_bounds _ _ _ (rd_window _ _ _ _ _ H) Hw Hsz) as [Hb Hu].
  unfold sys_kfree. wp_auto. apply (wp_argaddr _ (to_user (win s) p)); [done..|].
  rewrite u64_small by lia. rewrite (proj2 (Z.eqb_neq _ _)) by lia. wp_step. wp_step. cbv zeta.
  rewrite Hb, Hk. apply (wp_as_user s k); [apply H|apply H|].
  pose proof (live_cache _ _ _ _ _ _ _ Hrep Hl) as Ha. destruct Hl as (sl & i & c & j & Hall & -> & _).
  eapply wp_mono; [by apply (wp_k_free_object k A G C a sl i c j)|]. intros [] k' [Hrep' F]. wp_auto.
  split; [done|]. split; [by exists k'|]. eexists k', _. split.
  - eapply ready_put; [done|exact Hrep'| |apply F|apply F]. by eapply kmalloc_ok_frame; [|apply H].
  - by apply (live_returned k k' A G A G sl i j a a c); [|apply Hrep|].
Qed.

(** * Giving a process its allocator *)

Definition kernel_buddy (s : sysst) : bstate := bud (kst (kmem (pages (vm s)))).

(** The state with the kernel's page allocator replaced. *)
Definition put_b (b : bstate) (s : sysst) : sysst :=
  let a := pages (vm s) in
  set_vm (set_pages (set_kmem (set_kst (set_bud b (kst (kmem a))) (kmem a)) a) (vm s)) s.

Lemma wp_as_kernel {B} (m : prog bstate B) Q s :
  active_kmem (pages (vm s)) = NULL → wp m (λ x b, Q x (put_b b s)) (kernel_buddy s) →
  wp (on_allocs (on_curr (on_bud m))) Q s.
Proof.
  intros Ha Hm. unfold on_allocs. wp_auto. unfold wp, on_curr, with_kmem. rewrite Ha. simpl.
  unfold on_kst, on_bud, zoom. unfold wp, kernel_buddy in Hm.
  by destruct (m _) as [[x b]| | |].
Qed.

(** A process that may call [sys_kmem_init]: the kernel's page allocator owns
    an aligned region and the process has a zeroed allocator page. *)
Record fresh_process (s : sysst) (A : gmap Z Z) : Prop := {
  fp_active : active_kmem (pages (vm s)) = NULL;
  fp_ukmem : ukmem (win s) ≠ NULL;
  fp_zero : ukmems (pages (vm s)) !! ukmem (win s) = Some zero_kstate;
  fp_inited : ukmem_inited (win s) = false;
  fp_buddy : buddy_rep (kernel_buddy s) A;
  fp_lock : buddy_lock (kernel_buddy s) = false;
  fp_align : managed_start (kernel_buddy s) mod PGSIZE = 0;
  fp_top : managed_start (kernel_buddy s) + managed_num_blocks (kernel_buddy s) * PGSIZE + PGSIZE ≤ 2 ^ 63 }.

(** Code that does not touch the kernel's windows. *)
Definition same_windows (s s' : boot_state) : Prop :=
  kheapwin_base0 s' = kheapwin_base0 s ∧ kheapwin_total s' = kheapwin_total s.

#[local] Instance same_windows_preorder : PreOrder same_windows.
Proof. split; [done|]. intros s1 s2 s3 [H1 H2] [H3 H4]. split; congruence. Qed.

Lemma keeps_on_kst {B} (m : prog kstate B) : keeps same_windows (on_kst m).
Proof. by apply keeps_zoom. Qed.

Lemma user_init_windows space n : keeps same_windows (kmem_init false space n).
Proof. unfold kmem_init. cbv zeta. keeps_auto; apply keeps_on_kst. Qed.

(** [kmem_init] on the arena of a process. *)
Lemma wp_user_init {D} s arena n (K : prog sysst D) Q :
  active_kmem (pages (vm s)) = NULL → ukmem (win s) ≠ NULL →
  ukmems (pages (vm s)) !! ukmem (win s) = Some zero_kstate →
  0 < arena → arena mod PGSIZE = 0 → 5 ≤ n ≤ MAX_TEST_PAGES → arena + n * PGSIZE + PGSIZE ≤ 2 ^ 63 →
  (∀ k C, slab_rep k ∅ ∅ C → kmalloc_ok k → arena ≤ managed_start (bud k) →
     managed_start (bud k) + managed_num_blocks (bud k) * PGSIZE ≤ arena + n * PGSIZE →
     wp K Q (put_k k s)) →
  wp (old ← on_allocs (kmem_push (ukmem (win s)));
      _ ← on_allocs (with_kmem (λ is_kernel, kmem_init is_kernel arena n));
      _ ← on_allocs (kmem_pop old); K) Q s.
Proof.
  intros Hac Hu Hz Ha Hal Hn Hb HK. unfold MAX_TEST_PAGES in Hn. unfold on_allocs, kmem_push. wp_auto.
  unfold with_kmem, wp at 1. cbn [pages vm set_vm set_pages set_active active_kmem ukmems].
  rewrite (proj2 (Z.eqb_neq _ _)) by done. rewrite Hz. unfold zoom.
  set (v := user_view _ _).
  assert (page_up (arena + header_bytes n) ≤ arena + n * PGSIZE) as Hfit
    by (apply header_fits; pg; done || lia).
  assert (wp (kmem_init false arena n) (λ _ s', ∃ C lo hi, slab_rep (kst s') ∅ ∅ C ∧
    length C = 13%nat ∧ kmalloc_ok (kst s') ∧ lo = page_up (arena + header_bytes n) ∧
    managed_start (bud (kst s')) = lo ∧ managed_num_blocks (bud (kst s')) = (hi - lo) / PGSIZE ∧
    hi = arena + n * PGSIZE) v) as Hi.
  { apply (wp_kmem_init false arena n v Ha ltac:(unfold int_max; lia) ltac:(pg; lia) Hfit); [discriminate|reflexivity..]. }
  unfold wp in Hi. destruct (kmem_init false arena n v) as [[[] s']| | |] eqn:Em; [|done..].
  destruct Hi as (C & lo & hi & Hrep & _ & Hok & Elo & Es & En & ->).
  apply user_init_windows in Em as [E1 E2].
  apply wp_bind, wp_zoom. unfold kmem_pop. wp_auto.
  destruct (page_up_bounds (arena + header_bytes n)) as [Hup _];
    [unfold header_bytes; lia|pg; unfold header_bytes; lia|].
  specialize (HK (kst s') C Hrep Hok).
  destruct s as [[r [[kb w0 wt] uk ac] sz pt] w t]. cbn in *. rewrite E1, E2. apply HK.
  - unfold header_bytes in *. lia.
  - rewrite Es, En, Elo. pg. Z.to_euclidean_division_equations. lia.
Qed.

(** [sys_kmem_init] of a process without an allocator, with at least five
    pages, returns.  It returns -1, leaving every allocator as it was, or 0:
    then the kernel's page allocator has handed out one more block, the arena,
    and the process has an allocator on it with no live object; other
    processes' allocators are untouched. *)
Theorem sys_kmem_init_correct s A space x :
  fresh_process s A → targs s !! 0%nat = Some space → targs s !! 1%nat = Some x →
  0 < space → 5 ≤ s32 x ≤ MAX_TEST_PAGES → space + s32 x * PGSIZE < 2 ^ 64 →
  wp sys_kmem_init (λ r s',
    (r = neg1 ∧ pages (vm s') = pages (vm s) ∧ ukmem_inited (win s') = false) ∨
    (r = 0 ∧ ∃ i t k C, A !! i = None ∧ s32 x ≤ 2 ^ t ∧
       uheapwin_base (win s') = space ∧ kheapwin_pages (win s') = s32 x ∧
       kheapwin_base (win s') = paddr (kernel_buddy s) i ∧
       buddy_rep (kernel_buddy s') (<[i:=t]> A) ∧ ready s' k ∅ ∅ C ∧
       active_kmem (pages (vm s')) = NULL ∧
       ∀ y, y ≠ ukmem (win s) → ukmems (pages (vm s')) !! y = ukmems (pages (vm s)) !! y)) s.
Proof.
  intros [Hac Hu Hz Hin Hb Hl Hal Htop] Hx0 Hx1 Hsp Hn Hut. pose proof Hn as Hn'.
  unfold MAX_TEST_PAGES, PGSIZE in Hn, Hut.
  unfold sys_kmem_init. wp_auto. apply (wp_argaddr _ space); [done..|]. wp_auto.
  apply (wp_argint _ x); [done..|]. rewrite (u64_small space) by lia.
  rewrite (proj2 (Z.leb_gt _ _)), (proj2 (Z.ltb_ge _ _)) by (unfold MAX_TEST_PAGES; lia). simpl.
  wp_auto. rewrite Hin. wp_auto. cbv zeta. apply wp_as_kernel; [done|].
  unfold PGSIZE at 1 2. rewrite u64_small, Z.div_mul by lia.
  eapply wp_mono; [apply (pa_alloc _ A); [done..|lia]|].
  change (kernel_buddy (set_win _ _)) with (kernel_buddy s). cbn.
  intros r b [[-> ->]|(i & t & -> & Hnn & HA & Ht & Hsz & _ & Hrep & F & _)].
  { wp_auto. left. split; [done|]. split; [|done]. by destruct s as [[? [[[]] ? ?] ? ?] ? ?]. }
  unfold NULL in Hnn. rewrite (proj2 (Z.eqb_neq _ _)) by done.
  destruct (buddy_rep_block _ _ i t Hrep ltac:(apply lookup_insert_eq)) as (Hi0 & _ & Hib).
  rewrite (f_num _ _ _ F) in Hib.
  destruct Hb as (B & HC & _). pose proof (ro_start _ (c_region _ _ _ HC)) as Hs0.
  assert (0 < paddr (kernel_buddy s) i ∧ paddr (kernel_buddy s) i mod PGSIZE = 0 ∧
    paddr (kernel_buddy s) i + s32 x * PGSIZE + PGSIZE ≤ 2 ^ 63) as (H1 & H2 & H3).
  { unfold paddr, BLOCK_SIZE, PGSIZE in *. split; [lia|]. split; [|lia].
    by rewrite Z.mod_add. }
  do 2 wp_step. lazymatch goal with |- wp _ _ ?s2 => apply (wp_user_init s2) end; [done..|]. intros k C Hk Hok Hlo Hhi. wp_auto.
  right. split; [done|]. exists i, t, k, C. split_and!; try done; [lia| |].
  - split; try done; cbn; [apply lookup_insert_eq|].
    split; cbn; unfold MAX_TEST_PAGES, PGSIZE in *; lia.
  - intros y Hy. cbn. by rewrite lookup_insert_ne.
Qed.

(** * The error paths *)

Lemma copyinstr_above_maxva (pt dst va max : Z) (v : vmst allocs) :
  MAXVA ≤ va < 2 ^ 64 → 0 < max → copyinstr curr_kalloc pt dst va max v = Ok (-1, v).
Proof.
  intros Hva Hmax. unfold copyinstr, copy_fuel. destruct (Z.to_nat max) as [|f] eqn:Ef; [lia|].
  assert (MAXVA ≤ PGROUNDDOWN va).
  { change MAXVA with (2 ^ 26 * 4096) in *. rewrite rounddown by lia. unfold PGSIZE.
    pose proof (Z.div_le_mono (2 ^ 26 * 4096) va 4096 ltac:(lia) ltac:(lia)) as Hd.
    rewrite Z.div_mul in Hd by lia. lia. }
  cbn [loop]. rewrite (proj2 (Z.ltb_lt 0 max)) by done. unfold walkaddr.
  rewrite (proj2 (Z.leb_le _ _)) by done. reflexivity.
Qed.

(** [sys_k_kmem_cache_create] given a name pointer outside user memory
    returns 0 with the process's allocator still active on the CPU, and from
    then on the kernel's own [kalloc] is served from the process's arena. *)
Theorem cache_create_leaks_allocator s kname uname size ctorf dtorf k r b' :
  targs s !! 0%nat = Some uname → targs s !! 1%nat = Some size →
  targs s !! 2%nat = Some ctorf → targs s !! 3%nat = Some dtorf →
  0 < s32 size → ukmem_inited (win s) = true → MAXVA ≤ uname < 2 ^ 64 →
  ukmem (win s) ≠ NULL → ukmems (pages (vm s)) !! ukmem (win s) = Some k →
  kalloc (bud k) = Ok (r, b') →
  let s' := set_vm (set_pages (set_active (ukmem (win s)) (pages (vm s))) (vm s)) s in
  sys_k_kmem_cache_create kname s = Ok (0, s') ∧
  on_allocs curr_kalloc s' =
    Ok (r, put_k (set_bud b' k) s').
Proof.
  intros H0 H1 H2 H3 Hsz Hin Hun Hne Hk Hal s'. split.
  - apply wp_Ok_eq. unfold sys_k_kmem_cache_create. wp_auto.
    apply (wp_argaddr _ uname); [done..|]. wp_auto. apply (wp_argint _ size); [done..|]. wp_auto.
    apply (wp_argaddr _ ctorf); [done..|]. wp_auto. apply (wp_argaddr _ dtorf); [done..|].
    rewrite (proj2 (Z.leb_gt _ _)) by done. wp_auto. rewrite Hin. cbn [negb]. unfold on_allocs, kmem_push.
    wp_auto. unfold on_vm. wp_auto. unfold wp at 1.
    rewrite u64_small by (change MAXVA with (2 ^ 38) in Hun; lia).
    rewrite copyinstr_above_maxva by lia. done.
  - unfold on_allocs, curr_kalloc, on_curr, with_kmem, zoom. subst s'.
    cbn [pages vm set_vm set_pages set_active active_kmem ukmems].
    rewrite (proj2 (Z.eqb_neq _ _)) by done. rewrite Hk. unfold on_kst, on_bud, zoom. cbn [kst user_view].
    rewrite Hal.
    destruct s as [[? [[kb w0 wt] uk ac] sz pt] w t]. reflexivity.
Qed.
