(* ===== verification/Bio.v ===== *)
(** The buffer cache (kernel/bio.c): a ring of buffers in order of use, each
    with a reference count and a lock, in front of the disk.  The model is the
    view of one process: it holds or does not hold each lock. *)

From S2P Require Import Prelude.
From S2P Require Import Buddy.
From S2P Require Import Slab.

(** * Data *)

Definition BSIZE : Z := 1024.

Definition MAXOPBLOCKS : Z := 10.

Definition LOGBLOCKS : Z := MAXOPBLOCKS * 3.

Definition NBUF : Z := MAXOPBLOCKS * 3.

(** The bytes of a disk block. *)
Abbreviation block := (list Z).

(** [struct buf]; [b_held] is its sleep lock.  The flag [disk] belongs to the
    driver and is 0 whenever [virtio_disk_rw] is not running. *)
Record buf := Buf {
  b_valid : bool;
  b_dev : Z;
  b_blockno : Z;
  b_held : bool;
  b_refcnt : Z;
  b_prev : Z;
  b_next : Z;
  b_data : block }.

Definition sizeof_buf : Z := 1112.

Definition set_valid (v : bool) (b : buf) : buf :=
  Buf v (b_dev b) (b_blockno b) (b_held b) (b_refcnt b) (b_prev b) (b_next b) (b_data b).

Definition set_held (h : bool) (b : buf) : buf :=
  Buf (b_valid b) (b_dev b) (b_blockno b) h (b_refcnt b) (b_prev b) (b_next b) (b_data b).

Definition set_refcnt (n : Z) (b : buf) : buf :=
  Buf (b_valid b) (b_dev b) (b_blockno b) (b_held b) n (b_prev b) (b_next b) (b_data b).

Definition set_prev (p : Z) (b : buf) : buf :=
  Buf (b_valid b) (b_dev b) (b_blockno b) (b_held b) (b_refcnt b) p (b_next b) (b_data b).

Definition set_next (n : Z) (b : buf) : buf :=
  Buf (b_valid b) (b_dev b) (b_blockno b) (b_held b) (b_refcnt b) (b_prev b) n (b_data b).

Definition set_data (d : block) (b : buf) : buf :=
  Buf (b_valid b) (b_dev b) (b_blockno b) (b_held b) (b_refcnt b) (b_prev b) (b_next b) d.

(** [b->dev = dev; b->blockno = blockno; b->valid = 0; b->refcnt = 1] *)
Definition recycle (dev blockno : Z) (b : buf) : buf :=
  Buf false dev blockno (b_held b) 1 (b_prev b) (b_next b) (b_data b).

(** A buffer after [memset(b, 0, sizeof( *b))]. *)
Definition zero_buf : buf := Buf false 0 0 false 0 NULL NULL (replicate 1024 0).

(** The cache and the disk behind it.  [bufs] holds the buffers and the list
    head by address; [dwrites] is the history of the writes the disk has
    performed, in order, for reasoning about crashes. *)
Record bst := BSt {
  bufs : gmap Z buf;
  bc_head : Z;
  bc_array : gmap Z Z;
  bc_lock : bool;
  disk : gmap Z block;
  dwrites : list (Z * block) }.

Definition set_bufs (m : gmap Z buf) (s : bst) : bst :=
  BSt m (bc_head s) (bc_array s) (bc_lock s) (disk s) (dwrites s).

Definition set_bc_lock (l : bool) (s : bst) : bst :=
  BSt (bufs s) (bc_head s) (bc_array s) l (disk s) (dwrites s).

Definition write_disk (n : Z) (d : block) (s : bst) : bst :=
  BSt (bufs s) (bc_head s) (bc_array s) (bc_lock s) (<[n := d]> (disk s)) (dwrites s ++ [(n, d)]).

(** * Accesses *)

Definition read_buf (a : Z) : prog bst buf := s ← get; of_option (bufs s !! a).

Definition update_buf (a : Z) (f : buf → buf) : prog bst unit :=
  b ← read_buf a; modify (λ s, set_bufs (<[a := f b]> (bufs s)) s).

Definition acquire_bcache : prog bst unit :=
  s ← get; if bc_lock s then panic "acquire" else modify (set_bc_lock true).

Definition release_bcache : prog bst unit :=
  s ← get; if bc_lock s then modify (set_bc_lock false) else panic "release".

(** A process that waits for a lock it holds itself never returns. *)
Definition acquiresleep (a : Z) : prog bst unit :=
  b ← read_buf a;
  if b_held b then sleep_forever else update_buf a (set_held true).

Definition releasesleep (a : Z) : prog bst unit := update_buf a (set_held false).

Definition holdingsleep (a : Z) : prog bst bool := b ← read_buf a; mret (b_held b).

(** One transfer between a buffer and its block; the device number is not
    used.  A block the disk does not have is an error of the device. *)
Definition virtio_disk_rw (a : Z) (write : bool) : prog bst unit :=
  b ← read_buf a;
  s ← get;
  d ← of_option (disk s !! b_blockno b);
  if write then modify (write_disk (b_blockno b) (b_data b))
  else update_buf a (set_data d).

(** * Operations *)

(** [for(b = start; b != &bcache->head; b = step(b)) if(found(b)) ...] *)
Definition search_bufs (step : buf → Z) (found : buf → bool) (start : Z) : prog bst (option Z) :=
  s ← get;
  loop (S (size (bufs s)))
    (λ b, if b =? bc_head s then mret (inr None)
          else
            x ← read_buf b;
            if found x then mret (inr (Some b)) else mret (inl (step x)))
    start.

Definition bget (dev blockno : Z) : prog bst Z :=
  _ ← acquire_bcache;
  s ← get;
  h ← read_buf (bc_head s);
  r ← search_bufs b_next (λ b, (b_dev b =? dev) && (b_blockno b =? blockno)) (b_next h);
  match r with
  | Some b =>
      _ ← update_buf b (λ x, set_refcnt (u32 (b_refcnt x + 1)) x);
      _ ← release_bcache;
      _ ← acquiresleep b;
      mret b
  | None =>
      r ← search_bufs b_prev (λ b, b_refcnt b =? 0) (b_prev h);
      match r with
      | Some b =>
          _ ← update_buf b (recycle dev blockno);
          _ ← release_bcache;
          _ ← acquiresleep b;
          mret b
      | None => panic "bget: no buffers"
      end
  end.

Definition bread (dev blockno : Z) : prog bst Z :=
  b ← bget dev blockno;
  x ← read_buf b;
  if b_valid x then mret b
  else
    _ ← virtio_disk_rw b false;
    _ ← update_buf b (set_valid true);
    mret b.

Definition bwrite (b : Z) : prog bst unit :=
  h ← holdingsleep b;
  if (h : bool) then virtio_disk_rw b true else panic "bwrite".

(** [b->next = head.next; b->prev = &head; head.next->prev = b;
    head.next = b] *)
Definition push_front (b : Z) : prog bst unit :=
  s ← get;
  h ← read_buf (bc_head s);
  _ ← update_buf b (set_next (b_next h));
  _ ← update_buf b (set_prev (bc_head s));
  h ← read_buf (bc_head s);
  _ ← update_buf (b_next h) (set_prev b);
  update_buf (bc_head s) (set_next b).

Definition unlink_buf (b : Z) : prog bst unit :=
  x ← read_buf b;
  _ ← update_buf (b_next x) (set_prev (b_prev x));
  x ← read_buf b;
  update_buf (b_prev x) (set_next (b_next x)).

Definition brelse (b : Z) : prog bst unit :=
  h ← holdingsleep b;
  if negb h then panic "brelse"
  else
    _ ← releasesleep b;
    _ ← acquire_bcache;
    _ ← update_buf b (λ x, set_refcnt (u32 (b_refcnt x - 1)) x);
    x ← read_buf b;
    if b_refcnt x =? 0 then _ ← unlink_buf b; _ ← push_front b; release_bcache
    else release_bcache.

Definition bpin (b : Z) : prog bst unit :=
  _ ← acquire_bcache;
  _ ← update_buf b (λ x, set_refcnt (u32 (b_refcnt x + 1)) x);
  release_bcache.

Definition bunpin (b : Z) : prog bst unit :=
  _ ← acquire_bcache;
  _ ← update_buf b (λ x, set_refcnt (u32 (b_refcnt x - 1)) x);
  release_bcache.

(** * Initialisation

    The buffers are objects of a slab cache of their own. *)

Record bootbio := BootBio {
  bio_kst : kstate;
  bio : bst }.

Definition on_bio_kst {A} (m : prog kstate A) : prog bootbio A :=
  zoom bio_kst (λ k s, BootBio k (bio s)) m.

Definition on_bio {A} (m : prog bst A) : prog bootbio A :=
  zoom bio (λ b s, BootBio (bio_kst s) b) m.

Definition sizeof_bcache : Z := 1376.

(** The offset of [head] in [struct bcache]. *)
Definition bcache_head_off : Z := 24.

(** The buffer of the ring pushed by [binit]: at this point only the links of
    the new object matter. *)
Definition add_buf (b : Z) : prog bst unit :=
  _ ← modify (λ s, set_bufs (<[b := zero_buf]> (bufs s)) s);
  push_front b.

Definition set_bc_array (i b : Z) (s : bst) : bst :=
  BSt (bufs s) (bc_head s) (<[i := b]> (bc_array s)) (bc_lock s) (disk s) (dwrites s).

Definition binit : prog bootbio unit :=
  buf_cache ← on_bio_kst (kmem_cache_create (Some "buf"%string) sizeof_buf NULL NULL);
  if buf_cache =? NULL then panic "binit: buf_cache"
  else
    bcache ← on_bio_kst (kmalloc sizeof_bcache);
    if bcache =? NULL then panic "binit: bcache"
    else
      let head := bcache + bcache_head_off in
      _ ← on_bio (modify (λ s, BSt {[head := zero_buf]} head ∅ false (disk s) (dwrites s)));
      _ ← on_bio (update_buf head (set_prev head));
      _ ← on_bio (update_buf head (set_next head));
      for_range 0 NBUF (λ i,
        b ← on_bio_kst (kmem_cache_alloc buf_cache);
        if b =? NULL then panic "binit: kmem_cache_alloc buf"
        else
          _ ← on_bio (modify (set_bc_array i b));
          on_bio (add_buf b)).
