(* ===== verification/BioInv.v ===== *)
(** The invariant of the buffer cache and what its operations promise their
    clients: a logical disk, in which every block has the contents its last
    writer gave it, whether or not they have reached the disk. *)

From S2P Require Import Prelude.
From S2P Require Import Bio.

(** * The ring *)

Definition nxt (m : gmap Z buf) (a : Z) : option Z := b_next <$> m !! a.

Definition prv (m : gmap Z buf) (a : Z) : option Z := b_prev <$> m !! a.

(** [l] is the sequence of buffers between [p] and [q], linked both ways. *)
Fixpoint path (m : gmap Z buf) (p : Z) (l : list Z) (q : Z) : Prop :=
  match l with
  | [] => nxt m p = Some q ∧ prv m q = Some p
  | x :: l' => nxt m p = Some x ∧ prv m x = Some p ∧ path m x l' q
  end.

Lemma path_app m p l1 x l2 q : path m p (l1 ++ x :: l2) q ↔ path m p l1 x ∧ path m x l2 q.
Proof. revert p. induction l1 as [|y l1 IH]; intros p; simpl; [tauto|]. rewrite IH. tauto. Qed.

Lemma path_ext m m' p l q :
  (∀ a, a ∈ p :: l → nxt m' a = nxt m a) → (∀ a, a ∈ l ++ [q] → prv m' a = prv m a) →
  path m p l q → path m' p l q.
Proof.
  revert p. induction l as [|x l IH]; intros p Hn Hp; simpl.
  - intros [H1 H2]. rewrite Hn, Hp by set_solver. done.
  - intros (H1 & H2 & H3). rewrite Hn, Hp by set_solver. split_and!; try done.
    apply IH; [|intros a Ha; apply Hp; set_solver|done]. intros a Ha. apply Hn. set_solver.
Qed.

Lemma path_some m p l q a : path m p l q → a ∈ p :: l → is_Some (m !! a).
Proof.
  revert p. induction l as [|x l IH]; intros p; simpl.
  - intros [H _] ->%list_elem_of_singleton. unfold nxt in H. destruct (m !! p); [eauto|done].
  - intros (H & _ & H') [->|Ha]%elem_of_cons; [|by apply (IH x)].
    unfold nxt in H. destruct (m !! p); [eauto|done].
Qed.

(** The last element before the end. *)
Definition pred_of (p : Z) (l : list Z) : Z := default p (last l).

Lemma pred_of_cons p x l : pred_of p (x :: l) = pred_of x l.
Proof. unfold pred_of. rewrite last_cons. by destruct (last l). Qed.

Lemma pred_of_elem p l : pred_of p l ∈ p :: l.
Proof.
  unfold pred_of. destruct (last l) as [x|] eqn:E; simpl; [|set_solver].
  apply last_Some_elem_of in E. set_solver.
Qed.

Lemma path_prev m p l q : path m p l q → prv m q = Some (pred_of p l).
Proof.
  revert p. induction l as [|x l IH]; intros p; simpl; [by intros [_ ?]|].
  intros (_ & _ & H). rewrite pred_of_cons. by apply IH.
Qed.

(** The same sequence with another end. *)
Lemma path_retarget m m' p l a v :
  path m p l a → NoDup (p :: l) → v ∉ l →
  nxt m' (pred_of p l) = Some v → prv m' v = Some (pred_of p l) →
  (∀ b, b ∈ p :: l → b ≠ pred_of p l → nxt m' b = nxt m b) →
  (∀ b, b ∈ l → prv m' b = prv m b) → path m' p l v.
Proof.
  revert p. induction l as [|x l IH]; intros p; simpl; [done|].
  rewrite pred_of_cons. intros (H1 & H2 & H3) Hnd Hv En Ep Hn Hp. apply NoDup_cons in Hnd as [Hpx Hnd].
  pose proof (pred_of_elem x l). rewrite Hn, Hp by set_solver. split_and!; try done.
  apply IH; try done; [set_solver| |]; intros b Hb; [intros Hb'; apply Hn|apply Hp]; set_solver.
Qed.

Definition first_of (l : list Z) (q : Z) : Z := hd q l.

Lemma path_next m p l q : path m p l q → nxt m p = Some (first_of l q).
Proof. destruct l; simpl; tauto. Qed.

(** Taking a buffer off the ring. *)
Lemma path_unlink m m' h l1 a l2 :
  path m h (l1 ++ a :: l2) h → NoDup (h :: l1 ++ a :: l2) →
  nxt m' (pred_of h l1) = Some (first_of l2 h) → prv m' (first_of l2 h) = Some (pred_of h l1) →
  (∀ b, b ≠ pred_of h l1 → nxt m' b = nxt m b) → (∀ b, b ≠ first_of l2 h → prv m' b = prv m b) →
  path m' h (l1 ++ l2) h.
Proof.
  intros [P1 P2]%path_app Hnd En Ep Hn Hp. pose proof (pred_of_elem h l1) as Hpr.
  apply NoDup_cons in Hnd as [Hh Hnd]. rewrite not_elem_of_app, not_elem_of_cons in Hh.
  destruct Hh as (Hh1 & Hha & Hh2). apply NoDup_app in Hnd as (Hn1 & H12 & Hn2).
  apply NoDup_cons in Hn2 as [Ha Hn2].
  assert (first_of l2 h ∉ l1) as Hf.
  { destruct l2 as [|y l2]; [done|]. intros Hy. apply (H12 y Hy). right. left. }
  assert (path m' h l1 (first_of l2 h)) as P1'.
  { eapply path_retarget; [exact P1| |done|done|done| |].
    - by apply NoDup_cons.
    - intros b _. apply Hn.
    - intros b Hb. apply Hp. congruence. }
  destruct l2 as [|y l2]; simpl in *; [by rewrite app_nil_r|].
  apply path_app. split; [done|]. destruct P2 as (_ & _ & P2). apply NoDup_cons in Hn2 as [Hy Hn2].
  rewrite not_elem_of_cons in Hh2. destruct Hh2 as [Hhy Hh2]. revert P2. apply path_ext.
  - intros b Hb. apply Hn. intros ->. apply elem_of_cons in Hpr as [Hpr|Hpr].
    + rewrite Hpr in Hb. by apply elem_of_cons in Hb as [?|?].
    + apply (H12 _ Hpr). by right.
  - intros b Hb. apply Hp. intros ->. by apply elem_of_app in Hb as [?|<-%list_elem_of_singleton].
Qed.

(** Putting a buffer at the front of the ring. *)
Lemma path_push m m' h l a :
  path m h l h → NoDup (h :: l) → a ∉ h :: l →
  nxt m' h = Some a → prv m' a = Some h → nxt m' a = Some (first_of l h) → prv m' (first_of l h) = Some a →
  (∀ b, b ≠ h → b ≠ a → nxt m' b = nxt m b) →
  (∀ b, b ≠ first_of l h → b ≠ a → prv m' b = prv m b) → path m' h (a :: l) h.
Proof.
  intros P Hnd Ha E1 E2 E3 E4 Hn Hp. simpl. split_and!; [done..|]. destruct l as [|y l]; simpl in *; [done|].
  split_and!; [done..|]. destruct P as (_ & _ & P). revert P. apply NoDup_cons in Hnd as [Hh Hnd].
  apply NoDup_cons in Hnd as [Hy Hnd]. rewrite not_elem_of_cons in Hh. rewrite !not_elem_of_cons in Ha.
  destruct Hh as [Hhy Hhl]. destruct Ha as (Hah & Hay & Hal). apply path_ext; intros b Hb.
  - apply Hn; intros ->; by apply elem_of_cons in Hb as [?|?].
  - apply Hp; intros ->; by apply elem_of_app in Hb as [?|?%list_elem_of_singleton].
Qed.

(** * The invariant *)

(** A buffer in use, by block number: its address, its reference count, and
    whether the process holds its lock. *)
Record active := Act {
  ac_addr : Z;
  ac_ref : Z;
  ac_held : bool }.

(** [V] is the logical disk, [A] the buffers in use. *)
Record buf_ok (dv : Z) (D V : gmap Z block) (A : gmap Z active) (a : Z) (x : buf) : Prop := {
  k_key : b_valid x = true ↔ b_dev x = dv;
  k_view : b_dev x = dv → V !! b_blockno x = Some (b_data x);
  k_idle : b_refcnt x = 0 → b_held x = false ∧ (b_dev x = dv → D !! b_blockno x = Some (b_data x));
  k_busy : b_refcnt x ≠ 0 → b_dev x = dv ∧ 0 < b_refcnt x < 2 ^ 32 ∧
    A !! b_blockno x = Some (Act a (b_refcnt x) (b_held x)) }.

Record bio_inv (dv : Z) (s : bst) (L : list Z) (V : gmap Z block) (A : gmap Z active) : Prop := {
  bi_lock : bc_lock s = false;
  bi_ring : path (bufs s) (bc_head s) L (bc_head s);
  bi_nodup : NoDup (bc_head s :: L);
  bi_buf : ∀ a x, a ∈ L → bufs s !! a = Some x → buf_ok dv (disk s) V A a x;
  bi_uniq : ∀ a b x y, a ∈ L → b ∈ L → bufs s !! a = Some x → bufs s !! b = Some y →
    b_dev x = dv → b_dev y = dv → b_blockno x = b_blockno y → a = b;
  bi_act : ∀ n e, A !! n = Some e → ∃ x, ac_addr e ∈ L ∧ bufs s !! ac_addr e = Some x ∧
    b_blockno x = n ∧ b_refcnt x = ac_ref e ∧ b_refcnt x ≠ 0;
  bi_view : ∀ n, (∀ a x, a ∈ L → bufs s !! a = Some x → b_dev x = dv → b_blockno x ≠ n) →
    V !! n = disk s !! n }.

(** A cache of [nb] buffers. *)
Definition bio_rep (dv : Z) (nb : nat) (s : bst) (V : gmap Z block) (A : gmap Z active) : Prop :=
  ∃ L, length L = nb ∧ bio_inv dv s L V A.

Lemma bi_some dv s L V A a : bio_inv dv s L V A → a ∈ L → ∃ x, bufs s !! a = Some x.
Proof. intros H Ha. eapply path_some; [apply H|by right]. Qed.

Lemma bi_head dv s L V A : bio_inv dv s L V A → ∃ h, bufs s !! bc_head s = Some h.
Proof. intros H. eapply path_some; [apply H|left]. Qed.

(** * Searching the ring *)

(** Following [step] from [p] visits [l] and ends at [q]. *)
Fixpoint visits (m : gmap Z buf) (step : buf → Z) (p : Z) (l : list Z) (q : Z) : Prop :=
  match l with
  | [] => p = q
  | a :: l' => p = a ∧ a ≠ q ∧ ∃ x, m !! a = Some x ∧ visits m step (step x) l' q
  end.

Lemma wp_search step found l p s (Q : option Z → bst → Prop) :
  visits (bufs s) step p l (bc_head s) → (length l ≤ size (bufs s))%nat →
  (∀ a x, a ∈ l → bufs s !! a = Some x → found x = true → Q (Some a) s) →
  ((∀ a x, a ∈ l → bufs s !! a = Some x → found x = false) → Q None s) →
  wp (search_bufs step found p) Q s.
Proof.
  intros Hv Hl HS HN. unfold search_bufs. wp_auto.
  apply (wp_loop (λ n b s', s' = s ∧ ∃ l1 l2, l = l1 ++ l2 ∧ visits (bufs s) step b l2 (bc_head s) ∧
    n = length l2 ∧ ∀ a x, a ∈ l1 → bufs s !! a = Some x → found x = false) (length l)); [|lia|].
  { split; [done|]. exists [], l. split_and!; try done. by intros a x ?%not_elem_of_nil. }
  intros n b s' (-> & l1 & l2 & -> & Hv2 & -> & Hno). destruct l2 as [|a l2]; simpl in Hv2.
  { subst b. rewrite Z.eqb_refl. wp_auto. apply HN. intros a x. rewrite app_nil_r. apply Hno. }
  destruct Hv2 as (-> & Hne & x & Hx & Hv2). rewrite (proj2 (Z.eqb_neq _ _)) by done.
  unfold read_buf. wp_auto. apply (wp_of_option _ x); [done|].
  destruct (found x) eqn:Ef; wp_auto.
  - apply (HS a x); [|done..]. apply elem_of_app. right. left.
  - exists (length l2). split; [simpl; lia|]. split; [done|]. exists (l1 ++ [a]), l2. split_and!; try done.
    { by rewrite <- app_assoc. }
    intros b y [Hb| ->%list_elem_of_singleton]%elem_of_app Hy; [by eapply Hno|congruence].
Qed.

Lemma visits_next m p l q x : path m p l q → q ∉ l → m !! p = Some x → visits m b_next (b_next x) l q.
Proof.
  revert p x. induction l as [|y l IH]; intros p x; simpl.
  - intros [E _] _ Hx. unfold nxt in E. rewrite Hx in E. by injection E.
  - intros (E & _ & P) Hq Hx. unfold nxt in E. rewrite Hx in E. injection E as ->.
    rewrite not_elem_of_cons in Hq. split; [done|]. split; [intros ->; by destruct Hq|].
    destruct (path_some _ _ _ _ y P) as [z Hz]; [left|]. exists z. split; [done|].
    apply (IH y); [done|apply Hq|done].
Qed.

Lemma visits_snoc m step p l a q x :
  visits m step p l a → a ∉ l → a ≠ q → q ∉ l → m !! a = Some x → step x = q → visits m step p (l ++ [a]) q.
Proof.
  revert p. induction l as [|y l IH]; intros p; simpl.
  - intros -> _ Haq _ Hx <-. eauto.
  - intros (-> & Hya & z & Hz & Hv) Ha Haq Hq Hx Hs. rewrite not_elem_of_cons in *.
    split; [done|]. split; [intros ->; by destruct Hq|]. exists z. split; [done|]. apply IH; try done; tauto.
Qed.

Lemma visits_prev m p l q x :
  path m p l q → NoDup (p :: l) → q ∉ l → m !! q = Some x → visits m b_prev (b_prev x) (reverse l) p.
Proof.
  revert p. induction l as [|y l IH]; intros p; simpl.
  - intros [_ E] _ _ Hx. unfold prv in E. rewrite Hx in E. by injection E.
  - intros (_ & E & P) Hnd Hq Hx. rewrite reverse_cons. apply NoDup_cons in Hnd as [Hp Hnd].
    destruct (path_some _ _ _ _ y P) as [z Hz]; [left|]. rewrite not_elem_of_cons in Hq, Hp.
    eapply visits_snoc; [apply (IH y); [done|done|tauto|done]| | | |exact Hz|].
    + rewrite elem_of_reverse. apply NoDup_cons in Hnd. tauto.
    + intros ->. by destruct Hp.
    + rewrite elem_of_reverse. tauto.
    + unfold prv in E. rewrite Hz in E. by injection E.
Qed.

Lemma ring_length m h L : path m h L h → NoDup (h :: L) → (length L ≤ size m)%nat.
Proof.
  intros P [_ Hn]%NoDup_cons. rewrite <- size_dom, <- (size_list_to_set (C := gset Z) L) by done.
  apply subseteq_size. intros a Ha%elem_of_list_to_set. apply elem_of_dom. eapply path_some; [done|by right].
Qed.

Section Search.

Context (s : bst) (L : list Z) (h : buf).

Hypothesis Hring : path (bufs s) (bc_head s) L (bc_head s).

Hypothesis Hnd : NoDup (bc_head s :: L).

Hypothesis Hh : bufs s !! bc_head s = Some h.

Lemma wp_search_next found (Q : option Z → bst → Prop) :
  (∀ a x, a ∈ L → bufs s !! a = Some x → found x = true → Q (Some a) s) →
  ((∀ a x, a ∈ L → bufs s !! a = Some x → found x = false) → Q None s) →
  wp (search_bufs b_next found (b_next h)) Q s.
Proof.
  apply wp_search; [|by eapply ring_length]. eapply visits_next; [done| |done]. by apply NoDup_cons in Hnd as [? _].
Qed.

Lemma wp_search_prev found (Q : option Z → bst → Prop) :
  (∀ a x, a ∈ L → bufs s !! a = Some x → found x = true → Q (Some a) s) →
  ((∀ a x, a ∈ L → bufs s !! a = Some x → found x = false) → Q None s) →
  wp (search_bufs b_prev found (b_prev h)) Q s.
Proof.
  intros HS HN. apply (wp_search _ _ (reverse L)).
  - eapply visits_prev; [done|done| |done]. by apply NoDup_cons in Hnd as [? _].
  - rewrite length_reverse. by eapply ring_length.
  - intros a x Ha. rewrite elem_of_reverse in Ha. by apply HS.
  - intros Hno. apply HN. intros a x Ha. apply Hno. by rewrite elem_of_reverse.
Qed.

End Search.

(** * Changing one buffer *)

Definition same_links (x' x : buf) : Prop := b_prev x' = b_prev x ∧ b_next x' = b_next x.

Lemma path_same_links m a x x' p l q :
  m !! a = Some x → same_links x' x → path m p l q → path (<[a := x']> m) p l q.
Proof.
  intros Hx [E1 E2]. apply path_ext; intros b _; unfold nxt, prv;
    (destruct (decide (b = a)) as [->|]; [|by rewrite lookup_insert_ne]); rewrite lookup_insert_eq, Hx;
    simpl; congruence.
Qed.

(** A buffer in the ring holds another block or other contents; the logical
    disk [V'] and the buffers in use [A'] differ only at the block it held and
    at the one it holds. *)
Lemma bio_inv_put dv s L V A a x x' V' A' :
  bio_inv dv s L V A → a ∈ L → bufs s !! a = Some x → same_links x' x → b_dev x' = dv →
  (∀ b y, b ∈ L → b ≠ a → bufs s !! b = Some y → b_dev y = dv → b_blockno y ≠ b_blockno x') →
  (b_dev x = dv → b_blockno x ≠ b_blockno x' → b_refcnt x = 0) →
  (∀ n, n ≠ b_blockno x' → V' !! n = V !! n) → (∀ n, n ≠ b_blockno x' → A' !! n = A !! n) →
  V' !! b_blockno x' = Some (b_data x') → b_valid x' = true →
  (b_refcnt x' = 0 → b_held x' = false ∧ disk s !! b_blockno x' = Some (b_data x') ∧ A' !! b_blockno x' = None) →
  (b_refcnt x' ≠ 0 → 0 < b_refcnt x' < 2 ^ 32 ∧ A' !! b_blockno x' = Some (Act a (b_refcnt x') (b_held x'))) →
  bio_inv dv (set_bufs (<[a := x']> (bufs s)) s) L V' A'.
Proof.
  intros H Ha Hx Hlk Hd Hfresh Hold HV HA HVx Hval Hidle Hbusy.
  assert (∀ b y, b ∈ L → b ≠ a → bufs s !! b = Some y → buf_ok dv (disk s) V' A' b y) as Hother.
  { intros b y Hb Hne Hy. destruct (bi_buf _ _ _ _ _ H b y Hb Hy) as [K1 K2 K3 K4].
    pose proof (Hfresh b y Hb Hne Hy) as Hf. split; try done.
    - intros E. rewrite HV by auto. auto.
    - intros E. destruct (K4 E) as (E1 & E2 & E3). rewrite HA by auto. done. }
  split; cbn; try apply H.
  - eapply path_same_links; [done..|]. apply H.
  - intros b y Hb. destruct (decide (b = a)) as [->|Hne].
    + rewrite lookup_insert_eq. intros [= <-]. split; [tauto|by intros _| |].
      * intros E. destruct (Hidle E) as (? & ? & _). tauto.
      * intros E. destruct (Hbusy E). tauto.
    + rewrite lookup_insert_ne by done. by apply Hother.
  - intros b c y z Hb Hc Hy Hz Ey Ez E. destruct (decide (b = a)) as [->|Hba], (decide (c = a)) as [->|Hca].
    + done.
    + rewrite lookup_insert_eq in Hy. rewrite lookup_insert_ne in Hz by done. injection Hy as <-.
      exfalso. by apply (Hfresh c z).
    + rewrite lookup_insert_eq in Hz. rewrite lookup_insert_ne in Hy by done. injection Hz as <-.
      exfalso. by apply (Hfresh b y).
    + rewrite lookup_insert_ne in Hy, Hz by done. by eapply (bi_uniq _ _ _ _ _ H).
  - intros n e Hn. destruct (decide (n = b_blockno x')) as [->|Hnn].
    + destruct (decide (b_refcnt x' = 0)) as [E|E]; [destruct (Hidle E) as (_ & _ & E'); congruence|].
      destruct (Hbusy E) as [_ E']. rewrite E' in Hn. injection Hn as <-. exists x'. simpl.
      rewrite lookup_insert_eq. done.
    + rewrite HA in Hn by done. destruct (bi_act _ _ _ _ _ H n e Hn) as (y & H1 & H2 & H3 & H4 & H5).
      exists y. split_and!; try done. rewrite lookup_insert_ne; [done|]. intros Ea.
      rewrite <- Ea, Hx in H2. injection H2 as <-. apply H5, Hold; [|congruence].
      destruct (bi_buf _ _ _ _ _ H a x Ha Hx) as [_ _ _ K4]. by destruct (K4 H5).
  - intros n Hn. assert (n ≠ b_blockno x') as Hne.
    { intros ->. by apply (Hn a x' Ha); [apply lookup_insert_eq|..]. }
    rewrite HV by done. destruct (decide (b_dev x = dv ∧ b_blockno x = n)) as [[Hdx Hbx]|Hno].
    + destruct (bi_buf _ _ _ _ _ H a x Ha Hx) as [_ K2 K3 _]. subst n. rewrite (K2 Hdx). symmetry.
      apply K3; [|done]. by apply Hold.
    + apply (bi_view _ _ _ _ _ H). intros b y Hb Hy Hdy E. destruct (decide (b = a)) as [->|Hba].
      * rewrite Hx in Hy. injection Hy as <-. by apply Hno.
      * apply (Hn b y Hb); [by rewrite lookup_insert_ne|done..].
Qed.

(** * What the operations do *)

Definition same_disk (s s' : bst) : Prop := disk s' = disk s ∧ dwrites s' = dwrites s.

Lemma wp_read_buf a x (Q : buf → bst → Prop) s : bufs s !! a = Some x → Q x s → wp (read_buf a) Q s.
Proof. intros Hx HQ. unfold read_buf. wp_auto. by apply (wp_of_option _ x). Qed.

Lemma wp_update_buf a f x (Q : unit → bst → Prop) s :
  bufs s !! a = Some x → Q tt (set_bufs (<[a := f x]> (bufs s)) s) → wp (update_buf a f) Q s.
Proof. intros Hx HQ. unfold update_buf. wp_auto. apply (wp_read_buf _ x); [done|]. by wp_auto. Qed.

Lemma all_busy dv s L V A : bio_inv dv s L V A →
  (∀ a x, a ∈ L → bufs s !! a = Some x → b_refcnt x ≠ 0) → (length L ≤ size A)%nat.
Proof.
  intros H Hb. set (f a := from_option b_blockno 0 (bufs s !! a)).
  assert (∀ a, a ∈ L → ∃ x, bufs s !! a = Some x ∧ b_dev x = dv ∧ f a = b_blockno x ∧ is_Some (A !! b_blockno x)) as Hf.
  { intros a Ha. destruct (bi_some _ _ _ _ _ _ H Ha) as [x Hx]. exists x. unfold f. rewrite Hx.
    destruct (bi_buf _ _ _ _ _ H a x Ha Hx) as [_ _ _ K]. destruct (K (Hb a x Ha Hx)) as (? & _ & E).
    split_and!; done. }
  assert (NoDup (f <$> L)) as Hnd.
  { apply NoDup_fmap_2_strong; [|by pose proof (bi_nodup _ _ _ _ _ H) as [_ ?]%NoDup_cons].
    intros a b Ha Hb' E. destruct (Hf a Ha) as (x & Hx & Hdx & Ex & _), (Hf b Hb') as (y & Hy & Hdy & Ey & _).
    eapply (bi_uniq _ _ _ _ _ H a b x y); congruence. }
  rewrite <- size_dom, <- (length_fmap f L), <- (size_list_to_set (C := gset Z) _ Hnd).
  apply subseteq_size. intros n Hn. rewrite elem_of_list_to_set in Hn.
  apply list_elem_of_fmap in Hn as (a & -> & Ha). destruct (Hf a Ha) as (x & _ & _ & -> & ?). by apply elem_of_dom.
Qed.

(** The buffer of a block in use. *)
Lemma bi_lookup dv s L V A n e : bio_inv dv s L V A → A !! n = Some e →
  ∃ x, ac_addr e ∈ L ∧ bufs s !! ac_addr e = Some x ∧ b_blockno x = n ∧ b_dev x = dv ∧ b_valid x = true ∧
    V !! n = Some (b_data x) ∧ b_refcnt x = ac_ref e ∧ b_held x = ac_held e ∧ 0 < ac_ref e < 2 ^ 32.
Proof.
  intros H Hn. destruct (bi_act _ _ _ _ _ H n e Hn) as (x & Ha & Hx & Eb & Er & Hr). exists x.
  destruct (bi_buf _ _ _ _ _ H _ x Ha Hx) as [K1 K2 _ K4]. destruct (K4 Hr) as (Hd & Hb & HA).
  rewrite Eb, Hn in HA. injection HA as HA. rewrite HA in *. simpl in *. rewrite Eb in K2. split_and!; tauto || lia.
Qed.

(** The state after [bget] and the read of an uncached block. *)
Definition filled (dev n : Z) (d : block) (x : buf) : buf :=
  set_valid true (set_data d (set_held true (recycle dev n x))).

Lemma set_bufs_lock s m l l' : set_bc_lock l (set_bufs m (set_bc_lock l' s)) = set_bufs m (set_bc_lock l s).
Proof. by destruct s. Qed.

Lemma set_lock_self s : bc_lock s = false → set_bc_lock false s = s.
Proof. destruct s. simpl. by intros ->. Qed.

(** Finding or making room for block [n] and taking its lock. *)
Definition bread_ready (nb : nat) (A : gmap Z active) (n : Z) : Prop :=
  match A !! n with
  | None => (size A < nb)%nat
  | Some e => ac_held e = false ∧ ac_ref e < 2 ^ 32 - 1
  end.

Definition ref_of (A : gmap Z active) (n : Z) : Z := from_option ac_ref 0 (A !! n).

Lemma idle_inactive dv s L V A a x :
  bio_inv dv s L V A → a ∈ L → bufs s !! a = Some x → b_dev x = dv → b_refcnt x = 0 →
  A !! b_blockno x = None.
Proof.
  intros H Ha Hx Hd Hr. destruct (A !! b_blockno x) as [e|] eqn:E; [|done].
  destruct (bi_lookup _ _ _ _ _ _ _ H E) as (y & Hy & Hy' & Eb & Ed & _ & _ & Er & _ & Hp).
  assert (ac_addr e = a) as Ea by (by eapply (bi_uniq _ _ _ _ _ H _ _ y x)).
  rewrite Ea, Hx in Hy'. injection Hy' as <-. lia.
Qed.

(** The block is in the cache. *)
Lemma bread_hit dv s L V A a x n :
  bio_inv dv s L V A → a ∈ L → bufs s !! a = Some x → b_dev x = dv → b_blockno x = n →
  bread_ready (length L) A n →
  b_held x = false ∧ 0 ≤ b_refcnt x + 1 < 2 ^ 32 ∧ b_refcnt x = ref_of A n ∧ b_valid x = true ∧
  (∀ e, A !! n = Some e → a = ac_addr e) ∧
  bio_inv dv (set_bufs (<[a := set_held true (set_refcnt (b_refcnt x + 1) x)]> (bufs s)) s) L V
    (<[n := Act a (ref_of A n + 1) true]> A).
Proof.
  intros H Ha Hx Hd Hn Hr. destruct (bi_buf _ _ _ _ _ H a x Ha Hx) as [K1 K2 K3 K4]. rewrite Hn in *.
  assert (b_held x = false ∧ 0 ≤ b_refcnt x < 2 ^ 32 - 1 ∧ b_refcnt x = ref_of A n ∧
    (∀ e, A !! n = Some e → a = ac_addr e)) as (F1 & F2 & F3 & F4).
  { unfold bread_ready, ref_of in *. destruct (decide (b_refcnt x = 0)) as [E|E].
    - pose proof (idle_inactive _ _ _ _ _ _ _ H Ha Hx Hd E) as En. rewrite Hn in En. rewrite En.
      simpl. split_and!; try done; [by apply K3|lia|lia].
    - destruct (K4 E) as (_ & Hb & EA). rewrite EA in *. simpl in *. split_and!; try tauto || lia.
      by intros e [= <-]. }
  split_and!; try tauto || lia. rewrite F3. eapply bio_inv_put; try done; cbn.
  - intros b y Hb Hne Hy Hdy E. apply Hne. by eapply (bi_uniq _ _ _ _ _ H b a y x); try done; congruence.
  - intros m Hm. rewrite lookup_insert_ne by congruence. done.
  - rewrite Hn. by apply K2.
  - tauto.
  - intros E. lia.
  - intros _. rewrite Hn, lookup_insert_eq. split; [lia|done].
Qed.

(** The block is not in the cache: an idle buffer takes it over. *)
Lemma bread_miss dv s L V A a x n d :
  bio_inv dv s L V A → a ∈ L → bufs s !! a = Some x → b_refcnt x = 0 →
  (∀ b y, b ∈ L → bufs s !! b = Some y → b_dev y = dv → b_blockno y ≠ n) → V !! n = Some d →
  b_held x = false ∧ disk s !! n = Some d ∧ A !! n = None ∧
  bio_inv dv (set_bufs (<[a := filled dv n d x]> (bufs s)) s) L V (<[n := Act a 1 true]> A).
Proof.
  intros H Ha Hx Hr Hno HV. destruct (bi_buf _ _ _ _ _ H a x Ha Hx) as [_ _ K3 _].
  assert (A !! n = None) as HA.
  { destruct (A !! n) as [e|] eqn:E; [|done].
    destruct (bi_lookup _ _ _ _ _ _ _ H E) as (y & Hy & Hy' & Eb & Ed & _). by destruct (Hno _ _ Hy Hy' Ed). }
  split_and!; [by apply K3|by rewrite <- (bi_view _ _ _ _ _ H n Hno)|done|].
  eapply bio_inv_put; try done; cbn.
  - intros b y Hb _. by apply Hno.
  - intros m Hm. by rewrite lookup_insert_ne.
  - intros _. rewrite lookup_insert_eq. done.
Qed.

Lemma wp_acquire_bcache s (Q : unit → bst → Prop) :
  bc_lock s = false → Q tt (set_bc_lock true s) → wp acquire_bcache Q s.
Proof. intros Hl HQ. unfold acquire_bcache. wp_auto. rewrite Hl. by wp_auto. Qed.

Lemma wp_release_bcache s (Q : unit → bst → Prop) :
  bc_lock s = true → Q tt (set_bc_lock false s) → wp release_bcache Q s.
Proof. intros Hl HQ. unfold release_bcache. wp_auto. rewrite Hl. by wp_auto. Qed.

Lemma wp_acquiresleep a x s (Q : unit → bst → Prop) :
  bufs s !! a = Some x → b_held x = false → Q tt (set_bufs (<[a := set_held true x]> (bufs s)) s) →
  wp (acquiresleep a) Q s.
Proof.
  intros Hx Hh HQ. unfold acquiresleep. wp_auto. apply (wp_read_buf _ x); [done|]. rewrite Hh.
  by apply (wp_update_buf _ _ x).
Qed.

Lemma set_bufs_twice s m m' : set_bufs m (set_bufs m' s) = set_bufs m s.
Proof. by destruct s. Qed.

Lemma wp_bread dv nb s V A n d :
  bio_rep dv nb s V A → V !! n = Some d → bread_ready nb A n →
  wp (bread dv n) (λ a s', bio_rep dv nb s' V (<[n := Act a (ref_of A n + 1) true]> A) ∧
    same_disk s s' ∧ ∀ e, A !! n = Some e → a = ac_addr e) s.
Proof.
  intros (L & <- & H) HV Hr. pose proof (bi_lock _ _ _ _ _ H) as Hlk.
  destruct (bi_head _ _ _ _ _ H) as [h Hh].
  unfold bread, bget. wp_auto. apply wp_acquire_bcache; [done|]. wp_auto.
  apply (wp_read_buf _ h); [done|]. wp_auto.
  apply (wp_search_next _ L); [apply H|apply H|done| |].
  - intros a x Ha Hx [Hd Hn]%andb_true_iff. apply Z.eqb_eq in Hd, Hn. cbn in Hx.
    destruct (bread_hit _ _ _ _ _ _ _ n H Ha Hx Hd Hn Hr) as (Hheld & Hwrap & Href & Hval & He & H').
    wp_auto. apply (wp_update_buf _ _ x); [done|]. wp_auto. apply wp_release_bcache; [done|].
    rewrite set_bufs_lock, set_lock_self by done. wp_auto. rewrite u32_small by done.
    eapply wp_acquiresleep; [apply lookup_insert_eq|done|]. cbn. rewrite set_bufs_twice, insert_insert_eq.
    wp_auto. eapply wp_read_buf; [apply lookup_insert_eq|]. cbn. rewrite Hval. wp_auto.
    split; [by exists L|]. done.
  - intros Hno. wp_auto. apply (wp_search_prev _ L); [apply H|apply H|done| |].
    2:{ intros Hb. exfalso. assert (size A < length L)%nat as Hsz.
        { unfold bread_ready in Hr. destruct (A !! n) as [e|] eqn:E; [|done].
          destruct (bi_lookup _ _ _ _ _ _ _ H E) as (y & Hy & Hy' & Eb & Ed & _).
          specialize (Hno _ y Hy Hy'). rewrite Eb, Ed, !Z.eqb_refl in Hno. done. }
        apply Nat.lt_nge in Hsz. apply Hsz, (all_busy _ _ _ _ _ H). intros a x Ha Hx. by apply Z.eqb_neq, (Hb a x). }
    intros a x Ha Hx Hr0%Z.eqb_eq. cbn in Hx.
    destruct (bread_miss dv s L V A a x n d H Ha Hx Hr0) as (Hheld & Hdisk & HA & H'); [|done|].
    { intros b y Hb Hy Hd Hn. specialize (Hno b y Hb Hy). rewrite Hd, Hn, !Z.eqb_refl in Hno. done. }
    wp_auto. apply (wp_update_buf _ _ x); [done|]. wp_auto. apply wp_release_bcache; [done|].
    rewrite set_bufs_lock, set_lock_self by done. wp_auto.
    eapply wp_acquiresleep; [apply lookup_insert_eq|done|]. cbn. rewrite set_bufs_twice, insert_insert_eq.
    wp_auto. eapply wp_read_buf; [apply lookup_insert_eq|]. cbn. wp_auto. unfold virtio_disk_rw. wp_auto.
    eapply wp_read_buf; [apply lookup_insert_eq|]. wp_auto. cbn. apply (wp_of_option _ d); [done|].
    eapply wp_update_buf; [apply lookup_insert_eq|]. cbn. rewrite set_bufs_twice, insert_insert_eq. wp_auto.
    eapply wp_update_buf; [apply lookup_insert_eq|]. cbn. rewrite set_bufs_twice, insert_insert_eq. wp_auto.
    unfold ref_of. rewrite HA. split; [by exists L|]. done.
Qed.

(** The lookups of a client that holds the lock of block [n]. *)
Lemma wp_held_data dv nb s V A n e (Q : buf → bst → Prop) :
  bio_rep dv nb s V A → A !! n = Some e →
  (∀ x, b_blockno x = n → V !! n = Some (b_data x) → b_held x = ac_held e → Q x s) →
  wp (read_buf (ac_addr e)) Q s.
Proof.
  intros (L & _ & H) He HQ. destruct (bi_lookup _ _ _ _ _ _ _ H He) as (x & _ & Hx & ? & _ & _ & ? & _ & ? & _).
  apply (wp_read_buf _ x); [done|]. by apply HQ.
Qed.

(** A change of a buffer in use that keeps it in use. *)
Lemma wp_update_active dv nb s V A n e f d' r' h' (Q : unit → bst → Prop) :
  bio_rep dv nb s V A → A !! n = Some e → 0 < r' < 2 ^ 32 →
  (∀ x, b_blockno x = n → V !! n = Some (b_data x) → b_refcnt x = ac_ref e → b_held x = ac_held e →
     b_data (f x) = d' ∧ b_refcnt (f x) = r' ∧ b_held (f x) = h' ∧ b_blockno (f x) = n ∧
     b_dev (f x) = b_dev x ∧ b_valid (f x) = b_valid x ∧ same_links (f x) x) →
  (∀ s', bio_rep dv nb s' (<[n := d']> V) (<[n := Act (ac_addr e) r' h']> A) → same_disk s s' →
     bc_lock s' = bc_lock s → Q tt s') →
  wp (update_buf (ac_addr e) f) Q s.
Proof.
  intros (L & El & H) He Hr Hf HQ.
  destruct (bi_lookup _ _ _ _ _ _ _ H He) as (x & Ha & Hx & Eb & Ed & Ev & EV & Er & Eh & Hp).
  destruct (Hf x Eb EV Er Eh) as (F1 & F2 & F3 & F4 & F5 & F6 & F7).
  apply (wp_update_buf _ _ x); [done|]. apply HQ; [|done..]. exists L. split; [done|].
  eapply bio_inv_put; try done.
  - congruence.
  - intros b y Hb Hne Hy Hdy E. apply Hne. by eapply (bi_uniq _ _ _ _ _ H b _ y x); try done; congruence.
  - congruence.
  - intros m Hm. rewrite lookup_insert_ne by congruence. done.
  - intros m Hm. rewrite lookup_insert_ne by congruence. done.
  - rewrite F4, F1. apply lookup_insert_eq.
  - congruence.
  - intros E. lia.
  - intros _. rewrite F2, F3, F4, lookup_insert_eq. done.
Qed.

(** [bp->data] is overwritten. *)
Lemma wp_set_data dv nb s V A n e d (Q : unit → bst → Prop) :
  bio_rep dv nb s V A → A !! n = Some e →
  (∀ s', bio_rep dv nb s' (<[n := d]> V) A → same_disk s s' → Q tt s') →
  wp (update_buf (ac_addr e) (set_data d)) Q s.
Proof.
  intros Hrep He HQ. pose proof Hrep as (L & _ & H).
  destruct (bi_lookup _ _ _ _ _ _ _ H He) as (x & _ & _ & _ & _ & _ & _ & _ & _ & Hp).
  eapply (wp_update_active _ _ _ _ _ _ _ _ d (ac_ref e) (ac_held e)); [done|done|lia| |].
  - intros y E1 E2 E3 E4. split_and!; done.
  - intros s' H' Hd _. apply HQ; [|done]. rewrite (insert_id A) in H'; [done|]. rewrite He. by destruct e.
Qed.

(** A change of the reference count under the cache's lock. *)
Lemma wp_locked_ref dv nb s V A n e dr (Q : unit → bst → Prop) :
  bio_rep dv nb s V A → A !! n = Some e → 0 < ac_ref e + dr < 2 ^ 32 →
  (∀ s', bio_rep dv nb s' V (<[n := Act (ac_addr e) (ac_ref e + dr) (ac_held e)]> A) → same_disk s s' → Q tt s') →
  wp (_ ← acquire_bcache; _ ← update_buf (ac_addr e) (λ x, set_refcnt (u32 (b_refcnt x + dr)) x); release_bcache) Q s.
Proof.
  intros (L & El & H) He Hr HQ. pose proof (bi_lock _ _ _ _ _ H) as Hlk. wp_auto. apply wp_acquire_bcache; [done|].
  destruct (bi_lookup _ _ _ _ _ _ _ H He) as (x & Ha & Hx & Eb & Ed & Ev & EV & Er & Eh & Hp).
  wp_auto. apply (wp_update_buf _ _ x); [done|]. apply wp_release_bcache; [done|].
  rewrite set_bufs_lock, set_lock_self by done. rewrite Er, u32_small by lia.
  apply HQ; [|done]. exists L. split; [done|]. cbn. eapply bio_inv_put; try done; cbn.
  - intros b y Hb Hne Hy Hdy E. apply Hne. by eapply (bi_uniq _ _ _ _ _ H b _ y x); try done; congruence.
  - intros m Hm. rewrite lookup_insert_ne by congruence. done.
  - congruence.
  - intros E. lia.
  - intros _. rewrite Eh, Eb, lookup_insert_eq. done.
Qed.

Lemma wp_bpin dv nb s V A n e (Q : unit → bst → Prop) :
  bio_rep dv nb s V A → A !! n = Some e → ac_ref e < 2 ^ 32 - 1 →
  (∀ s', bio_rep dv nb s' V (<[n := Act (ac_addr e) (ac_ref e + 1) (ac_held e)]> A) → same_disk s s' → Q tt s') →
  wp (bpin (ac_addr e)) Q s.
Proof.
  intros Hrep He Hr. pose proof Hrep as (L & _ & H).
  destruct (bi_lookup _ _ _ _ _ _ _ H He) as (x & _ & _ & _ & _ & _ & _ & _ & _ & Hp).
  by apply wp_locked_ref; [|done|lia].
Qed.

Lemma wp_bunpin dv nb s V A n e (Q : unit → bst → Prop) :
  bio_rep dv nb s V A → A !! n = Some e → 1 < ac_ref e →
  (∀ s', bio_rep dv nb s' V (<[n := Act (ac_addr e) (ac_ref e - 1) (ac_held e)]> A) → same_disk s s' → Q tt s') →
  wp (bunpin (ac_addr e)) Q s.
Proof.
  intros Hrep He Hr. pose proof Hrep as (L & _ & H).
  destruct (bi_lookup _ _ _ _ _ _ _ H He) as (x & _ & _ & _ & _ & _ & _ & _ & _ & Hp).
  by apply wp_locked_ref; [|done|lia].
Qed.

(** [bwrite] of a held block brings the disk up to date at that block. *)
Lemma wp_bwrite dv nb s V A n e (Q : unit → bst → Prop) :
  bio_rep dv nb s V A → A !! n = Some e → ac_held e = true → is_Some (disk s !! n) →
  (∀ d s', V !! n = Some d → bio_rep dv nb s' V A → disk s' = <[n := d]> (disk s) →
     dwrites s' = dwrites s ++ [(n, d)] → Q tt s') →
  wp (bwrite (ac_addr e)) Q s.
Proof.
  intros (L & El & H) He Hh [d0 Hd0] HQ.
  destruct (bi_lookup _ _ _ _ _ _ _ H He) as (x & Ha & Hx & Eb & Ed & Ev & EV & Er & Eh & Hp).
  unfold bwrite, holdingsleep, virtio_disk_rw. wp_auto. apply (wp_read_buf _ x); [done|]. wp_auto.
  rewrite Eh, Hh. wp_auto. apply (wp_read_buf _ x); [done|]. wp_auto. apply (wp_of_option _ d0); [by rewrite Eb|].
  wp_auto. apply (HQ (b_data x)); [done| |by rewrite <- Eb|by rewrite <- Eb].
  exists L. split; [done|]. rewrite Eb. split; cbn; try apply H.
  - intros b y Hb Hy. destruct (bi_buf _ _ _ _ _ H b y Hb Hy) as [K1 K2 K3 K4]. split; try done.
    intros E. destruct (K3 E) as [? K]. split; [done|]. intros Hdy. destruct (decide (b_blockno y = n)) as [En|Hne].
    + rewrite En, lookup_insert_eq. by rewrite <- EV, <- En, K2.
    + rewrite lookup_insert_ne by congruence. auto.
  - intros m Hm. rewrite lookup_insert_ne; [by apply (bi_view _ _ _ _ _ H)|]. intros <-. by apply (Hm _ x Ha Hx).
Qed.

(** * Moving a buffer to the front *)

(** A buffer without its links. *)
Definition contents (x : buf) : buf := set_prev NULL (set_next NULL x).

Lemma nxt_set_next m a v b : is_Some (m !! a) →
  nxt (alter (set_next v) a m) b = if decide (b = a) then Some v else nxt m b.
Proof.
  intros [x Hx]. unfold nxt. destruct (decide (b = a)) as [->|]; [by rewrite lookup_alter_eq, Hx|].
  by rewrite lookup_alter_ne.
Qed.

Lemma nxt_set_prev m a v b : nxt (alter (set_prev v) a m) b = nxt m b.
Proof.
  unfold nxt. destruct (decide (b = a)) as [->|]; [|by rewrite lookup_alter_ne].
  rewrite lookup_alter_eq. by destruct (m !! a).
Qed.

Lemma prv_set_prev m a v b : is_Some (m !! a) →
  prv (alter (set_prev v) a m) b = if decide (b = a) then Some v else prv m b.
Proof.
  intros [x Hx]. unfold prv. destruct (decide (b = a)) as [->|]; [by rewrite lookup_alter_eq, Hx|].
  by rewrite lookup_alter_ne.
Qed.

Lemma prv_set_next m a v b : prv (alter (set_next v) a m) b = prv m b.
Proof.
  unfold prv. destruct (decide (b = a)) as [->|]; [|by rewrite lookup_alter_ne].
  rewrite lookup_alter_eq. by destruct (m !! a).
Qed.

Lemma contents_alter f (m : gmap Z buf) a b : (∀ x, contents (f x) = contents x) →
  contents <$> alter f a m !! b = contents <$> m !! b.
Proof.
  intros Hf. destruct (decide (b = a)) as [->|]; [|by rewrite lookup_alter_ne].
  rewrite lookup_alter_eq. destruct (m !! a); simpl; [by rewrite Hf|done].
Qed.

Lemma wp_update_alter a f (Q : unit → bst → Prop) s :
  is_Some (bufs s !! a) → Q tt (set_bufs (alter f a (bufs s)) s) → wp (update_buf a f) Q s.
Proof.
  intros [x Hx] HQ. apply (wp_update_buf _ _ x); [done|].
  replace (<[a := f x]> (bufs s)) with (alter f a (bufs s)); [done|].
  apply map_eq. intros b. destruct (decide (b = a)) as [->|].
  - by rewrite lookup_alter_eq, lookup_insert_eq, Hx.
  - by rewrite lookup_alter_ne, lookup_insert_ne.
Qed.

Lemma some_alter (m : gmap Z buf) f a b : is_Some (m !! b) → is_Some (alter f a m !! b).
Proof. intros H. by rewrite lookup_alter_is_Some. Qed.

(** The two assignments of [unlink_buf] and the four of [push_front]. *)
Definition cut (p n : Z) (m : gmap Z buf) : gmap Z buf := alter (set_next n) p (alter (set_prev p) n m).

Definition splice (h f a : Z) (m : gmap Z buf) : gmap Z buf :=
  alter (set_next a) h (alter (set_prev a) f (alter (set_prev h) a (alter (set_next f) a m))).

Ltac links := repeat first [rewrite nxt_set_prev | rewrite prv_set_next
  | rewrite nxt_set_next by eauto using some_alter | rewrite prv_set_prev by eauto using some_alter].

Lemma contents_cut p n m b : contents <$> cut p n m !! b = contents <$> m !! b.
Proof. unfold cut. by rewrite !contents_alter. Qed.

Lemma contents_splice h f a m b : contents <$> splice h f a m !! b = contents <$> m !! b.
Proof. unfold splice. by rewrite !contents_alter. Qed.

Lemma path_cut m h l1 a l2 :
  path m h (l1 ++ a :: l2) h → NoDup (h :: l1 ++ a :: l2) →
  path (cut (pred_of h l1) (first_of l2 h) m) h (l1 ++ l2) h.
Proof.
  intros P Hnd. assert (∀ b, b ∈ h :: l1 ++ a :: l2 → is_Some (m !! b)) as Hs by (intros b; by eapply path_some).
  assert (is_Some (m !! first_of l2 h)) by (apply Hs; destruct l2; simpl; set_solver).
  assert (is_Some (m !! pred_of h l1)) by (apply Hs; pose proof (pred_of_elem h l1); set_solver).
  eapply path_unlink; [done|done|..]; unfold cut; intros; links; by repeat case_decide.
Qed.

Lemma path_splice m h l a :
  path m h l h → NoDup (h :: l) → a ∉ h :: l → is_Some (m !! a) →
  path (splice h (first_of l h) a m) h (a :: l) h.
Proof.
  intros P Hnd Ha Hsa. assert (∀ b, b ∈ h :: l → is_Some (m !! b)) as Hs by (intros b; by eapply path_some).
  assert (is_Some (m !! h)) by (apply Hs; left).
  assert (first_of l h ∈ h :: l) as Hf by (destruct l; simpl; set_solver).
  assert (is_Some (m !! first_of l h)) by (by apply Hs).
  assert (a ≠ h ∧ a ≠ first_of l h) as [Hah Haf] by (split; intros E; apply Ha; rewrite E; [left|done]).
  eapply path_push; [done|done|done|..]; unfold splice; intros; links; by repeat case_decide.
Qed.

Lemma wp_unlink_buf s h l1 a l2 (Q : unit → bst → Prop) :
  path (bufs s) h (l1 ++ a :: l2) h → NoDup (h :: l1 ++ a :: l2) →
  Q tt (set_bufs (cut (pred_of h l1) (first_of l2 h) (bufs s)) s) → wp (unlink_buf a) Q s.
Proof.
  intros P Hnd HQ. pose proof P as [P1 P2]%path_app.
  assert (∀ b, b ∈ h :: l1 ++ a :: l2 → is_Some (bufs s !! b)) as Hs by (intros b; by eapply path_some).
  pose proof (path_prev _ _ _ _ P1) as Ep. pose proof (path_next _ _ _ _ P2) as En.
  destruct (Hs a) as [x Hx]; [set_solver|]. unfold prv in Ep. unfold nxt in En. rewrite Hx in Ep, En.
  injection Ep as Ep. injection En as En.
  assert (a ≠ first_of l2 h) as Haf.
  { apply NoDup_cons in Hnd as [Hh Hnd]. apply NoDup_app in Hnd as (_ & _ & Hnd). apply NoDup_cons in Hnd as [Ha _].
    destruct l2; simpl; set_solver. }
  unfold unlink_buf. wp_auto. apply (wp_read_buf _ x); [done|]. wp_auto. rewrite Ep, En.
  apply wp_update_alter; [apply Hs; destruct l2; simpl; set_solver|]. wp_auto.
  apply (wp_read_buf _ x); [cbn; by rewrite lookup_alter_ne by congruence|]. rewrite Ep, En.
  apply wp_update_alter; [cbn; apply some_alter, Hs; pose proof (pred_of_elem h l1); set_solver|].
  cbn. by rewrite set_bufs_twice.
Qed.

Lemma wp_push_front s l a (Q : unit → bst → Prop) :
  path (bufs s) (bc_head s) l (bc_head s) → a ∉ bc_head s :: l → is_Some (bufs s !! a) →
  Q tt (set_bufs (splice (bc_head s) (first_of l (bc_head s)) a (bufs s)) s) → wp (push_front a) Q s.
Proof.
  intros P Ha Hsa HQ. set (h := bc_head s) in *.
  assert (∀ b, b ∈ h :: l → is_Some (bufs s !! b)) as Hs by (intros b; by eapply path_some).
  destruct (Hs h) as [x Hx]; [left|]. pose proof (path_next _ _ _ _ P) as En. unfold nxt in En. rewrite Hx in En.
  injection En as En. rewrite not_elem_of_cons in Ha. destruct Ha as [Hah _].
  unfold push_front. wp_auto. apply (wp_read_buf _ x); [done|]. wp_auto. rewrite En.
  apply wp_update_alter; [done|]. wp_auto. apply wp_update_alter; [cbn; by apply some_alter|]. wp_auto.
  cbn. rewrite !set_bufs_twice. apply (wp_read_buf _ x); [cbn; by rewrite !lookup_alter_ne by done|]. wp_auto.
  rewrite En. apply wp_update_alter; [cbn; apply some_alter, some_alter, Hs; destruct l; simpl; set_solver|].
  apply wp_update_alter; [cbn; do 3 apply some_alter; apply Hs; left|]. cbn. rewrite !set_bufs_twice. exact HQ.
Qed.

(** The invariant does not depend on the order of the ring. *)
Lemma bio_inv_reorder dv s L V A m L' :
  bio_inv dv s L V A → path m (bc_head s) L' (bc_head s) → L' ≡ₚ L →
  (∀ b, contents <$> m !! b = contents <$> bufs s !! b) → bio_inv dv (set_bufs m s) L' V A.
Proof.
  intros H P HL Hc.
  assert (∀ a x', m !! a = Some x' → ∃ x, bufs s !! a = Some x ∧ contents x' = contents x) as Hback.
  { intros a x' Hx'. specialize (Hc a). rewrite Hx' in Hc. destruct (bufs s !! a) as [x|]; [|done].
    injection Hc as ??????. exists x. split; [done|]. unfold contents, set_prev, set_next. cbn. congruence. }
  split; cbn; try apply H.
  - done.
  - by rewrite HL; apply H.
  - intros a x' Ha Hx'. rewrite HL in Ha. destruct (Hback a x' Hx') as (x & Hx & E).
    pose proof (bi_buf _ _ _ _ _ H a x Ha Hx) as [K1 K2 K3 K4]. injection E as E1 E2 E3 E4 E5 E6.
    split; rewrite ?E1, ?E2, ?E3, ?E4, ?E5, ?E6; done.
  - intros a b x' y' Ha Hb Hx' Hy'. rewrite HL in Ha, Hb. destruct (Hback a x' Hx') as (x & Hx & E).
    destruct (Hback b y' Hy') as (y & Hy & E'). injection E as _ -> -> _ _ _. injection E' as _ -> -> _ _ _.
    by apply (bi_uniq _ _ _ _ _ H).
  - intros n e He. destruct (bi_act _ _ _ _ _ H n e He) as (x & Ha & Hx & E1 & E2 & E3).
    specialize (Hc (ac_addr e)). rewrite Hx in Hc. destruct (m !! ac_addr e) as [x'|]; [|done].
    injection Hc as F1 F2 F3 F4 F5 F6. exists x'. rewrite HL. split_and!; congruence.
  - intros n Hn. apply (bi_view _ _ _ _ _ H). intros a x Ha Hx Hd. specialize (Hc a). rewrite Hx in Hc.
    destruct (m !! a) as [x'|] eqn:Hx'; [|done]. injection Hc as F1 F2 F3 F4 F5 F6. rewrite <- F3.
    apply (Hn a); [by rewrite HL|done|congruence].
Qed.

(** The lock of block [n] is dropped; a block nobody else uses must be clean. *)
Definition released (A : gmap Z active) (n : Z) (e : active) : gmap Z active :=
  if ac_ref e =? 1 then delete n A else <[n := Act (ac_addr e) (ac_ref e - 1) false]> A.

Lemma brelse_inv dv s L V A n e x :
  bio_inv dv s L V A → A !! n = Some e → (ac_ref e = 1 → disk s !! n = V !! n) →
  bufs s !! ac_addr e = Some x →
  bio_inv dv (set_bufs (<[ac_addr e := set_refcnt (ac_ref e - 1) (set_held false x)]> (bufs s)) s) L V (released A n e).
Proof.
  intros H He Hcl Hx. destruct (bi_lookup _ _ _ _ _ _ _ H He) as (y & Ha & Hy & Eb & Ed & Ev & EV & Er & Eh & Hp).
  rewrite Hx in Hy. injection Hy as <-. unfold released. eapply bio_inv_put; try done; cbn.
  - intros b y Hb Hne Hy Hdy E. apply Hne. by eapply (bi_uniq _ _ _ _ _ H b _ y x); try done; congruence.
  - intros m Hm. destruct (ac_ref e =? 1); rewrite ?lookup_delete_ne, ?lookup_insert_ne by congruence; done.
  - congruence.
  - intros E. rewrite (proj2 (Z.eqb_eq _ _)) by lia. rewrite Eb, lookup_delete_eq, Hcl by lia. done.
  - intros E. rewrite (proj2 (Z.eqb_neq _ _)) by lia. rewrite Eb, lookup_insert_eq. split; [lia|done].
Qed.

Lemma wp_brelse dv nb s V A n e (Q : unit → bst → Prop) :
  bio_rep dv nb s V A → A !! n = Some e → ac_held e = true → (ac_ref e = 1 → disk s !! n = V !! n) →
  (∀ s', bio_rep dv nb s' V (released A n e) → same_disk s s' → Q tt s') → wp (brelse (ac_addr e)) Q s.
Proof.
  intros (L & El & H) He Hh Hcl HQ. pose proof (bi_lock _ _ _ _ _ H) as Hlk.
  destruct (bi_lookup _ _ _ _ _ _ _ H He) as (x & Ha & Hx & Eb & Ed & Ev & EV & Er & Eh & Hp).
  pose proof (brelse_inv _ _ _ _ _ _ _ x H He Hcl Hx) as H'. set (a := ac_addr e) in *.
  unfold brelse, holdingsleep, releasesleep. wp_auto. apply (wp_read_buf _ x); [done|]. wp_auto. rewrite Eh, Hh.
  cbn [negb]. wp_auto. apply (wp_update_buf _ _ x); [done|]. wp_auto. apply wp_acquire_bcache; [done|]. wp_auto.
  eapply wp_update_buf; [apply lookup_insert_eq|]. wp_auto. eapply wp_read_buf; [apply lookup_insert_eq|].
  cbn. rewrite insert_insert_eq, Er, u32_small by lia.
  set (s1 := set_bufs _ (set_bc_lock true _)).
  assert (set_bc_lock false s1 = set_bufs (<[a := set_refcnt (ac_ref e - 1) (set_held false x)]> (bufs s)) s) as Es1.
  { unfold s1. by destruct s; cbn in *; subst. }
  destruct (Z.eqb_spec (ac_ref e - 1) 0) as [E|E].
  2:{ apply wp_release_bcache; [done|]. rewrite Es1. apply HQ; [by exists L|done]. }
  apply list_elem_of_split in Ha as (l1 & l2 & ->).
  pose proof (bi_ring _ _ _ _ _ H') as P. pose proof (bi_nodup _ _ _ _ _ H') as Hnd. cbn in P, Hnd.
  pose proof (path_cut _ _ _ _ _ P Hnd) as P'.
  assert (NoDup (bc_head s :: l1 ++ l2) ∧ a ∉ bc_head s :: l1 ++ l2) as [Hnd' Hna].
  { rewrite <- Permutation_middle in Hnd. rewrite Permutation_swap in Hnd. apply NoDup_cons in Hnd. tauto. }
  wp_auto. apply (wp_unlink_buf s1 (bc_head s) l1 a l2); [done|done|]. wp_auto.
  apply (wp_push_front _ (l1 ++ l2)); [done|done| |].
  { cbn. unfold cut. do 2 apply some_alter. by rewrite lookup_insert_eq. }
  apply wp_release_bcache; [done|].
  pose proof (path_splice _ _ _ a P' Hnd' Hna) as P''.
  set (m := splice _ _ _ _) in P''. assert (∀ b, contents <$> m !! b = contents <$> bufs (set_bc_lock false s1) !! b) as Hc.
  { intros b. unfold m. rewrite contents_splice, contents_cut. by rewrite Es1. }
  rewrite Es1 in Hc. apply (bio_inv_reorder _ _ _ _ _ m (a :: l1 ++ l2)) in H'.
  - apply HQ; [|by destruct s]. exists (a :: l1 ++ l2). split.
    { rewrite <- El, !length_app. simpl. rewrite length_app. lia. }
    rewrite set_bufs_twice in H'. cbn. rewrite !set_bufs_twice. unfold s1. destruct s; cbn in *; subst. exact H'.
  - apply P''. unfold cut. do 2 apply some_alter. rewrite lookup_insert_eq. done.
  - by rewrite Permutation_middle.
  - done.
Qed.

(** A block that is not in use is clean. *)
Lemma bio_clean dv nb s V A n : bio_rep dv nb s V A → A !! n = None → V !! n = disk s !! n.
Proof.
  intros (L & _ & H) HA.
  set (holds a := match bufs s !! a with Some x => (b_dev x =? dv) && (b_blockno x =? n) | None => false end).
  destruct (existsb holds L) eqn:E.
  - apply existsb_exists in E as (a & Ha%list_elem_of_In & E). unfold holds in E.
    destruct (bufs s !! a) as [x|] eqn:Hx; [|done]. apply andb_true_iff in E as [Hd Hn].
    apply Z.eqb_eq in Hd, Hn. destruct (bi_buf _ _ _ _ _ H a x Ha Hx) as [_ K2 K3 K4]. subst n.
    rewrite (K2 Hd). symmetry. apply K3; [|done]. destruct (decide (b_refcnt x = 0)) as [?|Hr]; [done|].
    destruct (K4 Hr) as (_ & _ & E). congruence.
  - apply (bi_view _ _ _ _ _ H). intros a x Ha Hx Hd Hn.
    assert (existsb holds L = true); [|congruence]. apply existsb_exists. exists a.
    rewrite <- list_elem_of_In. split; [done|]. unfold holds. rewrite Hx, Hd, Hn, !Z.eqb_refl. done.
Qed.
