(* ===== verification/BioProps.v ===== *)
(** The theorem about the buffer cache, and a concrete cache. *)

From S2P Require Import Prelude.
From S2P Require Import Bio.
From S2P Require Import BioInv.

(** * A concrete cache *)

(** Three idle buffers at 10, 20 and 30 with the list head at 1. *)
Definition link (p n : Z) : buf := set_prev p (set_next n zero_buf).

Definition example_cache (D : gmap Z block) : bst :=
  BSt {[1 := link 30 10; 10 := link 1 20; 20 := link 10 30; 30 := link 20 1]} 1 ∅ false D [].

Lemma example_cache_rep D : bio_rep 1 3 (example_cache D) D ∅.
Proof.
  exists [10; 20; 30]. split; [done|].
  assert (∀ a x, a ∈ [10; 20; 30] → bufs (example_cache D) !! a = Some x → b_dev x = 0 ∧ b_refcnt x = 0 ∧ b_valid x = false ∧ b_held x = false) as Hz.
  { intros a x Ha Hx. repeat (apply elem_of_cons in Ha as [->|Ha]; [by injection Hx as <-|]). by apply not_elem_of_nil in Ha. }
  split; try done.
  - repeat constructor; set_solver by lia.
  - intros a x Ha Hx. destruct (Hz a x Ha Hx) as (E1 & E2 & E3 & E4). split; rewrite ?E1, ?E2, ?E3, ?E4; done.
  - intros a b x y Ha _ Hx _ Ed. destruct (Hz a x Ha Hx) as (E1 & _). rewrite E1 in Ed. done.
Qed.

(** C16: [bread] of a block of the disk returns the address of a buffer with
    the block's logical contents, its lock held and its reference count
    raised, as long as the block is not held already and a buffer is free.
    The disk is not written, the contents of every block are as before, and
    the buffers in use stay where they are. *)
Theorem bread_correct dv nb s V A n d :
  bio_rep dv nb s V A → V !! n = Some d → bread_ready nb A n →
  wp (bread dv n) (λ a s', bio_rep dv nb s' V (<[n := Act a (ref_of A n + 1) true]> A) ∧
    disk s' = disk s ∧ dwrites s' = dwrites s ∧ (∀ e, A !! n = Some e → a = ac_addr e) ∧
    ∃ x, bufs s' !! a = Some x ∧ b_blockno x = n ∧ b_data x = d ∧ b_held x = true) s.
Proof.
  intros H HV Hr. eapply wp_mono; [by apply (wp_bread dv nb s V A n d)|].
  intros a s' (H' & [E1 E2] & Ha). split_and!; try done.
  pose proof H' as (L & _ & Hi).
  destruct (bi_lookup _ _ _ _ _ n (Act a (ref_of A n + 1) true) Hi) as (x & _ & Hx & Hn & _ & _ & Hd & _ & Hh & _).
  { apply lookup_insert_eq. }
  exists x. rewrite HV in Hd. injection Hd as ->. done.
Qed.

Lemma bread_correct_witness :
  wp (bread 1 5) (λ a s', ∃ x, bufs s' !! a = Some x ∧ b_data x = [7]) (example_cache {[5 := [7]]}).
Proof.
  eapply wp_mono; [apply (bread_correct 1 3 _ {[5 := [7]]} ∅ 5 [7] (example_cache_rep _))|].
  - reflexivity.
  - unfold bread_ready. rewrite lookup_empty, map_size_empty. lia.
  - intros a s' (_ & _ & _ & _ & x & H1 & _ & H2 & _). exists x. exact (conj H1 H2).
Defined.
