(* ===== verification/Log.v ===== *)
(** The write-ahead log (kernel/log.c): system calls collect the blocks they
    change, and the last one to finish commits them all: it copies them to the
    log, writes the header, copies them home and clears the header. *)

From S2P Require Import Prelude.
From S2P Require Import Bio.

(** * Integers in blocks

    Blocks hold 32-bit integers in little-endian order. *)

Definition byte_at (d : block) (i : Z) : Z := default 0 (d !! Z.to_nat i).

Definition get32 (d : block) (off : Z) : Z :=
  byte_at d off + 2 ^ 8 * byte_at d (off + 1) + 2 ^ 16 * byte_at d (off + 2) + 2 ^ 24 * byte_at d (off + 3).

Definition put8 (d : block) (off v : Z) : block := <[Z.to_nat off := u8 v]> d.

Definition put32 (d : block) (off v : Z) : block :=
  put8 (put8 (put8 (put8 d off v) (off + 1) (v / 2 ^ 8)) (off + 2) (v / 2 ^ 16)) (off + 3) (v / 2 ^ 24).

(** Accesses to [b->data] as an array of integers; one outside it is
    undefined. *)
Definition load32 (a off : Z) : prog bst Z :=
  x ← read_buf a;
  if (0 <=? off) && (off + 4 <=? BSIZE) then mret (get32 (b_data x) off) else undefined.

Definition store32 (a off v : Z) : prog bst unit :=
  if (0 <=? off) && (off + 4 <=? BSIZE) then update_buf a (λ x, set_data (put32 (b_data x) off v) x)
  else undefined.

(** [memmove(to->data, from->data, BSIZE)] *)
Definition copy_data (to from : Z) : prog bst unit :=
  x ← read_buf from; update_buf to (set_data (b_data x)).

(** * State *)

Record logst := LogSt {
  lg_bio : bst;
  lg_lock : bool;
  lg_start : Z;
  outstanding : Z;
  committing : bool;
  lg_dev : Z;
  lh_n : Z;
  lh_block : gmap Z Z }.

Definition set_lg_bio (b : bst) (s : logst) : logst :=
  LogSt b (lg_lock s) (lg_start s) (outstanding s) (committing s) (lg_dev s) (lh_n s) (lh_block s).

Definition set_lg_lock (l : bool) (s : logst) : logst :=
  LogSt (lg_bio s) l (lg_start s) (outstanding s) (committing s) (lg_dev s) (lh_n s) (lh_block s).

Definition set_lg_start (x : Z) (s : logst) : logst :=
  LogSt (lg_bio s) (lg_lock s) x (outstanding s) (committing s) (lg_dev s) (lh_n s) (lh_block s).

Definition set_outstanding (x : Z) (s : logst) : logst :=
  LogSt (lg_bio s) (lg_lock s) (lg_start s) x (committing s) (lg_dev s) (lh_n s) (lh_block s).

Definition set_committing (c : bool) (s : logst) : logst :=
  LogSt (lg_bio s) (lg_lock s) (lg_start s) (outstanding s) c (lg_dev s) (lh_n s) (lh_block s).

Definition set_lg_dev (x : Z) (s : logst) : logst :=
  LogSt (lg_bio s) (lg_lock s) (lg_start s) (outstanding s) (committing s) x (lh_n s) (lh_block s).

Definition set_lh_n (x : Z) (s : logst) : logst :=
  LogSt (lg_bio s) (lg_lock s) (lg_start s) (outstanding s) (committing s) (lg_dev s) x (lh_block s).

Definition set_lh_block (i x : Z) (s : logst) : logst :=
  LogSt (lg_bio s) (lg_lock s) (lg_start s) (outstanding s) (committing s) (lg_dev s) (lh_n s)
    (<[i := x]> (lh_block s)).

Definition on_lg {A} (m : prog bst A) : prog logst A := zoom lg_bio set_lg_bio m.

Definition acquire_log : prog logst unit :=
  s ← get; if lg_lock s then panic "acquire" else modify (set_lg_lock true).

Definition release_log : prog logst unit :=
  s ← get; if lg_lock s then modify (set_lg_lock false) else panic "release".

(** [log->lh.block[i]], an array of [LOGBLOCKS] integers. *)
Definition read_lh_block (i : Z) : prog logst Z :=
  s ← get;
  if (0 <=? i) && (i <? LOGBLOCKS) then mret (default 0 (lh_block s !! i)) else undefined.

Definition write_lh_block (i v : Z) : prog logst unit :=
  if (0 <=? i) && (i <? LOGBLOCKS) then modify (set_lh_block i v) else undefined.

(** * The commit *)

(** Field [n] of the header block is at offset 0, [block[i]] at 4 + 4i. *)
Definition head_off (i : Z) : Z := 4 + 4 * i.

Definition install_trans (recovering : bool) : prog logst unit :=
  s ← get;
  for_range 0 (lh_n s) (λ tail,
    lbuf ← on_lg (bread (u32 (lg_dev s)) (u32 (lg_start s + tail + 1)));
    home ← read_lh_block tail;
    dbuf ← on_lg (bread (u32 (lg_dev s)) (u32 home));
    _ ← on_lg (copy_data dbuf lbuf);
    _ ← on_lg (bwrite dbuf);
    _ ← (if recovering then mret tt else on_lg (bunpin dbuf) : prog logst unit);
    _ ← on_lg (brelse lbuf);
    on_lg (brelse dbuf)).

Definition read_head : prog logst unit :=
  s ← get;
  buf ← on_lg (bread (u32 (lg_dev s)) (u32 (lg_start s)));
  n ← on_lg (load32 buf 0);
  _ ← modify (set_lh_n (s32 n));
  _ ← for_range 0 (s32 n) (λ i,
        b ← on_lg (load32 buf (head_off i));
        write_lh_block i (s32 b));
  on_lg (brelse buf).

Definition write_head : prog logst unit :=
  s ← get;
  buf ← on_lg (bread (u32 (lg_dev s)) (u32 (lg_start s)));
  _ ← on_lg (store32 buf 0 (lh_n s));
  _ ← for_range 0 (lh_n s) (λ i,
        b ← read_lh_block i;
        on_lg (store32 buf (head_off i) b));
  _ ← on_lg (bwrite buf);
  on_lg (brelse buf).

Definition recover_from_log : prog logst unit :=
  _ ← read_head;
  _ ← install_trans true;
  _ ← modify (set_lh_n 0);
  write_head.

Definition write_log : prog logst unit :=
  s ← get;
  for_range 0 (lh_n s) (λ tail,
    to ← on_lg (bread (u32 (lg_dev s)) (u32 (lg_start s + tail + 1)));
    home ← read_lh_block tail;
    from ← on_lg (bread (u32 (lg_dev s)) (u32 home));
    _ ← on_lg (copy_data to from);
    _ ← on_lg (bwrite to);
    _ ← on_lg (brelse from);
    on_lg (brelse to)).

Definition commit : prog logst unit :=
  s ← get;
  if 0 <? lh_n s then
    _ ← write_log;
    _ ← write_head;
    _ ← install_trans false;
    _ ← modify (set_lh_n 0);
    write_head
  else mret tt.

(** * Initialisation *)

Definition sizeof_logheader : Z := 4 + 4 * LOGBLOCKS.

(** The initial state is what [kmalloc] returned: the fields that are not
    assigned keep what the memory held. *)
Definition initlog (dev logstart : Z) : prog logst unit :=
  if BSIZE <=? sizeof_logheader then panic "initlog: too big logheader"
  else
    _ ← modify (set_lg_lock false);
    _ ← modify (set_lg_start (s32 logstart));
    _ ← modify (set_lg_dev dev);
    recover_from_log.

(** * Transactions *)

(** The channels of [sleep] and [wakeup] in this file: the address of the
    variable [log], and its value, the address of the log structure. *)
Inductive chan : Set :=
  | ChanVar
  | ChanObj.

(** One round of the loop of [begin_op]: [None] when the operation may start,
    otherwise the channel the process sleeps on, with the lock released. *)
Definition begin_op_try : prog logst (option chan) :=
  _ ← acquire_log;
  s ← get;
  if committing s then _ ← release_log; mret (Some ChanVar)
  else if LOGBLOCKS <? lh_n s + (outstanding s + 1) * MAXOPBLOCKS then _ ← release_log; mret (Some ChanObj)
  else
    _ ← modify (set_outstanding (outstanding s + 1));
    _ ← release_log;
    mret None.

(** The first critical section of [end_op]: whether to commit, and the
    channel woken. *)
Definition end_op_enter : prog logst (bool * option chan) :=
  _ ← acquire_log;
  _ ← modify (λ s, set_outstanding (outstanding s - 1) s);
  s ← get;
  if committing s then panic "log.committing"
  else if outstanding s =? 0 then
    _ ← modify (set_committing true);
    _ ← release_log;
    mret (true, None)
  else
    _ ← release_log;
    mret (false, Some ChanVar).

(** The second one, after the commit. *)
Definition end_op_leave : prog logst (option chan) :=
  _ ← acquire_log;
  _ ← modify (set_committing false);
  _ ← release_log;
  mret (Some ChanVar).

Definition end_op : prog logst (option chan) :=
  r ← end_op_enter;
  match (r : bool * option chan) with
  | (true, _) => _ ← commit; end_op_leave
  | (false, ch) => mret ch
  end.

(** The search of [log_write] for a block that is already logged. *)
Definition absorb (blockno : Z) : prog logst Z :=
  s ← get;
  loop (S (Z.to_nat (lh_n s)))
    (λ i, if i <? lh_n s then
            b ← read_lh_block i;
            if u32 b =? blockno then mret (inr i) else mret (inl (i + 1))
          else mret (inr i))
    0.

Definition log_write (b : Z) : prog logst unit :=
  _ ← acquire_log;
  s ← get;
  if LOGBLOCKS <=? lh_n s then panic "too big a transaction"
  else if outstanding s <? 1 then panic "log_write outside of trans"
  else
    x ← on_lg (read_buf b);
    i ← absorb (b_blockno x);
    _ ← write_lh_block i (s32 (b_blockno x));
    _ ← (if i =? lh_n s then _ ← on_lg (bpin b); modify (λ s, set_lh_n (lh_n s + 1) s) else mret tt : prog logst unit);
    release_log.
