(* ===== verification/LogInv.v ===== *)
(** Facts about the log's header block and the loops of kernel/log.c that copy
    blocks between the log and their home locations. *)

From S2P Require Import Prelude.
From S2P Require Import Bio.
From S2P Require Import BioInv.
From S2P Require Import Log.

(** * Integers in blocks *)

Lemma length_put8 d o v : length (put8 d o v) = length d.
Proof. apply length_insert. Qed.

Lemma length_put32 d o v : length (put32 d o v) = length d.
Proof. unfold put32. by rewrite !length_put8. Qed.

Lemma byte_at_put8 d o v i : 0 ≤ i → 0 ≤ o < zlen d →
  byte_at (put8 d o v) i = if decide (i = o) then u8 v else byte_at d i.
Proof.
  intros Hi Ho. unfold byte_at, put8. destruct (decide (i = o)) as [->|Hne].
  - by rewrite list_lookup_insert_eq by lia.
  - by rewrite list_lookup_insert_ne by lia.
Qed.

Lemma get32_put32_ne d o o' v : 0 ≤ o → o + 4 ≤ zlen d → 0 ≤ o' → (o + 4 ≤ o' ∨ o' + 4 ≤ o) →
  get32 (put32 d o v) o' = get32 d o'.
Proof.
  intros Ho Hl Ho' Hd. unfold get32, put32.
  rewrite !byte_at_put8 by (rewrite ?length_put8; lia).
  rewrite !(decide_False (P := _ = _)) by lia. done.
Qed.

Lemma get32_put32_eq d o v : 0 ≤ o → o + 4 ≤ zlen d → 0 ≤ v < 2 ^ 32 → get32 (put32 d o v) o = v.
Proof.
  intros Ho Hl Hv. unfold get32, put32.
  rewrite !byte_at_put8 by (rewrite ?length_put8; lia).
  repeat (case_decide; try lia). unfold u8. Z.to_euclidean_division_equations. lia.
Qed.

(** * The header block *)

(** [hb->block[i..] = l] *)
Fixpoint put_blocks (d : block) (i : Z) (l : list Z) : block :=
  match l with
  | [] => d
  | b :: l' => put_blocks (put32 d (head_off i) b) (i + 1) l'
  end.

Definition put_head (d : block) (l : list Z) : block := put_blocks (put32 d 0 (zlen l)) 0 l.

(** The header block [d] lists the blocks [l]. *)
Definition head_lists (d : block) (l : list Z) : Prop :=
  get32 d 0 = zlen l ∧ ∀ i b, l !! i = Some b → get32 d (head_off (Z.of_nat i)) = b.

Lemma put_blocks_snoc d i l b : put_blocks d i (l ++ [b]) = put32 (put_blocks d i l) (head_off (i + zlen l)) b.
Proof.
  revert d i. induction l as [|x l IH]; intros d i; simpl; [by rewrite Z.add_0_r|].
  rewrite IH. do 2 f_equal. lia.
Qed.

Lemma length_put_blocks d i l : length (put_blocks d i l) = length d.
Proof. revert d i. induction l as [|x l IH]; intros d i; simpl; [done|]. by rewrite IH, length_put32. Qed.

Lemma length_put_head d l : length (put_head d l) = length d.
Proof. unfold put_head. by rewrite length_put_blocks, length_put32. Qed.

Lemma get32_put_blocks_ne d i l o : 0 ≤ i → head_off (i + zlen l) ≤ zlen d → 0 ≤ o → o + 4 ≤ head_off i →
  get32 (put_blocks d i l) o = get32 d o.
Proof.
  revert d i. induction l as [|x l IH]; intros d i Hi Hl Ho Ho'; simpl in *; [done|]. unfold head_off in *.
  rewrite IH by (rewrite ?length_put32; unfold head_off; lia). apply get32_put32_ne; lia.
Qed.

Lemma get32_put_blocks d i l j b : 0 ≤ i → head_off (i + zlen l) ≤ zlen d →
  l !! j = Some b → 0 ≤ b < 2 ^ 32 → get32 (put_blocks d i l) (head_off (i + Z.of_nat j)) = b.
Proof.
  revert d i j. induction l as [|x l IH]; intros d i [|j] Hi Hl Hj Hb; simpl in *; try done.
  - injection Hj as ->. rewrite get32_put_blocks_ne by (rewrite ?length_put32; unfold head_off in *; lia).
    rewrite Z.add_0_r. apply get32_put32_eq; unfold head_off in *; lia.
  - replace (i + Z.of_nat (S j)) with (i + 1 + Z.of_nat j) by lia.
    apply IH; try done; rewrite ?length_put32; unfold head_off in *; lia.
Qed.

Lemma put_head_lists d l : zlen d = BSIZE → zlen l ≤ LOGBLOCKS → (∀ b, b ∈ l → 0 ≤ b < 2 ^ 32) →
  head_lists (put_head d l) l.
Proof.
  intros Hd Hl Hr. assert (head_off (0 + zlen l) ≤ zlen d) as Ho
    by (rewrite Hd; unfold head_off, LOGBLOCKS, MAXOPBLOCKS, BSIZE in *; lia).
  unfold LOGBLOCKS, MAXOPBLOCKS, BSIZE in *. split.
  - unfold put_head. rewrite get32_put_blocks_ne by (rewrite ?length_put32; done || lia).
    apply get32_put32_eq; lia.
  - intros i b Hi. apply (get32_put_blocks _ 0); [lia|by rewrite length_put32|done|].
    apply Hr. by eapply list_elem_of_lookup_2.
Qed.

(** * Sequences of disk writes *)

Definition apply_writes (ws : list (Z * block)) (D : gmap Z block) : gmap Z block :=
  foldl (λ D w, <[w.1 := w.2]> D) D ws.

Lemma apply_writes_app ws ws' D : apply_writes (ws ++ ws') D = apply_writes ws' (apply_writes ws D).
Proof. apply foldl_app. Qed.

Lemma apply_writes_other ws D n : n ∉ ws.*1 → apply_writes ws D !! n = D !! n.
Proof.
  revert D. induction ws as [|[m d] ws IH]; intros D Hn; simpl in *; [done|].
  rewrite not_elem_of_cons in Hn. rewrite IH by tauto. apply lookup_insert_ne. by intros ->; destruct Hn.
Qed.

Lemma apply_writes_in ws D i n d : NoDup ws.*1 → ws !! i = Some (n, d) → apply_writes ws D !! n = Some d.
Proof.
  revert D i. induction ws as [|[m d'] ws IH]; intros D [|i] Hnd Hi; simpl in *; try done.
  - injection Hi as -> ->. apply NoDup_cons in Hnd as [Hn _]. rewrite apply_writes_other by done.
    apply lookup_insert_eq.
  - apply NoDup_cons in Hnd as [_ Hnd]. by apply (IH _ i).
Qed.

(** * The loop bodies *)

(** What the body of [write_log] and [install_trans] does to the disk. *)
Definition wrote (b b' : bst) (n : Z) (d : block) : Prop :=
  disk b' = <[n := d]> (disk b) ∧ dwrites b' = dwrites b ++ [(n, d)].

Lemma wrote_after b b1 b2 n d : same_disk b b1 → wrote b1 b2 n d → wrote b b2 n d.
Proof. intros [E1 E2] [E3 E4]. split; congruence. Qed.

Lemma wrote_before b b1 b2 n d : wrote b b1 n d → same_disk b1 b2 → wrote b b2 n d.
Proof. intros [E1 E2] [E3 E4]. split; congruence. Qed.

Lemma same_disk_trans b b1 b2 : same_disk b b1 → same_disk b1 b2 → same_disk b b2.
Proof. intros [E1 E2] [E3 E4]. split; congruence. Qed.

Lemma wp_copy_data dv nb s V A n e n' e' d (Q : unit → bst → Prop) :
  bio_rep dv nb s V A → A !! n = Some e → A !! n' = Some e' → V !! n' = Some d →
  (∀ s', bio_rep dv nb s' (<[n := d]> V) A → same_disk s s' → Q tt s') →
  wp (copy_data (ac_addr e) (ac_addr e')) Q s.
Proof.
  intros H He He' Hd HQ. unfold copy_data. wp_auto. eapply wp_held_data; [done..|]. intros x _ Ex _.
  rewrite Hd in Ex. injection Ex as ->. by eapply wp_set_data.
Qed.

Lemma released_one A n a : released (<[n := Act a 1 true]> A) n (Act a 1 true) = delete n A.
Proof. unfold released. simpl. apply delete_insert_eq. Qed.

Lemma wp_zoom_mono {S T A} (view : S → T) put (m : prog T A) P Q s :
  wp m P (view s) → (∀ a t, P a t → Q a (put t s)) → wp (zoom view put m) Q s.
Proof. intros H HPQ. apply wp_zoom. by eapply wp_mono. Qed.

Section Copy.

Context (dv : Z) (nb : nat).

(** One block is copied to the log: [f] is pinned, [t] is not in use. *)
Lemma wp_copy_to_log b V A t f a d :
  bio_rep dv nb b V A → A !! t = None → (size A < nb)%nat → A !! f = Some (Act a 1 false) →
  V !! f = Some d → is_Some (V !! t) → is_Some (disk b !! t) →
  wp (bread dv t) (λ to b1, wp (bread dv f) (λ from b2,
    wp (copy_data to from) (λ _ b3, wp (bwrite to) (λ _ b4, wp (brelse from) (λ _ b5,
      wp (brelse to) (λ _ b6, bio_rep dv nb b6 (<[t := d]> V) A ∧ wrote b b6 t d) b5) b4) b3) b2) b1) b.
Proof.
  intros H Ht Hsz Hf Hd [dt Hdt] Hdk. assert (t ≠ f) as Htf by congruence.
  eapply wp_mono; [by apply (wp_bread dv nb b V A t dt H); [|unfold bread_ready; rewrite Ht]|].
  intros to b1 (H1 & D1 & _). unfold ref_of in H1. rewrite Ht in H1. simpl in H1.
  eapply wp_mono; [apply (wp_bread dv nb b1 V _ f d H1); [done|]|].
  { unfold bread_ready. rewrite lookup_insert_ne, Hf by done. simpl. lia. }
  intros from b2 (H2 & D2 & Ha). specialize (Ha (Act a 1 false)). rewrite lookup_insert_ne in Ha by done.
  specialize (Ha Hf). simpl in Ha. subst from. unfold ref_of in H2. rewrite lookup_insert_ne, Hf in H2 by done.
  simpl in H2. set (A2 := <[f := _]> _) in H2.
  assert (A2 !! f = Some (Act a 2 true)) as E2f by apply lookup_insert_eq.
  assert (A2 !! t = Some (Act to 1 true)) as E2t by (unfold A2; by rewrite lookup_insert_ne, lookup_insert_eq by done).
  apply (wp_copy_data _ _ _ _ _ t (Act to 1 true) f (Act a 2 true) d _ H2); [done..|]. intros b3 H3 D3.
  apply (wp_bwrite _ _ _ _ _ t (Act to 1 true) _ H3); [done|done| |].
  { by rewrite (proj1 D3), (proj1 D2), (proj1 D1). }
  intros d' b4 Ed H4 K1 K2. rewrite lookup_insert_eq in Ed. injection Ed as <-.
  apply (wp_brelse _ _ _ _ _ f (Act a 2 true) _ H4); [done|done|done|]. intros b5 H5 D5. unfold released in H5. simpl in H5.
  apply (wp_brelse _ _ _ _ _ t (Act to 1 true) _ H5); [by rewrite lookup_insert_ne|done| |].
  { intros _. rewrite (proj1 D5), K1, !lookup_insert_eq. done. }
  intros b6 H6 D6. split.
  - unfold released in H6. simpl in H6. unfold A2 in H6. rewrite insert_insert_eq in H6.
    rewrite insert_insert_ne, delete_insert_id in H6 by (rewrite ?lookup_insert_ne; done).
    by rewrite (insert_id A) in H6.
  - eapply wrote_before, D6. eapply wrote_before, D5.
    eapply wrote_after; [by eapply same_disk_trans; [|eapply same_disk_trans]|]. by split.
Qed.

(** One block is copied home: [f] is a log block, [t] is pinned unless the
    system is recovering. *)
Lemma wp_copy_home (recovering : bool) b V A t f d :
  bio_rep dv nb b V A → A !! f = None → t ≠ f → (S (size A) < nb)%nat ∨ (recovering = false ∧ (size A < nb)%nat) →
  (if recovering then A !! t = None else ∃ a, A !! t = Some (Act a 1 false)) →
  V !! f = Some d → is_Some (V !! t) → is_Some (disk b !! t) →
  wp (bread dv f) (λ lbuf b1, wp (bread dv t) (λ dbuf b2,
    wp (copy_data dbuf lbuf) (λ _ b3, wp (bwrite dbuf) (λ _ b4,
      wp (if recovering then mret tt else bunpin dbuf : prog bst unit) (λ _ b5, wp (brelse lbuf) (λ _ b6,
        wp (brelse dbuf) (λ _ b7, bio_rep dv nb b7 (<[t := d]> V) (delete t A) ∧ wrote b b7 t d)
          b6) b5) b4) b3) b2) b1) b.
Proof.
  intros H Hf Htf Hsz Ht Hd [dt Hdt] Hdk.
  eapply wp_mono; [apply (wp_bread dv nb b V A f d H); [done|unfold bread_ready; rewrite Hf; lia]|].
  intros lb b1 (H1 & D1 & _). unfold ref_of in H1. rewrite Hf in H1. simpl in H1.
  set (r := if recovering then 1 else 2). set (A1 := <[f := _]> A) in H1.
  assert (A1 !! t = A !! t) as E1t by (unfold A1; by rewrite lookup_insert_ne by done).
  eapply wp_mono; [apply (wp_bread dv nb b1 V _ t dt H1); [done|]|].
  { unfold bread_ready. rewrite E1t. destruct recovering.
    - rewrite Ht. unfold A1. rewrite map_size_insert_None by done. destruct Hsz as [?|[? _]]; [lia|done].
    - destruct Ht as [a ->]. done. }
  intros db b2 (H2 & D2 & _). replace (ref_of A1 t + 1) with r in H2.
  2:{ unfold ref_of. rewrite E1t. destruct recovering; [by rewrite Ht|]. by destruct Ht as [a ->]. }
  set (A2 := <[t := Act db r true]> A1) in H2.
  assert (A2 !! t = Some (Act db r true)) as E2t by apply lookup_insert_eq.
  assert (A2 !! f = Some (Act lb 1 true)) as E2f by (unfold A2, A1; by rewrite lookup_insert_ne, lookup_insert_eq by done).
  apply (wp_copy_data _ _ _ _ _ t (Act db r true) f (Act lb 1 true) d _ H2); [done..|]. intros b3 H3 D3.
  assert (disk b3 = disk b) as D by (by rewrite (proj1 D3), (proj1 D2), (proj1 D1)).
  apply (wp_bwrite _ _ _ _ _ t (Act db r true) _ H3); [done|done|by rewrite D|].
  intros d' b4 Ed H4 K1 K2. rewrite lookup_insert_eq in Ed. injection Ed as <-.
  assert (wp (if recovering then mret tt else bunpin db) (λ _ b5,
    bio_rep dv nb b5 (<[t:=d]> V) (<[t := Act db 1 true]> A2) ∧ same_disk b4 b5) b4) as Hun.
  { subst r. destruct recovering; [wp_auto; rewrite (insert_id A2) by done; by split|].
    by apply (wp_bunpin _ _ _ _ _ t (Act db 2 true) _ H4). }
  eapply wp_mono; [exact Hun|]. intros _ b5 (H5 & D5). unfold A2 in H5. rewrite insert_insert_eq in H5.
  apply (wp_brelse _ _ _ _ _ f (Act lb 1 true) _ H5); [unfold A1; by rewrite lookup_insert_ne, lookup_insert_eq by done|done| |].
  { intros _. rewrite (proj1 D5), K1, !lookup_insert_ne by done. rewrite Hd, D. rewrite <- Hd. symmetry. by eapply bio_clean. }
  intros b6 H6 D6. unfold released in H6. simpl in H6. unfold A1 in H6.
  rewrite insert_insert_ne, delete_insert_id in H6 by (rewrite ?lookup_insert_ne; done).
  apply (wp_brelse _ _ _ _ _ t (Act db 1 true) _ H6); [apply lookup_insert_eq|done| |].
  { intros _. by rewrite (proj1 D6), (proj1 D5), K1, !lookup_insert_eq. }
  intros b7 H7 D7. rewrite released_one in H7. split; [done|].
  eapply wrote_before, D7. eapply wrote_before, D6. eapply wrote_before, D5.
  eapply wrote_after; [by eapply same_disk_trans; [|eapply same_disk_trans]|]. by split.
Qed.

End Copy.
