(* ===== verification/LogProps.v ===== *)
(** The log makes transactions atomic: whenever the system stops during a
    commit, recovery finds all the blocks of the transaction or none. *)

From S2P Require Import Prelude.
From S2P Require Import Bio.
From S2P Require Import BioInv.
From S2P Require Import BioProps.
From S2P Require Import Log.
From S2P Require Import LogInv.

(** * The shape of the log *)

(** Block [n] is not part of the log, whose header is block [st]. *)
Definition outside (st n : Z) : Prop := n < st ∨ st + LOGBLOCKS < n.

(** The in-memory header lists [bl]. *)
Definition lists_blocks (s : logst) (bl : list Z) : Prop :=
  lh_n s = zlen bl ∧ ∀ i b, bl !! i = Some b → lh_block s !! Z.of_nat i = Some b.

Record blocks_ok (st : Z) (bl : list Z) : Prop := {
  bl_nodup : NoDup bl;
  bl_len : zlen bl ≤ LOGBLOCKS;
  bl_range : ∀ b, b ∈ bl → 0 ≤ b < 2 ^ 31 ∧ outside st b }.

Record disk_ok (st : Z) (D : gmap Z block) : Prop := {
  dk_start : 0 ≤ st;
  dk_end : st + LOGBLOCKS < 2 ^ 31;
  dk_log : ∀ i, 0 ≤ i ≤ LOGBLOCKS → is_Some (D !! (st + i));
  dk_size : ∀ n d, D !! n = Some d → zlen d = BSIZE }.

(** The blocks [bl] have contents [ds]. *)
Definition holds (V : gmap Z block) (bl : list Z) (ds : list block) : Prop :=
  Forall2 (λ b d, V !! b = Some d) bl ds.

(** The writes that copy [ds] to the log, and home. *)
Definition log_writes (st : Z) (ds : list block) : list (Z * block) :=
  imap (λ i d, (st + Z.of_nat i + 1, d)) ds.

Definition home_writes (bl : list Z) (ds : list block) : list (Z * block) := zip bl ds.

Lemma log_writes_snoc st ds d : log_writes st (ds ++ [d]) = log_writes st ds ++ [(st + zlen ds + 1, d)].
Proof. unfold log_writes. rewrite imap_app. simpl. by rewrite Nat.add_0_r. Qed.

Lemma log_writes_elem st ds n : n ∈ (log_writes st ds).*1 → st + 1 ≤ n ≤ st + zlen ds.
Proof.
  intros Hn. apply list_elem_of_fmap in Hn as ([m d] & -> & Hn). apply list_elem_of_lookup in Hn as [i Hi].
  unfold log_writes in Hi. rewrite list_lookup_imap in Hi. destruct (ds !! i) as [x|] eqn:E; [|done].
  injection Hi as <- <-. apply lookup_lt_Some in E. simpl. lia.
Qed.

Lemma log_writes_lookup st ds D i d : ds !! i = Some d →
  apply_writes (log_writes st ds) D !! (st + Z.of_nat i + 1) = Some d.
Proof.
  intros Hi. apply (apply_writes_in _ _ i).
  - unfold log_writes. rewrite fmap_imap. apply NoDup_alt. intros j k n Hj Hk.
    rewrite list_lookup_imap in Hj, Hk. destruct (ds !! j), (ds !! k); try done. simpl in *.
    injection Hj as Hj. injection Hk as Hk. lia.
  - unfold log_writes. by rewrite list_lookup_imap, Hi.
Qed.

Lemma NoDup_not_in_take (l : list Z) i x : NoDup l → l !! i = Some x → x ∉ take i l.
Proof.
  intros Hnd Hx (j & Hj & Hlt)%elem_of_take.
  pose proof (NoDup_lookup _ _ _ _ Hnd Hx Hj). lia.
Qed.

Lemma holds_length V bl ds : holds V bl ds → length bl = length ds.
Proof. apply Forall2_length. Qed.

Lemma home_writes_fst bl ds : length bl = length ds → (home_writes bl ds).*1 = bl.
Proof. intros E. unfold home_writes. apply fst_zip. lia. Qed.

Lemma home_writes_snoc bl ds b d : length bl = length ds →
  home_writes (bl ++ [b]) (ds ++ [d]) = home_writes bl ds ++ [(b, d)].
Proof. intros E. unfold home_writes. by rewrite zip_with_app. Qed.

(** * The loops *)

Lemma wp_if_on_lg (c : bool) (m : prog bst unit) (Q : unit → logst → Prop) s :
  wp (if c then mret tt else m) (λ u t, Q u (set_lg_bio t s)) (lg_bio s) →
  wp (if c then mret tt else zoom lg_bio set_lg_bio m) Q s.
Proof. destruct c; [|by intros; apply wp_zoom]. unfold wp. simpl. by destruct s. Qed.

Section Loops.

Context (dv : Z) (nb : nat) (st : Z) (bl : list Z).

Hypothesis Hdv : 0 ≤ dv < 2 ^ 32.

Hypothesis Hbl : blocks_ok st bl.

(** A state of the log, with the blocks listed and the disk in order. *)
Record log_at (s : logst) : Prop := {
  la_dev : lg_dev s = dv;
  la_start : lg_start s = st;
  la_lists : lists_blocks s bl;
  la_disk : disk_ok st (disk (lg_bio s)) }.

Lemma slot_range i : 0 ≤ st → st + LOGBLOCKS < 2 ^ 31 → 0 ≤ i < zlen bl → u32 (st + i + 1) = st + i + 1.
Proof. intros H1 H2 Hi. pose proof (bl_len _ _ Hbl). apply u32_small. lia. Qed.

Lemma wp_read_lh_block s i b (Q : Z → logst → Prop) :
  lists_blocks s bl → bl !! i = Some b → Q b s → wp (read_lh_block (Z.of_nat i)) Q s.
Proof.
  intros [_ Hl] Hi HQ. unfold read_lh_block. wp_auto. pose proof (lookup_lt_Some _ _ _ Hi).
  pose proof (bl_len _ _ Hbl). rewrite (proj2 (Z.leb_le _ _)), (proj2 (Z.ltb_lt _ _)) by lia. wp_auto.
  by rewrite (Hl i b Hi).
Qed.

(** The blocks of [bl] are pinned in the cache, and nothing else is in use. *)
Definition pinned (A : gmap Z active) (l : list Z) : Prop :=
  (∀ b, b ∈ l → ∃ a, A !! b = Some (Act a 1 false)) ∧ ∀ n, n ∉ l → A !! n = None.

Lemma wp_write_log s V A ds :
  log_at s → bio_rep dv nb (lg_bio s) V A → pinned A bl → (size A < nb)%nat → holds V bl ds →
  wp write_log (λ _ s', ∃ b, s' = set_lg_bio b s ∧
    bio_rep dv nb b (apply_writes (log_writes st ds) V) A ∧
    disk b = apply_writes (log_writes st ds) (disk (lg_bio s)) ∧
    dwrites b = dwrites (lg_bio s) ++ log_writes st ds) s.
Proof.
  intros [Hd Hs Hl [D1 D2 D3 _]] H [Hp Hnp] Hsz Hds. pose proof (holds_length _ _ _ Hds) as El.
  unfold write_log. wp_auto. rewrite (proj1 Hl), Hd, Hs, (u32_small dv) by done.
  apply (wp_for_range (λ i s', ∃ b, s' = set_lg_bio b s ∧
    bio_rep dv nb b (apply_writes (log_writes st (take (Z.to_nat i) ds)) V) A ∧
    disk b = apply_writes (log_writes st (take (Z.to_nat i) ds)) (disk (lg_bio s)) ∧
    dwrites b = dwrites (lg_bio s) ++ log_writes st (take (Z.to_nat i) ds))); [lia| | |].
  - exists (lg_bio s). simpl. rewrite app_nil_r. split_and!; try done. by destruct s.
  - intros z ? Hz (b & -> & Hb & Ed & Ew). set (i := Z.to_nat z) in *. replace z with (Z.of_nat i) in * by lia.
    clearbody i. destruct (lookup_lt_is_Some_2 bl i ltac:(lia)) as [f Hf].
    destruct (Forall2_lookup_l _ _ _ _ _ Hds Hf) as (d & Hd' & HV).
    destruct (bl_range _ _ Hbl f) as [Hfr Hfo]; [by eapply list_elem_of_lookup_2|].
    destruct (Hp f) as [a Ha]; [by eapply list_elem_of_lookup_2|]. pose proof (bl_len _ _ Hbl) as Hlen.
    set (t := st + Z.of_nat i + 1). assert (A !! t = None) as Ht.
    { apply Hnp. intros Ht. destruct (bl_range _ _ Hbl _ Ht) as [_ Ho]. unfold outside in Ho. lia. }
    assert (∀ D : gmap Z block, ∀ n, n ∉ (log_writes st (take i ds)).*1 →
      apply_writes (log_writes st (take i ds)) D !! n = D !! n) as Hother by (intros; by apply apply_writes_other).
    assert ((f ∉ (log_writes st (take i ds)).*1) ∧ (t ∉ (log_writes st (take i ds)).*1)) as [Hf' Ht'].
    { split; intros Hin%log_writes_elem; rewrite length_take in Hin; [unfold outside in Hfo|unfold t in Hin]; lia. }
    assert (is_Some (disk (lg_bio s) !! t)) as Hdt.
    { unfold t. replace (st + Z.of_nat i + 1) with (st + (Z.of_nat i + 1)) by lia. apply D3. lia. }
    assert (u32 t = t) as Et by (apply slot_range; lia).
    unfold on_lg. wp_auto. rewrite Et. cbn [lg_bio set_lg_bio].
    eapply wp_mono; [apply (wp_copy_to_log dv nb b _ A t f a d Hb Ht Hsz Ha)|].
    { by rewrite Hother. }
    { rewrite Hother by done. rewrite (bio_clean _ _ _ _ _ t H) by done. done. }
    { by rewrite Ed, Hother. }
    intros to b1 H1. wp_auto. eapply wp_read_lh_block; [done|done|]. wp_auto. rewrite (u32_small f) by lia.
    eapply wp_mono; [exact H1|]. intros from b2 H2. wp_auto. eapply wp_mono; [exact H2|]. intros [] b3 H3.
    wp_auto. eapply wp_mono; [exact H3|]. intros [] b4 H4. wp_auto. eapply wp_mono; [exact H4|].
    intros [] b5 H5. wp_auto. eapply wp_mono; [exact H5|]. intros [] b6 (H6 & W1 & W2).
    exists b6. split; [by destruct s|]. replace (Z.to_nat (Z.of_nat i + 1)) with (S i) by lia.
    rewrite (take_S_r _ _ _ Hd'), log_writes_snoc, !apply_writes_app, length_take_le by (apply lookup_lt_Some in Hd'; lia).
    simpl. fold t. rewrite <- Ed. split_and!; [done|done|]. by rewrite W2, Ew, <- app_assoc.
  - intros s' (b & -> & Hb & Ed & Ew). exists b. rewrite Nat2Z.id, El, firstn_all in *. done.
Qed.

(** The blocks still pinned before round [i] of [install_trans]. *)
Definition left_pinned (recovering : bool) (i : nat) : list Z := if recovering then [] else drop i bl.

Lemma pinned_step recovering i A b :
  bl !! i = Some b → pinned A (left_pinned recovering i) → pinned (delete b A) (left_pinned recovering (S i)).
Proof.
  intros Hb [H1 H2]. pose proof (bl_nodup _ _ Hbl) as Hnd. unfold left_pinned in *. destruct recovering.
  { split; [by intros x ?%not_elem_of_nil|]. intros n Hn. destruct (decide (n = b)) as [->|].
    - apply lookup_delete_eq.
    - rewrite lookup_delete_ne by done. by apply H2. }
  rewrite (drop_S _ _ _ Hb) in H1, H2. assert (b ∉ drop (S i) bl) as Hni.
  { rewrite <- (take_drop i bl) in Hnd. apply NoDup_app in Hnd as (_ & _ & Hnd).
    rewrite (drop_S _ _ _ Hb) in Hnd. by apply NoDup_cons in Hnd as [? _]. }
  split.
  - intros x Hx. destruct (H1 x) as [a Ha]; [by right|]. exists a. rewrite lookup_delete_ne; [done|]. by intros ->.
  - intros n Hn. destruct (decide (n = b)) as [->|]; [apply lookup_delete_eq|]. rewrite lookup_delete_ne by done.
    apply H2. rewrite not_elem_of_cons. done.
Qed.

Lemma pinned_nil A : pinned A [] → A = ∅.
Proof. intros [_ H]. apply map_empty. intros n. apply H. apply not_elem_of_nil. Qed.

Lemma wp_install_trans (recovering : bool) s V A ds :
  log_at s → bio_rep dv nb (lg_bio s) V A → pinned A (left_pinned recovering 0) →
  (if recovering then (1 < nb)%nat else (size A < nb)%nat) → length bl = length ds →
  (∀ i d, ds !! i = Some d → V !! (st + Z.of_nat i + 1) = Some d) →
  (∀ b, b ∈ bl → is_Some (V !! b) ∧ is_Some (disk (lg_bio s) !! b)) →
  wp (install_trans recovering) (λ _ s', ∃ b, s' = set_lg_bio b s ∧
    bio_rep dv nb b (apply_writes (home_writes bl ds) V) ∅ ∧
    disk b = apply_writes (home_writes bl ds) (disk (lg_bio s)) ∧
    dwrites b = dwrites (lg_bio s) ++ home_writes bl ds) s.
Proof.
  intros [Hd Hs Hl [D1 D2 _ _]] H Hp Hnb El Hslot Hhome.
  unfold install_trans. wp_auto. rewrite (proj1 Hl), Hd, Hs, (u32_small dv) by done.
  set (w i := home_writes (take i bl) (take i ds)).
  apply (wp_for_range (λ i s', ∃ b A', s' = set_lg_bio b s ∧ (size A' ≤ size A)%nat ∧
    pinned A' (left_pinned recovering (Z.to_nat i)) ∧ bio_rep dv nb b (apply_writes (w (Z.to_nat i)) V) A' ∧
    disk b = apply_writes (w (Z.to_nat i)) (disk (lg_bio s)) ∧
    dwrites b = dwrites (lg_bio s) ++ w (Z.to_nat i))); [lia| | |].
  - exists (lg_bio s), A. simpl. rewrite app_nil_r. split_and!; try done. by destruct s.
  - intros z ? Hz (b & A' & -> & HsA & Hp' & Hb & Ed & Ew). set (i := Z.to_nat z) in *.
    replace z with (Z.of_nat i) in * by lia. clearbody i.
    destruct (lookup_lt_is_Some_2 bl i ltac:(lia)) as [t Ht]. destruct (lookup_lt_is_Some_2 ds i ltac:(lia)) as [d Hd'].
    pose proof (list_elem_of_lookup_2 _ _ _ Ht) as Hin. destruct (bl_range _ _ Hbl t Hin) as [Htr Hto].
    pose proof (bl_len _ _ Hbl) as Hlen. set (f := st + Z.of_nat i + 1).
    assert (∀ n, n ∈ left_pinned recovering i → n ∈ bl) as Hlp.
    { unfold left_pinned. destruct recovering; [by intros n ?%not_elem_of_nil|].
      intros n Hn. rewrite <- (take_drop i bl), elem_of_app. by right. }
    assert (f ∉ bl) as Hfb.
    { intros Hf. destruct (bl_range _ _ Hbl _ Hf) as [_ Ho]. unfold outside in Ho. lia. }
    assert ((w i).*1 = take i bl) as Ew1 by (apply home_writes_fst; rewrite !length_take; lia).
    assert ((f ∉ (w i).*1) ∧ (t ∉ (w i).*1)) as [Hfw Htw].
    { rewrite Ew1. split; [intros (j & Hj & _)%elem_of_take; apply Hfb; by eapply list_elem_of_lookup_2|]. eapply NoDup_not_in_take; [|done]. apply Hbl. }
    assert (A' !! f = None) as HfA by (apply Hp'; auto). assert (u32 f = f) as Ef by (apply slot_range; lia).
    unfold on_lg. wp_auto. rewrite Ef. cbn [lg_bio set_lg_bio].
    eapply wp_mono; [apply (wp_copy_home dv nb recovering b _ A' t f d Hb HfA)|].
    { intros ->. done. }
    { destruct recovering; [left|right; split; [done|lia]]. apply pinned_nil in Hp' as ->. rewrite map_size_empty. lia. }
    { destruct recovering; [apply Hp', not_elem_of_nil|]. apply Hp'. unfold left_pinned. rewrite (drop_S _ _ _ Ht). left. }
    { rewrite apply_writes_other by done. by apply Hslot. }
    { rewrite apply_writes_other by done. by apply Hhome. }
    { rewrite Ed, apply_writes_other by done. by apply Hhome. }
    intros lb b1 H1. wp_auto. eapply wp_read_lh_block; [done|done|]. wp_auto. rewrite (u32_small t) by lia.
    eapply wp_mono; [exact H1|]. intros db b2 H2. wp_auto. eapply wp_mono; [exact H2|]. intros [] b3 H3.
    wp_auto. eapply wp_mono; [exact H3|]. intros [] b4 H4. wp_auto.
    apply wp_if_on_lg. eapply wp_mono; [exact H4|]. intros [] b5 H5. wp_auto. eapply wp_mono; [exact H5|].
    intros [] b6 H6. wp_auto. eapply wp_mono; [exact H6|]. intros [] b7 (H7 & W1 & W2).
    exists b7, (delete t A'). replace (Z.to_nat (Z.of_nat i + 1)) with (S i) by lia.
    assert (w (S i) = w i ++ [(t, d)]) as Ewi.
    { unfold w. rewrite (take_S_r _ _ _ Ht), (take_S_r _ _ _ Hd'). apply home_writes_snoc. rewrite !length_take. lia. }
    rewrite Ewi, !apply_writes_app. simpl. rewrite <- Ed. split_and!; [by destruct s| |by apply pinned_step|done|done|].
    + rewrite map_size_delete. destruct (A' !! t); simpl; lia.
    + by rewrite W2, Ew, <- app_assoc.
  - intros s' (b & A' & -> & _ & Hp' & Hb & Ed & Ew). exists b. unfold w in *.
    rewrite Nat2Z.id in *. rewrite El, firstn_all in *. rewrite <- El, firstn_all in *.
    assert (A' = ∅) as ->; [|done]. apply pinned_nil. unfold left_pinned in Hp'. by rewrite drop_all in Hp'; destruct recovering.
Qed.

(** The header. *)
Lemma wp_store32 b V A n e d off v (Q : unit → bst → Prop) :
  bio_rep dv nb b V A → A !! n = Some e → V !! n = Some d → 0 ≤ off → off + 4 ≤ BSIZE →
  (∀ b', bio_rep dv nb b' (<[n := put32 d off v]> V) A → same_disk b b' → Q tt b') →
  wp (store32 (ac_addr e) off v) Q b.
Proof.
  intros H He Hd H1 H2 HQ. unfold store32. rewrite (proj2 (Z.leb_le _ _)), (proj2 (Z.leb_le _ _)) by lia. simpl.
  pose proof H as (L & _ & H'). destruct (bi_lookup _ _ _ _ _ _ _ H' He) as (x & _ & _ & _ & _ & _ & _ & _ & _ & Hp).
  eapply (wp_update_active _ _ _ _ _ _ _ _ (put32 d off v) (ac_ref e) (ac_held e)); [done|done|lia| |].
  - intros y E1 E2 E3 E4. rewrite Hd in E2. injection E2 as ->. done.
  - intros s' H'' Hs _. apply HQ; [|done]. rewrite (insert_id A) in H''; [done|]. rewrite He. by destruct e.
Qed.

Lemma wp_write_head s V A d0 :
  log_at s → bio_rep dv nb (lg_bio s) V A → A !! st = None → (size A < nb)%nat → V !! st = Some d0 →
  wp write_head (λ _ s', ∃ b, s' = set_lg_bio b s ∧ bio_rep dv nb b (<[st := put_head d0 bl]> V) A ∧
    wrote (lg_bio s) b st (put_head d0 bl)) s.
Proof.
  intros [Hd Hs Hl [D1 D2 D3 D4]] H HA Hsz HV. pose proof (bl_len _ _ Hbl) as Hlen.
  unfold write_head, on_lg. wp_auto. rewrite Hd, Hs, !u32_small by lia. unfold LOGBLOCKS, MAXOPBLOCKS in *.
  eapply wp_mono; [apply (wp_bread dv nb _ V A st d0 H HV); unfold bread_ready; by rewrite HA|].
  intros a b1 (H1 & E1 & _). unfold ref_of in H1. rewrite HA in H1. simpl in H1. set (A1 := <[st := _]> A) in H1.
  set (e := Act a 1 true). assert (A1 !! st = Some e) as He by apply lookup_insert_eq.
  wp_auto. rewrite (proj1 Hl). apply (wp_store32 b1 V A1 st e d0); [done..|unfold BSIZE; lia|]. intros b2 H2 E2. wp_auto.
  set (h := put32 d0 0 (zlen bl)) in *.
  apply (wp_for_range (λ i s', ∃ b, s' = set_lg_bio b s ∧
    bio_rep dv nb b (<[st := put_blocks h 0 (take (Z.to_nat i) bl)]> V) A1 ∧ same_disk (lg_bio s) b)); [lia| | |].
  - exists b2. split_and!; [by destruct s|done|]. by eapply same_disk_trans.
  - intros z ? Hz (b & -> & Hb & Eb). set (i := Z.to_nat z) in *. replace z with (Z.of_nat i) in * by lia. clearbody i.
    destruct (lookup_lt_is_Some_2 bl i ltac:(lia)) as [v Hv]. wp_auto. eapply wp_read_lh_block; [done|done|]. wp_auto.
    eapply (wp_store32 b _ A1 st e); [done|done|apply lookup_insert_eq|unfold head_off; lia|unfold head_off, BSIZE; lia|].
    intros b' Hb' Eb'. exists b'. split; [by destruct s|]. split; [|by eapply same_disk_trans].
    replace (Z.to_nat (Z.of_nat i + 1)) with (S i) by lia.
    rewrite (take_S_r _ _ _ Hv), put_blocks_snoc, length_take_le by lia. by rewrite insert_insert_eq in Hb'.
  - intros s3 (b3 & -> & H3 & E3). rewrite Nat2Z.id, firstn_all in H3. wp_auto. cbn [lg_bio set_lg_bio].
    change (put_blocks h 0 bl) with (put_head d0 bl) in H3.
    assert (is_Some (disk b3 !! st)) as Hdk.
    { rewrite (proj1 E3). specialize (D3 0 ltac:(lia)). by rewrite Z.add_0_r in D3. }
    eapply (wp_bwrite _ _ _ _ _ st e); [done|done|done|done|]. intros d b4 Ed H4 W1 W2.
    rewrite lookup_insert_eq in Ed. injection Ed as <-. wp_auto.
    eapply (wp_brelse _ _ _ _ _ st e); [done|done|done| |].
    { intros _. cbn [lg_bio set_lg_bio]. by rewrite W1, !lookup_insert_eq. }
    intros b5 H5 E5. exists b5. split; [by destruct s|]. split.
    + unfold A1, e in H5. rewrite released_one, delete_id in H5 by done. done.
    + eapply wrote_before; [|exact E5]. eapply wrote_after; [exact E3|]. by split.
Qed.

End Loops.

(** * Recovery *)

(** A system just started: nothing is in use, the cache shows the disk [D]. *)
Record started (dv : Z) (nb : nat) (st : Z) (D : gmap Z block) (s : logst) : Prop := {
  sd_dev : lg_dev s = dv;
  sd_start : lg_start s = st;
  sd_rep : bio_rep dv nb (lg_bio s) D ∅;
  sd_disk : disk (lg_bio s) = D }.

(** [D] is a disk whose log header lists [bl], with contents [ds] in the log. *)
Record on_disk (st : Z) (D : gmap Z block) (bl : list Z) (ds : list block) : Prop := {
  od_head : ∃ d, D !! st = Some d ∧ head_lists d bl;
  od_len : length bl = length ds;
  od_slots : ∀ i d, ds !! i = Some d → D !! (st + Z.of_nat i + 1) = Some d;
  od_homes : ∀ b, b ∈ bl → is_Some (D !! b) }.

Lemma apply_writes_some ws D n : is_Some (D !! n) → is_Some (apply_writes ws D !! n).
Proof.
  revert D. induction ws as [|[m d] ws IH]; intros D H; simpl; [done|]. apply IH.
  destruct (decide (m = n)) as [->|]; [rewrite lookup_insert_eq; eauto|by rewrite lookup_insert_ne].
Qed.

Lemma apply_writes_size ws D : (∀ n d, (n, d) ∈ ws → zlen d = BSIZE) → (∀ n d, D !! n = Some d → zlen d = BSIZE) →
  ∀ n d, apply_writes ws D !! n = Some d → zlen d = BSIZE.
Proof.
  revert D. induction ws as [|[m x] ws IH]; intros D Hw HD; simpl; [done|]. apply IH.
  - intros n d Hn. apply (Hw n). by right.
  - intros n d. destruct (decide (m = n)) as [->|]; [rewrite lookup_insert_eq; intros [= <-]; apply (Hw n); left|].
    rewrite lookup_insert_ne by done. apply HD.
Qed.

Lemma disk_ok_writes st D ws : disk_ok st D → (∀ n d, (n, d) ∈ ws → zlen d = BSIZE) → disk_ok st (apply_writes ws D).
Proof.
  intros [H1 H2 H3 H4] Hw. split; [done|done| |by apply apply_writes_size].
  intros i Hi. by apply apply_writes_some, H3.
Qed.

Section Recovery.

Context (dv : Z) (nb : nat) (st : Z) (D : gmap Z block).

Hypothesis Hdv : 0 ≤ dv < 2 ^ 32.

Hypothesis HD : disk_ok st D.

Hypothesis Hnb : (1 < nb)%nat.

Lemma wp_read_head s bl d :
  started dv nb st D s → blocks_ok st bl → D !! st = Some d → head_lists d bl →
  wp read_head (λ _ s', started dv nb st D s' ∧ lists_blocks s' bl ∧ dwrites (lg_bio s') = dwrites (lg_bio s)) s.
Proof.
  intros [Hd Hs H Hdk] Hbl HV [Hn Hb]. destruct HD as [D1 D2 D3 D4]. pose proof (bl_len _ _ Hbl) as Hlen.
  unfold read_head, on_lg. wp_auto. rewrite Hd, Hs, !u32_small by (unfold LOGBLOCKS, MAXOPBLOCKS in *; lia).
  eapply wp_mono; [apply (wp_bread dv nb _ D ∅ st d H HV); unfold bread_ready; rewrite lookup_empty, map_size_empty; lia|].
  intros a b1 (H1 & E1 & _). simpl in H1. set (e := Act a 1 true) in *. set (A1 := <[st := _]> ∅) in H1.
  assert (A1 !! st = Some e) as He by apply lookup_insert_eq.
  assert (∀ off (Q : Z → bst → Prop), 0 ≤ off → off + 4 ≤ BSIZE → Q (get32 d off) b1 → wp (load32 a off) Q b1) as Hload.
  { intros off Q H2 H3 HQ. unfold load32. wp_auto. eapply (wp_held_data _ _ _ _ _ st e); [done|done|].
    intros x _ Ex _. rewrite HV in Ex. injection Ex as <-.
    rewrite (proj2 (Z.leb_le _ _)), (proj2 (Z.leb_le _ _)) by lia. done. }
  unfold LOGBLOCKS, MAXOPBLOCKS in *.
  wp_auto. apply Hload; [lia|unfold BSIZE; lia|]. wp_auto. rewrite Hn, s32_small by lia.
  apply (wp_for_range (λ i s', lg_bio s' = b1 ∧ lg_dev s' = dv ∧ lg_start s' = st ∧ lh_n s' = zlen bl ∧
    ∀ j b, bl !! j = Some b → Z.of_nat j < i → lh_block s' !! Z.of_nat j = Some b)); [lia| | |].
  - split_and!; try done. intros; lia.
  - intros z s' Hz (<- & Ed & Es & En & Ei). set (i := Z.to_nat z) in *. replace z with (Z.of_nat i) in * by lia. clearbody i.
    destruct (lookup_lt_is_Some_2 bl i ltac:(lia)) as [b Hib]. wp_auto.
    apply Hload; [unfold head_off; lia|unfold head_off, BSIZE; lia|]. wp_auto. rewrite (Hb i b Hib).
    destruct (bl_range _ _ Hbl b) as [Hr _]; [by eapply list_elem_of_lookup_2|]. rewrite s32_small by lia.
    unfold write_lh_block. rewrite (proj2 (Z.leb_le _ _)), (proj2 (Z.ltb_lt _ _)) by (unfold LOGBLOCKS, MAXOPBLOCKS; lia).
    wp_auto. split_and!; try done. intros j b' Hj Hlt. cbn. destruct (decide (j = i)) as [->|Hji].
    + rewrite lookup_insert_eq. congruence.
    + rewrite lookup_insert_ne by lia. apply Ei; [done|lia].
  - intros s' (<- & Ed & Es & En & Ei). wp_auto.
    eapply (wp_brelse _ _ _ _ _ st e); [done|done|done| |].
    { intros _. by rewrite (proj1 E1), Hdk. }
    intros b2 H2 E2. unfold A1, e in H2. rewrite released_one, delete_empty in H2. split_and!.
    + split; try done. cbn. by rewrite (proj1 E2), (proj1 E1).
    + split; [done|]. intros i b Hi. apply Ei; [done|]. apply lookup_lt_Some in Hi. lia.
    + cbn. by rewrite (proj2 E2), (proj2 E1).
Qed.

Lemma wp_recover s bl ds :
  started dv nb st D s → blocks_ok st bl → on_disk st D bl ds →
  wp recover_from_log (λ _ s', (∃ d, started dv nb st (<[st := put_head d []]> (apply_writes (home_writes bl ds) D)) s' ∧
      D !! st = Some d) ∧ lh_n s' = 0) s.
Proof.
  intros Hsd Hbl [(d & Hd & Hhl) Hlen Hslots Hhomes]. unfold recover_from_log. wp_auto.
  eapply wp_mono; [by eapply wp_read_head|]. intros [] s1 (Hsd1 & Hl1 & _). destruct Hsd1 as [E1 E2 E3 E4]. wp_auto.
  eapply wp_mono; [apply (wp_install_trans dv nb st bl Hdv Hbl true s1 D ∅ ds); try done|].
  { split; try done. by rewrite E4. }
  { split; [by intros b ?%not_elem_of_nil|]. intros n _. apply lookup_empty. }
  { intros b Hb. rewrite E4. auto. }
  intros [] s2 (b2 & -> & H2 & W1 & W2). wp_auto. set (s3 := set_lh_n 0 _).
  assert (apply_writes (home_writes bl ds) D !! st = Some d) as Hd'.
  { rewrite apply_writes_other; [done|]. rewrite home_writes_fst by done. intros Hin.
    destruct (bl_range _ _ Hbl _ Hin) as [_ Ho]. unfold outside, LOGBLOCKS, MAXOPBLOCKS in Ho. lia. }
  eapply wp_mono; [apply (wp_write_head dv nb st [] Hdv)|].
  - split; [apply NoDup_nil_2|done|by intros ? ?%not_elem_of_nil].
  - split; try done. cbn. rewrite W1, E4. apply disk_ok_writes; [done|]. intros n x Hin.
    apply elem_of_zip_r in Hin. apply list_elem_of_lookup in Hin as [i Hi]. by apply (dk_size _ _ HD _ _ (Hslots i x Hi)).
  - exact H2.
  - apply lookup_empty.
  - rewrite map_size_empty. lia.
  - exact Hd'.
  - intros [] s4 (b4 & -> & H4 & W3 & W4). split; [|done]. exists d. split; [|done]. split; try done.
    cbn. rewrite W3. cbn. by rewrite W1, E4.
Qed.

End Recovery.

(** * Crashes *)

(** Everything a commit writes, in order. *)
Definition commit_writes (st : Z) (bl : list Z) (ds : list block) (h1 h2 : block) : list (Z * block) :=
  log_writes st ds ++ (st, h1) :: home_writes bl ds ++ [(st, h2)].

Lemma take_commit_writes st bl ds h1 h2 k :
  take k (commit_writes st bl ds h1 h2) = take k (log_writes st ds) ∨
  (∃ j, take k (commit_writes st bl ds h1 h2) = log_writes st ds ++ (st, h1) :: take j (home_writes bl ds)) ∨
  take k (commit_writes st bl ds h1 h2) = commit_writes st bl ds h1 h2.
Proof.
  unfold commit_writes. set (w1 := log_writes st ds). set (w2 := home_writes bl ds).
  rewrite take_app. destruct (decide (k ≤ length w1)%nat) as [Hk|Hk].
  { left. replace (k - length w1)%nat with 0%nat by lia. simpl. by rewrite app_nil_r. }
  right. rewrite (take_ge w1) by lia. destruct (k - length w1)%nat as [|j] eqn:Ej; [lia|]. simpl. rewrite take_app.
  destruct (decide (j ≤ length w2)%nat) as [Hj|Hj]; [left|right].
  - exists j. replace (j - length w2)%nat with 0%nat by lia. simpl. by rewrite app_nil_r.
  - rewrite (take_ge w2) by lia. destruct (j - length w2)%nat eqn:E; [lia|]. simpl. by rewrite take_nil.
Qed.

Section Crash.

Context (st : Z) (bl : list Z) (ds : list block) (D V : gmap Z block) (d0 : block).

Hypothesis HD : disk_ok st D.

Hypothesis Hbl : blocks_ok st bl.

Hypothesis Hds : holds V bl ds.

Hypothesis Hsize : ∀ d, d ∈ ds → zlen d = BSIZE.

Hypothesis Hclean : ∀ n, n ∉ bl → V !! n = D !! n.

Hypothesis Hhomes : ∀ b, b ∈ bl → is_Some (D !! b).

Hypothesis Hd0 : D !! st = Some d0.

Hypothesis Hempty : head_lists d0 [].

Let h1 : block := put_head d0 bl.

Let h2 : block := put_head h1 [].

Lemma outside_st n : outside st n → n ≠ st.
Proof. unfold outside, LOGBLOCKS, MAXOPBLOCKS. lia. Qed.

Lemma take_log_other k X n : outside st n ∨ n = st → apply_writes (take k (log_writes st ds)) X !! n = X !! n.
Proof.
  intros Hn. apply apply_writes_other. intros Hin. rewrite fmap_take in Hin.
  apply elem_of_take in Hin as (i & Hi%list_elem_of_lookup_2%log_writes_elem & _).
  pose proof (bl_len _ _ Hbl) as Hlen. rewrite (holds_length _ _ _ Hds) in Hlen. destruct Hn as [[?|?]|?]; lia.
Qed.

Lemma log_other X n : outside st n ∨ n = st → apply_writes (log_writes st ds) X !! n = X !! n.
Proof. intros Hn. rewrite <- (firstn_all (log_writes st ds)). by apply take_log_other. Qed.

Lemma home_result X n : (n ∉ bl → X !! n = D !! n) → apply_writes (home_writes bl ds) X !! n = V !! n.
Proof.
  intros HX. pose proof (holds_length _ _ _ Hds) as El. destruct (decide (n ∈ bl)) as [Hin|Hni].
  - apply list_elem_of_lookup in Hin as [i Hi]. destruct (Forall2_lookup_l _ _ _ _ _ Hds Hi) as (d & Hd & ->).
    apply (apply_writes_in _ _ i); [rewrite home_writes_fst by done; apply Hbl|].
    unfold home_writes. by rewrite lookup_zip_with, Hi, Hd.
  - rewrite apply_writes_other by (by rewrite home_writes_fst). rewrite HX by done. by rewrite Hclean.
Qed.

Lemma take_home_other j X n : n ∉ bl → apply_writes (take j (home_writes bl ds)) X !! n = X !! n.
Proof.
  intros Hn. apply apply_writes_other. intros Hin. apply Hn.
  rewrite fmap_take, home_writes_fst in Hin by (by eapply holds_length).
  apply elem_of_take in Hin as (i & Hi & _). by eapply list_elem_of_lookup_2.
Qed.

Lemma not_logged n : (st ≤ n ≤ st + LOGBLOCKS) → n ∉ bl.
Proof. intros Hn Hin. destruct (bl_range _ _ Hbl _ Hin) as [_ Ho]. unfold outside in Ho. lia. Qed.

Lemma h1_lists : zlen h1 = BSIZE ∧ head_lists h1 bl.
Proof.
  assert (zlen d0 = BSIZE) as E by (by apply (dk_size _ _ HD st)). unfold h1. rewrite length_put_head. split; [done|].
  apply put_head_lists; [done|apply Hbl|]. intros b Hb. destruct (bl_range _ _ Hbl b Hb). lia.
Qed.

(** The disk after a crash: a log without a transaction and the old contents,
    the transaction in the log, or the new contents. *)
Lemma crash_cases k : ∃ bl' ds', let Dk := apply_writes (take k (commit_writes st bl ds h1 h2)) D in
  on_disk st Dk bl' ds' ∧ blocks_ok st bl' ∧
  ((∀ n, outside st n → apply_writes (home_writes bl' ds') Dk !! n = D !! n) ∨
   (∀ n, outside st n → apply_writes (home_writes bl' ds') Dk !! n = V !! n)).
Proof.
  assert (blocks_ok st []) as Hnil by (split; [apply NoDup_nil_2|done|by intros ? ?%not_elem_of_nil]).
  pose proof (holds_length _ _ _ Hds) as El. pose proof (bl_len _ _ Hbl) as Hlen. destruct h1_lists as [Hh1 Hl1].
  destruct (take_commit_writes st bl ds h1 h2 k) as [E|[[j E]|E]]; rewrite E; clear E; cbv zeta.
  - exists [], []. split_and!; [|done|left; intros n Hn; by apply take_log_other; left].
    split; [|done|done|by intros ? ?%not_elem_of_nil]. exists d0. split; [|done]. rewrite take_log_other; auto.
  - exists bl, ds. rewrite apply_writes_app. simpl. split_and!; [|done|right].
    + split; [|done| |].
      * exists h1. split; [|done]. rewrite take_home_other by (apply not_logged; lia). apply lookup_insert_eq.
      * intros i d Hi. pose proof (lookup_lt_Some _ _ _ Hi). rewrite take_home_other by (apply not_logged; lia).
        rewrite lookup_insert_ne by lia. by apply log_writes_lookup.
      * intros b Hb. apply (apply_writes_some _ (<[st := h1]> _)), (apply_writes_some [(st, h1)]), apply_writes_some. auto.
    + intros n Hn. apply home_result. intros Hni. rewrite take_home_other by done.
      rewrite lookup_insert_ne by (by apply not_eq_sym, outside_st). apply log_other. auto.
  - exists [], []. unfold commit_writes. rewrite apply_writes_app. simpl. rewrite apply_writes_app. simpl. split_and!; [|done|right].
    + split; [|done|done|by intros ? ?%not_elem_of_nil]. exists h2. rewrite lookup_insert_eq. split; [done|].
      apply put_head_lists; [done|done|by intros ? ?%not_elem_of_nil].
    + intros n Hn. pose proof (outside_st n Hn). rewrite lookup_insert_ne by done. apply home_result. intros Hni.
      rewrite lookup_insert_ne by done. apply log_other. auto.
Qed.

End Crash.

(** A transaction ready to commit: the blocks [bl] it changed are pinned in
    the cache, which shows [V]; the log on disk is empty. *)
Record txn (dv : Z) (nb : nat) (st : Z) (bl : list Z) (V : gmap Z block) (s : logst) : Prop := {
  tx_dev : 0 ≤ dv < 2 ^ 32;
  tx_log : log_at dv st bl s;
  tx_blocks : blocks_ok st bl;
  tx_room : (S (length bl) < nb)%nat;
  tx_rep : ∃ A, bio_rep dv nb (lg_bio s) V A ∧ pinned A bl;
  tx_size : ∀ n d, V !! n = Some d → zlen d = BSIZE;
  tx_homes : ∀ b, b ∈ bl → is_Some (disk (lg_bio s) !! b);
  tx_empty : ∃ d, disk (lg_bio s) !! st = Some d ∧ head_lists d [] }.

Lemma pinned_size A bl : NoDup bl → pinned A bl → (size A ≤ length bl)%nat.
Proof.
  intros Hnd [_ Hn]. rewrite <- size_dom. transitivity (size (list_to_set bl : gset Z)).
  - apply subseteq_size. intros n Hd%elem_of_dom. apply elem_of_list_to_set.
    destruct (decide (n ∈ bl)) as [?|Hni]; [done|]. rewrite (Hn n Hni) in Hd. by destruct Hd.
  - by rewrite size_list_to_set.
Qed.

Lemma txn_contents dv nb st bl V s : txn dv nb st bl V s → ∃ ds, holds V bl ds.
Proof.
  intros [_ _ _ _ (A & (L & _ & H) & [Hp _]) _ _ _].
  assert (∀ b, b ∈ bl → ∃ d, V !! b = Some d) as Hd.
  { intros b Hb. destruct (Hp b Hb) as [a Ha].
    destruct (bi_lookup _ _ _ _ _ _ _ H Ha) as (x & _ & _ & _ & _ & _ & Hx & _). eauto. }
  unfold holds. clear Hp. induction bl as [|b bl IH]; [exists []; constructor|].
  destruct (Hd b) as [d Hb]; [left|]. destruct IH as [ds Hds]; [intros; apply Hd; by right|].
  exists (d :: ds). by constructor.
Qed.

Section Commit.

Context (dv : Z) (nb : nat) (st : Z) (bl : list Z) (V : gmap Z block) (s : logst) (ds : list block) (d0 : block).

Hypothesis Htx : txn dv nb st bl V s.

Hypothesis Hds : holds V bl ds.

Hypothesis Hd0 : disk (lg_bio s) !! st = Some d0.

Let h1 : block := put_head d0 bl.

Lemma contents_size d : d ∈ ds → zlen d = BSIZE.
Proof.
  intros Hd. apply list_elem_of_lookup in Hd as [i Hi].
  destruct (Forall2_lookup_r _ _ _ _ _ Hds Hi) as (b & _ & Hb). by eapply (tx_size _ _ _ _ _ _ Htx).
Qed.

Lemma log_writes_size n d : (n, d) ∈ log_writes st ds → zlen d = BSIZE.
Proof.
  intros Hin. apply contents_size. apply list_elem_of_lookup in Hin as [i Hi]. unfold log_writes in Hi.
  rewrite list_lookup_imap in Hi. destruct (ds !! i) eqn:E; [|done]. injection Hi as _ <-. by eapply list_elem_of_lookup_2.
Qed.

Lemma home_writes_size n d : (n, d) ∈ home_writes bl ds → zlen d = BSIZE.
Proof. intros Hin. apply contents_size. by eapply elem_of_zip_r. Qed.

Lemma h1_size : zlen h1 = BSIZE.
Proof. unfold h1. rewrite length_put_head. by apply (dk_size _ _ (la_disk _ _ _ _ (tx_log _ _ _ _ _ _ Htx)) st). Qed.

Lemma st_unused A : pinned A bl → A !! st = None.
Proof.
  intros Hp. apply Hp. eapply not_logged; [apply Htx|]. unfold LOGBLOCKS, MAXOPBLOCKS. lia.
Qed.

Lemma log_writes_st X : apply_writes (log_writes st ds) X !! st = X !! st.
Proof. eapply log_other; [apply Htx|exact Hds|by right]. Qed.

(** Up to the commit point. *)
Lemma wp_commit_log A :
  bio_rep dv nb (lg_bio s) V A → pinned A bl →
  wp (_ ← write_log; write_head) (λ _ s', ∃ b, s' = set_lg_bio b s ∧
    bio_rep dv nb b (<[st := h1]> (apply_writes (log_writes st ds) V)) A ∧
    disk b = <[st := h1]> (apply_writes (log_writes st ds) (disk (lg_bio s))) ∧
    dwrites b = dwrites (lg_bio s) ++ log_writes st ds ++ [(st, h1)]) s.
Proof.
  intros H Hp. pose proof Htx as [Hdv Hla Hbl Hroom _ _ _ _]. pose proof Hla as [L1 L2 L3 L4].
  pose proof (pinned_size _ _ (bl_nodup _ _ Hbl) Hp) as HsA. pose proof (st_unused A Hp) as HAst. wp_auto.
  eapply wp_mono; [apply (wp_write_log dv nb st bl Hdv Hbl s V A ds); try done; lia|].
  intros [] s1 (b1 & -> & H1 & D1 & W1).
  eapply wp_mono; [apply (wp_write_head dv nb st bl Hdv Hbl (set_lg_bio b1 s) (apply_writes (log_writes st ds) V) A d0)|].
  - split; try done. cbn. rewrite D1. apply disk_ok_writes; [done|]. apply log_writes_size.
  - exact H1.
  - done.
  - lia.
  - by rewrite log_writes_st, (bio_clean _ _ _ _ _ _ H HAst).
  - intros [] s2 (b2 & -> & H2 & D2 & W2). exists b2. split; [by destruct s|]. split; [done|].
    cbn in D2, W2. rewrite D2, D1, W2, W1. by rewrite <- app_assoc.
Qed.

(** After it. *)
Lemma wp_commit_install b A :
  pinned A bl → bio_rep dv nb b (<[st := h1]> (apply_writes (log_writes st ds) V)) A →
  disk b = <[st := h1]> (apply_writes (log_writes st ds) (disk (lg_bio s))) →
  wp (_ ← install_trans false; _ ← modify (set_lh_n 0); write_head) (λ _ s', ∃ b', s' = set_lh_n 0 (set_lg_bio b' s) ∧
    bio_rep dv nb b' (<[st := put_head h1 []]> (apply_writes (home_writes bl ds) (<[st := h1]> (apply_writes (log_writes st ds) V)))) ∅ ∧
    disk b' = <[st := put_head h1 []]> (apply_writes (home_writes bl ds) (disk b)) ∧
    dwrites b' = dwrites b ++ home_writes bl ds ++ [(st, put_head h1 [])]) (set_lg_bio b s).
Proof.
  intros Hp H Db. pose proof Htx as [Hdv Hla Hbl Hroom _ _ Hh _]. pose proof Hla as [L1 L2 L3 L4].
  pose proof (pinned_size _ _ (bl_nodup _ _ Hbl) Hp) as HsA. pose proof (holds_length _ _ _ Hds) as El. pose proof (bl_len _ _ Hbl).
  assert (disk_ok st (disk b)) as Hok.
  { rewrite Db. apply (disk_ok_writes st _ [(st, h1)]); [by apply disk_ok_writes, log_writes_size|].
    intros n d [= -> ->]%list_elem_of_singleton. apply h1_size. }
  assert (apply_writes (home_writes bl ds) (<[st := h1]> (apply_writes (log_writes st ds) V)) !! st = Some h1) as Hst.
  { rewrite apply_writes_other; [apply lookup_insert_eq|]. rewrite home_writes_fst by done.
    eapply not_logged; [done|]. unfold LOGBLOCKS, MAXOPBLOCKS. lia. }
  assert (log_at dv st bl (set_lg_bio b s)) as Hla' by (by split).
  wp_auto. eapply wp_mono; [apply (wp_install_trans dv nb st bl Hdv Hbl false _ _ A ds Hla' H Hp); [lia|done| |]|].
  - intros i d Hi. rewrite lookup_insert_ne by lia. by apply log_writes_lookup.
  - intros x Hx. destruct (bl_range _ _ Hbl x Hx) as [_ Ho]. pose proof (outside_st st x Ho).
    destruct (proj1 Hp x Hx) as [a Ha]. pose proof H as (L & _ & H'). split.
    + destruct (bi_lookup _ _ _ _ _ _ _ H' Ha) as (y & _ & _ & _ & _ & _ & -> & _). eauto.
    + cbn. rewrite Db. apply (apply_writes_some [(st, h1)]), apply_writes_some. auto.
  - intros [] s2 (b2 & -> & H2 & D2 & W2). cbn in D2, W2. wp_auto.
    eapply wp_mono; [eapply (wp_write_head dv nb st [] Hdv)|].
    + split; [apply NoDup_nil_2|done|by intros ? ?%not_elem_of_nil].
    + split; try done. cbn. rewrite D2. apply disk_ok_writes; [done|]. apply home_writes_size.
    + exact H2.
    + apply lookup_empty.
    + rewrite map_size_empty. lia.
    + exact Hst.
    + intros [] s3 (b3 & -> & H3 & D3 & W3). exists b3. split; [by destruct s|]. split; [done|].
      cbn in D3, W3. by rewrite D3, D2, W3, W2, <- app_assoc.
Qed.

End Commit.

Lemma commit_writes_size dv nb st bl V s ds d0 k :
  txn dv nb st bl V s → holds V bl ds → disk (lg_bio s) !! st = Some d0 →
  ∀ n d, (n, d) ∈ take k (commit_writes st bl ds (put_head d0 bl) (put_head (put_head d0 bl) [])) → zlen d = BSIZE.
Proof.
  intros Htx Hds Hd0 n d (i & Hi%list_elem_of_lookup_2 & _)%elem_of_take. unfold commit_writes in Hi.
  pose proof (h1_size _ _ _ _ _ _ _ Htx Hd0) as E. apply elem_of_app in Hi as [Hi|Hi].
  { by eapply (log_writes_size _ _ _ _ _ _ _ Htx Hds). }
  apply elem_of_cons in Hi as [[= -> ->]|Hi]; [done|]. apply elem_of_app in Hi as [Hi|Hi].
  { by eapply (home_writes_size _ _ _ _ _ _ _ Htx Hds). }
  apply list_elem_of_singleton in Hi as [= -> ->]. by rewrite length_put_head.
Qed.

(** * A concrete transaction *)

(** A disk of 41 zeroed blocks; the log starts at block 2. *)
Definition zeros : block := replicate 1024 0.

Definition example_disk : gmap Z block := list_to_map ((λ n, (n, zeros)) <$> seqZ 0 41).

Lemma example_disk_lookup n : 0 ≤ n < 41 → example_disk !! n = Some zeros.
Proof.
  intros Hn. apply elem_of_list_to_map_1.
  - rewrite <- list_fmap_compose, (list_fmap_id (seqZ 0 41) : (fst ∘ λ n, (n, zeros)) <$> seqZ 0 41 = _). apply NoDup_seqZ.
  - apply list_elem_of_fmap. exists n. split; [done|]. apply elem_of_seqZ. lia.
Qed.

Lemma example_disk_inv n d : example_disk !! n = Some d → d = zeros.
Proof. intros H%elem_of_list_to_map_2. apply list_elem_of_fmap in H as (m & [= _ ->] & _). done. Qed.

Lemma example_disk_ok : disk_ok 2 example_disk.
Proof.
  split; [done|unfold LOGBLOCKS, MAXOPBLOCKS; lia| |].
  - intros i Hi. exists zeros. apply example_disk_lookup. unfold LOGBLOCKS, MAXOPBLOCKS in Hi. lia.
  - intros n d ->%example_disk_inv. unfold zeros. by rewrite length_replicate.
Qed.

(** A system call has changed block 40 and logged it. *)
Definition new_block : block := put32 zeros 0 7.

Lemma example_txn : ∃ s, txn 1 3 2 [40] (<[40 := new_block]> example_disk) s.
Proof.
  assert (wp (bread 1 40) (λ a b, wp (update_buf a (set_data new_block)) (λ _ b, wp (bpin a) (λ _ b, wp (brelse a)
    (λ _ b, bio_rep 1 3 b (<[40 := new_block]> example_disk) {[40 := Act a 1 false]} ∧ disk b = example_disk) b) b) b)
    (example_cache example_disk)) as Hwp.
  { eapply wp_mono; [apply (wp_bread 1 3 _ example_disk ∅ 40 zeros (example_cache_rep _))|].
    - by apply example_disk_lookup.
    - unfold bread_ready. rewrite lookup_empty, map_size_empty. lia.
    - intros a b1 (H1 & [E1 _] & _). change (ref_of ∅ 40 + 1) with 1 in H1.
      eapply (wp_set_data _ _ _ _ _ 40 (Act a 1 true)); [exact H1|apply lookup_insert_eq|]. intros b2 H2 [E2 _].
      eapply (wp_bpin _ _ _ _ _ 40 (Act a 1 true)); [exact H2|apply lookup_insert_eq|simpl; lia|]. intros b3 H3 [E3 _].
      rewrite insert_insert_eq in H3. eapply (wp_brelse _ _ _ _ _ 40 (Act a 2 true)); [exact H3|apply lookup_insert_eq|done|done|].
      intros b4 H4 [E4 _]. unfold released in H4. cbn in H4. rewrite insert_insert_eq in H4.
      split; [exact H4|]. by rewrite E4, E3, E2, E1. }
  apply wp_Ok in Hwp as (a & b1 & _ & Hwp). apply wp_Ok in Hwp as ([] & b2 & _ & Hwp).
  apply wp_Ok in Hwp as ([] & b3 & _ & Hwp). apply wp_Ok in Hwp as ([] & b & _ & H & Ed).
  exists (LogSt b false 2 0 true 1 1 {[0 := 40]}). split; cbn.
  - lia.
  - split; cbn; try done; [|by rewrite Ed; apply example_disk_ok]. split; [done|].
    intros [|i] x Hx; [by injection Hx as <-|done].
  - split; [apply NoDup_singleton|done|]. intros x ->%list_elem_of_singleton. unfold outside, LOGBLOCKS, MAXOPBLOCKS. lia.
  - lia.
  - exists {[40 := Act a 1 false]}. split; [done|]. split.
    + intros x ->%list_elem_of_singleton. exists a. apply lookup_singleton_eq.
    + intros n Hn. apply lookup_singleton_ne. intros <-. apply Hn. left.
  - intros n d. destruct (decide (n = 40)) as [->|].
    + rewrite lookup_insert_eq. intros [= <-]. unfold new_block, zeros. by rewrite length_put32, length_replicate.
    + rewrite lookup_insert_ne by done. apply example_disk_ok.
  - intros x ->%list_elem_of_singleton. rewrite Ed, example_disk_lookup by lia. by eexists.
  - exists zeros. rewrite Ed, example_disk_lookup by lia. split; [done|]. split; [by vm_compute|]. by intros i x Hx.
Qed.

(** C14: [commit] is atomic.  It returns with the blocks of the transaction on
    the disk and an empty log.  Stopping it after any number of its disk
    writes and running [recover_from_log] on a system started on the disk as
    it then is restores either the old contents of every block outside the
    log, or the new contents of every block. *)
Theorem commit_atomic dv nb st bl V s :
  txn dv nb st bl V s →
  wp commit (λ _ s', lh_n s' = 0 ∧ (∀ n, outside st n → disk (lg_bio s') !! n = V !! n) ∧
    ∃ ws, dwrites (lg_bio s') = dwrites (lg_bio s) ++ ws ∧
      ∀ k r, started dv nb st (apply_writes (take k ws) (disk (lg_bio s))) r →
        wp recover_from_log (λ _ r',
          (∀ n, outside st n → disk (lg_bio r') !! n = disk (lg_bio s) !! n) ∨
          (∀ n, outside st n → disk (lg_bio r') !! n = V !! n)) r) s.
Proof.
  intros Htx. destruct (txn_contents _ _ _ _ _ _ Htx) as [ds Hds].
  pose proof Htx as [Hdv [_ _ [Hn _] Hok] Hbl Hroom (A & H & Hp) Hsz Hh (d0 & Hd0 & Hhl)].
  assert (∀ n, n ∉ bl → V !! n = disk (lg_bio s) !! n) as Hclean by (intros n Hni; by eapply bio_clean, Hp).
  pose proof (crash_cases st bl ds (disk (lg_bio s)) V d0 Hok Hbl Hds Hclean Hh Hd0 Hhl) as Hcrash.
  set (ws := commit_writes st bl ds (put_head d0 bl) (put_head (put_head d0 bl) [])) in *.
  assert (∀ k r, started dv nb st (apply_writes (take k ws) (disk (lg_bio s))) r →
    wp recover_from_log (λ _ r', (∀ n, outside st n → disk (lg_bio r') !! n = disk (lg_bio s) !! n) ∨
      (∀ n, outside st n → disk (lg_bio r') !! n = V !! n)) r) as Hrec.
  { intros k r Hr. destruct (Hcrash k) as (bl' & ds' & Hod & Hbl' & Hc). fold ws in Hod, Hc. cbv zeta in Hod, Hc.
    assert (disk_ok st (apply_writes (take k ws) (disk (lg_bio s)))) as Hok' by (by eapply disk_ok_writes, commit_writes_size).
    eapply wp_mono; [by apply (wp_recover dv nb st _ Hdv Hok' ltac:(lia) r bl' ds')|].
    intros [] r' [(d & [_ _ _ Er] & _) _]. rewrite Er.
    destruct Hc as [Hc|Hc]; [left|right]; intros n Hn'; rewrite lookup_insert_ne by (by apply not_eq_sym, (outside_st st)); by apply Hc. }
  destruct (decide (bl = [])) as [->|Hne].
  - unfold commit. wp_auto. rewrite Hn. wp_auto. split; [done|]. split.
    + intros n _. rewrite Hclean; [done|]. apply not_elem_of_nil.
    + exists []. rewrite app_nil_r. split; [done|]. intros k r. rewrite take_nil. apply (Hrec 0%nat).
  - unfold commit. wp_auto. rewrite Hn, (proj2 (Z.ltb_lt _ _)) by (destruct bl; [done|simpl; lia]).
    apply wp_bind_group, wp_bind. eapply wp_mono; [by apply (wp_commit_log dv nb st bl V s ds d0 Htx Hds Hd0 A)|].
    intros [] s1 (b1 & -> & H1 & D1 & W1).
    eapply wp_mono; [by apply (wp_commit_install dv nb st bl V s ds d0 Htx Hds Hd0 b1 A)|].
    intros [] s2 (b2 & -> & _ & D2 & W2). split; [done|]. cbn.
    assert (disk b2 = apply_writes ws (disk (lg_bio s))) as Ed.
    { unfold ws, commit_writes. rewrite apply_writes_app. simpl. rewrite apply_writes_app. simpl. by rewrite D2, D1. }
    split.
    + intros n Hn'. rewrite Ed.
      unfold ws, commit_writes. rewrite apply_writes_app. simpl. rewrite apply_writes_app. simpl.
      pose proof (outside_st st n Hn'). rewrite lookup_insert_ne by done. eapply home_result; [done|done|exact Hclean|].
      intros Hni. rewrite lookup_insert_ne by done. eapply log_other; [done|done|by left].
    + exists ws. rewrite W2, W1. unfold ws, commit_writes. by rewrite <- !app_assoc.
Qed.

Lemma commit_atomic_witness :
  ∃ s, wp commit (λ _ s', lh_n s' = 0 ∧ ∀ n, outside 2 n → disk (lg_bio s') !! n = (<[40 := new_block]> example_disk) !! n) s.
Proof.
  destruct example_txn as [s Hs]. exists s. eapply wp_mono; [exact (commit_atomic _ _ _ _ _ _ Hs)|].
  intros [] s' (H1 & H2 & _). exact (conj H1 H2).
Defined.
