(* ===== verification/LogSteps.v ===== *)
(** Several processes use the log at once: each critical section of
    kernel/log.c is one step.  The reservation made by [begin_op] keeps
    [log_write] from running out of log space; a process that waits for space
    is never woken. *)

From S2P Require Import Prelude.
From S2P Require Import Bio.
From S2P Require Import Log.

(** * Processes *)

(** Where a process is: outside any operation, asleep in [begin_op], inside an
    operation that has logged [w] new blocks, or in [end_op], before and after
    its commit. *)
Inductive opstate : Set :=
  | Out
  | Asleep (c : chan)
  | InOp (w : Z)
  | Committing
  | Committed.

#[export] Instance chan_eq_dec : EqDecision chan.
Proof. solve_decision. Defined.

Record sys := Sys {
  lg : logst;
  ops : list opstate }.

(** [wakeup(c)]: the sleepers go round the loop of [begin_op] again. *)
Definition wake (c : option chan) (o : opstate) : opstate :=
  match o, c with
  | Asleep c1, Some c2 => if decide (c1 = c2) then Out else o
  | _, _ => o
  end.

Definition begun (r : option chan) : opstate :=
  match r with
  | None => InOp 0
  | Some c => Asleep c
  end.

Inductive sysstep : sys → sys → Prop :=
  | step_begin p s s' l r :
      l !! p = Some Out → begin_op_try s = Ok (r, s') →
      sysstep (Sys s l) (Sys s' (<[p := begun r]> l))
  | step_write p w b s s' l :
      l !! p = Some (InOp w) → w < MAXOPBLOCKS → log_write b s = Ok (tt, s') →
      sysstep (Sys s l) (Sys s' (<[p := InOp (w + (lh_n s' - lh_n s))]> l))
  | step_end p w s s' l (commits : bool) c :
      l !! p = Some (InOp w) → end_op_enter s = Ok ((commits, c), s') →
      sysstep (Sys s l) (Sys s' (wake c <$> <[p := if commits then Committing else Out]> l))
  | step_commit p s s' l :
      l !! p = Some Committing → commit s = Ok (tt, s') →
      sysstep (Sys s l) (Sys s' (<[p := Committed]> l))
  | step_leave p s s' l c :
      l !! p = Some Committed → end_op_leave s = Ok (c, s') →
      sysstep (Sys s l) (Sys s' (wake c <$> <[p := Out]> l)).

Definition reachable (s : sys) : sys → Prop := rtc sysstep s.

(** An idle log and [n] processes outside any operation. *)
Definition idle_log (s : logst) : Prop :=
  lg_lock s = false ∧ outstanding s = 0 ∧ committing s = false ∧ lh_n s = 0.

Definition idle_sys (s : logst) (n : nat) : sys := Sys s (replicate n Out).

(** * Counting *)

Fixpoint zsum (f : opstate → Z) (l : list opstate) : Z :=
  match l with
  | [] => 0
  | o :: l' => f o + zsum f l'
  end.

Lemma zsum_insert f l p o o' : l !! p = Some o → zsum f (<[p := o']> l) = zsum f l - f o + f o'.
Proof.
  revert p. induction l as [|x l IH]; intros [|p] Hp; simpl in *; try done.
  - injection Hp as ->. lia.
  - rewrite (IH p Hp). lia.
Qed.

Lemma zsum_wake f c l : (∀ o, f (wake c o) = f o) → zsum f (wake c <$> l) = zsum f l.
Proof. intros Hf. induction l as [|x l IH]; csimpl; [done|]. by rewrite Hf, IH. Qed.

Lemma zsum_replicate f n : f Out = 0 → zsum f (replicate n Out) = 0.
Proof. intros Hf. induction n as [|n IH]; simpl; [done|]. by rewrite Hf, IH. Qed.

Lemma zsum_lookup f l p o : (∀ o, o ∈ l → 0 ≤ f o) → l !! p = Some o → f o ≤ zsum f l ∧ 0 ≤ zsum f l.
Proof.
  revert p. induction l as [|x l IH]; intros p Hf Hp; [done|].
  assert (0 ≤ f x) by (apply Hf; left). assert (∀ o, o ∈ l → 0 ≤ f o) as Hf' by (intros; apply Hf; by right).
  assert (0 ≤ zsum f l).
  { clear - Hf'. induction l as [|y l IH]; simpl; [done|].
    assert (0 ≤ f y) by (apply Hf'; left). assert (0 ≤ zsum f l) by (apply IH; intros; apply Hf'; by right). lia. }
  destruct p as [|p]; simpl in *; [injection Hp as ->; lia|]. destruct (IH p Hf' Hp). lia.
Qed.

Definition in_op (o : opstate) : Z := match o with InOp _ => 1 | _ => 0 end.

(** The blocks an operation may still log. *)
Definition room (o : opstate) : Z := match o with InOp w => MAXOPBLOCKS - w | _ => 0 end.

Lemma in_op_wake c o : in_op (wake c o) = in_op o.
Proof. destruct o, c; simpl; try done. by case_decide. Qed.

Lemma room_wake c o : room (wake c o) = room o.
Proof. destruct o, c; simpl; try done. by case_decide. Qed.

(** * What the critical sections do to the counters *)

(** The fields of the log other than the cache and the block list. *)
Definition same_counts (s s' : logst) : Prop :=
  lg_lock s' = lg_lock s ∧ outstanding s' = outstanding s ∧ committing s' = committing s ∧ lh_n s' = lh_n s.

#[local] Instance same_counts_preorder : PreOrder same_counts.
Proof. split; [done|]. intros s1 s2 s3 (H1 & H2 & H3 & H4) (H5 & H6 & H7 & H8). split_and!; congruence. Qed.

Lemma keeps_on_lg {A} (m : prog bst A) : keeps same_counts (on_lg m).
Proof. by apply keeps_zoom. Qed.

Lemma keeps_read_lh_block i : keeps same_counts (read_lh_block i).
Proof. unfold read_lh_block. keeps_auto. Qed.

Ltac keeps_log := repeat first [apply keeps_on_lg | apply keeps_read_lh_block | progress keeps_auto].

Lemma keeps_write_log : keeps same_counts write_log.
Proof. unfold write_log. keeps_log. Qed.

Lemma keeps_install_trans r : keeps same_counts (install_trans r).
Proof. unfold install_trans. keeps_log. Qed.

Lemma keeps_write_head : keeps same_counts write_head.
Proof. unfold write_head. keeps_log. Qed.

Lemma bind_Ok {S A B} (m : prog S A) (f : A → prog S B) s b s' :
  (m ≫= f) s = Ok (b, s') → ∃ a s1, m s = Ok (a, s1) ∧ f a s1 = Ok (b, s').
Proof. unfold mbind, prog_bind. destruct (m s) as [[a s1]| | |]; [|done..]. eauto. Qed.

Lemma commit_counts s s' : commit s = Ok (tt, s') →
  lg_lock s' = lg_lock s ∧ outstanding s' = outstanding s ∧ committing s' = committing s ∧
  lh_n s' = Z.min 0 (lh_n s).
Proof.
  unfold commit. intros H. apply bind_Ok in H as (x & s1 & [= <- <-] & H).
  destruct (Z.ltb_spec 0 (lh_n s)) as [Hn|Hn]; [|injection H as <-; split_and!; try done; lia].
  apply bind_Ok in H as ([] & s1 & (A1 & A2 & A3 & A4)%keeps_write_log & H).
  apply bind_Ok in H as ([] & s2 & (B1 & B2 & B3 & B4)%keeps_write_head & H).
  apply bind_Ok in H as ([] & s3 & (C1 & C2 & C3 & C4)%keeps_install_trans & H).
  apply bind_Ok in H as ([] & s4 & [= <-] & H). apply keeps_write_head in H as (E1 & E2 & E3 & E4).
  cbn in *. split_and!; congruence || lia.
Qed.

Lemma acquire_log_Ok s s' : acquire_log s = Ok (tt, s') → lg_lock s = false ∧ s' = set_lg_lock true s.
Proof.
  unfold acquire_log, mbind, prog_bind, get, modify, panic. by destruct (lg_lock s); [|intros [= <-]].
Qed.

Lemma release_log_Ok s s' : release_log s = Ok (tt, s') → s' = set_lg_lock false s.
Proof.
  unfold release_log, mbind, prog_bind, get, modify, panic. by destruct (lg_lock s); [intros [= <-]|].
Qed.

(** The code after the last change of a critical section. *)
Ltac leave_log H := apply bind_Ok in H as ([] & ? & ->%release_log_Ok & [= <- <-]).

Lemma keeps_absorb n : keeps same_counts (absorb n).
Proof. unfold absorb. keeps_log. Qed.

Lemma keeps_write_lh_block i v : keeps same_counts (write_lh_block i v).
Proof. unfold write_lh_block. keeps_auto. by apply keeps_modify. Qed.

Lemma log_write_counts b s s' : log_write b s = Ok (tt, s') →
  lg_lock s' = false ∧ outstanding s' = outstanding s ∧ committing s' = committing s ∧
  lh_n s ≤ lh_n s' ≤ lh_n s + 1.
Proof.
  unfold log_write. intros H. apply bind_Ok in H as ([] & s1 & (_ & ->)%acquire_log_Ok & H).
  apply bind_Ok in H as (x & s2 & [= <- <-] & H). destruct (LOGBLOCKS <=? _); [done|]. destruct (_ <? 1); [done|].
  apply bind_Ok in H as (x & s3 & (A1 & A2 & A3 & A4)%keeps_on_lg & H).
  apply bind_Ok in H as (i & s4 & (B1 & B2 & B3 & B4)%keeps_absorb & H).
  apply bind_Ok in H as ([] & s5 & (C1 & C2 & C3 & C4)%keeps_write_lh_block & H).
  apply bind_Ok in H as ([] & s6 & H6 & ->%release_log_Ok). cbn in *.
  destruct (i =? lh_n s).
  - apply bind_Ok in H6 as ([] & s7 & (D1 & D2 & D3 & D4)%keeps_on_lg & H6). injection H6 as <-. cbn.
    split_and!; congruence || lia.
  - injection H6 as <-. split_and!; congruence || lia.
Qed.

Lemma begin_op_counts s s' r : begin_op_try s = Ok (r, s') →
  lg_lock s' = false ∧ committing s' = committing s ∧ lh_n s' = lh_n s ∧
  match r with
  | None => outstanding s' = outstanding s + 1 ∧ lh_n s + (outstanding s + 1) * MAXOPBLOCKS ≤ LOGBLOCKS
  | Some _ => outstanding s' = outstanding s
  end.
Proof.
  unfold begin_op_try. intros H. apply bind_Ok in H as ([] & s1 & (_ & ->)%acquire_log_Ok & H).
  apply bind_Ok in H as (x & s2 & [= <- <-] & H). cbn in H. destruct (committing s) eqn:Ec; [by leave_log H|].
  destruct (Z.ltb_spec LOGBLOCKS (lh_n s + (outstanding s + 1) * MAXOPBLOCKS)); [by leave_log H|].
  apply bind_Ok in H as ([] & s2 & [= <-] & H). leave_log H. by cbn.
Qed.

Lemma end_op_counts s s' r : end_op_enter s = Ok (r, s') →
  lg_lock s' = false ∧ outstanding s' = outstanding s - 1 ∧ lh_n s' = lh_n s ∧ snd r ≠ Some ChanObj.
Proof.
  unfold end_op_enter. intros H. apply bind_Ok in H as ([] & s1 & (_ & ->)%acquire_log_Ok & H).
  apply bind_Ok in H as ([] & s2 & [= <-] & H). apply bind_Ok in H as (x & s2 & [= <- <-] & H). cbn in H.
  destruct (committing s); [done|]. destruct (_ =? 0); [|by leave_log H].
  apply bind_Ok in H as ([] & s2 & [= <-] & H). by leave_log H.
Qed.

Lemma end_op_leave_counts s s' r : end_op_leave s = Ok (r, s') →
  lg_lock s' = false ∧ outstanding s' = outstanding s ∧ lh_n s' = lh_n s ∧ r = Some ChanVar.
Proof.
  unfold end_op_leave. intros H. apply bind_Ok in H as ([] & s1 & (_ & ->)%acquire_log_Ok & H).
  apply bind_Ok in H as ([] & s2 & [= <-] & H). by leave_log H.
Qed.

(** * The reservation *)

(** The operations in progress and the blocks they may still log fit into the
    log. *)
Record reserved (s : sys) : Prop := {
  rs_lock : lg_lock (lg s) = false;
  rs_count : outstanding (lg s) = zsum in_op (ops s);
  rs_used : ∀ p w, ops s !! p = Some (InOp w) → 0 ≤ w ≤ MAXOPBLOCKS;
  rs_pos : 0 ≤ lh_n (lg s);
  rs_room : lh_n (lg s) + zsum room (ops s) ≤ LOGBLOCKS }.

Lemma room_le_ops l : (∀ p w, l !! p = Some (InOp w) → 0 ≤ w ≤ MAXOPBLOCKS) →
  0 ≤ zsum room l ≤ MAXOPBLOCKS * zsum in_op l.
Proof.
  induction l as [|o l IH]; intros Hw; simpl; [lia|].
  assert (0 ≤ zsum room l ≤ MAXOPBLOCKS * zsum in_op l) by (apply IH; intros p w; apply (Hw (S p))).
  assert (0 ≤ room o ≤ MAXOPBLOCKS * in_op o); [|lia]. destruct o as [| |w| |]; simpl; try lia.
  specialize (Hw 0%nat w eq_refl). lia.
Qed.

Lemma used_insert (l : list opstate) p o : (∀ q w, l !! q = Some (InOp w) → 0 ≤ w ≤ MAXOPBLOCKS) →
  (∀ w, o = InOp w → 0 ≤ w ≤ MAXOPBLOCKS) → ∀ q w, (<[p := o]> l) !! q = Some (InOp w) → 0 ≤ w ≤ MAXOPBLOCKS.
Proof.
  intros Hl Ho q w Hq. destruct (decide (p = q)) as [->|Hne].
  - apply list_lookup_insert_Some in Hq as [(_ & E & _)|[? _]]; [by apply Ho|done].
  - rewrite list_lookup_insert_ne in Hq by done. by eapply Hl.
Qed.

Lemma used_wake (l : list opstate) c : (∀ q w, l !! q = Some (InOp w) → 0 ≤ w ≤ MAXOPBLOCKS) →
  ∀ q w, (wake c <$> l) !! q = Some (InOp w) → 0 ≤ w ≤ MAXOPBLOCKS.
Proof.
  intros Hl q w Hq. rewrite list_lookup_fmap in Hq. destruct (l !! q) as [o|] eqn:E; [|done]. simpl in Hq.
  apply (Hl q). rewrite E. destruct o, c; simpl in *; try done. by case_decide.
Qed.

Lemma reserved_step s t : sysstep s t → reserved s → reserved t.
Proof.
  intros Hst [R1 R2 R3 R5 R4]. pose proof (room_le_ops _ R3) as Hroom.
  destruct Hst as [p s s' l r Hp H|p w b s s' l Hp Hw H|p w s s' l cm c Hp H|p s s' l Hp H|p s s' l c Hp H];
    cbn in *; pose proof (zsum_insert in_op l p) as Zi; pose proof (zsum_insert room l p) as Zr.
  - apply begin_op_counts in H as (K1 & K2 & K3 & K4). split; cbn; [done| | |lia|];
      rewrite ?(Zi _ _ Hp), ?(Zr _ _ Hp); destruct r; cbn; unfold MAXOPBLOCKS, LOGBLOCKS in *; try lia.
    + by apply used_insert.
    + apply used_insert; [done|]. intros w [= <-]. unfold MAXOPBLOCKS. lia.
  - apply log_write_counts in H as (K1 & K2 & K3 & K4). pose proof (R3 p w Hp). split; cbn; [done| | |lia|].
    + rewrite (Zi _ _ Hp). cbn. lia.
    + apply used_insert; [done|]. intros w' [= <-]. lia.
    + rewrite (Zr _ _ Hp). cbn. lia.
  - apply end_op_counts in H as (K1 & K2 & K3 & _). pose proof (R3 p w Hp). split; cbn; [done| | |lia|].
    + rewrite zsum_wake by apply in_op_wake. rewrite (Zi _ _ Hp). destruct cm; cbn; lia.
    + apply used_wake, used_insert; [done|]. by destruct cm.
    + rewrite zsum_wake by apply room_wake. rewrite (Zr _ _ Hp). destruct cm; cbn; lia.
  - apply commit_counts in H as (K1 & K2 & K3 & K4). split; cbn; [congruence| | |lia|].
    + rewrite (Zi _ _ Hp). cbn. lia.
    + by apply used_insert.
    + rewrite (Zr _ _ Hp). cbn. lia.
  - apply end_op_leave_counts in H as (K1 & K2 & K3 & _). split; cbn; [done| | |lia|].
    + rewrite zsum_wake by apply in_op_wake. rewrite (Zi _ _ Hp). cbn. lia.
    + by apply used_wake, used_insert.
    + rewrite zsum_wake by apply room_wake. rewrite (Zr _ _ Hp). cbn. lia.
Qed.

Lemma idle_reserved s n : idle_log s → reserved (idle_sys s n).
Proof.
  intros (H1 & H2 & H3 & H4). split; cbn; rewrite ?zsum_replicate by done; try lia; try done.
  - intros p w Hp. by apply lookup_replicate in Hp as [? _].
  - rewrite H4. unfold LOGBLOCKS, MAXOPBLOCKS. lia.
Qed.

Lemma reachable_reserved s t : reachable s t → reserved s → reserved t.
Proof. induction 1 as [|? ? ? Hst _ IH]; [done|]. intros H. by eapply IH, reserved_step. Qed.

Lemma wp_absorb n s (Q : Z → logst → Prop) :
  0 ≤ lh_n s ≤ LOGBLOCKS →
  (∀ i, 0 ≤ i ≤ lh_n s → (i < lh_n s → u32 (default 0 (lh_block s !! i)) = n) → Q i s) → wp (absorb n) Q s.
Proof.
  intros Hn HQ. unfold absorb. wp_auto.
  apply (wp_loop (λ k i s', s' = s ∧ 0 ≤ i ≤ lh_n s ∧ k = Z.to_nat (lh_n s - i)) (Z.to_nat (lh_n s))); [|lia|].
  { split_and!; try done; lia. }
  intros k i s' (-> & Hi & ->). destruct (Z.ltb_spec i (lh_n s)) as [Hlt|Hge].
  - unfold read_lh_block. wp_auto. rewrite (proj2 (Z.leb_le _ _)), (proj2 (Z.ltb_lt _ _)) by lia. cbn [andb]. wp_auto.
    destruct (Z.eqb_spec (u32 (default 0 (lh_block s !! i))) n) as [E|E]; wp_auto.
    + by apply HQ.
    + exists (Z.to_nat (lh_n s - (i + 1))). split; [lia|]. split_and!; try done; lia.
  - wp_auto. apply HQ; [done|lia].
Qed.

(** * The properties *)

(** C15: the reservation of [begin_op] suffices.  In every state that
    processes can reach through the steps of the log, a process inside an
    operation that has logged fewer than [MAXOPBLOCKS] new blocks can log the
    block of any buffer: [log_write] returns, the block is in the list, and
    the list has not outgrown the log. *)
Theorem log_write_has_room s n t p w b x :
  idle_log s → reachable (idle_sys s n) t → ops t !! p = Some (InOp w) → w < MAXOPBLOCKS →
  bufs (lg_bio (lg t)) !! b = Some x → bc_lock (lg_bio (lg t)) = false →
  wp (log_write b) (λ _ s', lh_n (lg t) ≤ lh_n s' ≤ LOGBLOCKS ∧
    ∃ i, 0 ≤ i < lh_n s' ∧ lh_block s' !! i = Some (s32 (b_blockno x))) (lg t).
Proof.
  intros Hs Hr Hp Hw Hx Hbc. pose proof (reachable_reserved _ _ Hr (idle_reserved _ _ Hs)) as [R1 R2 R3 R4 R5].
  destruct t as [s1 l]. cbn in *. pose proof (room_le_ops _ R3) as Hroom.
  assert (1 ≤ outstanding s1 ∧ lh_n s1 < LOGBLOCKS) as [Ho Hn].
  { rewrite R2. destruct (zsum_lookup in_op l p (InOp w)) as [H1 _]; [|done|].
    { intros o _. by destruct o. }
    destruct (zsum_lookup room l p (InOp w)) as [H2 _]; [|done|cbn in *; lia].
    intros o Ho. apply list_elem_of_lookup in Ho as [q Hq]. destruct o; cbn; try lia. specialize (R3 q _ Hq). lia. }
  unfold log_write, acquire_log, release_log. wp_auto. rewrite R1. wp_auto.
  rewrite (proj2 (Z.leb_gt _ _)), (proj2 (Z.ltb_ge _ _)) by (cbn; lia). unfold on_lg. wp_auto.
  unfold read_buf. wp_auto. cbn [lg_bio set_lg_lock]. apply (wp_of_option _ x); [done|]. wp_auto.
  set (s2 := set_lg_bio _ _). assert (lh_n s2 = lh_n s1) as E2 by done.
  apply wp_absorb; [rewrite E2; lia|]. rewrite E2. intros i Hi Hab. wp_auto.
  unfold write_lh_block. rewrite (proj2 (Z.leb_le 0 i)), (proj2 (Z.ltb_lt i LOGBLOCKS)) by lia. cbn [andb]. wp_auto.
  change (lh_n (set_lg_lock true s1)) with (lh_n s1). destruct (Z.eqb_spec i (lh_n s1)) as [->|Hne]; wp_auto.
  - unfold bpin, acquire_bcache, update_buf, read_buf, release_bcache. wp_auto. cbn [lg_bio set_lg_bio set_lh_block s2].
    rewrite Hbc. wp_auto. apply (wp_of_option _ x); [done|]. wp_auto. split; [change (lh_n s1 ≤ lh_n s1 + 1 ≤ LOGBLOCKS); lia|].
    exists (lh_n s1). split; [change (0 ≤ lh_n s1 < lh_n s1 + 1); lia|]. apply lookup_insert_eq.
  - split; [change (lh_n s1 ≤ lh_n s1 ≤ LOGBLOCKS); lia|]. exists i. split; [change (0 ≤ i < lh_n s1); lia|]. apply lookup_insert_eq.
Qed.

(** Two processes of an idle system, and a buffer. *)
Definition example_log : logst :=
  LogSt (BSt {[64 := set_held true (set_refcnt 1 zero_buf)]} 32 ∅ false ∅ []) false 2 0 false 1 0 ∅.

Lemma log_write_has_room_witness :
  ∃ t, reachable (idle_sys example_log 2) t ∧ wp (log_write 64) (λ _ s', lh_n s' ≤ LOGBLOCKS) (lg t).
Proof.
  exists (Sys (set_outstanding 1 example_log) [InOp 0; Out]).
  assert (reachable (idle_sys example_log 2) (Sys (set_outstanding 1 example_log) [InOp 0; Out])) as Hr.
  { eapply rtc_l; [apply (step_begin 0 example_log (set_outstanding 1 example_log) [Out; Out] None); reflexivity|]. apply rtc_refl. }
  split; [exact Hr|].
  eapply wp_mono; [apply (log_write_has_room example_log 2 _ 0 0 64 (set_held true (set_refcnt 1 zero_buf)))|].
  - repeat split.
  - exact Hr.
  - reflexivity.
  - reflexivity.
  - reflexivity.
  - reflexivity.
  - intros [] s' [H _]. apply H.
Defined.

(** Only [ChanVar] is ever woken. *)
Lemma asleep_step s t p : sysstep s t → ops s !! p = Some (Asleep ChanObj) → ops t !! p = Some (Asleep ChanObj).
Proof.
  intros Hst H. assert (∀ (l : list opstate) q o o', l !! q = Some o → o ≠ Asleep ChanObj → l !! p = Some (Asleep ChanObj) →
    (<[q := o']> l) !! p = Some (Asleep ChanObj)) as Hins.
  { intros l q o o' Hq Ho Hp. rewrite list_lookup_insert_ne; [done|]. intros ->. congruence. }
  destruct Hst as [q s s' l r Hq _|q w b s s' l Hq _ _|q w s s' l cm c Hq E|q s s' l Hq _|q s s' l c Hq E]; cbn in *;
    try by eapply Hins.
  - apply end_op_counts in E as (_ & _ & _ & Hc). rewrite list_lookup_fmap, (Hins _ _ _ _ Hq) by done.
    destruct c as [[]|]; done.
  - apply end_op_leave_counts in E as (_ & _ & _ & ->). by rewrite list_lookup_fmap, (Hins _ _ _ _ Hq) by done.
Qed.

(** A process that finds the log too full in [begin_op] sleeps on the
    address of the log structure, while [end_op] wakes sleepers on the address
    of the variable that points to it: there is a reachable state in which
    every other process is outside any operation and the log is empty and
    idle, and the process sleeps in every state reachable from there. *)
Theorem begin_op_lost_wakeup :
  ∃ s t p, idle_log s ∧ reachable (idle_sys s 4) t ∧ idle_log (lg t) ∧
    (∀ q o, q ≠ p → ops t !! q = Some o → o = Out) ∧
    ∀ u, reachable t u → ops u !! p = Some (Asleep ChanObj).
Proof.
  exists example_log, (Sys example_log [Out; Out; Out; Asleep ChanObj]), 3%nat.
  split; [repeat split|]. split.
  { eapply rtc_l; [apply (step_begin 0 example_log (set_outstanding 1 example_log) _ None); reflexivity|].
    eapply rtc_l; [eapply (step_begin 1 _ (set_outstanding 2 example_log) _ None); reflexivity|].
    eapply rtc_l; [eapply (step_begin 2 _ (set_outstanding 3 example_log) _ None); reflexivity|].
    eapply rtc_l; [eapply (step_begin 3 _ (set_outstanding 3 example_log) _ (Some ChanObj)); reflexivity|].
    eapply rtc_l; [eapply (step_end 0 0 _ (set_outstanding 2 example_log) _ false (Some ChanVar)); reflexivity|].
    eapply rtc_l; [eapply (step_end 1 0 _ (set_outstanding 1 example_log) _ false (Some ChanVar)); reflexivity|].
    eapply rtc_l; [eapply (step_end 2 0 _ (set_committing true example_log) _ true None); reflexivity|].
    eapply rtc_l; [eapply (step_commit 2 _ (set_committing true example_log)); reflexivity|].
    eapply rtc_l; [eapply (step_leave 2 _ example_log _ (Some ChanVar)); reflexivity|]. apply rtc_refl. }
  split; [repeat split|]. split.
  - intros q o Hq Ho. do 4 (destruct q as [|q]; [by injection Ho as <-|]). done.
  - intros u Hu. assert (∀ a b, reachable a b → ops a !! 3%nat = Some (Asleep ChanObj) → ops b !! 3%nat = Some (Asleep ChanObj)) as H.
    { induction 1 as [|? ? ? Hst _ IH]; [done|]. intros H. by eapply IH, asleep_step. }
    by eapply H.
Qed.
