(* ===== verification/Fs.v ===== *)
(** The file system (kernel/fs.c): the block bitmap, inodes and their blocks,
    file contents, directories and path names, over the log and the buffer
    cache.  Messages printed on the console are left out. *)

From S2P Require Import Prelude.
From S2P Require Import Slab.
From S2P Require Import Cstring.
From S2P Require Import Bio.
From S2P Require Import Log.

(** * The on-disk format *)

Definition NDIRECT : Z := 12.

Definition NINDIRECT : Z := BSIZE / 4.

Definition MAXFILE : Z := NDIRECT + NINDIRECT.

Definition sizeof_dinode : Z := 64.

Definition IPB : Z := BSIZE / sizeof_dinode.

Definition BPB : Z := BSIZE * 8.

Definition DIRSIZ : Z := 14.

Definition sizeof_dirent : Z := 16.

Definition ROOTINO : Z := 1.

Definition ROOTDEV : Z := 1.

Definition NINODE : Z := 50.

Definition FSMAGIC : Z := 270544960.

Definition T_DIR : Z := 1.

Record superblock := Superblock {
  sb_magic : Z;
  sb_size : Z;
  sb_nblocks : Z;
  sb_ninodes : Z;
  sb_nlog : Z;
  sb_logstart : Z;
  sb_inodestart : Z;
  sb_bmapstart : Z }.

(** Block numbers are unsigned. *)
Definition IBLOCK (i : Z) (sb : superblock) : Z := u32 (i / IPB + sb_inodestart sb).

Definition BBLOCK (b : Z) (sb : superblock) : Z := u32 (b / BPB + sb_bmapstart sb).

(** 16-bit fields; [short] is signed. *)
Definition s16 (x : Z) : Z := (x + 2 ^ 15) mod 2 ^ 16 - 2 ^ 15.

Definition get16 (d : block) (off : Z) : Z := byte_at d off + 2 ^ 8 * byte_at d (off + 1).

Definition put16 (d : block) (off v : Z) : block := put8 (put8 d off v) (off + 1) (v / 2 ^ 8).

(** The part of an inode that is on disk. *)
Record dinode := Dinode {
  d_type : Z;
  d_major : Z;
  d_minor : Z;
  d_nlink : Z;
  d_size : Z;
  d_addrs : list Z }.

Definition get_addrs (d : block) (off : Z) : list Z :=
  (λ i, get32 d (off + 4 * i)) <$> seqZ 0 (NDIRECT + 1).

Fixpoint put_addrs (d : block) (off : Z) (l : list Z) : block :=
  match l with
  | [] => d
  | a :: l' => put_addrs (put32 d off a) (off + 4) l'
  end.

Definition get_dinode (d : block) (off : Z) : dinode :=
  Dinode (s16 (get16 d off)) (s16 (get16 d (off + 2))) (s16 (get16 d (off + 4))) (s16 (get16 d (off + 6)))
    (get32 d (off + 8)) (get_addrs d (off + 12)).

Definition put_dinode (d : block) (off : Z) (x : dinode) : block :=
  put_addrs
    (put32 (put16 (put16 (put16 (put16 d off (d_type x)) (off + 2) (d_major x)) (off + 4) (d_minor x))
       (off + 6) (d_nlink x)) (off + 8) (d_size x))
    (off + 12) (d_addrs x).

Definition zero_dinode : dinode := Dinode 0 0 0 0 0 (replicate 13 0).

(** The offset of inode [inum] in its block. *)
Definition dinode_off (inum : Z) : Z := inum mod IPB * sizeof_dinode.

(** * State *)

(** [struct inode], with its sleep lock as one flag. *)
Record inode := Inode {
  i_dev : Z;
  i_inum : Z;
  i_ref : Z;
  i_held : bool;
  i_valid : bool;
  i_d : dinode }.

Definition set_ref (r : Z) (ip : inode) : inode :=
  Inode (i_dev ip) (i_inum ip) r (i_held ip) (i_valid ip) (i_d ip).

Definition set_iheld (h : bool) (ip : inode) : inode :=
  Inode (i_dev ip) (i_inum ip) (i_ref ip) h (i_valid ip) (i_d ip).

Definition set_ivalid (v : bool) (ip : inode) : inode :=
  Inode (i_dev ip) (i_inum ip) (i_ref ip) (i_held ip) v (i_d ip).

Definition set_d (d : dinode) (ip : inode) : inode :=
  Inode (i_dev ip) (i_inum ip) (i_ref ip) (i_held ip) (i_valid ip) d.

Definition set_type (t : Z) (d : dinode) : dinode :=
  Dinode t (d_major d) (d_minor d) (d_nlink d) (d_size d) (d_addrs d).

Definition set_size (n : Z) (d : dinode) : dinode :=
  Dinode (d_type d) (d_major d) (d_minor d) (d_nlink d) n (d_addrs d).

Definition set_addr (i a : Z) (d : dinode) : dinode :=
  Dinode (d_type d) (d_major d) (d_minor d) (d_nlink d) (d_size d) (<[Z.to_nat i := a]> (d_addrs d)).

Definition zero_inode : inode := Inode 0 0 0 false false zero_dinode.

(** [it_array] is [itable.inode], the addresses of the entries; [mem] is the
    kernel memory that names, paths and directory entries live in; [cwd] is
    [myproc()->cwd]. *)
Record fsst := FsSt {
  fs_log : logst;
  sb : superblock;
  it_lock : bool;
  it_array : list Z;
  inodes : gmap Z inode;
  fmem : bmem;
  cwd : Z }.

Definition set_fs_log (l : logst) (s : fsst) : fsst :=
  FsSt l (sb s) (it_lock s) (it_array s) (inodes s) (fmem s) (cwd s).

Definition set_sb (x : superblock) (s : fsst) : fsst :=
  FsSt (fs_log s) x (it_lock s) (it_array s) (inodes s) (fmem s) (cwd s).

Definition set_it_lock (l : bool) (s : fsst) : fsst :=
  FsSt (fs_log s) (sb s) l (it_array s) (inodes s) (fmem s) (cwd s).

Definition set_it_array (l : list Z) (s : fsst) : fsst :=
  FsSt (fs_log s) (sb s) (it_lock s) l (inodes s) (fmem s) (cwd s).

Definition set_inodes (m : gmap Z inode) (s : fsst) : fsst :=
  FsSt (fs_log s) (sb s) (it_lock s) (it_array s) m (fmem s) (cwd s).

Definition set_fmem (m : bmem) (s : fsst) : fsst :=
  FsSt (fs_log s) (sb s) (it_lock s) (it_array s) (inodes s) m (cwd s).

Definition on_log {A} (m : prog logst A) : prog fsst A := zoom fs_log set_fs_log m.

Definition on_bufs {A} (m : prog bst A) : prog fsst A := on_log (on_lg m).

Definition on_fmem {A} (m : prog bmem A) : prog fsst A := zoom fmem set_fmem m.

Definition read_inode (a : Z) : prog fsst inode := s ← get; of_option (inodes s !! a).

Definition update_inode (a : Z) (f : inode → inode) : prog fsst unit :=
  ip ← read_inode a; modify (λ s, set_inodes (<[a := f ip]> (inodes s)) s).

Definition acquire_itable : prog fsst unit :=
  s ← get; if it_lock s then panic "acquire" else modify (set_it_lock true).

Definition release_itable : prog fsst unit :=
  s ← get; if it_lock s then modify (set_it_lock false) else panic "release".

Definition acquiresleep_inode (a : Z) : prog fsst unit :=
  ip ← read_inode a;
  if i_held ip then sleep_forever else update_inode a (set_iheld true).

Definition releasesleep_inode (a : Z) : prog fsst unit := update_inode a (set_iheld false).

(** Accesses to [bp->data]. *)
Definition read_data (a : Z) : prog fsst block := x ← on_bufs (read_buf a); mret (b_data x).

Definition write_data (a : Z) (d : block) : prog fsst unit := on_bufs (update_buf a (set_data d)).

(** * The super block *)

Definition readsb (dev : Z) : prog fsst unit :=
  bp ← on_bufs (bread (u32 dev) 1);
  d ← read_data bp;
  _ ← modify (set_sb (Superblock (get32 d 0) (get32 d 4) (get32 d 8) (get32 d 12) (get32 d 16) (get32 d 20)
                        (get32 d 24) (get32 d 28)));
  on_bufs (brelse bp).

(** * Blocks *)

Definition bzero (dev bno : Z) : prog fsst unit :=
  bp ← on_bufs (bread (u32 dev) (u32 bno));
  _ ← write_data bp (replicate 1024 0);
  _ ← on_log (log_write bp);
  on_bufs (brelse bp).

(** The mask of bit [bi] and the byte it is in. *)
Definition bit_mask (bi : Z) : Z := Z.shiftl 1 (bi mod 8).

(** The inner loop of [balloc]: the first clear bit of the bitmap block [d],
    for blocks below [size]. *)
Definition find_clear_bit (d : block) (b size : Z) : prog fsst (option Z) :=
  loop (S (Z.to_nat BPB))
    (λ bi,
       if (bi <? BPB) && (u32 (b + bi) <? size) then
         if Z.land (byte_at d (bi / 8)) (bit_mask bi) =? 0 then mret (inr (Some bi)) else mret (inl (bi + 1))
       else mret (inr None))
    0.

Definition balloc (dev : Z) : prog fsst Z :=
  s ← get;
  loop (S (Z.to_nat (sb_size (sb s) / BPB + 1)))
    (λ b,
       if u32 b <? sb_size (sb s) then
         bp ← on_bufs (bread dev (BBLOCK b (sb s)));
         d ← read_data bp;
         r ← find_clear_bit d b (sb_size (sb s));
         match r with
         | Some bi =>
             _ ← write_data bp (put8 d (bi / 8) (Z.lor (byte_at d (bi / 8)) (bit_mask bi)));
             _ ← on_log (log_write bp);
             _ ← on_bufs (brelse bp);
             _ ← bzero dev (b + bi);
             mret (inr (u32 (b + bi)))
         | None =>
             _ ← on_bufs (brelse bp);
             mret (inl (b + BPB))
         end
       else mret (inr 0))
    0.

Definition bfree (dev b : Z) : prog fsst unit :=
  s ← get;
  bp ← on_bufs (bread (u32 dev) (BBLOCK b (sb s)));
  let bi := b mod BPB in
  let m := bit_mask bi in
  d ← read_data bp;
  if Z.land (byte_at d (bi / 8)) m =? 0 then panic "freeing free block"
  else
    _ ← write_data bp (put8 d (bi / 8) (Z.land (byte_at d (bi / 8)) (Z.lnot m)));
    _ ← on_log (log_write bp);
    on_bufs (brelse bp).

(** * Inodes *)

(** [ip->ref++]; overflow of an [int] is undefined. *)
Definition inc_ref (a : Z) : prog fsst unit :=
  ip ← read_inode a;
  if int_max <=? i_ref ip then undefined else update_inode a (set_ref (i_ref ip + 1)).

(** The scan of [iget]: the entry of the inode, or else the first free one. *)
Fixpoint iget_scan (dev inum : Z) (l : list Z) (empty : Z) : prog fsst (Z + Z) :=
  match l with
  | [] => mret (inr empty)
  | a :: l' =>
      ip ← read_inode a;
      if (0 <? i_ref ip) && (i_dev ip =? dev) && (i_inum ip =? inum) then mret (inl a)
      else iget_scan dev inum l' (if (empty =? 0) && (i_ref ip =? 0) then a else empty)
  end.

Definition iget (dev inum : Z) : prog fsst Z :=
  _ ← acquire_itable;
  s ← get;
  r ← iget_scan dev inum (it_array s) 0;
  match r with
  | inl a =>
      _ ← inc_ref a;
      _ ← release_itable;
      mret a
  | inr empty =>
      if empty =? 0 then panic "iget: no inodes"
      else
        _ ← update_inode empty (λ ip, Inode dev inum 1 (i_held ip) false (i_d ip));
        _ ← release_itable;
        mret empty
  end.

Definition ialloc (dev type : Z) : prog fsst Z :=
  s ← get;
  loop (S (Z.to_nat (sb_ninodes (sb s))))
    (λ inum,
       if u32 inum <? sb_ninodes (sb s) then
         bp ← on_bufs (bread dev (IBLOCK inum (sb s)));
         d ← read_data bp;
         if d_type (get_dinode d (dinode_off inum)) =? 0 then
           _ ← write_data bp (put_dinode d (dinode_off inum) (set_type type zero_dinode));
           _ ← on_log (log_write bp);
           _ ← on_bufs (brelse bp);
           ip ← iget dev inum;
           mret (inr ip)
         else
           _ ← on_bufs (brelse bp);
           mret (inl (inum + 1))
       else mret (inr 0))
    1.

Definition iupdate (a : Z) : prog fsst unit :=
  s ← get;
  ip ← read_inode a;
  bp ← on_bufs (bread (i_dev ip) (IBLOCK (i_inum ip) (sb s)));
  d ← read_data bp;
  _ ← write_data bp (put_dinode d (dinode_off (i_inum ip)) (i_d ip));
  _ ← on_log (log_write bp);
  on_bufs (brelse bp).

Definition idup (a : Z) : prog fsst Z :=
  _ ← acquire_itable;
  _ ← inc_ref a;
  _ ← release_itable;
  mret a.

Definition ilock (a : Z) : prog fsst unit :=
  if a =? 0 then panic "ilock"
  else
    ip ← read_inode a;
    if i_ref ip <? 1 then panic "ilock"
    else
      _ ← acquiresleep_inode a;
      ip ← read_inode a;
      if i_valid ip then mret tt
      else
        s ← get;
        bp ← on_bufs (bread (i_dev ip) (IBLOCK (i_inum ip) (sb s)));
        d ← read_data bp;
        _ ← update_inode a (set_d (get_dinode d (dinode_off (i_inum ip))));
        _ ← on_bufs (brelse bp);
        _ ← update_inode a (set_ivalid true);
        if d_type (get_dinode d (dinode_off (i_inum ip))) =? 0 then panic "ilock: no type" else mret tt.

Definition iunlock (a : Z) : prog fsst unit :=
  if a =? 0 then panic "iunlock"
  else
    ip ← read_inode a;
    if negb (i_held ip) || (i_ref ip <? 1) then panic "iunlock" else releasesleep_inode a.

(** * Inode contents *)

(** [a[i]] of an indirect block. *)
Definition get_indirect (d : block) (i : Z) : Z := get32 d (4 * i).

Definition read_addr (a i : Z) : prog fsst Z :=
  ip ← read_inode a; of_option (d_addrs (i_d ip) !! Z.to_nat i).

Definition write_addr (a i v : Z) : prog fsst unit := update_inode a (λ ip, set_d (set_addr i v (i_d ip)) ip).

(** Entry [i] of [ip->addrs], allocating a block if it is 0; 0 if there is
    none left. *)
Definition addr_or_alloc (a dev i : Z) : prog fsst Z :=
  addr ← read_addr a i;
  if addr =? 0 then
    addr ← balloc dev;
    if addr =? 0 then mret 0 else _ ← write_addr a i addr; mret addr
  else mret addr.

Definition bmap (a bn : Z) : prog fsst Z :=
  ip ← read_inode a;
  if bn <? NDIRECT then addr_or_alloc a (i_dev ip) bn
  else
    let bn := bn - NDIRECT in
    if bn <? NINDIRECT then
      addr ← addr_or_alloc a (i_dev ip) NDIRECT;
      if addr =? 0 then mret 0
      else
        bp ← on_bufs (bread (i_dev ip) addr);
        d ← read_data bp;
        if get_indirect d bn =? 0 then
          addr ← balloc (i_dev ip);
          if addr =? 0 then _ ← on_bufs (brelse bp); mret addr
          else
            d ← read_data bp;
            _ ← write_data bp (put32 d (4 * bn) addr);
            _ ← on_log (log_write bp);
            _ ← on_bufs (brelse bp);
            mret addr
        else
          _ ← on_bufs (brelse bp);
          mret (get_indirect d bn)
    else panic "bmap: out of range".

Definition itrunc (a : Z) : prog fsst unit :=
  ip ← read_inode a;
  _ ← for_range 0 NDIRECT (λ i,
        addr ← read_addr a i;
        if addr =? 0 then mret tt
        else _ ← bfree (i_dev ip) addr; write_addr a i 0);
  addr ← read_addr a NDIRECT;
  _ ← (if addr =? 0 then mret tt
       else
         bp ← on_bufs (bread (i_dev ip) addr);
         _ ← for_range 0 NINDIRECT (λ j,
               d ← read_data bp;
               if get_indirect d j =? 0 then mret tt else bfree (i_dev ip) (get_indirect d j));
         _ ← on_bufs (brelse bp);
         _ ← bfree (i_dev ip) addr;
         write_addr a NDIRECT 0 : prog fsst unit);
  _ ← update_inode a (λ ip, set_d (set_size 0 (i_d ip)) ip);
  iupdate a.

Definition iput (a : Z) : prog fsst unit :=
  _ ← acquire_itable;
  ip ← read_inode a;
  _ ← (if (i_ref ip =? 1) && i_valid ip && (d_nlink (i_d ip) =? 0) then
         _ ← acquiresleep_inode a;
         _ ← release_itable;
         _ ← itrunc a;
         _ ← update_inode a (λ ip, set_d (set_type 0 (i_d ip)) ip);
         _ ← iupdate a;
         _ ← update_inode a (set_ivalid false);
         _ ← releasesleep_inode a;
         acquire_itable
       else mret tt : prog fsst unit);
  _ ← update_inode a (λ ip, set_ref (i_ref ip - 1) ip);
  release_itable.

Definition iunlockput (a : Z) : prog fsst unit := _ ← iunlock a; iput a.

(** [begin_op] of a process that does not have to wait. *)
Definition begin_op_now : prog fsst unit :=
  r ← on_log begin_op_try;
  match r with
  | None => mret tt
  | Some _ => sleep_forever
  end.

Definition ireclaim (dev : Z) : prog fsst unit :=
  s ← get;
  for_range 1 (sb_ninodes (sb s)) (λ inum,
    bp ← on_bufs (bread (u32 dev) (IBLOCK inum (sb s)));
    d ← read_data bp;
    let dip := get_dinode d (dinode_off inum) in
    ip ← (if negb (d_type dip =? 0) && (d_nlink dip =? 0) then iget (u32 dev) inum else mret 0 : prog fsst Z);
    _ ← on_bufs (brelse bp);
    if ip =? 0 then mret tt
    else
      _ ← begin_op_now;
      _ ← ilock ip;
      _ ← iunlock ip;
      _ ← iput ip;
      _ ← on_log end_op;
      mret tt).

Definition fsinit (dev : Z) : prog fsst unit :=
  _ ← readsb dev;
  s ← get;
  if negb (sb_magic (sb s) =? FSMAGIC) then panic "invalid file system"
  else
    _ ← on_log (initlog dev (sb_logstart (sb s)));
    ireclaim dev.

(** [struct stat] *)
Record stat := Stat {
  st_dev : Z;
  st_ino : Z;
  st_type : Z;
  st_nlink : Z;
  st_size : Z }.

Definition stati (a : Z) : prog fsst stat :=
  ip ← read_inode a;
  mret (Stat (s32 (i_dev ip)) (i_inum ip) (d_type (i_d ip)) (d_nlink (i_d ip)) (d_size (i_d ip))).

(** * Reading and writing *)

Fixpoint store_bytes (dst : Z) (l : list Z) : prog bmem unit :=
  match l with
  | [] => mret tt
  | c :: l' => _ ← store8 dst c; store_bytes (u64 (dst + 1)) l'
  end.

Fixpoint load_bytes (src : Z) (n : nat) : prog bmem (list Z) :=
  match n with
  | O => mret []
  | S n' => c ← load8 src; l ← load_bytes (u64 (src + 1)) n'; mret (c :: l)
  end.

Definition slice (d : block) (off n : Z) : list Z := take (Z.to_nat n) (drop (Z.to_nat off) d).

Definition splice_bytes (d : block) (off : Z) (l : list Z) : block :=
  take (Z.to_nat off) d ++ l ++ drop (Z.to_nat off + length l) d.

Section Content.

(** The copies to and from user memory of kernel/vm.c: [false] and [None] are
    their failures. *)
Variable copyout : Z → list Z → prog bmem bool.

Variable copyin : Z → Z → prog bmem (option (list Z)).

Definition either_copyout (user_dst : bool) (dst : Z) (src : list Z) : prog bmem bool :=
  if user_dst then copyout dst src else _ ← store_bytes dst src; mret true.

Definition either_copyin (user_src : bool) (src len : Z) : prog bmem (option (list Z)) :=
  if user_src then copyin src len else l ← load_bytes src (Z.to_nat len); mret (Some l).

Definition readi (a : Z) (user_dst : bool) (dst off n : Z) : prog fsst Z :=
  ip ← read_inode a;
  let size := d_size (i_d ip) in
  if (size <? off) || (u32 (off + n) <? off) then mret 0
  else
    let n := if size <? u32 (off + n) then u32 (size - off) else n in
    tot ← loop (S (Z.to_nat n))
            (λ '(tot, off, dst),
               if tot <? n then
                 addr ← bmap a (off / BSIZE);
                 if addr =? 0 then mret (inr tot)
                 else
                   bp ← on_bufs (bread (i_dev ip) addr);
                   let m := Z.min (n - tot) (BSIZE - off mod BSIZE) in
                   d ← read_data bp;
                   r ← on_fmem (either_copyout user_dst dst (slice d (off mod BSIZE) m));
                   _ ← on_bufs (brelse bp);
                   if (r : bool) then mret (inl (u32 (tot + m), u32 (off + m), u64 (dst + m)))
                   else mret (inr (u32 (-1)))
               else mret (inr tot))
            (0, off, dst);
    mret (s32 tot).

(** The loop of [writei]: the bytes written and the offset reached. *)
Definition writei_loop (a dev : Z) (user_src : bool) (src off n : Z) : prog fsst (Z * Z) :=
  loop (S (Z.to_nat n))
    (λ '(tot, off, src),
       if tot <? n then
         addr ← bmap a (off / BSIZE);
         if addr =? 0 then mret (inr (tot, off))
         else
           bp ← on_bufs (bread dev addr);
           let m := Z.min (n - tot) (BSIZE - off mod BSIZE) in
           r ← on_fmem (either_copyin user_src src m);
           match r with
           | None => _ ← on_bufs (brelse bp); mret (inr (tot, off))
           | Some l =>
               d ← read_data bp;
               _ ← write_data bp (splice_bytes d (off mod BSIZE) l);
               _ ← on_log (log_write bp);
               _ ← on_bufs (brelse bp);
               mret (inl (u32 (tot + m), u32 (off + m), u64 (src + m)))
           end
       else mret (inr (tot, off)))
    (0, off, src).

Definition writei (a : Z) (user_src : bool) (src off n : Z) : prog fsst Z :=
  ip ← read_inode a;
  if (d_size (i_d ip) <? off) || (u32 (off + n) <? off) then mret (-1)
  else if MAXFILE * BSIZE <? u32 (off + n) then mret (-1)
  else
    r ← writei_loop a (i_dev ip) user_src src off n;
    let '(tot, off) := (r : Z * Z) in
    ip ← read_inode a;
    _ ← (if d_size (i_d ip) <? off then update_inode a (λ ip, set_d (set_size off (i_d ip)) ip) else mret tt : prog fsst unit);
    _ ← iupdate a;
    mret (s32 tot).

(** * Directories *)

Definition namecmp (s t : Z) : prog bmem Z := strncmp s t DIRSIZ.

(** Fields of a [struct dirent] at [de]. *)
Definition de_name (de : Z) : Z := de + 2.

Definition de_inum (de : Z) : prog bmem Z :=
  lo ← load8 de; hi ← load8 (de + 1); mret (lo + 2 ^ 8 * hi).

Definition set_de_inum (de v : Z) : prog bmem unit :=
  _ ← store8 de (u8 v); store8 (de + 1) (u8 (v / 2 ^ 8)).

(** [*poff = off] *)
Definition set_off (poff off : Z) : prog bmem unit :=
  store_bytes poff [u8 off; u8 (off / 2 ^ 8); u8 (off / 2 ^ 16); u8 (off / 2 ^ 24)].

(** [de] is the address of the local variable [de]. *)
Definition dirlookup (de dp name poff : Z) : prog fsst Z :=
  ip ← read_inode dp;
  if negb (d_type (i_d ip) =? T_DIR) then panic "dirlookup not DIR"
  else
    loop (S (Z.to_nat (d_size (i_d ip))))
      (λ off,
         if off <? d_size (i_d ip) then
           r ← readi dp false de off sizeof_dirent;
           if negb (r =? sizeof_dirent) then panic "dirlookup read"
           else
             inum ← on_fmem (de_inum de);
             if inum =? 0 then mret (inl (u32 (off + sizeof_dirent)))
             else
               c ← on_fmem (namecmp name (de_name de));
               if c =? 0 then
                 _ ← (if poff =? 0 then mret tt else on_fmem (set_off poff off) : prog fsst unit);
                 a ← iget (i_dev ip) inum;
                 mret (inr a)
               else mret (inl (u32 (off + sizeof_dirent)))
         else mret (inr 0))
      0.

Definition dirlink (de dp name inum : Z) : prog fsst Z :=
  ip ← dirlookup de dp name 0;
  if negb (ip =? 0) then _ ← iput ip; mret (-1)
  else
    dip ← read_inode dp;
    off ← loop (S (Z.to_nat (d_size (i_d dip))))
            (λ off,
               if u32 off <? d_size (i_d dip) then
                 r ← readi dp false de off sizeof_dirent;
                 if negb (r =? sizeof_dirent) then panic "dirlink read"
                 else
                   inum ← on_fmem (de_inum de);
                   if inum =? 0 then mret (inr off) else mret (inl (off + sizeof_dirent))
               else mret (inr off))
            0;
    _ ← on_fmem (strncpy (de_name de) name DIRSIZ);
    _ ← on_fmem (set_de_inum de inum);
    r ← writei dp false de (u32 off) sizeof_dirent;
    if negb (r =? sizeof_dirent) then mret (-1) else mret 0.

(** * Paths *)

Definition SLASH : Z := 47.

(** [while(cond( *path)) path++] *)
Definition skip_while (cond : Z → bool) (path : Z) : prog bmem Z :=
  m ← get;
  loop (S (size m)) (λ p, c ← load8 p; if cond c then mret (inl (p + 1)) else mret (inr p)) path.

Definition skipelem (path name : Z) : prog bmem Z :=
  path ← skip_while (λ c, c =? SLASH) path;
  c ← load8 path;
  if c =? 0 then mret 0
  else
    let s := path in
    path ← skip_while (λ c, negb (c =? SLASH) && negb (c =? 0)) path;
    let len := path - s in
    _ ← (if DIRSIZ <=? len then _ ← memmove name s DIRSIZ; mret tt
         else _ ← memmove name s len; store8 (name + len) 0 : prog bmem unit);
    skip_while (λ c, c =? SLASH) path.

Definition namex (de path : Z) (nameiparent : bool) (name : Z) : prog fsst Z :=
  c ← on_fmem (load8 path);
  s ← get;
  ip ← (if c =? SLASH then iget ROOTDEV ROOTINO else idup (cwd s) : prog fsst Z);
  loop (S (size (fmem s)))
    (λ '(ip, path),
       path ← on_fmem (skipelem path name);
       if path =? 0 then
         if nameiparent then _ ← iput ip; mret (inr 0) else mret (inr ip)
       else
         _ ← ilock ip;
         x ← read_inode ip;
         if negb (d_type (i_d x) =? T_DIR) then _ ← iunlockput ip; mret (inr 0)
         else
           c ← on_fmem (load8 path);
           if nameiparent && (c =? 0) then _ ← iunlock ip; mret (inr ip)
           else
             next ← dirlookup de ip name 0;
             if next =? 0 then _ ← iunlockput ip; mret (inr 0)
             else _ ← iunlockput ip; mret (inl (next, path)))
    (ip, path).

(** [name] of [namei] is a local array. *)
Definition namei (de name path : Z) : prog fsst Z := namex de path false name.

Definition nameiparent (de path name : Z) : prog fsst Z := namex de path true name.

End Content.

(** * Initialisation *)

Record bootfs := BootFs {
  fs_kst : kstate;
  fs : fsst }.

Definition on_fs_kst {A} (m : prog kstate A) : prog bootfs A := zoom fs_kst (λ k s, BootFs k (fs s)) m.

Definition on_fs {A} (m : prog fsst A) : prog bootfs A := zoom fs (λ f s, BootFs (fs_kst s) f) m.

Definition sizeof_inode : Z := 136.

Definition iinit : prog bootfs unit :=
  _ ← on_fs (modify (set_it_lock false));
  inode_cache ← on_fs_kst (kmem_cache_create (Some "inode"%string) sizeof_inode NULL NULL);
  array ← on_fs_kst (kmalloc (8 * NINODE));
  if array =? 0 then panic "iinit: kmalloc"
  else
    _ ← on_fs (modify (set_it_array []));
    for_range 0 NINODE (λ i,
      a ← on_fs_kst (kmem_cache_alloc inode_cache);
      if a =? 0 then panic "iinit: inode alloc"
      else
        _ ← on_fs (modify (λ s, set_it_array (it_array s ++ [a]) s));
        on_fs (modify (λ s, set_inodes (<[a := zero_inode]> (inodes s)) s))).
