(* ===== verification/FsNames.v ===== *)
(** Path names: [skipelem] splits a path the way its comment says. *)

From S2P Require Import Prelude.
From S2P Require Import Cstring.
From S2P Require Import Fs.

(** * The reference *)

(** The number of leading bytes that satisfy [f]. *)
Fixpoint prefix_len (f : Z → bool) (l : list Z) : nat :=
  match l with
  | [] => 0
  | c :: l' => if f c then S (prefix_len f l') else 0
  end.

Definition is_slash (c : Z) : bool := c =? SLASH.

Definition is_elem_char (c : Z) : bool := negb (c =? SLASH) && negb (c =? 0).

(** A path without its leading slashes. *)
Definition strip (l : list Z) : list Z := drop (prefix_len is_slash l) l.

(** The first element of a path, and the rest without leading slashes. *)
Definition split_elem (l : list Z) : option (list Z * list Z) :=
  match strip l with
  | [] => None
  | l' => Some (take (prefix_len is_elem_char l') l', strip (drop (prefix_len is_elem_char l') l'))
  end.

(** The examples of the comment: [a/bb/c], [///a//bb], [a], [////]. *)
Example split_elem_1 : split_elem [97; 47; 98; 98; 47; 99] = Some ([97], [98; 98; 47; 99]).
Proof. reflexivity. Qed.

Example split_elem_2 : split_elem [47; 47; 47; 97; 47; 47; 98; 98] = Some ([97], [98; 98]).
Proof. reflexivity. Qed.

Example split_elem_3 : split_elem [97] = Some ([97], []).
Proof. reflexivity. Qed.

Example split_elem_4 : split_elem [47; 47; 47; 47] = None.
Proof. reflexivity. Qed.

(** * Strings *)

Lemma cstr_drop m a l i : cstr m a l → (i ≤ length l)%nat → cstr m (a + Z.of_nat i) (drop i l).
Proof.
  intros (H0 & H1 & H2 & H3 & H4) Hi. unfold cstr, field. rewrite length_drop. split_and!; try lia.
  - intros j c Hj. rewrite lookup_drop in Hj. destruct (H3 _ _ Hj) as [E ?]. split; [|done]. rewrite <- E. f_equal. lia.
  - intros _. rewrite <- H4 by lia. f_equal. lia.
Qed.

Lemma cstr_frame m m' a l : cstr m a l → (∀ x, a ≤ x < a + zlen l + 1 → m' !! x = m !! x) → cstr m' a l.
Proof.
  intros (H0 & H1 & H2 & H3 & H4) Hm. split_and!; try done.
  - intros i c Hi. rewrite Hm; [by apply H3|]. apply lookup_lt_Some in Hi. lia.
  - intros Hl. rewrite Hm by lia. by apply H4.
Qed.

Lemma cstr_mapped m a l : cstr m a l → mapped m a (zlen l + 1).
Proof.
  intros H. pose proof H as (H0 & H1 & _). split_and!; [done..|]. intros i Hi.
  replace i with (Z.of_nat (Z.to_nat i)) by lia. eexists. eapply field_nul; [exact H|lia|lia].
Qed.

Lemma prefix_len_le f l : (prefix_len f l ≤ length l)%nat.
Proof. induction l as [|c l IH]; simpl; [lia|]. destruct (f c); lia. Qed.

Lemma prefix_len_eq f l i :
  (i ≤ length l)%nat → (∀ j c, (j < i)%nat → l !! j = Some c → f c = true) → (∀ c, l !! i = Some c → f c = false) →
  prefix_len f l = i.
Proof.
  revert i. induction l as [|c l IH]; intros [|i] Hi Hf Hn; simpl in *; try lia.
  - by rewrite (Hn c).
  - rewrite (Hf 0%nat c) by (done || lia). f_equal. apply IH; [lia| |done].
    intros j c' Hj. apply (Hf (S j)). lia.
Qed.

Lemma wp_skip_while f path l m (Q : Z → bmem → Prop) :
  f 0 = false → cstr m path l → Q (path + Z.of_nat (prefix_len f l)) m → wp (skip_while f path) Q m.
Proof.
  intros Hf0 Hs HQ. pose proof (cstr_size _ _ _ Hs) as Hsz. unfold skip_while. wp_auto.
  apply (wp_loop (λ n p s, s = m ∧ ∃ i : nat, p = path + Z.of_nat i ∧ (i ≤ length l)%nat ∧ n = (length l - i)%nat ∧
    ∀ j c, (j < i)%nat → l !! j = Some c → f c = true) (length l)); [|lia|].
  { split; [done|]. exists 0%nat. split_and!; try lia. }
  intros n p s (-> & i & -> & Hi & -> & Hpre). wp_auto.
  apply (wp_load8 _ (nul l i)); [apply (field_nul _ _ _ _ _ Hs); lia|].
  destruct (f (nul l i)) eqn:Ef; wp_auto.
  - assert (i < length l)%nat as Hlt.
    { destruct (decide (i = length l)) as [->|]; [|lia]. unfold nul in Ef. rewrite lookup_ge_None_2 in Ef by lia.
      simpl in Ef. congruence. }
    exists (length l - S i)%nat. split; [lia|]. split; [done|]. exists (S i). split_and!; try lia.
    intros j c Hj Hc. destruct (decide (j = i)) as [->|]; [|apply (Hpre j); [lia|done]].
    unfold nul in Ef. by rewrite Hc in Ef.
  - rewrite (prefix_len_eq f l i) in HQ; [done|done|done|]. intros c Hc. unfold nul in Ef. by rewrite Hc in Ef.
Qed.

(** The element is copied to the buffer. *)
Lemma wp_copy_name m s name l k (Q : unit → bmem → Prop) :
  cstr m s l → (k ≤ length l)%nat → mapped m name DIRSIZ →
  (∀ m', field m' name DIRSIZ (take (Z.to_nat DIRSIZ) (take k l)) →
     (∀ x, ¬ (name ≤ x < name + DIRSIZ) → m' !! x = m !! x) → Q tt m') →
  wp (if DIRSIZ <=? Z.of_nat k then _ ← memmove name s DIRSIZ; mret tt
      else _ ← memmove name s (Z.of_nat k); store8 (name + Z.of_nat k) 0) Q m.
Proof.
  intros Hs Hk Hn HQ. pose proof (cstr_mapped _ _ _ Hs) as Hsm.
  destruct (Z.leb_spec DIRSIZ (Z.of_nat k)) as [Hle|Hlt]; wp_auto.
  - eapply wp_mono; [apply wp_memmove; [unfold DIRSIZ; lia|done|eapply mapped_sub; [exact Hsm|lia|lia]]|].
    intros r m1 [_ Hc]. wp_auto. apply HQ.
    + rewrite take_take. replace (Z.to_nat DIRSIZ `min` k)%nat with 14%nat by (unfold DIRSIZ in *; lia).
      change DIRSIZ with (Z.of_nat 14) in Hc. eapply copied_string; try done; unfold DIRSIZ in *; lia.
    + intros x Hx. eapply copied_outside; [exact Hc| |exact Hx]. lia.
  - assert (mapped m name (Z.of_nat k)) as Hnk by (eapply mapped_sub; [exact Hn|lia|lia]).
    eapply wp_mono; [apply wp_memmove; [unfold DIRSIZ in *; lia|done|eapply mapped_sub; [exact Hsm|lia|lia]]|].
    intros r m1 [_ Hc]. apply wp_store8.
    { rewrite Hc, decide_False by lia. apply (mapped_at _ _ _ _ Hn). lia. }
    apply HQ.
    + rewrite take_take. replace (Z.to_nat DIRSIZ `min` k)%nat with k by lia. eapply copied_string; try done; [lia| |].
      * intros a Ha. by rewrite lookup_insert_ne by lia.
      * intros _. apply lookup_insert_eq.
    + intros x Hx. rewrite lookup_insert_ne by lia. eapply copied_outside; [done| |done]. lia.
Qed.

(** * The property *)

(** [skipelem] on a path, with a [DIRSIZ]-byte buffer that does not
    overlap it, agrees with [split_elem]: it returns 0 and changes nothing if
    the path has no element, and otherwise returns a pointer to the rest of
    the path with the element, cut to [DIRSIZ] bytes, in the buffer and the
    rest of memory unchanged. *)
Theorem skipelem_correct m path name l :
  cstr m path l → 0 < path → mapped m name DIRSIZ → name + DIRSIZ ≤ path ∨ path + zlen l + 1 ≤ name →
  wp (skipelem path name) (λ r m',
    match split_elem l with
    | None => r = 0 ∧ m' = m
    | Some (e, rest) =>
        0 < r ∧ r + zlen rest = path + zlen l ∧ cstr m' r rest ∧
        field m' name DIRSIZ (take (Z.to_nat DIRSIZ) e) ∧
        ∀ x, ¬ (name ≤ x < name + DIRSIZ) → m' !! x = m !! x
    end) m.
Proof.
  intros Hs Hp Hn Hap. unfold skipelem. wp_auto. apply (wp_skip_while is_slash _ l); [done|done|]. wp_auto.
  pose proof (prefix_len_le is_slash l) as Hk. pose proof (cstr_drop _ _ _ _ Hs Hk) as Hs1.
  unfold split_elem. fold (strip l) in Hs1. assert (zlen (strip l) = zlen l - Z.of_nat (prefix_len is_slash l)) as El1
    by (unfold strip; rewrite length_drop; lia).
  set (p1 := path + Z.of_nat (prefix_len is_slash l)) in *. set (l1 := strip l) in *. clearbody l1.
  apply (wp_load8 _ (nul l1 0)).
  { rewrite <- (Z.add_0_r p1). apply (field_nul _ _ _ _ 0 Hs1); lia. }
  destruct (Z.eqb_spec (nul l1 0) 0) as [E0|E0].
  { apply (field_nul_0 _ _ _ _ 0 Hs1) in E0; [|lia]. destruct l1; [|done]. by wp_auto. }
  destruct l1 as [|c l1']; [done|]. set (l1 := c :: l1') in *. cbv zeta. wp_auto.
  apply (wp_skip_while is_elem_char _ l1); [done|done|]. wp_auto.
  pose proof (prefix_len_le is_elem_char l1) as Hk2. set (k := prefix_len is_elem_char l1) in *.
  replace (p1 + Z.of_nat k - p1) with (Z.of_nat k) by lia.
  apply (wp_copy_name _ _ _ l1); [done|done|done|]. intros m' Hf Hout.
  assert (cstr m' p1 l1) as Hs2.
  { eapply cstr_frame; [done|]. intros x Hx. apply Hout. lia. }
  pose proof (cstr_drop _ _ _ _ Hs2 Hk2) as Hs3. apply (wp_skip_while is_slash _ (drop k l1)); [done|done|].
  pose proof (prefix_len_le is_slash (drop k l1)) as Hk3. pose proof (cstr_drop _ _ _ _ Hs3 Hk3) as Hs4.
  rewrite length_drop in Hk3. split_and!; [lia| |done|done|done].
  unfold strip. rewrite !length_drop. lia.
Qed.

(** The path [/a/b] at address 100 and a buffer at 200. *)
Definition example_path : bmem :=
  list_to_map (zip (seqZ 100 5) [47; 97; 47; 98; 0] ++ zip (seqZ 200 14) (replicate 14 0)).
