(* ===== verification/FsTable.v ===== *)
(** The inode table: [iget] keeps at most one entry per inode in use. *)

From S2P Require Import Prelude.
From S2P Require Import Bio.
From S2P Require Import Log.
From S2P Require Import Fs.

(** * The invariant *)

(** The entry of inode [inum] of [dev] is in use. *)
Definition names (dev inum : Z) (ip : inode) : Prop := 0 < i_ref ip ∧ i_dev ip = dev ∧ i_inum ip = inum.

Record itable_ok (s : fsst) : Prop := {
  tb_lock : it_lock s = false;
  tb_nodup : NoDup (it_array s);
  tb_entry : ∀ a, a ∈ it_array s → a ≠ 0 ∧ ∃ ip, inodes s !! a = Some ip ∧ 0 ≤ i_ref ip;
  tb_uniq : ∀ a b x y dev inum, a ∈ it_array s → b ∈ it_array s → inodes s !! a = Some x → inodes s !! b = Some y →
    names dev inum x → names dev inum y → a = b }.

(** An entry for the inode can be had. *)
Definition iget_ready (dev inum : Z) (s : fsst) : Prop :=
  ∃ a ip, a ∈ it_array s ∧ inodes s !! a = Some ip ∧
    (i_ref ip = 0 ∨ names dev inum ip).

(** * The scan *)

Definition is_named (dev inum : Z) (ip : inode) : bool :=
  (0 <? i_ref ip) && (i_dev ip =? dev) && (i_inum ip =? inum).

Lemma is_named_spec dev inum ip : is_named dev inum ip = true ↔ names dev inum ip.
Proof. unfold is_named, names. rewrite !andb_true_iff, Z.ltb_lt, !Z.eqb_eq. tauto. Qed.

Lemma wp_read_inode a ip (Q : inode → fsst → Prop) s : inodes s !! a = Some ip → Q ip s → wp (read_inode a) Q s.
Proof. intros H HQ. unfold read_inode. wp_auto. by apply (wp_of_option _ ip). Qed.

Lemma wp_update_inode a f ip (Q : unit → fsst → Prop) s :
  inodes s !! a = Some ip → Q tt (set_inodes (<[a := f ip]> (inodes s)) s) → wp (update_inode a f) Q s.
Proof. intros H HQ. unfold update_inode. wp_auto. apply (wp_read_inode _ ip); [done|]. by wp_auto. Qed.

(** The result of the scan: the entry of the inode; or no entry is, and the
    first free one if [empty] is still 0. *)
Lemma wp_iget_scan dev inum l empty s (Q : Z + Z → fsst → Prop) :
  (∀ a, a ∈ l → a ≠ 0 ∧ ∃ ip, inodes s !! a = Some ip ∧ 0 ≤ i_ref ip) →
  (∀ a ip, a ∈ l → inodes s !! a = Some ip → names dev inum ip → Q (inl a) s) →
  (∀ e, (∀ a ip, a ∈ l → inodes s !! a = Some ip → ¬ names dev inum ip) →
     (e = empty ∧ (empty ≠ 0 ∨ ∀ a ip, a ∈ l → inodes s !! a = Some ip → i_ref ip ≠ 0)) ∨
     (empty = 0 ∧ e ∈ l ∧ ∃ ip, inodes s !! e = Some ip ∧ i_ref ip = 0) → Q (inr e) s) →
  wp (iget_scan dev inum l empty) Q s.
Proof.
  revert empty. induction l as [|a l IH]; intros empty Hl HL HR; simpl.
  { wp_auto. apply HR; [by intros a ip ?%not_elem_of_nil|]. left. split; [done|]. right. by intros a ip ?%not_elem_of_nil. }
  destruct (Hl a) as (Ha0 & ip & Hip & Hr); [left|]. wp_auto. apply (wp_read_inode _ ip); [done|].
  fold (is_named dev inum ip). destruct (is_named dev inum ip) eqn:En.
  { wp_auto. apply (HL a ip); [left|done|by apply is_named_spec]. }
  assert (¬ names dev inum ip) as Hnn by (rewrite <- is_named_spec; congruence).
  apply IH.
  - intros b Hb. apply Hl. by right.
  - intros b ip' Hb. apply HL. by right.
  - intros e Hno He. apply HR.
    { intros b ip' [->|Hb]%elem_of_cons Hb'; [congruence|by eapply Hno]. }
    destruct ((empty =? 0) && (i_ref ip =? 0)) eqn:Ee.
    + apply andb_true_iff in Ee as [E1%Z.eqb_eq E2%Z.eqb_eq]. right. split; [done|].
      destruct He as [[-> _]|[? _]]; [|done]. split; [left|]. by exists ip.
    + destruct He as [[-> He]|(E & Hin & He)].
      * left. split; [done|]. destruct (Z.eqb_spec empty 0) as [E|E]; [|by left]. simpl in Ee. apply Z.eqb_neq in Ee.
        right. intros b ip' [->|Hb]%elem_of_cons Hb'; [congruence|]. destruct He as [He|He]; [done|by eapply He].
      * right. split; [done|]. split; [by right|done].
Qed.

(** An entry changes, without naming an inode that another entry names. *)
Lemma itable_put s a ip ip' :
  itable_ok s → a ∈ it_array s → inodes s !! a = Some ip → 0 ≤ i_ref ip' →
  (∀ dev inum b y, names dev inum ip' → b ∈ it_array s → b ≠ a → inodes s !! b = Some y → ¬ names dev inum y) →
  itable_ok (set_inodes (<[a := ip']> (inodes s)) s).
Proof.
  intros [Hlk Hnd Hent Huq] Ha Hip Hr Hno. split; cbn; try done.
  - intros b Hb. destruct (Hent b Hb) as (? & x & Hx & ?). split; [done|].
    destruct (decide (b = a)) as [->|]; [|rewrite lookup_insert_ne by done; eauto].
    exists ip'. by rewrite lookup_insert_eq.
  - intros b c x y dev inum Hb Hc Hx Hy Nx Ny. destruct (decide (b = a)) as [->|Hba], (decide (c = a)) as [->|Hca].
    + done.
    + rewrite lookup_insert_eq in Hx. injection Hx as <-. rewrite lookup_insert_ne in Hy by done.
      by destruct (Hno dev inum c y).
    + rewrite lookup_insert_eq in Hy. injection Hy as <-. rewrite lookup_insert_ne in Hx by done.
      by destruct (Hno dev inum b x).
    + rewrite lookup_insert_ne in Hx, Hy by done. by eapply (Huq b c x y).
Qed.

(** * The property *)

(** [iget] finds the entry of an inode in use and raises its count, or
    else claims a free entry with a count of one and contents still to be
    read.  It changes no other entry, and the table still holds at most one
    entry per inode in use. *)
Theorem iget_correct s dev inum :
  itable_ok s → iget_ready dev inum s →
  (∀ a ip, a ∈ it_array s → inodes s !! a = Some ip → i_ref ip < int_max) →
  wp (iget dev inum) (λ a s', itable_ok s' ∧ a ∈ it_array s ∧ ∃ ip, inodes s !! a = Some ip ∧
    ((names dev inum ip ∧ s' = set_inodes (<[a := set_ref (i_ref ip + 1) ip]> (inodes s)) s) ∨
     (i_ref ip = 0 ∧ s' = set_inodes (<[a := Inode dev inum 1 (i_held ip) false (i_d ip)]> (inodes s)) s ∧
      ∀ b y, b ∈ it_array s → inodes s !! b = Some y → ¬ names dev inum y))) s.
Proof.
  intros Htb (r & x & Hr & Hx & Hready) Hmax. pose proof Htb as [Hlk _ Hent Huq].
  assert (∀ m, set_it_lock false (set_inodes m (set_it_lock true s)) = set_inodes m s) as Eu.
  { intros m. destruct s. cbn in *. by subst. }
  unfold iget, acquire_itable, release_itable. wp_auto. rewrite Hlk. wp_auto. apply wp_iget_scan; [exact Hent| |].
  - intros a ip Ha Hip Hn. cbn in Hip. wp_auto. unfold inc_ref. wp_auto. apply (wp_read_inode _ ip); [done|].
    rewrite (proj2 (Z.leb_gt _ _)) by (by eapply Hmax). apply (wp_update_inode _ _ ip); [done|]. wp_auto.
    cbn [it_lock set_inodes set_it_lock]. wp_auto. cbn [inodes set_it_lock]. rewrite Eu.
    split_and!; [|done|exists ip; split; [done|by left]].
    apply (itable_put _ _ ip); [done|done|done|destruct Hn; cbn; lia|].
    intros dev' inum' b y (_ & <- & <-) Hb Hne Hy Ny. apply Hne. destruct Hn as (? & ? & ?).
    by eapply (Huq b a y ip).
  - intros e Hno He. assert (e ∈ it_array s ∧ ∃ ip, inodes s !! e = Some ip ∧ i_ref ip = 0) as (Hin & ip & Hip & H0).
    { destruct He as [(_ & [?|He])|(_ & ? & ?)]; [done| |done]. destruct Hready as [E|Hn].
      - by destruct (He r x Hr Hx).
      - by destruct (Hno r x Hr Hx). }
    destruct (Hent e Hin) as [He0 _]. rewrite (proj2 (Z.eqb_neq _ _)) by done. wp_auto.
    apply (wp_update_inode _ _ ip); [done|]. wp_auto. cbn [it_lock set_inodes set_it_lock]. wp_auto.
    cbn [inodes set_it_lock]. rewrite Eu. split_and!; [|done|exists ip; split; [done|by right]].
    apply (itable_put _ _ ip); [done|done|done|cbn; lia|]. intros dev' inum' b y (_ & <- & <-) Hb _ Hy. by eapply Hno.
Qed.

(** A table of two entries: inode 7 in use and a free one. *)
Definition example_table : fsst :=
  FsSt (LogSt (BSt ∅ 0 ∅ false ∅ []) false 2 0 false 1 0 ∅) (Superblock 0 0 0 0 0 0 0 0) false [100; 200]
    {[100 := Inode 1 7 1 false false zero_dinode; 200 := zero_inode]} ∅ 100.

Lemma example_table_entry a ip : a ∈ it_array example_table → inodes example_table !! a = Some ip →
  (a = 100 ∧ ip = Inode 1 7 1 false false zero_dinode) ∨ (a = 200 ∧ ip = zero_inode).
Proof.
  intros Ha Hip. apply elem_of_cons in Ha as [->|Ha]; [injection Hip as <-; by left|].
  apply list_elem_of_singleton in Ha as ->. injection Hip as <-. by right.
Qed.

Lemma example_table_ok : itable_ok example_table.
Proof.
  split; [done| | |].
  - apply NoDup_cons. split; [|apply NoDup_singleton]. intros H%list_elem_of_singleton. lia.
  - intros a Ha. apply elem_of_cons in Ha as [->|Ha]; [split; [lia|]; eexists; split; [reflexivity|simpl; lia]|].
    apply list_elem_of_singleton in Ha as ->. split; [lia|]. eexists. split; [reflexivity|simpl; lia].
  - intros a b x y dev inum Ha Hb Hx Hy (Nx & _) (Ny & _).
    destruct (example_table_entry a x Ha Hx) as [[-> ->]|[-> ->]]; [|simpl in Nx; lia].
    destruct (example_table_entry b y Hb Hy) as [[-> ->]|[-> ->]]; [done|simpl in Ny; lia].
Qed.
