(* ===== verification/FsBlocks.v ===== *)
(** The block bitmap: what the operations of the log and the buffer cache mean
    to a client inside a transaction, and what [balloc] and [bfree] do to the
    logical disk. *)

From S2P Require Import Prelude.
From S2P Require Import Bio.
From S2P Require Import BioInv.
From S2P Require Import BioProps.
From S2P Require Import Log.
From S2P Require Import LogInv.
From S2P Require Import LogSteps.
From S2P Require Import Fs.

(** * A transaction *)

Definition logged (s : logst) (n : Z) : Prop := ∃ i, 0 ≤ i < lh_n s ∧ u32 (default 0 (lh_block s !! i)) = n.

(** A process inside a transaction, with logical disk [V] and buffers in use
    [A]: the log keeps a reference to each logged block. *)
Record txn (dv : Z) (nb : nat) (s : logst) (V : gmap Z block) (A : gmap Z active) : Prop := {
  tx_bio : bio_rep dv nb (lg_bio s) V A;
  tx_lock : lg_lock s = false;
  tx_n : 0 ≤ lh_n s ≤ LOGBLOCKS;
  tx_out : 1 ≤ outstanding s;
  tx_pin : ∀ n, logged s n → ∃ e, A !! n = Some e ∧ (if ac_held e then 2 else 1) ≤ ac_ref e }.

(** The disk and the buffer cache are all that changes. *)
Definition same_log (s s' : logst) : Prop :=
  lg_lock s' = lg_lock s ∧ lh_n s' = lh_n s ∧ lh_block s' = lh_block s ∧ outstanding s' = outstanding s.

Lemma same_log_bio b s : same_log s (set_lg_bio b s).
Proof. by split_and!. Qed.

Lemma logged_same s s' n : same_log s s' → logged s' n ↔ logged s n.
Proof. intros (_ & E1 & E2 & _). unfold logged. by rewrite E1, E2. Qed.

Lemma bio_ref_pos dv nb s V A n e : bio_rep dv nb s V A → A !! n = Some e → 0 < ac_ref e.
Proof. intros (L & _ & H) He. by destruct (bi_lookup _ _ _ _ _ _ _ H He) as (x & _ & _ & _ & _ & _ & _ & _ & _ & ?); lia. Qed.

Lemma txn_bio dv nb s V A b V' A' :
  txn dv nb s V A → bio_rep dv nb b V' A' →
  (∀ n, logged s n → ∃ e, A' !! n = Some e ∧ (if ac_held e then 2 else 1) ≤ ac_ref e) →
  txn dv nb (set_lg_bio b s) V' A'.
Proof. intros [H1 H2 H3 H4 H5] Hb Hp. by split. Qed.

(** A pinned block stays pinned when the process takes or drops its lock. *)
Lemma pinned_insert dv nb s V A n x e :
  txn dv nb s V A → (logged s n → (if ac_held e then 2 else 1) ≤ ac_ref e) →
  logged s x → ∃ e', <[n := e]> A !! x = Some e' ∧ (if ac_held e' then 2 else 1) ≤ ac_ref e'.
Proof.
  intros H He Hx. destruct (decide (x = n)) as [->|]; [rewrite lookup_insert_eq; eauto|].
  rewrite lookup_insert_ne by done. by apply (tx_pin _ _ _ _ _ H).
Qed.

(** * Operations on buffers *)

Section Client.

Context (dv : Z) (nb : nat).

Lemma wp_tx_bread s V A n d (Q : Z → logst → Prop) :
  txn dv nb s V A → V !! n = Some d → bread_ready nb A n →
  (∀ a b, txn dv nb (set_lg_bio b s) V (<[n := Act a (ref_of A n + 1) true]> A) → same_disk (lg_bio s) b →
     (∀ e, A !! n = Some e → a = ac_addr e) → Q a (set_lg_bio b s)) →
  wp (on_lg (bread dv n)) Q s.
Proof.
  intros H Hd Hr HQ. unfold on_lg. apply wp_zoom. eapply wp_mono; [by eapply wp_bread; [apply H|..]|].
  intros a b (Hb & Hdk & Ha). apply HQ; [|done..]. eapply txn_bio; [done..|]. intros x. eapply pinned_insert; [done|].
  intros (e & He & _)%(tx_pin _ _ _ _ _ H). cbn. unfold ref_of. rewrite He. cbn.
  pose proof (bio_ref_pos _ _ _ _ _ _ _ (tx_bio _ _ _ _ _ H) He). lia.
Qed.

Lemma wp_tx_read s V A n a r h d (Q : buf → logst → Prop) :
  txn dv nb s V A → A !! n = Some (Act a r h) → V !! n = Some d →
  (∀ x, b_data x = d → b_blockno x = n → Q x s) → wp (on_lg (read_buf a)) Q s.
Proof.
  intros H He Hd HQ. unfold on_lg. apply wp_zoom. apply (wp_held_data _ _ _ _ _ _ _ _ (tx_bio _ _ _ _ _ H) He).
  intros x E1 E2 _. replace (set_lg_bio (lg_bio s) s) with s by (by destruct s). apply HQ; [congruence|done].
Qed.

Lemma wp_tx_set_data s V A n a r h d (Q : unit → logst → Prop) :
  txn dv nb s V A → A !! n = Some (Act a r h) →
  (∀ b, txn dv nb (set_lg_bio b s) (<[n := d]> V) A → Q tt (set_lg_bio b s)) →
  wp (on_lg (update_buf a (set_data d))) Q s.
Proof.
  intros H He HQ. unfold on_lg. apply wp_zoom. apply (wp_set_data _ _ _ _ _ _ _ _ _ (tx_bio _ _ _ _ _ H) He).
  intros b Hb _. apply HQ. eapply txn_bio; [done..|]. apply H.
Qed.

(** Dropping the lock of a block the log has pinned. *)
Lemma wp_tx_brelse s V A n a r (Q : unit → logst → Prop) :
  txn dv nb s V A → A !! n = Some (Act a r true) → 2 ≤ r →
  (∀ b, txn dv nb (set_lg_bio b s) V (<[n := Act a (r - 1) false]> A) → Q tt (set_lg_bio b s)) →
  wp (on_lg (brelse a)) Q s.
Proof.
  intros H He Hr HQ. unfold on_lg. apply wp_zoom.
  apply (wp_brelse _ _ _ _ _ n (Act a r true) _ (tx_bio _ _ _ _ _ H) He); [done|cbn; lia|].
  unfold released. cbn. rewrite (proj2 (Z.eqb_neq _ _)) by lia. intros b Hb _. apply HQ. eapply txn_bio; [done..|].
  intros x. eapply pinned_insert; [done|]. cbn. lia.
Qed.

(** Dropping the lock of a block that was only read. *)
Lemma wp_tx_brelse_clean s b V A n a (Q : unit → logst → Prop) :
  txn dv nb s V A → bread_ready nb A n → txn dv nb (set_lg_bio b s) V (<[n := Act a (ref_of A n + 1) true]> A) →
  same_disk (lg_bio s) b → (∀ e, A !! n = Some e → a = ac_addr e) →
  (∀ b', txn dv nb (set_lg_bio b' s) V A → Q tt (set_lg_bio b' s)) →
  wp (on_lg (brelse a)) Q (set_lg_bio b s).
Proof.
  intros H Hrd H' [Edk _] Ha HQ. unfold on_lg. apply wp_zoom.
  apply (wp_brelse _ _ _ _ _ n (Act a (ref_of A n + 1) true) _ (tx_bio _ _ _ _ _ H')); [apply lookup_insert_eq|done| |].
  - cbn. intros E. destruct (A !! n) as [e|] eqn:He.
    { pose proof (bio_ref_pos _ _ _ _ _ _ _ (tx_bio _ _ _ _ _ H) He). unfold ref_of in E. rewrite He in E. cbn in E. lia. }
    rewrite Edk. symmetry. by apply (bio_clean _ _ _ _ _ _ (tx_bio _ _ _ _ _ H)).
  - intros b' Hb' _. assert (released (<[n := Act a (ref_of A n + 1) true]> A) n (Act a (ref_of A n + 1) true) = A) as E.
    { unfold released, ref_of. cbn. destruct (A !! n) as [e|] eqn:He; cbn.
      - pose proof (bio_ref_pos _ _ _ _ _ _ _ (tx_bio _ _ _ _ _ H) He). rewrite (proj2 (Z.eqb_neq _ _)) by lia.
        rewrite insert_insert_eq. apply insert_id. rewrite He, (Ha e eq_refl), Z.add_simpl_r.
        unfold bread_ready in Hrd. rewrite He in Hrd. destruct e; cbn in *. by destruct Hrd as [-> _].
      - by apply delete_insert_id. }
    rewrite E in Hb'. apply HQ. eapply txn_bio; [done..|]. apply H.
Qed.

(** The entry [log_write] fills is the one of block [n], if it has one, or
    the first free one. *)
Lemma logged_put s s' i n m :
  0 ≤ i ≤ lh_n s → 0 ≤ n < 2 ^ 32 → (i < lh_n s → u32 (default 0 (lh_block s !! i)) = n) →
  lh_n s' = Z.max (lh_n s) (i + 1) → lh_block s' = <[i := s32 n]> (lh_block s) →
  logged s' m ↔ m = n ∨ logged s m.
Proof.
  intros Hi Hn Hab E1 E2. assert (u32 (s32 n) = n) as E by (unfold u32, s32; Z.to_euclidean_division_equations; lia).
  unfold logged. rewrite E1, E2. split.
  - intros (j & Hj & <-). destruct (decide (j = i)) as [->|]; [left; by rewrite lookup_insert_eq|].
    right. exists j. rewrite lookup_insert_ne by done. split; [lia|done].
  - intros [->|(j & Hj & <-)]; [exists i; rewrite lookup_insert_eq; split; [lia|done]|].
    exists j. split; [lia|]. destruct (decide (j = i)) as [->|]; [|by rewrite lookup_insert_ne].
    rewrite lookup_insert_eq, Hab by lia. done.
Qed.

Lemma wp_release_log s (Q : unit → logst → Prop) : lg_lock s = true → Q tt (set_lg_lock false s) → wp release_log Q s.
Proof. intros E HQ. unfold release_log. wp_auto. rewrite E. by wp_auto. Qed.

Lemma wp_tx_log_write s V A n a r (Q : unit → logst → Prop) :
  txn dv nb s V A → A !! n = Some (Act a r true) → 0 ≤ n < 2 ^ 32 → r < 2 ^ 32 - 1 → lh_n s < LOGBLOCKS →
  (∀ s' r', txn dv nb s' V (<[n := Act a r' true]> A) → 2 ≤ r' ≤ r + 1 → lh_n s ≤ lh_n s' ≤ lh_n s + 1 →
     (∀ m, logged s' m ↔ m = n ∨ logged s m) → Q tt s') →
  wp (log_write a) Q s.
Proof.
  intros H He Hn Hr Hroom HQ. pose proof (tx_n _ _ _ _ _ H) as Hln. pose proof (tx_out _ _ _ _ _ H) as Ho.
  pose proof (tx_lock _ _ _ _ _ H) as Hlk. pose proof (bio_ref_pos _ _ _ _ _ _ _ (tx_bio _ _ _ _ _ H) He) as Hp. cbn in Hp.
  unfold log_write, acquire_log. wp_auto. rewrite Hlk. wp_auto.
  rewrite (proj2 (Z.leb_gt _ _)), (proj2 (Z.ltb_ge _ _)) by (cbn; lia). unfold on_lg. wp_auto.
  apply (wp_held_data _ _ _ _ _ n (Act a r true) _ (tx_bio _ _ _ _ _ H) He). intros x Ex _ _.
  replace (set_lg_bio (lg_bio s) (set_lg_lock true s)) with (set_lg_lock true s) by (by destruct s). rewrite Ex. wp_auto.
  apply wp_absorb; [done|]. intros i Hi Hab. wp_auto.
  unfold write_lh_block. rewrite (proj2 (Z.leb_le 0 i)), (proj2 (Z.ltb_lt i LOGBLOCKS)) by (cbn in Hi; lia). cbn [andb]. wp_auto.
  change (lh_n (set_lg_lock true s)) with (lh_n s) in *. destruct (Z.eqb_spec i (lh_n s)) as [->|Hne]; wp_auto.
  - apply (wp_bpin _ _ _ _ _ n (Act a r true) _ (tx_bio _ _ _ _ _ H) He); [done|]. intros b Hb _. wp_auto.
    apply wp_release_log; [done|]. match goal with |- Q tt ?x => set (s' := x) end.
    assert (∀ m, logged s' m ↔ m = n ∨ logged s m) as Hlog.
    { intros m. apply (logged_put _ _ (lh_n s)); try done; unfold s'; cbn; lia. }
    apply (HQ _ (r + 1)); [|lia|unfold s'; cbn; lia|done]. split; try done; [unfold s'; cbn; lia|].
    intros m [->|Hm]%Hlog; [rewrite lookup_insert_eq; eexists; split; [done|cbn; lia]|]. eapply pinned_insert; [done| |done]. cbn. lia.
  - apply wp_release_log; [done|]. match goal with |- Q tt ?x => set (s' := x) end.
    assert (∀ m, logged s' m ↔ m = n ∨ logged s m) as Hlog.
    { intros m. apply (logged_put _ _ i); try done. unfold s'. cbn. lia. }
    assert (logged s n) as Hn' by (exists i; split; [lia|apply Hab; lia]).
    destruct (tx_pin _ _ _ _ _ H n Hn') as (e & He' & Hr2). rewrite He in He'. injection He' as <-. cbn in Hr2.
    assert (<[n := Act a r true]> A = A) as EA by (by apply insert_id).
    apply (HQ _ r); [rewrite EA|lia|unfold s'; cbn; lia|done]. split; try done; [apply H|].
    intros m [->|Hm]%Hlog; by apply (tx_pin _ _ _ _ _ H).
Qed.

(** A block that has been read is changed, logged and released. *)
Lemma wp_store_block s V A n a d (Q : unit → fsst → Prop) :
  txn dv nb (fs_log s) V (<[n := Act a (ref_of A n + 1) true]> A) → 0 ≤ n < 2 ^ 32 → ref_of A n < 2 ^ 31 →
  lh_n (fs_log s) < LOGBLOCKS →
  (∀ l r, txn dv nb l (<[n := d]> V) (<[n := Act a r false]> A) → r ≤ ref_of A n + 1 →
     lh_n l ≤ lh_n (fs_log s) + 1 → Q tt (set_fs_log l s)) →
  wp (_ ← write_data a d; _ ← on_log (log_write a); on_bufs (brelse a)) Q s.
Proof.
  intros H Hn Hr Hroom HQ. unfold write_data, on_bufs, on_log. wp_auto.
  eapply wp_tx_set_data; [exact H|apply lookup_insert_eq|]. intros b1 H1. wp_auto. cbn.
  eapply wp_tx_log_write; [exact H1|apply lookup_insert_eq|done|lia|done|]. intros l1 r1 H2 Hr1 Hl1 _. wp_auto.
  eapply wp_tx_brelse; [exact H2|apply lookup_insert_eq|lia|]. intros b2 H3. wp_auto. rewrite !insert_insert_eq in H3.
  change (set_fs_log ?x (set_fs_log _ (set_fs_log _ s))) with (set_fs_log x s).
  apply (HQ _ (r1 - 1)); [done|lia|cbn in *; lia].
Qed.

Lemma wp_fs_bread s V A n d (Q : Z → fsst → Prop) :
  txn dv nb (fs_log s) V A → V !! n = Some d → bread_ready nb A n →
  (∀ a b, let l := set_lg_bio b (fs_log s) in
     txn dv nb l V (<[n := Act a (ref_of A n + 1) true]> A) → same_disk (lg_bio (fs_log s)) b →
     (∀ e, A !! n = Some e → a = ac_addr e) → Q a (set_fs_log l s)) →
  wp (on_bufs (bread dv n)) Q s.
Proof.
  intros H Hd Hr HQ. unfold on_bufs, on_log. wp_auto. eapply wp_tx_bread; [done..|]. intros a b H1 H2 H3. by apply HQ.
Qed.

Lemma wp_fs_data s V A n a r h d (Q : block → fsst → Prop) :
  txn dv nb (fs_log s) V A → A !! n = Some (Act a r h) → V !! n = Some d → Q d s → wp (read_data a) Q s.
Proof.
  intros H He Hd HQ. unfold read_data, on_bufs, on_log. wp_auto. eapply wp_tx_read; [done..|]. intros x <- _. wp_auto.
  by replace (set_fs_log (fs_log s) s) with s by (by destruct s).
Qed.

Lemma wp_bzero s V A n d (Q : unit → fsst → Prop) :
  txn dv nb (fs_log s) V A → 0 ≤ dv < 2 ^ 32 → 0 ≤ n < 2 ^ 32 → V !! n = Some d → bread_ready nb A n → ref_of A n < 2 ^ 31 →
  lh_n (fs_log s) < LOGBLOCKS →
  (∀ l e, txn dv nb l (<[n := replicate 1024 0]> V) (<[n := e]> A) → ac_held e = false → Q tt (set_fs_log l s)) →
  wp (bzero dv n) Q s.
Proof.
  intros H Hdv Hn Hd Hrd Hr Hroom HQ. unfold bzero. rewrite !u32_small by done. wp_auto.
  eapply wp_fs_bread; [done..|]. intros a b l H1 _ _.
  eapply wp_store_block; [exact H1|done|done|done|]. intros l' r H2 _ _. by eapply HQ.
Qed.

End Client.

(** * The bitmap *)

Definition bit_set (d : block) (bi : Z) : bool := negb (Z.land (byte_at d (bi / 8)) (bit_mask bi) =? 0).

(** Block [b] is marked as in use on the logical disk [V]. *)
Definition in_use (V : gmap Z block) (k : superblock) (b : Z) : bool :=
  match V !! BBLOCK b k with
  | Some d => bit_set d (b mod BPB)
  | None => true
  end.

Lemma bit_mask_spec bi j : Z.testbit (bit_mask bi) j = (j =? bi mod 8).
Proof. unfold bit_mask. rewrite Z.shiftl_1_l, Z.pow2_bits_eqb by (by apply Z.mod_pos_bound). apply Z.eqb_sym. Qed.

Lemma bit_set_testbit d bi : bit_set d bi = Z.testbit (byte_at d (bi / 8)) (bi mod 8).
Proof.
  unfold bit_set.
  destruct (Z.testbit (byte_at d (bi / 8)) (bi mod 8)) eqn:E.
  - apply negb_true_iff, Z.eqb_neq. intros E0. apply (f_equal (λ x, Z.testbit x (bi mod 8))) in E0.
    rewrite Z.land_spec, E, bit_mask_spec, Z.eqb_refl, Z.bits_0 in E0. done.
  - apply negb_false_iff, Z.eqb_eq, Z.bits_inj_0. intros j. rewrite Z.land_spec, bit_mask_spec.
    destruct (Z.eqb_spec j (bi mod 8)) as [->|]; [by rewrite E|by rewrite andb_false_r].
Qed.

Definition set_bit (d : block) (bi : Z) : block :=
  put8 d (bi / 8) (Z.lor (byte_at d (bi / 8)) (bit_mask bi)).

Definition clear_bit (d : block) (bi : Z) : block :=
  put8 d (bi / 8) (Z.land (byte_at d (bi / 8)) (Z.lnot (bit_mask bi))).

Section Bits.

Context (d : block) (bi bj : Z).

Hypothesis Hlen : length d = 1024%nat.

Hypothesis Hi : 0 ≤ bi < BPB.

Hypothesis Hj : 0 ≤ bj < BPB.

Lemma put_bit v :
  bit_set (put8 d (bi / 8) v) bj =
  if decide (bj / 8 = bi / 8) then Z.testbit v (bj mod 8) else bit_set d bj.
Proof.
  assert (0 ≤ bi / 8 < zlen d ∧ 0 ≤ bj / 8) as [H1 H2].
  { rewrite Hlen. unfold BPB, BSIZE in *. Z.to_euclidean_division_equations. lia. }
  rewrite !bit_set_testbit, byte_at_put8 by done. case_decide; [|done].
  unfold u8. rewrite Z.mod_pow2_bits_low; [done|]. by apply Z.mod_pos_bound.
Qed.

Lemma same_bit : bj / 8 = bi / 8 → (bj mod 8 =? bi mod 8) = (bj =? bi).
Proof. intros E. apply eq_bool_prop_intro. rewrite !Is_true_true, !Z.eqb_eq. Z.to_euclidean_division_equations. lia. Qed.

Lemma set_bit_spec : bit_set (set_bit d bi) bj = bit_set d bj || (bj =? bi).
Proof.
  unfold set_bit. rewrite put_bit. case_decide as E.
  - rewrite Z.lor_spec, bit_mask_spec, (same_bit E), <- E, <- bit_set_testbit. done.
  - destruct (Z.eqb_spec bj bi) as [->|]; [done|by rewrite orb_false_r].
Qed.

Lemma clear_bit_spec : bit_set (clear_bit d bi) bj = bit_set d bj && negb (bj =? bi).
Proof.
  unfold clear_bit. rewrite put_bit. case_decide as E.
  - rewrite Z.land_spec, Z.lnot_spec, bit_mask_spec, (same_bit E), <- E, <- bit_set_testbit by (by apply Z.mod_pos_bound). done.
  - destruct (Z.eqb_spec bj bi) as [->|]; [done|by rewrite andb_true_r].
Qed.

End Bits.

Lemma wp_find_clear_bit d b size (Q : option Z → fsst → Prop) s :
  0 ≤ b → b + BPB ≤ 2 ^ 32 →
  (∀ bi, 0 ≤ bi < BPB → b + bi < size → bit_set d bi = false → (∀ bj, 0 ≤ bj < bi → bit_set d bj = true) → Q (Some bi) s) →
  ((∀ bj, 0 ≤ bj < BPB → b + bj < size → bit_set d bj = true) → Q None s) → wp (find_clear_bit d b size) Q s.
Proof.
  intros Hb Hb' HS HN. unfold find_clear_bit.
  apply (wp_loop (λ k bi s', s' = s ∧ 0 ≤ bi ≤ BPB ∧ k = Z.to_nat (BPB - bi) ∧ ∀ bj, 0 ≤ bj < bi → bit_set d bj = true)
    (Z.to_nat BPB)); [|lia|].
  { split_and!; try done. intros bj ?. lia. }
  intros k bi s' (-> & Hi & -> & Hset). destruct (Z.ltb_spec bi BPB) as [Hlt|Hge]; cbn [andb].
  2:{ wp_auto. apply HN. intros bj Hj _. apply Hset. lia. }
  rewrite u32_small by lia. destruct (Z.ltb_spec (b + bi) size) as [Hsz|Hsz].
  2:{ wp_auto. apply HN. intros bj Hj Hs. apply Hset. lia. }
  destruct (Z.land (byte_at d (bi / 8)) (bit_mask bi) =? 0) eqn:E; wp_auto.
  - apply HS; [lia|done| |done]. unfold bit_set. by rewrite E.
  - exists (Z.to_nat (BPB - (bi + 1))). split; [lia|]. split_and!; [done|lia|lia|done|].
    intros bj Hj. destruct (decide (bj = bi)) as [->|]; [unfold bit_set; by rewrite E|]. apply Hset. lia.
Qed.

(** The bitmap lies on the disk, and marks the boot block and itself as in
    use. *)
Record bitmap_ok (k : superblock) (V : gmap Z block) : Prop := {
  bm_size : 0 < sb_size k ≤ 2 ^ 31 - BPB;
  bm_self : ∀ b, 0 ≤ b < sb_size k → BBLOCK b k < sb_size k ∧ in_use V k (BBLOCK b k) = true;
  bm_disk : ∀ b, 0 ≤ b < sb_size k → ∃ d, V !! b = Some d ∧ length d = 1024%nat;
  bm_boot : in_use V k 0 = true }.

(** Every lock the process holds is on a block in use outside the bitmap. *)
Definition locks_ok (k : superblock) (V : gmap Z block) (A : gmap Z active) : Prop :=
  ∀ n e, A !! n = Some e → ac_ref e < 2 ^ 31 ∧
    (ac_held e = true → in_use V k n = true ∧ ∀ b, 0 ≤ b < sb_size k → n ≠ BBLOCK b k).

Definition no_new_locks (A A' : gmap Z active) : Prop :=
  ∀ n e, A' !! n = Some e → ac_held e = true → A !! n = Some e.

Lemma no_new_locks_put A A' n e : no_new_locks A A' → ac_held e = false → no_new_locks A (<[n := e]> A').
Proof.
  intros H He m e' Hm Hh. destruct (decide (m = n)) as [->|].
  - rewrite lookup_insert_eq in Hm. congruence.
  - rewrite lookup_insert_ne in Hm by done. by apply H.
Qed.

Section Bitmap.

Context (k : superblock) (V : gmap Z block).

Hypothesis Hok : bitmap_ok k V.

Lemma bblock_range b : 0 ≤ b < sb_size k → 0 ≤ BBLOCK b k < sb_size k.
Proof. intros Hb. split; [|by apply (bm_self _ _ Hok)]. by apply Z.mod_pos_bound. Qed.

Lemma bblock_data b : 0 ≤ b < sb_size k → ∃ d, V !! BBLOCK b k = Some d ∧ length d = 1024%nat.
Proof. intros Hb. by apply (bm_disk _ _ Hok), bblock_range. Qed.

Lemma same_bblock b r : 0 ≤ b < sb_size k → 0 ≤ r < sb_size k →
  BBLOCK b k = BBLOCK r k → (b mod BPB =? r mod BPB) = (b =? r).
Proof.
  intros Hb Hr E. pose proof (bm_size _ _ Hok). apply eq_bool_prop_intro. rewrite !Is_true_true, !Z.eqb_eq.
  unfold BBLOCK, u32, BPB, BSIZE in *. Z.to_euclidean_division_equations. lia.
Qed.

Lemma in_use_put r d d' b : 0 ≤ r < sb_size k → V !! BBLOCK r k = Some d →
  in_use (<[BBLOCK r k := d']> V) k b = if decide (BBLOCK b k = BBLOCK r k) then bit_set d' (b mod BPB) else in_use V k b.
Proof.
  intros Hr Hd. unfold in_use. case_decide as E; [by rewrite E, lookup_insert_eq|by rewrite lookup_insert_ne].
Qed.

Lemma mod_range b : 0 ≤ b mod BPB < BPB.
Proof. by apply Z.mod_pos_bound. Qed.

Lemma in_use_set r d b : 0 ≤ r < sb_size k → 0 ≤ b < sb_size k → V !! BBLOCK r k = Some d → length d = 1024%nat →
  in_use (<[BBLOCK r k := set_bit d (r mod BPB)]> V) k b = in_use V k b || (b =? r).
Proof.
  intros Hr Hb Hd Hl. rewrite (in_use_put _ d) by done. pose proof (mod_range r). pose proof (mod_range b). case_decide as E.
  - rewrite set_bit_spec by done. unfold in_use. by rewrite E, Hd, same_bblock.
  - destruct (Z.eqb_spec b r) as [->|]; [done|by rewrite orb_false_r].
Qed.

Lemma in_use_clear r d b : 0 ≤ r < sb_size k → 0 ≤ b < sb_size k → V !! BBLOCK r k = Some d → length d = 1024%nat →
  in_use (<[BBLOCK r k := clear_bit d (r mod BPB)]> V) k b = in_use V k b && negb (b =? r).
Proof.
  intros Hr Hb Hd Hl. rewrite (in_use_put _ d) by done. pose proof (mod_range r). pose proof (mod_range b). case_decide as E.
  - rewrite clear_bit_spec by done. unfold in_use. by rewrite E, Hd, same_bblock.
  - destruct (Z.eqb_spec b r) as [->|]; [done|by rewrite andb_true_r].
Qed.

(** Changes to blocks on the disk that leave the marks of the bitmap itself
    and of the boot block. *)
Lemma bitmap_ok_put n d : length d = 1024%nat →
  (∀ b, 0 ≤ b < sb_size k → b = 0 ∨ (∃ c, 0 ≤ c < sb_size k ∧ b = BBLOCK c k) →
     in_use V k b = true → in_use (<[n := d]> V) k b = true) →
  bitmap_ok k (<[n := d]> V).
Proof.
  intros Hl Hkeep. pose proof (bm_size _ _ Hok). split.
  - done.
  - intros b Hb. destruct (bm_self _ _ Hok b Hb) as [H1 H2]. split; [done|].
    apply Hkeep; [by apply bblock_range|right; eauto|done].
  - intros b Hb. destruct (decide (b = n)) as [->|]; [rewrite lookup_insert_eq; eauto|].
    rewrite lookup_insert_ne by done. by apply (bm_disk _ _ Hok).
  - apply Hkeep; [lia|by left|apply Hok].
Qed.

Lemma bitmap_block_ready nb A b : locks_ok k V A → (size A < nb)%nat → 0 ≤ b < sb_size k →
  bread_ready nb A (BBLOCK b k) ∧ ref_of A (BBLOCK b k) < 2 ^ 31.
Proof.
  intros Hlk Hsz Hb. unfold bread_ready, ref_of. destruct (A !! BBLOCK b k) as [e|] eqn:He; [|done].
  destruct (Hlk _ _ He) as [Hr Hh]. split; [|done]. split; [|lia]. destruct (ac_held e); [|done].
  destruct (Hh eq_refl) as [_ Hne]. by destruct (Hne b Hb).
Qed.

Lemma free_block_ready nb A n : locks_ok k V A → (size A < nb)%nat → in_use V k n = false →
  bread_ready nb A n ∧ ref_of A n < 2 ^ 31.
Proof.
  intros Hlk Hsz Hf. unfold bread_ready, ref_of. destruct (A !! n) as [e|] eqn:He; [|done].
  destruct (Hlk _ _ He) as [Hr Hh]. split; [|done]. split; [|lia]. destruct (ac_held e); [|done].
  destruct (Hh eq_refl). congruence.
Qed.

(** A free block is not part of the bitmap. *)
Lemma free_not_bitmap r b : in_use V k r = false → 0 ≤ b < sb_size k → r ≠ BBLOCK b k.
Proof. intros Hf Hb ->. destruct (bm_self _ _ Hok b Hb). congruence. Qed.

End Bitmap.

(** * Allocating and freeing *)

(** What a successful allocation of block [r] does to the logical disk. *)
Record allocated (k : superblock) (V V' : gmap Z block) (r : Z) : Prop := {
  al_range : 0 < r < sb_size k;
  al_free : in_use V k r = false;
  al_first : ∀ b, 0 ≤ b < r → in_use V k b = true;
  al_zero : V' !! r = Some (replicate 1024 0);
  al_used : ∀ b, 0 ≤ b < sb_size k → in_use V' k b = in_use V k b || (b =? r);
  al_frame : ∀ n, n ≠ r → n ≠ BBLOCK r k → V' !! n = V !! n }.

Section Alloc.

Context (dv : Z) (nb : nat) (s : fsst) (V : gmap Z block) (A : gmap Z active).

Hypothesis Hdv : 0 ≤ dv < 2 ^ 32.

Hypothesis Hok : bitmap_ok (sb s) V.

Hypothesis Hlk : locks_ok (sb s) V A.

Hypothesis Hnb : (size A + 2 ≤ nb)%nat.

Lemma allocated_disk r d : 0 ≤ r < sb_size (sb s) → V !! BBLOCK r (sb s) = Some d → length d = 1024%nat →
  in_use V (sb s) r = false → (∀ b, 0 ≤ b < r → in_use V (sb s) b = true) →
  let V' := <[r := replicate 1024 0]> (<[BBLOCK r (sb s) := set_bit d (r mod BPB)]> V) in
  allocated (sb s) V V' r ∧ bitmap_ok (sb s) V'.
Proof.
  intros Hr Hd Hl Hf Hfirst V'. assert (∀ b, 0 ≤ b < sb_size (sb s) → r ≠ BBLOCK b (sb s)) as Hne by (intros; by eapply free_not_bitmap).
  assert (∀ b, 0 ≤ b < sb_size (sb s) → in_use V' (sb s) b = in_use V (sb s) b || (b =? r)) as Hu.
  { intros b Hb. rewrite <- (in_use_set _ _ Hok r d b) by done. unfold in_use, V'. by rewrite lookup_insert_ne by auto. }
  split; [split|].
  - assert (r ≠ 0); [|lia]. intros ->. pose proof (bm_boot _ _ Hok). congruence.
  - done.
  - done.
  - apply lookup_insert_eq.
  - done.
  - intros n H1 H2. unfold V'. by rewrite !lookup_insert_ne by done.
  - unfold V'. apply bitmap_ok_put; [|done|].
    + apply bitmap_ok_put; [done|by unfold set_bit; rewrite length_put8|]. intros b Hb _ E.
      by rewrite (in_use_set _ _ Hok), E.
    + intros b Hb _ E. unfold in_use in *. by rewrite lookup_insert_ne by auto.
Qed.

(** The rest of [balloc] once a clear bit is found. *)
Lemma wp_balloc_take {B} l r d a (K : unit → prog fsst B) (Q : B → fsst → Prop) :
  txn dv nb l V (<[BBLOCK r (sb s) := Act a (ref_of A (BBLOCK r (sb s)) + 1) true]> A) → lh_n l + 2 ≤ LOGBLOCKS →
  0 ≤ r < sb_size (sb s) → V !! BBLOCK r (sb s) = Some d → length d = 1024%nat →
  in_use V (sb s) r = false → (∀ b, 0 ≤ b < r → in_use V (sb s) b = true) →
  (∀ l' V' A', txn dv nb l' V' A' → bitmap_ok (sb s) V' → no_new_locks A A' → allocated (sb s) V V' r →
     wp (K tt) Q (set_fs_log l' s)) →
  wp (_ ← write_data a (set_bit d (r mod BPB)); _ ← on_log (log_write a); _ ← on_bufs (brelse a); x ← bzero dv r; K x) Q
    (set_fs_log l s).
Proof.
  intros H Hroom Hr Hd Hl Hf Hfirst HQ. pose proof (bm_size _ _ Hok) as Hsz. unfold BPB, BSIZE in Hsz.
  pose proof (bblock_range _ _ Hok r Hr) as Hbb. pose proof (free_not_bitmap _ _ Hok r r Hf Hr) as Hne.
  destruct (bitmap_block_ready _ _ nb A r Hlk ltac:(lia) Hr) as [_ Hr1].
  destruct (free_block_ready _ _ nb A r Hlk ltac:(lia) Hf) as [Hrd2 Hr2].
  destruct (bm_disk _ _ Hok r Hr) as (d0 & Hd0 & _).
  destruct (allocated_disk r d Hr Hd Hl Hf Hfirst) as [Hal Hok'].
  apply wp_seq3. eapply wp_store_block; [exact H|lia|done|cbn; lia|]. intros l1 r1 H1 _ Hn1. cbn [set_fs_log fs_log] in Hn1.
  wp_auto. eapply (wp_bzero _ _ _ _ _ r d0); [exact H1|done|lia|by rewrite lookup_insert_ne by done| | |cbn; lia|].
  - unfold bread_ready in *. rewrite lookup_insert_ne by done. destruct (A !! r); [done|].
    rewrite map_size_insert. destruct (A !! BBLOCK r (sb s)); simpl; lia.
  - unfold ref_of in *. by rewrite lookup_insert_ne by done.
  - intros l2 e H2 He. eapply HQ; [exact H2|done| |done].
    apply no_new_locks_put; [apply no_new_locks_put; [by intros n x|done]|done].
Qed.

End Alloc.

(** The blocks bitmap block [BBLOCK b] describes. *)
Lemma bitmap_scan k V b d : V !! BBLOCK b k = Some d → b mod BPB = 0 → ∀ bi, 0 ≤ bi < BPB →
  (b + bi) mod BPB = bi ∧ BBLOCK (b + bi) k = BBLOCK b k ∧ in_use V k (b + bi) = bit_set d bi.
Proof.
  intros Hd Hmod bi Hi. assert ((b + bi) mod BPB = bi ∧ BBLOCK (b + bi) k = BBLOCK b k) as [E1 E2].
  { unfold BBLOCK. split; [|f_equal; f_equal]; unfold BPB, BSIZE in *; Z.to_euclidean_division_equations; lia. }
  split_and!; [done..|]. unfold in_use. by rewrite E1, E2, Hd.
Qed.

(** C17: [balloc] inside a transaction with room for two blocks takes the first
    block the bitmap does not mark: it marks that block and no other, fills it
    with zeros, changes nothing else on the logical disk, and keeps no lock.
    It returns 0, without changing the disk, exactly when every block is in
    use. *)
Theorem balloc_correct dv nb s V A :
  0 ≤ dv < 2 ^ 32 → bitmap_ok (sb s) V → locks_ok (sb s) V A → (size A + 2 ≤ nb)%nat →
  txn dv nb (fs_log s) V A → lh_n (fs_log s) + 2 ≤ LOGBLOCKS →
  wp (balloc dv) (λ r s', ∃ l V' A', s' = set_fs_log l s ∧ txn dv nb l V' A' ∧ bitmap_ok (sb s) V' ∧ no_new_locks A A' ∧
    if decide (r = 0) then V' = V ∧ ∀ b, 0 ≤ b < sb_size (sb s) → in_use V (sb s) b = true
    else allocated (sb s) V V' r) s.
Proof.
  intros Hdv Hok Hlk Hnb H Hroom. pose proof (bm_size _ _ Hok) as Hsz. unfold balloc. wp_auto.
  apply (wp_loop (λ n b s', n = Z.to_nat ((sb_size (sb s) + BPB - b) / BPB) ∧ 0 ≤ b ∧ b mod BPB = 0 ∧ b < sb_size (sb s) + BPB ∧
    (∀ c, 0 ≤ c < b → c < sb_size (sb s) → in_use V (sb s) c = true) ∧
    ∃ l, s' = set_fs_log l s ∧ txn dv nb l V A ∧ lh_n l = lh_n (fs_log s)) (Z.to_nat ((sb_size (sb s) + BPB) / BPB))).
  { rewrite Z.sub_0_r. split_and!; try done; [unfold BPB, BSIZE; lia|intros; lia|].
    exists (fs_log s). split_and!; try done. by destruct s. }
  { replace (sb_size (sb s) + BPB) with (sb_size (sb s) + 1 * BPB) by lia. rewrite Z.div_add by done. lia. }
  intros n b s' (-> & Hb & Hmod & Hb' & Huse & l & -> & Hl & Hln).
  rewrite u32_small by (unfold BPB, BSIZE in *; lia). destruct (Z.ltb_spec b (sb_size (sb s))) as [Hlt|Hge].
  2:{ wp_auto. exists l, V, A. split_and!; try done; [by intros m e|].
      split; [done|]. intros c Hc. apply Huse; lia. }
  destruct (bblock_data _ _ Hok b ltac:(lia)) as (d & Hd & Hlen).
  destruct (bitmap_block_ready (sb s) V nb A b Hlk ltac:(lia) ltac:(lia)) as [Hrd _]. wp_auto.
  eapply wp_fs_bread; [exact Hl|exact Hd|done|]. intros a bs l1 H1 Hdk Ha. wp_auto.
  eapply wp_fs_data; [exact H1|apply lookup_insert_eq|exact Hd|]. wp_auto.
  pose proof (bitmap_scan _ _ _ _ Hd Hmod) as Hbi.
  assert (∀ n c, (∀ bj, 0 ≤ bj < BPB → bj < n → b + bj < sb_size (sb s) → bit_set d bj = true) → n ≤ BPB →
    0 ≤ c < b + n → c < sb_size (sb s) → in_use V (sb s) c = true) as Hext.
  { intros n c Hn Hle Hc Hcs. destruct (decide (c < b)); [apply Huse; lia|]. replace c with (b + (c - b)) by lia.
    destruct (Hbi (c - b) ltac:(lia)) as (_ & _ & ->). apply Hn; lia. }
  apply wp_find_clear_bit; [done|unfold BPB, BSIZE in *; lia| |].
  - intros bi Hi Hsize Hclr Hfirst. wp_auto. destruct (Hbi bi Hi) as (Em & Eb & Eu).
    apply wp_bind_inv. change (set_fs_log l1 (set_fs_log l s)) with (set_fs_log l1 s).
    fold (set_bit d bi). replace (set_bit d bi) with (set_bit d ((b + bi) mod BPB)) by (by rewrite Em).
    rewrite <- Eb in H1, Hd. rewrite <- Eu in Hclr.
    eapply (wp_balloc_take dv nb s V A Hdv Hok Hlk Hnb l1 (b + bi) d); [exact H1|cbn; lia|lia|done|done|done| |].
    { intros c Hc. apply (Hext bi); [|lia..]. intros bj H0 H1' _. apply Hfirst. lia. }
    intros l2 V2 A2 K1 K2 K3 K4. wp_auto. rewrite u32_small by (unfold BPB, BSIZE in *; lia).
    exists l2, V2, A2. split_and!; try done. rewrite decide_False; [done|]. destruct K4. lia.
  - intros Hfull. wp_auto. unfold on_bufs, on_log. wp_auto. cbn [fs_log set_fs_log].
    eapply wp_tx_brelse_clean; [exact Hl|exact Hrd|exact H1|done|done|]. intros b2 H2. wp_auto.
    eexists. split; [|split; [reflexivity|]]; [unfold BPB, BSIZE in *; Z.to_euclidean_division_equations; lia|].
    split_and!; [unfold BPB, BSIZE in *; lia| |unfold BPB, BSIZE in *; lia| |].
    + rewrite Z.add_mod, Hmod, Z.mod_same by done. done.
    + intros c Hc Hcs. apply (Hext BPB); [|lia..]. intros bj H0 _ H2'. by apply Hfull.
    + eexists. split_and!; [done|exact H2|done].
Qed.

(** [bfree] of a block in use, inside a transaction with room for a block,
    clears the mark of that block and no other and changes nothing else on the
    logical disk; freeing a block that is not in use panics. *)
Theorem bfree_correct dv nb s V A b :
  0 ≤ dv < 2 ^ 32 → bitmap_ok (sb s) V → locks_ok (sb s) V A → (size A < nb)%nat →
  txn dv nb (fs_log s) V A → lh_n (fs_log s) < LOGBLOCKS → 0 ≤ b < sb_size (sb s) →
  if in_use V (sb s) b then
    wp (bfree dv b) (λ _ s', ∃ l V' A', s' = set_fs_log l s ∧ txn dv nb l V' A' ∧ no_new_locks A A' ∧
      (∀ c, 0 ≤ c < sb_size (sb s) → in_use V' (sb s) c = in_use V (sb s) c && negb (c =? b)) ∧
      ∀ n, n ≠ BBLOCK b (sb s) → V' !! n = V !! n) s
  else bfree dv b s = Panic "freeing free block".
Proof.
  intros Hdv Hok Hlk Hnb H Hroom Hb. pose proof (bm_size _ _ Hok) as Hsz. unfold BPB, BSIZE in Hsz.
  pose proof (bblock_range _ _ Hok b Hb) as Hbb. destruct (bblock_data _ _ Hok b Hb) as (d & Hd & Hl).
  destruct (bitmap_block_ready _ _ nb A b Hlk Hnb Hb) as [Hrd Hr].
  assert (in_use V (sb s) b = bit_set d (b mod BPB)) as -> by (unfold in_use; by rewrite Hd).
  unfold bfree. rewrite u32_small by done. destruct (bit_set d (b mod BPB)) eqn:Eu; unfold bit_set in Eu.
  - wp_auto. eapply wp_fs_bread; [exact H|exact Hd|done|]. intros a bs l H1 Hdk Ha. wp_auto.
    eapply wp_fs_data; [exact H1|apply lookup_insert_eq|exact Hd|]. rewrite (proj1 (negb_true_iff _) Eu).
    fold (clear_bit d (b mod BPB)).
    eapply wp_store_block; [exact H1|lia|done|done|]. intros l1 r1 H2 _ _. do 3 eexists.
    split_and!; [done|exact H2| | |].
    + by apply no_new_locks_put; [intros m e|].
    + intros c Hc. by apply in_use_clear.
    + intros n Hn. by rewrite lookup_insert_ne.
  - change ((bp ← on_bufs (bread dv (BBLOCK b (sb s)));
      d ← read_data bp;
      if Z.land (byte_at d (b mod BPB / 8)) (bit_mask (b mod BPB)) =? 0 then panic "freeing free block"
      else
        _ ← write_data bp (clear_bit d (b mod BPB));
        _ ← on_log (log_write bp);
        on_bufs (brelse bp)) s = Panic "freeing free block").
    apply bind_panics. eapply wp_fs_bread; [exact H|exact Hd|done|]. intros a bs l H1 Hdk Ha.
    apply bind_panics. eapply wp_fs_data; [exact H1|apply lookup_insert_eq|exact Hd|].
    by rewrite (proj1 (negb_false_iff _) Eu).
Qed.

(** A disk of three blocks, the second of which is the bitmap, and a
    transaction that has just begun. *)
Definition example_bitmap : gmap Z block :=
  {[0 := replicate 1024 0; 1 := 3 :: replicate 1023 0; 2 := replicate 1024 0]}.

Definition example_fs : fsst :=
  FsSt (LogSt (example_cache example_bitmap) false 10 1 false 1 0 ∅) (Superblock FSMAGIC 3 1 0 0 10 0 1) false [] ∅ ∅ 0.

Lemma example_fs_txn : txn 1 3 (fs_log example_fs) example_bitmap ∅.
Proof. split; try done. - apply example_cache_rep. - intros n (i & Hi & _). cbn in Hi. lia. Qed.

Lemma three_cases b : 0 ≤ b < 3 → b = 0 ∨ b = 1 ∨ b = 2.
Proof. lia. Qed.

Lemma example_bitmap_ok : bitmap_ok (sb example_fs) example_bitmap.
Proof.
  split.
  - cbn. unfold BPB, BSIZE. lia.
  - intros b [->|[->| ->]]%three_cases; split; reflexivity.
  - intros b [->|[->| ->]]%three_cases; eexists; split; reflexivity.
  - reflexivity.
Qed.

Lemma balloc_correct_witness : wp (balloc 1) (λ r _, r = 2) example_fs.
Proof.
  eapply wp_mono; [apply (balloc_correct 1 3 example_fs example_bitmap ∅); [lia|apply example_bitmap_ok|..|apply example_fs_txn|]|].
  - intros n e He. by rewrite lookup_empty in He.
  - rewrite map_size_empty. lia.
  - cbn. unfold LOGBLOCKS, MAXOPBLOCKS. lia.
  - intros r s' (l & V' & A' & _ & _ & _ & _ & H). case_decide as E.
    + destruct H as [_ H]. specialize (H 2 ltac:(cbn; lia)). discriminate H.
    + destruct H as [H1 H2 _ _ _ _]. destruct (three_cases r) as [->|[->| ->]]; [cbn in H1; lia|done| |done]. discriminate H2.
Defined.
