(* ===== verification/FsContent.v ===== *)
(** The contents of files: [bmap], [readi], [writei] and [iupdate] inside a
    transaction, on files whose blocks are allocated.  What is written is what
    is read. *)

From S2P Require Import Prelude.
From S2P Require Import Cstring.
From S2P Require Import Bio.
From S2P Require Import BioInv.
From S2P Require Import BioProps.
From S2P Require Import Log.
From S2P Require Import LogInv.
From S2P Require Import Fs.
From S2P Require Import FsBlocks.

(** * Bytes in memory *)

(** [m'] is [m] with the bytes [l] at [dst]. *)
Definition stored (dst : Z) (l : list Z) (m m' : bmem) : Prop :=
  ∀ i, m' !! i = if decide (dst ≤ i < dst + zlen l) then l !! Z.to_nat (i - dst) else m !! i.

Lemma stored_nil dst m : stored dst [] m m.
Proof. intros i. by rewrite decide_False by (simpl; lia). Qed.

Lemma stored_app dst l1 l2 m m1 m2 :
  stored dst l1 m m1 → stored (dst + zlen l1) l2 m1 m2 → stored dst (l1 ++ l2) m m2.
Proof.
  intros H1 H2 i. rewrite (H2 i), (H1 i), length_app. repeat case_decide; try lia; try done.
  - rewrite lookup_app_r by lia. f_equal. lia.
  - rewrite lookup_app_l by lia. done.
Qed.

Lemma stored_mapped dst l m m' a n : stored dst l m m' → mapped m a n → mapped m' a n.
Proof.
  intros H (H0 & H1 & Hm). split_and!; [done..|]. intros i Hi. rewrite H. case_decide; [|by apply Hm].
  apply lookup_lt_is_Some_2. lia.
Qed.

(** A copy out that succeeds stores its bytes, and a copy in gets the bytes
    that are there. *)
Definition copies_out (copyout : Z → list Z → prog bmem bool) (user : bool) : Prop :=
  ∀ dst l m, mapped m dst (zlen l) → wp (either_copyout copyout user dst l) (λ r m', r = true ∧ stored dst l m m') m.

Definition holds (m : bmem) (src : Z) (l : list Z) : Prop :=
  0 ≤ src ∧ src + zlen l < 2 ^ 64 ∧ ∀ i c, l !! i = Some c → m !! (src + Z.of_nat i) = Some c.

Definition copies_in (copyin : Z → Z → prog bmem (option (list Z))) (user : bool) : Prop :=
  ∀ src l m, holds m src l → wp (either_copyin copyin user src (zlen l)) (λ r m', r = Some l ∧ m' = m) m.

Lemma u64_in x : 0 ≤ x → x < 2 ^ 64 → u64 x = x.
Proof. intros. apply u64_small. lia. Qed.

Lemma kernel_copies_out copyout : copies_out copyout false.
Proof.
  intros dst l m Hm. unfold either_copyout. wp_auto. revert dst m Hm. induction l as [|c l IH]; intros dst m Hm; simpl; wp_auto.
  { split; [done|apply stored_nil]. }
  pose proof Hm as (H0 & H1 & H2). simpl in H1. apply wp_store8; [rewrite <- (Z.add_0_r dst); apply H2; simpl; lia|].
  rewrite u64_in by lia. eapply wp_mono; [apply IH|].
  - apply (mapped_sub _ dst (zlen (c :: l))); [|simpl; lia..]. apply mapped_insert; [done|]. rewrite <- (Z.add_0_r dst). apply H2. simpl. lia.
  - intros [] m' Hw. wp_auto. destruct Hw as [_ Hs]. split; [done|]. change (c :: l) with ([c] ++ l). eapply stored_app; [|exact Hs].
    intros i. simpl. case_decide as E; [replace i with dst by lia; by rewrite lookup_insert_eq, Z.sub_diag|]. rewrite lookup_insert_ne by lia. done.
Qed.

Lemma kernel_copies_in copyin : copies_in copyin false.
Proof.
  intros src l m Hm. unfold either_copyin. rewrite Nat2Z.id. wp_auto.
  assert (wp (load_bytes src (length l)) (λ r m', r = l ∧ m' = m) m) as W.
  { revert src Hm. induction l as [|c l IH]; intros src (H0 & H1 & H2); simpl; wp_auto; [done|].
    simpl in H1. apply (wp_load8 _ c); [rewrite <- (Z.add_0_r src); by apply (H2 0%nat)|]. rewrite u64_in by lia. wp_auto.
    eapply wp_mono; [apply IH|].
    - split_and!; [lia..|]. intros i x Hi. rewrite <- (H2 (S i) x Hi). f_equal. lia.
    - intros r m' [-> ->]. by wp_auto. }
  eapply wp_mono; [exact W|]. intros r m' [-> ->]. by wp_auto.
Qed.

(** * The blocks of a file *)

Definition indirect_addr (d : dinode) : option Z := d_addrs d !! Z.to_nat NDIRECT.

(** The block that holds block [bn] of the file. *)
Definition file_addr (V : gmap Z block) (d : dinode) (bn : Z) : option Z :=
  if bn <? NDIRECT then d_addrs d !! Z.to_nat bn
  else
    match indirect_addr d with
    | Some ia => (λ blk, get_indirect blk (bn - NDIRECT)) <$> V !! ia
    | None => None
    end.

(** The first [N] blocks of the file are allocated, and apart. *)
Record file_ok (V : gmap Z block) (d : dinode) (N : Z) : Prop := {
  fl_max : 0 ≤ N ≤ MAXFILE;
  fl_data : ∀ bn, 0 ≤ bn < N → ∃ addr blk, file_addr V d bn = Some addr ∧ 0 < addr < 2 ^ 32 ∧ V !! addr = Some blk ∧ length blk = 1024%nat;
  fl_ind : NDIRECT < N → ∃ ia, indirect_addr d = Some ia ∧ ia ≠ 0;
  fl_inj : ∀ bn bn' addr, 0 ≤ bn < N → 0 ≤ bn' < N → file_addr V d bn = Some addr → file_addr V d bn' = Some addr → bn = bn';
  fl_apart : ∀ bn addr, 0 ≤ bn < N → file_addr V d bn = Some addr → indirect_addr d ≠ Some addr }.

(** Byte [i] of the file. *)
Definition fbyte (V : gmap Z block) (d : dinode) (i : Z) : Z :=
  match file_addr V d (i / BSIZE) with
  | Some a => byte_at (default [] (V !! a)) (i mod BSIZE)
  | None => 0
  end.

(** The bytes [[off, off + n)] of the file. *)
Definition fbytes (V : gmap Z block) (d : dinode) (off n : Z) : list Z := (λ k, fbyte V d (off + k)) <$> seqZ 0 n.

Lemma length_fbytes V d off n : 0 ≤ n → zlen (fbytes V d off n) = n.
Proof. intros Hn. unfold fbytes. rewrite length_fmap, length_seqZ. lia. Qed.

Lemma fbytes_app V d off n m : 0 ≤ n → 0 ≤ m → fbytes V d off (n + m) = fbytes V d off n ++ fbytes V d (off + n) m.
Proof.
  intros Hn Hm. unfold fbytes. rewrite seqZ_app, fmap_app by done. f_equal.
  rewrite Z.add_0_l. replace (seqZ n m) with ((λ k, n + k) <$> seqZ 0 m) by (rewrite fmap_add_seqZ; f_equal; lia).
  rewrite <- list_fmap_compose. apply list_fmap_ext. intros i k _. unfold compose. f_equal. lia.
Qed.

(** The part of one block. *)
Lemma fbytes_block V d off m addr blk :
  0 ≤ off → 0 ≤ m → off mod BSIZE + m ≤ BSIZE → file_addr V d (off / BSIZE) = Some addr → V !! addr = Some blk → length blk = 1024%nat →
  fbytes V d off m = slice blk (off mod BSIZE) m.
Proof.
  intros Ho Hm Hb Ha Hv Hl. pose proof (Z.mod_pos_bound off BSIZE eq_refl). unfold fbytes, slice. apply list_eq. intros i.
  rewrite list_lookup_fmap. destruct (decide (i < Z.to_nat m)%nat) as [Hi|Hi].
  - rewrite lookup_seqZ_lt, lookup_take_lt, lookup_drop by lia. simpl. rewrite Z.add_0_l. unfold fbyte.
    assert ((off + Z.of_nat i) / BSIZE = off / BSIZE ∧ (off + Z.of_nat i) mod BSIZE = off mod BSIZE + Z.of_nat i) as [-> ->].
    { unfold BSIZE in *. split; Z.to_euclidean_division_equations; lia. }
    rewrite Ha, Hv. simpl. unfold byte_at. destruct (lookup_lt_is_Some_2 blk (Z.to_nat (off mod BSIZE) + i)) as [c Hc]; [unfold BSIZE in *; lia|].
    rewrite Hc. replace (Z.to_nat (off mod BSIZE + Z.of_nat i)) with (Z.to_nat (off mod BSIZE) + i)%nat by lia. by rewrite Hc.
  - rewrite lookup_seqZ_ge, lookup_take_ge by lia. done.
Qed.

(** ** Writing to a block of a file *)

Section Put.

Context (V : gmap Z block) (d : dinode) (N : Z) (bn0 addr0 : Z) (blk0 : block) (Hok : file_ok V d N).

Context (Hbn : 0 ≤ bn0 < N) (Ha : file_addr V d bn0 = Some addr0) (Hl : length blk0 = 1024%nat).

Lemma file_addr_put bn : file_addr (<[addr0 := blk0]> V) d bn = file_addr V d bn.
Proof.
  unfold file_addr. destruct (bn <? NDIRECT); [done|]. destruct (indirect_addr d) as [ia|] eqn:E; [|done].
  rewrite lookup_insert_ne; [done|]. intros <-. by apply (fl_apart _ _ _ Hok bn0 addr0).
Qed.

Lemma file_ok_put : file_ok (<[addr0 := blk0]> V) d N.
Proof.
  pose proof Hok as [H1 H2 H3 H4 H5]. split; try done.
  - intros bn Hb. destruct (H2 bn Hb) as (addr & blk & E1 & E2 & E3 & E4). rewrite file_addr_put. exists addr.
    destruct (decide (addr0 = addr)) as [->|]; [exists blk0; by rewrite lookup_insert_eq|exists blk; by rewrite lookup_insert_ne].
  - intros bn bn' addr. rewrite !file_addr_put. apply H4.
  - intros bn addr. rewrite file_addr_put. apply H5.
Qed.

Lemma fbyte_put i : 0 ≤ i < N * BSIZE →
  fbyte (<[addr0 := blk0]> V) d i = if decide (i / BSIZE = bn0) then byte_at blk0 (i mod BSIZE) else fbyte V d i.
Proof.
  intros Hi. assert (0 ≤ i / BSIZE < N) as Hb by (clear - Hi; unfold BSIZE in *; Z.to_euclidean_division_equations; lia).
  unfold fbyte. rewrite file_addr_put. case_decide as E; [by rewrite E, Ha, lookup_insert_eq|].
  destruct (file_addr V d (i / BSIZE)) as [addr|] eqn:Ea; [|done]. rewrite lookup_insert_ne; [done|]. intros <-.
  by apply E, (fl_inj _ _ _ Hok _ _ addr0).
Qed.

End Put.

Lemma length_splice blk o l : 0 ≤ o → (Z.to_nat o + length l ≤ length blk)%nat → length (splice_bytes blk o l) = length blk.
Proof. intros Ho Hl. unfold splice_bytes. rewrite !length_app, length_take, length_drop. lia. Qed.

Lemma byte_splice blk o l j : 0 ≤ o → (Z.to_nat o + length l ≤ length blk)%nat → 0 ≤ j →
  byte_at (splice_bytes blk o l) j = if decide (o ≤ j < o + zlen l) then byte_at l (j - o) else byte_at blk j.
Proof.
  intros Ho Hl Hj. unfold splice_bytes, byte_at. case_decide as E.
  - rewrite lookup_app_r, lookup_app_l; rewrite length_take; [|lia..]. do 2 f_equal. lia.
  - destruct (decide (j < o)).
    + rewrite lookup_app_l by (rewrite length_take; lia). by rewrite lookup_take_lt by lia.
    + rewrite !lookup_app_r; rewrite ?length_take; [|lia..]. rewrite lookup_drop. do 2 f_equal. lia.
Qed.

(** The bytes [l] have been written at [off]. *)
Record wrote (V V' : gmap Z block) (d : dinode) (N off : Z) (l : list Z) : Prop := {
  wr_bytes : ∀ i, 0 ≤ i < N * BSIZE → fbyte V' d i = if decide (off ≤ i < off + zlen l) then byte_at l (i - off) else fbyte V d i;
  wr_frame : ∀ n, (∀ bn, 0 ≤ bn < N → file_addr V d bn ≠ Some n) → V' !! n = V !! n;
  wr_addr : ∀ bn, file_addr V' d bn = file_addr V d bn;
  wr_ok : file_ok V' d N }.

Lemma wrote_nil V d N off : file_ok V d N → wrote V V d N off [].
Proof. intros H. split; try done. intros i _. by rewrite decide_False by (simpl; lia). Qed.

(** One more part, inside one block. *)
Lemma wrote_block V V1 d N off l1 l2 addr blk :
  wrote V V1 d N off l1 → 0 ≤ off → 0 < zlen l2 → (off + zlen l1) mod BSIZE + zlen l2 ≤ BSIZE → off + zlen l1 + zlen l2 ≤ N * BSIZE →
  file_addr V1 d ((off + zlen l1) / BSIZE) = Some addr → V1 !! addr = Some blk → length blk = 1024%nat →
  wrote V (<[addr := splice_bytes blk ((off + zlen l1) mod BSIZE) l2]> V1) d N off (l1 ++ l2).
Proof.
  intros [H1 H2 H3 H4] Hoff Hl2 Hb HN Ea Hv Hl. set (p := off + zlen l1) in *. pose proof (Z.mod_pos_bound p BSIZE eq_refl) as Hm.
  assert (0 ≤ p / BSIZE < N) as Hbn by (unfold BSIZE in *; Z.to_euclidean_division_equations; lia).
  assert (Z.to_nat (p mod BSIZE) + length l2 ≤ length blk)%nat as Hfit by (unfold BSIZE in *; lia).
  split.
  - intros i Hi. rewrite (fbyte_put V1 d N (p / BSIZE) addr _ H4 Hbn Ea i Hi), byte_splice, (H1 i Hi), length_app;
      [|lia|done|by apply Z.mod_pos_bound].
    assert (i / BSIZE = p / BSIZE → fbyte V1 d i = byte_at blk (i mod BSIZE)) as Hsame by (intros E; unfold fbyte; by rewrite E, Ea, Hv).
    rewrite (H1 i Hi) in Hsame.
    assert (∀ j, 0 ≤ j → byte_at (l1 ++ l2) j = if decide (j < zlen l1) then byte_at l1 j else byte_at l2 (j - zlen l1)) as Happ.
    { clear. intros j Hj. unfold byte_at. case_decide; [by rewrite lookup_app_l by lia|]. rewrite lookup_app_r by lia. do 2 f_equal. lia. }
    destruct (decide (i / BSIZE = p / BSIZE)) as [E|E].
    + assert (i - p = i mod BSIZE - p mod BSIZE) as Eip by (unfold BSIZE in *; Z.to_euclidean_division_equations; lia).
      destruct (decide (p mod BSIZE ≤ i mod BSIZE < p mod BSIZE + zlen l2)).
      * rewrite decide_True, Happ, decide_False by lia. f_equal. lia.
      * rewrite <- (Hsame E). destruct (decide (off ≤ i < p)); [by rewrite decide_True, Happ, decide_True by lia|].
        by rewrite decide_False by lia.
    + destruct (decide (off ≤ i < p)); [by rewrite decide_True, Happ, decide_True by lia|].
      rewrite decide_False; [done|]. intros Hin. apply E. unfold BSIZE in *. Z.to_euclidean_division_equations. lia.
  - intros n Hn. rewrite lookup_insert_ne; [by apply H2|]. intros ->. apply (Hn _ Hbn). by rewrite <- H3.
  - intros bn. rewrite (file_addr_put V1 d N (p / BSIZE)) by done. apply H3.
  - apply (file_ok_put V1 d N (p / BSIZE)); [done..|]. by rewrite length_splice by lia.
Qed.

(** How many blocks the range [[off, off + n)] touches. *)
Definition nblocks (off n : Z) : Z := if n <=? 0 then 0 else (off + n - 1) / BSIZE - off / BSIZE + 1.

Lemma nblocks_step off n : 0 ≤ off → 0 < n →
  let m := Z.min n (BSIZE - off mod BSIZE) in nblocks off n = 1 + nblocks (off + m) (n - m).
Proof.
  intros Ho Hn m. unfold nblocks. rewrite (proj2 (Z.leb_gt n 0)) by lia. destruct (Z.leb_spec (n - m) 0) as [H|H]; subst m.
  - unfold BSIZE in *. Z.to_euclidean_division_equations. lia.
  - unfold BSIZE in *. Z.to_euclidean_division_equations. lia.
Qed.

Lemma nblocks_nonneg off n : 0 ≤ off → 0 ≤ nblocks off n.
Proof. intros Ho. unfold nblocks. destruct (Z.leb_spec n 0); [done|]. unfold BSIZE. Z.to_euclidean_division_equations. lia. Qed.

(** * Buffers *)

(** No buffer is locked, there is room for [k] more, and no count is near its
    limit. *)
Definition calm (nb k : nat) (B : Z) (A : gmap Z active) : Prop :=
  (size A + k ≤ nb)%nat ∧ ∀ n e, A !! n = Some e → ac_held e = false ∧ ac_ref e ≤ B.

Lemma calm_ready nb k B A n : calm nb k B A → (0 < k)%nat → B < 2 ^ 31 → bread_ready nb A n ∧ ref_of A n ≤ Z.max 0 B.
Proof.
  intros [Hs Ha] Hk HB. unfold bread_ready, ref_of. destruct (A !! n) as [e|] eqn:E; simpl; [|split; lia].
  destruct (Ha _ _ E). split; [split; [done|lia]|lia].
Qed.

Lemma calm_put nb k B A n a r : calm nb (S k) B A → 0 ≤ B → r ≤ B + 1 → calm nb k (B + 1) (<[n := Act a r false]> A).
Proof.
  intros [Hs Ha] HB Hr. split.
  - rewrite map_size_insert. destruct (A !! n); simpl; lia.
  - intros m e. destruct (decide (m = n)) as [->|]; [rewrite lookup_insert_eq; intros [= <-]; done|].
    rewrite lookup_insert_ne by done. intros He. destruct (Ha _ _ He). split; [done|lia].
Qed.

Section Content.

Context (dv : Z) (nb : nat).

Lemma wp_fs_brelse_clean s t b V A n a (Q : unit → fsst → Prop) :
  txn dv nb (fs_log s) V A → bread_ready nb A n →
  txn dv nb (set_lg_bio b (fs_log s)) V (<[n := Act a (ref_of A n + 1) true]> A) →
  same_disk (lg_bio (fs_log s)) b → (∀ e, A !! n = Some e → a = ac_addr e) → fs_log t = set_lg_bio b (fs_log s) →
  (∀ l, txn dv nb l V A → lh_n l = lh_n (fs_log s) → Q tt (set_fs_log l t)) → wp (on_bufs (brelse a)) Q t.
Proof.
  intros H Hr H1 Hd Ha Et HQ. unfold on_bufs, on_log. wp_auto. rewrite Et.
  eapply wp_tx_brelse_clean; [exact H|exact Hr|exact H1|done|done|]. intros b' Hb'. by apply HQ.
Qed.

(** A block is read and released. *)
Lemma wp_fetch {B} s V A n d (K : block → prog fsst B) (Q : B → fsst → Prop) :
  txn dv nb (fs_log s) V A → V !! n = Some d → bread_ready nb A n →
  (∀ l, txn dv nb l V A → lh_n l = lh_n (fs_log s) → wp (K d) Q (set_fs_log l s)) →
  wp (bp ← on_bufs (bread dv n); d ← read_data bp; _ ← on_bufs (brelse bp); K d) Q s.
Proof.
  intros H Hd Hr HQ. wp_auto. eapply wp_fs_bread; [exact H|exact Hd|done|]. intros a b l H1 Hdk Ha. wp_auto.
  eapply wp_fs_data; [exact H1|apply lookup_insert_eq|exact Hd|]. wp_auto.
  eapply (wp_fs_brelse_clean s); [exact H|exact Hr|exact H1|done..|]. intros l' Hl' Hn'. by apply HQ.
Qed.

Lemma wp_bmap s V A d N k B a ip bn (Q : Z → fsst → Prop) :
  txn dv nb (fs_log s) V A → calm nb k B A → (0 < k)%nat → B < 2 ^ 31 → inodes s !! a = Some ip → i_d ip = d → i_dev ip = dv →
  file_ok V d N → 0 ≤ bn < N →
  (∀ l addr, txn dv nb l V A → lh_n l = lh_n (fs_log s) → file_addr V d bn = Some addr → Q addr (set_fs_log l s)) →
  wp (bmap a bn) Q s.
Proof.
  intros H Hc Hk HB Hip Hd Hdv Hok Hbn HQ. destruct (fl_data _ _ _ Hok bn Hbn) as (addr & blk & Ea & Hr & _).
  assert (∀ i addr, d_addrs d !! Z.to_nat i = Some addr → addr ≠ 0 →
    wp (addr_or_alloc a dv i) (λ r s', r = addr ∧ s' = s) s) as Hao.
  { intros i x Ex Hx. unfold addr_or_alloc, read_addr, read_inode. wp_auto. apply (wp_of_option _ ip); [done|]. rewrite Hd.
    apply (wp_of_option _ x); [done|]. rewrite (proj2 (Z.eqb_neq _ _)) by done. by wp_auto. }
  unfold bmap. wp_auto. unfold read_inode at 1. wp_auto. apply (wp_of_option _ ip); [done|]. rewrite Hdv.
  unfold file_addr in Ea. destruct (Z.ltb_spec bn NDIRECT) as [Hlt|Hge].
  - eapply wp_mono; [apply (Hao bn addr Ea); lia|]. intros r s' [-> ->].
    replace s with (set_fs_log (fs_log s) s) by (by destruct s). apply HQ; [done..|]. unfold file_addr. by rewrite (proj2 (Z.ltb_lt _ _)).
  - destruct (fl_ind _ _ _ Hok) as (ia & Eia & Hia); [lia|]. rewrite Eia in Ea. apply fmap_Some in Ea as (iblk & Hib & Ead).
    pose proof (fl_max _ _ _ Hok) as Hmax. rewrite (proj2 (Z.ltb_lt (bn - NDIRECT) NINDIRECT)) by (unfold MAXFILE in Hmax; lia). wp_auto.
    eapply wp_mono; [apply (Hao NDIRECT ia Eia Hia)|]. intros r s' [-> ->]. rewrite (proj2 (Z.eqb_neq ia 0)) by done. wp_auto.
    destruct (calm_ready nb k B A ia Hc Hk HB) as [Hrd _].
    eapply wp_fs_bread; [exact H|exact Hib|done|]. intros p b l H1 Hdk Ha. wp_auto.
    eapply wp_fs_data; [exact H1|apply lookup_insert_eq|exact Hib|]. rewrite <- Ead, (proj2 (Z.eqb_neq addr 0)) by lia. wp_auto.
    eapply (wp_fs_brelse_clean s); [exact H|exact Hrd|exact H1|done..|]. intros l' Hl' Hn'. wp_auto.
    change (set_fs_log l' (set_fs_log l s)) with (set_fs_log l' s). apply HQ; [done..|]. unfold file_addr.
    rewrite (proj2 (Z.ltb_ge _ _)) by done. by rewrite Eia, Hib, Ead.
Qed.

(** ** Reading *)

(** How many bytes there are to read. *)
Definition readable (sz off n : Z) : Z := if (sz <? off) || (2 ^ 32 <=? off + n) then 0 else Z.min n (sz - off).

Lemma wp_readi_loop copyout ud s V A d N k B a ip dst off n :
  txn dv nb (fs_log s) V A → calm nb k B A → (0 < k)%nat → B < 2 ^ 31 → inodes s !! a = Some ip → i_d ip = d → i_dev ip = dv →
  file_ok V d N → copies_out copyout ud → 0 ≤ off → 0 ≤ n → off + n ≤ N * BSIZE → mapped (fmem s) dst n →
  wp (loop (S (Z.to_nat n))
        (λ '(tot, off, dst),
           if tot <? n then
             addr ← bmap a (off / BSIZE);
             if addr =? 0 then mret (inr tot)
             else
               bp ← on_bufs (bread (i_dev ip) addr);
               let m := Z.min (n - tot) (BSIZE - off mod BSIZE) in
               d ← read_data bp;
               r ← on_fmem (either_copyout copyout ud dst (slice d (off mod BSIZE) m));
               _ ← on_bufs (brelse bp);
               if (r : bool) then mret (inl (u32 (tot + m), u32 (off + m), u64 (dst + m)))
               else mret (inr (u32 (-1)))
           else mret (inr tot))
        (0, off, dst))
    (λ r s', r = n ∧ ∃ l mem, s' = set_fmem mem (set_fs_log l s) ∧ txn dv nb l V A ∧ lh_n l = lh_n (fs_log s) ∧
       stored dst (fbytes V d off n) (fmem s) mem) s.
Proof.
  intros H Hc Hk HB Hip Hd Hdv Hok Hcp Hoff Hn Hsz Hm. pose proof (fl_max _ _ _ Hok) as Hmax. pose proof Hm as (Hd0 & Hd1 & _).
  assert (off + n < 2 ^ 31) as Hsmall by (change MAXFILE with 268 in Hmax; unfold BSIZE in *; lia).
  apply (wp_loop (λ j '(tot, off', dst') s', j = Z.to_nat (n - tot) ∧ 0 ≤ tot ≤ n ∧ off' = off + tot ∧ dst' = dst + tot ∧
    ∃ l mem, s' = set_fmem mem (set_fs_log l s) ∧ txn dv nb l V A ∧ lh_n l = lh_n (fs_log s) ∧
      stored dst (fbytes V d off tot) (fmem s) mem) (Z.to_nat n)).
  { split_and!; try lia. exists (fs_log s), (fmem s). split_and!; try done; [by destruct s|]. apply stored_nil. }
  { lia. }
  intros j [[tot off'] dst'] s' (-> & Ht & -> & -> & l & mem & -> & Hl & Hln & Hst). destruct (Z.ltb_spec tot n) as [Hlt|Hge].
  2:{ wp_auto. assert (tot = n) as -> by lia. split; [done|]. by exists l, mem. }
  assert (0 ≤ (off + tot) / BSIZE < N) as Hbn by (unfold BSIZE in *; Z.to_euclidean_division_equations; lia).
  pose proof (Z.mod_pos_bound (off + tot) BSIZE eq_refl) as Hmod. set (m := Z.min (n - tot) (BSIZE - (off + tot) mod BSIZE)).
  assert (0 < m ≤ n - tot ∧ (off + tot) mod BSIZE + m ≤ BSIZE) as [Hm1 Hm2] by lia.
  wp_auto. eapply (wp_bmap (set_fmem mem (set_fs_log l s)) V A d N); [exact Hl|done..|]. intros l1 addr Hl1 Hn1 Ea.
  destruct (fl_data _ _ _ Hok _ Hbn) as (addr' & blk & Ea' & Har & Hblk & Hbl). assert (addr' = addr) as -> by congruence.
  rewrite (proj2 (Z.eqb_neq addr 0)) by lia. wp_auto. rewrite Hdv. destruct (calm_ready nb k B A addr Hc Hk HB) as [Hrd _].
  eapply wp_fs_bread; [exact Hl1|exact Hblk|done|]. intros p b l2 H2 Hdk Ha. cbv zeta. fold m. wp_auto.
  eapply wp_fs_data; [exact H2|apply lookup_insert_eq|exact Hblk|]. unfold on_fmem. wp_auto.
  rewrite <- (fbytes_block V d (off + tot) m addr blk) by (done || lia).
  eapply wp_mono; [apply Hcp|]; [cbn; rewrite length_fbytes by lia; eapply stored_mapped; [exact Hst|]; apply (mapped_sub _ _ _ _ _ Hm); lia|].
  intros r mem' [-> Hst']. cbn in Hst'. wp_auto.
  eapply (wp_fs_brelse_clean (set_fs_log l1 s)); [exact Hl1|exact Hrd|exact H2|done..|]. intros l3 Hl3 Hn3. wp_auto.
  exists (Z.to_nat (n - (tot + m))). rewrite !u32_small, u64_in by lia. split; [lia|]. split_and!; try lia.
  exists l3, mem'. split_and!; [done|done|cbn in *; congruence|]. rewrite fbytes_app by lia. eapply stored_app; [exact Hst|].
  by rewrite length_fbytes by lia.
Qed.

Lemma wp_readi copyout ud s V A d N k B a ip dst off n :
  txn dv nb (fs_log s) V A → calm nb k B A → (0 < k)%nat → B < 2 ^ 31 → inodes s !! a = Some ip → i_d ip = d → i_dev ip = dv →
  file_ok V d N → copies_out copyout ud → 0 ≤ d_size d ≤ N * BSIZE → 0 ≤ off < 2 ^ 32 → 0 ≤ n < 2 ^ 32 →
  mapped (fmem s) dst (readable (d_size d) off n) →
  wp (readi copyout a ud dst off n) (λ r s', r = readable (d_size d) off n ∧ ∃ l mem, s' = set_fmem mem (set_fs_log l s) ∧
    txn dv nb l V A ∧ lh_n l = lh_n (fs_log s) ∧ stored dst (fbytes V d off (readable (d_size d) off n)) (fmem s) mem) s.
Proof.
  intros H Hc Hk HB Hip Hd Hdv Hok Hcp Hsz Hoff Hn Hm. pose proof (fl_max _ _ _ Hok) as Hmax.
  assert (d_size d < 2 ^ 31) as Hsmall by (change MAXFILE with 268 in Hmax; unfold BSIZE in *; lia).
  unfold readi, read_inode. wp_auto. apply (wp_of_option _ ip); [done|]. rewrite Hd. unfold readable in *.
  assert ((u32 (off + n) <? off) = (2 ^ 32 <=? off + n)) as ->.
  { apply eq_bool_prop_intro. rewrite !Is_true_true, Z.ltb_lt, Z.leb_le. unfold u32. Z.to_euclidean_division_equations. lia. }
  destruct (Z.ltb_spec (d_size d) off) as [|Hle]; cbn [orb] in *.
  { wp_auto. split; [done|]. exists (fs_log s), (fmem s). split_and!; try done; [by destruct s|apply stored_nil]. }
  destruct (Z.leb_spec (2 ^ 32) (off + n)) as [|Hw].
  { wp_auto. split; [done|]. exists (fs_log s), (fmem s). split_and!; try done; [by destruct s|apply stored_nil]. }
  rewrite !(u32_small (off + n)) by lia.
  assert ((if d_size d <? off + n then u32 (d_size d - off) else n) = Z.min n (d_size d - off)) as ->.
  { destruct (Z.ltb_spec (d_size d) (off + n)); [rewrite u32_small by lia|]; lia. }
  wp_auto. eapply wp_mono; [eapply (wp_readi_loop copyout ud s V A d N); try done; lia|].
  intros r s' (-> & Hs'). wp_auto. split; [|done]. unfold s32. rewrite Z.mod_small; lia.
Qed.

(** ** Writing *)

(** The source of the copy. *)
Lemma holds_part m src l j n : holds m src l → 0 ≤ j → 0 ≤ n → j + n ≤ zlen l → holds m (src + j) (slice l j n).
Proof.
  intros (H0 & H1 & H2) Hj Hn Hl. unfold slice. split_and!; [lia|rewrite length_take, length_drop; lia|].
  intros i c Hi. apply lookup_take_Some in Hi as [Hi Hlt]. rewrite lookup_drop in Hi. rewrite <- (H2 _ _ Hi). f_equal. lia.
Qed.

Lemma length_slice (l : list Z) j n : 0 ≤ j → 0 ≤ n → j + n ≤ zlen l → zlen (slice l j n) = n.
Proof. intros. unfold slice. rewrite length_take, length_drop. lia. Qed.

Lemma take_slice (l : list Z) j n : 0 ≤ j → 0 ≤ n → j + n ≤ zlen l → take (Z.to_nat j) l ++ slice l j n = take (Z.to_nat (j + n)) l.
Proof. intros. unfold slice. rewrite take_take_drop. f_equal. lia. Qed.

Lemma wp_writei_loop copyin us s V A d N k B a ip src off l :
  txn dv nb (fs_log s) V A → calm nb (S (k + Z.to_nat (nblocks off (zlen l)))) B A → 0 ≤ B → B + nblocks off (zlen l) < 2 ^ 31 →
  lh_n (fs_log s) + nblocks off (zlen l) ≤ LOGBLOCKS → inodes s !! a = Some ip → i_d ip = d → i_dev ip = dv →
  file_ok V d N → copies_in copyin us → 0 ≤ off → off + zlen l ≤ N * BSIZE → holds (fmem s) src l →
  wp (writei_loop copyin a dv us src off (zlen l))
    (λ r s', r = (zlen l, off + zlen l) ∧ ∃ lg V' A', s' = set_fs_log lg s ∧ txn dv nb lg V' A' ∧
       calm nb (S k) (B + nblocks off (zlen l)) A' ∧ lh_n lg ≤ lh_n (fs_log s) + nblocks off (zlen l) ∧ wrote V V' d N off l) s.
Proof.
  intros H Hc HB HB2 Hroom Hip Hd Hdv Hok Hcp Hoff Hsz Hh. pose proof (fl_max _ _ _ Hok) as Hmax. pose proof Hh as (Hs0 & Hs1 & _).
  assert (off + zlen l < 2 ^ 31) as Hsmall by (change MAXFILE with 268 in Hmax; unfold BSIZE in *; lia).
  set (n := zlen l) in *. set (T := nblocks off n) in *. unfold writei_loop.
  apply (wp_loop (λ j '(tot, off', src') s', j = Z.to_nat (n - tot) ∧ 0 ≤ tot ≤ n ∧ off' = off + tot ∧ src' = src + tot ∧
    let R := nblocks (off + tot) (n - tot) in
    ∃ lg V' A', s' = set_fs_log lg s ∧ txn dv nb lg V' A' ∧ R ≤ T ∧ calm nb (S (k + Z.to_nat R)) (B + (T - R)) A' ∧
      lh_n lg ≤ lh_n (fs_log s) + (T - R) ∧ wrote V V' d N off (take (Z.to_nat tot) l)) (Z.to_nat n)).
  { rewrite Z.add_0_r, Z.sub_0_r. fold T. split_and!; try lia. exists (fs_log s), V, A. rewrite Z.sub_diag, Z.add_0_r.
    split_and!; try done; [by destruct s|lia|by apply wrote_nil]. }
  { lia. }
  intros j [[tot off'] src'] s' (-> & Ht & -> & -> & lg & V1 & A1 & -> & H1 & HR & Hc1 & Hln & Hw). destruct (Z.ltb_spec tot n) as [Hlt|Hge].
  2:{ wp_auto. assert (tot = n) as -> by lia. split; [done|]. exists lg, V1, A1. rewrite Z.sub_diag in Hc1, Hln.
      change (nblocks (off + n) 0) with 0 in *. rewrite Z.sub_0_r in Hc1, Hln. rewrite Nat.add_0_r in Hc1.
      unfold n in Hw. rewrite Nat2Z.id, firstn_all in Hw. by split_and!. }
  assert (0 ≤ (off + tot) / BSIZE < N) as Hbn by (unfold BSIZE in *; Z.to_euclidean_division_equations; lia).
  pose proof (Z.mod_pos_bound (off + tot) BSIZE eq_refl) as Hmod. set (m := Z.min (n - tot) (BSIZE - (off + tot) mod BSIZE)).
  assert (0 < m ≤ n - tot ∧ (off + tot) mod BSIZE + m ≤ BSIZE) as [Hm1 Hm2] by lia.
  pose proof (nblocks_step (off + tot) (n - tot) ltac:(lia) ltac:(lia)) as HRs. cbv zeta in HRs. fold m in HRs.
  pose proof (nblocks_nonneg (off + tot + m) (n - tot - m) ltac:(lia)) as HR0. set (R' := nblocks (off + tot + m) (n - tot - m)) in *.
  wp_auto. eapply (wp_bmap (set_fs_log lg s) V1 A1 d N); [exact H1|exact Hc1|lia|lia|done..|apply Hw|done|]. intros l1 addr Hl1 Hn1 Ea.
  destruct (fl_data _ _ _ (wr_ok _ _ _ _ _ _ Hw) _ Hbn) as (addr' & blk & Ea' & Har & Hblk & Hbl). assert (addr' = addr) as -> by congruence.
  rewrite (proj2 (Z.eqb_neq addr 0)) by lia. wp_auto. destruct (calm_ready nb _ _ A1 addr Hc1 ltac:(lia) ltac:(lia)) as [Hrd Href].
  eapply wp_fs_bread; [exact Hl1|exact Hblk|done|]. intros p b l2 H2 Hdk Ha. cbv zeta. fold m. wp_auto. unfold on_fmem. wp_auto. cbn [fmem set_fs_log].
  pose proof (holds_part _ _ _ tot m Hh ltac:(lia) ltac:(lia) ltac:(lia)) as Hpart.
  assert (zlen (slice l tot m) = m) as Hlen by (apply length_slice; lia).
  rewrite <- Hlen at 1. eapply wp_mono; [by apply Hcp|]. intros r mem [-> ->]. wp_auto.
  eapply wp_fs_data; [exact H2|apply lookup_insert_eq|exact Hblk|]. apply wp_seq3.
  eapply wp_store_block; [exact H2|lia|lia|cbn in *; lia|]. intros l3 r3 H3 Hr3 Hn3. wp_auto.
  exists (Z.to_nat (n - (tot + m))). rewrite !u32_small, u64_in by lia. split; [lia|].
  rewrite !Z.add_assoc, Z.sub_add_distr. fold R'. split_and!; try lia.
  exists l3, (<[addr := splice_bytes blk ((off + tot) mod BSIZE) (slice l tot m)]> V1), (<[addr := Act p r3 false]> A1).
  split_and!; [by destruct s|done|lia| |cbn in *; lia|].
  - replace (B + (T - R')) with (B + (T - nblocks (off + tot) (n - tot)) + 1) by lia. apply calm_put; [|lia..].
    replace (S (S (k + Z.to_nat R'))) with (S (k + Z.to_nat (nblocks (off + tot) (n - tot)))) by lia. exact Hc1.
  - rewrite <- take_slice by lia. assert (zlen (take (Z.to_nat tot) l) = tot) as Et by (rewrite length_take; lia).
    pose proof (wrote_block V V1 d N off (take (Z.to_nat tot) l) (slice l tot m) addr blk Hw) as Hwb. rewrite Et, Hlen in Hwb.
    apply Hwb; (done || lia).
Qed.

(** The dinode is written to its block. *)
Lemma length_put_dinode blk o x : length (put_dinode blk o x) = length blk.
Proof.
  assert (∀ l b o, length (put_addrs b o l) = length b) as Ha.
  { induction l as [|y l IH]; intros b o'; simpl; [done|]. by rewrite IH, length_put32. }
  unfold put_dinode, put16. by rewrite Ha, length_put32, !length_put8.
Qed.

Lemma wp_iupdate s V A k B a ip blk (Q : unit → fsst → Prop) :
  let ib := IBLOCK (i_inum ip) (sb s) in
  txn dv nb (fs_log s) V A → calm nb (S k) B A → 0 ≤ B < 2 ^ 31 → lh_n (fs_log s) < LOGBLOCKS → inodes s !! a = Some ip → i_dev ip = dv →
  V !! ib = Some blk →
  (∀ l p r, txn dv nb l (<[ib := put_dinode blk (dinode_off (i_inum ip)) (i_d ip)]> V) (<[ib := Act p r false]> A) →
     r ≤ Z.max 0 B + 1 → lh_n l ≤ lh_n (fs_log s) + 1 → Q tt (set_fs_log l s)) →
  wp (iupdate a) Q s.
Proof.
  intros ib H Hc HB Hroom Hip Hdv Hblk HQ. unfold iupdate. wp_auto. unfold read_inode. wp_auto. apply (wp_of_option _ ip); [done|].
  destruct (calm_ready nb _ _ A ib Hc ltac:(lia) ltac:(lia)) as [Hrd Href]. rewrite Hdv. wp_auto.
  eapply wp_fs_bread; [exact H|exact Hblk|done|]. intros p b l H1 _ _. fold ib in H1. wp_auto.
  eapply wp_fs_data; [exact H1|apply lookup_insert_eq|exact Hblk|].
  eapply wp_store_block; [exact H1|by apply Z.mod_pos_bound|lia|done|]. intros l2 r H2 Hr Hn.
  change (set_fs_log l2 (set_fs_log l s)) with (set_fs_log l2 s). eapply HQ; [exact H2|lia|done].
Qed.

(** A block outside the file changes. *)
Lemma file_frame V d N n blk :
  file_ok V d N → (∀ bn, 0 ≤ bn < N → file_addr V d bn ≠ Some n) → indirect_addr d ≠ Some n →
  file_ok (<[n := blk]> V) d N ∧ (∀ bn, file_addr (<[n := blk]> V) d bn = file_addr V d bn) ∧
  ∀ i, 0 ≤ i < N * BSIZE → fbyte (<[n := blk]> V) d i = fbyte V d i.
Proof.
  intros [H1 H2 H3 H4 H5] Hn Hi.
  assert (∀ bn, file_addr (<[n := blk]> V) d bn = file_addr V d bn) as Ha.
  { intros bn. unfold file_addr. destruct (bn <? NDIRECT); [done|]. destruct (indirect_addr d) as [ia|] eqn:E; [|done].
    rewrite lookup_insert_ne; [done|]. congruence. }
  split_and!; [split; try done|done|].
  - intros bn Hb. destruct (H2 bn Hb) as (addr & b & E1 & E2 & E3 & E4). exists addr, b. rewrite Ha. split_and!; try done; try lia.
    rewrite lookup_insert_ne; [done|]. intros ->. by apply (Hn bn).
  - intros bn bn' addr. rewrite !Ha. apply H4.
  - intros bn addr. rewrite Ha. apply H5.
  - intros j Hj. assert (0 ≤ j / BSIZE < N) as Hb by (unfold BSIZE in *; Z.to_euclidean_division_equations; lia).
    destruct (H2 _ Hb) as (addr & b & E1 & _). unfold fbyte. rewrite Ha, E1, lookup_insert_ne; [done|]. intros ->. by apply (Hn _ Hb).
Qed.

Definition grown (d : dinode) (n : Z) : dinode := set_size (Z.max (d_size d) n) d.

(** The inode of the file is not in one of its blocks. *)
Definition inode_apart (V : gmap Z block) (d : dinode) (N ib : Z) : Prop :=
  (∃ blk, V !! ib = Some blk) ∧ (∀ bn, 0 ≤ bn < N → file_addr V d bn ≠ Some ib) ∧ indirect_addr d ≠ Some ib.

Lemma wp_writei copyin us s V A d N k B a ip src off l :
  let ib := IBLOCK (i_inum ip) (sb s) in let T := nblocks off (zlen l) in
  txn dv nb (fs_log s) V A → calm nb (S (k + Z.to_nat T)) B A → 0 ≤ B → B + T < 2 ^ 31 →
  lh_n (fs_log s) + T < LOGBLOCKS → inodes s !! a = Some ip → i_d ip = d → i_dev ip = dv →
  file_ok V d N → inode_apart V d N ib → copies_in copyin us → 0 ≤ off ≤ d_size d → off + zlen l ≤ N * BSIZE → holds (fmem s) src l →
  wp (writei copyin a us src off (zlen l)) (λ r s', r = zlen l ∧ ∃ lg V' A',
    s' = set_fs_log lg (set_inodes (<[a := set_d (grown d (off + zlen l)) ip]> (inodes s)) s) ∧
    txn dv nb lg V' A' ∧ calm nb k (B + T + 1) A' ∧ file_ok V' d N ∧
    (∀ i, 0 ≤ i < N * BSIZE → fbyte V' d i = if decide (off ≤ i < off + zlen l) then byte_at l (i - off) else fbyte V d i) ∧
    (∀ n, n ≠ ib → (∀ bn, 0 ≤ bn < N → file_addr V d bn ≠ Some n) → V' !! n = V !! n)) s.
Proof.
  intros ib T H Hc HB HB2 Hroom Hip Hd Hdv Hok ((blk & Hblk) & Hap1 & Hap2) Hcp Hoff Hsz Hh. pose proof (fl_max _ _ _ Hok) as Hmax.
  assert (0 ≤ T) as HT by (apply nblocks_nonneg; lia).
  assert (off + zlen l < 2 ^ 31) as Hsmall by (change MAXFILE with 268 in Hmax; unfold BSIZE in *; lia).
  unfold writei. wp_auto. unfold read_inode at 1. wp_auto. apply (wp_of_option _ ip); [done|]. rewrite Hd, u32_small by lia.
  rewrite (proj2 (Z.ltb_ge (d_size d) off)), (proj2 (Z.ltb_ge (off + zlen l) off)) by lia. cbn [orb].
  rewrite (proj2 (Z.ltb_ge (MAXFILE * BSIZE) _)) by (unfold BSIZE in *; lia). rewrite Hdv. wp_auto.
  eapply wp_mono; [eapply (wp_writei_loop copyin us s V A d N k B); (done || lia)|].
  intros r s' (-> & lg & V1 & A1 & -> & H1 & Hc1 & Hn1 & Hw). fold T in Hc1, Hn1. wp_auto. unfold read_inode. wp_auto. apply (wp_of_option _ ip); [done|].
  rewrite Hd. assert (V1 !! ib = Some blk) as Hblk1 by (rewrite (wr_frame _ _ _ _ _ _ Hw) by done; done).
  assert (∀ bn, 0 ≤ bn < N → file_addr V1 d bn ≠ Some ib) as Hap1' by (intros bn; rewrite (wr_addr _ _ _ _ _ _ Hw); apply Hap1).
  set (s1 := set_fs_log lg (set_inodes (<[a := set_d (grown d (off + zlen l)) ip]> (inodes s)) s)).
  assert (wp (if d_size d <? off + zlen l then update_inode a (λ ip, set_d (set_size (off + zlen l) (i_d ip)) ip) else mret tt)
    (λ _ s', s' = s1) (set_fs_log lg s)) as Wup.
  { destruct (Z.ltb_spec (d_size d) (off + zlen l)); unfold update_inode, read_inode; wp_auto.
    - apply (wp_of_option _ ip); [done|]. wp_auto. unfold s1, grown. rewrite Hd, Z.max_r by lia. done.
    - unfold s1, grown. rewrite Z.max_l by lia. destruct s, ip, d; cbn in *; subst. by rewrite insert_id. }
  apply wp_bind. eapply wp_mono; [exact Wup|]. intros [] ? ->. wp_auto.
  eapply (wp_iupdate s1 V1 A1 k (B + T) a (set_d (grown d (off + zlen l)) ip) blk); [done|done|lia|cbn in *; lia|apply lookup_insert_eq|done|done|].
  intros l2 p r2 H2 Hr2 Hn2. wp_auto. destruct (file_frame V1 d N ib (put_dinode blk (dinode_off (i_inum ip)) (grown d (off + zlen l))) (wr_ok _ _ _ _ _ _ Hw) Hap1' Hap2)
    as (F1 & F2 & F3).
  split; [unfold s32; rewrite Z.mod_small; lia|]. do 3 eexists. split_and!; [done|exact H2|apply calm_put; [done|lia..]|exact F1| |].
  - intros i Hi. cbn. etrans; [exact (F3 i Hi)|]. by apply (wr_bytes _ _ _ _ _ _ Hw).
  - intros n Hne Hn. rewrite lookup_insert_ne by done. by apply (wr_frame _ _ _ _ _ _ Hw).
Qed.

End Content.

(** * The properties *)

(** C28: [readi] of a file whose blocks are allocated returns the number of
    bytes there are between the offset and the end of the file, at most [n],
    and stores exactly those bytes of the file at [dst]; an offset beyond the
    end and a range that wraps give 0 bytes.  The disk is not changed and no
    buffer stays locked.  The blocks may be direct or behind the indirect
    block. *)
Theorem readi_correct dv nb copyout ud s V A N k B a ip dst off n :
  txn dv nb (fs_log s) V A → calm nb k B A → (0 < k)%nat → B < 2 ^ 31 → inodes s !! a = Some ip → i_dev ip = dv →
  file_ok V (i_d ip) N → copies_out copyout ud → 0 ≤ d_size (i_d ip) ≤ N * BSIZE → 0 ≤ off < 2 ^ 32 → 0 ≤ n < 2 ^ 32 →
  let m := readable (d_size (i_d ip)) off n in
  mapped (fmem s) dst m →
  wp (readi copyout a ud dst off n) (λ r s', r = m ∧ inodes s' = inodes s ∧ txn dv nb (fs_log s') V A ∧
    stored dst (fbytes V (i_d ip) off m) (fmem s) (fmem s')) s.
Proof.
  intros H Hc Hk HB Hip Hdv Hok Hcp Hsz Hoff Hn m Hm.
  eapply wp_mono; [by apply (wp_readi dv nb copyout ud s V A (i_d ip) N k B a ip dst off n)|].
  by intros r s' (-> & l & mem & -> & Hl & _ & Hst).
Qed.

(** A disk with the inode block 2 and a file of four bytes in block 3. *)
Definition four_bytes : block := [97; 98; 99; 100] ++ replicate 1020 0.

Definition small_disk : gmap Z block := {[2 := replicate 1024 0; 3 := four_bytes]}.

Definition small_inode : inode := Inode 1 1 1 true true (Dinode 2 0 0 1 4 (3 :: replicate 12 0)).

Definition small_fs : fsst :=
  FsSt (LogSt (example_cache small_disk) false 10 1 false 1 0 ∅) (Superblock FSMAGIC 4 1 0 0 10 2 1) false [500] {[500 := small_inode]}
    {[600 := 1; 601 := 2; 700 := 0; 701 := 0; 702 := 0; 703 := 0; 704 := 0; 705 := 0]} 0.

Lemma small_txn : txn 1 3 (fs_log small_fs) small_disk ∅.
Proof. split; try done. - apply example_cache_rep. - intros n (i & Hi & _). cbn in Hi. lia. Qed.

Lemma zero_only bn : 0 ≤ bn < 1 → bn = 0.
Proof. lia. Qed.

Lemma small_file : file_ok small_disk (i_d small_inode) 1.
Proof.
  split.
  - done.
  - intros bn ->%zero_only. exists 3, four_bytes. split_and!; reflexivity || lia.
  - done.
  - intros bn bn' addr ->%zero_only ->%zero_only. done.
  - intros bn addr ->%zero_only [= <-]. vm_compute. discriminate.
Qed.

Lemma small_calm k : (k ≤ 3)%nat → calm 3 k 0 ∅.
Proof. intros Hk. split; [rewrite map_size_empty; lia|]. intros n e. by rewrite lookup_empty. Qed.

Lemma small_mapped n : 0 ≤ n ≤ 6 → mapped (fmem small_fs) 700 n.
Proof.
  intros Hn. split_and!; [lia..|]. intros i Hi. assert (i = 0 ∨ i = 1 ∨ i = 2 ∨ i = 3 ∨ i = 4 ∨ i = 5) as Hc by lia.
  destruct Hc as [->|[->|[->|[->|[->| ->]]]]]; eexists; reflexivity.
Qed.

Lemma readi_correct_witness :
  wp (readi (λ _ _, mret true) 500 false 700 1 10) (λ r s', r = 3 ∧ fmem s' !! 700 = Some 98 ∧ fmem s' !! 702 = Some 100) small_fs.
Proof.
  eapply wp_mono; [apply (readi_correct 1 3 (λ _ _, mret true) false small_fs small_disk ∅ 1 1 0 500 small_inode 700 1 10)|].
  - exact small_txn.
  - by apply small_calm; lia.
  - lia.
  - lia.
  - reflexivity.
  - reflexivity.
  - exact small_file.
  - apply kernel_copies_out.
  - cbn. unfold BSIZE. lia.
  - lia.
  - lia.
  - apply (small_mapped 3). lia.
  - intros r s' (-> & _ & _ & Hst). split; [reflexivity|]. split; rewrite Hst; reflexivity.
Defined.

Lemma fbytes_written V d N off l :
  0 ≤ off → off + zlen l ≤ N * BSIZE →
  (∀ i, 0 ≤ i < N * BSIZE → off ≤ i < off + zlen l → fbyte V d i = byte_at l (i - off)) → fbytes V d off (zlen l) = l.
Proof.
  intros Ho Hl H. apply list_eq. intros i. unfold fbytes. rewrite list_lookup_fmap. destruct (decide (i < length l)%nat).
  - rewrite lookup_seqZ_lt by lia. simpl. rewrite H by lia. unfold byte_at. destruct (lookup_lt_is_Some_2 l i) as [c Hc]; [done|].
    replace (Z.to_nat (off + (0 + Z.of_nat i) - off)) with i by lia. by rewrite Hc.
  - rewrite lookup_seqZ_ge, lookup_ge_None_2 by lia. done.
Qed.


