(* ===== verification/FsDir.v ===== *)
(** Directories: [dirlookup] finds the entry of a name, and [dirlink] enters a
    new one where [dirlookup] finds it and spoils no other. *)

From S2P Require Import Prelude.
From S2P Require Import Cstring.
From S2P Require Import Bio.
From S2P Require Import BioInv.
From S2P Require Import Log.
From S2P Require Import Fs.
From S2P Require Import FsTable.
From S2P Require Import FsBlocks.
From S2P Require Import FsContent.

(** * Names in entries *)

(** The bytes before the first NUL. *)
Fixpoint cut (l : list Z) : list Z :=
  match l with [] => [] | c :: l => if c =? 0 then [] else c :: cut l end.

Lemma cut_field m a l :
  0 ≤ a → a + zlen l < 2 ^ 64 → (∀ i c, l !! i = Some c → m !! (a + Z.of_nat i) = Some c) → field m a (zlen l) (cut l).
Proof.
  intros H0 H1 Hm. split_and!; [done|done| | |].
  - clear. induction l as [|c l IH]; [done|]. cbn. destruct (c =? 0); cbn; lia.
  - assert (∀ i c, cut l !! i = Some c → l !! i = Some c ∧ c ≠ 0) as H.
    { clear. induction l as [|c l IH]; [done|]. intros i c'. cbn. destruct (Z.eqb_spec c 0) as [|Hc]; [done|]. destruct i as [|i]; cbn; [naive_solver|apply IH]. }
    intros i c Hi. apply H in Hi as [Hi Hc]. split; [by apply Hm|done].
  - intros Hlt. assert (l !! length (cut l) = Some 0) as Hl.
    { clear -Hlt. induction l as [|c l IH]; [cbn in Hlt; lia|]. cbn in *. destruct (Z.eqb_spec c 0) as [->|Hc]; [done|]. cbn in *. apply IH. lia. }
    by apply Hm in Hl.
Qed.

Lemma cut_id l : 0 ∉ l → cut l = l.
Proof. induction l as [|c l IH]; [done|]. intros H. cbn. rewrite (proj2 (Z.eqb_neq c 0)) by set_solver. f_equal. apply IH. set_solver. Qed.

Lemma cut_pad l k : 0 ∉ l → cut (l ++ replicate k 0) = l.
Proof.
  induction l as [|c l IH]; intros H; [by destruct k|]. cbn. rewrite (proj2 (Z.eqb_neq c 0)) by set_solver. f_equal. apply IH. set_solver.
Qed.

(** * Entries *)

(** The inode number and the name in entry [j]. *)
Definition slot (V : gmap Z block) (d : dinode) (j : Z) : Z * list Z :=
  (fbyte V d (16 * j) + 2 ^ 8 * fbyte V d (16 * j + 1), cut (fbytes V d (16 * j + 2) 14)).

Definition entries (V : gmap Z block) (d : dinode) (n : Z) : list (Z * list Z) := slot V d <$> seqZ 0 n.

Definition is_entry (nm : list Z) (e : Z * list Z) : Prop := e.1 ≠ 0 ∧ e.2 = nm.

#[export] Instance is_entry_dec nm e : Decision (is_entry nm e).
Proof. unfold is_entry. apply _. Defined.

(** The first entry with the name. *)
Definition dfind (nm : list Z) (es : list (Z * list Z)) : option (nat * (Z * list Z)) := list_find (is_entry nm) es.

Lemma entries_lookup V d n j : 0 ≤ j < n → entries V d n !! Z.to_nat j = Some (slot V d j).
Proof. intros H. unfold entries. rewrite list_lookup_fmap, lookup_seqZ_lt by lia. cbn. do 2 f_equal. lia. Qed.

Lemma length_entries V d n : 0 ≤ n → zlen (entries V d n) = n.
Proof. intros H. unfold entries. rewrite length_fmap, length_seqZ. lia. Qed.

(** ** A new entry *)

(** The bytes of an entry. *)
Definition dirent_bytes (inum : Z) (nm : list Z) : list Z :=
  [u8 inum; u8 (inum / 2 ^ 8)] ++ nm ++ replicate (14 - length nm) 0.

Lemma length_dirent inum nm : zlen nm ≤ 14 → zlen (dirent_bytes inum nm) = 16.
Proof. intros H. unfold dirent_bytes. rewrite !length_app, length_replicate. cbn. lia. Qed.

(** Only the first byte of an entry and the next 13 count. *)
Lemma entry_slot V d j inum nm :
  0 ≤ inum < 2 ^ 16 → zlen nm ≤ 14 → 0 ∉ nm → (∀ i, 0 ≤ i < 16 → fbyte V d (16 * j + i) = byte_at (dirent_bytes inum nm) i) →
  slot V d j = (inum, nm).
Proof.
  intros Hi Hl Hz Hb. unfold slot. f_equal.
  - pose proof (Hb 0 ltac:(lia)) as H0. rewrite Z.add_0_r in H0. rewrite H0, (Hb 1) by lia.
    change (byte_at (dirent_bytes inum nm) 0) with (u8 inum). change (byte_at (dirent_bytes inum nm) 1) with (u8 (inum / 2 ^ 8)). unfold u8. Z.to_euclidean_division_equations. lia.
  - replace (fbytes V d (16 * j + 2) 14) with (nm ++ replicate (14 - length nm) 0); [by apply cut_pad|].
    apply list_eq_same_length with (n := 14%nat); [unfold fbytes; by rewrite length_fmap, length_seqZ|rewrite length_app, length_replicate; lia|].
    intros i x y Hlt Hx Hy. unfold fbytes in Hy. rewrite list_lookup_fmap, lookup_seqZ_lt in Hy by lia. apply (inj Some) in Hy as <-.
    replace (16 * j + 2 + (0 + Z.of_nat i)) with (16 * j + (2 + Z.of_nat i)) by lia. rewrite Hb by lia. unfold byte_at, dirent_bytes.
    replace (Z.to_nat (2 + Z.of_nat i)) with (S (S i)) by lia.
    change (([u8 inum; u8 (inum / 2 ^ 8)] ++ ?l) !! S (S i)) with (l !! i). by rewrite Hx.
Qed.

Lemma find_same {X} (P : X → Prop) `{∀ x, Decision (P x)} (l l' : list X) :
  (∀ i x, P x → l !! i = Some x ↔ l' !! i = Some x) → list_find P l = list_find P l'.
Proof.
  intros Hl. destruct (list_find P l) as [[i x]|] eqn:E; symmetry.
  - apply list_find_Some in E as (H1 & H2 & H3). apply list_find_Some. split_and!; [by apply Hl|done|]. intros j y Hj Hlt HP. eapply H3; [|exact Hlt|exact HP]. by apply Hl.
  - apply list_find_None in E. apply list_find_None, Forall_lookup_2. intros j y Hj HP. apply Hl in Hj; [|done]. by eapply Forall_lookup_1 in E.
Qed.

(** The directory after entry [j0], which was free or beyond the end, has been set. *)
Section Entered.

Context (V V' : gmap Z block) (d d' : dinode) (n j0 inum : Z) (nm : list Z).
Context (Hn : 0 ≤ n) (Hj0 : 0 ≤ j0 ≤ n) (Hfree : j0 < n → (slot V d j0).1 = 0) (Hinum : inum ≠ 0).
Context (Hnew : slot V' d' j0 = (inum, nm)) (Hold : ∀ j, 0 ≤ j < n → j ≠ j0 → slot V' d' j = slot V d j).

Let n' := Z.max n (j0 + 1).

Lemma entered_lookup i e : entries V' d' n' !! i = Some e ↔ (Z.of_nat i = j0 ∧ e = (inum, nm)) ∨ (Z.of_nat i ≠ j0 ∧ entries V d n !! i = Some e).
Proof.
  destruct (decide (Z.of_nat i < n')) as [Hi|Hi].
  - rewrite <- (Nat2Z.id i) at 1. rewrite entries_lookup by lia. destruct (decide (Z.of_nat i = j0)) as [E|Hne].
    + rewrite E, Hnew. split; [intros [= <-]; by left|]. intros [[_ ->]|[? _]]; done.
    + rewrite Hold by (unfold n' in Hi; lia). rewrite <- (Nat2Z.id i) at 4. rewrite entries_lookup by (unfold n' in Hi; lia). split; [intros H; by right|]. intros [[? _]|[_ ?]]; done.
  - rewrite (lookup_ge_None_2 (entries V' d' n')) by (pose proof (length_entries V' d' n' ltac:(unfold n'; lia)); lia). split; [done|].
    intros [[? _]|[_ H]]; [unfold n' in Hi; lia|]. apply lookup_lt_Some in H. pose proof (length_entries V d n Hn). unfold n' in Hi. lia.
Qed.

Lemma entered_new : dfind nm (entries V d n) = None → dfind nm (entries V' d' n') = Some (Z.to_nat j0, (inum, nm)).
Proof.
  intros Hno. apply list_find_None in Hno. apply list_find_Some. split_and!; [apply entered_lookup; left; split; [lia|done]|by split|].
  intros i y Hi Hlt. apply entered_lookup in Hi as [[? _]|[_ Hi]]; [lia|]. by eapply Forall_lookup_1 in Hno.
Qed.

Lemma entered_others nm' : nm' ≠ nm → dfind nm' (entries V' d' n') = dfind nm' (entries V d n).
Proof.
  intros Hne. apply find_same. intros i e [He1 He2]. rewrite entered_lookup. split.
  - intros [[_ ->]|[_ H]]; [cbn in He2; congruence|done].
  - intros H. right. split; [|done]. intros E. apply He1. pose proof (lookup_lt_Some _ _ _ H). pose proof (length_entries V d n Hn).
    rewrite <- (Nat2Z.id i), entries_lookup in H by lia. injection H as <-. rewrite E. apply Hfree. lia.
Qed.

End Entered.

(** * The operations *)

Section Dir.

Context (dv : Z) (nb : nat) (copyout : Z → list Z → prog bmem bool).
Context (V : gmap Z block) (A : gmap Z active) (N : Z) (k : nat) (B : Z) (dp de name n : Z) (ip : inode) (nm : list Z).
Context (Hcalm : calm nb k B A) (Hk : (0 < k)%nat) (HB : B < 2 ^ 31) (Hdv : i_dev ip = dv) (Htype : d_type (i_d ip) = T_DIR).
Context (Hfile : file_ok V (i_d ip) N) (Hsize : d_size (i_d ip) = 16 * n) (Hn : 0 ≤ n) (Hfit : 16 * n ≤ N * BSIZE) (Hapart : apart de 16 name 15).

Let d := i_d ip.

(** The directory is locked, [de] is the local variable and [name] the argument. *)
Record dir_at (s : fsst) : Prop := {
  da_txn : txn dv nb (fs_log s) V A;
  da_ip : inodes s !! dp = Some ip;
  da_de : mapped (fmem s) de 16;
  da_name : field (fmem s) name 14 nm }.

(** Only the log's buffers and [de] have changed. *)
Definition quiet (s s' : fsst) : Prop :=
  ∃ l mem, s' = set_fmem mem (set_fs_log l s) ∧ txn dv nb l V A ∧ lh_n l = lh_n (fs_log s) ∧
    (∀ x, ¬ (de ≤ x < de + 16) → mem !! x = fmem s !! x) ∧ mapped mem de 16.

Lemma quiet_refl s : dir_at s → quiet s s.
Proof. intros [H1 H2 H3 H4]. exists (fs_log s), (fmem s). split_and!; try done. by destruct s. Qed.

Lemma quiet_trans s1 s2 s3 : quiet s1 s2 → quiet s2 s3 → quiet s1 s3.
Proof.
  intros (l & m & -> & H1 & H2 & H3 & H4) (l' & m' & -> & H1' & H2' & H3' & H4'). exists l', m'. split_and!; try done.
  - by rewrite H2'.
  - intros x Hx. rewrite (H3' x Hx). by apply H3.
Qed.

Lemma quiet_dir s s' : dir_at s → quiet s s' → dir_at s'.
Proof.
  intros [H1 H2 H3 (F1 & F2 & F3 & F4 & F5)] (l & m & -> & G1 & G2 & G3 & G4). split; [done|done|done|]. unfold apart in Hapart. split_and!; [done|done|done| |].
  - intros i c Hi. cbn [fmem set_fmem]. pose proof (lookup_lt_Some _ _ _ Hi). rewrite G3 by lia. by apply F4.
  - intros Hl. cbn [fmem set_fmem]. rewrite G3 by lia. by apply F5.
Qed.

(** [de] holds entry [j]. *)
Definition de_holds (j : Z) (s : fsst) : Prop := ∀ i, 0 ≤ i < 16 → fmem s !! (de + i) = Some (fbyte V d (16 * j + i)).

Lemma dir_small : 16 * n < 2 ^ 31.
Proof. pose proof (fl_max _ _ _ Hfile) as H. change MAXFILE with 268 in H. unfold BSIZE in *. lia. Qed.

Lemma wp_read_slot j s (Q : Z → fsst → Prop) :
  dir_at s → 0 ≤ j < n → (∀ s', quiet s s' → de_holds j s' → Q 16 s') → wp (readi copyout dp false de (16 * j) 16) Q s.
Proof.
  intros [H1 H2 H3 H4] Hj HQ. pose proof dir_small as Hsm.
  assert (readable (d_size d) (16 * j) 16 = 16) as Er.
  { unfold readable, d. rewrite Hsize. rewrite (proj2 (Z.ltb_ge _ _)), (proj2 (Z.leb_gt _ _)) by lia. cbn [orb]. lia. }
  eapply wp_mono; [apply (wp_readi dv nb copyout false s V A d N k B dp ip); try done; try (unfold d; lia)|].
  - apply kernel_copies_out.
  - by rewrite Er.
  - cbv beta. rewrite Er. intros r s' (-> & l & mem & -> & Hl & Hln & Hst). apply HQ.
    + exists l, mem. split_and!; try done; [|by eapply stored_mapped]. intros x Hx. rewrite Hst. rewrite length_fbytes by lia. by rewrite decide_False by lia.
    + intros i Hi. cbn [fmem set_fmem]. rewrite Hst. rewrite length_fbytes, decide_True by lia. unfold fbytes. rewrite list_lookup_fmap.
      replace (de + i - de) with i by lia. rewrite lookup_seqZ_lt by lia. cbn. do 2 f_equal. lia.
Qed.

Lemma wp_slot_inum j s (Q : Z → fsst → Prop) : de_holds j s → Q (slot V d j).1 s → wp (on_fmem (de_inum de)) Q s.
Proof.
  intros Hh HQ. unfold on_fmem, de_inum. apply wp_zoom. pose proof (Hh 0 ltac:(lia)) as H0. rewrite !Z.add_0_r in H0.
  apply wp_bind, (wp_load8 _ _ _ _ H0), wp_bind, (wp_load8 _ _ _ _ (Hh 1 ltac:(lia))), wp_ret. by destruct s.
Qed.

Lemma wp_slot_name j s (Q : Z → fsst → Prop) :
  dir_at s → de_holds j s → (∀ c, (c = 0 ↔ (slot V d j).2 = nm) → Q c s) → wp (on_fmem (namecmp name (de_name de))) Q s.
Proof.
  intros [H1 H2 H3 H4] Hh HQ. unfold on_fmem, namecmp, de_name. apply wp_zoom. pose proof H3 as (D0 & D1 & _).
  assert (field (fmem s) (de + 2) DIRSIZ (slot V d j).2) as Hf.
  { assert (zlen (fbytes V d (16 * j + 2) 14) = 14) as El by (rewrite length_fbytes; lia). unfold slot. cbn [snd].
    change DIRSIZ with 14. rewrite <- El at 1. apply cut_field; [lia|lia|]. intros i c Hi. unfold fbytes in Hi. rewrite list_lookup_fmap in Hi.
    apply fmap_Some in Hi as (x & Hx & ->). apply lookup_seqZ in Hx as [-> Hx].
    replace (de + 2 + Z.of_nat i) with (de + (2 + Z.of_nat i)) by lia. rewrite Hh by lia. do 2 f_equal. lia. }
  eapply wp_mono; [by apply (wp_strncmp _ _ _ _ nm (slot V d j).2)|]. cbv beta. intros r m (-> & Hr & i & Ht & Ei). replace (set_fmem (fmem s) s) with s by (by destruct s).
  apply HQ. split; [intros E; by rewrite Hr|]. intros E. rewrite Ei, E. lia.
Qed.

(** ** Looking up *)

Lemma dfind_first j : 0 ≤ j < n → is_entry nm (slot V d j) → (∀ i, 0 ≤ i < j → ¬ is_entry nm (slot V d i)) →
  dfind nm (entries V d n) = Some (Z.to_nat j, slot V d j).
Proof.
  intros Hj He Hno. apply list_find_Some. split_and!; [by apply entries_lookup|done|]. intros i y Hi Hlt.
  rewrite <- (Nat2Z.id i), entries_lookup in Hi by lia. injection Hi as <-. apply Hno. lia.
Qed.

Lemma dfind_none : (∀ i, 0 ≤ i < n → ¬ is_entry nm (slot V d i)) → dfind nm (entries V d n) = None.
Proof.
  intros Hno. apply list_find_None, Forall_lookup_2. intros i y Hi. pose proof (lookup_lt_Some _ _ _ Hi) as Hl. pose proof (length_entries V d n Hn).
  rewrite <- (Nat2Z.id i), entries_lookup in Hi by lia. injection Hi as <-. apply Hno. lia.
Qed.

(** [*poff = off], if the caller wants it. *)
Definition noted (poff off : Z) (s s' : fsst) : Prop :=
  if poff =? 0 then s' = s
  else ∃ m, s' = set_fmem m s ∧ stored poff [u8 off; u8 (off / 2 ^ 8); u8 (off / 2 ^ 16); u8 (off / 2 ^ 24)] (fmem s) m.

Lemma wp_set_off poff off s (Q : unit → fsst → Prop) :
  (poff ≠ 0 → mapped (fmem s) poff 4) → (∀ s', noted poff off s s' → Q tt s') →
  wp (if poff =? 0 then mret tt else on_fmem (set_off poff off)) Q s.
Proof.
  intros Hm HQ. unfold noted in HQ. destruct (Z.eqb_spec poff 0) as [|Hne]; [by apply wp_ret, HQ|]. unfold on_fmem. apply wp_zoom.
  pose proof (kernel_copies_out (λ _ _, undefined) poff [u8 off; u8 (off / 2 ^ 8); u8 (off / 2 ^ 16); u8 (off / 2 ^ 24)] (fmem s) (Hm Hne)) as Hw.
  unfold either_copyout in Hw. apply wp_bind_inv in Hw. eapply wp_mono; [exact Hw|]. cbv beta. intros [] m Hst. apply HQ. exists m. split; [done|exact (proj2 Hst)].
Qed.

Lemma wp_dirlookup poff s (Q : Z → fsst → Prop) :
  dir_at s → (poff ≠ 0 → mapped (fmem s) poff 4) →
  (dfind nm (entries V d n) = None → ∀ s', quiet s s' → Q 0 s') →
  (∀ j e, dfind nm (entries V d n) = Some (j, e) → ∀ s1 s2, quiet s s1 → noted poff (16 * Z.of_nat j) s1 s2 → wp (iget dv e.1) Q s2) →
  wp (dirlookup copyout de dp name poff) Q s.
Proof.
  intros Hs Hpoff Hmiss Hhit. pose proof dir_small as Hsm. unfold dirlookup. apply wp_bind, (wp_read_inode _ ip); [apply Hs|]. rewrite Htype. cbn [Z.eqb negb].
  apply (wp_loop (λ c off s', ∃ j, off = 16 * j ∧ 0 ≤ j ≤ n ∧ quiet s s' ∧ c = Z.to_nat (n - j) ∧ ∀ i, 0 ≤ i < j → ¬ is_entry nm (slot V d i)) (Z.to_nat n)).
  { exists 0. split_and!; [done|lia|lia|by apply quiet_refl|f_equal; lia|lia]. }
  { rewrite Hsize. lia. }
  intros c off s1 (j & -> & Hj & Hq & -> & Hno). rewrite Hsize. destruct (Z.ltb_spec (16 * j) (16 * n)) as [Hlt|Hge].
  2:{ apply wp_ret, Hmiss; [|done]. apply dfind_none. intros i Hi. apply Hno. lia. }
  change sizeof_dirent with 16. apply wp_bind. pose proof (quiet_dir _ _ Hs Hq) as Hs1. eapply wp_read_slot; [exact Hs1|lia|]. intros s2 Hq2 Hh. cbn [Z.eqb Pos.eqb negb].
  pose proof (quiet_trans _ _ _ Hq Hq2) as Hq3. pose proof (quiet_dir _ _ Hs Hq3) as Hs2.
  assert (¬ is_entry nm (slot V d j) → ∃ c', (c' < Z.to_nat (n - j))%nat ∧ ∃ j', u32 (16 * j + 16) = 16 * j' ∧ 0 ≤ j' ≤ n ∧ quiet s s2 ∧ c' = Z.to_nat (n - j') ∧
    ∀ i, 0 ≤ i < j' → ¬ is_entry nm (slot V d i)) as Hgo.
  { intros Hne. exists (Z.to_nat (n - (j + 1))). split; [lia|]. exists (j + 1). rewrite u32_small by lia. split_and!; [lia|lia|lia|done|done|].
    intros i Hi. destruct (decide (i = j)) as [->|]; [done|apply Hno; lia]. }
  apply wp_bind. eapply wp_slot_inum; [exact Hh|]. destruct (Z.eqb_spec (slot V d j).1 0) as [E|E]; [apply wp_ret, Hgo; by intros [? _]|].
  apply wp_bind. eapply wp_slot_name; [exact Hs2|exact Hh|]. intros r Hr. destruct (Z.eqb_spec r 0) as [E2|E2].
  - apply wp_bind, wp_set_off.
    { intros Hp. destruct Hq3 as (l & m & -> & _ & _ & Hout & Hm). destruct (Hpoff Hp) as (P0 & P1 & P2). split_and!; [done|done|]. intros i Hi. cbn [fmem set_fmem].
      destruct (decide (de ≤ poff + i < de + 16)); [replace (poff + i) with (de + (poff + i - de)) by lia; apply Hm; lia|]. rewrite Hout by done. by apply P2. }
    intros s3 Hnote. apply wp_bind. rewrite Hdv. assert (dfind nm (entries V d n) = Some (Z.to_nat j, slot V d j)) as Hd.
    { apply dfind_first; [lia|split; [done|by apply Hr]|done]. }
    eapply wp_mono; [eapply (Hhit _ _ Hd); [exact Hq3|]; by rewrite Z2Nat.id by lia|]. cbv beta. intros a s4 Ha. by apply wp_ret.
  - apply wp_ret, Hgo. intros [_ He]. by apply E2, Hr.
Qed.

(** ** Entering a name *)

(** The first free entry, or the end. *)
Definition free_slot (j0 : Z) : Prop := 0 ≤ j0 ≤ n ∧ (j0 < n → (slot V d j0).1 = 0).

Lemma wp_free_slot s :
  dir_at s →
  wp (loop (S (Z.to_nat (16 * n)))
        (λ off,
           if u32 off <? 16 * n then
             r ← readi copyout dp false de off sizeof_dirent;
             if negb (r =? sizeof_dirent) then panic "dirlink read"
             else
               inum ← on_fmem (de_inum de);
               if inum =? 0 then mret (inr off) else mret (inl (off + sizeof_dirent))
           else mret (inr off))
        0) (λ off s', ∃ j0, off = 16 * j0 ∧ free_slot j0 ∧ quiet s s') s.
Proof.
  intros Hs. pose proof dir_small as Hsm.
  apply (wp_loop (λ c off s', ∃ j, off = 16 * j ∧ 0 ≤ j ≤ n ∧ quiet s s' ∧ c = Z.to_nat (n - j)) (Z.to_nat n)).
  { exists 0. split_and!; [done|lia|lia|by apply quiet_refl|f_equal; lia]. }
  { lia. }
  intros c off s1 (j & -> & Hj & Hq & ->). rewrite u32_small by lia. destruct (Z.ltb_spec (16 * j) (16 * n)) as [Hlt|Hge].
  2:{ apply wp_ret. exists j. split_and!; [done|split; [lia|lia]|done]. }
  change sizeof_dirent with 16. apply wp_bind. pose proof (quiet_dir _ _ Hs Hq) as Hs1. eapply wp_read_slot; [exact Hs1|lia|]. intros s2 Hq2 Hh. cbn [Z.eqb Pos.eqb negb].
  pose proof (quiet_trans _ _ _ Hq Hq2) as Hq3. apply wp_bind. eapply wp_slot_inum; [exact Hh|]. destruct (Z.eqb_spec (slot V d j).1 0) as [E|E]; apply wp_ret.
  - exists j. split_and!; [done|split; [lia|done]|done].
  - exists (Z.to_nat (n - (j + 1))). split; [lia|]. exists (j + 1). split_and!; [lia|lia|lia|done|done].
Qed.

(** The local variable is filled in. *)
Lemma wp_fill_entry inum s (Q : Z → fsst → Prop) (K : prog fsst Z) :
  dir_at s → (∀ s', quiet s s' → holds (fmem s') de (dirent_bytes inum nm) → wp K Q s') →
  wp (_ ← on_fmem (strncpy (de_name de) name DIRSIZ); _ ← on_fmem (set_de_inum de inum); K) Q s.
Proof.
  intros [H1 H2 H3 H4] HQ. pose proof H3 as (D0 & D1 & D2). pose proof H4 as (_ & _ & Hnl & Hnz & _).
  unfold on_fmem, de_name. change DIRSIZ with 14. apply wp_bind, wp_zoom. eapply wp_mono.
  { apply (wp_strncpy (de + 2) name 14 14 _ nm); [unfold int_max; lia|lia|done|eapply mapped_sub; [exact H3|lia|lia]|unfold apart in *; lia]. }
  cbv beta. intros r m1 (_ & [Hf Hout] & Hpad). rewrite take_ge in Hf by lia. destruct Hf as (_ & _ & _ & Hin & _).
  assert (∀ a, is_Some (fmem s !! a) → is_Some (m1 !! a)) as Hdom1.
  { intros a Ha. destruct (decide (de + 2 ≤ a < de + 2 + 14)) as [Hr|]; [|by rewrite Hout by lia]. destruct (decide (a - (de + 2) < zlen nm)).
    - destruct (lookup_lt_is_Some_2 nm (Z.to_nat (a - (de + 2))) ltac:(lia)) as [c Hc]. destruct (Hin _ _ Hc) as [E _]. exists c. rewrite <- E. f_equal. lia.
    - exists 0. rewrite <- (Hpad (a - (de + 2))) by lia. f_equal. lia. }
  assert (is_Some (m1 !! de) ∧ is_Some (m1 !! (de + 1))) as [G0 G1].
  { split; apply Hdom1; [rewrite <- (Z.add_0_r de)|]; apply D2; lia. }
  apply wp_bind, wp_zoom. cbn [fmem set_fmem]. unfold set_de_inum. apply wp_bind, wp_store8; [done|].
  apply wp_store8; [by rewrite lookup_insert_ne by lia|]. set (m2 := <[de + 1 := _]> _). change (set_fmem m2 (set_fmem m1 s)) with (set_fmem m2 s). apply HQ.
  - exists (fs_log s), m2. split_and!; [by destruct s|exact H1|done| |].
    + intros x Hx. unfold m2. rewrite !lookup_insert_ne by lia. apply Hout. lia.
    + split_and!; [done|done|]. intros i Hi. unfold m2. destruct (decide (i = 1)) as [->|]; [by rewrite lookup_insert_eq|]. rewrite lookup_insert_ne by lia.
      destruct (decide (i = 0)) as [->|]; [rewrite Z.add_0_r, lookup_insert_eq; done|]. rewrite lookup_insert_ne by lia. apply Hdom1, D2. lia.
  - cbn [fmem set_fmem]. rewrite <- (length_dirent inum nm Hnl) in D1. split_and!; [done|done|]. intros i c Hi. unfold dirent_bytes in Hi. unfold m2.
    destruct i as [|[|i]]; cbn [app lookup list_lookup] in Hi.
    + injection Hi as <-. rewrite Z.add_0_r, lookup_insert_ne by lia. by rewrite lookup_insert_eq.
    + injection Hi as <-. by rewrite lookup_insert_eq.
    + rewrite !lookup_insert_ne by lia. replace (de + Z.of_nat (S (S i))) with (de + 2 + Z.of_nat i) by lia.
      change ((nm ++ replicate (14 - length nm) 0) !! i = Some c) in Hi. apply lookup_app_Some in Hi as [Hi|[Hge Hi]]; [by apply Hin|].
      apply lookup_replicate in Hi as [-> Hi]. apply Hpad. lia.
Qed.

Lemma entry_one_block j : 0 ≤ j → nblocks (16 * j) 16 = 1.
Proof. intros Hj. unfold nblocks. cbn [Z.leb Z.compare]. unfold BSIZE. Z.to_euclidean_division_equations. lia. Qed.

(** What [dirlink] leaves behind. *)
Record linked (inum : Z) (k2 : nat) (s s' : fsst) (V' : gmap Z block) (A' : gmap Z active) (d' : dinode) (n' : Z) : Prop := {
  lk_inodes : inodes s' = <[dp := set_d d' ip]> (inodes s);
  lk_table : it_array s' = it_array s ∧ it_lock s' = it_lock s;
  lk_txn : txn dv nb (fs_log s') V' A';
  lk_calm : calm nb k2 (B + 2) A';
  lk_file : file_ok V' d' N;
  lk_size : d_size d' = 16 * n' ∧ n ≤ n' ∧ 16 * n' ≤ N * BSIZE;
  lk_type : d_type d' = T_DIR;
  lk_mem : ∀ x, ¬ (de ≤ x < de + 16) → fmem s' !! x = fmem s !! x;
  lk_de : mapped (fmem s') de 16;
  lk_new : ∃ j, dfind nm (entries V' d' n') = Some (j, (inum, nm));
  lk_others nm' : nm' ≠ nm → dfind nm' (entries V' d' n') = dfind nm' (entries V d n) }.

Lemma file_ok_size V1 x N1 sz : file_ok V1 x N1 → file_ok V1 (set_size sz x) N1.
Proof. destruct x. intros [H1 H2 H3 H4 H5]. split; [exact H1|exact H2|exact H3|exact H4|exact H5]. Qed.

Lemma wp_dirlink copyin inum k2 s :
  dir_at s → k = S (k2 + 1) → 0 ≤ B → B + 1 < 2 ^ 31 → lh_n (fs_log s) + 1 < LOGBLOCKS →
  inode_apart V d N (IBLOCK (i_inum ip) (sb s)) → 16 * n + 16 ≤ N * BSIZE → 0 < inum < 2 ^ 16 → dfind nm (entries V d n) = None →
  wp (dirlink copyout copyin de dp name inum) (λ r s', r = 0 ∧ ∃ V' A' d' n', linked inum k2 s s' V' A' d' n') s.
Proof.
  intros Hs Hk2 HB0 HB1 Hlog Hap Hroom Hinum Hnone. pose proof dir_small as Hsm. unfold dirlink. apply wp_bind, wp_dirlookup; [done|done| |].
  2:{ intros j e Hd. congruence. }
  intros _ s1 Hq1. cbn [Z.eqb negb]. pose proof (quiet_dir _ _ Hs Hq1) as Hs1. apply wp_bind, (wp_read_inode _ ip); [apply Hs1|]. rewrite Hsize.
  apply wp_bind. eapply wp_mono; [by apply wp_free_slot|]. cbv beta. intros off s2 (j0 & -> & [Hj0 Hfree] & Hq2).
  pose proof (quiet_trans _ _ _ Hq1 Hq2) as Hq. pose proof (quiet_dir _ _ Hs Hq) as Hs2. apply wp_fill_entry; [done|]. intros s3 Hq3 Hh.
  pose proof (quiet_trans _ _ _ Hq Hq3) as Hqa. pose proof (quiet_dir _ _ Hs Hqa) as [T1 T2 T3 T4]. pose proof T4 as (_ & _ & Hnl & Hnz & _).
  pose proof (length_dirent inum nm Hnl) as El. assert (zlen (dirent_bytes inum nm) = sizeof_dirent) as El2 by exact El. rewrite <- El2.
  destruct Hqa as (l & m & -> & _ & Hln & Hout & _). rewrite u32_small by lia. apply wp_bind.
  eapply wp_mono.
  { apply (wp_writei dv nb copyin false _ V A d N k2 B dp ip de (16 * j0) (dirent_bytes inum nm)); rewrite ?El, ?entry_one_block by lia; try done; try lia.
    - change (Z.to_nat 1) with 1%nat. by rewrite <- Hk2.
    - cbn [fs_log set_fmem set_fs_log]. lia.
    - apply kernel_copies_in.
    - unfold d. rewrite Hsize. lia. }
  cbv beta. rewrite El, entry_one_block by lia. intros r s4 (-> & lg & V' & A' & -> & H1 & H2 & H3 & H4 & _). cbn [Z.eqb Pos.eqb negb]. apply wp_ret.
  split; [done|]. set (d' := grown d (16 * j0 + 16)). exists V', A', d', (Z.max n (j0 + 1)).
  assert (∀ j, slot V' d' j = slot V' d j) as Hsl by (intros j; unfold d'; by destruct d).
  assert (∀ j, 0 ≤ j < n → j ≠ j0 → slot V' d' j = slot V d j) as Hold.
  { intros j Hj Hne. rewrite Hsl. assert (∀ i, 0 ≤ i < 16 → fbyte V' d (16 * j + i) = fbyte V d (16 * j + i)) as Hb by (intros i Hi; rewrite H4, decide_False by lia; done).
    unfold slot. pose proof (Hb 0 ltac:(lia)) as Hb0. rewrite Z.add_0_r in Hb0. rewrite Hb0, (Hb 1) by lia. do 2 f_equal. unfold fbytes. apply list_fmap_ext.
    intros i x Hx. apply lookup_seqZ in Hx as [-> Hx]. replace (16 * j + 2 + (0 + Z.of_nat i)) with (16 * j + (2 + Z.of_nat i)) by lia. apply Hb. lia. }
  assert (slot V' d' j0 = (inum, nm)) as Hnew.
  { rewrite Hsl. apply entry_slot; [lia|done| |].
    - intros Hin. apply list_elem_of_lookup in Hin as [i Hi]. by destruct (Hnz i 0 Hi).
    - intros i Hi. rewrite H4, decide_True by lia. f_equal. lia. }
  split.
  - done.
  - done.
  - exact H1.
  - replace (B + 2) with (B + 1 + 1) by lia. exact H2.
  - by apply file_ok_size.
  - unfold d', grown. destruct d eqn:Ed. cbn. fold d in Hsize. rewrite Ed in Hsize. cbn in Hsize. lia.
  - unfold d', grown. fold d in Htype. by destruct d.
  - exact Hout.
  - exact T3.
  - exists (Z.to_nat j0). eapply entered_new; try done; lia.
  - intros nm'. eapply entered_others; try done; lia.
Qed.

End Dir.

(** * The inode table *)

(** What the table shows of an entry. *)
Definition face (ip : inode) : Z * Z * Z := (i_ref ip, i_dev ip, i_inum ip).

Definition same_table (s s' : fsst) : Prop :=
  it_lock s' = it_lock s ∧ it_array s' = it_array s ∧ ∀ a, face <$> inodes s' !! a = face <$> inodes s !! a.

Lemma same_entry s s' a ip' : same_table s s' → inodes s' !! a = Some ip' → ∃ ip, inodes s !! a = Some ip ∧ face ip = face ip'.
Proof. intros (_ & _ & H) Hip. specialize (H a). rewrite Hip in H. symmetry in H. by apply fmap_Some in H as (ip & H1 & H2); exists ip. Qed.

Lemma same_entry_2 s s' a ip : same_table s s' → inodes s !! a = Some ip → ∃ ip', inodes s' !! a = Some ip' ∧ face ip' = face ip.
Proof. intros (_ & _ & H) Hip. specialize (H a). rewrite Hip in H. by apply fmap_Some in H as (ip' & H1 & H2); exists ip'. Qed.

(** Room for one more inode in the table. *)
Definition table_room (s : fsst) : Prop :=
  itable_ok s ∧ (∃ a ip, a ∈ it_array s ∧ inodes s !! a = Some ip ∧ i_ref ip = 0) ∧
  ∀ a ip, a ∈ it_array s → inodes s !! a = Some ip → i_ref ip < int_max.

Lemma table_room_same s s' : same_table s s' → table_room s → table_room s'.
Proof.
  intros Hst ([Hlk Hnd Hent Huq] & (a & ip & Ha & Hip & H0) & Hmax). pose proof Hst as (E1 & E2 & _). split_and!.
  - split; rewrite ?E1, ?E2; [done|done| |].
    + intros b Hb. destruct (Hent b Hb) as (Hb0 & x & Hx & Hr). split; [done|]. destruct (same_entry_2 _ _ _ _ Hst Hx) as (x' & Hx' & [= F1 _ _]). exists x'. split; [done|lia].
    + intros b c x y dev inum Hb Hc Hx Hy (N1 & N2 & N3) (M1 & M2 & M3). destruct (same_entry _ _ _ _ Hst Hx) as (x0 & Hx0 & [= X1 X2 X3]).
      destruct (same_entry _ _ _ _ Hst Hy) as (y0 & Hy0 & [= Y1 Y2 Y3]). eapply (Huq b c x0 y0 dev inum); try done; unfold names; (split_and!; [lia|congruence|congruence]).
  - destruct (same_entry_2 _ _ _ _ Hst Hip) as (x' & Hx' & [= F1 _ _]). exists a, x'. rewrite E2. split_and!; [done|done|lia].
  - intros b x Hb Hx. rewrite E2 in Hb. destruct (same_entry _ _ _ _ Hst Hx) as (x0 & Hx0 & [= F1 _ _]). pose proof (Hmax b x0 Hb Hx0). lia.
Qed.

Lemma wp_iget_room dev inum s : table_room s → wp (iget dev inum) (λ a s', ∃ ip, inodes s' !! a = Some ip ∧ names dev inum ip) s.
Proof.
  intros (Ht & (b & x & Hb & Hx & H0) & Hmax). eapply wp_mono; [apply iget_correct; [done|exists b, x; split_and!; [done|done|by left]|done]|].
  cbv beta. intros a s' (_ & Ha & ip & Hip & [[Hn ->]|(_ & -> & _)]); cbn [inodes set_inodes]; eexists; (split; [apply lookup_insert_eq|]); [|done].
  destruct Hn as (N1 & N2 & N3). unfold names. cbn. split_and!; [lia|done|done].
Qed.

(** * The claim *)

(** A directory that is locked inside a transaction, with [n] entries in allocated
    blocks, and the local variable [de]. *)
Record directory (dv : Z) (nb : nat) (V : gmap Z block) (A : gmap Z active) (N : Z) (k : nat) (B dp de n : Z) (ip : inode) (s : fsst) : Prop := {
  dr_txn : txn dv nb (fs_log s) V A;
  dr_calm : calm nb (S (k + 1)) B A ∧ (0 < k)%nat ∧ 0 ≤ B ∧ B + 2 < 2 ^ 31;
  dr_log : lh_n (fs_log s) + 1 < LOGBLOCKS;
  dr_ip : inodes s !! dp = Some ip ∧ i_dev ip = dv ∧ d_type (i_d ip) = T_DIR;
  dr_file : file_ok V (i_d ip) N;
  dr_size : d_size (i_d ip) = 16 * n ∧ 0 ≤ n ∧ 16 * n + 16 ≤ N * BSIZE;
  dr_apart : inode_apart V (i_d ip) N (IBLOCK (i_inum ip) (sb s));
  dr_de : mapped (fmem s) de 16;
  dr_table : table_room s }.

(** C40: directories keep what is entered: [dirlink] of a name that is not in the
    directory succeeds, and afterwards [dirlookup] of that name returns an entry
    of the inode table for the inode that was entered, while [dirlookup] of any
    other name finds the inode it would have found before, or nothing if there
    was nothing. *)
Theorem dirlink_dirlookup_roundtrip dv nb copyout copyin V A N k B dp de n ip s name nm inum name2 nm2 :
  directory dv nb V A N k B dp de n ip s →
  field (fmem s) name 14 nm → apart de 16 name 15 → field (fmem s) name2 14 nm2 → apart de 16 name2 15 →
  0 < inum < 2 ^ 16 → dfind nm (entries V (i_d ip) n) = None →
  wp (r ← dirlink copyout copyin de dp name inum; a ← dirlookup copyout de dp name2 0; mret (r, a))
    (λ '(r, a) s', r = 0 ∧
       match (if decide (nm2 = nm) then Some inum else (λ x, x.2.1) <$> dfind nm2 (entries V (i_d ip) n)) with
       | Some i => ∃ ip', inodes s' !! a = Some ip' ∧ names dv i ip'
       | None => a = 0
       end) s.
Proof.
  intros [D1 (D2 & D2k & D2b & D2c) D3 (D4 & D5 & D6) D7 (D8 & D8n & D8f) D9 D10 D11] Hf1 Ha1 Hf2 Ha2 Hin Hnone.
  apply wp_bind. eapply wp_mono.
  { eapply (wp_dirlink dv nb copyout V A N (S (k + 1)) B dp de name n ip nm D2); try done; try lia. }
  cbv beta. intros r s1 (-> & V' & A' & d' & n' & [L1 [L2a L2b] L3 L4 L5 (L6a & L6b & L6c) L7 L8 L9 [j L10] L11]).
  assert (same_table s s1) as Hst.
  { split_and!; [done|done|]. intros a. rewrite L1. destruct (decide (a = dp)) as [->|Hne]; [rewrite lookup_insert_eq, D4; done|by rewrite lookup_insert_ne]. }
  pose proof (table_room_same _ _ Hst D11) as Hroom. apply wp_bind.
  assert (∀ i s2 s3 (Q : Z → fsst → Prop), quiet dv nb V' A' de s1 s2 → noted 0 (16 * Z.of_nat i) s2 s3 → table_room s3) as Hq.
  { intros i s2 s3 _ (l & m & -> & _) ->. eapply table_room_same; [|exact Hroom]. by split_and!. }
  eapply (wp_dirlookup dv nb copyout V' A' N k (B + 2) dp de name2 n' (set_d d' ip) nm2 L4); try done; try lia.
  - split; [done|by rewrite L1, lookup_insert_eq|done|]. destruct Hf2 as (F1 & F2 & F3 & F4 & F5). unfold apart in Ha2. split_and!; [done|done|done| |].
    + intros i c Hi. pose proof (lookup_lt_Some _ _ _ Hi). rewrite L8 by lia. by apply F4.
    + intros Hl. rewrite L8 by lia. by apply F5.
  - intros Hd s2 _. apply wp_ret. split; [done|]. cbn [i_d set_d] in Hd. destruct (decide (nm2 = nm)) as [->|Hne]; [congruence|]. rewrite L11 in Hd by done. by rewrite Hd.
  - intros i e Hd s2 s3 Hq2 Hn2. cbn [i_d set_d] in Hd. eapply wp_mono; [apply wp_iget_room; by eapply (Hq i s2 s3 (λ _ _, True))|]. cbv beta. intros a s4 Ha. apply wp_ret. split; [done|].
    destruct (decide (nm2 = nm)) as [->|Hne].
    + rewrite L10 in Hd. injection Hd as _ <-. exact Ha.
    + rewrite L11 in Hd by done. rewrite Hd. exact Ha.
Qed.

(** An empty directory with one block; the name [a] at 100 and the name [b] at 130. *)
Definition dir_inode : inode := Inode 1 1 1 true true (Dinode 1 0 0 1 0 (3 :: replicate 12 0)).

Definition dir_fs : fsst :=
  FsSt (fs_log small_fs) (sb small_fs) false [500; 501] {[500 := dir_inode; 501 := zero_inode]}
    (list_to_map ((λ i, (i, if i =? 100 then 97 else if i =? 130 then 98 else 0)) <$> seqZ 100 100)) 0.

Lemma dir_fs_byte i : 100 ≤ i < 200 → fmem dir_fs !! i = Some (if i =? 100 then 97 else if i =? 130 then 98 else 0).
Proof.
  intros Hi. cbn [fmem dir_fs]. apply elem_of_list_to_map_1.
  - rewrite <- list_fmap_compose. apply (NoDup_fmap_2 (λ i, i)), NoDup_seqZ.
  - apply list_elem_of_fmap. exists i. split; [done|]. apply elem_of_seqZ. lia.
Qed.

Lemma dir_fs_entry a ip : a ∈ it_array dir_fs → inodes dir_fs !! a = Some ip → (a = 500 ∧ ip = dir_inode) ∨ (a = 501 ∧ ip = zero_inode).
Proof.
  intros Ha Hip. apply elem_of_cons in Ha as [->|Ha]; [injection Hip as <-; by left|]. apply list_elem_of_singleton in Ha as ->. injection Hip as <-. by right.
Qed.

Lemma dir_fs_room : table_room dir_fs.
Proof.
  split_and!.
  - split; [done|repeat constructor; set_solver| |].
    + intros a Ha. apply elem_of_cons in Ha as [->|Ha]; [split; [done|]; eexists; by split|]. apply list_elem_of_singleton in Ha as ->. split; [done|]. eexists. by split.
    + intros a b x y dev inum Ha Hb Hx Hy (N1 & _) (M1 & _).
      destruct (dir_fs_entry a x Ha Hx) as [[-> ->]|[-> ->]], (dir_fs_entry b y Hb Hy) as [[-> ->]|[-> ->]]; cbn in *; done || lia.
  - exists 501, zero_inode. split_and!; [set_solver|done|done].
  - intros a x Ha Hx. destruct (dir_fs_entry a x Ha Hx) as [[-> ->]|[-> ->]]; vm_compute; reflexivity.
Qed.

Lemma dir_fs_directory : directory 1 3 small_disk ∅ 1 1 0 500 150 0 dir_inode dir_fs.
Proof.
  split.
  - exact small_txn.
  - split_and!; [by apply small_calm; lia|lia|lia|lia].
  - vm_compute. reflexivity.
  - done.
  - split; [done| |done|intros bn bn' addr ->%zero_only ->%zero_only; done|].
    + intros bn ->%zero_only. exists 3, four_bytes. split_and!; reflexivity || lia.
    + intros bn addr ->%zero_only [= <-]. vm_compute. discriminate.
  - cbn. unfold BSIZE. lia.
  - split; [eexists; reflexivity|]. split; [intros bn ->%zero_only|]; vm_compute; discriminate.
  - split_and!; [lia|lia|]. intros i Hi. rewrite dir_fs_byte by lia. by eexists.
  - exact dir_fs_room.
Qed.

Lemma dir_fs_field p c : (p = 100 ∧ c = 97) ∨ (p = 130 ∧ c = 98) → field (fmem dir_fs) p 14 [c].
Proof.
  intros [[-> ->]|[-> ->]]; (split_and!; [lia|lia|cbn; lia| |intros _; rewrite dir_fs_byte by (cbn; lia); reflexivity]);
    intros [|i] x Hi; [injection Hi as <-|done|injection Hi as <-|done]; rewrite dir_fs_byte by lia; done.
Qed.

(** The name [a] is entered for inode 9; then it is found, and [b] is not. *)
Lemma dirlink_dirlookup_roundtrip_witness :
  wp (r ← dirlink (λ _ _, mret true) (λ _ _, mret None) 150 500 100 9; a ← dirlookup (λ _ _, mret true) 150 500 100 0; mret (r, a))
    (λ '(r, a) s', r = 0 ∧ ∃ ip', inodes s' !! a = Some ip' ∧ names 1 9 ip') dir_fs ∧
  wp (r ← dirlink (λ _ _, mret true) (λ _ _, mret None) 150 500 100 9; a ← dirlookup (λ _ _, mret true) 150 500 130 0; mret (r, a))
    (λ '(r, a) _, r = 0 ∧ a = 0) dir_fs.
Proof.
  split.
  - apply (dirlink_dirlookup_roundtrip 1 3 (λ _ _, mret true) (λ _ _, mret None) small_disk ∅ 1 1 0 500 150 0 dir_inode dir_fs 100 [97] 9 100 [97] dir_fs_directory);
      [apply dir_fs_field; by left|unfold apart; lia|apply dir_fs_field; by left|unfold apart; lia|lia|reflexivity].
  - apply (dirlink_dirlookup_roundtrip 1 3 (λ _ _, mret true) (λ _ _, mret None) small_disk ∅ 1 1 0 500 150 0 dir_inode dir_fs 100 [97] 9 130 [98] dir_fs_directory);
      [apply dir_fs_field; by left|unfold apart; lia|apply dir_fs_field; by right|unfold apart; lia|lia|reflexivity].
Defined.
