(* ===== verification/Pipe.v ===== *)
(** Pipes (kernel/pipe.c): a ring of [PIPESIZE] bytes with free-running 32-bit
    counters.  A call runs under the pipe's lock until it returns or sleeps;
    each such run is one step, and calls of several processes interleave. *)

From S2P Require Import Prelude.

(** * Data *)

Definition PIPESIZE : Z := 512.

(** The channels a process can sleep on: [&pi->nread] and [&pi->nwrite]. *)
Inductive pchan : Type :=
  | ChRead
  | ChWrite.

(** [struct pipe], with the channels [wakeup] has been called on, latest first. *)
Record pipe := Pipe {
  data : list Z;
  nread : Z;
  nwrite : Z;
  readopen : bool;
  writeopen : bool;
  woken : list pchan }.

(** [data[i]], an array of [PIPESIZE] bytes. *)
Definition get_data (i : Z) : prog pipe Z := pi ← get; of_option (data pi !! Z.to_nat i).

(** [pi->data[pi->nwrite++ % PIPESIZE] = ch] *)
Definition push_byte (ch : Z) : prog pipe unit :=
  modify (λ pi, Pipe (<[Z.to_nat (nwrite pi mod PIPESIZE) := ch]> (data pi)) (nread pi) (u32 (nwrite pi + 1))
                  (readopen pi) (writeopen pi) (woken pi)).

(** [pi->nread++] *)
Definition pop_byte : prog pipe unit :=
  modify (λ pi, Pipe (data pi) (u32 (nread pi + 1)) (nwrite pi) (readopen pi) (writeopen pi) (woken pi)).

Definition wakeup (c : pchan) : prog pipe unit :=
  modify (λ pi, Pipe (data pi) (nread pi) (nwrite pi) (readopen pi) (writeopen pi) (c :: woken pi)).

(** * Operations *)

(** How a run of [pipewrite] ends: asleep with [i] bytes written, or returning
    [r] after [i] bytes. *)
Inductive write_end : Type :=
  | WSleep (i : Z)
  | WRet (i r : Z).

Definition written_upto (e : write_end) : Z :=
  match e with
  | WSleep i => i
  | WRet i _ => i
  end.

(** A run of [pipewrite] from byte [i]; [src j] is the user byte at [addr + j],
    or [None] if [copyin] fails there, and [killed j] whether the process has been
    killed by the time it gets there. *)
Definition pipewrite_run (killed : Z → bool) (src : Z → option Z) (n i : Z) : prog pipe write_end :=
  loop (S (Z.to_nat (n - i)))
    (λ i,
       pi ← get;
       if i <? n then
         if negb (readopen pi) || killed i then mret (inr (WRet i (-1)))
         else if nwrite pi =? u32 (nread pi + PIPESIZE) then _ ← wakeup ChRead; mret (inr (WSleep i))
         else
           match src i with
           | None => _ ← wakeup ChRead; mret (inr (WRet i i))
           | Some ch => _ ← push_byte ch; mret (inl (i + 1))
           end
       else _ ← wakeup ChRead; mret (inr (WRet i i)))
    i.

(** How a run of [piperead] ends: asleep, or returning [r] with the bytes it
    has delivered. *)
Inductive read_end : Type :=
  | RSleep
  | RRet (l : list Z) (r : Z).

Definition delivered (e : read_end) : list Z :=
  match e with
  | RSleep => []
  | RRet l _ => l
  end.

(** The copy loop of [piperead]; [dst j] tells whether [copyout] can store a
    byte at [addr + j]. *)
Definition piperead_copy (dst : Z → bool) (n : Z) : prog pipe read_end :=
  loop (S (Z.to_nat n))
    (λ '(i, l),
       pi ← get;
       if i <? n then
         if nread pi =? nwrite pi then _ ← wakeup ChWrite; mret (inr (RRet l i))
         else
           ch ← get_data (nread pi mod PIPESIZE);
           if dst i then _ ← pop_byte; mret (inl (i + 1, l ++ [ch]))
           else _ ← wakeup ChWrite; mret (inr (RRet l (if i =? 0 then -1 else i)))
       else _ ← wakeup ChWrite; mret (inr (RRet l i)))
    (0, []).

Definition piperead_run (killed : bool) (dst : Z → bool) (n : Z) : prog pipe read_end :=
  pi ← get;
  if (nread pi =? nwrite pi) && writeopen pi then
    if killed then mret (RRet [] (-1)) else mret RSleep
  else piperead_copy dst n.

(** [pipeclose], up to the point where the pipe is freed: whether it is. *)
Definition pipeclose_run (writable : bool) : prog pipe bool :=
  _ ← modify (λ pi, if writable then Pipe (data pi) (nread pi) (nwrite pi) (readopen pi) false (woken pi)
                    else Pipe (data pi) (nread pi) (nwrite pi) false (writeopen pi) (woken pi));
  _ ← wakeup (if writable then ChRead else ChWrite);
  pi ← get;
  mret (negb (readopen pi) && negb (writeopen pi)).

(** * The contents of a pipe *)

Definition pipe_ok (pi : pipe) : Prop :=
  length (data pi) = 512%nat ∧ 0 ≤ nread pi < 2 ^ 32 ∧ 0 ≤ nwrite pi < 2 ^ 32 ∧
  u32 (nwrite pi - nread pi) ≤ PIPESIZE.

(** Byte [k] of the queue. *)
Definition byte_in (pi : pipe) (k : nat) : Z :=
  default 0 (data pi !! Z.to_nat ((nread pi + Z.of_nat k) mod PIPESIZE)).

Definition pipe_len (pi : pipe) : nat := Z.to_nat (u32 (nwrite pi - nread pi)).

Definition contents (pi : pipe) : list Z := byte_in pi <$> seq 0 (pipe_len pi).

Lemma u32_wrap a b c : u32 (u32 a + b + c) = u32 (a + b + c).
Proof. unfold u32. rewrite <- Z.add_assoc, Zplus_mod_idemp_l. f_equal. lia. Qed.

(** The counters may wrap: 512 divides 2^32. *)
Lemma u32_mod a b : (u32 a + b) mod PIPESIZE = (a + b) mod PIPESIZE.
Proof. unfold u32, PIPESIZE. Z.to_euclidean_division_equations. lia. Qed.

Lemma full_iff pi : pipe_ok pi → nwrite pi = u32 (nread pi + PIPESIZE) ↔ pipe_len pi = 512%nat.
Proof.
  intros (_ & H1 & H2 & H3). unfold pipe_len, u32, PIPESIZE in *. Z.to_euclidean_division_equations. lia.
Qed.

Lemma empty_iff pi : pipe_ok pi → nread pi = nwrite pi ↔ pipe_len pi = 0%nat.
Proof.
  intros (_ & H1 & H2 & H3). unfold pipe_len, u32, PIPESIZE in *. Z.to_euclidean_division_equations. lia.
Qed.

(** Where the next byte goes. *)
Lemma tail_index a b : b mod PIPESIZE = (a + u32 (b - a)) mod PIPESIZE.
Proof. unfold u32, PIPESIZE. Z.to_euclidean_division_equations. lia. Qed.

Lemma index_ne a i j : 0 ≤ i < j → j < PIPESIZE → (a + i) mod PIPESIZE ≠ (a + j) mod PIPESIZE.
Proof. unfold PIPESIZE. intros Hi Hj. Z.to_euclidean_division_equations. lia. Qed.

Lemma index_range a : 0 ≤ a mod PIPESIZE < PIPESIZE.
Proof. apply Z.mod_pos_bound. done. Qed.

Lemma push_contents pi ch pi' :
  pipe_ok pi → pipe_len pi ≠ 512%nat → push_byte ch pi = Ok (tt, pi') →
  pipe_ok pi' ∧ contents pi' = contents pi ++ [ch] ∧ readopen pi' = readopen pi ∧ writeopen pi' = writeopen pi.
Proof.
  intros (Hd & H1 & H2 & H3) Hlen [= <-]. unfold pipe_len in Hlen.
  assert (0 ≤ u32 (nwrite pi - nread pi) < 512) as Hl.
  { unfold PIPESIZE in H3. pose proof (Z.mod_pos_bound (nwrite pi - nread pi) (2 ^ 32)). unfold u32 in *. lia. }
  assert (u32 (u32 (nwrite pi + 1) - nread pi) = u32 (nwrite pi - nread pi) + 1) as El.
  { unfold u32 in *. Z.to_euclidean_division_equations. lia. }
  split_and!; try done; cbn.
  - unfold pipe_ok. cbn. rewrite length_insert. split_and!; try done; try lia.
    + apply Z.mod_pos_bound. lia.
    + apply Z.mod_pos_bound. lia.
    + rewrite El. unfold PIPESIZE. lia.
  - unfold contents, pipe_len. cbn. rewrite El. replace (Z.to_nat (u32 (nwrite pi - nread pi) + 1))
      with (S (Z.to_nat (u32 (nwrite pi - nread pi)))) by lia.
    rewrite seq_S, fmap_app. set (n := Z.to_nat (u32 (nwrite pi - nread pi))). f_equal.
    + apply list_fmap_ext. intros i k Hk. apply lookup_seq in Hk as [-> Hk]. unfold byte_in. cbn. f_equal.
      rewrite list_lookup_insert_ne; [done|]. rewrite (tail_index (nread pi) (nwrite pi)).
      pose proof (index_ne (nread pi) (Z.of_nat i) (u32 (nwrite pi - nread pi)) ltac:(lia) ltac:(unfold PIPESIZE; lia)).
      pose proof (index_range (nread pi + Z.of_nat i)). pose proof (index_range (nread pi + u32 (nwrite pi - nread pi))). lia.
    + simpl. f_equal. unfold byte_in. cbn. replace (Z.of_nat n) with (u32 (nwrite pi - nread pi)) by lia.
      rewrite <- tail_index, list_lookup_insert_eq; [done|]. pose proof (index_range (nwrite pi)). unfold PIPESIZE in *. lia.
Qed.

Lemma pop_contents pi c l pi' :
  pipe_ok pi → contents pi = c :: l → pop_byte pi = Ok (tt, pi') →
  pipe_ok pi' ∧ contents pi' = l ∧ data pi !! Z.to_nat (nread pi mod PIPESIZE) = Some c ∧ nread pi ≠ nwrite pi ∧
  readopen pi' = readopen pi ∧ writeopen pi' = writeopen pi.
Proof.
  intros Hok Hc [= <-]. pose proof Hok as (Hd & H1 & H2 & H3).
  assert (pipe_len pi ≠ 0%nat) as Hn by (intros E; unfold contents in Hc; rewrite E in Hc; done).
  assert (nread pi ≠ nwrite pi) as Hne by (by rewrite empty_iff). unfold contents, pipe_len in *.
  assert (u32 (nwrite pi - u32 (nread pi + 1)) = u32 (nwrite pi - nread pi) - 1) as El.
  { unfold u32 in *. Z.to_euclidean_division_equations. lia. }
  destruct (Z.to_nat (u32 (nwrite pi - nread pi))) as [|n] eqn:En; [done|]. cbn [seq] in Hc. rewrite fmap_cons in Hc. injection Hc as Hc Hl.
  split_and!; try done; cbn.
  - unfold pipe_ok. cbn. rewrite El. split_and!; try done; try lia; apply Z.mod_pos_bound; lia.
  - unfold pipe_len. cbn. rewrite El. replace (Z.to_nat (u32 (nwrite pi - nread pi) - 1)) with n by lia.
    rewrite <- Hl, <- fmap_S_seq, <- list_fmap_compose. apply list_fmap_ext. intros i k _. unfold byte_in. cbn.
    rewrite u32_mod. do 4 f_equal. lia.
  - unfold byte_in in Hc. rewrite Z.add_0_r in Hc. pose proof (index_range (nread pi)). unfold PIPESIZE in *.
    destruct (lookup_lt_is_Some_2 (data pi) (Z.to_nat (nread pi mod 512))) as [x Hx]; [lia|]. rewrite Hx in Hc |- *.
    simpl in Hc. by subst.
Qed.

(** * What a run does *)

Definition same_ends (pi pi' : pipe) : Prop := readopen pi' = readopen pi ∧ writeopen pi' = writeopen pi.

(** The bytes [src i .. src (j - 1)]. *)
Definition bytes_of (src : Z → option Z) (i j : Z) : list Z := omap src (seqZ i (j - i)).

Lemma bytes_of_snoc src i j c : i ≤ j → src j = Some c → bytes_of src i (j + 1) = bytes_of src i j ++ [c].
Proof.
  intros Hij Hc. unfold bytes_of. replace (j + 1 - i) with ((j - i) + 1) by lia.
  rewrite seqZ_app, omap_app by lia. f_equal. replace (i + (j - i)) with j by lia.
  rewrite (seqZ_cons j 1) by lia. simpl. by rewrite Hc.
Qed.

Lemma bytes_of_nil src i : bytes_of src i i = [].
Proof. unfold bytes_of. by rewrite Z.sub_diag. Qed.

Lemma wp_push_byte ch pi (Q : unit → pipe → Prop) :
  pipe_ok pi → pipe_len pi ≠ 512%nat →
  (∀ pi', pipe_ok pi' → contents pi' = contents pi ++ [ch] → same_ends pi pi' → Q tt pi') → wp (push_byte ch) Q pi.
Proof.
  intros Hok Hl HQ. destruct (push_contents pi ch _ Hok Hl eq_refl) as (K1 & K2 & K3 & K4). by apply HQ.
Qed.

Lemma wp_pop_byte c l pi (Q : unit → pipe → Prop) :
  pipe_ok pi → contents pi = c :: l →
  (∀ pi', pipe_ok pi' → contents pi' = l → same_ends pi pi' → Q tt pi') → wp pop_byte Q pi.
Proof.
  intros Hok Hl HQ. destruct (pop_contents pi c l _ Hok Hl eq_refl) as (K1 & K2 & _ & _ & K3 & K4). by apply HQ.
Qed.

Lemma wp_pipewrite_run killed src n i pi :
  pipe_ok pi →
  wp (pipewrite_run killed src n i) (λ e pi', pipe_ok pi' ∧ same_ends pi pi' ∧ i ≤ written_upto e ∧
    contents pi' = contents pi ++ bytes_of src i (written_upto e) ∧
    match e with
    | WSleep j => j < n ∧ length (contents pi') = 512%nat ∧ head (woken pi') = Some ChRead
    | WRet j r => (r = j ∧ head (woken pi') = Some ChRead ∧ (n ≤ j ∨ src j = None)) ∨ (r = -1 ∧ (readopen pi = false ∨ killed j = true))
    end) pi.
Proof.
  intros Hok. unfold pipewrite_run.
  apply (wp_loop (λ k j pi', k = Z.to_nat (n - j) ∧ i ≤ j ∧ pipe_ok pi' ∧ same_ends pi pi' ∧
    contents pi' = contents pi ++ bytes_of src i j) (Z.to_nat (n - i))); [|lia|].
  { split_and!; try done. by rewrite bytes_of_nil, app_nil_r. }
  intros k j pi1 (-> & Hij & Hok1 & [Er Ew] & Hc). wp_auto. destruct (Z.ltb_spec j n) as [Hlt|Hge].
  2:{ unfold wakeup. wp_auto. split_and!; try done. left. split_and!; [done|done|by left]. }
  destruct (negb (readopen pi1) || killed j) eqn:Ek.
  { wp_auto. split_and!; try done. right. split; [done|]. rewrite <- Er. apply orb_true_iff in Ek as [?%negb_true_iff|?]; auto. }
  destruct (Z.eqb_spec (nwrite pi1) (u32 (nread pi1 + PIPESIZE))) as [E|E].
  { unfold wakeup. wp_auto. split_and!; try done. apply full_iff in E; [|done]. unfold contents. by rewrite length_fmap, length_seq. }
  destruct (src j) as [ch|] eqn:Es; [|unfold wakeup]; wp_auto.
  2:{ split_and!; try done. left. split_and!; [done|done|by right]. }
  apply wp_push_byte; [done|by rewrite <- full_iff|]. intros pi2 K1 K2 [K3 K4]. wp_auto.
  exists (Z.to_nat (n - (j + 1))). split; [lia|]. split_and!; try done; [lia|split; congruence|].
  by rewrite K2, Hc, <- app_assoc, (bytes_of_snoc _ _ _ ch) by (done || lia).
Qed.

Definition read_post (pi : pipe) (e : read_end) (pi' : pipe) : Prop :=
  pipe_ok pi' ∧ same_ends pi pi' ∧ contents pi = delivered e ++ contents pi' ∧
  match e with
  | RSleep => contents pi = [] ∧ writeopen pi = true
  | RRet l r => (r = zlen l ∧ head (woken pi') = Some ChWrite) ∨ (r = -1 ∧ l = [])
  end.

Lemma wp_piperead_copy dst n pi : pipe_ok pi → wp (piperead_copy dst n) (read_post pi) pi.
Proof.
  intros Hok. unfold piperead_copy.
  apply (wp_loop (λ k '(i, l) pi', k = Z.to_nat (n - i) ∧ i = zlen l ∧ pipe_ok pi' ∧ same_ends pi pi' ∧
    contents pi = l ++ contents pi') (Z.to_nat n)); [|lia|].
  { split_and!; try done. f_equal. lia. }
  intros k [i l] pi1 (-> & -> & Hok1 & Hse & Hc). wp_auto. destruct (Z.ltb_spec (zlen l) n) as [Hlt|Hge].
  2:{ unfold wakeup. wp_auto. split_and!; try done. by left. }
  destruct (Z.eqb_spec (nread pi1) (nwrite pi1)) as [E1|E1].
  { unfold wakeup. wp_auto. split_and!; try done. by left. }
  rewrite empty_iff in E1 by done. destruct (contents pi1) as [|c l1] eqn:Ec.
  { unfold contents in Ec. apply fmap_nil_inv in Ec. by destruct (pipe_len pi1). }
  destruct (pop_contents pi1 c l1 _ Hok1 Ec eq_refl) as (_ & _ & Hd & _). unfold get_data. wp_auto.
  apply (wp_of_option _ c); [done|]. destruct (dst (zlen l)); [|unfold wakeup]; wp_auto.
  - apply (wp_pop_byte c l1); [done|done|]. intros pi2 K1 K2 [K3 K4]. wp_auto.
    exists (Z.to_nat (n - (zlen l + 1))). split; [lia|]. rewrite length_app. simpl. destruct Hse.
    split_and!; try done; [lia|split; congruence|]. by rewrite Hc, K2, <- app_assoc.
  - split_and!; try done; [by rewrite Hc, <- Ec|]. destruct (Z.eqb_spec (zlen l) 0) as [E0|E0]; [right|by left].
    split; [done|]. by destruct l.
Qed.

Lemma wp_piperead_run killed dst n pi : pipe_ok pi → wp (piperead_run killed dst n) (read_post pi) pi.
Proof.
  intros Hok. unfold piperead_run. wp_auto. apply wp_if; intros E; [|by apply wp_piperead_copy].
  apply andb_true_iff in E as [E%Z.eqb_eq Ew]. apply empty_iff in E; [|done].
  destruct killed; wp_auto; split_and!; try done; [by right|]. unfold contents. by rewrite E.
Qed.

(** * Several readers and writers *)

(** A pipe with everything written to it and everything read from it. *)
Record psys := PSys {
  pp : pipe;
  sent : list Z;
  got : list Z }.

Inductive pstep : psys → psys → Prop :=
  | ps_write killed src n i e pi pi' s g :
      pipewrite_run killed src n i pi = Ok (e, pi') →
      pstep (PSys pi s g) (PSys pi' (s ++ bytes_of src i (written_upto e)) g)
  | ps_read killed dst n e pi pi' s g :
      piperead_run killed dst n pi = Ok (e, pi') →
      pstep (PSys pi s g) (PSys pi' s (g ++ delivered e))
  | ps_close writable b pi pi' s g :
      pipeclose_run writable pi = Ok (b, pi') → pstep (PSys pi s g) (PSys pi' s g).

(** A pipe [pipealloc] has set up. *)
Definition new_pipe (d : list Z) : psys := PSys (Pipe d 0 0 true true []) [] [].

Definition pipe_inv (s : psys) : Prop := pipe_ok (pp s) ∧ sent s = got s ++ contents (pp s).

Lemma pstep_inv s t : pstep s t → pipe_inv s → pipe_inv t.
Proof.
  intros [killed src n i e pi pi' s' g E|killed dst n e pi pi' s' g E|w b pi pi' s' g E] [Hok Hs]; cbn in *.
  - pose proof (wp_result _ _ _ _ _ (wp_pipewrite_run killed src n i pi Hok) E) as (K1 & _ & _ & K2 & _).
    split; cbn; [done|]. by rewrite K2, Hs, <- app_assoc.
  - pose proof (wp_result _ _ _ _ _ (wp_piperead_run killed dst n pi Hok) E) as (K1 & _ & K2 & _).
    split; cbn; [done|]. by rewrite Hs, K2, <- app_assoc.
  - injection E as _ <-. destruct w; split; done.
Qed.

Lemma pipe_reachable_inv s t : rtc pstep s t → pipe_inv s → pipe_inv t.
Proof. induction 1 as [|? ? ? Hst _ IH]; [done|]. intros H. by eapply IH, pstep_inv. Qed.

(** C18: a pipe is a first-in first-out queue of at most [PIPESIZE] bytes, for
    every interleaving of readers and writers and however often the counters
    wrap: what has been written is what has been read followed by what is in
    the pipe.  Every run of a writer or reader ends; a writer sleeps only when
    the pipe is full and after it has woken the readers, a reader only when the
    pipe is empty and its write end open, and a call that returns a count
    returns the number of bytes it moved and has woken the other side. *)
Theorem pipe_fifo d s :
  length d = 512%nat → rtc pstep (new_pipe d) s →
  sent s = got s ++ contents (pp s) ∧ (length (contents (pp s)) ≤ 512)%nat ∧
  (∀ killed src n i, wp (pipewrite_run killed src n i) (λ e pi', contents pi' = contents (pp s) ++ bytes_of src i (written_upto e) ∧
     (∀ j, e = WSleep j → length (contents pi') = 512%nat ∧ head (woken pi') = Some ChRead) ∧
     (∀ j r, e = WRet j r → r ≠ -1 → r = j ∧ head (woken pi') = Some ChRead)) (pp s)) ∧
  (∀ killed dst n, wp (piperead_run killed dst n) (λ e pi', contents (pp s) = delivered e ++ contents pi' ∧
     (e = RSleep → contents (pp s) = [] ∧ writeopen (pp s) = true) ∧
     (∀ l r, e = RRet l r → r ≠ -1 → r = zlen l ∧ head (woken pi') = Some ChWrite)) (pp s)).
Proof.
  intros Hd Hr. assert (pipe_inv s) as [Hok Hs].
  { eapply pipe_reachable_inv; [done|]. split; [|done]. by split_and!. }
  split_and!; [done| | |].
  - unfold contents. rewrite length_fmap, length_seq. destruct Hok as (_ & _ & _ & H). unfold pipe_len, PIPESIZE in *. lia.
  - intros killed src n i. eapply wp_mono; [by apply wp_pipewrite_run|]. intros e pi' (_ & _ & _ & K1 & K2).
    split_and!; [done|intros j ->; apply K2|]. intros j r -> Hr1. destruct K2 as [(-> & ? & _)|[-> _]]; done.
  - intros killed dst n. eapply wp_mono; [by apply wp_piperead_run|]. intros e pi' (_ & _ & K1 & K2).
    split_and!; [done|intros ->; apply K2|]. intros l r -> Hr1. destruct K2 as [[-> ?]|[-> _]]; done.
Qed.

Lemma pipe_fifo_witness :
  ∃ s, rtc pstep (new_pipe (replicate 512 0)) s ∧ sent s = [7; 8] ∧ got s = [7] ∧ sent s = got s ++ contents (pp s).
Proof.
  set (src := λ i : Z, Some (7 + i)).
  destruct (pipewrite_run (λ _, false) src 2 0 (Pipe (replicate 512 0) 0 0 true true [])) as [[e pi]| | |] eqn:E; [|vm_compute in E; discriminate..].
  destruct (piperead_run false (λ _, true) 1 pi) as [[e' pi']| | |] eqn:E'; [|vm_compute in E; injection E as <- <-; vm_compute in E'; discriminate..].
  set (s := PSys pi' ([] ++ bytes_of src 0 (written_upto e)) ([] ++ delivered e')).
  assert (rtc pstep (new_pipe (replicate 512 0)) s) as Hr.
  { eapply rtc_l; [exact (ps_write _ _ _ _ _ _ _ _ _ E)|]. eapply rtc_l; [exact (ps_read _ _ _ _ _ _ _ _ E')|]. apply rtc_refl. }
  exists s. split; [exact Hr|]. split; [|split].
  - vm_compute in E. injection E as <- _. reflexivity.
  - vm_compute in E. injection E as _ <-. vm_compute in E'. injection E' as <- _. reflexivity.
  - apply (pipe_fifo (replicate 512 0) s eq_refl Hr).
Defined.
