(* ===== verification/File.v ===== *)
(** Open files (kernel/file.c) and the creation of pipes (kernel/pipe.c), over
    the slab allocator, the file system and the pipes.  The model is the view
    of one process. *)

From S2P Require Import Prelude.
From S2P Require Import Slab.
From S2P Require Import Cstring.
From S2P Require Import Bio.
From S2P Require Import Log.
From S2P Require Import Fs.
From S2P Require Import Pipe.

(** * Data *)

Definition NFILE : Z := 100.

Definition NDEV : Z := 10.

Definition sizeof_file : Z := 40.

Definition sizeof_pipe : Z := 552.

Definition sizeof_devsw : Z := 16.

Inductive fdtype : Set :=
  | FD_NONE
  | FD_PIPE
  | FD_INODE
  | FD_DEVICE.

Record file := File {
  f_type : fdtype;
  f_ref : Z;
  f_readable : bool;
  f_writable : bool;
  f_pipe : Z;
  f_ip : Z;
  f_off : Z;
  f_major : Z }.

Definition set_fref (r : Z) (f : file) : file :=
  File (f_type f) r (f_readable f) (f_writable f) (f_pipe f) (f_ip f) (f_off f) (f_major f).

Definition set_ftype (t : fdtype) (f : file) : file :=
  File t (f_ref f) (f_readable f) (f_writable f) (f_pipe f) (f_ip f) (f_off f) (f_major f).

Definition set_foff (o : Z) (f : file) : file :=
  File (f_type f) (f_ref f) (f_readable f) (f_writable f) (f_pipe f) (f_ip f) o (f_major f).

(** One end of a pipe. *)
Definition pipe_end (writable : bool) (pi : Z) (f : file) : file :=
  File FD_PIPE (f_ref f) (negb writable) writable pi (f_ip f) (f_off f) (f_major f).

(** A file after [memset(f, 0, sizeof( *f))]. *)
Definition zero_file : file := File FD_NONE 0 false false NULL NULL 0 0.

(** * State *)

(** [ft_lock] and [nfiles] are [ftable]; [files] and [pipes] are the objects
    of the two caches, by address. *)
Record filest := FileSt {
  fl_kst : kstate;
  fl_fs : fsst;
  ft_lock : bool;
  nfiles : Z;
  file_cache : Z;
  pipe_cache : Z;
  devsw : Z;
  files : gmap Z file;
  pipes : gmap Z pipe }.

Definition set_fl_kst (k : kstate) (s : filest) : filest :=
  FileSt k (fl_fs s) (ft_lock s) (nfiles s) (file_cache s) (pipe_cache s) (devsw s) (files s) (pipes s).

Definition set_fl_fs (x : fsst) (s : filest) : filest :=
  FileSt (fl_kst s) x (ft_lock s) (nfiles s) (file_cache s) (pipe_cache s) (devsw s) (files s) (pipes s).

Definition set_ft_lock (l : bool) (s : filest) : filest :=
  FileSt (fl_kst s) (fl_fs s) l (nfiles s) (file_cache s) (pipe_cache s) (devsw s) (files s) (pipes s).

Definition set_nfiles (n : Z) (s : filest) : filest :=
  FileSt (fl_kst s) (fl_fs s) (ft_lock s) n (file_cache s) (pipe_cache s) (devsw s) (files s) (pipes s).

Definition set_file_cache (c : Z) (s : filest) : filest :=
  FileSt (fl_kst s) (fl_fs s) (ft_lock s) (nfiles s) c (pipe_cache s) (devsw s) (files s) (pipes s).

Definition set_devsw (d : Z) (s : filest) : filest :=
  FileSt (fl_kst s) (fl_fs s) (ft_lock s) (nfiles s) (file_cache s) (pipe_cache s) d (files s) (pipes s).

Definition set_files (m : gmap Z file) (s : filest) : filest :=
  FileSt (fl_kst s) (fl_fs s) (ft_lock s) (nfiles s) (file_cache s) (pipe_cache s) (devsw s) m (pipes s).

Definition set_pipes (m : gmap Z pipe) (s : filest) : filest :=
  FileSt (fl_kst s) (fl_fs s) (ft_lock s) (nfiles s) (file_cache s) (pipe_cache s) (devsw s) (files s) m.

Definition on_slab {A} (m : prog kstate A) : prog filest A := zoom fl_kst set_fl_kst m.

Definition on_fsys {A} (m : prog fsst A) : prog filest A := zoom fl_fs set_fl_fs m.

Definition read_file (f : Z) : prog filest file := s ← get; of_option (files s !! f).

Definition update_file (f : Z) (g : file → file) : prog filest unit :=
  x ← read_file f; modify (λ s, set_files (<[f := g x]> (files s)) s).

(** Code that works on the pipe at [pi]. *)
Definition on_pipe {A} (pi : Z) (m : prog pipe A) : prog filest A := λ s,
  match pipes s !! pi with
  | None => UB
  | Some p =>
      match m p with
      | Ok (a, p') => Ok (a, set_pipes (<[pi := p']> (pipes s)) s)
      | Panic msg => Panic msg
      | UB => UB
      | NoFuel => NoFuel
      end
  end.

Definition acquire_ftable : prog filest unit :=
  s ← get; if ft_lock s then panic "acquire" else modify (set_ft_lock true).

Definition release_ftable : prog filest unit :=
  s ← get; if ft_lock s then modify (set_ft_lock false) else panic "release".

(** * The file table *)

Definition fileinit : prog filest unit :=
  _ ← modify (set_ft_lock false);
  c ← on_slab (kmem_cache_create (Some "file"%string) sizeof_file NULL NULL);
  _ ← modify (set_file_cache c);
  _ ← modify (set_nfiles 0);
  d ← on_slab (kmalloc (sizeof_devsw * NDEV));
  modify (set_devsw d).

Definition filealloc : prog filest Z :=
  _ ← acquire_ftable;
  s ← get;
  if NFILE <=? nfiles s then _ ← release_ftable; mret 0
  else
    _ ← modify (set_nfiles (nfiles s + 1));
    _ ← release_ftable;
    f ← on_slab (kmem_cache_alloc (file_cache s));
    if f =? 0 then
      _ ← acquire_ftable;
      _ ← modify (λ s, set_nfiles (nfiles s - 1) s);
      _ ← release_ftable;
      mret 0
    else
      _ ← modify (λ s, set_files (<[f := zero_file]> (files s)) s);
      _ ← update_file f (set_fref 1);
      mret f.

Definition filedup (f : Z) : prog filest Z :=
  _ ← acquire_ftable;
  x ← read_file f;
  if f_ref x <? 1 then panic "filedup"
  else if int_max <=? f_ref x then undefined
  else
    _ ← update_file f (set_fref (f_ref x + 1));
    _ ← release_ftable;
    mret f.

Definition filefree (f : Z) : prog filest unit :=
  s ← get;
  _ ← on_slab (kmem_cache_free (file_cache s) f);
  modify (λ s, set_nfiles (nfiles s - 1) s).

Definition pipeclose (pi : Z) (writable : bool) : prog filest unit :=
  last ← on_pipe pi (pipeclose_run writable);
  if (last : bool) then s ← get; on_slab (kmem_cache_free (pipe_cache s) pi) else mret tt.

(** [ff] is the address of the local variable [ff]. *)
Definition fileclose (ff f : Z) : prog filest unit :=
  _ ← acquire_ftable;
  x ← read_file f;
  if f_ref x <? 1 then panic "fileclose"
  else
    _ ← update_file f (set_fref (f_ref x - 1));
    if 0 <? f_ref x - 1 then release_ftable
    else
      _ ← update_file f (λ y, set_ftype FD_NONE (set_fref 0 y));
      _ ← filefree ff;
      _ ← release_ftable;
      match f_type x with
      | FD_PIPE => pipeclose (f_pipe x) (f_writable x)
      | FD_INODE | FD_DEVICE =>
          _ ← on_fsys begin_op_now;
          _ ← on_fsys (iput (f_ip x));
          _ ← on_fsys (on_log end_op);
          mret tt
      | FD_NONE => mret tt
      end.

(** * Pipes *)

(** The result is not kept. *)
Definition pipeinit : prog filest unit :=
  _ ← on_slab (kmem_cache_create (Some "pipe"%string) sizeof_pipe NULL NULL); mret tt.

(** The code at [bad], reached only before a pipe has been allocated. *)
Definition pipealloc_bad (ff f0 f1 : Z) : prog filest Z :=
  _ ← (if f0 =? 0 then mret tt else fileclose ff f0 : prog filest unit);
  _ ← (if f1 =? 0 then mret tt else fileclose ff f1 : prog filest unit);
  mret (-1).

(** The result is the value returned, [*f0] and [*f1]; [junk] is what the
    memory of the new pipe's array holds. *)
Definition pipealloc (ff : Z) (junk : list Z) : prog filest (Z * Z * Z) :=
  f0 ← filealloc;
  if f0 =? 0 then r ← pipealloc_bad ff 0 0; mret (r, 0, 0)
  else
    f1 ← filealloc;
    if f1 =? 0 then r ← pipealloc_bad ff f0 0; mret (r, f0, 0)
    else
      s ← get;
      pi ← on_slab (kmem_cache_alloc (pipe_cache s));
      if pi =? 0 then r ← pipealloc_bad ff f0 f1; mret (r, f0, f1)
      else
        _ ← modify (λ s, set_pipes (<[pi := Pipe junk 0 0 true true []]> (pipes s)) s);
        _ ← update_file f0 (pipe_end false pi);
        _ ← update_file f1 (pipe_end true pi);
        mret (0, f0, f1).

(** * Reading and writing *)

(** The bytes of a little-endian integer. *)
Definition le_bytes (n : nat) (x : Z) : list Z := (λ i, x / 2 ^ (8 * Z.of_nat i) mod 2 ^ 8) <$> seq 0 n.

(** A [struct stat] in memory; [pad] are the four bytes between [nlink] and
    [size]. *)
Definition stat_bytes (pad : list Z) (st : stat) : list Z :=
  le_bytes 4 (st_dev st) ++ le_bytes 4 (st_ino st) ++ le_bytes 2 (st_type st) ++ le_bytes 2 (st_nlink st) ++
  pad ++ le_bytes 8 (st_size st).

Section ReadWrite.

(** The copies of kernel/vm.c, the calls of the two ends of a pipe, which may
    sleep, and the table [devsw] of device drivers. *)
Variable copyout : Z → list Z → prog bmem bool.

Variable copyin : Z → Z → prog bmem (option (list Z)).

Variable piperead : Z → Z → Z → prog filest Z.

Variable pipewrite : Z → Z → Z → prog filest Z.

Variable dev_read : Z → option (Z → Z → prog filest Z).

Variable dev_write : Z → option (Z → Z → prog filest Z).

Definition filestat (pad : list Z) (f addr : Z) : prog filest Z :=
  x ← read_file f;
  match f_type x with
  | FD_INODE | FD_DEVICE =>
      _ ← on_fsys (ilock (f_ip x));
      st ← on_fsys (stati (f_ip x));
      _ ← on_fsys (iunlock (f_ip x));
      ok ← on_fsys (on_fmem (copyout addr (stat_bytes pad st)));
      if (ok : bool) then mret 0 else mret (-1)
  | _ => mret (-1)
  end.

(** [devsw[major]], if the number is in range and the function is there. *)
Definition device (fn : Z → option (Z → Z → prog filest Z)) (major : Z) : option (Z → Z → prog filest Z) :=
  if (major <? 0) || (NDEV <=? major) then None else fn major.

Definition fileread (f addr n : Z) : prog filest Z :=
  x ← read_file f;
  if negb (f_readable x) then mret (-1)
  else
    match f_type x with
    | FD_PIPE => piperead (f_pipe x) addr n
    | FD_DEVICE =>
        match device dev_read (f_major x) with
        | None => mret (-1)
        | Some fn => fn addr n
        end
    | FD_INODE =>
        _ ← on_fsys (ilock (f_ip x));
        r ← on_fsys (readi copyout (f_ip x) true addr (f_off x) (u32 n));
        _ ← (if 0 <? r then update_file f (λ x, set_foff (u32 (f_off x + r)) x) else mret tt : prog filest unit);
        _ ← on_fsys (iunlock (f_ip x));
        mret r
    | FD_NONE => panic "fileread"
    end.

(** What fits in one transaction beside the inode, the indirect block, the
    bitmap and the two ends of a non-aligned write. *)
Definition max_write : Z := (MAXOPBLOCKS - 1 - 1 - 2) / 2 * BSIZE.

(** One transaction of [filewrite]: [n1] bytes from [addr]. *)
Definition write_chunk (f addr n1 : Z) : prog filest Z :=
  x ← read_file f;
  _ ← on_fsys begin_op_now;
  _ ← on_fsys (ilock (f_ip x));
  r ← on_fsys (writei copyin (f_ip x) true addr (f_off x) (u32 n1));
  _ ← (if 0 <? r then update_file f (λ x, set_foff (u32 (f_off x + r)) x) else mret tt : prog filest unit);
  _ ← on_fsys (iunlock (f_ip x));
  _ ← on_fsys (on_log end_op);
  mret r.

Definition filewrite (f addr n : Z) : prog filest Z :=
  x ← read_file f;
  if negb (f_writable x) then mret (-1)
  else
    match f_type x with
    | FD_PIPE => pipewrite (f_pipe x) addr n
    | FD_DEVICE =>
        match device dev_write (f_major x) with
        | None => mret (-1)
        | Some fn => fn addr n
        end
    | FD_INODE =>
        i ← loop (S (Z.to_nat n))
              (λ i,
                 if i <? n then
                   let n1 := Z.min (n - i) max_write in
                   r ← write_chunk f (u64 (addr + i)) n1;
                   if negb (r =? n1) then mret (inr i) else mret (inl (i + r))
                 else mret (inr i))
              0;
        mret (if i =? n then n else -1)
    | FD_NONE => panic "filewrite"
    end.

End ReadWrite.
