(* ===== verification/FileProps.v ===== *)
(** Open files over the slab allocator: the table hands out fresh file
    structures; closing one never gives its memory back, and no pipe can ever
    be created. *)

From S2P Require Import Prelude.
From S2P Require Import Buddy.
From S2P Require Import Slab.
From S2P Require Import SlabInv.
From S2P Require Import SlabLists.
From S2P Require Import SlabSpec.
From S2P Require Import SlabAlloc.
From S2P Require Import SlabFree.
From S2P Require Import SlabProps.
From S2P Require Import Fs.
From S2P Require Import FsBlocks.
From S2P Require Import Pipe.
From S2P Require Import File.

(** * The invariant *)

(** The variable at [ff] is on a kernel stack, outside the memory the page
    allocator manages. *)
Definition off_heap (k : kstate) (ff : Z) : Prop := ff ≠ NULL ∧ addr_to_index (bud k) (page_align_down ff) = -1.

(** The allocator is well formed with slabs [G], and the cache of files, with
    objects of [osz] bytes, is in use. *)
Record files_ok (ff osz : Z) (s : filest) (G : gmap Z sinfo) (C : list Z) : Prop := {
  fo_rep : ∃ A, slab_rep (fl_kst s) A G C;
  fo_cache : ∃ c, caches (fl_kst s) !! file_cache s = Some c ∧ is_used c = true ∧ object_size c = osz;
  fo_null : file_cache s ≠ NULL;
  fo_stack : off_heap (fl_kst s) ff;
  fo_lock : ft_lock s = false }.

(** The objects in use. *)
Definition same_live (s : filest) (G : gmap Z sinfo) (s' : filest) (G' : gmap Z sinfo) (new : Z → Prop) (osz : Z) : Prop :=
  ∀ a p sz, live (fl_kst s') G' a p sz ↔
    live (fl_kst s) G a p sz ∨ (a = file_cache s ∧ new p ∧ sz = osz).

(** The parts of the state no operation on files changes. *)
Definition same_rest (s s' : filest) : Prop :=
  file_cache s' = file_cache s ∧ pipe_cache s' = pipe_cache s ∧ pipes s' = pipes s ∧ fl_fs s' = fl_fs s.

#[export] Instance same_rest_preorder : PreOrder same_rest.
Proof. split; [done|]. intros s1 s2 s3 (?&?&?&?) (?&?&?&?). split_and!; congruence. Qed.

Lemma same_live_none s G s' G' new osz : (∀ p, ¬ new p) →
  (∀ a p sz, live (fl_kst s') G' a p sz ↔ live (fl_kst s) G a p sz) → same_live s G s' G' new osz.
Proof. intros Hn H a p sz. rewrite H. split; [by left|]. intros [?|(_ & ? & _)]; [done|]. by destruct (Hn p). Qed.

Lemma same_live_trans s1 G1 s2 G2 s3 G3 n1 n2 osz : file_cache s2 = file_cache s1 →
  same_live s1 G1 s2 G2 n1 osz → same_live s2 G2 s3 G3 n2 osz → same_live s1 G1 s3 G3 (λ p, n1 p ∨ n2 p) osz.
Proof. intros E H1 H2 a p sz. rewrite (H2 a p sz), (H1 a p sz), E. tauto. Qed.

Lemma off_heap_frame A G a k k' ff : kframe A G a k k' → off_heap k ff → off_heap k' ff.
Proof.
  intros F [H1 H2]. split; [done|]. unfold addr_to_index in *. by rewrite (kf_start _ _ _ _ _ F), (kf_num _ _ _ _ _ F).
Qed.

Lemma wp_acquire_ftable s (Q : unit → filest → Prop) :
  ft_lock s = false → Q tt (set_ft_lock true s) → wp acquire_ftable Q s.
Proof. intros E HQ. unfold acquire_ftable. wp_auto. rewrite E. by wp_auto. Qed.

Lemma wp_release_ftable s (Q : unit → filest → Prop) :
  ft_lock s = true → Q tt (set_ft_lock false s) → wp release_ftable Q s.
Proof. intros E HQ. unfold release_ftable. wp_auto. rewrite E. by wp_auto. Qed.

Lemma wp_read_file f x s (Q : file → filest → Prop) : files s !! f = Some x → Q x s → wp (read_file f) Q s.
Proof. intros E HQ. unfold read_file. wp_auto. by apply (wp_of_option _ x). Qed.

Lemma wp_update_file f g x s (Q : unit → filest → Prop) :
  files s !! f = Some x → Q tt (set_files (<[f := g x]> (files s)) s) → wp (update_file f g) Q s.
Proof. intros E HQ. unfold update_file. wp_auto. apply (wp_read_file _ x); [done|]. by wp_auto. Qed.

Section Steps.

Context (ff osz : Z) (C : list Z).

Lemma files_ok_frame s s' A G G' A' a :
  files_ok ff osz s G C → slab_rep (fl_kst s') A' G' C → kframe A G a (fl_kst s) (fl_kst s') →
  file_cache s' = file_cache s → ft_lock s' = false → files_ok ff osz s' G' C.
Proof.
  intros [_ (c & Hc & Hu & Ho) Hn Hs _] Hr F E1 E2. split; [eauto| |congruence| |done].
  - destruct (kframe_cache_fwd _ _ _ _ _ _ _ F Hc) as (c' & Hc' & Hb). rewrite E1. exists c'.
    injection Hb as ??????????. split_and!; congruence.
  - by eapply off_heap_frame.
Qed.

(** A call of the allocator that fails. *)
Lemma files_ok_error s s' G e c :
  files_ok ff osz s G C → caches (fl_kst s) !! file_cache s = Some c →
  fl_kst s' = upd_cache (file_cache s) (with_error e c) (fl_kst s) →
  file_cache s' = file_cache s → ft_lock s' = false →
  files_ok ff osz s' G C ∧ ∀ a p sz, live (fl_kst s') G a p sz ↔ live (fl_kst s) G a p sz.
Proof.
  intros H Hc Ek E1 E2. destruct (fo_rep _ _ _ _ _ H) as [A Hr].
  destruct (slab_rep_error _ _ _ _ _ _ e Hr Hc) as [Hr' F]. rewrite <- Ek in Hr', F.
  split; [by eapply files_ok_frame|]. intros a p sz.
  split; apply live_bodies; intros x; [symmetry|]; apply (kf_body _ _ _ _ _ F).
Qed.

Lemma wp_filealloc s G :
  files_ok ff osz s G C →
  wp filealloc (λ r s', ∃ G', files_ok ff osz s' G' C ∧ same_rest s s' ∧
    same_live s G s' G' (λ p, p = r ∧ r ≠ 0) osz ∧
    ((r = 0 ∧ nfiles s' = nfiles s ∧ files s' = files s) ∨
     (r ≠ 0 ∧ nfiles s < NFILE ∧ nfiles s' = nfiles s + 1 ∧ files s' = <[r := set_fref 1 zero_file]> (files s) ∧
      ∀ a p sz, live (fl_kst s) G a p sz → ranges_apart r osz p sz))) s.
Proof.
  intros H. pose proof (fo_lock _ _ _ _ _ H) as Hl. destruct (fo_cache _ _ _ _ _ H) as (c & Hc & Hu & Ho).
  destruct (fo_rep _ _ _ _ _ H) as [A Hr].
  unfold filealloc. wp_auto. apply wp_acquire_ftable; [done|]. wp_auto. change (nfiles (set_ft_lock true s)) with (nfiles s).
  assert (set_ft_lock false (set_ft_lock true s) = s) as Es by (destruct s; cbn in *; by subst).
  destruct (Z.leb_spec NFILE (nfiles s)) as [Hf|Hf]; wp_auto.
  { apply wp_release_ftable; [done|]. wp_auto. rewrite Es. exists G. split_and!; try done; [|by left].
    apply same_live_none; [|done]. by intros p [_ ?]. }
  apply wp_release_ftable; [done|]. unfold on_slab. wp_auto. cbn [fl_kst set_ft_lock set_nfiles file_cache].
  eapply wp_mono; [by apply (wp_kmem_cache_alloc (fl_kst s) A G C _ c Hr Hc Hu), (fo_null _ _ _ _ _ H)|].
  intros r k' [(-> & _ & _ & Ek)|Hok].
  - change (NULL =? 0) with true. cbv iota. wp_auto. apply wp_acquire_ftable; [done|]. wp_auto. apply wp_release_ftable; [done|]. wp_auto.
    match goal with |- context [same_rest s ?x] => set (s' := x) end.
    destruct (files_ok_error s s' G _ c H Hc Ek) as [H' Hlv]; [done..|].
    exists G. split_and!; try done; [|left; split_and!; [done|unfold s'; cbn; lia|done]].
    apply same_live_none; [|done]. by intros p [_ ?].
  - pose proof Hok as (_ & _ & _ & _ & _ & _ & Hr0 & _).
    destruct (alloc_ok_live _ _ _ _ _ _ _ _ Hr Hc Hu Hok) as (A' & G' & Hr' & F & _ & Hap & Hlv).
    rewrite (proj2 (Z.eqb_neq _ _)) by done. wp_auto. eapply wp_update_file; [apply lookup_insert_eq|]. wp_auto.
    match goal with |- context [same_rest s ?x] => set (s' := x) end.
    exists G'. split_and!; [|done| |].
    + by eapply (files_ok_frame s s').
    + intros a p sz. change (fl_kst s') with k'. rewrite (Hlv a p sz), Ho. tauto.
    + right. split_and!; try done. * unfold s'. cbn. by rewrite insert_insert_eq. * by rewrite <- Ho.
Qed.

(** The last close of a file that is not connected to anything: the free of
    the local copy is refused. *)
Lemma wp_fileclose_none s G f x :
  files_ok ff osz s G C → files s !! f = Some x → f_type x = FD_NONE → f_ref x = 1 →
  wp (fileclose ff f) (λ _ s', files_ok ff osz s' G C ∧ same_rest s s' ∧ same_live s G s' G (λ _, False) osz ∧
    nfiles s' = nfiles s - 1 ∧ files s' = <[f := set_ftype FD_NONE (set_fref 0 x)]> (files s)) s.
Proof.
  intros H Hx Ht Hr. pose proof (fo_lock _ _ _ _ _ H) as Hl. destruct (fo_cache _ _ _ _ _ H) as (c & Hc & Hu & Ho).
  destruct (fo_rep _ _ _ _ _ H) as [A Hrep]. destruct (fo_stack _ _ _ _ _ H) as [Hff Hidx].
  unfold fileclose. wp_auto. apply wp_acquire_ftable; [done|]. wp_auto. apply (wp_read_file _ x); [done|].
  rewrite Hr, Ht. change (1 <? 1) with false. change (0 <? 1 - 1) with false. cbv iota. wp_auto. apply (wp_update_file _ _ x); [done|]. wp_auto.
  eapply wp_update_file; [apply lookup_insert_eq|]. unfold filefree, on_slab. wp_auto.
  eapply wp_mono.
  { apply (wp_kmem_cache_free_error (fl_kst s) A G C _ c ff KMEM_ERR_CACHE_MISMATCH Hrep (fo_null _ _ _ _ _ H) Hff Hc Hu).
    unfold free_error, owner_at. by rewrite Hidx. }
  intros [] k' Ek. wp_auto. apply wp_release_ftable; [done|]. wp_auto.
  match goal with |- context [same_rest s ?x] => set (s' := x) end.
  destruct (files_ok_error s s' G _ c H Hc Ek) as [H' Hlv]; [done..|].
  split_and!; try done.
  - apply same_live_none; [|done]. by intros p ?.
  - unfold s'. cbn. by rewrite insert_insert_eq.
Qed.

Lemma files_apart s G f0 f1 :
  files_ok ff osz s G C → live (fl_kst s) G (file_cache s) f0 osz →
  (∀ a p sz, live (fl_kst s) G a p sz → ranges_apart f1 osz p sz) → f1 ≠ f0.
Proof.
  intros H Hlv Hap ->. destruct (fo_rep _ _ _ _ _ H) as [A Hr]. pose proof (Hap _ _ _ Hlv) as Ha.
  destruct Hlv as (sl & i & c & j & (Hs & Hi & Hc & _) & _ & ->). rewrite <- Hi in Hc.
  pose proof (object_size_pos _ _ _ (sr_core _ _ _ _ Hr) _ _ _ Hs Hc). unfold ranges_apart in Ha. lia.
Qed.

End Steps.

(** * The properties *)

(** [pipeinit] does not store the cache it creates, so [pipe_cache] is
    NULL: [pipealloc] then returns -1 in every state, creates no pipe and
    leaves the count of open files as it was.  The file structures it allocated
    on the way stay allocated for good, because [fileclose] passes the address
    of its local copy to the allocator. *)
Theorem pipealloc_always_fails ff osz s G C junk :
  files_ok ff osz s G C → pipe_cache s = NULL →
  wp (pipealloc ff junk) (λ '(r, f0, f1) s', r = -1 ∧ pipes s' = pipes s ∧ nfiles s' = nfiles s ∧
    ∃ G', files_ok ff osz s' G' C ∧ pipe_cache s' = NULL ∧
      same_live s G s' G' (λ p, p ≠ 0 ∧ (p = f0 ∨ p = f1)) osz) s.
Proof.
  intros H Hp. unfold pipealloc, pipealloc_bad. wp_auto. eapply wp_mono; [by apply wp_filealloc|].
  intros f0 s1 (G1 & H1 & R1 & L1 & [(-> & N1 & F1)|(E1 & _ & N1 & F1 & _)]).
  { cbn [Z.eqb]. wp_auto. destruct R1 as (_ & E2 & E3 & _). split_and!; try done. exists G1.
    split_and!; [done|congruence|]. intros a p sz. rewrite (L1 a p sz). naive_solver. }
  rewrite (proj2 (Z.eqb_neq _ _)) by done. wp_auto. eapply wp_mono; [by apply wp_filealloc|].
  intros f1 s2 (G2 & H2 & R2 & L2 & [(-> & N2 & F2)|(E2 & _ & N2 & F2 & P2)]).
  - change (0 =? 0) with true. cbv iota. wp_auto.
    eapply wp_mono; [eapply (wp_fileclose_none ff osz C s2 G2 f0); [done|by rewrite F2, F1, lookup_insert_eq|done..]|].
    intros [] s3 (H3 & R3 & L3 & N3 & _). wp_auto. destruct (transitivity R1 (transitivity R2 R3)) as (E4 & E5 & E6 & _).
    split_and!; [done|done|lia|]. exists G2. split_and!; [done|congruence|].
    pose proof (same_live_trans _ _ _ _ _ _ _ _ _ (proj1 R1) L1 (same_live_trans _ _ _ _ _ _ _ _ _ (proj1 R2) L2 L3)) as L.
    intros a p sz. rewrite (L a p sz). naive_solver.
  - assert (f1 ≠ f0) as Hne.
    { eapply files_apart; [exact H1| |exact P2]. apply (L1 _ f0 osz). destruct R1 as (-> & _). by right. }
    rewrite (proj2 (Z.eqb_neq f1 0)) by done. unfold on_slab. wp_auto.
    assert (pipe_cache s2 = NULL) as -> by (destruct R1 as (_ & ? & _), R2 as (_ & ? & _); congruence).
    unfold kmem_cache_alloc. change (NULL =? NULL) with true. cbv iota. wp_auto. change (NULL =? 0) with true. cbv iota.
    replace (set_fl_kst (fl_kst s2) s2) with s2 by (by destruct s2).
    wp_auto.
    eapply wp_mono; [eapply (wp_fileclose_none ff osz C s2 G2 f0); [done|rewrite F2, lookup_insert_ne, F1 by done; apply lookup_insert_eq|done..]|].
    intros [] s3 (H3 & R3 & L3 & N3 & F3). wp_auto.
    eapply wp_mono; [eapply (wp_fileclose_none ff osz C s3 G2 f1); [done|rewrite F3, lookup_insert_ne, F2 by done; apply lookup_insert_eq|done..]|].
    intros [] s4 (H4 & R4 & L4 & N4 & _). wp_auto. destruct (transitivity (transitivity R1 R2) (transitivity R3 R4)) as (E4 & E5 & E6 & _).
    split_and!; [done|done|lia|]. exists G2. split_and!; [done|congruence|].
    pose proof (same_live_trans _ _ _ _ _ _ _ _ _ (proj1 R1) L1 (same_live_trans _ _ _ _ _ _ _ _ _ (proj1 R2) L2
      (same_live_trans _ _ _ _ _ _ _ _ _ (proj1 R3) L3 L4))) as L.
    intros a p sz. rewrite (L a p sz). naive_solver.
Qed.
