(* ===== verification/Sched.v ===== *)
(** Sleeping and waking: [sleep], [wakeup], [yield], [kkill] and the scheduler
    of kernel/proc.c, with the sleep locks of kernel/sleeplock.c as their
    client.  Several CPUs run processes; every statement that touches a lock
    or a field protected by one is a step of its CPU. *)

From S2P Require Import Prelude.

(** * Data *)

Definition NPROC : nat := 64.

Inductive procstate : Set :=
  | UNUSED
  | USED
  | SLEEPING
  | RUNNABLE
  | RUNNING
  | ZOMBIE.

#[export] Instance procstate_eq_dec : EqDecision procstate.
Proof. solve_decision. Defined.

(** Where the kernel thread of a process is: the statement it executes next.
    [l] is a sleep lock, [j] a position in the process table. *)
Inductive pcount : Set :=
  | Outside                      (* between calls *)
  | AcqStart (l : nat)           (* acquiresleep: acquire(&lk->lk) *)
  | AcqLoop (l : nat)            (* while (lk->locked) *)
  | AcqDone (l : nat)            (* release(&lk->lk) *)
  | SlpLock (l : nat)            (* sleep: acquire(&p->lock) *)
  | SlpRelease (l : nat)         (* release(lk) *)
  | SlpMark (l : nat)            (* p->chan = chan; p->state = SLEEPING *)
  | SlpSched (l : nat)           (* sched() *)
  | SlpWake (l : nat)            (* p->chan = 0 *)
  | SlpUnlock (l : nat)          (* release(&p->lock) *)
  | SlpRelock (l : nat)          (* acquire(lk) *)
  | RelStart (l : nat)           (* releasesleep: acquire(&lk->lk) *)
  | RelClear (l : nat)           (* lk->locked = 0; lk->pid = 0 *)
  | RelWake (l j : nat)          (* wakeup(lk), at process j *)
  | RelDone (l : nat)            (* release(&lk->lk) *)
  | KillScan (pid j : nat)       (* kkill(pid), at process j *)
  | YldLock (k : pcount)         (* yield: acquire(&p->lock); p->state = RUNNABLE *)
  | YldSched (k : pcount)        (* sched() *)
  | YldUnlock (k : pcount).      (* release(&p->lock) *)

(** What a CPU does: it looks at process [i] in [scheduler], runs it, or has
    come back from [swtch] and will release its lock. *)
Inductive cpustate : Set :=
  | Scan (i : nat)
  | Runs (i : nat)
  | Back (i : nat).

(** [sl_lk] is the CPU that holds the spin lock of the sleep lock. *)
Record sleeplock := SleepLock {
  sl_locked : bool;
  sl_pid : nat;
  sl_lk : option nat }.

Definition initsleeplock : sleeplock := SleepLock false 0 None.

(** Processes are numbered by their place in the table, which is also their
    pid.  [plock] is the CPU that holds [p->lock]; [noff] counts the spin locks
    of a CPU; [held] are the sleep locks a process has acquired and not
    released. *)
Record sst := SSt {
  plock : nat → option nat;
  pstate : nat → procstate;
  pchan : nat → option nat;
  pkilled : nat → bool;
  pcs : nat → pcount;
  cpu : nat → cpustate;
  noff : nat → nat;
  slock : nat → sleeplock;
  held : nat → gset nat }.

Definition set_plock f s := SSt f (pstate s) (pchan s) (pkilled s) (pcs s) (cpu s) (noff s) (slock s) (held s).

Definition set_pstate f s := SSt (plock s) f (pchan s) (pkilled s) (pcs s) (cpu s) (noff s) (slock s) (held s).

Definition set_pchan f s := SSt (plock s) (pstate s) f (pkilled s) (pcs s) (cpu s) (noff s) (slock s) (held s).

Definition set_pkilled f s := SSt (plock s) (pstate s) (pchan s) f (pcs s) (cpu s) (noff s) (slock s) (held s).

Definition set_pcs f s := SSt (plock s) (pstate s) (pchan s) (pkilled s) f (cpu s) (noff s) (slock s) (held s).

Definition set_cpu f s := SSt (plock s) (pstate s) (pchan s) (pkilled s) (pcs s) f (noff s) (slock s) (held s).

Definition set_noff f s := SSt (plock s) (pstate s) (pchan s) (pkilled s) (pcs s) (cpu s) f (slock s) (held s).

Definition set_slock f s := SSt (plock s) (pstate s) (pchan s) (pkilled s) (pcs s) (cpu s) (noff s) f (held s).

Definition set_held f s := SSt (plock s) (pstate s) (pchan s) (pkilled s) (pcs s) (cpu s) (noff s) (slock s) f.

(** * Steps *)

(** What the next step of a CPU does: it is taken, it has to wait for a spin
    lock, or it panics. *)
Inductive stepres : Type :=
  | Next (s : sst)
  | Spin
  | Panics (msg : string).

Definition then_ (r : stepres) (f : sst → stepres) : stepres :=
  match r with
  | Next s => f s
  | Spin => Spin
  | Panics msg => Panics msg
  end.

Definition goto (i : nat) (p : pcount) (s : sst) : sst := set_pcs (upd (pcs s) i p) s.

(** [acquire] and [release] of kernel/spinlock.c by CPU [c], on the lock of a
    process and on the spin lock of a sleep lock. *)
Definition acquire_p (c i : nat) (s : sst) : stepres :=
  match plock s i with
  | None => Next (set_plock (upd (plock s) i (Some c)) (set_noff (upd (noff s) c (S (noff s c))) s))
  | Some c' => if decide (c' = c) then Panics "acquire" else Spin
  end.

Definition release_p (c i : nat) (s : sst) : stepres :=
  if decide (plock s i = Some c)
  then Next (set_plock (upd (plock s) i None) (set_noff (upd (noff s) c (pred (noff s c))) s))
  else Panics "release".

Definition set_lk (o : option nat) (x : sleeplock) : sleeplock := SleepLock (sl_locked x) (sl_pid x) o.

Definition acquire_l (c l : nat) (s : sst) : stepres :=
  match sl_lk (slock s l) with
  | None =>
      Next (set_slock (upd (slock s) l (set_lk (Some c) (slock s l))) (set_noff (upd (noff s) c (S (noff s c))) s))
  | Some c' => if decide (c' = c) then Panics "acquire" else Spin
  end.

Definition release_l (c l : nat) (s : sst) : stepres :=
  if decide (sl_lk (slock s l) = Some c)
  then Next (set_slock (upd (slock s) l (set_lk None (slock s l))) (set_noff (upd (noff s) c (pred (noff s c))) s))
  else Panics "release".

(** The section [acquire(&p->lock); ...; release(&p->lock)] of a CPU that
    stays inside it for no other lock. *)
Definition with_plock (c i : nat) (f : sst → sst) (s : sst) : stepres :=
  then_ (acquire_p c i s) (λ s, release_p c i (f s)).

(** [sched]: back to the scheduler of this CPU. *)
Definition sched (c i : nat) (s : sst) : stepres :=
  if decide (plock s i ≠ Some c) then Panics "sched p->lock"
  else if decide (noff s c ≠ 1%nat) then Panics "sched locks"
  else if decide (pstate s i = RUNNING) then Panics "sched RUNNING"
  else Next (set_cpu (upd (cpu s) c (Back i)) s).

(** One round of the loop of [scheduler], up to [swtch]. *)
Definition scheduler_scan (c i : nat) (s : sst) : stepres :=
  let next := if decide (S i < NPROC)%nat then S i else 0%nat in
  then_ (acquire_p c i s) (λ s,
    if decide (pstate s i = RUNNABLE)
    then Next (set_cpu (upd (cpu s) c (Runs i)) (set_pstate (upd (pstate s) i RUNNING) s))
    else then_ (release_p c i s) (λ s, Next (set_cpu (upd (cpu s) c (Scan next)) s))).

(** The rest of the round, after [swtch] has come back. *)
Definition scheduler_back (c i : nat) (s : sst) : stepres :=
  let next := if decide (S i < NPROC)%nat then S i else 0%nat in
  then_ (release_p c i s) (λ s, Next (set_cpu (upd (cpu s) c (Scan next)) s)).

(** [if(p->state == SLEEPING && p->chan == chan) p->state = RUNNABLE] *)
Definition wake_one (l j : nat) (s : sst) : sst :=
  if decide (pstate s j = SLEEPING ∧ pchan s j = Some l) then set_pstate (upd (pstate s) j RUNNABLE) s else s.

(** One round of the loop of [wakeup]. *)
Definition wakeup_step (c i l j : nat) (s : sst) : stepres :=
  if decide (j = i) then Next s else with_plock c j (wake_one l j) s.

(** [p->killed = 1; if(p->state == SLEEPING) p->state = RUNNABLE] *)
Definition kill_one (j : nat) (s : sst) : sst :=
  let s := set_pkilled (upd (pkilled s) j true) s in
  if decide (pstate s j = SLEEPING) then set_pstate (upd (pstate s) j RUNNABLE) s else s.

Definition kkill_step (c pid j : nat) (s : sst) : stepres :=
  if decide (j = pid) then with_plock c j (kill_one j) s else with_plock c j id s.

(** [lk->locked = 1; lk->pid = myproc()->pid] *)
Definition lock_sleep (l i : nat) (s : sst) : sst :=
  set_held (upd (held s) i ({[l]} ∪ held s i))
    (set_slock (upd (slock s) l (SleepLock true i (sl_lk (slock s l)))) s).

(** [lk->locked = 0; lk->pid = 0] *)
Definition unlock_sleep (l i : nat) (s : sst) : sst :=
  set_held (upd (held s) i (held s i ∖ {[l]}))
    (set_slock (upd (slock s) l (SleepLock false 0 (sl_lk (slock s l)))) s).

(** [sleep(lk, &lk->lk)] by process [i] on CPU [c]. *)
Definition sleep_step (c i : nat) (p : pcount) (s : sst) : stepres :=
  match p with
  | SlpLock l => then_ (acquire_p c i s) (λ s, Next (goto i (SlpRelease l) s))
  | SlpRelease l => then_ (release_l c l s) (λ s, Next (goto i (SlpMark l) s))
  | SlpMark l =>
      Next (goto i (SlpSched l) (set_pstate (upd (pstate s) i SLEEPING) (set_pchan (upd (pchan s) i (Some l)) s)))
  | SlpSched l => then_ (sched c i s) (λ s, Next (goto i (SlpWake l) s))
  | SlpWake l => Next (goto i (SlpUnlock l) (set_pchan (upd (pchan s) i None) s))
  | SlpUnlock l => then_ (release_p c i s) (λ s, Next (goto i (SlpRelock l) s))
  | SlpRelock l => then_ (acquire_l c l s) (λ s, Next (goto i (AcqLoop l) s))
  | _ => Spin
  end.

Definition acquiresleep_step (c i : nat) (p : pcount) (s : sst) : stepres :=
  match p with
  | AcqStart l => then_ (acquire_l c l s) (λ s, Next (goto i (AcqLoop l) s))
  | AcqLoop l =>
      if sl_locked (slock s l) then Next (goto i (SlpLock l) s)
      else Next (goto i (AcqDone l) (lock_sleep l i s))
  | AcqDone l => then_ (release_l c l s) (λ s, Next (goto i Outside s))
  | _ => Spin
  end.

Definition releasesleep_step (c i : nat) (p : pcount) (s : sst) : stepres :=
  match p with
  | RelStart l => then_ (acquire_l c l s) (λ s, Next (goto i (RelClear l) s))
  | RelClear l => Next (goto i (RelWake l 0) (unlock_sleep l i s))
  | RelWake l j =>
      if decide (j < NPROC)%nat then then_ (wakeup_step c i l j s) (λ s, Next (goto i (RelWake l (S j)) s))
      else Next (goto i (RelDone l) s)
  | RelDone l => then_ (release_l c l s) (λ s, Next (goto i Outside s))
  | _ => Spin
  end.

Definition yield_step (c i : nat) (p : pcount) (s : sst) : stepres :=
  match p with
  | YldLock k =>
      then_ (acquire_p c i s) (λ s, Next (goto i (YldSched k) (set_pstate (upd (pstate s) i RUNNABLE) s)))
  | YldSched k => then_ (sched c i s) (λ s, Next (goto i (YldUnlock k) s))
  | YldUnlock k => then_ (release_p c i s) (λ s, Next (goto i k s))
  | _ => Spin
  end.

(** The step of the process that runs on CPU [c], inside a call. *)
Definition thread_step (c i : nat) (s : sst) : stepres :=
  match pcs s i with
  | AcqStart _ | AcqLoop _ | AcqDone _ => acquiresleep_step c i (pcs s i) s
  | SlpLock _ | SlpRelease _ | SlpMark _ | SlpSched _ | SlpWake _ | SlpUnlock _ | SlpRelock _ => sleep_step c i (pcs s i) s
  | RelStart _ | RelClear _ | RelWake _ _ | RelDone _ => releasesleep_step c i (pcs s i) s
  | KillScan pid j =>
      if decide (j < NPROC)%nat then
        then_ (kkill_step c pid j s) (λ s, Next (goto i (if decide (j = pid) then Outside else KillScan pid (S j)) s))
      else Next (goto i Outside s)
  | YldLock _ | YldSched _ | YldUnlock _ => yield_step c i (pcs s i) s
  | Outside => Next s
  end.

(** The next step of CPU [c]. *)
Definition cpu_step (c : nat) (s : sst) : stepres :=
  match cpu s c with
  | Scan i => scheduler_scan c i s
  | Runs i => thread_step c i s
  | Back i => scheduler_back c i s
  end.

(** The calls a process can start; it releases only sleep locks it holds and
    does not acquire one twice. *)
Inductive call_of (s : sst) (i : nat) : pcount → Prop :=
  | call_acquire l : l ∉ held s i → call_of s i (AcqStart l)
  | call_release l : l ∈ held s i → call_of s i (RelStart l)
  | call_kill pid : call_of s i (KillScan pid 0).

Definition yielding (p : pcount) : bool :=
  match p with
  | YldLock _ | YldSched _ | YldUnlock _ => true
  | _ => false
  end.

(** The system: a CPU takes its next step, a process starts a call, or a timer
    interrupt makes the process yield, which it can whenever its CPU holds no
    spin lock. *)
Inductive sstep : sst → sst → Prop :=
  | ss_cpu c s s' : cpu_step c s = Next s' → sstep s s'
  | ss_call c i p s : cpu s c = Runs i → pcs s i = Outside → call_of s i p → sstep s (goto i p s)
  | ss_timer c i s : cpu s c = Runs i → noff s c = 0%nat → yielding (pcs s i) = false → sstep s (goto i (YldLock (pcs s i)) s).

(** Every CPU is in the scheduler, every process waits for its first turn with
    its lock free. *)
Definition sinit : sst :=
  SSt (λ _, None) (λ i, if decide (i < NPROC)%nat then RUNNABLE else UNUSED) (λ _, None) (λ _, false)
    (λ _, YldUnlock Outside) (λ _, Scan 0) (λ _, 0%nat) (λ _, initsleeplock) (λ _, ∅).
