(* ===== verification/SchedInv.v ===== *)
(** The invariant of the scheduler: which CPU holds which spin lock, and what
    the state of a process says about where it is. *)

From S2P Require Import Prelude.
From S2P Require Import Sched.

(** * What the position of a process says *)

(** It holds its own lock. *)
Definition own_p (p : pcount) : bool :=
  match p with
  | SlpRelease _ | SlpMark _ | SlpSched _ | SlpWake _ | SlpUnlock _ | YldSched _ | YldUnlock _ => true
  | _ => false
  end.

(** It holds the spin lock of this sleep lock. *)
Definition own_l (p : pcount) : option nat :=
  match p with
  | AcqLoop l | AcqDone l | SlpLock l | SlpRelease l | RelClear l | RelWake l _ | RelDone l => Some l
  | _ => None
  end.

(** The spin locks its CPU holds. *)
Definition count (p : pcount) : nat :=
  ((if own_p p then 1 else 0) + match own_l p with Some _ => 1 | None => 0 end)%nat.

Definition run_state (p : pcount) : procstate :=
  match p with
  | SlpSched _ => SLEEPING
  | YldSched _ => RUNNABLE
  | _ => RUNNING
  end.

(** Where [swtch] comes back. *)
Definition resumable (p : pcount) : bool :=
  match p with
  | SlpWake _ | YldUnlock _ => true
  | _ => false
  end.

(** Where a timer interrupt found the process. *)
Definition below (p : pcount) : pcount :=
  match p with
  | YldLock k | YldSched k | YldUnlock k => k
  | _ => p
  end.

Definition lock_free (p : pcount) : Prop := own_p p = false ∧ own_l p = None.

Definition cpu_count (s : sst) (x : cpustate) : nat :=
  match x with
  | Scan _ => 0
  | Back _ => 1
  | Runs i => count (pcs s i)
  end.

Definition place (x : cpustate) : nat :=
  match x with
  | Scan i | Runs i | Back i => i
  end.

Definition busy_with (x : cpustate) (i : nat) : Prop := x = Runs i ∨ x = Back i.

Record places (s : sst) : Prop := {
  pl_back : ∀ c i, cpu s c = Back i → plock s i = Some c;
  pl_runs : ∀ c i, cpu s c = Runs i → own_p (pcs s i) = true → plock s i = Some c;
  pl_held : ∀ c i, plock s i = Some c → cpu s c = Back i ∨ (cpu s c = Runs i ∧ own_p (pcs s i) = true);
  pl_lk : ∀ c i l, cpu s c = Runs i → own_l (pcs s i) = Some l → sl_lk (slock s l) = Some c;
  pl_lkheld : ∀ c l, sl_lk (slock s l) = Some c → ∃ i, cpu s c = Runs i ∧ own_l (pcs s i) = Some l;
  pl_noff : ∀ c, noff s c = cpu_count s (cpu s c);
  pl_state : ∀ c i, cpu s c = Runs i → pstate s i = run_state (pcs s i);
  pl_one : ∀ c d i, busy_with (cpu s c) i → busy_with (cpu s d) i → c = d;
  pl_off : ∀ i, (∃ c, cpu s c = Runs i) ∨ (resumable (pcs s i) = true ∧ pstate s i ≠ RUNNING);
  pl_below : ∀ i, yielding (pcs s i) = true → lock_free (below (pcs s i)) ∧ yielding (below (pcs s i)) = false;
  pl_range : ∀ c, (place (cpu s c) < NPROC)%nat;
  pl_unused : ∀ i, (NPROC ≤ i)%nat → pstate s i = UNUSED;
  pl_chan : ∀ i, pstate s i = SLEEPING → ∃ l, pchan s i = Some l ∧ (pcs s i = SlpSched l ∨ pcs s i = SlpWake l) }.

Lemma places_init : places sinit.
Proof.
  split; cbn; try done.
  - by intros c d i [?|?].
  - intros i. right. by split; [|case_decide].
  - intros c. unfold NPROC. lia.
  - intros i Hi. by rewrite decide_False by lia.
  - intros i. by case_decide.
Qed.

(** * Consequences *)

Section Places.

Context (s : sst).

Hypothesis H : places s.

Lemma runs_one c d i : cpu s c = Runs i → cpu s d = Runs i → c = d.
Proof. intros E1 E2. apply (pl_one _ H c d i); by left. Qed.

(** The lock of a running process is its own or free. *)
Lemma runs_plock c i : cpu s c = Runs i → plock s i = if own_p (pcs s i) then Some c else None.
Proof.
  intros E. destruct (own_p (pcs s i)) eqn:Eo; [by eapply pl_runs|].
  destruct (plock s i) as [d|] eqn:Ep; [|done]. destruct (pl_held _ H d i Ep) as [E'|[E' ?]].
  - assert (c = d) as -> by (apply (pl_one _ H c d i); [by left|by right]). congruence.
  - congruence.
Qed.

(** No lock is free that a process is about to release. *)
Lemma runs_noff c i : cpu s c = Runs i → noff s c = count (pcs s i).
Proof. intros E. by rewrite (pl_noff _ H), E. Qed.

Lemma runs_range c i : cpu s c = Runs i → (i < NPROC)%nat.
Proof. intros E. pose proof (pl_range _ H c) as Hr. by rewrite E in Hr. Qed.

Lemma sleeping_range i : pstate s i = SLEEPING → (i < NPROC)%nat.
Proof.
  intros E. destruct (decide (i < NPROC)%nat) as [?|Hn]; [done|]. rewrite (pl_unused _ H) in E by lia. done.
Qed.

(** A process whose lock is free is not about to be switched out. *)
Lemma free_runs c i : cpu s c = Runs i → plock s i = None → own_p (pcs s i) = false ∧ pstate s i = RUNNING.
Proof.
  intros E Ep. rewrite (runs_plock c i E) in Ep. destruct (own_p (pcs s i)) eqn:Eo; [done|]. split; [done|].
  rewrite (pl_state _ H c i E). by destruct (pcs s i).
Qed.

End Places.

(** * Steps of one process *)

(** Process [i] on CPU [c] goes on to [p], and its locks and state are those
    of its new position. *)
Record moved (s s' : sst) (c i : nat) (p : pcount) : Prop := {
  mv_cpu : ∀ d, cpu s' d = cpu s d;
  mv_pcs : ∀ j, pcs s' j = upd (pcs s) i p j;
  mv_plock : ∀ j, plock s' j = upd (plock s) i (if own_p p then Some c else None) j;
  mv_state : ∀ j, pstate s' j = upd (pstate s) i (run_state p) j;
  mv_chan : ∀ j, j ≠ i → pchan s' j = pchan s j;
  mv_noff : ∀ d, noff s' d = upd (noff s) c (count p) d;
  mv_lk : ∀ l, sl_lk (slock s' l) =
    if decide (own_l p = Some l) then Some c else if decide (own_l (pcs s i) = Some l) then None else sl_lk (slock s l) }.

Lemma places_moved s s' c i p :
  places s → cpu s c = Runs i → moved s s' c i p →
  (∀ l, own_l p = Some l → own_l (pcs s i) = Some l ∨ sl_lk (slock s l) = None) →
  (yielding p = true → lock_free (below p) ∧ yielding (below p) = false) →
  (run_state p = SLEEPING → ∃ l, pchan s' i = Some l ∧ p = SlpSched l) →
  places s'.
Proof.
  intros H Hc [M1 M2 M3 M4 M5 M6 M7] Hl Hy Hs.
  assert (∀ d j, cpu s d = Runs j → j ≠ i → d ≠ c) as Hother by (intros d j E ? ->; congruence).
  split.
  - intros d j E. rewrite M1 in E. rewrite M3. destruct (decide (j = i)) as [->|]; [|rewrite upd_ne by done; by eapply (pl_back _ H)].
    rewrite upd_eq. assert (d = c) as -> by (apply (pl_one _ H d c i); [by right|by left]). congruence.
  - intros d j E Eo. rewrite M1 in E. rewrite M2 in Eo. rewrite M3. destruct (decide (j = i)) as [->|].
    + rewrite_upd. rewrite Eo. f_equal. by eapply runs_one.
    + rewrite_upd. by eapply (pl_runs _ H).
  - intros d j E. rewrite M3 in E. rewrite M1, M2. destruct (decide (j = i)) as [->|].
    + rewrite_upd. destruct (own_p p); [|done]. injection E as <-. by right.
    + rewrite_upd. by eapply (pl_held _ H).
  - intros d j l E Eo. rewrite M1 in E. rewrite M2 in Eo. rewrite M7. destruct (decide (j = i)) as [->|Hne].
    + rewrite upd_eq in Eo. rewrite decide_True by done. f_equal. by eapply runs_one.
    + rewrite upd_ne in Eo by done. pose proof (pl_lk _ H d j l E Eo) as Ed. rewrite !decide_False; [done| |].
      * intros E'. rewrite (pl_lk _ H c i l Hc E') in Ed. injection Ed as ->. congruence.
      * intros E'. destruct (Hl l E') as [E''|E'']; [|congruence].
        rewrite (pl_lk _ H c i l Hc E'') in Ed. injection Ed as ->. congruence.
  - intros d l E. rewrite M7 in E. case_decide as E1; [injection E as <-; exists i; rewrite M1, M2, upd_eq; done|].
    case_decide as E2; [done|]. destruct (pl_lkheld _ H d l E) as (j & Ej & El). exists j. rewrite M1, M2. split; [done|].
    rewrite upd_ne; [done|]. intros ->. congruence.
  - intros d. rewrite M1, M6. unfold cpu_count. destruct (decide (d = c)) as [->|Hne].
    + rewrite upd_eq, Hc. by rewrite M2, upd_eq.
    + rewrite upd_ne, (pl_noff _ H) by done. destruct (cpu s d) as [| j |] eqn:Ed; [done| |done]. simpl. rewrite M2, upd_ne; [done|].
      intros ->. apply Hne. by eapply runs_one.
  - intros d j E. rewrite M1 in E. rewrite M4, M2. destruct (decide (j = i)) as [->|]; [by rewrite !upd_eq|].
    rewrite !upd_ne by done. by apply (pl_state _ H d).
  - intros d e j. rewrite !M1. apply (pl_one _ H).
  - intros j. setoid_rewrite M1. rewrite M2, M4. destruct (decide (j = i)) as [->|]; [by left; exists c|]. rewrite_upd. apply (pl_off _ H).
  - intros j. rewrite M2. destruct (decide (j = i)) as [->|]; [rewrite upd_eq; apply Hy|rewrite upd_ne by done; apply (pl_below _ H)].
  - intros d. rewrite M1. apply (pl_range _ H).
  - intros j Hj. rewrite M4, upd_ne; [by eapply (pl_unused _ H)|]. intros ->. pose proof (runs_range s H c i Hc). lia.
  - intros j E. rewrite M4 in E. rewrite M2. destruct (decide (j = i)) as [->|].
    + rewrite_upd. destruct (Hs E) as (l & ? & ->). eauto.
    + rewrite_upd. rewrite M5 by done. by eapply (pl_chan _ H).
Qed.

(** Another process is woken while its lock is free. *)
Lemma places_wake s j :
  places s → pstate s j = SLEEPING → plock s j = None → places (set_pstate (upd (pstate s) j RUNNABLE) s).
Proof.
  intros H Hj Hp. assert (∀ c, cpu s c ≠ Runs j) as Hoff.
  { intros c E. destruct (free_runs s H c j E Hp) as [_ ?]. congruence. }
  pose proof (sleeping_range s H j Hj) as Hr. destruct H. split; cbn; try done.
  - intros c i E. rewrite upd_ne; [eauto|]. intros ->. by apply (Hoff c).
  - intros i. destruct (decide (i = j)) as [->|]; rewrite_upd; [|done]. destruct (pl_off0 j) as [[c ?]|[? _]]; [by left; exists c|by right].
  - intros i Hi. rewrite upd_ne by lia. auto.
  - intros i. destruct (decide (i = j)) as [->|]; [by rewrite upd_eq|rewrite upd_ne by done; auto].
Qed.

(** * Steps of the scheduler *)

Definition pick_next (i : nat) : nat := if decide (S i < NPROC)%nat then S i else 0%nat.

Lemma pick_next_range i : (pick_next i < NPROC)%nat.
Proof. unfold pick_next, NPROC. case_decide; lia. Qed.

(** A process is switched in. *)
Lemma places_switch_in s c i :
  places s → cpu s c = Scan i → plock s i = None → pstate s i = RUNNABLE →
  places (set_cpu (upd (cpu s) c (Runs i)) (set_pstate (upd (pstate s) i RUNNING)
    (set_plock (upd (plock s) i (Some c)) (set_noff (upd (noff s) c 1%nat) s)))).
Proof.
  intros H Hc Hp Hst.
  assert (∀ d, cpu s d ≠ Runs i) as Hoff.
  { intros d E. destruct (free_runs s H d i E Hp) as [_ ?]. congruence. }
  assert (∀ d, cpu s d ≠ Back i) as Hback by (intros d E; rewrite (pl_back _ H d i E) in Hp; done).
  destruct (pl_off _ H i) as [[d ?]|[Hres _]]; [by destruct (Hoff d)|]. pose proof (pl_range _ H c) as Hr. rewrite Hc in Hr. simpl in Hr.
  assert (own_p (pcs s i) = true ∧ own_l (pcs s i) = None ∧ run_state (pcs s i) = RUNNING) as (E1 & E2 & E3)
    by (destruct (pcs s i); try done).
  split; cbn.
  - intros d j E. upd_cases; by eapply (pl_back _ H).
  - intros d j E Eo. upd_cases; first [by eapply (pl_runs _ H)|by destruct (Hoff d)].
  - intros d j E. upd_cases; [by right| |by eapply (pl_held _ H)].
    destruct (pl_held _ H c j E) as [?|[? _]]; congruence.
  - intros d j l E Eo. upd_cases; by apply (pl_lk _ H d j).
  - intros d l E. destruct (pl_lkheld _ H d l E) as (j & ? & ?). exists j. upd_cases.
  - intros d. upd_cases; simpl; [unfold count; by rewrite E1, E2|]. apply (pl_noff _ H).
  - intros d j E. upd_cases; first [by apply (pl_state _ H d)|by destruct (Hoff d)].
  - intros d e j. unfold upd, busy_with. repeat case_decide; simplify_eq; try done.
    + intros [[= ->]|?] [?|?]; [by destruct (Hoff e)|by destruct (Hback e)|done|done].
    + intros [?|?] [[= ->]|?]; [by destruct (Hoff d)|done|by destruct (Hback d)|done].
    + apply (pl_one _ H).
  - intros j. destruct (decide (j = i)) as [->|Hne]; [left; exists c; by rewrite upd_eq|]. rewrite_upd.
    destruct (pl_off _ H j) as [[d ?]|?]; [left; exists d|by right]. upd_cases.
  - apply (pl_below _ H).
  - intros d. unfold upd. case_decide; [done|apply (pl_range _ H)].
  - intros j Hj. rewrite upd_ne by lia. by eapply (pl_unused _ H).
  - intros j. unfold upd. case_decide; [done|apply (pl_chan _ H)].
Qed.

(** The lock of a process is released by the scheduler, which goes on. *)
Lemma places_switch_out s c i n :
  places s → cpu s c = Back i → (n < NPROC)%nat →
  places (set_cpu (upd (cpu s) c (Scan n)) (set_plock (upd (plock s) i None) (set_noff (upd (noff s) c 0%nat) s))).
Proof.
  intros H Hc Hn. assert (∀ d, busy_with (cpu s d) i → d = c) as Hone by (intros d E; apply (pl_one _ H d c i); [done|by right]).
  split; cbn.
  - intros d j E. upd_cases; [|by eapply (pl_back _ H)]. destruct (Hone d); [by right|done].
  - intros d j E Eo. upd_cases; [|by eapply (pl_runs _ H)]. destruct (Hone d); [by left|done].
  - intros d j E. upd_cases; [|by eapply (pl_held _ H)].
    destruct (pl_held _ H c j E) as [?|[? _]]; congruence.
  - intros d j l E Eo. upd_cases; by apply (pl_lk _ H d j).
  - intros d l E. destruct (pl_lkheld _ H d l E) as (j & ? & ?). exists j. upd_cases.
  - intros d. upd_cases. apply (pl_noff _ H).
  - intros d j E. upd_cases. by apply (pl_state _ H d).
  - intros d e j. unfold upd, busy_with. repeat case_decide; simplify_eq; try naive_solver. apply (pl_one _ H).
  - intros j. destruct (pl_off _ H j) as [[d ?]|?]; [left; exists d|by right]. upd_cases.
  - apply (pl_below _ H).
  - intros d. unfold upd. case_decide; [done|apply (pl_range _ H)].
  - apply (pl_unused _ H).
  - apply (pl_chan _ H).
Qed.

(** The scheduler passes over a process. *)
Lemma places_scan s c i n :
  places s → cpu s c = Scan i → (n < NPROC)%nat → places (set_cpu (upd (cpu s) c (Scan n)) s).
Proof.
  intros H Hc Hn. split; cbn.
  - intros d j E. upd_cases; by eapply (pl_back _ H).
  - intros d j E Eo. upd_cases; by eapply (pl_runs _ H).
  - intros d j E. upd_cases; [|by eapply (pl_held _ H)].
    destruct (pl_held _ H c j E) as [?|[? _]]; congruence.
  - intros d j l E Eo. upd_cases; by apply (pl_lk _ H d j).
  - intros d l E. destruct (pl_lkheld _ H d l E) as (j & ? & ?). exists j. upd_cases.
  - intros d. upd_cases; [|apply (pl_noff _ H)]. by rewrite (pl_noff _ H), Hc.
  - intros d j E. upd_cases. by apply (pl_state _ H d).
  - intros d e j. unfold upd, busy_with. repeat case_decide; simplify_eq; try naive_solver. apply (pl_one _ H).
  - intros j. destruct (pl_off _ H j) as [[d ?]|?]; [left; exists d|by right]. upd_cases.
  - apply (pl_below _ H).
  - intros d. unfold upd. case_decide; [done|apply (pl_range _ H)].
  - apply (pl_unused _ H).
  - apply (pl_chan _ H).
Qed.

(** A process calls [sched] and will come back at [p]. *)
Lemma places_sched s c i p :
  places s → cpu s c = Runs i → own_p (pcs s i) = true → own_l (pcs s i) = None → pstate s i ≠ RUNNING →
  resumable p = true → (yielding p = true → lock_free (below p) ∧ yielding (below p) = false) →
  (pstate s i = SLEEPING → ∃ l, pchan s i = Some l ∧ p = SlpWake l) →
  places (goto i p (set_cpu (upd (cpu s) c (Back i)) s)).
Proof.
  intros H Hc Ho El Hst Hres Hy Hsl. pose proof (runs_range s H c i Hc) as Hr.
  assert (∀ d j, cpu s d = Runs j → d ≠ c → j ≠ i) as Hother by (intros d j E Hne ->; apply Hne; by eapply runs_one).
  split; cbn.
  - intros d j E. upd_cases; first [by eapply (pl_back _ H)|by eapply pl_runs].
  - intros d j E Eo. upd_cases; first [by eapply (pl_runs _ H)|by destruct (Hother d i)].
  - intros d j E. destruct (pl_held _ H d j E) as [E'|[E' Eo]]; upd_cases; eauto.
    by destruct (Hother d i).
  - intros d j l E Eo. upd_cases; first [by eapply pl_lk|by destruct (Hother d i)].
  - intros d l E. destruct (pl_lkheld _ H d l E) as (j & Ej & Eo). exists j. upd_cases.
  - intros d. unfold upd. case_decide; simplify_eq.
    + rewrite (pl_noff _ H), Hc. simpl. unfold count. by rewrite Ho, El.
    + rewrite (pl_noff _ H). destruct (cpu s d) as [|j|] eqn:Ed; simpl; [done| |done]. rewrite upd_ne; [done|]. by eapply Hother.
  - intros d j E. upd_cases; first [by eapply pl_state|by destruct (Hother d i)].
  - intros d e j Ed Ee. apply (pl_one _ H d e j); unfold upd, busy_with in *; [clear Ee|clear Ed]; case_decide; naive_solver.
  - intros j. destruct (decide (j = i)) as [->|Hne]; rewrite_upd; [by right|].
    destruct (pl_off _ H j) as [[d ?]|?]; [left; exists d|by right]. upd_cases.
  - intros j. unfold upd. case_decide; [done|apply (pl_below _ H)].
  - intros d. unfold upd. case_decide; [done|apply (pl_range _ H)].
  - apply (pl_unused _ H).
  - intros j E. upd_cases; [|by eapply (pl_chan _ H)]. destruct (Hsl E) as (l & ? & ->). eauto.
Qed.
