(* ===== verification/SchedProps.v ===== *)
(** Sleep locks and the scheduler together: no step panics, a sleep lock has
    at most one holder, and no wakeup is lost. *)

From S2P Require Import Prelude.
From S2P Require Import Sched SchedInv.

(** * The invariant of the sleep locks *)

(** Process [i] is committed to sleep on [l]. *)
Definition waiting (s : sst) (i l : nat) : Prop :=
  pcs s i = SlpMark l ∨ (pstate s i = SLEEPING ∧ pchan s i = Some l).

(** A releaser of [l] has not passed process [i] yet. *)
Definition waking (s : sst) (l i : nat) : Prop := ∃ r j, pcs s r = RelWake l j ∧ (j ≤ i)%nat.

Definition releasing (p : pcount) (l : nat) : Prop := below p = RelStart l ∨ p = RelClear l.

Definition falling_asleep (p : pcount) (l : nat) : Prop := p = SlpLock l ∨ p = SlpRelease l.

(** The sleep lock a process wants. *)
Definition acquiring (p : pcount) : option nat :=
  match below p with
  | AcqStart l | AcqLoop l | SlpLock l | SlpRelease l | SlpMark l | SlpSched l | SlpWake l | SlpUnlock l | SlpRelock l => Some l
  | _ => None
  end.

Record synced (s : sst) : Prop := {
  sy_held : ∀ i l, l ∈ held s i → sl_locked (slock s l) = true ∧ sl_pid (slock s l) = i;
  sy_locked : ∀ l, sl_locked (slock s l) = true → l ∈ held s (sl_pid (slock s l));
  sy_rel : ∀ i l, releasing (pcs s i) l → l ∈ held s i;
  sy_acq : ∀ i l, acquiring (pcs s i) = Some l → l ∉ held s i;
  sy_fall : ∀ i l, falling_asleep (pcs s i) l → sl_locked (slock s l) = true;
  sy_wait : ∀ i l, waiting s i l → sl_locked (slock s l) = true ∨ waking s l i }.

Record inv (s : sst) : Prop := {
  inv_places : places s;
  inv_synced : synced s }.

Lemma inv_init : inv sinit.
Proof.
  split; [apply places_init|]. split; cbn; try done.
  - by intros i l [?|?].
  - by intros i l [?|?].
  - unfold waiting. cbn. intros i l [?|[? ?]]; done.
Qed.

(** A process that stands where [swtch] never comes back to is on a CPU. *)
Lemma on_cpu s i : places s → resumable (pcs s i) = false → ∃ c, cpu s c = Runs i.
Proof. intros H Hr. destruct (pl_off _ H i) as [?|[? _]]; [done|congruence]. Qed.

Lemma waiting_range s i l : places s → waiting s i l → (i < NPROC)%nat.
Proof.
  intros H [E|[E _]]; [|by eapply sleeping_range]. destruct (on_cpu s i H) as [c ?]; [by rewrite E|]. by eapply runs_range.
Qed.

(** * States with the same fields *)

#[export] Instance sst_equiv : Equiv sst := λ s s',
  (∀ i, plock s i = plock s' i) ∧ (∀ i, pstate s i = pstate s' i) ∧ (∀ i, pchan s i = pchan s' i) ∧
  (∀ i, pcs s i = pcs s' i) ∧ (∀ c, cpu s c = cpu s' c) ∧ (∀ c, noff s c = noff s' c) ∧
  (∀ l, slock s l = slock s' l) ∧ (∀ i, held s i = held s' i).

#[export] Instance sst_equivalence : Equivalence (≡@{sst}).
Proof.
  split.
  - by intros s.
  - intros s s' E. destruct_and! E. by repeat split.
  - intros s1 s2 s3 E1 E2. destruct_and! E1. destruct_and! E2. repeat split; intros; etrans; eauto.
Qed.

#[export] Instance places_proper : Proper ((≡@{sst}) ==> impl) places.
Proof.
  intros s s' (E1 & E2 & E3 & E4 & E5 & E6 & E7 & E8) []. split.
  all: repeat setoid_rewrite <- E1; repeat setoid_rewrite <- E2; repeat setoid_rewrite <- E3; repeat setoid_rewrite <- E4;
    repeat setoid_rewrite <- E5; repeat setoid_rewrite <- E6; repeat setoid_rewrite <- E7; try done.
  intros c. rewrite pl_noff. destruct (cpu s c); simpl; by rewrite <- ?E4.
Qed.

#[export] Instance synced_proper : Proper ((≡@{sst}) ==> impl) synced.
Proof.
  intros s s' (E1 & E2 & E3 & E4 & E5 & E6 & E7 & E8) []. split; unfold waiting, waking in *.
  all: repeat setoid_rewrite <- E2; repeat setoid_rewrite <- E3; repeat setoid_rewrite <- E4;
    repeat setoid_rewrite <- E7; repeat setoid_rewrite <- E8; done.
Qed.

#[export] Instance inv_proper : Proper ((≡@{sst}) ==> impl) inv.
Proof. intros s s' E [H1 H2]. split; by rewrite <- E. Qed.

(** * A process goes on *)

(** The sleep locks keep their holders. *)
Record kept (s s' : sst) : Prop := {
  kp_held : ∀ i, held s' i = held s i;
  kp_locked : ∀ l, sl_locked (slock s' l) = sl_locked (slock s l);
  kp_pid : ∀ l, sl_pid (slock s' l) = sl_pid (slock s l) }.

(** Position [p] of process [i] agrees with the sleep locks of [s]. *)
Record stands (s : sst) (i : nat) (p : pcount) : Prop := {
  st_own : ∀ l, own_l p = Some l → own_l (pcs s i) = Some l ∨ sl_lk (slock s l) = None;
  st_yield : yielding p = true → lock_free (below p) ∧ yielding (below p) = false;
  st_rel : ∀ l, releasing p l → l ∈ held s i;
  st_acq : ∀ l, acquiring p = Some l → acquiring (pcs s i) = Some l ∨ l ∉ held s i;
  st_fall : ∀ l, falling_asleep p l → sl_locked (slock s l) = true;
  st_mark : ∀ l, p = SlpMark l → sl_locked (slock s l) = true;
  st_wake : ∀ l j k, pcs s i = RelWake l j → waiting s k l → k ≠ i → (j ≤ k)%nat → ∃ j', p = RelWake l j' ∧ (j' ≤ k)%nat }.

Lemma waking_moved s s' c i p l k :
  moved s s' c i p → stands s i p → waiting s k l → k ≠ i → waking s l k → waking s' l k.
Proof.
  intros M H Hw Hk (r & j & Er & Hj). destruct (decide (r = i)) as [->|Hr].
  - destruct (st_wake _ _ _ H l j k Er Hw Hk Hj) as (j' & -> & ?). exists i, j'. by rewrite (mv_pcs _ _ _ _ _ M), upd_eq.
  - exists r, j. by rewrite (mv_pcs _ _ _ _ _ M), upd_ne.
Qed.

Lemma synced_moved s s' c i p :
  synced s → moved s s' c i p → kept s s' → stands s i p →
  (run_state p = SLEEPING → ∃ l, pcs s i = SlpMark l ∧ p = SlpSched l ∧ pchan s' i = Some l) →
  synced s'.
Proof.
  intros H M [K1 K2 K3] St Hsl. split.
  - intros k l. rewrite K1, K2, K3. apply (sy_held _ H).
  - intros l. rewrite K1, K2, K3. apply (sy_locked _ H).
  - intros k l. rewrite K1, (mv_pcs _ _ _ _ _ M). destruct (decide (k = i)) as [->|]; rewrite_upd; [apply St|apply (sy_rel _ H)].
  - intros k l. rewrite K1, (mv_pcs _ _ _ _ _ M). destruct (decide (k = i)) as [->|]; rewrite_upd; [|apply (sy_acq _ H)].
    intros [E|?]%(st_acq _ _ _ St); [by apply (sy_acq _ H)|done].
  - intros k l. rewrite K2, (mv_pcs _ _ _ _ _ M). destruct (decide (k = i)) as [->|]; rewrite_upd; [apply St|apply (sy_fall _ H)].
  - intros k l Hw. rewrite K2. unfold waiting in Hw. rewrite (mv_pcs _ _ _ _ _ M), (mv_state _ _ _ _ _ M) in Hw.
    destruct (decide (k = i)) as [->|Hk]; rewrite_upd.
    + destruct Hw as [Hw|[Hw Hch]]; [left; by apply (st_mark _ _ _ St)|].
      destruct (Hsl Hw) as (l' & Ei & -> & Ec). simplify_eq.
      destruct (sy_wait _ H i l) as [?|(r & j & Er & Hj)]; [by left|by left|right].
      exists r, j. rewrite (mv_pcs _ _ _ _ _ M), upd_ne by congruence. done.
    + rewrite (mv_chan _ _ _ _ _ M) in Hw by done. destruct (sy_wait _ H k l Hw) as [?|?]; [by left|right].
      by eapply waking_moved.
Qed.

Lemma inv_moved s s' c i p :
  inv s → cpu s c = Runs i → moved s s' c i p → kept s s' → stands s i p →
  (run_state p = SLEEPING → ∃ l, pcs s i = SlpMark l ∧ p = SlpSched l ∧ pchan s' i = Some l) →
  inv s'.
Proof.
  intros [Hp Hs] Hc M K St Hsl. split; [|by eapply synced_moved].
  eapply places_moved; [done|done|done|apply St|apply St|]. intros E. destruct (Hsl E) as (l & ? & -> & ?). eauto.
Qed.

(** * Steps *)

(** A step that never panics, with what it leaves. *)
Definition safe (P : sst → Prop) (r : stepres) : Prop :=
  match r with
  | Next s' => P s'
  | Spin => True
  | Panics _ => False
  end.

Lemma safe_next P r f : safe (λ s', P (f s')) r → safe P (then_ r (λ s', Next (f s'))).
Proof. by destruct r. Qed.

Section Steps.

Context (s : sst) (c i : nat).

Hypothesis H : inv s.
Hypothesis Hc : cpu s c = Runs i.

(** The spin lock of a sleep lock that its CPU does not hold. *)
Lemma safe_acquire_l l (P : sst → Prop) :
  own_l (pcs s i) ≠ Some l →
  (sl_lk (slock s l) = None →
   P (set_slock (upd (slock s) l (set_lk (Some c) (slock s l))) (set_noff (upd (noff s) c (S (noff s c))) s))) →
  safe P (acquire_l c l s).
Proof.
  intros Ho HP. unfold acquire_l. destruct (sl_lk (slock s l)) as [d|] eqn:El; [|by apply HP].
  case_decide as Ed; [subst d|done]. destruct (pl_lkheld _ (inv_places _ H) c l El) as (k & ? & ?). congruence.
Qed.

Lemma safe_release_l l (P : sst → Prop) :
  own_l (pcs s i) = Some l →
  P (set_slock (upd (slock s) l (set_lk None (slock s l))) (set_noff (upd (noff s) c (pred (noff s c))) s)) →
  safe P (release_l c l s).
Proof.
  intros Ho HP. unfold release_l. rewrite decide_True; [done|]. by apply (pl_lk _ (inv_places _ H) c i).
Qed.

(** The lock of any process, while this one does not hold its own. *)
Lemma safe_acquire_p j (P : sst → Prop) :
  (j = i → own_p (pcs s i) = false) →
  (plock s j = None → P (set_plock (upd (plock s) j (Some c)) (set_noff (upd (noff s) c (S (noff s c))) s))) →
  safe P (acquire_p c j s).
Proof.
  intros Ho HP. unfold acquire_p. destruct (plock s j) as [d|] eqn:El; [|by apply HP].
  case_decide as Ed; [subst d|done]. destruct (pl_held _ (inv_places _ H) c j El) as [?|[? ?]]; [congruence|].
  assert (j = i) as -> by congruence. rewrite Ho in *; done.
Qed.

Lemma safe_release_p (P : sst → Prop) :
  own_p (pcs s i) = true →
  P (set_plock (upd (plock s) i None) (set_noff (upd (noff s) c (pred (noff s c))) s)) →
  safe P (release_p c i s).
Proof.
  intros Ho HP. unfold release_p. rewrite decide_True; [done|]. by apply (pl_runs _ (inv_places _ H) c i).
Qed.

(** What the invariant says of the position of process [i]. *)
Ltac position Ep :=
  pose proof (runs_plock s (inv_places _ H) c i Hc) as Elock;
  pose proof (pl_state _ (inv_places _ H) c i Hc) as Estate;
  pose proof (runs_noff s (inv_places _ H) c i Hc) as Enoff;
  rewrite Ep in Elock, Estate, Enoff; simpl in Elock, Estate, Enoff.

Ltac moves Ep Elock Estate Enoff := split; cbn; rewrite ?Ep; cbn; intros; rewrite ?Elock, ?Estate, ?Enoff; upd_cases;
  try (simpl; apply (pl_lk _ (inv_places _ H) c i); [done|by rewrite Ep]).

Ltac settles Ep :=
  split; rewrite ?Ep; unfold releasing, falling_asleep; cbn; try done; intros; destruct_or?; simplify_eq; auto.

(** The parts of [inv_moved] for a step that changes only what the new
    position says. *)
Ltac advance p :=
  match goal with Ep : pcs s i = _ |- _ =>
    position Ep;
    match goal with E1 : plock s i = _, E2 : pstate s i = _, E3 : noff s c = _ |- _ =>
      apply (inv_moved s _ c i p H Hc); [moves Ep E1 E2 E3|split; cbn; intros; upd_cases|settles Ep|try done]
    end
  end.

(** A free sleep lock is taken. *)
Lemma inv_lock_sleep l :
  pcs s i = AcqLoop l → sl_locked (slock s l) = false → inv (goto i (AcqDone l) (lock_sleep l i s)).
Proof.
  intros Ep Hl. position Ep. pose proof (inv_synced _ H) as Hs. split.
  - apply (places_moved s _ c i (AcqDone l)); [apply H|done|moves Ep Elock Estate Enoff|rewrite Ep; by left|done|done].
  - assert (∀ k, l ∉ held s k) as Hfree by (intros k ?%(sy_held _ Hs); destruct_and?; congruence).
    split; cbn.
    + intros k l' Hk. destruct (decide (l' = l)) as [->|Hne]; rewrite_upd; simpl.
      * destruct (decide (k = i)) as [->|]; rewrite_upd; [done|]. by destruct (Hfree k).
      * apply (sy_held _ Hs). destruct (decide (k = i)) as [->|]; rewrite_upd; [|done]. clear -Hk Hne. set_solver.
    + intros l' Hk. destruct (decide (l' = l)) as [->|Hne]; rewrite_upd; simpl in *; [rewrite upd_eq; clear; set_solver|].
      pose proof (sy_locked _ Hs l' Hk) as Hin.
      destruct (decide (sl_pid (slock s l') = i)) as [E|E]; rewrite_upd; [rewrite E in *; rewrite_upd; clear -Hin; set_solver|done].
    + intros k l' Hk. unfold upd in *. case_decide; [by destruct Hk|]. by apply (sy_rel _ Hs).
    + intros k l' Hk. unfold upd in *. case_decide; [done|]. by apply (sy_acq _ Hs).
    + intros k l' Hk. unfold upd in *. repeat case_decide; simpl; try done; [by destruct Hk|]. by apply (sy_fall _ Hs k).
    + intros k l' Hk. unfold waiting in Hk. cbn in Hk. destruct (decide (k = i)) as [->|].
      * rewrite upd_eq in Hk. destruct Hk as [?|[? _]]; congruence.
      * rewrite upd_ne in Hk by done. destruct (sy_wait _ Hs k l' Hk) as [?|(r & j & Er & ?)].
        -- left. unfold upd. by case_decide.
        -- right. exists r, j. cbn. rewrite upd_ne by congruence. done.
Qed.

(** [acquiresleep] *)
Lemma acquiresleep_safe :
  (match pcs s i with AcqStart _ | AcqLoop _ | AcqDone _ => True | _ => False end) →
  safe inv (acquiresleep_step c i (pcs s i) s).
Proof.
  destruct (pcs s i) as [|l|l|l| | | | | | | | | | | | | | |] eqn:Ep; intros []; simpl.
  - apply safe_next, safe_acquire_l; [by rewrite Ep|]. intros Hl. advance (AcqLoop l).
  - destruct (sl_locked (slock s l)) eqn:El; [|by apply inv_lock_sleep]. advance (SlpLock l).
  - apply safe_next, safe_release_l; [by rewrite Ep|]. advance Outside.
Qed.

(** [sched], from a process that holds its own lock only. *)
Lemma safe_sched p (P : sst → Prop) :
  own_p (pcs s i) = true → own_l (pcs s i) = None → run_state (pcs s i) ≠ RUNNING →
  P (goto i p (set_cpu (upd (cpu s) c (Back i)) s)) →
  safe P (then_ (sched c i s) (λ s', Next (goto i p s'))).
Proof.
  intros Ho El Hst HP. unfold sched.
  rewrite decide_False by (intros []; by apply (pl_runs _ (inv_places _ H) c i)).
  rewrite decide_False by (intros []; rewrite (runs_noff s (inv_places _ H) c i Hc); unfold count; by rewrite Ho, El).
  by rewrite decide_False by (by rewrite (pl_state _ (inv_places _ H) c i Hc)).
Qed.

Lemma inv_sched p :
  own_p (pcs s i) = true → own_l (pcs s i) = None → run_state (pcs s i) ≠ RUNNING → resumable p = true →
  stands s i p → (run_state (pcs s i) = SLEEPING → ∃ l, pcs s i = SlpSched l ∧ p = SlpWake l) →
  inv (goto i p (set_cpu (upd (cpu s) c (Back i)) s)).
Proof.
  intros Ho El Hst Hres St Hsl. pose proof (pl_state _ (inv_places _ H) c i Hc) as Est. split.
  - apply places_sched; try done; [apply H|by rewrite Est|apply St|]. rewrite Est. intros E. destruct (Hsl E) as (l & Ep & ->).
    destruct (pl_chan _ (inv_places _ H) i) as (l' & ? & [?|?]); [congruence| |congruence].
    exists l. split; [|done]. congruence.
  - pose proof (inv_synced _ H) as Hs. split; cbn; [apply (sy_held _ Hs)|apply (sy_locked _ Hs)| | | |].
    + intros k l. destruct (decide (k = i)) as [->|]; rewrite_upd; [apply (st_rel _ _ _ St)|apply (sy_rel _ Hs)].
    + intros k l. destruct (decide (k = i)) as [->|]; rewrite_upd; [|apply (sy_acq _ Hs)].
      intros [E|?]%(st_acq _ _ _ St); [by apply (sy_acq _ Hs)|done].
    + intros k l. destruct (decide (k = i)) as [->|]; rewrite_upd; [apply (st_fall _ _ _ St)|apply (sy_fall _ Hs)].
    + intros k l Hw. assert (p ≠ SlpMark l) by (by intros ->). destruct (sy_wait _ Hs k l) as [?|(r & j & Er & ?)]; [|by left|right].
      { unfold waiting in *. cbn in Hw. destruct (decide (k = i)) as [->|]; rewrite_upd; naive_solver. }
      exists r, j. cbn. rewrite upd_ne; [done|]. intros ->. rewrite Er in Ho. done.
Qed.

(** [sleep] *)
Lemma sleep_safe :
  (match pcs s i with
   | SlpLock _ | SlpRelease _ | SlpMark _ | SlpSched _ | SlpWake _ | SlpUnlock _ | SlpRelock _ => True
   | _ => False end) →
  safe inv (sleep_step c i (pcs s i) s).
Proof.
  destruct (pcs s i) as [| | | |l|l|l|l|l|l|l| | | | | | | |] eqn:Ep; intros []; simpl.
  - apply safe_next, safe_acquire_p; [by rewrite Ep|]. intros Hl. advance (SlpRelease l).
    apply (sy_fall _ (inv_synced _ H) i). rewrite Ep. by left.
  - apply safe_next, safe_release_l; [by rewrite Ep|]. advance (SlpMark l).
    apply (sy_fall _ (inv_synced _ H) i). rewrite Ep. by right.
  - advance (SlpSched l). intros _. exists l. cbn. by rewrite upd_eq.
  - apply safe_sched; try by rewrite Ep. apply inv_sched; try by rewrite Ep.
    + done.
    + settles Ep.
    + eauto.
  - advance (SlpUnlock l).
  - apply safe_next, safe_release_p; [by rewrite Ep|]. advance (SlpRelock l).
  - apply safe_next, safe_acquire_l; [by rewrite Ep|]. intros Hl. advance (AcqLoop l).
Qed.

(** A sleep lock is given up: its waiters have a releaser ahead of them. *)
Lemma inv_unlock_sleep l : pcs s i = RelClear l → inv (goto i (RelWake l 0) (unlock_sleep l i s)).
Proof.
  intros Ep. position Ep. pose proof (inv_synced _ H) as Hs.
  assert (l ∈ held s i) as Hl by (apply (sy_rel _ Hs); rewrite Ep; by right).
  assert (∀ k, l ∈ held s k → k = i) as Hone.
  { intros k Hk. destruct (sy_held _ Hs k l Hk), (sy_held _ Hs i l Hl). congruence. }
  assert (∀ k, k ≠ i → ¬ falling_asleep (pcs s k) l) as Hfall.
  { intros k Hk Hf. destruct (on_cpu s k (inv_places _ H)) as [d Ed]; [by destruct Hf as [-> | ->]|].
    assert (own_l (pcs s k) = Some l) as Ek by (by destruct Hf as [-> | ->]).
    pose proof (pl_lk _ (inv_places _ H) d k l Ed Ek). pose proof (pl_lk _ (inv_places _ H) c i l Hc) as El.
    rewrite Ep in El. specialize (El eq_refl). congruence. }
  split.
  - apply (places_moved s _ c i (RelWake l 0)); [apply H|done|moves Ep Elock Estate Enoff|rewrite Ep; by left|done|done].
  - split; cbn.
    + intros k l' Hk. destruct (decide (l' = l)) as [->|Hne]; rewrite_upd; simpl.
      * destruct (decide (k = i)) as [->|]; rewrite_upd; [|by destruct (Hone k)]. by apply elem_of_difference in Hk as [_ []%not_elem_of_singleton].
      * apply (sy_held _ Hs). destruct (decide (k = i)) as [->|]; rewrite_upd; [|done]. clear -Hk Hne. set_solver.
    + intros l' Hk. destruct (decide (l' = l)) as [->|Hne]; rewrite_upd; simpl in *; [done|].
      pose proof (sy_locked _ Hs l' Hk) as Hin.
      destruct (decide (sl_pid (slock s l') = i)) as [E|E]; rewrite_upd; [rewrite E in *; rewrite_upd; clear -Hin Hne; set_solver|done].
    + intros k l' Hk. unfold upd in *. case_decide; [by destruct Hk|]. by apply (sy_rel _ Hs).
    + intros k l' Hk. unfold upd in *. case_decide; [done|]. by apply (sy_acq _ Hs).
    + intros k l' Hk. unfold upd in *. repeat case_decide; simplify_eq; simpl; [by destruct Hk|by destruct Hk|by destruct (Hfall k)|].
      by apply (sy_fall _ Hs k).
    + intros k l' Hk. unfold waiting in Hk. cbn in Hk. destruct (decide (k = i)) as [->|].
      * rewrite upd_eq in Hk. destruct Hk as [?|[? _]]; congruence.
      * destruct (decide (l' = l)) as [->|]; [right; exists i, 0%nat; cbn; rewrite upd_eq; split; [done|lia]|].
        rewrite upd_ne in Hk by done. rewrite upd_ne by done. destruct (sy_wait _ Hs k l' Hk) as [?|(r & j & Er & ?)]; [by left|right].
        exists r, j. cbn. rewrite upd_ne by congruence. done.
Qed.

Lemma inv_rel_start l :
  pcs s i = RelStart l → sl_lk (slock s l) = None →
  inv (goto i (RelClear l)
    (set_slock (upd (slock s) l (set_lk (Some c) (slock s l))) (set_noff (upd (noff s) c (S (noff s c))) s))).
Proof. intros Ep Hl. advance (RelClear l). apply (sy_rel _ (inv_synced _ H)). rewrite Ep. by left. Qed.

Lemma inv_rel_done l :
  pcs s i = RelDone l →
  inv (goto i Outside
    (set_slock (upd (slock s) l (set_lk None (slock s l))) (set_noff (upd (noff s) c (pred (noff s c))) s))).
Proof. intros Ep. advance Outside. Qed.

(** [wakeup] goes on to the next process. *)
Lemma inv_next_wake l j : pcs s i = RelWake l j → ¬ waiting s j l → inv (goto i (RelWake l (S j)) s).
Proof.
  intros Ep Hn. advance (RelWake l (S j)). eexists. split; [done|].
  match goal with Hw : waiting s ?k _, Hj : (?j ≤ ?k)%nat |- _ => destruct (decide (k = j)) as [->|]; [done|lia] end.
Qed.

Lemma inv_end_wake l j : pcs s i = RelWake l j → (NPROC ≤ j)%nat → inv (goto i (RelDone l) s).
Proof. intros Ep Hn. advance (RelDone l). match goal with Hw : waiting s _ _ |- _ => pose proof (waiting_range s _ _ (inv_places _ H) Hw) end. lia. Qed.

Lemma inv_next_kill pid j p : pcs s i = KillScan pid j → p = Outside ∨ p = KillScan pid (S j) → inv (goto i p s).
Proof. intros Ep [-> | ->]; [advance Outside|advance (KillScan pid (S j))]. Qed.

Lemma safe_with_plock j f (P : sst → Prop) :
  (j = i → own_p (pcs s i) = false) → (∀ g h, f (set_plock g (set_noff h s)) = set_plock g (set_noff h (f s))) →
  plock (f s) = plock s → noff (f s) = noff s →
  (∀ s', plock s j = None → s' ≡ f s → P s') → safe P (with_plock c j f s).
Proof.
  intros Ho Hf E1 E2 HP. unfold with_plock. pose proof (safe_acquire_p j (λ _, True) Ho (λ _, I)) as Ha.
  unfold acquire_p in *. destruct (plock s j) eqn:Ej; simpl; [by case_decide|]. rewrite Hf.
  unfold release_p. cbn. rewrite upd_eq, decide_True by done. apply HP; [done|].
  repeat split; intros; cbn; rewrite ?E1, ?E2; unfold upd; repeat case_decide; subst; rewrite ?Ej; done.
Qed.

(** [yield] *)
Lemma yield_safe : yielding (pcs s i) = true → safe inv (yield_step c i (pcs s i) s).
Proof.
  pose proof (pl_below _ (inv_places _ H) i) as Hb. pose proof (sy_rel _ (inv_synced _ H) i) as Hr. unfold releasing in Hr.
  intros Hy. specialize (Hb Hy). destruct Hb as [[Hb1 Hb2] Hb3].
  destruct (pcs s i) as [| | | | | | | | | | | | | | | |k|k|k] eqn:Ep; try done; simpl in *.
  - apply safe_next, safe_acquire_p; [by rewrite Ep|]. intros Hl. advance (YldSched k).
  - apply safe_sched; try by rewrite Ep. apply inv_sched; try by rewrite Ep.
    + done.
    + settles Ep.
  - apply safe_next, safe_release_p; [by rewrite Ep|].
    destruct k; try done; match goal with |- inv (goto _ ?k _) => advance k end.
Qed.

(** A process starts a call. *)
Lemma inv_call p : pcs s i = Outside → call_of s i p → inv (goto i p s).
Proof. intros Ep []; [advance (AcqStart l)|advance (RelStart l)|advance (KillScan pid 0)]. Qed.

(** A timer interrupt. *)
Lemma inv_timer : noff s c = 0%nat → yielding (pcs s i) = false → inv (goto i (YldLock (pcs s i)) s).
Proof.
  intros Hn Hy. rewrite (runs_noff s (inv_places _ H) c i Hc) in Hn. pose proof (sy_rel _ (inv_synced _ H) i) as Hr.
  destruct (pcs s i) eqn:Ep; try done; unfold releasing in Hr; simpl in Hr;
    match goal with |- inv (goto _ ?k _) => advance k end.
Qed.

End Steps.

(** * Steps that reach another process *)

(** A sleeping process is woken. *)
Lemma inv_wake s j :
  inv s → pstate s j = SLEEPING → plock s j = None → inv (set_pstate (upd (pstate s) j RUNNABLE) s).
Proof.
  intros [Hp Hs] Ej El. split; [by apply places_wake|]. split; cbn; try apply Hs.
  intros k l Hw. apply (sy_wait _ Hs k l). unfold waiting in *. cbn in Hw. unfold upd in Hw. case_decide; naive_solver.
Qed.

Lemma inv_wake_one s l j : inv s → plock s j = None → inv (wake_one l j s).
Proof. intros H Hj. unfold wake_one. case_decide as E; [|done]. destruct E. by apply inv_wake. Qed.

Lemma inv_set_killed s f : inv s → inv (set_pkilled f s).
Proof. intros [[] []]. by split; split. Qed.

Lemma inv_kill_one s j : inv s → plock s j = None → inv (kill_one j s).
Proof. intros H Hj. unfold kill_one. case_decide as E; [apply inv_wake|]; try apply inv_set_killed; done. Qed.

(** Nobody waits where the waker has been. *)
Lemma wake_one_not_waiting s l j : inv s → plock s j = None → ¬ waiting (wake_one l j s) j l.
Proof.
  intros H Hj. unfold wake_one. case_decide as E; unfold waiting; cbn; rewrite ?upd_eq; intros [Ep|Ep]; [|naive_solver| |naive_solver].
  all: destruct (on_cpu s j (inv_places _ H)) as [d Ed]; [by rewrite Ep|].
  all: pose proof (pl_runs _ (inv_places _ H) d j Ed) as Hl; rewrite Ep in Hl; specialize (Hl eq_refl); congruence.
Qed.

#[export] Instance waiting_proper : Proper ((≡@{sst}) ==> eq ==> eq ==> impl) waiting.
Proof. intros s s' (E1 & E2 & E3 & E4 & E5 & _) i _ <- l _ <-. unfold waiting. by rewrite E2, E3, E4. Qed.

(** [releasesleep] *)
Lemma releasesleep_safe s c i :
  inv s → cpu s c = Runs i → (match pcs s i with RelStart _ | RelClear _ | RelWake _ _ | RelDone _ => True | _ => False end) →
  safe inv (releasesleep_step c i (pcs s i) s).
Proof.
  intros H Hc. destruct (pcs s i) as [| | | | | | | | | | |l|l|l j|l| | | |] eqn:Ep; intros []; simpl.
  - apply safe_next, (safe_acquire_l s c i H Hc); [by rewrite Ep|]. intros Hl. by apply inv_rel_start.
  - by apply (inv_unlock_sleep s c i).
  - case_decide as Hj; [|apply (inv_end_wake s c i H Hc l j Ep); lia].
    apply safe_next. unfold wakeup_step. case_decide as Hi.
    + subst j. apply (inv_next_wake s c i H Hc l i Ep). intros [?|[E _]]; [congruence|].
      rewrite (pl_state _ (inv_places _ H) c i Hc), Ep in E. done.
    + apply (safe_with_plock s c i H Hc); [done|intros; unfold wake_one; cbn; by case_decide| | |].
      1,2: unfold wake_one; by case_decide.
      intros s' Hn E. assert (Hw := E). destruct Hw as (_ & _ & _ & Epc & Ecpu & _).
      assert (inv s') as H' by (rewrite E; by apply inv_wake_one).
      apply (inv_next_wake s' c i H'); [rewrite Ecpu|rewrite Epc|].
      1,2: unfold wake_one; by case_decide.
      rewrite E. by apply wake_one_not_waiting.
  - apply safe_next, (safe_release_l s c i H Hc); [by rewrite Ep|]. by apply inv_rel_done.
Qed.

(** One round of the loop of [kkill] *)
Lemma kkill_safe s c i pid j :
  inv s → cpu s c = Runs i → pcs s i = KillScan pid j →
  safe inv (then_ (kkill_step c pid j s) (λ s, Next (goto i (if decide (j = pid) then Outside else KillScan pid (S j)) s))).
Proof.
  intros H Hc Ep. apply safe_next.
  assert (∀ f, (∀ s, plock s j = None → inv s → inv (f s)) →
    (∀ g h, f (set_plock g (set_noff h s)) = set_plock g (set_noff h (f s))) →
    plock (f s) = plock s → noff (f s) = noff s → cpu (f s) = cpu s → pcs (f s) = pcs s →
    safe (λ s', inv (goto i (if decide (j = pid) then Outside else KillScan pid (S j)) s')) (with_plock c j f s)) as Hf.
  { intros f Hinv Hf E1 E2 E3 E4. apply (safe_with_plock s c i H Hc); try done; [by rewrite Ep|].
    intros s' Hn E. assert (Hw := E). destruct Hw as (_ & _ & _ & Epc & Ecpu & _).
    assert (inv s') as H' by (rewrite E; by apply Hinv).
    apply (inv_next_kill s' c i H' ltac:(by rewrite Ecpu, E3) pid j); [by rewrite Epc, E4|case_decide; eauto]. }
  unfold kkill_step. case_decide as E; apply Hf; try done; intros; unfold kill_one; cbn; try by case_decide.
  by apply inv_kill_one.
Qed.

Lemma inv_end_kill s c i pid j : inv s → cpu s c = Runs i → pcs s i = KillScan pid j → inv (goto i Outside s).
Proof. intros H Hc Ep. apply (inv_next_kill s c i H Hc pid j); eauto. Qed.

Lemma thread_safe s c i : inv s → cpu s c = Runs i → safe inv (thread_step c i s).
Proof.
  intros H Hc. unfold thread_step. destruct (pcs s i) eqn:Ep; rewrite <- ?Ep; [done| | | | | | | | | | | | | | | | | |].
  all: try (apply acquiresleep_safe; [done|done|by rewrite Ep]).
  all: try (apply sleep_safe; [done|done|by rewrite Ep]).
  all: try (apply releasesleep_safe; [done|done|by rewrite Ep]).
  all: try (apply yield_safe; [done|done|by rewrite Ep]).
  case_decide; [by apply kkill_safe|by eapply inv_end_kill].
Qed.

(** The scheduler of a CPU *)
Lemma synced_cpu s f : synced s → synced (set_cpu f s).
Proof. by intros []. Qed.

Lemma scan_safe s c i : inv s → cpu s c = Scan i → safe inv (scheduler_scan c i s).
Proof.
  intros H Hc. unfold scheduler_scan. pose proof (inv_places _ H) as Hp.
  unfold acquire_p. destruct (plock s i) as [d|] eqn:El; simpl.
  { case_decide; [|done]. subst d. destruct (pl_held _ Hp c i El) as [?|[? _]]; congruence. }
  pose proof (pl_noff _ Hp c) as En. rewrite Hc in En. simpl in En. rewrite En. case_decide as Est; simpl.
  - split; [by apply places_switch_in|]. destruct (inv_synced _ H) as [Y1 Y2 Y3 Y4 Y5 Y6]. split; cbn; try done.
    intros k l Hw. apply (Y6 k l). unfold waiting in *. cbn in Hw. unfold upd in Hw. case_decide; naive_solver.
  - unfold release_p. cbn. rewrite upd_eq, decide_True by done. cbn.
    assert (inv (set_cpu (upd (cpu s) c (Scan (pick_next i))) s)) as Hi.
    { split; [apply (places_scan s c i); [done|done|apply pick_next_range]|apply synced_cpu, H]. }
    eapply inv_proper; [|exact Hi].
    repeat split; intros; cbn; rewrite ?En; upd_cases.
Qed.

Lemma back_safe s c i : inv s → cpu s c = Back i → safe inv (scheduler_back c i s).
Proof.
  intros H Hc. unfold scheduler_back, release_p. pose proof (inv_places _ H) as Hp.
  rewrite decide_True by (by apply (pl_back _ Hp)). simpl. rewrite (pl_noff _ Hp c), Hc. simpl.
  split; [|by destruct (inv_synced _ H)]. apply (places_switch_out s c i (pick_next i)); [done|done|apply pick_next_range].
Qed.

Lemma cpu_safe s c : inv s → safe inv (cpu_step c s).
Proof.
  intros H. unfold cpu_step. destruct (cpu s c) eqn:Hc; [by apply scan_safe|by apply thread_safe|by apply back_safe].
Qed.

(** * Every reachable state *)

Lemma inv_step s s' : sstep s s' → inv s → inv s'.
Proof.
  intros [c ? ? E|c i p ? Hc Ep Hcall|c i ? Hc Hn Hy] H; [|by apply (inv_call _ c)|by apply (inv_timer _ c)].
  pose proof (cpu_safe _ c H) as Hs. by rewrite E in Hs.
Qed.

Lemma inv_reachable s : rtc sstep sinit s → inv s.
Proof.
  intros Hr. assert (∀ s1 s2, rtc sstep s1 s2 → inv s1 → inv s2) as Hpres.
  { induction 1; [done|]. eauto using inv_step. }
  eapply Hpres; [done|apply inv_init].
Qed.

(** The CPU that holds the spin lock CPU [c] has to take next. *)
Definition waits_for (s : sst) (c : nat) : option nat :=
  match cpu s c with
  | Scan i => plock s i
  | Back _ => None
  | Runs i =>
      match pcs s i with
      | AcqStart l | SlpRelock l | RelStart l => sl_lk (slock s l)
      | SlpLock _ | YldLock _ => plock s i
      | RelWake _ j | KillScan _ j => plock s j
      | _ => None
      end
  end.

Definition can_step (s : sst) (c : nat) : Prop := ∃ s', cpu_step c s = Next s'.

Lemma safe_can_step s c : inv s → cpu_step c s ≠ Spin → can_step s c.
Proof.
  intros H Hn. pose proof (cpu_safe s c H) as Hs. destruct (cpu_step c s) as [s'| |] eqn:E; [by exists s'|done|done].
Qed.

Lemma acquire_p_spin c j s : acquire_p c j s = Spin → ∃ d, plock s j = Some d ∧ d ≠ c.
Proof. unfold acquire_p. destruct (plock s j); [|done]. case_decide; [done|eauto]. Qed.

Lemma acquire_l_spin c l s : acquire_l c l s = Spin → ∃ d, sl_lk (slock s l) = Some d ∧ d ≠ c.
Proof. unfold acquire_l. destruct (sl_lk (slock s l)); [|done]. case_decide; [done|eauto]. Qed.

Lemma release_p_spin c j s : release_p c j s ≠ Spin.
Proof. unfold release_p. by case_decide. Qed.

Lemma release_l_spin c j s : release_l c j s ≠ Spin.
Proof. unfold release_l. by case_decide. Qed.

Lemma sched_spin c j s : sched c j s ≠ Spin.
Proof. unfold sched. by repeat case_decide. Qed.

Lemma then_spin r f : then_ r f = Spin → r = Spin ∨ ∃ s, r = Next s ∧ f s = Spin.
Proof. destruct r; simpl; eauto. Qed.

(** Reads where a spinning step spins. *)
Ltac spins :=
  repeat match goal with
  | E : then_ _ _ = Spin |- _ => apply then_spin in E as [E|(? & _ & E)]
  | E : Next _ = Spin |- _ => discriminate E
  | E : acquire_p _ _ _ = Spin |- _ => apply acquire_p_spin in E
  | E : acquire_l _ _ _ = Spin |- _ => apply acquire_l_spin in E
  | E : release_p _ _ _ = Spin |- _ => by apply release_p_spin in E
  | E : release_l _ _ _ = Spin |- _ => by apply release_l_spin in E
  | E : sched _ _ _ = Spin |- _ => by apply sched_spin in E
  | E : (if decide _ then _ else _) = Spin |- _ => case_decide
  | E : (if sl_locked ?x then _ else _) = Spin |- _ => destruct (sl_locked x)
  end.

Lemma spin_waits_for s c : cpu_step c s = Spin → ∃ d, waits_for s c = Some d ∧ d ≠ c.
Proof.
  unfold cpu_step, waits_for. destruct (cpu s c) as [i|i|i] eqn:Hc; intros E.
  - unfold scheduler_scan in E. spins. done.
  - unfold thread_step in E. destruct (pcs s i); simpl in E; try discriminate E; unfold wakeup_step, kkill_step, with_plock in E; spins; done.
  - unfold scheduler_back in E. spins.
Qed.

(** The holder of the lock of a process never spins. *)
Lemma plock_holder s j d : inv s → plock s j = Some d → can_step s d.
Proof.
  intros H Hj. apply safe_can_step; [done|]. intros [e [E _]]%spin_waits_for. unfold waits_for in E.
  destruct (pl_held _ (inv_places _ H) d j Hj) as [Hd|[Hd Ho]]; rewrite Hd in E; [done|]. by destruct (pcs s j).
Qed.

(** The holder of the spin lock of a sleep lock spins only for the lock of a
    process. *)
Lemma lk_holder s l d : inv s → sl_lk (slock s l) = Some d → can_step s d ∨ ∃ e, waits_for s d = Some e ∧ can_step s e.
Proof.
  intros H Hl. destruct (cpu_step d s) eqn:E; [left; by eexists| |by pose proof (cpu_safe s d H) as Hs; rewrite E in Hs].
  right. destruct (spin_waits_for s d E) as (e & Ee & _). exists e. split; [done|]. unfold waits_for in Ee.
  destruct (pl_lkheld _ (inv_places _ H) d l Hl) as (i & Hd & Ho). rewrite Hd in Ee.
  destruct (pcs s i); try done; by eapply plock_holder.
Qed.

(** * Runs *)

(** A step of the system, by name. *)
Inductive move : Set :=
  | Step (c : nat)
  | CallAcquire (c l : nat)
  | CallRelease (c l : nat)
  | Timer (c : nat).

Definition make (m : move) (s : sst) : option sst :=
  match m with
  | Step c => if cpu_step c s is Next s' then Some s' else None
  | CallAcquire c l =>
      if cpu s c is Runs i then
        if pcs s i is Outside then if decide (l ∉ held s i) then Some (goto i (AcqStart l) s) else None else None
      else None
  | CallRelease c l =>
      if cpu s c is Runs i then
        if pcs s i is Outside then if decide (l ∈ held s i) then Some (goto i (RelStart l) s) else None else None
      else None
  | Timer c =>
      if cpu s c is Runs i then
        if decide (noff s c = 0%nat ∧ yielding (pcs s i) = false) then Some (goto i (YldLock (pcs s i)) s) else None
      else None
  end.

Fixpoint run (ms : list move) (s : sst) : option sst :=
  match ms with
  | [] => Some s
  | m :: ms => s' ← make m s; run ms s'
  end.

Lemma make_sstep m s s' : make m s = Some s' → sstep s s'.
Proof.
  destruct m; simpl; repeat case_match; try done; intros; simplify_eq; (try by econstructor);
    match goal with E : pcs _ _ = Outside |- _ => eapply ss_call; [done|done|by constructor] | H : _ ∧ _ |- _ => destruct H; by eapply ss_timer end.
Qed.

Lemma run_rtc ms s s' : run ms s = Some s' → rtc sstep s s'.
Proof.
  revert s. induction ms as [|m ms IH]; simpl; intros s E; [by simplify_eq|].
  apply bind_Some in E as (s1 & E1 & E2). eauto using rtc_l, make_sstep.
Qed.

(** Process 0 takes sleep lock 7 on CPU 0, and process 1 falls asleep for it
    on CPU 1. *)
Definition contended : list move :=
  [Step 0; Step 0; CallAcquire 0 7; Step 0; Step 0; Step 0;
   Step 1; Step 1; Step 1; CallAcquire 1 7; Step 1; Step 1; Step 1; Step 1; Step 1; Step 1]%nat.

(** Process 0 then clears the lock and starts to wake the others. *)
Definition handing_over : list move := contended ++ [CallRelease 0 7; Step 0; Step 0; Step 0]%nat.

Definition after (ms : list move) : sst := default sinit (run ms sinit).

Lemma after_reachable ms : bool_decide (is_Some (run ms sinit)) = true → rtc sstep sinit (after ms).
Proof.
  intros [s E]%bool_decide_eq_true. unfold after. rewrite E. by eapply run_rtc.
Qed.

(** * Theorems *)

(** C19: a sleep lock has at most one holder.  In every state the CPUs can
    reach, a process is inside its critical section exactly if the lock says
    so, with its pid. *)
Theorem sleeplock_mutual_exclusion s :
  rtc sstep sinit s →
  (∀ i j l, l ∈ held s i → l ∈ held s j → i = j) ∧
  (∀ i l, l ∈ held s i ↔ sl_locked (slock s l) = true ∧ sl_pid (slock s l) = i).
Proof.
  intros [_ H]%inv_reachable. split.
  - intros i j l [_ <-]%(sy_held _ H) [_ <-]%(sy_held _ H). done.
  - intros i l. split; [apply (sy_held _ H)|]. intros [E <-]. by apply (sy_locked _ H).
Qed.

(** C20: no wakeup is lost.  A process that is asleep waits for a sleep lock
    that another process holds, or a releaser of that lock is on a CPU inside
    [wakeup] and has not reached it yet. *)
Theorem no_lost_wakeup s i :
  rtc sstep sinit s → pstate s i = SLEEPING →
  ∃ l, pchan s i = Some l ∧
    ((∃ h, h ≠ i ∧ l ∈ held s h) ∨ (∃ c r j, cpu s c = Runs r ∧ pcs s r = RelWake l j ∧ (j ≤ i)%nat)).
Proof.
  intros [Hp H]%inv_reachable E. destruct (pl_chan _ Hp i E) as (l & Hl & Hpc). exists l. split; [done|].
  destruct (sy_wait _ H i l) as [El|(r & j & Er & Hj)]; [by right| |].
  - left. exists (sl_pid (slock s l)). pose proof (sy_locked _ H l El) as Hh. split; [|done].
    intros Ei. rewrite Ei in Hh. revert Hh. apply (sy_acq _ H). by destruct Hpc as [-> | ->].
  - right. destruct (on_cpu s r Hp) as [c Hc]; [by rewrite Er|]. eauto 10.
Qed.


(** * Examples *)

Lemma sleeplock_mutual_exclusion_witness : 7%nat ∈ held (after contended) 0 ∧ 7%nat ∉ held (after contended) 1.
Proof.
  destruct (sleeplock_mutual_exclusion (after contended)) as [_ H2]; [apply after_reachable; vm_compute; reflexivity|].
  split; [apply H2; vm_compute; auto|]. intros [_ E]%H2. vm_compute in E. discriminate E.
Defined.

Lemma no_lost_wakeup_witness :
  pstate (after handing_over) 1 = SLEEPING ∧ ∃ c r j, cpu (after handing_over) c = Runs r ∧ pcs (after handing_over) r = RelWake 7 j ∧ (j ≤ 1)%nat.
Proof.
  assert (pstate (after handing_over) 1 = SLEEPING) as E by (vm_compute; reflexivity). split; [exact E|].
  destruct (no_lost_wakeup (after handing_over) 1) as (l & El & [(h & Hh & Hl)|Hw]).
  - apply after_reachable. vm_compute. reflexivity.
  - exact E.
  - exists 0%nat, 0%nat, 1%nat. vm_compute. auto.
  - vm_compute in El. injection El as <-. exact Hw.
Defined.

