(* ===== verification/Spin.v ===== *)
(** Spin locks (kernel/spinlock.c): [acquire], [release], [holding] and the
    nesting of [push_off] and [pop_off], executed by several CPUs statement by
    statement.  The invariant shows that a lock excludes all other CPUs, that
    [holding] is exact and that interrupts stay off while a lock is held. *)

From S2P Require Import Prelude.

(** * Data *)

(** The fields of [struct cpu] that [push_off] and [pop_off] use, with the
    interrupt flag of the hart. *)
Record cpu_off := CpuOff {
  intr : bool;
  noff : Z;
  intena : bool }.

(** [lk_cpu] is [lk->cpu], [None] for the null pointer. *)
Record spinlock := SpinLock {
  locked : Z;
  lk_cpu : option nat }.

Definition initlock : spinlock := SpinLock 0 None.

(** Where a CPU is: the statement it executes next.  Outside of [acquire] and
    [release] it runs the code of its callers. *)
Inductive pc : Set :=
  | Out
  | AcqPush (l : nat)            (* acquire: push_off() *)
  | AcqCheck (l : nat)           (* if(holding(lk)) panic("acquire") *)
  | AcqSwap (l : nat)            (* while(__sync_lock_test_and_set(&lk->locked, 1) != 0) *)
  | AcqOwner (l : nat)           (* lk->cpu = mycpu() *)
  | RelCheck (l : nat)           (* release: if(!holding(lk)) panic("release") *)
  | RelOwner (l : nat)           (* lk->cpu = 0 *)
  | RelSwap (l : nat)            (* __sync_lock_release(&lk->locked) *)
  | RelPop.                      (* pop_off() *)

#[export] Instance pc_eq_dec : EqDecision pc.
Proof. solve_decision. Defined.

(** [owned] are the locks a CPU has acquired and not begun to release, and
    [extra] counts the calls of [push_off] of its code that are not inside
    [acquire]. *)
Record spst := SpSt {
  locks : nat → spinlock;
  cpus : nat → cpu_off;
  at_pc : nat → pc;
  owned : nat → gset nat;
  extra : nat → nat }.

(** * Interrupts *)

Definition push_off (c : cpu_off) : cpu_off :=
  let old := intr c in
  CpuOff false (noff c + 1) (if noff c =? 0 then old else intena c).

Definition pop_off (c : cpu_off) : outcome cpu_off :=
  if intr c then Panic "pop_off - interruptible"
  else if noff c <? 1 then Panic "pop_off"
  else
    let noff' := noff c - 1 in
    Ok (CpuOff (if (noff' =? 0) && intena c then true else intr c) noff' (intena c)).

(** * Locks *)

Definition holding (c : nat) (lk : spinlock) : bool := negb (locked lk =? 0) && bool_decide (lk_cpu lk = Some c).

(** What the next step of a CPU does; a CPU that finds the lock taken stays
    where it is. *)
Definition spin_step (c : nat) (s : spst) : outcome spst :=
  let go p s := SpSt (locks s) (cpus s) (upd (at_pc s) c p) (owned s) (extra s) in
  let set_lock l x s := SpSt (upd (locks s) l x) (cpus s) (at_pc s) (owned s) (extra s) in
  let set_cpu x s := SpSt (locks s) (upd (cpus s) c x) (at_pc s) (owned s) (extra s) in
  let set_owned x s := SpSt (locks s) (cpus s) (at_pc s) (upd (owned s) c x) (extra s) in
  match at_pc s c with
  | Out => Ok s
  | AcqPush l => Ok (go (AcqCheck l) (set_cpu (push_off (cpus s c)) s))
  | AcqCheck l => if holding c (locks s l) then Panic "acquire" else Ok (go (AcqSwap l) s)
  | AcqSwap l =>
      if locked (locks s l) =? 0 then Ok (go (AcqOwner l) (set_lock l (SpinLock 1 (lk_cpu (locks s l))) s))
      else Ok s
  | AcqOwner l =>
      Ok (go Out (set_owned ({[l]} ∪ owned s c) (set_lock l (SpinLock (locked (locks s l)) (Some c)) s)))
  | RelCheck l => if holding c (locks s l) then Ok (go (RelOwner l) s) else Panic "release"
  | RelOwner l =>
      Ok (go (RelSwap l) (set_owned (owned s c ∖ {[l]}) (set_lock l (SpinLock (locked (locks s l)) None) s)))
  | RelSwap l => Ok (go RelPop (set_lock l (SpinLock 0 (lk_cpu (locks s l))) s))
  | RelPop =>
      match pop_off (cpus s c) with
      | Ok x => Ok (go Out (set_cpu x s))
      | Panic msg => Panic msg
      | UB => UB
      | NoFuel => NoFuel
      end
  end.

(** The system.  Its code calls [acquire] for a lock the CPU does not have,
    [release] for one it has, [push_off] at any time, [pop_off] to undo one of
    its own, and changes the interrupt flag only outside all of these. *)
Inductive spstep : spst → spst → Prop :=
  | sp_step c s s' : spin_step c s = Ok s' → spstep s s'
  | sp_acquire c l s :
      at_pc s c = Out → l ∉ owned s c →
      spstep s (SpSt (locks s) (cpus s) (upd (at_pc s) c (AcqPush l)) (owned s) (extra s))
  | sp_release c l s :
      at_pc s c = Out → l ∈ owned s c →
      spstep s (SpSt (locks s) (cpus s) (upd (at_pc s) c (RelCheck l)) (owned s) (extra s))
  | sp_push c s :
      at_pc s c = Out →
      spstep s (SpSt (locks s) (upd (cpus s) c (push_off (cpus s c))) (at_pc s) (owned s) (upd (extra s) c (S (extra s c))))
  | sp_pop c n x s :
      at_pc s c = Out → extra s c = S n → pop_off (cpus s c) = Ok x →
      spstep s (SpSt (locks s) (upd (cpus s) c x) (at_pc s) (owned s) (upd (extra s) c n))
  | sp_intr c b s :
      at_pc s c = Out → noff (cpus s c) = 0 →
      spstep s (SpSt (locks s) (upd (cpus s) c (CpuOff b 0 (intena (cpus s c)))) (at_pc s) (owned s) (extra s)).

(** Power on: all locks free, every CPU outside with interrupts off. *)
Definition sp_init : spst :=
  SpSt (λ _, initlock) (λ _, CpuOff false 0 false) (λ _, Out) (λ _, ∅) (λ _, 0%nat).

(** * Invariant *)

(** CPU [c] has set the word of lock [l]. *)
Definition has (s : spst) (c l : nat) : Prop := l ∈ owned s c ∨ at_pc s c = AcqOwner l ∨ at_pc s c = RelSwap l.

(** What the position of a CPU says about a lock. *)
Definition pc_owned (p : pc) (o : gset nat) : Prop :=
  match p with
  | AcqPush l | AcqCheck l | AcqSwap l | AcqOwner l | RelSwap l => l ∉ o
  | RelCheck l | RelOwner l => l ∈ o
  | Out | RelPop => True
  end.

(** The [push_off] of a call that is under way. *)
Definition pending (p : pc) : Z :=
  match p with
  | AcqCheck _ | AcqSwap _ | AcqOwner _ | RelSwap _ | RelPop => 1
  | _ => 0
  end.

Record spin_ok (s : spst) : Prop := {
  so_word : ∀ c l, has s c l → locked (locks s l) ≠ 0;
  so_one : ∀ c d l, has s c l → has s d l → c = d;
  so_cpu : ∀ c l, l ∈ owned s c ↔ lk_cpu (locks s l) = Some c;
  so_pc : ∀ c, pc_owned (at_pc s c) (owned s c);
  so_noff : ∀ c, noff (cpus s c) = Z.of_nat (size (owned s c)) + Z.of_nat (extra s c) + pending (at_pc s c);
  so_intr : ∀ c, 0 < noff (cpus s c) → intr (cpus s c) = false }.

Lemma spin_ok_init : spin_ok sp_init.
Proof.
  split; cbn; try done.
  - by intros c l [?|[?|?]].
  - by intros c d l [?|[?|?]].
Qed.

Section Keeps.

Context (s : spst) (c : nat).

Hypothesis H : spin_ok s.

(** [holding] is exact. *)
Lemma holding_owned l : holding c (locks s l) = bool_decide (l ∈ owned s c).
Proof.
  unfold holding. rewrite (bool_decide_ext _ _ (so_cpu _ H c l)). destruct (decide (lk_cpu (locks s l) = Some c)) as [E|E].
  - rewrite !bool_decide_true by done. assert (locked (locks s l) ≠ 0) as Hw.
    { apply (so_word _ H c). left. by apply (so_cpu _ H). }
    apply Z.eqb_neq in Hw. by rewrite Hw.
  - rewrite !bool_decide_false by done. by rewrite andb_false_r.
Qed.

(** A step of CPU [c] to position [p]: the words it has set, it had set
    before or were clear. *)
Lemma spin_ok_step s' p o x n :
  (∀ d, at_pc s' d = upd (at_pc s) c p d) → (∀ d, owned s' d = upd (owned s) c o d) →
  (∀ d, cpus s' d = upd (cpus s) c x d) → (∀ d, extra s' d = upd (extra s) c n d) →
  (∀ d l, has s' d l → (has s d l ∨ (d = c ∧ locked (locks s l) = 0)) ∧ locked (locks s' l) ≠ 0) →
  (∀ d l, l ∈ owned s' d ↔ lk_cpu (locks s' l) = Some d) →
  pc_owned p o → noff x = Z.of_nat (size o) + Z.of_nat n + pending p → (0 < noff x → intr x = false) →
  spin_ok s'.
Proof.
  intros Epc Eo Ec Ee Hhas Hcpu Hpc Hn Hi. split.
  - intros d l Hd. by eapply Hhas.
  - intros d e l Hd He. destruct (Hhas d l Hd) as [[Hd'|[-> Ed]] _], (Hhas e l He) as [[He'|[-> E']] _]; [|exfalso|exfalso|done].
    + by eapply (so_one _ H).
    + by apply (so_word _ H d l).
    + by apply (so_word _ H e l).
  - done.
  - intros d. rewrite Epc, Eo. destruct (decide (d = c)) as [->|]; rewrite_upd; [done|apply (so_pc _ H)].
  - intros d. rewrite Epc, Eo, Ec, Ee. destruct (decide (d = c)) as [->|]; rewrite_upd; [done|apply (so_noff _ H)].
  - intros d. rewrite Ec. destruct (decide (d = c)) as [->|]; rewrite_upd; [done|apply (so_intr _ H)].
Qed.

(** The same for a step that leaves the locks alone. *)
Lemma spin_ok_local s' p x n :
  locks s' = locks s → owned s' = owned s →
  (∀ d, at_pc s' d = upd (at_pc s) c p d) →
  (∀ d, cpus s' d = upd (cpus s) c x d) → (∀ d, extra s' d = upd (extra s) c n d) →
  (∀ l, p = AcqOwner l ∨ p = RelSwap l → at_pc s c = p) → pc_owned p (owned s c) →
  noff x = Z.of_nat (size (owned s c)) + Z.of_nat n + pending p → (0 < noff x → intr x = false) →
  spin_ok s'.
Proof.
  intros El Eo Epc Ec Ee Hp Hpc Hn Hi. apply (spin_ok_step s' p (owned s c) x n); try done.
  - intros d. rewrite Eo. unfold upd. by case_decide; subst.
  - intros d l Hd. rewrite El. assert (has s d l) as Hh; [|split; [by left|by apply (so_word _ H d)]].
    unfold has in *. rewrite Eo, Epc in Hd. destruct (decide (d = c)) as [->|]; rewrite_upd; [|done].
    destruct Hd as [?|Hd]; [by left|right]. by rewrite (Hp l).
  - intros d l. rewrite El, Eo. apply (so_cpu _ H).
Qed.

(** Functions updated with the value they have. *)
Lemma upd_same {A} (f : nat → A) i j : f j = upd f i (f i) j.
Proof. unfold upd. by case_decide; subst. Qed.

Lemma noff_at p : at_pc s c = p → noff (cpus s c) = Z.of_nat (size (owned s c)) + Z.of_nat (extra s c) + pending p.
Proof. intros <-. apply (so_noff _ H). Qed.

(** [push_off] and [pop_off] keep the count and the flag. *)
Lemma push_off_ok : noff (push_off (cpus s c)) = noff (cpus s c) + 1 ∧ intr (push_off (cpus s c)) = false.
Proof. done. Qed.

Lemma pop_off_ok :
  0 < noff (cpus s c) → ∃ x, pop_off (cpus s c) = Ok x ∧ noff x = noff (cpus s c) - 1 ∧ (0 < noff x → intr x = false).
Proof.
  intros Hn. unfold pop_off. rewrite (so_intr _ H c Hn). destruct (noff (cpus s c) <? 1) eqn:E; [lia|]. eexists. split; [done|]. cbn.
  split; [done|]. intros ?. destruct (noff (cpus s c) - 1 =? 0) eqn:E'; [lia|done].
Qed.

(** No step of a CPU panics, and each keeps the invariant. *)
Definition steps_ok (r : outcome spst) : Prop := ∃ s', r = Ok s' ∧ spin_ok s'.

Lemma swap_ok l :
  at_pc s c = AcqSwap l → locked (locks s l) = 0 →
  spin_ok (SpSt (upd (locks s) l (SpinLock 1 (lk_cpu (locks s l)))) (cpus s) (upd (at_pc s) c (AcqOwner l)) (owned s) (extra s)).
Proof.
  intros Ep El. pose proof (so_pc _ H c) as Hpc. rewrite Ep in Hpc.
  apply (spin_ok_step _ (AcqOwner l) (owned s c) (cpus s c) (extra s c)); cbn; try apply upd_same; try done.
  - intros d k Hd. destruct (decide (k = l)) as [->|Hk].
    + rewrite upd_eq. split; [|done]. destruct (decide (d = c)) as [->|]; [by right|left].
      unfold has in *. cbn in Hd. by rewrite upd_ne in Hd by done.
    + rewrite upd_ne by done. assert (has s d k) as Hh; [|split; [by left|by apply (so_word _ H d)]].
      unfold has in *. cbn in Hd. destruct (decide (d = c)) as [->|]; rewrite_upd; naive_solver.
  - intros d k. rewrite (so_cpu _ H). destruct (decide (k = l)) as [->|]; by rewrite_upd.
  - by rewrite (noff_at _ Ep).
  - apply (so_intr _ H).
Qed.

Lemma owner_ok l :
  at_pc s c = AcqOwner l →
  spin_ok (SpSt (upd (locks s) l (SpinLock (locked (locks s l)) (Some c))) (cpus s) (upd (at_pc s) c Out)
    (upd (owned s) c ({[l]} ∪ owned s c)) (extra s)).
Proof.
  intros Ep. pose proof (so_pc _ H c) as Hpc. rewrite Ep in Hpc. simpl in Hpc.
  assert (has s c l) as Hcl by (right; by left).
  apply (spin_ok_step _ Out ({[l]} ∪ owned s c) (cpus s c) (extra s c)); cbn; try apply upd_same; try done.
  - intros d k Hd. assert (has s d k) as Hh.
    { unfold has in *. cbn in Hd. destruct (decide (d = c)) as [->|]; rewrite_upd; [|done].
      destruct Hd as [[->%elem_of_singleton|?]%elem_of_union|[?|?]]; [by right; left|by left|done|done]. }
    split; [by left|]. pose proof (so_word _ H d k Hh). destruct (decide (k = l)) as [->|]; by rewrite_upd.
  - intros d k. destruct (decide (k = l)) as [->|Hk], (decide (d = c)) as [->|Hd]; rewrite_upd; simpl.
    + split; [done|]. intros _. by apply elem_of_union_l, elem_of_singleton.
    + split; [|congruence]. intros Hd'. destruct Hd. apply (so_one _ H d c l); [by left|done].
    + rewrite elem_of_union, elem_of_singleton, (so_cpu _ H). naive_solver.
    + apply (so_cpu _ H).
  - rewrite size_union by (by apply disjoint_singleton_l). rewrite size_singleton, (noff_at _ Ep). simpl. lia.
  - apply (so_intr _ H).
Qed.

Lemma disown_ok l :
  at_pc s c = RelOwner l →
  spin_ok (SpSt (upd (locks s) l (SpinLock (locked (locks s l)) None)) (cpus s) (upd (at_pc s) c (RelSwap l))
    (upd (owned s) c (owned s c ∖ {[l]})) (extra s)).
Proof.
  intros Ep. pose proof (so_pc _ H c) as Hpc. rewrite Ep in Hpc. simpl in Hpc.
  apply (spin_ok_step _ (RelSwap l) (owned s c ∖ {[l]}) (cpus s c) (extra s c)); cbn; try apply upd_same; try done.
  - intros d k Hd. assert (has s d k) as Hh.
    { unfold has in *. cbn in Hd. destruct (decide (d = c)) as [->|]; rewrite_upd; [|done].
      destruct Hd as [[? _]%elem_of_difference|[?|?]]; [by left|done|]. left. congruence. }
    split; [by left|]. pose proof (so_word _ H d k Hh). destruct (decide (k = l)) as [->|]; by rewrite_upd.
  - intros d k. destruct (decide (k = l)) as [->|Hk], (decide (d = c)) as [->|Hd]; rewrite_upd; simpl.
    + rewrite elem_of_difference, elem_of_singleton. naive_solver.
    + split; [|done]. intros Hd'. destruct Hd. by apply (so_one _ H d c l); left.
    + rewrite elem_of_difference, elem_of_singleton, (so_cpu _ H). naive_solver.
    + apply (so_cpu _ H).
  - apply not_elem_of_difference. right. by apply elem_of_singleton.
  - rewrite size_difference by (by apply singleton_subseteq_l). rewrite size_singleton, (noff_at _ Ep). simpl.
    assert (size (owned s c) ≠ 0%nat); [|lia]. intros E%size_empty_inv. set_solver.
  - apply (so_intr _ H).
Qed.

Lemma unset_ok l :
  at_pc s c = RelSwap l →
  spin_ok (SpSt (upd (locks s) l (SpinLock 0 (lk_cpu (locks s l)))) (cpus s) (upd (at_pc s) c RelPop) (owned s) (extra s)).
Proof.
  intros Ep. pose proof (so_pc _ H c) as Hpc. rewrite Ep in Hpc. simpl in Hpc.
  apply (spin_ok_step _ RelPop (owned s c) (cpus s c) (extra s c)); cbn; try apply upd_same; try done.
  - intros d k Hd. assert (has s d k ∧ (d = c → k ∈ owned s c)) as [Hh Hdc].
    { unfold has in *. cbn in Hd. destruct (decide (d = c)) as [->|]; rewrite_upd; [|naive_solver]. destruct Hd as [?|[?|?]]; naive_solver. }
    split; [by left|]. rewrite upd_ne; [by apply (so_word _ H d)|]. intros ->.
    assert (d = c) as -> by (apply (so_one _ H d c l); [done|right; by right]). naive_solver.
  - intros d k. rewrite (so_cpu _ H). destruct (decide (k = l)) as [->|]; by rewrite_upd.
  - by rewrite (noff_at _ Ep).
  - apply (so_intr _ H).
Qed.

Lemma step_ok : steps_ok (spin_step c s).
Proof.
  unfold steps_ok, spin_step. pose proof (so_pc _ H c) as Hpc. pose proof (noff_at _ eq_refl) as Hn.
  pose proof (so_intr _ H c) as Hi. destruct (at_pc s c) as [|l|l|l|l|l|l|l|] eqn:Ep; simpl in *.
  - eauto.
  - eexists. split; [done|]. apply (spin_ok_local _ (AcqCheck l) (push_off (cpus s c)) (extra s c)); cbn; try apply upd_same; try done; [|lia].
    by intros k [?|?].
  - rewrite holding_owned, bool_decide_false by done. eexists. split; [done|].
    apply (spin_ok_local _ (AcqSwap l) (cpus s c) (extra s c)); cbn; try apply upd_same; try done. by intros k [?|?].
  - destruct (locked (locks s l) =? 0) eqn:El; [|eauto]. eexists. split; [done|]. apply swap_ok; [done|lia].
  - eexists. split; [done|]. by apply owner_ok.
  - rewrite holding_owned, bool_decide_true by done. eexists. split; [done|].
    apply (spin_ok_local _ (RelOwner l) (cpus s c) (extra s c)); cbn; try apply upd_same; try done. by intros k [?|?].
  - eexists. split; [done|]. by apply disown_ok.
  - eexists. split; [done|]. by apply unset_ok.
  - destruct pop_off_ok as (x & -> & Ex & Hx); [lia|]. eexists. split; [done|].
    apply (spin_ok_local _ Out x (extra s c)); cbn; try apply upd_same; try done; [|lia]. by intros k [?|?].
Qed.

End Keeps.

Lemma spin_ok_spstep s s' : spstep s s' → spin_ok s → spin_ok s'.
Proof.
  intros [c ? ? E|c l ? Ep Hl|c l ? Ep Hl|c ? Ep|c n x ? Ep En Ex|c b ? Ep En] H.
  - destruct (step_ok _ c H) as (? & ? & ?). congruence.
  - apply (spin_ok_local _ c H _ (AcqPush l) (cpus s0 c) (extra s0 c)); cbn; try apply upd_same; try done; [by intros k [?|?]| |apply (so_intr _ H)].
    by rewrite (noff_at _ c H _ Ep).
  - apply (spin_ok_local _ c H _ (RelCheck l) (cpus s0 c) (extra s0 c)); cbn; try apply upd_same; try done; [by intros k [?|?]| |apply (so_intr _ H)].
    by rewrite (noff_at _ c H _ Ep).
  - apply (spin_ok_local _ c H _ (at_pc s0 c) (push_off (cpus s0 c)) (S (extra s0 c))); cbn; try apply upd_same; try done; [apply (so_pc _ H)|].
    rewrite (noff_at _ c H _ eq_refl). lia.
  - pose proof (noff_at _ c H _ Ep) as Hn. rewrite En in Hn. simpl in Hn.
    destruct (pop_off_ok _ c H) as (y & Ey & ? & ?); [lia|]. rewrite Ex in Ey. simplify_eq.
    apply (spin_ok_local _ c H _ (at_pc s0 c) y n); cbn; try apply upd_same; try done; [apply (so_pc _ H)|]. rewrite Ep. simpl. lia.
  - apply (spin_ok_local _ c H _ (at_pc s0 c) (CpuOff b 0 (intena (cpus s0 c))) (extra s0 c)); cbn; try apply upd_same; try done; [apply (so_pc _ H)|].
    rewrite <- En. by apply noff_at.
Qed.

Lemma spin_ok_reachable s : rtc spstep sp_init s → spin_ok s.
Proof.
  intros Hr. assert (∀ s1 s2, rtc spstep s1 s2 → spin_ok s1 → spin_ok s2) as Hpres.
  { induction 1; [done|]. eauto using spin_ok_spstep. }
  eapply Hpres; [done|apply spin_ok_init].
Qed.

(** * Theorems *)

(** C22: spin locks exclude.  For every interleaving of the CPUs' statements,
    no two CPUs have the same lock, [holding] answers exactly whether this CPU
    has it, a CPU that has a lock runs with interrupts off, and neither
    [acquire], [release] nor [pop_off] panics. *)
Theorem spinlock_exclusion s :
  rtc spstep sp_init s →
  (∀ c d l, l ∈ owned s c → l ∈ owned s d → c = d) ∧
  (∀ c l, holding c (locks s l) = bool_decide (l ∈ owned s c)) ∧
  (∀ c, owned s c ≠ ∅ → intr (cpus s c) = false) ∧
  (∀ c, ∃ s', spin_step c s = Ok s').
Proof.
  intros H%spin_ok_reachable. split_and!.
  - intros c d l Hc Hd. by apply (so_one _ H c d l); left.
  - intros c l. by apply holding_owned.
  - intros c Hc. apply (so_intr _ H). rewrite (so_noff _ H c).
    assert (size (owned s c) ≠ 0%nat) by (intros E; by apply size_empty_inv, leibniz_equiv in E).
    destruct (at_pc s c); simpl; lia.
  - intros c. destruct (step_ok s c H) as (s' & ? & _). eauto.
Qed.

(** Calls of [push_off] ([true]) and [pop_off] in which every [push_off] is
    undone. *)
Inductive balanced : list bool → Prop :=
  | bal_nil : balanced []
  | bal_nest w v : balanced w → balanced v → balanced (true :: w ++ false :: v).

Fixpoint run_off (w : list bool) (c : cpu_off) : outcome cpu_off :=
  match w with
  | [] => Ok c
  | true :: w => run_off w (push_off c)
  | false :: w => match pop_off c with Ok c' => run_off w c' | r => r end
  end.

Lemma run_off_app w v c :
  run_off (w ++ v) c = match run_off w c with Ok c' => run_off v c' | r => r end.
Proof. revert c. induction w as [|[] w IH]; intros c; simpl; [done|apply IH|]. by destruct (pop_off c). Qed.

Lemma pop_push c : 0 < noff c → intr c = false → pop_off (push_off c) = Ok c.
Proof.
  destruct c as [i n e]. simpl. intros Hn ->. unfold pop_off, push_off. simpl.
  destruct (n + 1 <? 1) eqn:E1; [lia|]. destruct (n =? 0) eqn:E2; [lia|]. simpl.
  destruct (n + 1 - 1 =? 0) eqn:E3; [lia|]. simpl. do 2 f_equal. lia.
Qed.

(** Inside an outer [push_off] nothing changes but what pairs up. *)
Lemma run_off_inside w c : balanced w → 0 < noff c → intr c = false → run_off w c = Ok c.
Proof.
  intros Hw. revert c. induction Hw as [|w v _ IHw _ IHv]; intros c Hn Hi; [done|]. simpl.
  rewrite run_off_app, IHw by (simpl; lia || done). simpl. rewrite pop_push by done. by apply IHv.
Qed.

(** [push_off] and [pop_off] are matched.  Any properly nested sequence of
    them, started outside of all critical sections, ends with the interrupt
    flag and the depth it started with, whatever the flag was. *)
Theorem push_pop_restores w b e :
  balanced w → ∃ e', run_off w (CpuOff b 0 e) = Ok (CpuOff b 0 e').
Proof.
  intros Hw. revert e. induction Hw as [|w v Hw _ _ IHv]; intros e; [by eexists|]. simpl.
  rewrite run_off_app, run_off_inside by done. unfold pop_off, push_off. simpl. destruct b; apply IHv.
Qed.

(** * Examples *)

(** A run of the system: a CPU calls [acquire] or takes its next step. *)
Inductive spmove : Set :=
  | Calls (c l : nat)
  | Goes (c : nat).

Definition sp_make (s : spst) (m : spmove) : spst :=
  match m with
  | Calls c l =>
      if decide (at_pc s c = Out ∧ l ∉ owned s c)
      then SpSt (locks s) (cpus s) (upd (at_pc s) c (AcqPush l)) (owned s) (extra s) else s
  | Goes c => match spin_step c s with Ok s' => s' | _ => s end
  end.

Lemma sp_runs ms s : rtc spstep s (foldl sp_make s ms).
Proof.
  revert s. induction ms as [|m ms IH]; intros s; simpl; [done|]. etrans; [|apply IH].
  destruct m; simpl; [case_decide as E; [|done]; destruct E; by apply rtc_once, sp_acquire|].
  destruct (spin_step c s) eqn:E; try done. by eapply rtc_once, sp_step.
Qed.

(** CPU 0 has lock 5, and CPU 1 spins for it. *)
Definition sp_contended : spst :=
  foldl sp_make sp_init [Calls 0 5; Goes 0; Goes 0; Goes 0; Goes 0; Calls 1 5; Goes 1; Goes 1; Goes 1]%nat.

Lemma spinlock_exclusion_witness :
  at_pc sp_contended 1 = AcqSwap 5 ∧ holding 0 (locks sp_contended 5) = true ∧ 5%nat ∉ owned sp_contended 1.
Proof.
  destruct (spinlock_exclusion sp_contended) as (H1 & H2 & _); [apply sp_runs|].
  split; [vm_compute; reflexivity|]. split; [rewrite H2; vm_compute; reflexivity|].
  intros H. pose proof (H1 0%nat 1%nat 5%nat) as E. discriminate E; [|exact H].
  apply (bool_decide_eq_true_1 (5%nat ∈ owned sp_contended 0)). rewrite <- H2. vm_compute. reflexivity.
Defined.
