(* ===== verification/Proc.v ===== *)
(** The process table (kernel/proc.c): creation, exit, waiting and killing of
    processes, over the virtual memory of Vm.v.

    The page allocator, [kmalloc] and the calls on open files and inodes are
    parameters of the section: they work on states of their own, and the table
    does not depend on what they do there. *)

From S2P Require Import Prelude.
From S2P Require Import Sched.
From S2P Require Import Cstring.
From S2P Require Import Vm.
From S2P Require Import Sysproc.

(** * Data *)

Definition NOFILE : Z := 16.

Definition sizeof_proc : Z := 400.

Definition sizeof_trapframe : Z := 288.

(** Offsets in [struct proc] and [struct trapframe]. *)
Definition off_xstate : Z := 44.

Definition off_name : Z := 344.

Definition off_a0 : Z := 112.

(** [struct proc].  Pointers to processes are places in the table, [None] is
    the null pointer.  [xstate] and [name] are bytes of memory, at their
    addresses. *)
Record proc := Proc {
  p_lock : bool;
  p_state : procstate;
  p_chan : Z;
  p_killed : Z;
  p_pid : Z;
  p_parent : option nat;
  p_kstack : Z;
  p_mem : Z;
  p_pt : Z;
  p_trapframe : Z;
  p_context : list Z;
  p_ofile : list Z;
  p_cwd : Z;
  p_win : window }.

(** The table with its locks, the running process, memory, the pages, and the
    files and inodes. *)
Record procst (A F : Type) := ProcSt {
  procs : list proc;
  proc_base : Z;
  nextpid : Z;
  pid_lock : bool;
  wait_lock : bool;
  initproc : option nat;
  myproc : nat;
  pram : bmem;
  ppages : A;
  pfiles : F }.

Arguments ProcSt {A F}.

Arguments procs {A F} _.

Arguments proc_base {A F} _.

Arguments nextpid {A F} _.

Arguments pid_lock {A F} _.

Arguments wait_lock {A F} _.

Arguments initproc {A F} _.

Arguments myproc {A F} _.

Arguments pram {A F} _.

Arguments ppages {A F} _.

Arguments pfiles {A F} _.

(** ** Fields *)

Definition set_lock (b : bool) (p : proc) : proc :=
  Proc b (p_state p) (p_chan p) (p_killed p) (p_pid p) (p_parent p) (p_kstack p) (p_mem p) (p_pt p) (p_trapframe p) (p_context p) (p_ofile p) (p_cwd p) (p_win p).

Definition set_state (x : procstate) (p : proc) : proc :=
  Proc (p_lock p) x (p_chan p) (p_killed p) (p_pid p) (p_parent p) (p_kstack p) (p_mem p) (p_pt p) (p_trapframe p) (p_context p) (p_ofile p) (p_cwd p) (p_win p).

Definition set_chan (x : Z) (p : proc) : proc :=
  Proc (p_lock p) (p_state p) x (p_killed p) (p_pid p) (p_parent p) (p_kstack p) (p_mem p) (p_pt p) (p_trapframe p) (p_context p) (p_ofile p) (p_cwd p) (p_win p).

Definition set_killed (x : Z) (p : proc) : proc :=
  Proc (p_lock p) (p_state p) (p_chan p) x (p_pid p) (p_parent p) (p_kstack p) (p_mem p) (p_pt p) (p_trapframe p) (p_context p) (p_ofile p) (p_cwd p) (p_win p).

Definition set_pid (x : Z) (p : proc) : proc :=
  Proc (p_lock p) (p_state p) (p_chan p) (p_killed p) x (p_parent p) (p_kstack p) (p_mem p) (p_pt p) (p_trapframe p) (p_context p) (p_ofile p) (p_cwd p) (p_win p).

Definition set_parent (x : option nat) (p : proc) : proc :=
  Proc (p_lock p) (p_state p) (p_chan p) (p_killed p) (p_pid p) x (p_kstack p) (p_mem p) (p_pt p) (p_trapframe p) (p_context p) (p_ofile p) (p_cwd p) (p_win p).

Definition set_kstack (x : Z) (p : proc) : proc :=
  Proc (p_lock p) (p_state p) (p_chan p) (p_killed p) (p_pid p) (p_parent p) x (p_mem p) (p_pt p) (p_trapframe p) (p_context p) (p_ofile p) (p_cwd p) (p_win p).

Definition set_mem (x : Z) (p : proc) : proc :=
  Proc (p_lock p) (p_state p) (p_chan p) (p_killed p) (p_pid p) (p_parent p) (p_kstack p) x (p_pt p) (p_trapframe p) (p_context p) (p_ofile p) (p_cwd p) (p_win p).

Definition set_pt (x : Z) (p : proc) : proc :=
  Proc (p_lock p) (p_state p) (p_chan p) (p_killed p) (p_pid p) (p_parent p) (p_kstack p) (p_mem p) x (p_trapframe p) (p_context p) (p_ofile p) (p_cwd p) (p_win p).

Definition set_trapframe (x : Z) (p : proc) : proc :=
  Proc (p_lock p) (p_state p) (p_chan p) (p_killed p) (p_pid p) (p_parent p) (p_kstack p) (p_mem p) (p_pt p) x (p_context p) (p_ofile p) (p_cwd p) (p_win p).

Definition set_context (x : list Z) (p : proc) : proc :=
  Proc (p_lock p) (p_state p) (p_chan p) (p_killed p) (p_pid p) (p_parent p) (p_kstack p) (p_mem p) (p_pt p) (p_trapframe p) x (p_ofile p) (p_cwd p) (p_win p).

Definition set_ofile (x : list Z) (p : proc) : proc :=
  Proc (p_lock p) (p_state p) (p_chan p) (p_killed p) (p_pid p) (p_parent p) (p_kstack p) (p_mem p) (p_pt p) (p_trapframe p) (p_context p) x (p_cwd p) (p_win p).

Definition set_cwd (x : Z) (p : proc) : proc :=
  Proc (p_lock p) (p_state p) (p_chan p) (p_killed p) (p_pid p) (p_parent p) (p_kstack p) (p_mem p) (p_pt p) (p_trapframe p) (p_context p) (p_ofile p) x (p_win p).

Definition set_pwin (x : window) (p : proc) : proc :=
  Proc (p_lock p) (p_state p) (p_chan p) (p_killed p) (p_pid p) (p_parent p) (p_kstack p) (p_mem p) (p_pt p) (p_trapframe p) (p_context p) (p_ofile p) (p_cwd p) x.

(** [p->ukmem = u; p->ukmem_inited = i] *)
Definition set_ukmem (u : Z) (i : bool) (w : window) : window :=
  Window (kheapwin_base w) (kheapwin_pages w) (uheapwin_base w) u i.

Section Proc.

Context {A F : Type}.

Definition set_procs (l : list proc) (s : procst A F) : procst A F :=
  ProcSt l (proc_base s) (nextpid s) (pid_lock s) (wait_lock s) (initproc s) (myproc s) (pram s) (ppages s) (pfiles s).

Definition set_proc_base (x : Z) (s : procst A F) : procst A F :=
  ProcSt (procs s) x (nextpid s) (pid_lock s) (wait_lock s) (initproc s) (myproc s) (pram s) (ppages s) (pfiles s).

Definition set_nextpid (x : Z) (s : procst A F) : procst A F :=
  ProcSt (procs s) (proc_base s) x (pid_lock s) (wait_lock s) (initproc s) (myproc s) (pram s) (ppages s) (pfiles s).

Definition set_pid_lock (x : bool) (s : procst A F) : procst A F :=
  ProcSt (procs s) (proc_base s) (nextpid s) x (wait_lock s) (initproc s) (myproc s) (pram s) (ppages s) (pfiles s).

Definition set_wait_lock (x : bool) (s : procst A F) : procst A F :=
  ProcSt (procs s) (proc_base s) (nextpid s) (pid_lock s) x (initproc s) (myproc s) (pram s) (ppages s) (pfiles s).

Definition set_initproc (x : option nat) (s : procst A F) : procst A F :=
  ProcSt (procs s) (proc_base s) (nextpid s) (pid_lock s) (wait_lock s) x (myproc s) (pram s) (ppages s) (pfiles s).

Definition set_myproc (x : nat) (s : procst A F) : procst A F :=
  ProcSt (procs s) (proc_base s) (nextpid s) (pid_lock s) (wait_lock s) (initproc s) x (pram s) (ppages s) (pfiles s).

(** Code over memory and pages; it reads the size and the page table of the
    running process and does not change them. *)
Definition on_pvm {B} (m : prog (vmst A) B) : prog (procst A F) B :=
  zoom (λ s, let p := procs s !! myproc s in VmSt (pram s) (ppages s) (default 0 (p_mem <$> p)) (default 0 (p_pt <$> p)))
    (λ v s, ProcSt (procs s) (proc_base s) (nextpid s) (pid_lock s) (wait_lock s) (initproc s) (myproc s) (ram v) (pages v) (pfiles s)) m.

Definition on_pram {B} (m : prog bmem B) : prog (procst A F) B := on_pvm (on_ram m).

Definition on_ppages {B} (m : prog A B) : prog (procst A F) B := on_pvm (on_pages m).

Definition on_pfiles {B} (m : prog F B) : prog (procst A F) B :=
  zoom pfiles (λ f s, ProcSt (procs s) (proc_base s) (nextpid s) (pid_lock s) (wait_lock s) (initproc s) (myproc s) (pram s) (ppages s) f) m.

Definition read_proc (i : nat) : prog (procst A F) proc := s ← get; of_option (procs s !! i).

Definition upd_proc (i : nat) (f : proc → proc) : prog (procst A F) unit :=
  p ← read_proc i; modify (λ s, set_procs (<[i := f p]> (procs s)) s).

(** The address of a process, and of the null pointer. *)
Definition proc_addr (s : procst A F) (o : option nat) : Z :=
  match o with
  | None => 0
  | Some i => proc_base s + sizeof_proc * Z.of_nat i
  end.

(** [for(p = proc; p < &proc[NPROC]; p++)] *)
Definition for_procs (body : nat → prog (procst A F) unit) : prog (procst A F) unit := for_range 0 NPROC (λ i, body (Z.to_nat i)).

(** ** Locks, as one CPU sees them *)

Definition acquire_proc (i : nat) : prog (procst A F) unit :=
  p ← read_proc i; if p_lock p then panic "acquire" else upd_proc i (set_lock true).

Definition release_proc (i : nat) : prog (procst A F) unit :=
  p ← read_proc i; if p_lock p then upd_proc i (set_lock false) else panic "release".

Definition acquire_wait : prog (procst A F) unit :=
  s ← get; if wait_lock s then panic "acquire" else modify (set_wait_lock true).

Definition release_wait : prog (procst A F) unit :=
  s ← get; if wait_lock s then modify (set_wait_lock false) else panic "release".

Definition acquire_pid : prog (procst A F) unit :=
  s ← get; if pid_lock s then panic "acquire" else modify (set_pid_lock true).

Definition release_pid : prog (procst A F) unit :=
  s ← get; if pid_lock s then modify (set_pid_lock false) else panic "release".

(** ** Operations *)

(** The programs of other components: pages, the slab allocator, open files,
    and the inodes of the current directories ([begin_op(); iput(ip);
    end_op()] is one of them). *)
Context (kalloc : prog A Z) (kfree : Z → prog A unit) (kmalloc : Z → prog A Z).

Context (filedup : Z → prog F Z) (fileclose : Z → prog F unit) (idup : Z → prog F Z) (iput_op : Z → prog F unit) (namei_root : prog F Z).

(** The addresses of [forkret] and of the trampoline. *)
Context (forkret trampoline : Z).

(** [junk] is what the memory [kmalloc] returns holds. *)
Definition procinit (junk : list proc) : prog (procst A F) unit :=
  base ← on_ppages (kmalloc (NPROC * sizeof_proc));
  _ ← modify (set_proc_base base);
  _ ← modify (set_pid_lock false);
  _ ← modify (set_wait_lock false);
  if base =? 0 then undefined
  else
    _ ← modify (set_procs junk);
    for_procs (λ i,
      _ ← upd_proc i (set_lock false);
      _ ← upd_proc i (set_state UNUSED);
      upd_proc i (set_kstack (KSTACK (Z.of_nat i)))).

Definition allocpid : prog (procst A F) Z :=
  _ ← acquire_pid;
  s ← get;
  let pid := nextpid s in
  if int_max <=? pid then undefined
  else
    _ ← modify (set_nextpid (pid + 1));
    _ ← release_pid;
    mret pid.

Definition freeproc (i : nat) : prog (procst A F) unit :=
  p ← read_proc i;
  _ ← (if p_trapframe p =? 0 then mret tt else on_ppages (kfree (p_trapframe p)));
  _ ← on_ppages (kfree (ukmem (p_win p)));
  _ ← upd_proc i (λ p, set_pwin (set_ukmem 0 false (p_win p)) p);
  _ ← upd_proc i (set_trapframe 0);
  _ ← (if p_pt p =? 0 then mret tt else on_pvm (proc_freepagetable kalloc kfree (p_pt p) (p_mem p)));
  _ ← upd_proc i (set_pt 0);
  _ ← upd_proc i (set_mem 0);
  _ ← upd_proc i (set_pid 0);
  _ ← upd_proc i (set_parent None);
  s ← get;
  _ ← on_pram (store8 (proc_addr s (Some i) + off_name) 0);
  _ ← upd_proc i (set_chan 0);
  _ ← upd_proc i (set_killed 0);
  _ ← on_pram (for_range 0 4 (λ k, store8 (proc_addr s (Some i) + off_xstate + k) 0));
  upd_proc i (set_state UNUSED).

(** The first UNUSED process, with its lock held. *)
Definition find_unused : prog (procst A F) (option nat) :=
  loop (S (Z.to_nat NPROC))
    (λ i,
       if decide (NPROC <= Z.of_nat i) then mret (inr None)
       else
         _ ← acquire_proc i;
         p ← read_proc i;
         if decide (p_state p = UNUSED) then mret (inr (Some i))
         else _ ← release_proc i; mret (inl (S i)))
    0%nat.

Definition allocproc : prog (procst A F) (option nat) :=
  o ← find_unused;
  match o with
  | None => mret None
  | Some i =>
      pid ← allocpid;
      _ ← upd_proc i (set_pid pid);
      _ ← upd_proc i (set_state USED);
      tf ← on_ppages kalloc;
      _ ← upd_proc i (set_trapframe tf);
      if tf =? 0 then _ ← freeproc i; _ ← release_proc i; mret None
      else
        pt ← on_pvm (proc_pagetable kalloc kfree trampoline tf);
        _ ← upd_proc i (set_pt pt);
        if pt =? 0 then _ ← freeproc i; _ ← release_proc i; mret None
        else
          p ← read_proc i;
          _ ← upd_proc i (set_context (forkret :: u64 (p_kstack p + PGSIZE) :: replicate 12 0));
          u ← on_ppages kalloc;
          _ ← upd_proc i (λ p, set_pwin (set_ukmem u (ukmem_inited (p_win p)) (p_win p)) p);
          _ ← on_pram (memset u 0 PGSIZE);
          mret (Some i)
  end.

Definition userinit : prog (procst A F) unit :=
  o ← allocproc;
  _ ← modify (set_initproc o);
  match o with
  | None => undefined
  | Some i =>
      ip ← on_pfiles namei_root;
      _ ← upd_proc i (set_cwd ip);
      _ ← upd_proc i (set_state RUNNABLE);
      release_proc i
  end.

(** [fork] up to the release of the child's lock: the child is complete but
    has no parent.  The result is the child with its pid. *)
Definition fork_create : prog (procst A F) (option (nat * Z)) :=
  s ← get;
  let i := myproc s in
  o ← allocproc;
  match o with
  | None => mret None
  | Some n =>
      p ← read_proc i;
      np ← read_proc n;
      r ← on_pvm (uvmcopy kalloc kfree (p_pt p) (p_pt np) (p_mem p));
      if r <? 0 then
        _ ← freeproc n;
        _ ← release_proc n;
        mret None
      else
        _ ← upd_proc n (set_mem (p_mem p));
        _ ← on_pram (memmove (p_trapframe np) (p_trapframe p) sizeof_trapframe);
        _ ← on_pram (store64 (p_trapframe np + off_a0) 0);
        _ ← for_range 0 NOFILE (λ fd,
              p ← read_proc i;
              f ← of_option (p_ofile p !! Z.to_nat fd);
              if f =? 0 then mret tt
              else
                g ← on_pfiles (filedup f);
                upd_proc n (λ np, set_ofile (<[Z.to_nat fd := g]> (p_ofile np)) np));
        p ← read_proc i;
        c ← on_pfiles (idup (p_cwd p));
        _ ← upd_proc n (set_cwd c);
        s ← get;
        _ ← on_pram (safestrcpy (proc_addr s (Some n) + off_name) (proc_addr s (Some i) + off_name) 16);
        np ← read_proc n;
        _ ← release_proc n;
        mret (Some (n, p_pid np))
  end.

(** [acquire(&wait_lock); np->parent = p; release(&wait_lock)] *)
Definition fork_adopt (n : nat) : prog (procst A F) unit :=
  _ ← acquire_wait;
  s ← get;
  _ ← upd_proc n (set_parent (Some (myproc s)));
  release_wait.

(** [acquire(&np->lock); np->state = RUNNABLE; release(&np->lock)] *)
Definition fork_ready (n : nat) : prog (procst A F) unit :=
  _ ← acquire_proc n;
  _ ← upd_proc n (set_state RUNNABLE);
  release_proc n.

Definition kfork : prog (procst A F) Z :=
  o ← fork_create;
  match o with
  | None => mret (-1)
  | Some (n, pid) =>
      _ ← fork_adopt n;
      _ ← fork_ready n;
      mret pid
  end.

(** [wakeup(chan)] *)
Definition wakeup (chan : Z) : prog (procst A F) unit :=
  for_procs (λ i,
    s ← get;
    if decide (i = myproc s) then mret tt
    else
      _ ← acquire_proc i;
      p ← read_proc i;
      _ ← (if decide (p_state p = SLEEPING ∧ p_chan p = chan) then upd_proc i (set_state RUNNABLE) else mret tt);
      release_proc i).

Definition reparent (i : nat) : prog (procst A F) unit :=
  for_procs (λ k,
    p ← read_proc k;
    s ← get;
    if decide (p_parent p = Some i) then
      _ ← upd_proc k (set_parent (initproc s));
      wakeup (proc_addr s (initproc s))
    else mret tt).

(** [sched], after which [scheduler] releases the lock of the process. *)
Definition sched_away (i : nat) : prog (procst A F) unit :=
  p ← read_proc i;
  if negb (p_lock p) then panic "sched p->lock"
  else if decide (p_state p = RUNNING) then panic "sched RUNNING"
  else release_proc i.

(** [exit] up to the release of the current directory. *)
Definition exit_files : prog (procst A F) unit :=
  s ← get;
  let i := myproc s in
  if decide (initproc s = Some i) then panic "init exiting"
  else
    _ ← for_range 0 NOFILE (λ fd,
          p ← read_proc i;
          f ← of_option (p_ofile p !! Z.to_nat fd);
          if f =? 0 then mret tt
          else
            _ ← on_pfiles (fileclose f);
            upd_proc i (λ p, set_ofile (<[Z.to_nat fd := 0]> (p_ofile p)) p));
    p ← read_proc i;
    _ ← on_pfiles (iput_op (p_cwd p));
    upd_proc i (set_cwd 0).

(** The rest, with [wait_lock] held: the process becomes a zombie and never
    runs again. *)
Definition exit_zombie (status : Z) : prog (procst A F) unit :=
  s ← get;
  let i := myproc s in
  _ ← acquire_wait;
  _ ← reparent i;
  p ← read_proc i;
  _ ← wakeup (proc_addr s (p_parent p));
  _ ← acquire_proc i;
  _ ← on_pram (for_range 0 4 (λ k, store8 (proc_addr s (Some i) + off_xstate + k) (byte_of status k)));
  _ ← upd_proc i (set_state ZOMBIE);
  _ ← release_wait;
  sched_away i.

Definition kexit (status : Z) : prog (procst A F) unit := _ ← exit_files; exit_zombie status.

Definition killed (i : nat) : prog (procst A F) Z :=
  _ ← acquire_proc i;
  p ← read_proc i;
  _ ← release_proc i;
  mret (p_killed p).

Definition setkilled (i : nat) : prog (procst A F) unit :=
  _ ← acquire_proc i;
  _ ← upd_proc i (set_killed 1);
  release_proc i.

(** The scan of [kwait]: a result to return, or whether there are children. *)
Definition wait_scan (addr : Z) : prog (procst A F) (Z + bool) :=
  s ← get;
  let i := myproc s in
  loop (S (Z.to_nat NPROC))
    (λ '(k, havekids),
       if decide (NPROC <= Z.of_nat k) then mret (inr (inr havekids))
       else
         pp ← read_proc k;
         if decide (p_parent pp = Some i) then
           _ ← acquire_proc k;
           pp ← read_proc k;
           if decide (p_state pp = ZOMBIE) then
             p ← read_proc i;
             r ← (if addr =? 0 then mret 0
                  else on_pvm (copyout kalloc kfree (p_pt p) addr (proc_addr s (Some k) + off_xstate) 4));
             if r <? 0 then
               _ ← release_proc k;
               _ ← release_wait;
               mret (inr (inl (-1)))
             else
               _ ← freeproc k;
               _ ← release_proc k;
               _ ← release_wait;
               mret (inr (inl (p_pid pp)))
           else
             _ ← release_proc k;
             mret (inl (S k, true))
         else mret (inl (S k, havekids)))
    (0%nat, false).

(** One round of [kwait], with [wait_lock] held: it returns, or the process
    has to sleep. *)
Definition wait_round (addr : Z) : prog (procst A F) (option Z) :=
  s ← get;
  r ← wait_scan addr;
  match r with
  | inl v => mret (Some v)
  | inr havekids =>
      k ← (if havekids then killed (myproc s) else mret 0);
      if negb havekids || negb (k =? 0) then
        _ ← release_wait;
        mret (Some (-1))
      else mret None
  end.

(** [sleep(p, &wait_lock)] up to the context switch. *)
Definition wait_sleep : prog (procst A F) unit :=
  s ← get;
  let i := myproc s in
  _ ← acquire_proc i;
  _ ← release_wait;
  _ ← upd_proc i (set_chan (proc_addr s (Some i)));
  _ ← upd_proc i (set_state SLEEPING);
  sched_away i.

(** From the call of [kwait], or from its wake-up, to its return or the next
    sleep. *)
Definition wait_try (addr : Z) : prog (procst A F) (option Z) :=
  _ ← acquire_wait;
  r ← wait_round addr;
  match r with
  | Some v => mret (Some v)
  | None => _ ← wait_sleep; mret None
  end.

Definition kkill (pid : Z) : prog (procst A F) Z :=
  loop (S (Z.to_nat NPROC))
    (λ k,
       if decide (NPROC <= Z.of_nat k) then mret (inr (-1))
       else
         _ ← acquire_proc k;
         p ← read_proc k;
         if p_pid p =? pid then
           _ ← upd_proc k (set_killed 1);
           _ ← (if decide (p_state p = SLEEPING) then upd_proc k (set_state RUNNABLE) else mret tt);
           _ ← release_proc k;
           mret (inr 0)
         else
           _ ← release_proc k;
           mret (inl (S k)))
    0%nat.

(** [sleep(chan, lk)] of another component, up to the context switch; [lk] is
    a lock of that component. *)
Definition sleep_on (chan : Z) : prog (procst A F) unit :=
  s ← get;
  let i := myproc s in
  _ ← acquire_proc i;
  _ ← upd_proc i (set_chan chan);
  _ ← upd_proc i (set_state SLEEPING);
  sched_away i.

Definition yield : prog (procst A F) unit :=
  s ← get;
  let i := myproc s in
  _ ← acquire_proc i;
  _ ← upd_proc i (set_state RUNNABLE);
  sched_away i.

(** One round of [scheduler]: process [i] is switched to if it is RUNNABLE. *)
Definition scheduler_round (i : nat) : prog (procst A F) bool :=
  _ ← acquire_proc i;
  p ← read_proc i;
  if decide (p_state p = RUNNABLE) then
    _ ← upd_proc i (set_state RUNNING);
    _ ← modify (set_myproc i);
    mret true
  else _ ← release_proc i; mret false.

(** What a process does first when it is switched to: the end of [sleep], or
    of [yield] and [forkret]. *)
Definition resume (from_sleep : bool) : prog (procst A F) unit :=
  s ← get;
  let i := myproc s in
  _ ← (if from_sleep then upd_proc i (set_chan 0) else mret tt);
  release_proc i.

End Proc.
