(* ===== verification/ProcSpec.v ===== *)
(** What the operations of the process table do to states, pids, parents and
    channels, as functions on that part of the table. *)

From S2P Require Import Prelude.
From S2P Require Import Sched.
From S2P Require Import Cstring.
From S2P Require Import Vm.
From S2P Require Import Sysproc.
From S2P Require Import Proc.

(** * The abstract table *)

Record core := Core {
  c_state : procstate;
  c_pid : Z;
  c_parent : option nat;
  c_chan : Z;
  c_killed : Z }.

Definition core_of (p : proc) : core := Core (p_state p) (p_pid p) (p_parent p) (p_chan p) (p_killed p).

Definition free_core : core := Core UNUSED 0 None 0 0.

Definition with_state (x : procstate) (c : core) : core := Core x (c_pid c) (c_parent c) (c_chan c) (c_killed c).

Definition with_parent (x : option nat) (c : core) : core := Core (c_state c) (c_pid c) x (c_chan c) (c_killed c).

Definition with_chan (x : Z) (c : core) : core := Core (c_state c) (c_pid c) (c_parent c) x (c_killed c).

Definition with_pid (x : Z) (c : core) : core := Core (c_state c) x (c_parent c) (c_chan c) (c_killed c).

Definition with_killed (x : Z) (c : core) : core := Core (c_state c) (c_pid c) (c_parent c) (c_chan c) x.

(** [wakeup(chan)] by process [me] *)
Definition woken (me : nat) (chan : Z) (i : nat) (c : core) : core :=
  if decide (i ≠ me ∧ c_state c = SLEEPING ∧ c_chan c = chan) then with_state RUNNABLE c else c.

Definition wake_all (me : nat) (chan : Z) (cs : list core) : list core := imap (woken me chan) cs.

(** One round of [reparent(me)]. *)
Definition reparent_one (me : nat) (init : option nat) (chan : Z) (cs : list core) (k : nat) : list core :=
  match cs !! k with
  | Some c => if decide (c_parent c = Some me) then wake_all me chan (alter (with_parent init) k cs) else cs
  | None => cs
  end.

(** The first [n] rounds. *)
Definition reparent_upto (me : nat) (init : option nat) (chan : Z) (cs : list core) (n : nat) : list core :=
  foldl (reparent_one me init chan) cs (seq 0 n).

#[global] Arguments reparent_upto : simpl never.

(** [exit]: children to init, the parent woken, the process a zombie. *)
Definition exited (me : nat) (init : option nat) (addr : option nat → Z) (cs : list core) : list core :=
  let cs1 := reparent_upto me init (addr init) cs (Z.to_nat Vm.NPROC) in
  let cs2 := wake_all me (addr (cs1 !! me ≫= c_parent)) cs1 in
  alter (with_state ZOMBIE) me cs2.

Section Effects.

Context {A F : Type}.

Definition cores (s : procst A F) : list core := core_of <$> procs s.

(** The rest of what the operations may change. *)
Record same_env (s s' : procst A F) : Prop := {
  se_base : proc_base s' = proc_base s;
  se_pid : nextpid s' = nextpid s;
  se_init : initproc s' = initproc s;
  se_me : myproc s' = myproc s }.

#[export] Instance same_env_preorder : PreOrder same_env.
Proof.
  split; [by intros s|]. intros s1 s2 s3 [] []. split; congruence.
Qed.

(** A step to [s'] that turns the table into [cs]. *)
Definition becomes (s : procst A F) (cs : list core) (s' : procst A F) : Prop := cores s' = cs ∧ same_env s s'.

Lemma becomes_refl s : becomes s (cores s) s.
Proof. by split. Qed.

Lemma becomes_trans s cs s1 cs' s2 : becomes s cs s1 → becomes s1 cs' s2 → becomes s cs' s2.
Proof. intros [_ H1] [H2 H3]. split; [done|by etrans]. Qed.

Lemma becomes_cores s cs s' : becomes s cs s' → cores s' = cs.
Proof. by intros []. Qed.

Lemma cores_lookup s i p : procs s !! i = Some p → cores s !! i = Some (core_of p).
Proof. intros E. unfold cores. by rewrite list_lookup_fmap, E. Qed.

(** ** Statements

    [s0] is the state in which the operation started, [cs] what has become of
    the table since. *)

Section Statements.

Context (s0 : procst A F) (cs : list core) (s : procst A F).

Hypothesis H : becomes s0 cs s.

(** Memory, pages and files are not part of the table. *)
Lemma eff_pvm {B} (m : prog (vmst A) B) Q : (∀ a s', becomes s0 cs s' → Q a s') → wlp (on_pvm m) Q s.
Proof. intros HQ. apply wlp_zoom. intros a t. apply HQ. destruct H as [? []]. by split. Qed.

Lemma eff_pfiles {B} (m : prog F B) Q : (∀ a s', becomes s0 cs s' → Q a s') → wlp (on_pfiles m) Q s.
Proof. intros HQ. apply wlp_zoom. intros a t. apply HQ. destruct H as [? []]. by split. Qed.

Lemma eff_read i Q : (∀ p, cs !! i = Some (core_of p) → Q p s) → wlp (read_proc i) Q s.
Proof.
  intros HQ. unfold read_proc. wlp_auto. apply HQ. rewrite <- (proj1 H). by apply cores_lookup.
Qed.

Lemma eff_upd f (g : core → core) i Q :
  (∀ p, core_of (f p) = g (core_of p)) → (∀ s', becomes s0 (alter g i cs) s' → Q tt s') → wlp (upd_proc i f) Q s.
Proof.
  intros Hf HQ. unfold upd_proc, read_proc. wlp_auto. apply HQ. destruct H as [E Hs]. split; [|by destruct Hs].
  rewrite <- E. unfold cores. simpl. symmetry. apply list_eq. intros j. destruct (decide (j = i)) as [->|Hj].
  - rewrite list_lookup_alter_eq, !list_lookup_fmap, list_lookup_insert_eq by (by eapply lookup_lt_Some).
    match goal with E' : procs s !! i = _ |- _ => rewrite E' end. simpl. by rewrite Hf.
  - by rewrite list_lookup_alter_ne, !list_lookup_fmap, list_lookup_insert_ne.
Qed.

Lemma alter_same (g : core → core) i (l : list core) : (∀ c, l !! i = Some c → g c = c) → alter g i l = l.
Proof.
  intros Hg. apply list_eq. intros j. destruct (decide (j = i)) as [->|]; [|by rewrite list_lookup_alter_ne].
  rewrite list_lookup_alter_eq. destruct (l !! i) eqn:E; simpl; [by rewrite Hg|done].
Qed.

Lemma eff_quiet f i Q :
  (∀ p, core_of (f p) = core_of p) → (∀ s', becomes s0 cs s' → Q tt s') → wlp (upd_proc i f) Q s.
Proof.
  intros Hf HQ. apply (eff_upd f id); [done|]. intros s' Hs. apply HQ. by rewrite alter_same in Hs.
Qed.

Lemma eff_acquire i Q : (∀ s', becomes s0 cs s' → Q tt s') → wlp (acquire_proc i) Q s.
Proof.
  intros HQ. unfold acquire_proc. apply wlp_bind, eff_read. intros p _. destruct (p_lock p); [apply wlp_panic|]. by apply eff_quiet.
Qed.

Lemma eff_release i Q : (∀ s', becomes s0 cs s' → Q tt s') → wlp (release_proc i) Q s.
Proof.
  intros HQ. unfold release_proc. apply wlp_bind, eff_read. intros p _. destruct (p_lock p); [|apply wlp_panic]. by apply eff_quiet.
Qed.

Lemma eff_acquire_wait Q : (∀ s', becomes s0 cs s' → Q tt s') → wlp acquire_wait Q s.
Proof.
  intros HQ. unfold acquire_wait. wlp_auto. destruct (wait_lock s); wlp_auto. apply HQ. destruct H as [? []]. by split.
Qed.

Lemma eff_release_wait Q : (∀ s', becomes s0 cs s' → Q tt s') → wlp release_wait Q s.
Proof.
  intros HQ. unfold release_wait. wlp_auto. destruct (wait_lock s); wlp_auto. apply HQ. destruct H as [? []]. by split.
Qed.

End Statements.

(** Steps over the next statement; [H] keeps its name. *)
Ltac eff_next H lem := apply lem; clear H; let s1 := fresh "s" in intros s1 H.

Ltac eff_step :=
  match goal with
  | |- wlp (mbind _ _) _ _ => apply wlp_bind; cbv beta
  | |- wlp (mret _) _ _ => apply wlp_ret; cbv beta
  | |- wlp get _ _ => apply wlp_get; cbv beta
  | |- wlp (panic _) _ _ => apply wlp_panic
  | |- wlp undefined _ _ => apply wlp_undefined
  | |- wlp (if 0 <? 0 then _ else _) _ _ => change (0 <? 0) with false; cbv iota
  | |- wlp (if ?b then _ else _) _ _ => let E := fresh "Eb" in destruct b eqn:E
  | H : becomes ?s0 ?cs ?s |- wlp (acquire_proc _) _ ?s => eff_next H (eff_acquire s0 cs s H)
  | H : becomes ?s0 ?cs ?s |- wlp (release_proc _) _ ?s => eff_next H (eff_release s0 cs s H)
  | H : becomes ?s0 ?cs ?s |- wlp acquire_wait _ ?s => eff_next H (eff_acquire_wait s0 cs s H)
  | H : becomes ?s0 ?cs ?s |- wlp release_wait _ ?s => eff_next H (eff_release_wait s0 cs s H)
  | H : becomes ?s0 ?cs ?s |- wlp (on_pvm _) _ ?s => apply (eff_pvm s0 cs s H); intros ?; clear H; let s1 := fresh "s" in intros s1 H
  | H : becomes ?s0 ?cs ?s |- wlp (on_pram _) _ ?s => apply (eff_pvm s0 cs s H); intros ?; clear H; let s1 := fresh "s" in intros s1 H
  | H : becomes ?s0 ?cs ?s |- wlp (on_ppages _) _ ?s => apply (eff_pvm s0 cs s H); intros ?; clear H; let s1 := fresh "s" in intros s1 H
  | H : becomes ?s0 ?cs ?s |- wlp (on_pfiles _) _ ?s => apply (eff_pfiles s0 cs s H); intros ?; clear H; let s1 := fresh "s" in intros s1 H
  | H : becomes ?s0 ?cs ?s |- wlp (upd_proc _ (set_state ?x)) _ ?s => apply (eff_upd s0 cs s H _ (with_state x)); [done|]; clear H; let s1 := fresh "s" in intros s1 H
  | H : becomes ?s0 ?cs ?s |- wlp (upd_proc _ (set_pid ?x)) _ ?s => apply (eff_upd s0 cs s H _ (with_pid x)); [done|]; clear H; let s1 := fresh "s" in intros s1 H
  | H : becomes ?s0 ?cs ?s |- wlp (upd_proc _ (set_parent ?x)) _ ?s => apply (eff_upd s0 cs s H _ (with_parent x)); [done|]; clear H; let s1 := fresh "s" in intros s1 H
  | H : becomes ?s0 ?cs ?s |- wlp (upd_proc _ (set_chan ?x)) _ ?s => apply (eff_upd s0 cs s H _ (with_chan x)); [done|]; clear H; let s1 := fresh "s" in intros s1 H
  | H : becomes ?s0 ?cs ?s |- wlp (upd_proc _ (set_killed ?x)) _ ?s => apply (eff_upd s0 cs s H _ (with_killed x)); [done|]; clear H; let s1 := fresh "s" in intros s1 H
  | H : becomes ?s0 ?cs ?s |- wlp (upd_proc _ _) _ ?s => apply (eff_quiet s0 cs s H); [done|]; clear H; let s1 := fresh "s" in intros s1 H
  | H : becomes ?s0 ?cs ?s |- wlp (read_proc _) _ ?s => apply (eff_read s0 cs s H); intros ? ?
  end.

(** Two updates of the same process are one. *)
Lemma alter_twice (f g : core → core) i (l : list core) : alter f i (alter g i l) = alter (λ c, f (g c)) i l.
Proof.
  apply list_eq. intros j. destruct (decide (j = i)) as [->|]; [|by rewrite !list_lookup_alter_ne].
  rewrite !list_lookup_alter_eq. by destruct (l !! i).
Qed.

(** ** Operations *)

Lemma eff_freeproc kalloc kfree s0 cs s i (Q : unit → procst A F → Prop) :
  becomes s0 cs s → (∀ s', becomes s0 (alter (λ _, free_core) i cs) s' → Q tt s') → wlp (freeproc kalloc kfree i) Q s.
Proof.
  intros H HQ. unfold freeproc. repeat eff_step.
  all: apply HQ; rewrite !alter_twice in H; done.
Qed.

(** One more pid has been given out. *)
Definition bump (s : procst A F) : procst A F := set_nextpid (nextpid s + 1) s.

(** No process before [i] is UNUSED. *)
Definition first_unused (cs : list core) (i : nat) : Prop := ∀ k c, (k < i)%nat → cs !! k = Some c → c_state c ≠ UNUSED.

(** [find_unused] returns the first UNUSED process. *)
Lemma eff_find_unused s0 cs s (Q : option nat → procst A F → Prop) :
  becomes s0 cs s →
  (∀ s', becomes s0 cs s' → (∀ k c, (Z.of_nat k < NPROC)%Z → cs !! k = Some c → c_state c ≠ UNUSED) → Q None s') →
  (∀ i c s', becomes s0 cs s' → cs !! i = Some c → c_state c = UNUSED → first_unused cs i → Q (Some i) s') →
  wlp find_unused Q s.
Proof.
  intros H HN HS. unfold find_unused.
  apply (wlp_loop (λ i s', becomes s0 cs s' ∧ ∀ k c, (k < i)%nat → cs !! k = Some c → c_state c ≠ UNUSED)).
  { split; [done|lia]. }
  clear s H. intros i s [H Hi]. case_decide as Hn.
  - apply wlp_ret. apply HN; [done|]. intros k c Hk. apply Hi. lia.
  - repeat eff_step; [by eapply HS|]. split; [done|].
    intros k c Hk Ec. destruct (decide (k = i)) as [->|]; [by simplify_eq|]. eapply Hi; [|done]. lia.
Qed.

Definition alloc_post (s : procst A F) (o : option nat) (s' : procst A F) : Prop :=
  match o with
  | Some i =>
      ∃ c, cores s !! i = Some c ∧ c_state c = UNUSED ∧ first_unused (cores s) i ∧
        becomes (bump s) (alter (λ c, with_state USED (with_pid (nextpid s) c)) i (cores s)) s'
  | None =>
      becomes s (cores s) s' ∨
      ∃ i c, cores s !! i = Some c ∧ c_state c = UNUSED ∧ becomes (bump s) (alter (λ _, free_core) i (cores s)) s'
  end.

Lemma eff_allocpid s0 s (Q : Z → procst A F → Prop) :
  becomes s0 (cores s0) s → (∀ s', becomes (bump s0) (cores s0) s' → Q (nextpid s0) s') → wlp allocpid Q s.
Proof.
  intros [E [E1 E2 E3 E4]] HQ. unfold allocpid, acquire_pid, release_pid. wlp_auto. destruct (pid_lock s); wlp_auto. cbn.
  destruct (int_max <=? nextpid s); wlp_auto. cbn. rewrite E2. wlp_auto. apply HQ. split; [done|]. by split; simpl; rewrite ?E2.
Qed.

Context (kalloc : prog A Z) (kfree : Z → prog A unit) (forkret trampoline : Z).

Lemma allocproc_post s : wlp (allocproc kalloc kfree forkret trampoline) (alloc_post s) s.
Proof.
  unfold allocproc. apply wlp_bind, (eff_find_unused s (cores s)); [apply becomes_refl| |].
  - intros s' H _. apply wlp_ret. by left.
  - intros i c s1 H Ec Est Hfst. apply wlp_bind, (eff_allocpid s s1 _ H). intros s2 H2. clear H.
    repeat eff_step; try (apply eff_freeproc with (1 := H2); clear H2; intros ? H2; repeat eff_step).
    all: rewrite ?alter_twice in H2; simpl in H2.
    all: try (right; by exists i, c). by exists c.
Qed.

Lemma userinit_post namei_root s :
  wlp (userinit kalloc kfree namei_root forkret trampoline)
    (λ _ s', ∃ n c, cores s !! n = Some c ∧ c_state c = UNUSED ∧
      becomes (set_initproc (Some n) (bump s)) (alter (λ c, with_state RUNNABLE (with_pid (nextpid s) c)) n (cores s)) s') s.
Proof.
  unfold userinit. apply wlp_bind. eapply wlp_mono; [apply allocproc_post|]. intros [n|] s1; [|intros _; wlp_auto].
  intros (c & Ec & Hst & _ & Hb). wlp_auto.
  assert (becomes (set_initproc (Some n) (bump s)) (alter (λ c, with_state USED (with_pid (nextpid s) c)) n (cores s)) (set_initproc (Some n) s1)) as H1.
  { destruct Hb as [? []]. by split. }
  repeat eff_step. exists n, c. split_and!; [done|done|]. by rewrite alter_twice in H1.
Qed.

Context (filedup : Z → prog F Z) (fileclose : Z → prog F unit) (idup : Z → prog F Z) (iput_op : Z → prog F unit).

(** A loop that does not touch the table. *)
Lemma eff_for_quiet s0 cs s lo hi body (Q : unit → procst A F → Prop) :
  becomes s0 cs s → (∀ i s', becomes s0 cs s' → wlp (body i) (λ _ s'', becomes s0 cs s'') s') →
  (∀ s', becomes s0 cs s' → Q tt s') → wlp (for_range lo hi body) Q s.
Proof. intros H Hb HQ. apply (wlp_for_range (λ _ s', becomes s0 cs s')); [done| |done]. intros i s' _ H'. by apply Hb. Qed.

Definition fork_post (s : procst A F) (r : option (nat * Z)) (s' : procst A F) : Prop :=
  match r with
  | Some (n, pid) => pid = nextpid s ∧ alloc_post s (Some n) s'
  | None => alloc_post s None s'
  end.

Lemma fork_create_post s : wlp (fork_create kalloc kfree filedup idup forkret trampoline) (fork_post s) s.
Proof.
  unfold fork_create. apply wlp_bind, wlp_get. apply wlp_bind. eapply wlp_mono; [apply allocproc_post|].
  intros [n|] s1; [|intros H; by apply wlp_ret]. intros (c & Ec & Est & Hfst & H). repeat eff_step.
  - eapply eff_freeproc; [done|]. clear H. intros s3 H. repeat eff_step. rewrite alter_twice in H. right. by exists n, c.
  - eapply eff_for_quiet; [done| |].
    + intros fd s' H'. repeat eff_step. wlp_auto. repeat eff_step; done.
    + clear H. intros s5 H. repeat eff_step. split; [|by exists c].
      match goal with E : _ !! n = Some (core_of ?np) |- p_pid ?np = _ => rewrite list_lookup_alter_eq, Ec in E; simpl in E; by injection E as _ <- _ _ _ end.
Qed.

Lemma fork_adopt_post s n :
  wlp (fork_adopt n) (λ _, becomes s (alter (with_parent (Some (myproc s))) n (cores s))) s.
Proof.
  unfold fork_adopt. pose proof (becomes_refl s) as H. eff_step. eff_step. eff_step. eff_step.
  rewrite (se_me _ _ (proj2 H)). repeat eff_step. done.
Qed.

Lemma fork_ready_post s n : wlp (fork_ready n) (λ _, becomes s (alter (with_state RUNNABLE) n (cores s))) s.
Proof. unfold fork_ready. pose proof (becomes_refl s) as H. repeat eff_step. done. Qed.

(** A loop over the table. *)
Lemma eff_for_procs s0 (f : nat → list core) s body (Q : unit → procst A F → Prop) :
  becomes s0 (f 0%nat) s →
  (∀ i s', (i < Z.to_nat NPROC)%nat → becomes s0 (f i) s' → wlp (body i) (λ _, becomes s0 (f (S i))) s') →
  (∀ s', becomes s0 (f (Z.to_nat NPROC)) s' → Q tt s') → wlp (for_procs body) Q s.
Proof.
  intros H Hb HQ. unfold for_procs. apply (wlp_for_range (λ z s', becomes s0 (f (Z.to_nat z)) s')).
  - done.
  - intros z s' Hz H'. replace (Z.to_nat (z + 1)) with (S (Z.to_nat z)) by lia. apply Hb; [lia|done].
  - intros s' H'. apply HQ. by replace (Z.max 0 NPROC) with NPROC in H' by (unfold NPROC; lia).
Qed.

(** The first [n] processes have been looked at. *)
Definition wake_upto (me : nat) (chan : Z) (cs : list core) (n : nat) : list core :=
  imap (λ k c, if decide (k < n)%nat then woken me chan k c else c) cs.

Lemma wake_upto_0 me chan cs : wake_upto me chan cs 0 = cs.
Proof. apply list_eq. intros j. unfold wake_upto. rewrite list_lookup_imap. by destruct (cs !! j). Qed.

Lemma wake_upto_S me chan cs n : wake_upto me chan cs (S n) = alter (woken me chan n) n (wake_upto me chan cs n).
Proof.
  apply list_eq. intros j. unfold wake_upto. destruct (decide (j = n)) as [->|Hj].
  - rewrite list_lookup_alter_eq, !list_lookup_imap. destruct (cs !! n); simpl; [|done].
    by rewrite decide_True, decide_False by lia.
  - rewrite list_lookup_alter_ne, !list_lookup_imap by done. destruct (cs !! j); simpl; [|done].
    destruct (decide (j < n)%nat); [rewrite decide_True by lia|rewrite decide_False by lia]; done.
Qed.

Lemma wake_upto_all me chan cs n : (length cs ≤ n)%nat → wake_upto me chan cs n = wake_all me chan cs.
Proof.
  intros Hn. apply list_eq. intros j. unfold wake_upto, wake_all. rewrite !list_lookup_imap.
  destruct (cs !! j) eqn:E; simpl; [|done]. rewrite decide_True; [done|]. apply lookup_lt_Some in E. lia.
Qed.

Lemma alter_ext (f g : core → core) i (l : list core) : (∀ c, l !! i = Some c → f c = g c) → alter f i l = alter g i l.
Proof.
  intros Hg. apply list_eq. intros j. destruct (decide (j = i)) as [->|]; [|by rewrite !list_lookup_alter_ne].
  rewrite !list_lookup_alter_eq. destruct (l !! i) eqn:E; simpl; [by rewrite Hg|done].
Qed.

Lemma eff_wakeup s0 cs s chan (Q : unit → procst A F → Prop) :
  becomes s0 cs s → length cs = Z.to_nat NPROC →
  (∀ s', becomes s0 (wake_all (myproc s0) chan cs) s' → Q tt s') → wlp (wakeup chan) Q s.
Proof.
  intros H Hl HQ. unfold wakeup. apply (eff_for_procs s0 (wake_upto (myproc s0) chan cs)).
  - by rewrite wake_upto_0.
  - clear s H. intros i s Hi H. rewrite wake_upto_S. pose proof (se_me _ _ (proj2 H)) as Em.
    eff_step. eff_step. rewrite Em. repeat eff_step.
    + rewrite alter_same; [done|]. intros c _. unfold woken. rewrite decide_False; [done|]. by intros [? _].
    + erewrite alter_ext; [done|]. intros c Ec. simplify_eq. unfold woken. by rewrite decide_True.
    + rewrite alter_same; [done|]. intros c Ec. simplify_eq. unfold woken. rewrite decide_False; [done|]. by intros [_ ?].
  - intros s' H'. apply HQ. by rewrite wake_upto_all in H' by lia.
Qed.

Lemma length_wake_all me chan cs : length (wake_all me chan cs) = length cs.
Proof. apply length_imap. Qed.

Lemma length_reparent_one me init chan cs k : length (reparent_one me init chan cs k) = length cs.
Proof.
  unfold reparent_one. destruct (cs !! k); [|done]. case_decide; [|done]. by rewrite length_wake_all, length_alter.
Qed.

Lemma length_reparent me init chan ks cs : length (foldl (reparent_one me init chan) cs ks) = length cs.
Proof. revert cs. induction ks as [|k ks IH]; intros cs; simpl; [done|]. by rewrite IH, length_reparent_one. Qed.

Lemma proc_addr_same s s' : same_env s s' → proc_addr s' = proc_addr s.
Proof. intros [E _ _ _]. unfold proc_addr. by rewrite E. Qed.

Lemma reparent_upto_S me init chan cs n :
  reparent_upto me init chan cs (S n) = reparent_one me init chan (reparent_upto me init chan cs n) n.
Proof. unfold reparent_upto. by rewrite seq_S, foldl_app. Qed.

Lemma length_reparent_upto me init chan cs n : length (reparent_upto me init chan cs n) = length cs.
Proof. apply length_reparent. Qed.

Lemma eff_reparent s0 cs s me (Q : unit → procst A F → Prop) :
  becomes s0 cs s → length cs = Z.to_nat NPROC → me = myproc s0 →
  (∀ s', becomes s0 (reparent_upto me (initproc s0) (proc_addr s0 (initproc s0)) cs (Z.to_nat NPROC)) s' → Q tt s') → wlp (reparent me) Q s.
Proof.
  intros H Hl -> HQ. unfold reparent.
  apply (eff_for_procs s0 (reparent_upto (myproc s0) (initproc s0) (proc_addr s0 (initproc s0)) cs)); [exact H| |exact HQ].
  clear s H. intros k s Hk H. rewrite reparent_upto_S. set (cs1 := reparent_upto _ _ _ cs k) in *.
  assert (length cs1 = Z.to_nat NPROC) as Hl1 by (unfold cs1; by rewrite length_reparent_upto). clearbody cs1.
  eff_step. eff_step. unfold reparent_one.
  match goal with E : _ !! k = Some _ |- _ => rewrite E end. eff_step. eff_step.
  rewrite (se_init _ _ (proj2 H)), (proc_addr_same _ _ (proj2 H)). simpl. case_decide.
  - eff_step. eff_step. eapply eff_wakeup; [exact H|by rewrite length_alter|]. auto.
  - by apply wlp_ret.
Qed.

Lemma exit_zombie_post s status :
  length (cores s) = Z.to_nat NPROC →
  wlp (exit_zombie status) (λ _, becomes s (exited (myproc s) (initproc s) (proc_addr s) (cores s))) s.
Proof.
  intros Hl. unfold exit_zombie. pose proof (becomes_refl s) as H. repeat eff_step.
  apply (eff_reparent s _ _ _ _ H); [done|done|]. clear H. intros s2 H. eff_step. eff_step.
  match goal with E : _ !! _ = Some (core_of ?q) |- _ => rename q into p, E into Ep end.
  eff_step. eapply eff_wakeup; [exact H|by rewrite length_reparent_upto|]. clear H. intros s3 H.
  unfold sched_away. repeat eff_step. unfold exited. cbv zeta. rewrite Ep. exact H.
Qed.

Lemma exit_files_post s : wlp (exit_files fileclose iput_op) (λ _ s', becomes s (cores s) s' ∧ initproc s ≠ Some (myproc s)) s.
Proof.
  unfold exit_files. pose proof (becomes_refl s) as H. eff_step. eff_step. case_decide; [apply wlp_panic|]. eff_step.
  eapply eff_for_quiet; [done| |].
  - intros fd s' H'. repeat eff_step. wlp_auto. repeat eff_step; done.
  - clear H. intros s2 H. repeat eff_step. done.
Qed.

(** Process [k] is an exited child of [me]. *)
Definition zombie_child (cs : list core) (me k : nat) (c : core) : Prop :=
  cs !! k = Some c ∧ c_parent c = Some me ∧ c_state c = ZOMBIE.

Definition no_zombies (cs : list core) (me : nat) : Prop := ∀ k c, ¬ zombie_child cs me k c.

(** A child has been reaped, and its pid is [v]. *)
Definition reaped (s : procst A F) (v : Z) (s' : procst A F) : Prop :=
  ∃ k c, zombie_child (cores s) (myproc s) k c ∧ v = c_pid c ∧ becomes s (alter (λ _, free_core) k (cores s)) s'.

(** The same process read twice. *)
Ltac same_core :=
  match goal with e : p_parent ?p = _ |- c_parent (core_of _) = _ => change (p_parent p) with (c_parent (core_of p)) in e; congruence end.

Lemma wait_scan_post s0 s addr :
  becomes s0 (cores s0) s → length (cores s0) = Z.to_nat NPROC →
  wlp (wait_scan kalloc kfree addr)
    (λ r s', match r with
             | inl v => reaped s0 v s' ∨ (v = -1 ∧ addr ≠ 0 ∧ becomes s0 (cores s0) s')
             | inr havekids => becomes s0 (cores s0) s' ∧ no_zombies (cores s0) (myproc s0) ∧
                 (havekids = false → ∀ k c, cores s0 !! k = Some c → c_parent c ≠ Some (myproc s0))
             end) s.
Proof.
  intros H Hl. unfold wait_scan. apply wlp_bind, wlp_get. rewrite (se_me _ _ (proj2 H)).
  apply (wlp_loop (λ '(k, havekids) s', becomes s0 (cores s0) s' ∧
    (∀ j c, (j < k)%nat → ¬ zombie_child (cores s0) (myproc s0) j c) ∧
    (havekids = false → ∀ j c, (j < k)%nat → cores s0 !! j = Some c → c_parent c ≠ Some (myproc s0)))).
  { split_and!; [done|lia|lia]. }
  clear H. intros [k hk] s1 (H & Hz & Hk). case_decide as Hn.
  { apply wlp_ret. split_and!; [done| |].
    - intros j c Hj. eapply Hz; [|done]. destruct Hj as [Hj _]. apply lookup_lt_Some in Hj. lia.
    - intros E j c Hj. eapply Hk; [done| |done]. apply lookup_lt_Some in Hj. lia. }
  repeat eff_step.
  - eapply eff_freeproc; [done|]. clear H. intros ? H. repeat eff_step. left.
    eexists k, _. split_and!; [split_and!; [done|same_core|done]|done|done].
  - right. split_and!; [done|lia|done].
  - eapply eff_freeproc; [done|]. clear H. intros ? H. repeat eff_step. left.
    eexists k, _. split_and!; [split_and!; [done|same_core|done]|done|done].
  - split_and!; [done| |done]. intros j c Hj Hc. destruct (decide (j = k)) as [->|]; [|eapply Hz; [|done]; lia].
    destruct Hc as (Ec & _ & Es). by simplify_eq.
  - split_and!; [done| |].
    + intros j c Hj Hc. destruct (decide (j = k)) as [->|]; [|eapply Hz; [|done]; lia].
      destruct Hc as (Ec & Eq & _). by simplify_eq.
    + intros E j c Hj Ec. destruct (decide (j = k)) as [->|]; [by simplify_eq|]. eapply Hk; [done| |done]. lia.
Qed.

(** Asleep on its own address, in [kwait]. *)
Definition asleep_in_wait (s : procst A F) (c : core) : core := with_state SLEEPING (with_chan (proc_addr s (Some (myproc s))) c).

Definition wait_post (s : procst A F) (addr : Z) (r : option Z) (s' : procst A F) : Prop :=
  match r with
  | Some v => reaped s v s' ∨ (v = -1 ∧ (addr ≠ 0 ∨ no_zombies (cores s) (myproc s)) ∧ becomes s (cores s) s')
  | None => no_zombies (cores s) (myproc s) ∧ becomes s (alter (asleep_in_wait s) (myproc s) (cores s)) s'
  end.

Lemma killed_post s0 cs s i (Q : Z → procst A F → Prop) :
  becomes s0 cs s → (∀ v s', becomes s0 cs s' → Q v s') → wlp (killed i) Q s.
Proof. intros H HQ. unfold killed. repeat eff_step. by apply HQ. Qed.

Lemma wait_try_post s addr :
  length (cores s) = Z.to_nat NPROC → wlp (wait_try kalloc kfree addr) (wait_post s addr) s.
Proof.
  intros Hl. unfold wait_try, wait_round. pose proof (becomes_refl s) as H. eff_step. eff_step.
  apply wlp_bind, wlp_bind, wlp_get. pose proof (se_me _ _ (proj2 H)) as Em.
  apply wlp_bind. eapply wlp_mono; [by apply (wait_scan_post s)|]. clear H. intros [v|hk] s2.
  { intros [Hr|(-> & Ha & H)]; repeat eff_step; [by left|right; by split_and!; [|left|]]. }
  intros (H & Hz & Hk). apply wlp_bind. destruct hk; simpl.
  - eapply killed_post; [exact H|]. clear H. intros v s3 H. destruct (negb (v =? 0)); repeat eff_step; [right; by split_and!; [|right|]|].
    unfold wait_sleep. apply wlp_bind, wlp_get. pose proof (se_me _ _ (proj2 H)) as Em3.
    rewrite Em3, (proc_addr_same _ _ (proj2 H)). unfold sched_away. repeat eff_step. split; [done|]. by rewrite alter_twice in H.
  - repeat eff_step. right. by split_and!; [|right|].
Qed.

(** [kkill] marks the first process with the pid, and wakes it. *)
Lemma kkill_post s pid :
  wlp (kkill pid) (λ _ s', becomes s (cores s) s' ∨ ∃ k c, cores s !! k = Some c ∧
    ((c_state c = SLEEPING ∧ becomes s (alter (λ c, with_state RUNNABLE (with_killed 1 c)) k (cores s)) s') ∨
     becomes s (alter (with_killed 1) k (cores s)) s')) s.
Proof.
  unfold kkill. apply (wlp_loop (λ _ s', becomes s (cores s) s')); [apply becomes_refl|]. intros k s1 H. repeat eff_step; auto.
  - right. eexists k, _. split; [done|]. left. by rewrite alter_twice in H.
  - right. eexists k, _. split; [done|]. by right.
Qed.

Lemma setkilled_post s i : wlp (setkilled i) (λ _, becomes s (alter (with_killed 1) i (cores s))) s.
Proof. unfold setkilled. pose proof (becomes_refl s) as H. by repeat eff_step. Qed.

Lemma wakeup_post s chan : length (cores s) = Z.to_nat NPROC → wlp (wakeup chan) (λ _, becomes s (wake_all (myproc s) chan (cores s))) s.
Proof. intros Hl. eapply eff_wakeup; [apply becomes_refl|done|done]. Qed.

Lemma sleep_on_post s chan :
  wlp (sleep_on chan) (λ _, becomes s (alter (λ c, with_state SLEEPING (with_chan chan c)) (myproc s) (cores s))) s.
Proof.
  unfold sleep_on, sched_away. pose proof (becomes_refl s) as H. repeat eff_step. by rewrite alter_twice in H.
Qed.

Lemma yield_post s : wlp yield (λ _, becomes s (alter (with_state RUNNABLE) (myproc s) (cores s))) s.
Proof. unfold yield, sched_away. pose proof (becomes_refl s) as H. by repeat eff_step. Qed.

(** A turn of process [i]: the scheduler picks it and it leaves [sleep] or
    [yield]. *)
Definition turn (i : nat) (from_sleep : bool) : prog (procst A F) bool :=
  b ← scheduler_round i;
  if (b : bool) then _ ← resume from_sleep; mret true else mret false.

Lemma turn_post s i from_sleep :
  wlp (turn i from_sleep)
    (λ b s', if b : bool
             then ∃ c, cores s !! i = Some c ∧ c_state c = RUNNABLE ∧
               becomes (set_myproc i s) (alter (λ c, (if from_sleep then with_chan 0 else id) (with_state RUNNING c)) i (cores s)) s'
             else becomes s (cores s) s') s.
Proof.
  unfold turn, scheduler_round, resume. pose proof (becomes_refl s) as H. eff_step. eff_step. eff_step. eff_step. eff_step.
  eff_step; repeat eff_step; [|done]. wlp_auto.
  match goal with |- wlp _ _ (set_myproc i ?s1) => assert (becomes (set_myproc i s) (alter (with_state RUNNING) i (cores s)) (set_myproc i s1)) as H1 end.
  { destruct H as [? []]. by split. }
  clear H. simpl. destruct from_sleep; repeat eff_step; eexists; split_and!; try done. by rewrite alter_twice in H1.
Qed.

End Effects.
