(* ===== verification/ProcLife.v ===== *)
(** The life of processes: fork, exit and wait in any order.  Every process
    but init has a parent that is alive, pids are unique, and a parent that
    sleeps in [kwait] has no exited child. *)

From S2P Require Import Prelude.
From S2P Require Import Sched.
From S2P Require Import Cstring.
From S2P Require Import Vm.
From S2P Require Import Sysproc.
From S2P Require Import Proc.
From S2P Require Import ProcSpec.

(** * Where a process is in its life *)

(** Between the critical sections of [kfork], [kexit] and [kwait]. *)
Inductive phase : Set :=
  | PRun
  | PAdopt (n : nat)             (* kfork: the child has no parent yet *)
  | PReady (n : nat)             (* kfork: the child is not RUNNABLE yet *)
  | PExit                        (* kexit: the files are closed *)
  | PWait                        (* kwait: inside the loop *)
  | PSleep                       (* asleep on some other channel *)
  | PGone.                       (* kexit: never to return *)

Definition active (x : procstate) : Prop := x = SLEEPING ∨ x = RUNNABLE ∨ x = RUNNING.

Definition forks (p : phase) (n : nat) : Prop := p = PAdopt n ∨ p = PReady n.

Definition is_active (cs : list core) (i : nat) : Prop := ∃ c, cs !! i = Some c ∧ active (c_state c).

(** * The invariant *)

Record alive (cs : list core) (npid : Z) (init : option nat) (addr : option nat → Z) (h : nat → phase) : Prop := {
  al_len : length cs = Z.to_nat Vm.NPROC;
  al_npid : 0 < npid;
  al_init : ∃ r, init = Some r ∧ is_active cs r ∧ h r ≠ PExit;
  al_pid : ∀ i j ci cj, cs !! i = Some ci → cs !! j = Some cj → c_state ci ≠ UNUSED → c_state cj ≠ UNUSED →
    c_pid ci = c_pid cj → i = j;
  al_range : ∀ i c, cs !! i = Some c → c_state c ≠ UNUSED → 0 < c_pid c < npid;
  al_free : ∀ i c, cs !! i = Some c → c_state c = UNUSED → c_parent c = None;
  al_used : ∀ n c, cs !! n = Some c → c_state c = USED → ∃ q, forks (h q) n;
  al_adopt : ∀ q n, h q = PAdopt n → ∃ c, cs !! n = Some c ∧ c_state c = USED ∧ c_parent c = None;
  al_ready : ∀ q n, h q = PReady n → ∃ c, cs !! n = Some c ∧ c_state c = USED ∧ c_parent c = Some q;
  al_forker : ∀ q n, forks (h q) n → is_active cs q;
  al_unique : ∀ q q' n, forks (h q) n → forks (h q') n → q = q';
  al_parent : ∀ i c q, cs !! i = Some c → c_parent c = Some q → is_active cs q;
  al_orphan : ∀ i c, cs !! i = Some c → active (c_state c) ∨ c_state c = ZOMBIE → init ≠ Some i → c_parent c ≠ None;
  al_wait : ∀ q c, h q = PWait → cs !! q = Some c → c_state c = SLEEPING → c_chan c = addr (Some q) ∧ no_zombies cs q }.

(** ** Changes of state among active processes *)

(** Nothing but the state and the channel of active processes changes. *)
Definition stirred (c c' : core) : Prop :=
  c_pid c' = c_pid c ∧ c_parent c' = c_parent c ∧ (c_state c' = c_state c ∨ (active (c_state c) ∧ active (c_state c'))).

Lemma active_not x : active x → x ≠ UNUSED ∧ x ≠ USED ∧ x ≠ ZOMBIE.
Proof. by intros [->|[->| ->]]. Qed.

Lemma stirred_state c c' x : stirred c c' → ¬ active x → c_state c' = x ↔ c_state c = x.
Proof. intros (_ & _ & [->|[H1 H2]]) Hx; [done|]. split; intros <-; by destruct Hx. Qed.

Lemma stirred_active c c' : stirred c c' → active (c_state c') ↔ active (c_state c).
Proof. intros (_ & _ & [->|[H1 H2]]); done. Qed.

Lemma unused_not_active : ¬ active UNUSED.
Proof. by intros [|[|]]. Qed.

Lemma used_not_active : ¬ active USED.
Proof. by intros [|[|]]. Qed.

Lemma zombie_not_active : ¬ active ZOMBIE.
Proof. by intros [|[|]]. Qed.

#[local] Hint Resolve unused_not_active used_not_active zombie_not_active : core.

Lemma Forall2_lookup_r' (R : core → core → Prop) cs cs' i c' :
  Forall2 R cs cs' → cs' !! i = Some c' → ∃ c, cs !! i = Some c ∧ R c c'.
Proof. intros HF E. eapply Forall2_lookup_r in HF as (c & ? & ?); eauto. Qed.

Lemma stirred_is_active cs cs' i : Forall2 stirred cs cs' → is_active cs' i ↔ is_active cs i.
Proof.
  intros HF. split; intros (c & E & Ha).
  - destruct (Forall2_lookup_r' _ _ _ _ _ HF E) as (c0 & ? & Hs). exists c0. split; [done|]. by apply (stirred_active _ _ Hs).
  - destruct (Forall2_lookup_l _ _ _ _ _ HF E) as (c1 & ? & Hs). exists c1. split; [done|]. by apply (stirred_active _ _ Hs).
Qed.

Lemma alive_stirred cs cs' npid init addr h h' :
  alive cs npid init addr h → Forall2 stirred cs cs' →
  (∀ q n, forks (h' q) n ↔ forks (h q) n) → (∀ q n, h' q = PAdopt n ↔ h q = PAdopt n) →
  (∀ r, init = Some r → h' r ≠ PExit) →
  (∀ q c, h' q = PWait → cs' !! q = Some c → c_state c = SLEEPING → c_chan c = addr (Some q) ∧ no_zombies cs q) →
  alive cs' npid init addr h'.
Proof.
  intros H HF Hfk Had Hex Hw.
  assert (∀ i c', cs' !! i = Some c' → ∃ c, cs !! i = Some c ∧ stirred c c') as Hback by (intros; by eapply Forall2_lookup_r').
  assert (∀ i c, cs !! i = Some c → ∃ c', cs' !! i = Some c' ∧ stirred c c') as Hfwd by (intros; by eapply Forall2_lookup_l).
  split.
  - rewrite <- (Forall2_length _ _ _ HF). apply (al_len _ _ _ _ _ H).
  - apply (al_npid _ _ _ _ _ H).
  - destruct (al_init _ _ _ _ _ H) as (r & Er & Ha & _). exists r. split_and!; [done|by apply (stirred_is_active cs)|by apply Hex].
  - intros i j ci cj Ei Ej Hi Hj Ep. destruct (Hback i ci Ei) as (di & Edi & Si), (Hback j cj Ej) as (dj & Edj & Sj).
    apply (al_pid _ _ _ _ _ H i j di dj); try done; [by rewrite <- (stirred_state _ _ UNUSED Si)|by rewrite <- (stirred_state _ _ UNUSED Sj)|].
    destruct Si as (<- & _), Sj as (<- & _). done.
  - intros i c Ei Hi. destruct (Hback i c Ei) as (d & Ed & Sd). rewrite (proj1 Sd).
    apply (al_range _ _ _ _ _ H i); [done|]. by rewrite <- (stirred_state _ _ UNUSED Sd).
  - intros i c Ei Hi. destruct (Hback i c Ei) as (d & Ed & Sd). assert (c_parent c = c_parent d) as -> by apply Sd.
    apply (al_free _ _ _ _ _ H i); [done|]. by rewrite <- (stirred_state _ _ UNUSED Sd).
  - intros n c En Hn. destruct (Hback n c En) as (d & Ed & Sd). destruct (al_used _ _ _ _ _ H n d Ed) as [q Hq].
    { by rewrite <- (stirred_state _ _ USED Sd). }
    exists q. by apply Hfk.
  - intros q n Hq%Had. destruct (al_adopt _ _ _ _ _ H q n Hq) as (d & Ed & Hst & Hp). destruct (Hfwd n d Ed) as (c & Ec & Sd).
    exists c. split_and!; [done|by apply (stirred_state _ _ USED Sd)|]. by rewrite (proj1 (proj2 Sd)).
  - intros q n Hq. assert (h q = PReady n) as Hq'.
    { destruct (Hfk q n) as [Hf _]. destruct Hf as [Hf|Hf]; [by right| |done]. apply Had in Hf. congruence. }
    destruct (al_ready _ _ _ _ _ H q n Hq') as (d & Ed & Hst & Hp). destruct (Hfwd n d Ed) as (c & Ec & Sd).
    exists c. split_and!; [done|by apply (stirred_state _ _ USED Sd)|]. by rewrite (proj1 (proj2 Sd)).
  - intros q n Hq%Hfk. apply (stirred_is_active cs); [done|]. by apply (al_forker _ _ _ _ _ H q n).
  - intros q q' n Hq%Hfk Hq'%Hfk. by apply (al_unique _ _ _ _ _ H q q' n).
  - intros i c q Ei Hp. destruct (Hback i c Ei) as (d & Ed & Sd). apply (stirred_is_active cs); [done|].
    apply (al_parent _ _ _ _ _ H i d); [done|]. by rewrite <- (proj1 (proj2 Sd)).
  - intros i c Ei Hst Hi. destruct (Hback i c Ei) as (d & Ed & Sd). rewrite (proj1 (proj2 Sd)).
    apply (al_orphan _ _ _ _ _ H i); [done| |done]. by rewrite <- (stirred_active _ _ Sd), <- (stirred_state _ _ ZOMBIE Sd).
  - intros q c Hq Ec Hst. destruct (Hw q c Hq Ec Hst) as [? Hz]. split; [done|]. intros k d (Ek & Hp & Hzm).
    destruct (Hback k d Ek) as (e & Ee & Se). apply (Hz k e). split_and!; [done|by rewrite <- (proj1 (proj2 Se))|].
    by rewrite <- (stirred_state _ _ ZOMBIE Se).
Qed.

(** ** Birth *)

Lemma alter_Some (f : core → core) i (cs : list core) j c' :
  alter f i cs !! j = Some c' → (j = i ∧ ∃ c, cs !! i = Some c ∧ c' = f c) ∨ (j ≠ i ∧ cs !! j = Some c').
Proof.
  destruct (decide (j = i)) as [->|]; [rewrite list_lookup_alter_eq|rewrite list_lookup_alter_ne by done; auto].
  destruct (cs !! i) eqn:E; simpl; [|done]. intros [= <-]. eauto.
Qed.

Lemma alter_at (f : core → core) i (cs : list core) c : cs !! i = Some c → alter f i cs !! i = Some (f c).
Proof. intros E. by rewrite list_lookup_alter_eq, E. Qed.

(** Changes of a process that is not active and stays so. *)
Lemma is_active_alter f n c cs i :
  cs !! n = Some c → ¬ active (c_state c) → ¬ active (c_state (f c)) → is_active (alter f n cs) i ↔ is_active cs i.
Proof.
  intros En H1 H2. split; intros (d & Ed & Ha).
  - apply alter_Some in Ed as [(-> & c' & ? & ->)|(? & ?)]; [by simplify_eq|by exists d].
  - destruct (decide (i = n)) as [->|]; [by simplify_eq|]. exists d. by rewrite list_lookup_alter_ne.
Qed.

Section Alive.

Context (cs : list core) (npid : Z) (init : option nat) (addr : option nat → Z) (h : nat → phase).

Hypothesis H : alive cs npid init addr h.

(** A process that is not active forks nothing and is nobody's parent. *)
Lemma inactive_forks n c m : cs !! n = Some c → ¬ active (c_state c) → ¬ forks (h n) m.
Proof. intros En Ha Hf. destruct (al_forker _ _ _ _ _ H n m Hf) as (d & Ed & ?). by simplify_eq. Qed.

Lemma inactive_parent n c i d : cs !! n = Some c → ¬ active (c_state c) → cs !! i = Some d → c_parent d ≠ Some n.
Proof. intros En Ha Ei Hp. destruct (al_parent _ _ _ _ _ H i d n Ei Hp) as (e & Ee & ?). by simplify_eq. Qed.

Lemma inactive_init n c : cs !! n = Some c → ¬ active (c_state c) → init ≠ Some n.
Proof. intros En Ha Hi. destruct (al_init _ _ _ _ _ H) as (r & Er & (d & Ed & ?) & _). by simplify_eq. Qed.

(** A slot becomes free. *)
Lemma alive_free n c npid' :
  cs !! n = Some c → c_state c = UNUSED ∨ c_state c = ZOMBIE → npid ≤ npid' →
  alive (alter (λ _, free_core) n cs) npid' init addr h.
Proof.
  intros En Hst Hnp. assert (¬ active (c_state c)) as Ha by (destruct Hst as [-> | ->]; auto).
  pose proof (λ i, is_active_alter (λ _, free_core) n c cs i En Ha unused_not_active) as Hact.
  assert (∀ i d, alter (λ _, free_core) n cs !! i = Some d → c_state d ≠ UNUSED → cs !! i = Some d) as Hback.
  { intros i d Ed Hd. apply alter_Some in Ed as [(-> & c' & ? & ->)|(? & ?)]; done. }
  assert (∀ i d, cs !! i = Some d → c_state d = USED → alter (λ _, free_core) n cs !! i = Some d) as Hkeep.
  { intros i d Ed Hd. rewrite list_lookup_alter_ne; [done|]. intros ->. simplify_eq. by destruct Hst; congruence. }
  split.
  - rewrite length_alter. apply (al_len _ _ _ _ _ H).
  - pose proof (al_npid _ _ _ _ _ H). lia.
  - destruct (al_init _ _ _ _ _ H) as (r & Er & Hr & Hx). exists r. split_and!; [done|by apply Hact|done].
  - intros i j ci cj Ei Ej Hi Hj. apply (al_pid _ _ _ _ _ H); auto.
  - intros i d Ed Hd. pose proof (al_range _ _ _ _ _ H i d (Hback i d Ed Hd) Hd). lia.
  - intros i d Ed Hd. apply alter_Some in Ed as [(-> & c' & ? & ->)|(? & ?)]; [done|by apply (al_free _ _ _ _ _ H i)].
  - intros i d Ed Hd. apply (al_used _ _ _ _ _ H i d); [|done]. apply Hback; [done|congruence].
  - intros q m Hq. destruct (al_adopt _ _ _ _ _ H q m Hq) as (d & Ed & Hd & ?). exists d. auto.
  - intros q m Hq. destruct (al_ready _ _ _ _ _ H q m Hq) as (d & Ed & Hd & ?). exists d. auto.
  - intros q m Hq. by eapply Hact, (al_forker _ _ _ _ _ H).
  - apply (al_unique _ _ _ _ _ H).
  - intros i d q Ed Hp. apply Hact. apply alter_Some in Ed as [(-> & c' & ? & ->)|(? & ?)]; [done|by eapply (al_parent _ _ _ _ _ H)].
  - intros i d Ed Hd. assert (c_state d ≠ UNUSED) by (intros E; rewrite E in Hd; destruct Hd; [by apply unused_not_active|done]).
    apply (al_orphan _ _ _ _ _ H i); auto.
  - intros q d Hq Ed Hd. assert (cs !! q = Some d) as Ed' by (apply Hback; [done|congruence]).
    destruct (al_wait _ _ _ _ _ H q d Hq Ed' Hd) as [? Hz]. split; [done|].
    intros k e (Ek & ? & Ez). apply (Hz k e). split_and!; [|done|done]. apply Hback; [done|congruence].
Qed.

(** A child is made by process [i]: it has a fresh pid and no parent yet. *)
Lemma alive_create n c i :
  cs !! n = Some c → c_state c = UNUSED → is_active cs i → h i = PRun →
  alive (alter (λ c, with_state USED (with_pid npid c)) n cs) (npid + 1) init addr (upd (upd h n PRun) i (PAdopt n)).
Proof.
  intros En Hst Hi Hr. assert (¬ active (c_state c)) as Ha by (rewrite Hst; auto).
  set (f := λ c, with_state USED (with_pid npid c)).
  pose proof (λ k, is_active_alter f n c cs k En Ha used_not_active) as Hact.
  assert (i ≠ n) as Hin by (intros ->; destruct Hi as (d & Ed & ?); by simplify_eq).
  assert (∀ q m, forks (upd (upd h n PRun) i (PAdopt n) q) m → (q = i ∧ m = n) ∨ forks (h q) m) as Hfk.
  { intros q m. unfold upd. repeat case_decide; [intros [[= ->]|?]; [by left|done]|by intros [?|?]|by right]. }
  assert (∀ q m, forks (h q) m → m ≠ n ∧ upd (upd h n PRun) i (PAdopt n) q = h q) as Hfk'.
  { intros q m Hf. split.
    - intros ->. destruct Hf as [Hf|Hf]; [destruct (al_adopt _ _ _ _ _ H q n Hf) as (d & ? & ? & _)|destruct (al_ready _ _ _ _ _ H q n Hf) as (d & ? & ? & _)]; simplify_eq; congruence.
    - rewrite !upd_ne; [done| |]; intros ->; [by destruct (inactive_forks n c m En Ha)|rewrite Hr in Hf; by destruct Hf]. }
  pose proof (al_npid _ _ _ _ _ H) as Hnp. split.
  - rewrite length_alter. apply (al_len _ _ _ _ _ H).
  - lia.
  - destruct (al_init _ _ _ _ _ H) as (r & Er & Har & Hx). exists r. split_and!; [done|by apply Hact|].
    unfold upd. by repeat case_decide.
  - intros a b ca cb Ea Eb Hsa Hsb Ep. apply alter_Some in Ea as [(-> & c' & ? & ->)|(? & Ea)], Eb as [(-> & c'' & ? & ->)|(? & Eb)]; [done| | |].
    + simpl in Ep. pose proof (al_range _ _ _ _ _ H b cb Eb Hsb). lia.
    + simpl in Ep. pose proof (al_range _ _ _ _ _ H a ca Ea Hsa). lia.
    + by apply (al_pid _ _ _ _ _ H a b ca cb).
  - intros a d Ed Hd. apply alter_Some in Ed as [(-> & c' & ? & ->)|(? & Ed)]; [simpl; lia|]. pose proof (al_range _ _ _ _ _ H a d Ed Hd). lia.
  - intros a d Ed Hd. apply alter_Some in Ed as [(-> & c' & ? & ->)|(? & Ed)]; [done|by apply (al_free _ _ _ _ _ H a)].
  - intros a d Ed Hd. apply alter_Some in Ed as [(-> & c' & ? & ->)|(? & Ed)]; [exists i; rewrite upd_eq; by left|].
    destruct (al_used _ _ _ _ _ H a d Ed Hd) as [q Hq]. exists q. by rewrite (proj2 (Hfk' q a Hq)).
  - intros q m Hq. destruct (Hfk q m (or_introl Hq)) as [[-> ->]|Hf].
    + exists (f c). split_and!; [by apply alter_at|done|exact (al_free _ _ _ _ _ H n c En Hst)].
    + destruct (Hfk' q m Hf) as [Hm E]. rewrite E in Hq. destruct (al_adopt _ _ _ _ _ H q m Hq) as (d & ? & ? & ?).
      exists d. by rewrite list_lookup_alter_ne.
  - intros q m Hq. destruct (Hfk q m (or_intror Hq)) as [[-> ->]|Hf]; [by rewrite upd_eq in Hq|].
    destruct (Hfk' q m Hf) as [Hm E]. rewrite E in Hq. destruct (al_ready _ _ _ _ _ H q m Hq) as (d & ? & ? & ?).
    exists d. by rewrite list_lookup_alter_ne.
  - intros q m [[-> ->]|Hf]%Hfk; apply Hact; [done|by eapply (al_forker _ _ _ _ _ H)].
  - intros q q' m [[-> ->]|Hf]%Hfk [[-> E]|Hf']%Hfk; [done|by destruct (Hfk' q' n Hf')|subst m; by destruct (Hfk' q n Hf)|].
    by eapply (al_unique _ _ _ _ _ H).
  - intros a d q Ed Hp. apply Hact. apply alter_Some in Ed as [(-> & c' & E' & ->)|(? & Ed)]; [|by eapply (al_parent _ _ _ _ _ H)].
    simpl in Hp. by eapply (al_parent _ _ _ _ _ H).
  - intros a d Ed Hd. apply alter_Some in Ed as [(-> & c' & E' & ->)|(? & Ed)]; [by destruct Hd as [[|[|]]|]|by apply (al_orphan _ _ _ _ _ H a)].
  - intros q d Hq Ed Hd. unfold upd in Hq. repeat case_decide; try done. rewrite list_lookup_alter_ne in Ed by done.
    destruct (al_wait _ _ _ _ _ H q d Hq Ed Hd) as [? Hz]. split; [done|].
    intros k e (Ek & Hp & Ez). apply alter_Some in Ek as [(-> & c' & E' & ->)|(? & Ek)]; [done|by apply (Hz k e)].
Qed.

(** The child gets its parent. *)
Lemma alive_adopt i n :
  h i = PAdopt n → alive (alter (with_parent (Some i)) n cs) npid init addr (upd h i (PReady n)).
Proof.
  intros Hi. destruct (al_adopt _ _ _ _ _ H i n Hi) as (c & En & Hst & Hp).
  assert (is_active cs i) as Hai by (apply (al_forker _ _ _ _ _ H i n); by left).
  assert (¬ active (c_state c)) as Ha by (rewrite Hst; auto).
  pose proof (λ k, is_active_alter (with_parent (Some i)) n c cs k En Ha Ha) as Hact.
  assert (∀ q m, forks (upd h i (PReady n) q) m ↔ forks (h q) m) as Hfk.
  { intros q m. unfold upd, forks. case_decide; subst; [|done]. rewrite Hi. split; intros [[= ->]|[= ->]]; auto. }
  assert (∀ k d, alter (with_parent (Some i)) n cs !! k = Some d →
    ∃ e, cs !! k = Some e ∧ c_pid d = c_pid e ∧ c_state d = c_state e ∧ c_chan d = c_chan e ∧ (d = e ∨ k = n)) as Hback.
  { intros k d Ed. apply alter_Some in Ed as [(-> & e & ? & ->)|(? & ?)]; [by exists e; eauto 10|exists d; eauto 10]. }
  split.
  - rewrite length_alter. apply (al_len _ _ _ _ _ H).
  - apply (al_npid _ _ _ _ _ H).
  - destruct (al_init _ _ _ _ _ H) as (r & Er & Har & Hx). exists r. split_and!; [done|by apply Hact|]. unfold upd. by case_decide.
  - intros a b ca cb (ea & Ea & Pa & Sa & _)%Hback (eb & Eb & Pb & Sb & _)%Hback. rewrite Pa, Pb, Sa, Sb. by apply (al_pid _ _ _ _ _ H).
  - intros a d (e & Ee & -> & -> & _)%Hback. by apply (al_range _ _ _ _ _ H a).
  - intros a d (e & Ee & _ & Es & _ & [->| ->])%Hback Hd; [by apply (al_free _ _ _ _ _ H a)|]. simplify_eq. congruence.
  - intros m d (e & Ee & _ & -> & _)%Hback Hd. destruct (al_used _ _ _ _ _ H m e Ee Hd) as [q ?]. exists q. by apply Hfk.
  - intros q m Hq. unfold upd in Hq. case_decide; [done|]. assert (m ≠ n).
    { intros ->. assert (q = i); [|done]. by apply (al_unique _ _ _ _ _ H q i n); left. }
    rewrite list_lookup_alter_ne by done. by apply (al_adopt _ _ _ _ _ H q).
  - intros q m Hq. destruct (decide (q = i)) as [->|]; rewrite_upd.
    + injection Hq as <-. exists (with_parent (Some i) c). by split; [apply alter_at|].
    + assert (m ≠ n). { intros ->. assert (q = i); [|done]. apply (al_unique _ _ _ _ _ H q i n); [by right|by left]. }
      rewrite list_lookup_alter_ne by done. by apply (al_ready _ _ _ _ _ H q).
  - intros q m Hq%Hfk. by eapply Hact, (al_forker _ _ _ _ _ H).
  - intros q q' m Hq%Hfk Hq'%Hfk. by eapply (al_unique _ _ _ _ _ H).
  - intros a d q Ed Hq. apply Hact. apply alter_Some in Ed as [(-> & e & ? & ->)|(? & ?)]; [|by eapply (al_parent _ _ _ _ _ H)].
    simpl in Hq. by simplify_eq.
  - intros a d Ed Hd. apply alter_Some in Ed as [(-> & e & ? & ->)|(? & ?)]; [done|by apply (al_orphan _ _ _ _ _ H a)].
  - intros q d Hq (e & Ee & _ & -> & -> & _)%Hback Hd. unfold upd in Hq. case_decide; [done|].
    destruct (al_wait _ _ _ _ _ H q e Hq Ee Hd) as [? Hz]. split; [done|]. intros k x (Ek & Hpx & Ez).
    apply Hback in Ek as (y & Ey & _ & Es & _ & [->| ->]); [by apply (Hz k y)|]. simplify_eq. congruence.
Qed.

(** The child becomes RUNNABLE. *)
Lemma alive_ready i n :
  h i = PReady n → alive (alter (with_state RUNNABLE) n cs) npid init addr (upd h i PRun).
Proof.
  intros Hi. destruct (al_ready _ _ _ _ _ H i n Hi) as (c & En & Hst & Hp).
  assert (is_active cs i) as Hai by (apply (al_forker _ _ _ _ _ H i n); by right).
  assert (∀ k, is_active cs k → is_active (alter (with_state RUNNABLE) n cs) k) as Hact.
  { intros k (d & Ed & Ha). destruct (decide (k = n)) as [->|]; [|exists d; by rewrite list_lookup_alter_ne].
    eexists. split; [by apply alter_at|]. right. by left. }
  assert (∀ q m, forks (upd h i PRun q) m ↔ forks (h q) m ∧ m ≠ n) as Hfk.
  { intros q m. unfold upd. case_decide; subst.
    - rewrite Hi. split; [by intros [?|?]|]. intros [[?|[= ->]] ?]; done.
    - split; [|tauto]. intros Hf. split; [done|]. intros ->. assert (q = i); [|done]. apply (al_unique _ _ _ _ _ H q i n); [done|by right]. }
  assert (∀ k d, alter (with_state RUNNABLE) n cs !! k = Some d →
    ∃ e, cs !! k = Some e ∧ c_pid d = c_pid e ∧ c_parent d = c_parent e ∧ c_chan d = c_chan e ∧
      ((d = e ∧ k ≠ n) ∨ (k = n ∧ c_state d = RUNNABLE ∧ c_state e = USED))) as Hback.
  { intros k d Ed. apply alter_Some in Ed as [(-> & e & ? & ->)|(? & ?)]; [exists e; simplify_eq; eauto 10|exists d; eauto 10]. }
  assert (∀ k d e, (d = e ∧ k ≠ n) ∨ (k = n ∧ c_state d = RUNNABLE ∧ c_state e = USED) → c_state d ≠ UNUSED → c_state e ≠ UNUSED) as Hlive.
  { intros k d e [[-> ?]|(? & ? & ->)]; done. }
  split.
  - rewrite length_alter. apply (al_len _ _ _ _ _ H).
  - apply (al_npid _ _ _ _ _ H).
  - destruct (al_init _ _ _ _ _ H) as (r & Er & Har & Hx). exists r. split_and!; [done|by apply Hact|]. unfold upd. by case_decide.
  - intros a b ca cb (ea & Ea & Pa & _ & _ & Sa)%Hback (eb & Eb & Pb & _ & _ & Sb)%Hback Ha Hb. rewrite Pa, Pb.
    apply (al_pid _ _ _ _ _ H); eauto.
  - intros a d (e & Ee & -> & _ & _ & Sa)%Hback Hd. apply (al_range _ _ _ _ _ H a); eauto.
  - intros a d (e & Ee & _ & -> & _ & [[-> ?]|(? & ? & ?)])%Hback Hd; [by apply (al_free _ _ _ _ _ H a)|congruence].
  - intros m d (e & Ee & _ & _ & _ & [[-> ?]|(? & ? & ?)])%Hback Hd; [|congruence].
    destruct (al_used _ _ _ _ _ H m e Ee Hd) as [q ?]. exists q. by apply Hfk.
  - intros q m Hq. destruct (Hfk q m) as [[Hf ?] _]; [by left|]. rewrite list_lookup_alter_ne by done.
    unfold upd in Hq. case_decide; [done|]. by apply (al_adopt _ _ _ _ _ H q).
  - intros q m Hq. destruct (Hfk q m) as [[Hf ?] _]; [by right|]. rewrite list_lookup_alter_ne by done.
    unfold upd in Hq. case_decide; [done|]. by apply (al_ready _ _ _ _ _ H q).
  - intros q m [Hq _]%Hfk. by eapply Hact, (al_forker _ _ _ _ _ H).
  - intros q q' m [Hq _]%Hfk [Hq' _]%Hfk. by eapply (al_unique _ _ _ _ _ H).
  - intros a d q (e & Ee & _ & -> & _)%Hback Hq. by eapply Hact, (al_parent _ _ _ _ _ H).
  - intros a d (e & Ee & _ & -> & _ & [[-> ?]|(-> & ? & ?)])%Hback Hd; [by apply (al_orphan _ _ _ _ _ H a)|]. by simplify_eq; rewrite Hp.
  - intros q d Hq (e & Ee & _ & _ & -> & [[-> ?]|(-> & ? & ?)])%Hback Hd; [|congruence]. unfold upd in Hq. case_decide; [done|].
    destruct (al_wait _ _ _ _ _ H q e Hq Ee Hd) as [? Hz]. split; [done|]. intros k x (Ek & Hpx & Ez).
    apply Hback in Ek as (y & Ey & _ & Ep & _ & [[-> ?]|(-> & ? & ?)]); [by apply (Hz k y)|congruence].
Qed.

End Alive.

(** ** Death *)

Lemma wake_all_lookup me chan cs j : wake_all me chan cs !! j = woken me chan j <$> cs !! j.
Proof. apply list_lookup_imap. Qed.

(** A process woken or not: nothing else changes, and nobody sleeps on the
    channel any more. *)
Definition roused (c c' : core) : Prop :=
  c_pid c' = c_pid c ∧ c_chan c' = c_chan c ∧ (c_state c' = c_state c ∨ (c_state c = SLEEPING ∧ c_state c' = RUNNABLE)).

Lemma woken_roused me chan j c : roused c (woken me chan j c) ∧ c_parent (woken me chan j c) = c_parent c.
Proof. unfold roused, woken. case_decide as E; simpl; [|naive_solver]. destruct E as (_ & E & _). naive_solver. Qed.

Lemma woken_awake me chan j c : j ≠ me → c_state (woken me chan j c) = SLEEPING → c_chan c ≠ chan.
Proof. intros Hj. unfold woken. case_decide as E; [done|]. intros Hs Hc. by apply E. Qed.

Lemma roused_trans c1 c2 c3 : roused c1 c2 → roused c2 c3 → roused c1 c3.
Proof.
  intros (P1 & C1 & S1) (P2 & C2 & S2). split_and!; [congruence|congruence|].
  destruct S1 as [S1|[S1 S1']], S2 as [S2|[S2 S2']]; rewrite ?S1, ?S2 in *; try done; eauto; try congruence.
Qed.

(** What [reparent] has done after [n] rounds. *)
Definition adopted (me : nat) (init : option nat) (n j : nat) (c : core) : option nat :=
  if decide ((j < n)%nat ∧ c_parent c = Some me) then init else c_parent c.

Lemma adopted_S me init n j c :
  adopted me init (S n) j c = if decide (j = n ∧ c_parent c = Some me) then init else adopted me init n j c.
Proof.
  unfold adopted. repeat case_decide; try done; exfalso; destruct_and?.
  - destruct (decide (j = n)); [by auto|]. assert (j < n)%nat by lia. auto.
  - assert (j < S n)%nat by lia. auto.
  - assert (j < S n)%nat by lia. auto.
Qed.

Lemma reparent_upto_spec me init chan cs n j c :
  cs !! j = Some c →
  ∃ c', reparent_upto me init chan cs n !! j = Some c' ∧ roused c c' ∧ c_parent c' = adopted me init n j c ∧
    ((∃ k d, (k < n)%nat ∧ cs !! k = Some d ∧ c_parent d = Some me) → j ≠ me → c_state c' = SLEEPING → c_chan c' ≠ chan).
Proof.
  revert j c. induction n as [|n IH]; intros j c Ej.
  { exists c. assert (adopted me init 0 j c = c_parent c) as -> by (unfold adopted; case_decide; [lia|done]).
    split_and!; [done|by repeat split; left|done|]. intros (k & d & ? & _). lia. }
  destruct (IH j c Ej) as (c' & Ec & Hr & Hp & Hs). rewrite reparent_upto_S, adopted_S. unfold reparent_one.
  destruct (cs !! n) as [d|] eqn:En.
  2:{ assert (reparent_upto me init chan cs n !! n = None) as ->.
      { apply lookup_ge_None. rewrite length_reparent_upto. by apply lookup_ge_None. }
      exists c'. split_and!; [done|done|rewrite decide_False; [done|]; intros [-> _]; congruence|].
      intros (k & e & Hk & Ee & ?). apply Hs. exists k, e. split; [|done]. assert (k ≠ n) by congruence. lia. }
  destruct (IH n d En) as (d' & Ed & _ & Hpd & _). rewrite Ed. assert (c_parent d' = c_parent d) as Epd.
  { rewrite Hpd. unfold adopted. rewrite decide_False; [done|lia]. }
  rewrite Epd. case_decide as Hme.
  - rewrite wake_all_lookup. destruct (decide (j = n)) as [->|Hj].
    + rewrite list_lookup_alter_eq, Ed. simplify_eq. simpl. eexists. split; [done|].
      destruct (woken_roused me chan n (with_parent init c')) as [Hw Hwp]. split_and!.
      * eapply roused_trans; [exact Hr|]. done.
      * rewrite Hwp, decide_True by done. done.
      * intros _ Hn Hst. pose proof (woken_awake me chan n _ Hn Hst) as Hc. by rewrite (proj1 (proj2 Hw)).
    + rewrite list_lookup_alter_ne, Ec by done. simpl. eexists. split; [done|].
      destruct (woken_roused me chan j c') as [Hw Hwp]. split_and!.
      * by eapply roused_trans.
      * rewrite Hwp, decide_False; [done|]. by intros [? _].
      * intros _ Hn Hst. pose proof (woken_awake me chan j _ Hn Hst) as Hc. by rewrite (proj1 (proj2 Hw)).
  - exists c'. split_and!; [done|done|rewrite decide_False; [done|]; intros [-> ?]; congruence|].
    intros (k & e & Hk & Ee & ?). apply Hs. exists k, e. split; [|done]. assert (k ≠ n) by (intros ->; congruence). lia.
Qed.

(** What [exit] does to process [j]. *)
Lemma exited_spec me init addr cs cm j c :
  cs !! me = Some cm → init ≠ None → length cs = Z.to_nat Vm.NPROC → cs !! j = Some c →
  ∃ c', exited me init addr cs !! j = Some c' ∧ c_pid c' = c_pid c ∧ c_chan c' = c_chan c ∧
    c_parent c' = (if decide (c_parent c = Some me) then init else c_parent c) ∧
    (if decide (j = me) then c_state c' = ZOMBIE
     else c_state c' = c_state c ∨ (c_state c = SLEEPING ∧ c_state c' = RUNNABLE)) ∧
    (j ≠ me → c_state c' = SLEEPING →
       c_chan c ≠ addr (if decide (c_parent cm = Some me) then init else c_parent cm) ∧
       ((∃ k d, cs !! k = Some d ∧ c_parent d = Some me) → c_chan c ≠ addr init)).
Proof.
  intros Em Hi Hl Ej. unfold exited. cbv zeta. set (n := Z.to_nat Vm.NPROC) in *.
  destruct (reparent_upto_spec me init (addr init) cs n me cm Em) as (cm' & Em' & _ & Hpm & _).
  destruct (reparent_upto_spec me init (addr init) cs n j c Ej) as (c1 & E1 & Hr & Hp & Hs).
  assert (∀ k d, cs !! k = Some d → adopted me init n k d = if decide (c_parent d = Some me) then init else c_parent d) as Had.
  { intros k d Ed. apply lookup_lt_Some in Ed. unfold adopted. assert (k < n)%nat by lia. repeat case_decide; naive_solver. }
  rewrite Em'. simpl. rewrite Hpm, (Had me cm Em). rewrite (Had j c Ej) in Hp.
  set (ch := addr (if decide (c_parent cm = Some me) then init else c_parent cm)).
  destruct (woken_roused me ch j c1) as [Hw Hwp]. pose proof (roused_trans _ _ _ Hr Hw) as (P & C & S).
  exists (if decide (j = me) then with_state ZOMBIE (woken me ch j c1) else woken me ch j c1). split_and!.
  - destruct (decide (j = me)) as [->|].
    + by rewrite list_lookup_alter_eq, wake_all_lookup, E1.
    + by rewrite list_lookup_alter_ne, wake_all_lookup, E1.
  - by destruct (decide (j = me)).
  - by destruct (decide (j = me)).
  - destruct (decide (j = me)); simpl; by rewrite Hwp.
  - by destruct (decide (j = me)).
  - intros Hj Hst. rewrite decide_False in Hst by done. split.
    + pose proof (woken_awake me ch j c1 Hj Hst) as Hc. by rewrite <- (proj1 (proj2 Hr)).
    + intros (k & d & Ek & Hk). rewrite <- (proj1 (proj2 Hr)). apply Hs; [|done|].
      * exists k, d. split_and!; [|done|done]. apply lookup_lt_Some in Ek. lia.
      * destruct Hw as (_ & _ & [Hw|[Hw Hw']]); congruence.
Qed.

Lemma length_exited me init addr cs : length (exited me init addr cs) = length cs.
Proof. unfold exited. by rewrite length_alter, length_wake_all, length_reparent_upto. Qed.

Section Exit.

Context (cs : list core) (npid : Z) (init : option nat) (addr : option nat → Z) (h : nat → phase) (me : nat) (cm : core).

Hypothesis H : alive cs npid init addr h.
Hypothesis Em : cs !! me = Some cm.
Hypothesis Ham : active (c_state cm).
Hypothesis Hinit : init ≠ Some me.

Lemma exited_back j c' :
  exited me init addr cs !! j = Some c' → ∃ c, cs !! j = Some c ∧ c_pid c' = c_pid c ∧ c_chan c' = c_chan c ∧
    c_parent c' = (if decide (c_parent c = Some me) then init else c_parent c) ∧
    (if decide (j = me) then c_state c' = ZOMBIE
     else c_state c' = c_state c ∨ (c_state c = SLEEPING ∧ c_state c' = RUNNABLE)) ∧
    (j ≠ me → c_state c' = SLEEPING →
       c_chan c ≠ addr (if decide (c_parent cm = Some me) then init else c_parent cm) ∧
       ((∃ k d, cs !! k = Some d ∧ c_parent d = Some me) → c_chan c ≠ addr init)).
Proof.
  intros Ej. destruct (lookup_lt_is_Some_2 cs j) as [c Ec].
  { rewrite <- (length_exited me init addr cs). by eapply lookup_lt_Some. }
  destruct (al_init _ _ _ _ _ H) as (r & Er & _).
  destruct (exited_spec me init addr cs cm j c Em) as (d & Ed & Hd); [congruence|apply (al_len _ _ _ _ _ H)|done|].
  simplify_eq. eauto.
Qed.

(** The other processes keep what matters of their state. *)
Lemma exited_state j c c' x :
  (if decide (j = me) then c_state c' = ZOMBIE else c_state c' = c_state c ∨ (c_state c = SLEEPING ∧ c_state c' = RUNNABLE)) →
  cs !! j = Some c → j ≠ me → ¬ active x → c_state c' = x ↔ c_state c = x.
Proof.
  intros Hst Ej Hj Hx. rewrite decide_False in Hst by done. destruct Hst as [->|[E E']]; [done|].
  rewrite E, E'. split; intros <-; destruct Hx; [right; by left|by left].
Qed.

Lemma exited_active j : is_active (exited me init addr cs) j ↔ is_active cs j ∧ j ≠ me.
Proof.
  split.
  - intros (c' & Ej & Ha). destruct (exited_back j c' Ej) as (c & Ec & _ & _ & _ & Hst & _). destruct (decide (j = me)) as [->|Hj].
    + rewrite Hst in Ha. by destruct zombie_not_active.
    + split; [|done]. exists c. split; [done|]. destruct Hst as [<-|[-> _]]; [done|by left].
  - intros [(c & Ec & Ha) Hj]. destruct (lookup_lt_is_Some_2 (exited me init addr cs) j) as [c' Ec'].
    { rewrite length_exited. by eapply lookup_lt_Some. }
    exists c'. split; [done|]. destruct (exited_back j c' Ec') as (d & Ed & _ & _ & _ & Hst & _). simplify_eq.
    rewrite decide_False in Hst by done. destruct Hst as [->|[_ ->]]; [done|right; by left].
Qed.

Lemma exited_live j c' c :
  exited me init addr cs !! j = Some c' → cs !! j = Some c → c_state c' ≠ UNUSED → c_state c ≠ UNUSED.
Proof.
  intros Ej Ec Hl. destruct (exited_back j c' Ej) as (d & Ed & _ & _ & _ & Hst & _). simplify_eq.
  destruct (decide (j = me)) as [->|Hj]; [simplify_eq; by apply active_not in Ham as [? _]|].
  intros E. apply Hl. destruct Hst as [->|[E' _]]; congruence.
Qed.

(** No zombie is left with a parent that sleeps in [kwait]. *)
Lemma exited_no_zombies q c c' :
  no_zombies cs q → exited me init addr cs !! q = Some c' → cs !! q = Some c → q ≠ me → c_state c' = SLEEPING → c_chan c = addr (Some q) →
  no_zombies (exited me init addr cs) q.
Proof.
  intros Hz Eq Ecq Hq Hs Hc k d (Ek & Hp & Ez).
  destruct (exited_back q c' Eq) as (c0 & E0 & _ & _ & _ & _ & Hawake). simplify_eq. destruct (Hawake Hq Hs) as [Hw1 Hw2].
  destruct (exited_back k d Ek) as (e & Ee & _ & _ & Hpe & Hst & _). destruct (decide (k = me)) as [->|Hk].
  - simplify_eq. apply Hw1. by rewrite Hc, <- Hpe, Hp.
  - rewrite Hpe in Hp. destruct (decide (c_parent e = Some me)) as [Hme|Hme].
    + apply Hw2; [by exists k, e|]. by rewrite Hp.
    + apply (Hz k e). split_and!; [done|done|]. destruct Hst as [<-|[_ ?]]; [done|congruence].
Qed.

Lemma alive_exit :
  (∀ n, ¬ forks (h me) n) → alive (exited me init addr cs) npid init addr (upd h me PGone).
Proof.
  intros Hnf. destruct (al_init _ _ _ _ _ H) as (r & Er & Har & Hxr). assert (r ≠ me) as Hrm by congruence.
  assert (∀ q n, forks (upd h me PGone q) n ↔ forks (h q) n) as Hfk.
  { intros q n. unfold upd. case_decide; [subst|done]. split; [by intros [?|?]|]. intros Hf. by destruct (Hnf n). }
  assert (∀ q n, forks (h q) n → upd h me PGone q = h q) as Hph.
  { intros q n Hf. rewrite upd_ne; [done|]. intros ->. by destruct (Hnf n). }
  assert (∀ n d, cs !! n = Some d → c_state d = USED → ∃ d', exited me init addr cs !! n = Some d' ∧ c_state d' = USED ∧
    c_parent d' = if decide (c_parent d = Some me) then init else c_parent d) as Hused.
  { intros n d Ed Hd. destruct (lookup_lt_is_Some_2 (exited me init addr cs) n) as [d' Ed']; [rewrite length_exited; by eapply lookup_lt_Some|].
    destruct (exited_back n d' Ed') as (e & Ee & _ & _ & Hp & Hst & _). simplify_eq. exists d'. split_and!; [done| |done].
    eapply exited_state; [done|done| |auto|done]. intros ->. simplify_eq. rewrite Hd in Ham. by destruct used_not_active. }
  split.
  - rewrite length_exited. apply (al_len _ _ _ _ _ H).
  - apply (al_npid _ _ _ _ _ H).
  - exists r. split_and!; [done|by apply exited_active|by rewrite upd_ne].
  - intros i j ci cj Ei Ej Hi Hj. destruct (exited_back i ci Ei) as (di & Edi & -> & _), (exited_back j cj Ej) as (dj & Edj & -> & _).
    apply (al_pid _ _ _ _ _ H); [done|done|by eapply (exited_live i)|by eapply (exited_live j)].
  - intros i ci Ei Hi. destruct (exited_back i ci Ei) as (di & Edi & -> & _). apply (al_range _ _ _ _ _ H i); [done|by eapply (exited_live i)].
  - intros i ci Ei Hi. destruct (exited_back i ci Ei) as (di & Edi & _ & _ & -> & Hst & _).
    assert (i ≠ me) as Hne by (intros ->; rewrite decide_True in Hst by done; congruence).
    rewrite (al_free _ _ _ _ _ H i di Edi); [done|]. by apply (exited_state i di ci UNUSED Hst Edi Hne unused_not_active).
  - intros n c En Hn. destruct (exited_back n c En) as (d & Ed & _ & _ & _ & Hst & _).
    assert (n ≠ me) as Hne by (intros ->; rewrite decide_True in Hst by done; congruence).
    destruct (al_used _ _ _ _ _ H n d Ed) as [q ?]; [by apply (exited_state n d c USED Hst Ed Hne used_not_active)|]. exists q. by apply Hfk.
  - intros q n Hq. pose proof (proj1 (Hfk q n) (or_introl Hq)) as Hf. rewrite (Hph q n Hf) in Hq.
    destruct (al_adopt _ _ _ _ _ H q n Hq) as (d & Ed & Hd & Hp). destruct (Hused n d Ed Hd) as (d' & ? & ? & E). exists d'. by rewrite E, Hp.
  - intros q n Hq. pose proof (proj1 (Hfk q n) (or_intror Hq)) as Hf. rewrite (Hph q n Hf) in Hq.
    destruct (al_ready _ _ _ _ _ H q n Hq) as (d & Ed & Hd & Hp). destruct (Hused n d Ed Hd) as (d' & ? & ? & E). exists d'.
    rewrite E, Hp, decide_False; [done|]. intros [= ->]. by destruct (Hnf n).
  - intros q n Hq%Hfk. apply exited_active. split; [by eapply (al_forker _ _ _ _ _ H)|]. intros ->. by destruct (Hnf n).
  - intros q q' n Hq%Hfk Hq'%Hfk. by eapply (al_unique _ _ _ _ _ H).
  - intros i c q Ei. destruct (exited_back i c Ei) as (d & Ed & _ & _ & -> & _). intros Hq. apply exited_active.
    case_decide as Hd; [by assert (q = r) as -> by congruence|]. split; [by eapply (al_parent _ _ _ _ _ H)|]. by intros ->.
  - intros i c Ei Hst Hi. destruct (exited_back i c Ei) as (d & Ed & _ & _ & -> & Hs & _). destruct (decide (c_parent d = Some me)); [by rewrite Er|].
    apply (al_orphan _ _ _ _ _ H i); [done| |done]. destruct (decide (i = me)) as [->|]; [simplify_eq; by left|].
    destruct Hs as [<-|[-> _]]; [done|left; by left].
  - intros q c Hq Ec Hs. unfold upd in Hq. case_decide as Hqm; [done|].
    destruct (exited_back q c Ec) as (d & Ed & _ & Hch & _ & Hst & _). rewrite decide_False in Hst by done.
    destruct Hst as [Hst|[_ Hst]]; [|congruence]. rewrite Hst in Hs. destruct (al_wait _ _ _ _ _ H q d Hq Ed Hs) as [Ha Hz].
    split; [congruence|]. eapply exited_no_zombies; try done. congruence.
Qed.

End Exit.
