(* ===== verification/ProcProps.v ===== *)
(** Processes in any interleaving of their system calls. *)

From S2P Require Import Prelude.
From S2P Require Import Sched.
From S2P Require Import Cstring.
From S2P Require Import Vm.
From S2P Require Import Sysproc.
From S2P Require Import Proc.
From S2P Require Import ProcSpec.
From S2P Require Import ProcLife.

Section System.

Context {A F : Type} (kalloc : prog A Z) (kfree : Z → prog A unit).

Context (filedup : Z → prog F Z) (fileclose : Z → prog F unit) (idup : Z → prog F Z) (iput_op : Z → prog F unit) (namei_root : prog F Z).

Context (forkret trampoline : Z).

(** * Steps *)

(** The table and where every process is in its code. *)
Record life := Life {
  tbl : procst A F;
  ph : nat → phase }.

Definition running (s : procst A F) (i : nat) : Prop := ∃ c, cores s !! i = Some c ∧ c_state c = RUNNING.

Definition from_sleep (p : phase) : bool :=
  match p with
  | PWait | PSleep => true
  | _ => false
  end.

Definition after_turn (p : phase) : phase :=
  match p with
  | PSleep => PRun
  | p => p
  end.

(** A running process executes a critical section, or the scheduler gives a
    process its turn.  A step ends where the code holds no lock. *)
Inductive lstep : life → life → Prop :=
  | l_fork i s h o s' :
      running s i → h i = PRun → fork_create kalloc kfree filedup idup forkret trampoline (set_myproc i s) = Ok (o, s') →
      lstep (Life s h) (Life s' (match o with Some (n, _) => upd (upd h n PRun) i (PAdopt n) | None => h end))
  | l_adopt i n s h s' :
      running s i → h i = PAdopt n → fork_adopt n (set_myproc i s) = Ok (tt, s') → lstep (Life s h) (Life s' (upd h i (PReady n)))
  | l_ready i n s h s' :
      running s i → h i = PReady n → fork_ready n (set_myproc i s) = Ok (tt, s') → lstep (Life s h) (Life s' (upd h i PRun))
  | l_files i s h s' :
      running s i → h i = PRun → exit_files fileclose iput_op (set_myproc i s) = Ok (tt, s') → lstep (Life s h) (Life s' (upd h i PExit))
  | l_exit i status s h s' :
      running s i → h i = PExit → exit_zombie status (set_myproc i s) = Ok (tt, s') → lstep (Life s h) (Life s' (upd h i PGone))
  | l_wait i addr s h r s' :
      running s i → h i = PRun ∨ h i = PWait → wait_try kalloc kfree addr (set_myproc i s) = Ok (r, s') →
      lstep (Life s h) (Life s' (upd h i (if r is Some _ then PRun else PWait)))
  | l_sleep i chan s h s' :
      running s i → h i = PRun → sleep_on chan (set_myproc i s) = Ok (tt, s') → lstep (Life s h) (Life s' (upd h i PSleep))
  | l_yield i s h s' :
      running s i → yield (set_myproc i s) = Ok (tt, s') → lstep (Life s h) (Life s' h)
  | l_wakeup i chan s h s' :
      running s i → wakeup chan (set_myproc i s) = Ok (tt, s') → lstep (Life s h) (Life s' h)
  | l_kill i pid s h r s' :
      running s i → kkill pid (set_myproc i s) = Ok (r, s') → lstep (Life s h) (Life s' h)
  | l_setkilled i s h s' :
      running s i → setkilled i (set_myproc i s) = Ok (tt, s') → lstep (Life s h) (Life s' h)
  | l_turn i s h b s' :
      turn i (from_sleep (h i)) s = Ok (b, s') → lstep (Life s h) (Life s' (if (b : bool) then upd h i (after_turn (h i)) else h)).

(** The machine after [userinit], run on a table that is all zero. *)
Definition life_init (l : life) : Prop :=
  ∃ s, cores s = replicate (Z.to_nat NPROC) free_core ∧ nextpid s = 1 ∧ ph l = (λ _, PRun) ∧
    userinit kalloc kfree namei_root forkret trampoline s = Ok (tt, tbl l).

Definition life_ok (l : life) : Prop :=
  alive (cores (tbl l)) (nextpid (tbl l)) (initproc (tbl l)) (proc_addr (tbl l)) (ph l).

Lemma life_ok_becomes s s' cs h :
  becomes s cs s' → alive cs (nextpid s) (initproc s) (proc_addr s) h → life_ok (Life s' h).
Proof. intros [E [E1 E2 E3 E4]]. unfold life_ok, proc_addr. simpl. by rewrite E, E1, E2, E3. Qed.

Lemma life_ok_me s h i : life_ok (Life s h) → life_ok (Life (set_myproc i s) h).
Proof. done. Qed.

Lemma running_active s i : running s i → is_active (cores s) i.
Proof. intros (c & E & Hc). exists c. split; [done|]. right. by right. Qed.

(** ** Changes of state *)

Lemma stirred_refl c : stirred c c.
Proof. repeat split. by left. Qed.

Lemma Forall2_alter f i (cs : list core) :
  (∀ c, cs !! i = Some c → stirred c (f c)) → Forall2 stirred cs (alter f i cs).
Proof.
  intros Hf. apply Forall2_same_length_lookup. split; [by rewrite length_alter|]. intros j c c' Ec Ec'.
  apply alter_Some in Ec' as [(-> & d & Ed & ->)|(? & ?)]; simplify_eq; [by apply Hf|apply stirred_refl].
Qed.

Lemma Forall2_wake me chan cs : Forall2 stirred cs (wake_all me chan cs).
Proof.
  apply Forall2_same_length_lookup. split; [by rewrite length_wake_all|]. intros j c c' Ec. rewrite wake_all_lookup, Ec. intros [= <-].
  destruct (woken_roused me chan j c) as [(P & C & S) Pa]. split_and!; [done|done|]. destruct S as [->|[E E']]; [by left|right].
  rewrite E, E'. split; [by left|right; by left].
Qed.

(** A step that changes no phase and puts nobody to sleep. *)
Lemma life_ok_stir s h cs' s' :
  life_ok (Life s h) → becomes s cs' s' → Forall2 stirred (cores s) cs' →
  (∀ i c c', cores s !! i = Some c → cs' !! i = Some c' → c_state c' = SLEEPING → c_state c = SLEEPING ∧ c_chan c' = c_chan c) →
  life_ok (Life s' h).
Proof.
  intros H Hb HF Hsl. eapply life_ok_becomes; [done|]. eapply alive_stirred; [exact H|done|done|done| |].
  - intros r Er. destruct (al_init _ _ _ _ _ H) as (r' & E & _ & ?). simpl in *. congruence.
  - intros q c' Hq Ec' Hs. destruct (Forall2_lookup_r' _ _ _ _ _ HF Ec') as (c & Ec & _).
    destruct (Hsl q c c' Ec Ec' Hs) as [Hs' ->]. by apply (al_wait _ _ _ _ _ H q c).
Qed.

(** A step of one process that keeps its state active; its new phase forks
    nothing and it is not asleep in [kwait]. *)
Lemma life_ok_own s h i f s' p :
  life_ok (Life s h) → running s i → becomes s (alter f i (cores s)) s' →
  (∀ c, cores s !! i = Some c → stirred c (f c) ∧ (p = PWait → c_state (f c) = SLEEPING → c_chan (f c) = proc_addr s (Some i) ∧ no_zombies (cores s) i)) →
  (∀ n, ¬ forks (h i) n) → (∀ n, ¬ forks p n) → (initproc s = Some i → p ≠ PExit) →
  life_ok (Life s' (upd h i p)).
Proof.
  intros H Hr Hb Hf Hn Hp Hx. eapply life_ok_becomes; [done|].
  assert (∀ q n, forks (upd h i p q) n ↔ forks (h q) n) as Hfk.
  { intros q n. unfold upd. case_decide; [subst|done]. split; intros ?; exfalso; naive_solver. }
  eapply alive_stirred; [exact H|apply Forall2_alter; intros; by apply Hf|done| | |].
  - intros q n. unfold upd. case_decide; [subst|done]. split; intros E; exfalso; [apply (Hp n)|apply (Hn n)]; by left.
  - intros r Er. unfold upd. case_decide; [subst; by apply Hx|]. destruct (al_init _ _ _ _ _ H) as (r' & E & _ & ?). simpl in *. congruence.
  - intros q c Hq Ec Hs. apply alter_Some in Ec as [(-> & d & Ed & ->)|(Hne & Ec)].
    + rewrite upd_eq in Hq. by apply Hf.
    + rewrite upd_ne in Hq by done. by apply (al_wait _ _ _ _ _ H q c).
Qed.

(** The same with the phase kept. *)
Lemma life_ok_keep s h i f s' :
  life_ok (Life s h) → running s i → becomes s (alter f i (cores s)) s' →
  (∀ c, c_state c = RUNNING → stirred c (f c) ∧ c_state (f c) ≠ SLEEPING) → life_ok (Life s' h).
Proof.
  intros H (c & Ec & Hc) Hb Hf. eapply life_ok_stir; [exact H|done| |].
  - apply Forall2_alter. intros d Ed. apply Hf. congruence.
  - intros j d d' Ed Ed' Hs. apply alter_Some in Ed' as [(-> & e & Ee & ->)|(_ & ?)]; [|by simplify_eq].
    destruct (Hf e) as [_ ?]; [congruence|done].
Qed.

Lemma stirred_running c c' :
  c_state c = RUNNING → c_pid c' = c_pid c → c_parent c' = c_parent c → active (c_state c') → stirred c c'.
Proof. intros Hc Hp Hpa Ha. split_and!; [done|done|]. right. split; [|done]. rewrite Hc. right. by right. Qed.

Lemma life_ok_fork i s h o s' :
  life_ok (Life s h) → running s i → h i = PRun → fork_create kalloc kfree filedup idup forkret trampoline (set_myproc i s) = Ok (o, s') →
  life_ok (Life s' (match o with Some (n, _) => upd (upd h n PRun) i (PAdopt n) | None => h end)).
Proof.
  intros H Hr Hi E. apply fork_create_post in E. destruct o as [[n pid]|]; simpl in E.
  - destruct E as (_ & c & Ec & Hst & _ & Hb). eapply life_ok_becomes; [exact Hb|]. simpl.
    eapply (alive_create _ _ _ _ _ H); [exact Ec|done|by apply running_active|done].
  - destruct E as [Hb|(n & c & Ec & Hst & Hb)]; eapply life_ok_becomes; try exact Hb; [exact H|]. simpl.
    eapply (alive_free _ _ _ _ _ H); [exact Ec|by left|simpl; lia].
Qed.

Lemma life_ok_wait i addr s h r s' :
  life_ok (Life s h) → running s i → h i = PRun ∨ h i = PWait → wait_try kalloc kfree addr (set_myproc i s) = Ok (r, s') →
  life_ok (Life s' (upd h i (if r is Some _ then PRun else PWait))).
Proof.
  intros H Hr Hi E. assert (∀ n, ¬ forks (h i) n) as Hn by (intros n [?|?]; destruct Hi; congruence).
  assert (length (cores s) = Z.to_nat NPROC) as Hl by apply (al_len _ _ _ _ _ H).
  apply (wait_try_post kalloc kfree (set_myproc i s) addr Hl) in E.
  assert (life_ok (Life s (upd h i PRun))) as H1.
  { eapply (life_ok_own s h i id); [done|done| |intros; split; [apply stirred_refl|done]|done|by intros n [?|?]|done].
    rewrite alter_same by done. apply becomes_refl. }
  destruct r as [v|]; simpl in E.
  - destruct E as [(k & c & (Ek & _ & Hz) & _ & Hb)|(_ & _ & Hb)]; eapply life_ok_becomes; try exact Hb; [|exact H1].
    eapply (alive_free _ _ _ _ _ H1); [exact Ek|by right|done].
  - destruct E as [Hz Hb]. eapply (life_ok_own (set_myproc i s) h i); [done|done|exact Hb| |done|by intros n [?|?]|done].
    intros c Ec. change (cores s !! i = Some c) in Ec. destruct Hr as (d & Ed & Hd). simplify_eq. split; [|done].
    apply stirred_running; [congruence|done|done|by left].
Qed.

(** Nothing changes in the table. *)
Lemma life_ok_same s h s' : life_ok (Life s h) → becomes s (cores s) s' → life_ok (Life s' h).
Proof. intros H Hb. by eapply life_ok_becomes. Qed.

(** A process is marked as killed. *)
Lemma life_ok_mark s h i k s' :
  life_ok (Life s h) → becomes (set_myproc i s) (alter (with_killed 1) k (cores s)) s' → life_ok (Life s' h).
Proof.
  intros H Hb. eapply (life_ok_stir (set_myproc i s)); [exact H|exact Hb| |].
  - apply Forall2_alter. intros d _. repeat split. by left.
  - intros j d d' Ed Ed' Hs. change (cores s !! j = Some d) in Ed. apply alter_Some in Ed' as [(-> & e & Ee & ->)|(_ & ?)]; by simplify_eq.
Qed.

Lemma life_ok_turn i s h b s' :
  life_ok (Life s h) → turn i (from_sleep (h i)) s = Ok (b, s') →
  life_ok (Life s' (if (b : bool) then upd h i (after_turn (h i)) else h)).
Proof.
  intros H E. apply turn_post in E. destruct b; [|by eapply life_ok_same]. destruct E as (c & Ec & Hc & Hb).
  eapply life_ok_becomes; [exact Hb|]. simpl.
  assert (∀ q n, upd h i (after_turn (h i)) q = PAdopt n ↔ h q = PAdopt n) as Ha.
  { intros q n. unfold upd. case_decide; [subst|done]. by destruct (h i). }
  assert (∀ q n, upd h i (after_turn (h i)) q = PReady n ↔ h q = PReady n) as Hr.
  { intros q n. unfold upd. case_decide; [subst|done]. by destruct (h i). }
  eapply alive_stirred; [exact H| | |done| |].
  - apply Forall2_alter. intros d Ed. simplify_eq. destruct (from_sleep (h i)); (split_and!; [done|done|]); right; rewrite Hc;
      (split; [right; by left|right; by right]).
  - intros q n. unfold forks. by rewrite Ha, Hr.
  - intros r Er. destruct (al_init _ _ _ _ _ H) as (r' & E & _ & ?). simpl in *. unfold upd. case_decide; [|congruence]. subst.
    assert (r' = i) as -> by congruence. by destruct (h i).
  - intros q d Hq Ed Hs. apply alter_Some in Ed as [(-> & e & Ee & ->)|(Hne & Ed)].
    + by destruct (from_sleep (h i)).
    + rewrite upd_ne in Hq by done. by apply (al_wait _ _ _ _ _ H q d).
Qed.

(** Every step keeps the invariant. *)
Lemma life_ok_step l l' : lstep l l' → life_ok l → life_ok l'.
Proof.
  intros Hs H. destruct Hs as [i s h o s' Hr Hi E|i n s h s' Hr Hi E|i n s h s' Hr Hi E|i s h s' Hr Hi E|i st s h s' Hr Hi E|
    i addr s h r s' Hr Hi E|i chan s h s' Hr Hi E|i s h s' Hr E|i chan s h s' Hr E|i pid s h r s' Hr E|i s h s' Hr E|i s h b s' E].
  - by eapply life_ok_fork.
  - apply fork_adopt_post in E. eapply life_ok_becomes; [exact E|]. by apply (alive_adopt _ _ _ _ _ H).
  - apply fork_ready_post in E. eapply life_ok_becomes; [exact E|]. by apply (alive_ready _ _ _ _ _ H).
  - apply exit_files_post in E as [Hb Hx]. eapply (life_ok_own (set_myproc i s) h i id);
      [exact H|exact Hr|by rewrite alter_same|intros c _; split; [apply stirred_refl|done]|rewrite Hi; by intros n [?|?]|by intros n [?|?]|done].
  - assert (initproc s ≠ Some i) as Hx.
    { destruct (al_init _ _ _ _ _ H) as (r & Er & _ & Hr'). simpl in *. congruence. }
    apply (exit_zombie_post (set_myproc i s)) in E; [|apply (al_len _ _ _ _ _ H)]. eapply life_ok_becomes; [exact E|].
    destruct (running_active s i Hr) as (c & Ec & Hc). eapply (alive_exit _ _ _ _ _ i c H); [done|done|done|].
    simpl. rewrite Hi. by intros n [?|?].
  - by eapply life_ok_wait.
  - apply sleep_on_post in E. eapply (life_ok_own (set_myproc i s) h i); [done|done|exact E| |rewrite Hi; by intros n [?|?]|by intros n [?|?]|done].
    intros c Ec. change (cores s !! i = Some c) in Ec. destruct Hr as (d & Ed & Hd). simplify_eq. split; [|done].
    apply stirred_running; [congruence|done|done|by left].
  - apply yield_post in E. eapply (life_ok_keep (set_myproc i s) h i); [done|done|exact E|]. intros c Hc. split; [|done].
    apply stirred_running; [done|done|done|right; by left].
  - apply (wakeup_post (set_myproc i s)) in E; [|apply (al_len _ _ _ _ _ H)].
    eapply (life_ok_stir (set_myproc i s)); [exact H|exact E|apply Forall2_wake|].
    intros j c c' Ec. rewrite wake_all_lookup, Ec. intros [= <-]. destruct (woken_roused i chan j c) as [(_ & ? & S) _]. simpl in *.
    intros Hs. destruct S as [S|[_ S]]; [|congruence]. split; congruence.
  - apply kkill_post in E as [Hb|(k & c & Ek & [[Hk Hb]|Hb])]; [by apply (life_ok_same (set_myproc i s))| |by eapply life_ok_mark].
    eapply (life_ok_stir (set_myproc i s)); [exact H|exact Hb| |].
    + apply Forall2_alter. intros d Ed. simplify_eq. repeat split. right. rewrite Hk. split; [by left|right; by left].
    + intros j d d' Ed Ed' Hs. apply alter_Some in Ed' as [(-> & e & Ee & ->)|(_ & ?)]; by simplify_eq.
  - apply setkilled_post in E. by eapply life_ok_mark.
  - by eapply life_ok_turn.
Qed.

(** ** The first process *)

Lemma alive_first npid addr n c :
  0 < npid → (n < Z.to_nat NPROC)%nat → c_state c = RUNNABLE → c_pid c = npid → c_parent c = None →
  alive (<[n := c]> (replicate (Z.to_nat NPROC) free_core)) (npid + 1) (Some n) addr (λ _, PRun).
Proof.
  intros Hp Hn Hst Hpid Hpar.
  assert (∀ i d, <[n := c]> (replicate (Z.to_nat NPROC) free_core) !! i = Some d → (i = n ∧ d = c) ∨ d = free_core) as Hl.
  { intros i d E. destruct (decide (i = n)) as [->|Hne].
    - rewrite list_lookup_insert_eq in E by (by rewrite length_replicate). left. by simplify_eq.
    - rewrite list_lookup_insert_ne in E by done. right. by apply lookup_replicate in E as [-> _]. }
  split; try (by intros ? ? [?|?]); try (by intros ? ? ? [?|?]); try done.
  - by rewrite length_insert, length_replicate.
  - lia.
  - exists n. split_and!; [done| |done]. exists c. split; [by rewrite list_lookup_insert_eq by (by rewrite length_replicate)|].
    rewrite Hst. right. by left.
  - intros i j ci cj [[-> ->]| ->]%Hl [[-> ->]| ->]%Hl; done.
  - intros i d [[-> ->]| ->]%Hl Hd; [lia|done].
  - intros i d [[-> ->]| ->]%Hl Hd; [congruence|done].
  - intros i d [[-> ->]| ->]%Hl Hd; [congruence|done].
  - intros i d q [[-> ->]| ->]%Hl Hq; [congruence|done].
  - intros i d [[-> ->]| ->]%Hl Hd Hi; [done|]. by destruct Hd as [[?|[?|?]]|?].
Qed.

Lemma life_ok_init l : life_init l → life_ok l.
Proof.
  intros (s & Hc & Hn & Hph & E). apply userinit_post in E as (n & c & Ec & Hst & [Ec1 [E1 E2 E3 E4]]).
  unfold life_ok. rewrite Hph, Ec1, E2, E3. simpl. rewrite Hc in Ec. apply lookup_replicate in Ec as [-> Hlt].
  replace (alter _ n (cores s)) with (<[n := Core RUNNABLE (nextpid s) None 0 0]> (replicate (Z.to_nat NPROC) free_core)).
  { apply alive_first; [rewrite Hn; lia|done|done|done|done]. }
  rewrite Hc. apply list_eq. intros j. destruct (decide (j = n)) as [->|].
  - rewrite list_lookup_alter_eq, list_lookup_insert_eq by (by rewrite length_replicate).
    by rewrite lookup_replicate_2 by done.
  - by rewrite list_lookup_alter_ne, list_lookup_insert_ne.
Qed.

Lemma life_ok_reachable l l' : life_init l → rtc lstep l l' → life_ok l'.
Proof.
  intros Hi Hr. assert (∀ l1 l2, rtc lstep l1 l2 → life_ok l1 → life_ok l2) as Hpres.
  { induction 1; [done|]. eauto using life_ok_step. }
  eapply Hpres; [done|by apply life_ok_init].
Qed.

(** * Theorems *)

(** C23: the family tree stays sound.  In every state that forks, exits, waits,
    sleeps and kills can reach, init is alive, every other process that runs,
    sleeps or has exited has a parent that is alive and will find it, and no
    two processes share a pid. *)
Theorem no_orphans l l' :
  life_init l → rtc lstep l l' →
  (∃ r, initproc (tbl l') = Some r ∧ is_active (cores (tbl l')) r) ∧
  (∀ i c, cores (tbl l') !! i = Some c → active (c_state c) ∨ c_state c = ZOMBIE → initproc (tbl l') ≠ Some i →
     ∃ q, c_parent c = Some q ∧ is_active (cores (tbl l')) q) ∧
  (∀ i j ci cj, cores (tbl l') !! i = Some ci → cores (tbl l') !! j = Some cj →
     c_state ci ≠ UNUSED → c_state cj ≠ UNUSED → c_pid ci = c_pid cj → i = j).
Proof.
  intros Hi Hr. pose proof (life_ok_reachable l l' Hi Hr) as H. split_and!.
  - destruct (al_init _ _ _ _ _ H) as (r & ? & ? & _). eauto.
  - intros i c Ei Hst Hn. destruct (c_parent c) as [q|] eqn:Ep; [|by destruct (al_orphan _ _ _ _ _ H i c)].
    exists q. split; [done|]. by eapply (al_parent _ _ _ _ _ H).
  - apply (al_pid _ _ _ _ _ H).
Qed.


(** What [kfork] does to the table.  It returns the pid of a process that
    was the first UNUSED one and is now RUNNABLE, with a pid never given out
    before and the caller as its parent, and changes no other process; or it
    returns -1, and every process in use is as before. *)
Theorem kfork_correct (s : procst A F) v s' :
  kfork kalloc kfree filedup idup forkret trampoline s = Ok (v, s') →
  (∃ n c, cores s !! n = Some c ∧ c_state c = UNUSED ∧ first_unused (cores s) n ∧ v = nextpid s ∧ nextpid s' = nextpid s + 1 ∧
     cores s' = <[n := Core RUNNABLE v (Some (myproc s)) (c_chan c) (c_killed c)]> (cores s)) ∨
  (v = -1 ∧ ∀ i c, c_state c ≠ UNUSED → cores s !! i = Some c ↔ cores s' !! i = Some c).
Proof.
  revert v s'. change (wlp (kfork kalloc kfree filedup idup forkret trampoline) (λ v s',
    (∃ n c, cores s !! n = Some c ∧ c_state c = UNUSED ∧ first_unused (cores s) n ∧ v = nextpid s ∧ nextpid s' = nextpid s + 1 ∧
     cores s' = <[n := Core RUNNABLE v (Some (myproc s)) (c_chan c) (c_killed c)]> (cores s)) ∨
    (v = -1 ∧ ∀ i c, c_state c ≠ UNUSED → cores s !! i = Some c ↔ cores s' !! i = Some c)) s).
  unfold kfork. apply wlp_bind. eapply wlp_mono; [apply fork_create_post|]. intros [[n pid]|] s1; simpl.
  - intros (-> & c & Ec & Hst & Hf & Hb). apply wlp_bind. eapply wlp_mono; [apply fork_adopt_post|]. intros ? s2 [E2 Hs2].
    apply wlp_bind. eapply wlp_mono; [apply fork_ready_post|]. intros ? s3 [E3 Hs3]. apply wlp_ret. left. exists n, c.
    destruct Hb as [E1 Hs1]. rewrite E3, E2, E1, !alter_twice, (se_pid _ _ Hs3), (se_pid _ _ Hs2), (se_pid _ _ Hs1), (se_me _ _ Hs1).
    split_and!; try done. apply list_eq. intros j. destruct (decide (j = n)) as [->|].
    + rewrite list_lookup_alter_eq, Ec, list_lookup_insert_eq by (by eapply lookup_lt_Some). done.
    + by rewrite list_lookup_alter_ne, list_lookup_insert_ne.
  - intros Hb. apply wlp_ret. right. split; [done|]. destruct Hb as [[-> _]|(n & c & Ec & Hst & [-> _])]; [done|].
    intros i d Hd. destruct (decide (i = n)) as [->|]; [|by rewrite list_lookup_alter_ne].
    rewrite list_lookup_alter_eq, Ec. simpl. split; intros [= <-]; [congruence|by destruct Hd].
Qed.

(** ** Killing pid 0 *)

Lemma wp_read_proc (s : procst A F) k q Q : procs s !! k = Some q → Q q s → wp (read_proc k) Q s.
Proof. intros E HQ. unfold read_proc. wp_auto. by eapply wp_of_option. Qed.

Lemma wp_upd_proc (s : procst A F) k q f Q :
  procs s !! k = Some q → Q tt (set_procs (<[k := f q]> (procs s)) s) → wp (upd_proc k f) Q s.
Proof. intros E HQ. unfold upd_proc. wp_auto. eapply wp_read_proc; [done|]. by wp_auto. Qed.

Lemma wp_acquire_proc (s : procst A F) k q Q :
  procs s !! k = Some q → p_lock q = false → Q tt (set_procs (<[k := set_lock true q]> (procs s)) s) → wp (acquire_proc k) Q s.
Proof. intros E El HQ. unfold acquire_proc. wp_auto. eapply wp_read_proc; [done|]. rewrite El. by eapply wp_upd_proc. Qed.

Lemma wp_release_proc (s : procst A F) k q Q :
  procs s !! k = Some q → p_lock q = true → Q tt (set_procs (<[k := set_lock false q]> (procs s)) s) → wp (release_proc k) Q s.
Proof. intros E El HQ. unfold release_proc. wp_auto. eapply wp_read_proc; [done|]. rewrite El. by eapply wp_upd_proc. Qed.

Lemma set_lock_back q : p_lock q = false → set_lock false (set_lock true q) = q.
Proof. destruct q. simpl. by intros ->. Qed.

Lemma set_procs_same (s : procst A F) l : procs s = l → set_procs l s = s.
Proof. destruct s. simpl. by intros ->. Qed.

(** The process kill finds is the first with the pid. *)
Lemma wp_kkill (s : procst A F) pid n p (Q : Z → procst A F → Prop) :
  procs s !! n = Some p → p_pid p = pid → p_state p ≠ SLEEPING → Z.of_nat n < NPROC →
  (∀ j q, procs s !! j = Some q → p_lock q = false) → (∀ j q, (j < n)%nat → procs s !! j = Some q → p_pid q ≠ pid) →
  Q 0 (set_procs (<[n := set_killed 1 p]> (procs s)) s) → wp (kkill pid) Q s.
Proof.
  intros En Hp Hs Hn Hlk Hlow HQ. unfold kkill.
  apply (wp_loop (λ r k s', s' = s ∧ (k + r = n)%nat) n); [split; [done|lia]|unfold NPROC in *; lia|].
  intros r k ? [-> Hk]. rewrite decide_False by lia. assert (is_Some (procs s !! k)) as [q Eq].
  { apply lookup_lt_is_Some. apply lookup_lt_Some in En. lia. }
  pose proof (Hlk k q Eq) as Hl. assert (k < length (procs s))%nat as Hlen by (by eapply lookup_lt_Some).
  wp_auto. eapply wp_acquire_proc; [done|done|]. wp_auto.
  eapply wp_read_proc; [by simpl; rewrite list_lookup_insert_eq|]. simpl. destruct (p_pid q =? pid) eqn:Epid.
  - assert (k = n) as ->. { destruct (decide (k = n)); [done|]. destruct (Hlow k q); [lia|done|lia]. }
    simplify_eq. wp_auto. eapply wp_upd_proc; [by simpl; rewrite list_lookup_insert_eq|]. wp_auto. rewrite decide_False by done. wp_auto.
    simpl. eapply wp_release_proc; [by simpl; rewrite !list_insert_insert_eq, list_lookup_insert_eq|done|]. wp_auto. simpl.
    rewrite !list_insert_insert_eq. destruct p. simpl in *. by subst.
  - wp_auto. eapply wp_release_proc; [by simpl; rewrite list_lookup_insert_eq|done|]. wp_auto. simpl.
    rewrite list_insert_insert_eq, set_lock_back, list_insert_id by done. destruct r as [|r].
    { assert (k = n) as -> by lia. simplify_eq. lia. }
    exists r. split; [lia|]. split; [|lia]. by destruct s.
Qed.

(** [kill(0)] reaches a process that does not exist yet.  Free slots have
    pid 0, so it succeeds and marks the first of them; [allocproc] gives that
    slot to the next process without clearing the mark, so the next child is
    killed before it has run. *)
Theorem kill_zero_dooms_child (s : procst A F) n p :
  procs s !! n = Some p → p_state p = UNUSED → p_pid p = 0 → Z.of_nat n < NPROC →
  (∀ j q, procs s !! j = Some q → p_lock q = false) →
  (∀ j q, (j < n)%nat → procs s !! j = Some q → p_state q ≠ UNUSED ∧ p_pid q ≠ 0) →
  ∃ s1, kkill 0 s = Ok (0, s1) ∧
    ∀ child pid s2, fork_create kalloc kfree filedup idup forkret trampoline s1 = Ok (Some (child, pid), s2) →
      child = n ∧ ∃ c, cores s2 !! child = Some c ∧ c_pid c = pid ∧ c_killed c = 1.
Proof.
  intros En Hst Hpid Hn Hlk Hlow. exists (set_procs (<[n := set_killed 1 p]> (procs s)) s). split.
  { apply wp_Ok_eq. eapply wp_kkill; [done|done|by rewrite Hst|done|done| |done]. intros j q Hj Eq. by apply (Hlow j q). }
  intros child pid s2 E. apply fork_create_post in E as (-> & c & Ec & Hc & Hf & [Ecs _]).
  assert (n < length (procs s))%nat as Hlen by (by eapply lookup_lt_Some).
  assert (cores (set_procs (<[n := set_killed 1 p]> (procs s)) s) = <[n := with_killed 1 (core_of p)]> (cores s)) as Ecore.
  { unfold cores. simpl. by rewrite list_fmap_insert. }
  rewrite Ecore in *. assert (child = n) as ->.
  { destruct (decide (child < n)%nat) as [Hlt|Hge].
    - rewrite list_lookup_insert_ne in Ec by lia. unfold cores in Ec. rewrite list_lookup_fmap in Ec.
      destruct (procs s !! child) as [q|] eqn:Eq; [|done]. simpl in Ec. simplify_eq. by destruct (Hlow child q Hlt Eq).
    - destruct (decide (child = n)) as [|]; [done|]. destruct (Hf n (with_killed 1 (core_of p))); [lia| |done].
      rewrite list_lookup_insert_eq; [done|]. unfold cores. by rewrite length_fmap. }
  split; [done|]. rewrite list_lookup_insert_eq in Ec by (unfold cores; by rewrite length_fmap). simplify_eq.
  eexists. split; [rewrite Ecs, list_lookup_alter_eq, list_lookup_insert_eq by (unfold cores; by rewrite length_fmap); done|done].
Qed.

End System.

(** * A machine to run *)

(** Ten pages, no files: init forks, the child exits, init waits. *)
Definition demo_kalloc : prog (list Z) Z := λ a,
  match a with
  | [] => Ok (0, [])
  | p :: a => Ok (p, a)
  end.

Definition demo_kfree (p : Z) : prog (list Z) unit := λ a, Ok (tt, if p =? 0 then a else p :: a).

Definition demo_dup (f : Z) : prog unit Z := mret f.

Definition demo_close (f : Z) : prog unit unit := mret tt.

Definition demo_root : prog unit Z := mret 7.

Fixpoint zeros (n : nat) (a : Z) (m : bmem) : bmem :=
  match n with
  | O => m
  | S n => zeros n (a + 1) (<[a := 0]> m)
  end.

Definition demo_proc : proc := Proc false UNUSED 0 0 0 None 0 0 0 0 [] (replicate 16 0) 0 (Window 0 0 0 0 false).

Definition demo_start : procst (list Z) unit :=
  ProcSt (replicate (Z.to_nat NPROC) demo_proc) 65536 1 false false None 0 (zeros (Z.to_nat (PGSIZE * 11)) 65536 ∅)
    ((λ i, 69632 + PGSIZE * Z.of_nat i) <$> seq 0 10) tt.

Definition demo_life := @life (list Z) unit.

Abbreviation demo_step := (lstep demo_kalloc demo_kfree demo_dup demo_close demo_dup demo_close 4096 8192).

Definition demo_fork := fork_create demo_kalloc demo_kfree demo_dup demo_dup 4096 8192.

(** What a process does next. *)
Inductive lmove : Set :=
  | MTurn (i : nat)
  | MFork (i : nat)
  | MAdopt (i : nat)
  | MReady (i : nat)
  | MFiles (i : nat)
  | MExit (i : nat).

Definition is_running (s : procst (list Z) unit) (i : nat) : bool :=
  match cores s !! i with
  | Some c => bool_decide (c_state c = RUNNING)
  | None => false
  end.

Definition run_as {B} (i : nat) (m : prog (procst (list Z) unit) B) (s : procst (list Z) unit) : option (B * procst (list Z) unit) :=
  if is_running s i then match m (set_myproc i s) with Ok r => Some r | _ => None end else None.

Definition lmake (l : demo_life) (m : lmove) : demo_life :=
  let '(Life s h) := l in
  default l
    match m with
    | MTurn i =>
        match turn i (from_sleep (h i)) s with
        | Ok (true, s') => Some (Life s' (upd h i (after_turn (h i))))
        | _ => None
        end
    | MFork i =>
        if h i is PRun then
          r ← run_as i demo_fork s;
          if r is (Some (n, _), s') then Some (Life s' (upd (upd h n PRun) i (PAdopt n))) else None
        else None
    | MAdopt i => if h i is PAdopt n then r ← run_as i (fork_adopt n) s; Some (Life r.2 (upd h i (PReady n))) else None
    | MReady i => if h i is PReady n then r ← run_as i (fork_ready n) s; Some (Life r.2 (upd h i PRun)) else None
    | MFiles i => if h i is PRun then r ← run_as i (exit_files demo_close demo_close) s; Some (Life r.2 (upd h i PExit)) else None
    | MExit i => if h i is PExit then r ← run_as i (exit_zombie 42) s; Some (Life r.2 (upd h i PGone)) else None
    end.

Lemma run_as_Some {B} i (m : prog (procst (list Z) unit) B) s r :
  run_as i m s = Some r → running s i ∧ m (set_myproc i s) = Ok r.
Proof.
  unfold run_as, is_running, running. destruct (cores s !! i) as [c|]; [|done]. case_bool_decide; [|done].
  destruct (m (set_myproc i s)); [|done..]. intros [= <-]. eauto.
Qed.

Lemma lmake_step l m : rtc demo_step l (lmake l m).
Proof.
  destruct l as [s h]. unfold lmake. match goal with |- rtc _ _ (default _ ?o) => destruct o as [l'|] eqn:E end; [simpl|done].
  apply rtc_once. destruct m as [i|i|i|i|i|i].
  - destruct (turn i (from_sleep (h i)) s) as [[[] s']| | |] eqn:Et; simplify_eq. apply (l_turn _ _ _ _ _ _ _ _ i s h true s' Et).
  - destruct (h i) eqn:Eh; try done. apply bind_Some in E as ([[[n pid]|] s'] & [Hr Ef]%run_as_Some & E); simplify_eq.
    apply (l_fork _ _ _ _ _ _ _ _ i s h (Some (n, pid)) s' Hr Eh Ef).
  - destruct (h i) eqn:Eh; try done. apply bind_Some in E as ([[] s'] & [Hr Ef]%run_as_Some & E); simplify_eq. by apply l_adopt.
  - destruct (h i) eqn:Eh; try done. apply bind_Some in E as ([[] s'] & [Hr Ef]%run_as_Some & E); simplify_eq. by eapply l_ready.
  - destruct (h i) eqn:Eh; try done. apply bind_Some in E as ([[] s'] & [Hr Ef]%run_as_Some & E); simplify_eq. by apply l_files.
  - destruct (h i) eqn:Eh; try done. apply bind_Some in E as ([[] s'] & [Hr Ef]%run_as_Some & E); simplify_eq. by eapply l_exit.
Qed.

Definition lrun (ms : list lmove) (l : demo_life) : demo_life := foldl lmake l ms.

Lemma lrun_steps ms l : rtc demo_step l (lrun ms l).
Proof.
  revert l. induction ms as [|m ms IH]; intros l; simpl; [done|]. etrans; [apply lmake_step|apply IH].
Qed.

Definition state_of {S B} (d : S) (r : outcome (B * S)) : S :=
  match r with
  | Ok (_, s) => s
  | _ => d
  end.

Definition demo_boot : procst (list Z) unit :=
  state_of demo_start (userinit demo_kalloc demo_kfree demo_root 4096 8192 demo_start).

(** After init has forked and the child has exited. *)
Definition demo_exited : demo_life :=
  lrun [MTurn 0; MFork 0; MAdopt 0; MReady 0; MTurn 1; MFiles 1; MExit 1]%nat (Life demo_boot (λ _, PRun)).

Lemma demo_init : life_init demo_kalloc demo_kfree demo_root 4096 8192 (Life demo_boot (λ _, PRun)).
Proof.
  exists demo_start. split_and!; [vm_compute; reflexivity|reflexivity|reflexivity|]. simpl. unfold demo_boot.
  assert (match userinit demo_kalloc demo_kfree demo_root 4096 8192 demo_start with Ok _ => true | _ => false end = true) as E
    by (vm_compute; reflexivity).
  destruct (userinit demo_kalloc demo_kfree demo_root 4096 8192 demo_start) as [[[] s]| | |]; [reflexivity|discriminate E..].
Qed.

(** The child is a zombie of init. *)
Definition demo_zombie : core := Core ZOMBIE 2 (Some 0%nat) 0 0.

Lemma demo_exited_core : cores (tbl demo_exited) !! 1%nat = Some demo_zombie.
Proof. vm_compute. reflexivity. Qed.

Lemma no_orphans_witness : ∃ q, c_parent demo_zombie = Some q ∧ is_active (cores (tbl demo_exited)) q.
Proof.
  destruct (no_orphans demo_kalloc demo_kfree demo_dup demo_close demo_dup demo_close demo_root 4096 8192
    (Life demo_boot (λ _, PRun)) demo_exited) as (_ & H & _).
  - apply demo_init.
  - apply lrun_steps.
  - apply (H 1%nat); [apply demo_exited_core|right; reflexivity|]. vm_compute. discriminate.
Defined.


Definition demo_running : procst (list Z) unit := tbl (lrun [MTurn 0]%nat (Life demo_boot (λ _, PRun))).
