(* ===== verification/Sysfile.v ===== *)
(** The file-system calls (kernel/sysfile.c): descriptors of the running
    process over the open files of File.v and the file system of Fs.v. *)

From S2P Require Import Prelude.
From S2P Require Import Slab.
From S2P Require Import Cstring.
From S2P Require Import Bio.
From S2P Require Import Log.
From S2P Require Import Fs.
From S2P Require Import Pipe.
From S2P Require Import File.

(** * Constants *)

Definition NOFILE : Z := 16.

Definition MAXPATH : Z := 128.

Definition T_FILE : Z := 2.

Definition T_DEVICE : Z := 3.

Definition O_RDONLY : Z := 0.

Definition O_WRONLY : Z := 1.

Definition O_RDWR : Z := 2.

Definition O_CREATE : Z := 512.

Definition O_TRUNC : Z := 1024.

(** [x & m] as a condition. *)
Definition flag (x m : Z) : bool := negb (Z.land x m =? 0).

(** * State *)

(** The open files and the file system, and [myproc()->ofile]. *)
Record sysfst := SysfSt {
  sf_files : filest;
  ofile : list Z }.

Definition set_sf_files (f : filest) (s : sysfst) : sysfst := SysfSt f (ofile s).

Definition set_ofile (l : list Z) (s : sysfst) : sysfst := SysfSt (sf_files s) l.

Definition on_files {A} (m : prog filest A) : prog sysfst A := zoom sf_files set_sf_files m.

Definition on_fs {A} (m : prog fsst A) : prog sysfst A := on_files (on_fsys m).

Definition set_fd (fd f : Z) : prog sysfst unit := modify (λ s, set_ofile (<[Z.to_nat fd := f]> (ofile s)) s).

(** ** Fields of an inode *)

Definition set_nlink (n : Z) (d : dinode) : dinode :=
  Dinode (d_type d) (d_major d) (d_minor d) n (d_size d) (d_addrs d).

Definition set_device (major minor : Z) (d : dinode) : dinode :=
  Dinode (d_type d) major minor (d_nlink d) (d_size d) (d_addrs d).

(** [ip->nlink += n] on a [short] *)
Definition add_nlink (a n : Z) : prog fsst unit :=
  update_inode a (λ ip, set_d (set_nlink (s16 (d_nlink (i_d ip) + n)) (i_d ip)) ip).

(** [p->cwd = ip] *)
Definition set_cwd (a : Z) (s : fsst) : fsst :=
  FsSt (fs_log s) (sb s) (it_lock s) (it_array s) (inodes s) (fmem s) a.

Definition end_op_now : prog fsst unit := _ ← on_log end_op; mret tt.

Section Calls.

(** The arguments of the call (kernel/syscall.c): integers, addresses, and
    strings, which are copied into a kernel buffer. *)
Variables (argint argaddr : Z → Z) (argstr : Z → Z → Z → prog bmem Z).

(** Copies to and from user memory, the calls of the two ends of a pipe and
    the table of device drivers, as in File.v. *)
Variable copyout : Z → list Z → prog bmem bool.

Variable copyin : Z → Z → prog bmem (option (list Z)).

Variables (piperead pipewrite : Z → Z → Z → prog filest Z) (dev_read dev_write : Z → option (Z → Z → prog filest Z)).

(** The addresses of the local variables of the calls: the path buffers, the
    name, the directory entries and the offset, the strings "." and "..", and
    the parameter of [fileclose]. *)
Variables (path old new name iname de uentry poff dot dotdot ff : Z).

(** * Descriptors *)

Definition argfd (n : Z) : prog sysfst (option (Z * Z)) :=
  let fd := argint n in
  s ← get;
  if (fd <? 0) || (NOFILE <=? fd) then mret None
  else
    f ← of_option (ofile s !! Z.to_nat fd);
    if f =? 0 then mret None else mret (Some (fd, f)).

Definition fdalloc (f : Z) : prog sysfst Z :=
  loop (S (Z.to_nat NOFILE))
    (λ fd,
       if fd <? NOFILE then
         s ← get;
         g ← of_option (ofile s !! Z.to_nat fd);
         if g =? 0 then _ ← set_fd fd f; mret (inr fd) else mret (inl (fd + 1))
       else mret (inr (-1)))
    0.

Definition sys_dup : prog sysfst Z :=
  a ← argfd 0;
  match a with
  | None => mret (-1)
  | Some (_, f) =>
      fd ← fdalloc f;
      if fd <? 0 then mret (-1)
      else _ ← on_files (filedup f); mret fd
  end.

Definition sys_read : prog sysfst Z :=
  a ← argfd 0;
  match a with
  | None => mret (-1)
  | Some (_, f) => on_files (fileread copyout piperead dev_read f (argaddr 1) (argint 2))
  end.

Definition sys_write : prog sysfst Z :=
  a ← argfd 0;
  match a with
  | None => mret (-1)
  | Some (_, f) => on_files (filewrite copyin pipewrite dev_write f (argaddr 1) (argint 2))
  end.

Definition sys_close : prog sysfst Z :=
  a ← argfd 0;
  match a with
  | None => mret (-1)
  | Some (fd, f) =>
      _ ← set_fd fd 0;
      _ ← on_files (fileclose ff f);
      mret 0
  end.

Definition sys_fstat (pad : list Z) : prog sysfst Z :=
  a ← argfd 0;
  match a with
  | None => mret (-1)
  | Some (_, f) => on_files (filestat copyout pad f (argaddr 1))
  end.

(** * Links *)

Definition link_bad (ip : Z) : prog fsst Z :=
  _ ← ilock ip;
  _ ← add_nlink ip (-1);
  _ ← iupdate ip;
  _ ← iunlockput ip;
  _ ← end_op_now;
  mret (-1).

Definition sys_link_op : prog fsst Z :=
  n0 ← on_fmem (argstr 0 old MAXPATH);
  if n0 <? 0 then mret (-1)
  else
    n1 ← on_fmem (argstr 1 new MAXPATH);
    if n1 <? 0 then mret (-1)
    else
      _ ← begin_op_now;
      ip ← namei copyout de iname old;
      if ip =? 0 then _ ← end_op_now; mret (-1)
      else
        _ ← ilock ip;
        x ← read_inode ip;
        if d_type (i_d x) =? T_DIR then
          _ ← iunlockput ip;
          _ ← end_op_now;
          mret (-1)
        else
          _ ← add_nlink ip 1;
          _ ← iupdate ip;
          _ ← iunlock ip;
          dp ← nameiparent copyout de new name;
          if dp =? 0 then link_bad ip
          else
            _ ← ilock dp;
            d ← read_inode dp;
            x ← read_inode ip;
            failed ← (if negb (i_dev d =? i_dev x) then mret true
                      else r ← dirlink copyout copyin de dp name (i_inum x); mret (r <? 0) : prog fsst bool);
            if (failed : bool) then _ ← iunlockput dp; link_bad ip
            else
              _ ← iunlockput dp;
              _ ← iput ip;
              _ ← end_op_now;
              mret 0.

Definition sys_link : prog sysfst Z := on_fs sys_link_op.

Definition isdirempty (dp : Z) : prog fsst bool :=
  ip ← read_inode dp;
  loop (S (Z.to_nat (d_size (i_d ip))))
    (λ off,
       if u32 off <? d_size (i_d ip) then
         r ← readi copyout dp false uentry off sizeof_dirent;
         if negb (r =? sizeof_dirent) then panic "isdirempty: readi"
         else
           inum ← on_fmem (de_inum uentry);
           if negb (inum =? 0) then mret (inr false) else mret (inl (off + sizeof_dirent))
       else mret (inr true))
    (2 * sizeof_dirent).

Definition unlink_bad (dp : Z) : prog fsst Z :=
  _ ← iunlockput dp;
  _ ← end_op_now;
  mret (-1).

(** [off] after [dirlookup] has set it. *)
Definition get_off (a : Z) : prog bmem Z :=
  b0 ← load8 a; b1 ← load8 (a + 1); b2 ← load8 (a + 2); b3 ← load8 (a + 3);
  mret (b0 + 2 ^ 8 * (b1 + 2 ^ 8 * (b2 + 2 ^ 8 * b3))).

Definition sys_unlink_op : prog fsst Z :=
  n ← on_fmem (argstr 0 path MAXPATH);
  if n <? 0 then mret (-1)
  else
    _ ← begin_op_now;
    dp ← nameiparent copyout de path name;
    if dp =? 0 then _ ← end_op_now; mret (-1)
    else
      _ ← ilock dp;
      c0 ← on_fmem (namecmp name dot);
      c1 ← (if c0 =? 0 then mret 0 else on_fmem (namecmp name dotdot) : prog fsst Z);
      if c1 =? 0 then unlink_bad dp
      else
        ip ← dirlookup copyout de dp name poff;
        if ip =? 0 then unlink_bad dp
        else
          _ ← ilock ip;
          x ← read_inode ip;
          if d_nlink (i_d x) <? 1 then panic "unlink: nlink < 1"
          else
            full ← (if d_type (i_d x) =? T_DIR then e ← isdirempty ip; mret (negb e) else mret false : prog fsst bool);
            if (full : bool) then _ ← iunlockput ip; unlink_bad dp
            else
              _ ← on_fmem (memset uentry 0 sizeof_dirent);
              off ← on_fmem (get_off poff);
              r ← writei copyin dp false uentry off sizeof_dirent;
              if negb (r =? sizeof_dirent) then panic "unlink: writei"
              else
                x ← read_inode ip;
                _ ← (if d_type (i_d x) =? T_DIR then _ ← add_nlink dp (-1); iupdate dp else mret tt : prog fsst unit);
                _ ← iunlockput dp;
                _ ← add_nlink ip (-1);
                _ ← iupdate ip;
                _ ← iunlockput ip;
                _ ← end_op_now;
                mret 0.

Definition sys_unlink : prog sysfst Z := on_fs sys_unlink_op.

(** * Creating *)

Definition create_fail (ip dp : Z) : prog fsst Z :=
  _ ← update_inode ip (λ x, set_d (set_nlink 0 (i_d x)) x);
  _ ← iupdate ip;
  _ ← iunlockput ip;
  _ ← iunlockput dp;
  mret 0.

(** The entries "." and ".." of a new directory. *)
Definition link_dots (ip dp type : Z) : prog fsst bool :=
  if type =? T_DIR then
    x ← read_inode ip;
    r ← dirlink copyout copyin de ip dot (i_inum x);
    if r <? 0 then mret false
    else
      d ← read_inode dp;
      r ← dirlink copyout copyin de ip dotdot (i_inum d);
      mret (negb (r <? 0))
  else mret true.

Definition create (path type major minor : Z) : prog fsst Z :=
  dp ← nameiparent copyout de path name;
  if dp =? 0 then mret 0
  else
    _ ← ilock dp;
    ip ← dirlookup copyout de dp name 0;
    if negb (ip =? 0) then
      _ ← iunlockput dp;
      _ ← ilock ip;
      x ← read_inode ip;
      if (type =? T_FILE) && ((d_type (i_d x) =? T_FILE) || (d_type (i_d x) =? T_DEVICE)) then mret ip
      else _ ← iunlockput ip; mret 0
    else
      d ← read_inode dp;
      ip ← ialloc (i_dev d) type;
      if ip =? 0 then _ ← iunlockput dp; mret 0
      else
        _ ← ilock ip;
        _ ← update_inode ip (λ x, set_d (set_nlink 1 (set_device (s16 major) (s16 minor) (i_d x))) x);
        _ ← iupdate ip;
        ok ← link_dots ip dp type;
        if negb ok then create_fail ip dp
        else
          x ← read_inode ip;
          r ← dirlink copyout copyin de dp name (i_inum x);
          if r <? 0 then create_fail ip dp
          else
            _ ← (if type =? T_DIR then _ ← add_nlink dp 1; iupdate dp else mret tt : prog fsst unit);
            _ ← iunlockput dp;
            mret ip.

(** The inode [open] works on, locked; 0 if there is none. *)
Definition open_inode (omode : Z) : prog fsst Z :=
  if flag omode O_CREATE then create path T_FILE 0 0
  else
    ip ← namei copyout de iname path;
    if ip =? 0 then mret 0
    else
      _ ← ilock ip;
      x ← read_inode ip;
      if (d_type (i_d x) =? T_DIR) && negb (omode =? O_RDONLY) then _ ← iunlockput ip; mret 0
      else mret ip.

(** The fields of the new file. *)
Definition open_file (omode ip : Z) (d : dinode) (f : file) : file :=
  let device := d_type d =? T_DEVICE in
  File (if device then FD_DEVICE else FD_INODE) (f_ref f) (negb (flag omode O_WRONLY)) (flag omode O_WRONLY || flag omode O_RDWR)
    (f_pipe f) ip (if device then f_off f else 0) (if device then d_major d else f_major f).

Definition open_fail (ip : Z) : prog sysfst Z :=
  _ ← on_fs (iunlockput ip);
  _ ← on_fs end_op_now;
  mret (-1).

Definition sys_open : prog sysfst Z :=
  let omode := argint 1 in
  n ← on_fs (on_fmem (argstr 0 path MAXPATH));
  if n <? 0 then mret (-1)
  else
    _ ← on_fs begin_op_now;
    ip ← on_fs (open_inode omode);
    if ip =? 0 then _ ← on_fs end_op_now; mret (-1)
    else
      x ← on_fs (read_inode ip);
      if (d_type (i_d x) =? T_DEVICE) && ((d_major (i_d x) <? 0) || (NDEV <=? d_major (i_d x))) then open_fail ip
      else
        f ← on_files filealloc;
        if f =? 0 then open_fail ip
        else
          fd ← fdalloc f;
          if fd <? 0 then _ ← on_files (fileclose ff f); open_fail ip
          else
            _ ← on_files (update_file f (open_file omode ip (i_d x)));
            _ ← (if flag omode O_TRUNC && (d_type (i_d x) =? T_FILE) then on_fs (itrunc ip) else mret tt : prog sysfst unit);
            _ ← on_fs (iunlock ip);
            _ ← on_fs end_op_now;
            mret fd.

(** [mkdir] and [mknod] after their arguments. *)
Definition make_node (type major minor : Z) : prog fsst Z :=
  n ← on_fmem (argstr 0 path MAXPATH);
  ip ← (if n <? 0 then mret 0 else create path type major minor : prog fsst Z);
  if ip =? 0 then _ ← end_op_now; mret (-1)
  else
    _ ← iunlockput ip;
    _ ← end_op_now;
    mret 0.

Definition sys_mkdir : prog sysfst Z := on_fs (_ ← begin_op_now; make_node T_DIR 0 0).

Definition sys_mknod : prog sysfst Z := on_fs (_ ← begin_op_now; make_node T_DEVICE (argint 1) (argint 2)).

Definition sys_chdir_op : prog fsst Z :=
  _ ← begin_op_now;
  n ← on_fmem (argstr 0 path MAXPATH);
  ip ← (if n <? 0 then mret 0 else namei copyout de iname path : prog fsst Z);
  if ip =? 0 then _ ← end_op_now; mret (-1)
  else
    _ ← ilock ip;
    x ← read_inode ip;
    if negb (d_type (i_d x) =? T_DIR) then
      _ ← iunlockput ip;
      _ ← end_op_now;
      mret (-1)
    else
      _ ← iunlock ip;
      s ← get;
      _ ← iput (cwd s);
      _ ← end_op_now;
      _ ← modify (set_cwd ip);
      mret 0.

Definition sys_chdir : prog sysfst Z := on_fs sys_chdir_op.

(** * Pipes *)

(** The two descriptors are taken back. *)
Definition pipe_fail (rf wf : Z) : prog sysfst Z :=
  _ ← on_files (fileclose ff rf);
  _ ← on_files (fileclose ff wf);
  mret (-1).

Definition sys_pipe (junk : list Z) : prog sysfst Z :=
  let fdarray := argaddr 0 in
  r ← on_files (pipealloc ff junk);
  let '(res, rf, wf) := r : Z * Z * Z in
  if res <? 0 then mret (-1)
  else
    fd0 ← fdalloc rf;
    if fd0 <? 0 then pipe_fail rf wf
    else
      fd1 ← fdalloc wf;
      if fd1 <? 0 then _ ← set_fd fd0 0; pipe_fail rf wf
      else
        ok0 ← on_fs (on_fmem (copyout fdarray (le_bytes 4 fd0)));
        ok1 ← (if (ok0 : bool) then on_fs (on_fmem (copyout (u64 (fdarray + 4)) (le_bytes 4 fd1))) else mret false : prog sysfst bool);
        if negb ok1 then
          _ ← set_fd fd0 0;
          _ ← set_fd fd1 0;
          pipe_fail rf wf
        else mret 0.

End Calls.
