(* ===== verification/SysfileProps.v ===== *)
(** Descriptors: whatever file-system calls a process makes, its descriptors
    name open files that are not freed under them, and no call of [pipe]
    succeeds. *)

From S2P Require Import Prelude.
From S2P Require Import Buddy.
From S2P Require Import BuddyProps.
From S2P Require Import Slab.
From S2P Require Import SlabInv.
From S2P Require Import SlabLists.
From S2P Require Import SlabSpec.
From S2P Require Import SlabAlloc.
From S2P Require Import SlabFree.
From S2P Require Import SlabProps.
From S2P Require Import Cstring.
From S2P Require Import Log.
From S2P Require Import Fs.
From S2P Require Import FsBlocks.
From S2P Require Import Pipe.
From S2P Require Import File.
From S2P Require Import FileProps.
From S2P Require Import Sysfile.

(** * Counting references *)

Definition occ (f : Z) (l : list Z) : Z := Z.of_nat (length (filter (λ g, g = f) l)).

Lemma occ_app f l1 l2 : occ f (l1 ++ l2) = occ f l1 + occ f l2.
Proof. unfold occ. rewrite filter_app, length_app. lia. Qed.

Lemma occ_cons f g l : occ f (g :: l) = (if decide (g = f) then 1 else 0) + occ f l.
Proof. unfold occ. rewrite filter_cons. case_decide; simpl; lia. Qed.

Lemma occ_nonneg f l : 0 ≤ occ f l.
Proof. unfold occ. lia. Qed.

Lemma occ_insert f l i g h :
  l !! i = Some g → occ f (<[i := h]> l) = occ f l - (if decide (g = f) then 1 else 0) + (if decide (h = f) then 1 else 0).
Proof.
  intros E. rewrite (insert_take_drop l i h) by (by eapply lookup_lt_Some). rewrite <- (take_drop_middle l i g E) at 3.
  rewrite !occ_app, !occ_cons. lia.
Qed.

Lemma occ_in f l : f ∈ l → 1 ≤ occ f l.
Proof.
  intros (i & Hi)%list_elem_of_lookup. rewrite <- (take_drop_middle l i f Hi), occ_app, occ_cons, decide_True by done.
  pose proof (occ_nonneg f (take i l)). pose proof (occ_nonneg f (drop (S i) l)). lia.
Qed.

(** The references counted in the file at [f]. *)
Definition ref_of (m : gmap Z file) (f : Z) : Z := default 0 (f_ref <$> m !! f).

(** * The invariant *)

(** The table of files, when [refs] are references held to its files: each is
    counted, a file with references is in use in the cache of files, and no
    file is the end of a pipe. *)
Record table_ok (ff osz : Z) (C refs : list Z) (s : filest) (G : gmap Z sinfo) : Prop := {
  tb_files : files_ok ff osz s G C;
  tb_ref : ∀ f, f ≠ 0 → occ f refs ≤ ref_of (files s) f;
  tb_live : ∀ f x, files s !! f = Some x → 0 < f_ref x → live (fl_kst s) G (file_cache s) f osz;
  tb_nopipe : ∀ f x, files s !! f = Some x → f_type x ≠ FD_PIPE;
  tb_cache : pipe_cache s = NULL }.

Definition table (ff osz : Z) (C refs : list Z) (s : filest) : Prop := ∃ G, table_ok ff osz C refs s G.

(** The descriptors of the process and the references [others] of the other
    processes are counted. *)
Definition fds_ok (ff osz : Z) (C others : list Z) (s : sysfst) : Prop :=
  length (ofile s) = Z.to_nat NOFILE ∧ table ff osz C (ofile s ++ others) (sf_files s).

Section Table.

Context (ff osz : Z) (C : list Z).

Abbreviation tab := (table ff osz C).

(** ** Frames *)

Lemma table_less refs refs' s : (∀ f, f ≠ 0 → occ f refs' ≤ occ f refs) → tab refs s → tab refs' s.
Proof. intros H (G & []). exists G. split; try done. intros f Hf. etrans; [by apply H|auto]. Qed.

Lemma table_fs refs x s : tab refs s → tab refs (set_fl_fs x s).
Proof. intros (G & [[] ? ? ? ?]). exists G. by split. Qed.

Lemma wlp_on_fsys {A} (m : prog fsst A) refs s Q :
  tab refs s → (∀ a s', tab refs s' → Q a s') → wlp (on_fsys m) Q s.
Proof. intros H HQ. apply wlp_zoom. intros a t. by apply HQ, table_fs. Qed.

Lemma table_held refs s f : tab refs s → f ≠ 0 → f ∈ refs → ∃ x, files s !! f = Some x ∧ 1 ≤ f_ref x.
Proof.
  intros (G & H) Hf Hin. pose proof (tb_ref _ _ _ _ _ _ H f Hf) as Hr. pose proof (occ_in _ _ Hin) as Hi.
  unfold ref_of in Hr. destruct (files s !! f) as [x|]; simpl in Hr; [|lia]. exists x. split; [done|lia].
Qed.

(** A file is written: its references and those held change together. *)
Lemma table_write refs refs' s f x y :
  tab refs s → files s !! f = Some x → (0 < f_ref y → 0 < f_ref x) → f_type y ≠ FD_PIPE →
  (∀ g, g ≠ 0 → occ g refs' ≤ if decide (g = f) then f_ref y else ref_of (files s) g) →
  tab refs' (set_files (<[f := y]> (files s)) s).
Proof.
  intros (G & [[] Hr Hl Ht Hp]) Hx Hpos Hty Hocc. exists G. split; [by split| | | |done]; cbn.
  - intros g Hg. etrans; [by apply Hocc|]. unfold ref_of. case_decide as E; [subst; by rewrite lookup_insert_eq|].
    by rewrite lookup_insert_ne.
  - intros g z [[-> ->]|[? Hz]]%lookup_insert_Some Hz'; [eapply Hl; [done|auto]|by eapply Hl].
  - intros g z [[-> ->]|[? Hz]]%lookup_insert_Some; [done|by eapply Ht].
Qed.

Lemma table_ref refs s g : tab refs s → g ≠ 0 → occ g refs ≤ ref_of (files s) g.
Proof. intros (G & H). apply (tb_ref _ _ _ _ _ _ H). Qed.

Lemma table_type refs s f x : tab refs s → files s !! f = Some x → f_type x ≠ FD_PIPE.
Proof. intros (G & H). apply (tb_nopipe _ _ _ _ _ _ H). Qed.

(** A change that keeps the count. *)
Lemma table_same refs s f x y :
  tab refs s → files s !! f = Some x → f_ref y = f_ref x → f_type y ≠ FD_PIPE → tab refs (set_files (<[f := y]> (files s)) s).
Proof.
  intros H Hx Hr Ht. eapply table_write; [done..|by rewrite Hr|done|]. intros g Hg. etrans; [by eapply table_ref|].
  case_decide as E; [subst|done]. unfold ref_of. rewrite Hx. simpl. lia.
Qed.

Lemma table_lock refs s : tab refs s → ft_lock s = false.
Proof. intros (G & H). exact (fo_lock _ _ _ _ _ (tb_files _ _ _ _ _ _ H)). Qed.

(** ** Operations on files *)

Lemma wlp_filealloc refs s Q :
  tab refs s → (∀ s', tab refs s' → Q 0 s') → (∀ r s', r ≠ 0 → tab (r :: refs) s' → Q r s') → wlp filealloc Q s.
Proof.
  intros (G & [Hf Hr Hl Ht Hp]) H0 H1.
  eapply wlp_mono; [by apply wp_wlp, (wp_filealloc ff osz C s G)|].
  intros r s' (G' & Hf' & (E1 & E2 & _) & Lv & [(-> & _ & F)|(Hr0 & _ & _ & F & Hap)]).
  - apply H0. exists G'. split; [done|by rewrite F| |by rewrite F|congruence]. rewrite F, E1. intros f x Hx Hx'. apply (Lv _ f osz). left. eauto.
  - apply H1; [done|]. exists G'. split; [done|rewrite F|rewrite F, E1|rewrite F|congruence].
    + intros f Hf0. rewrite occ_cons. unfold ref_of in *. specialize (Hr f Hf0). case_decide as E.
      * subst f. rewrite lookup_insert_eq. simpl. destruct (files s !! r) as [x|] eqn:Hx; simpl in Hr; [|lia].
        destruct (decide (0 < f_ref x)) as [Hx'|]; [|lia]. by destruct (files_apart ff osz C s G r r Hf (Hl _ _ Hx Hx') Hap).
      * by rewrite lookup_insert_ne, Z.add_0_l.
    + intros f x [[<- <-]|[? Hx]]%lookup_insert_Some Hx'; apply (Lv _ _ osz); [by right|left; eauto].
    + intros f x [[<- <-]|[? Hx]]%lookup_insert_Some; [done|eauto].
Qed.

Lemma wp_filedup refs s f x :
  tab refs s → f ≠ 0 → f ∈ refs → files s !! f = Some x → f_ref x < int_max →
  wp (filedup f) (λ r s', r = f ∧ tab (f :: refs) s' ∧ files s' = <[f := set_fref (f_ref x + 1) x]> (files s)) s.
Proof.
  intros H Hf Hin Hx Hm. destruct (table_held _ _ _ H Hf Hin) as (x' & Hx' & Hr). assert (x' = x) as -> by congruence.
  unfold filedup. wp_auto. apply wp_acquire_ftable; [by eapply table_lock|]. wp_auto. apply (wp_read_file _ x); [done|].
  rewrite (proj2 (Z.ltb_ge _ _)), (proj2 (Z.leb_gt _ _)) by lia. wp_auto. apply (wp_update_file _ _ x); [done|]. wp_auto.
  apply wp_release_ftable; [done|]. wp_auto. split_and!; [done| |done].
  replace (set_ft_lock _ _) with (set_files (<[f := set_fref (f_ref x + 1) x]> (files s)) s).
  - eapply table_write; [exact H|done|simpl; lia|exact (table_type _ _ _ _ H Hx)|]. intros g Hg. rewrite occ_cons.
    pose proof (table_ref _ _ g H Hg) as Ho. unfold ref_of in Ho. case_decide as E.
    + subst g. rewrite Hx in Ho. rewrite decide_True by done. simpl in *. lia.
    + rewrite decide_False by congruence. unfold ref_of. lia.
  - pose proof (table_lock _ _ H). destruct s; cbn in *; by subst.
Qed.

Lemma wlp_filedup refs s f Q :
  tab refs s → f ≠ 0 → f ∈ refs → (∀ s', tab (f :: refs) s' → Q f s') → wlp (filedup f) Q s.
Proof.
  intros H Hf Hin HQ. destruct (table_held _ _ _ H Hf Hin) as (x & Hx & Hr). destruct (decide (f_ref x < int_max)) as [Hm|Hm].
  - eapply wlp_mono; [by eapply wp_wlp, wp_filedup|]. intros r s' (-> & H' & _). auto.
  - unfold filedup. wlp_auto. apply wp_wlp, wp_acquire_ftable; [by eapply table_lock|]. wlp_auto. apply wp_wlp, (wp_read_file _ x); [done|].
    rewrite (proj2 (Z.ltb_ge _ _)), (proj2 (Z.leb_le _ _)) by lia. wlp_auto.
Qed.

(** The free of the local copy is refused. *)
Lemma wp_filefree s G :
  files_ok ff osz (set_ft_lock false s) G C →
  wp (filefree ff) (λ _ s', ∃ k, s' = set_nfiles (nfiles s - 1) (set_fl_kst k s) ∧
    files_ok ff osz (set_ft_lock false s') G C ∧ ∀ a p sz, live k G a p sz ↔ live (fl_kst s) G a p sz) s.
Proof.
  intros H. destruct (fo_cache _ _ _ _ _ H) as (c & Hc & Hu & Ho).
  destruct (fo_rep _ _ _ _ _ H) as [A Hrep]. destruct (fo_stack _ _ _ _ _ H) as [Hff Hidx]. cbn in Hidx.
  unfold filefree, on_slab. wp_auto. eapply wp_mono.
  { apply (wp_kmem_cache_free_error (fl_kst s) A G C _ c ff KMEM_ERR_CACHE_MISMATCH Hrep (fo_null _ _ _ _ _ H) Hff Hc Hu).
    unfold free_error, owner_at. by rewrite Hidx. }
  intros [] k' Ek. wp_auto. exists k'. split; [done|].
  apply (files_ok_error ff osz C (set_ft_lock false s) (set_ft_lock false (set_nfiles (nfiles s - 1) (set_fl_kst k' s))) G _ c H Hc Ek); done.
Qed.

(** What [fileclose] does to the table once the last reference is gone. *)
Lemma table_last refs s f x :
  f ≠ 0 → tab (f :: refs) s → files s !! f = Some x → f_ref x ≤ 1 →
  tab refs (set_files (<[f := set_ftype FD_NONE (set_fref 0 x)]> (files s)) s).
Proof.
  intros Hf H Hx Hr. eapply table_write; [exact H|done|simpl; lia|done|]. intros g Hg.
  pose proof (table_ref _ _ g H Hg) as Ho. rewrite occ_cons in Ho. destruct (decide (g = f)) as [->|E].
  - unfold ref_of in Ho. rewrite Hx, decide_True in Ho by done. simpl in *. lia.
  - rewrite decide_False in Ho by congruence. lia.
Qed.

Lemma wp_filefree_table refs s :
  tab refs (set_ft_lock false s) → ft_lock s = true →
  wp (filefree ff) (λ _ s', ft_lock s' = true ∧ tab refs (set_ft_lock false s')) s.
Proof.
  intros (G & [Hf Hr Hl Ht Hp]) E. eapply wp_mono; [by apply (wp_filefree s G)|].
  intros _ s' (k & -> & Hf' & Hlv). split; [done|]. exists G. split; [done..| |done|done]. intros f x Hx Hx'. apply Hlv. by eapply Hl.
Qed.

Lemma wlp_fileclose refs s f Q :
  f ≠ 0 → tab (f :: refs) s → (∀ s', tab refs s' → Q tt s') → wlp (fileclose ff f) Q s.
Proof.
  intros Hf H HQ. pose proof (table_lock _ _ H) as Hl. destruct (table_held _ _ _ H Hf) as (x & Hx & Hr); [left|].
  assert (set_ft_lock false (set_ft_lock true s) = s) as Es by (destruct s; cbn in *; by subst).
  unfold fileclose. wlp_auto. apply wp_wlp, wp_acquire_ftable; [done|]. wlp_auto. apply wp_wlp, (wp_read_file _ x); [done|].
  rewrite (proj2 (Z.ltb_ge _ _)) by lia. wlp_auto. apply wp_wlp, (wp_update_file _ _ x); [done|].
  destruct (Z.ltb_spec 0 (f_ref x - 1)).
  - apply wp_wlp, wp_release_ftable; [done|]. apply HQ.
    change (tab refs (set_files (<[f := set_fref (f_ref x - 1) x]> (files s)) (set_ft_lock false (set_ft_lock true s)))). rewrite Es.
    eapply table_write; [exact H|done|simpl; lia|exact (table_type _ _ _ _ H Hx)|]. intros g Hg.
    pose proof (table_ref _ _ g H Hg) as Ho. rewrite occ_cons in Ho. unfold ref_of in *. destruct (decide (g = f)) as [->|E].
    + rewrite Hx, decide_True in Ho by done. simpl in *. lia.
    + rewrite decide_False in Ho by congruence. lia.
  - wlp_auto. eapply wp_wlp, wp_update_file; [apply lookup_insert_eq|]. wlp_auto. cbn [files set_files set_ft_lock].
    rewrite insert_insert_eq. eapply wlp_mono; [apply wp_wlp, (wp_filefree_table refs); [|done]|].
    { change (tab refs (set_files (<[f := set_ftype FD_NONE (set_fref 0 x)]> (files s)) (set_ft_lock false (set_ft_lock true s)))).
      rewrite Es. apply table_last; [done..|lia]. }
    intros [] s1 [E1 H1]. wlp_auto. apply wp_wlp, wp_release_ftable; [done|].
    destruct (f_type x) eqn:Et; [wlp_auto; auto|by destruct (table_type _ _ _ _ H Hx)|..];
      wlp_auto; repeat (eapply wlp_on_fsys; [done|intros ? ? ?]; wlp_auto); auto.
Qed.

Lemma wlp_update_file refs s f g Q :
  tab refs s → (∀ x, f_ref (g x) = f_ref x) → (∀ x, f_type x ≠ FD_PIPE → f_type (g x) ≠ FD_PIPE) →
  (∀ s', tab refs s' → Q tt s') → wlp (update_file f g) Q s.
Proof.
  intros H Hr Ht HQ. unfold update_file, read_file. wlp_auto. apply HQ. eapply table_same; [done..|auto|].
  by eapply Ht, table_type.
Qed.

(** No pipe is created. *)
Lemma wlp_pipealloc junk refs s Q :
  tab refs s → (∀ f0 f1 s', tab refs s' → Q (-1, f0, f1) s') → wlp (pipealloc ff junk) Q s.
Proof.
  intros H HQ. unfold pipealloc, pipealloc_bad. wlp_auto. apply (wlp_filealloc refs); [done|intros s1 H1|intros f0 s1 Hf0 H1].
  { change (0 =? 0) with true. cbv iota. wlp_auto. auto. }
  rewrite (proj2 (Z.eqb_neq _ _)) by done. wlp_auto. apply (wlp_filealloc (f0 :: refs)); [done|intros s2 H2|intros f1 s2 Hf1 H2].
  { change (0 =? 0) with true. cbv iota. wlp_auto. apply (wlp_fileclose refs); [done..|]. intros s3 H3. wlp_auto. auto. }
  rewrite (proj2 (Z.eqb_neq f1 0)) by done. wlp_auto.
  assert (pipe_cache s2 = NULL) as -> by (by destruct H2 as (G & [])).
  unfold on_slab, kmem_cache_alloc. change (NULL =? NULL) with true. cbv iota.
  apply wp_wlp, wp_zoom, wp_ret. change (NULL =? 0) with true. cbv iota.
  replace (set_fl_kst (fl_kst s2) s2) with s2 by (by destruct s2). wlp_auto.
  apply (wlp_fileclose (f1 :: refs)); [done|eapply table_less, H2; intros g _; rewrite !occ_cons; lia|]. intros s3 H3. wlp_auto.
  apply (wlp_fileclose refs); [done..|]. intros s4 H4. wlp_auto. auto.
Qed.

End Table.

(** ** Reading and writing *)

(** What a device driver does leaves the table of files as it was. *)
Definition driver_ok (fn : Z → option (Z → Z → prog filest Z)) : Prop :=
  ∀ major m addr n s, fn major = Some m → wlp (m addr n) (λ _ s', ∃ x, s' = set_fl_fs x s) s.

(** Steps of the code that keep [tab refs]. *)
Ltac keep_table :=
  repeat (wlp_auto; match goal with
  | |- wlp (on_fsys _) _ _ => eapply wlp_on_fsys; [eassumption|intros ? ? ?]
  | |- wlp (update_file _ _) _ _ => eapply wlp_update_file; [eassumption|done|done|intros ? ?]
  | |- wlp (if ?b then _ else _) _ _ => destruct b
  end); wlp_auto.

Section ReadWrite.

Context (ff osz : Z) (C : list Z) (copyout : Z → list Z → prog bmem bool) (copyin : Z → Z → prog bmem (option (list Z))).

Context (piperead pipewrite : Z → Z → Z → prog filest Z) (dev_read dev_write : Z → option (Z → Z → prog filest Z)).

Context (Hdr : driver_ok dev_read) (Hdw : driver_ok dev_write).

Abbreviation tab := (table ff osz C).

Lemma wlp_device fn refs major m addr n s Q :
  driver_ok fn → tab refs s → device fn major = Some m → (∀ r s', tab refs s' → Q r s') → wlp (m addr n) Q s.
Proof.
  intros Hd H Hm HQ. unfold device in Hm. destruct (_ || _); [done|]. eapply wlp_mono; [by eapply Hd|].
  intros r s' [x ->]. by apply HQ, table_fs.
Qed.

Lemma wlp_filestat pad f addr refs s Q :
  tab refs s → (∀ r s', tab refs s' → Q r s') → wlp (filestat copyout pad f addr) Q s.
Proof. intros H HQ. unfold filestat, read_file. wlp_auto. destruct (f_type _); keep_table; auto. Qed.

Lemma wlp_fileread f addr n refs s Q :
  tab refs s → (∀ r s', tab refs s' → Q r s') → wlp (fileread copyout piperead dev_read f addr n) Q s.
Proof.
  intros H HQ. unfold fileread, read_file. wlp_auto. destruct (negb _); [wlp_auto; auto|].
  destruct (f_type _) eqn:Et; [wlp_auto|by edestruct (table_type ff osz C refs s)|keep_table; auto|].
  destruct (device _ _) eqn:Ed; [eapply (wlp_device dev_read); eassumption|wlp_auto; auto].
Qed.

Lemma wlp_filewrite f addr n refs s Q :
  tab refs s → (∀ r s', tab refs s' → Q r s') → wlp (filewrite copyin pipewrite dev_write f addr n) Q s.
Proof.
  intros H HQ. unfold filewrite. unfold read_file at 1. wlp_auto. destruct (negb _); [wlp_auto; auto|].
  destruct (f_type _) eqn:Et; [wlp_auto|by edestruct (table_type ff osz C refs s)| |].
  - wlp_auto. apply (wlp_loop (λ _, tab refs)); [done|]. intros i s1 H1.
    destruct (i <? n); [|wlp_auto; auto]. cbv zeta. unfold write_chunk, read_file. keep_table; auto.
  - destruct (device _ _) eqn:Ed; [eapply (wlp_device dev_write); eassumption|wlp_auto; auto].
Qed.

End ReadWrite.

(** * Descriptors *)

Lemma wlp_argfd argint n s (Q : option (Z * Z) → sysfst → Prop) :
  Q None s → (∀ fd f, fd = argint n → ofile s !! Z.to_nat fd = Some f → f ≠ 0 → Q (Some (fd, f)) s) → wlp (argfd argint n) Q s.
Proof.
  intros HN HS. unfold argfd. wlp_auto. destruct (_ || _); wlp_auto; [done|].
  match goal with |- wlp (if ?b then _ else _) _ _ => destruct b eqn:E end; wlp_auto; [done|]. apply HS; [done..|lia].
Qed.

(** The lowest free descriptor. *)
Definition lowest_free (l : list Z) (fd : Z) : Prop :=
  0 ≤ fd < NOFILE ∧ l !! Z.to_nat fd = Some 0 ∧ ∀ k g, 0 ≤ k < fd → l !! Z.to_nat k = Some g → g ≠ 0.

Lemma wp_fdalloc f s :
  length (ofile s) = Z.to_nat NOFILE →
  wp (fdalloc f) (λ fd s',
    (fd = -1 ∧ s' = s ∧ ∀ g, g ∈ ofile s → g ≠ 0) ∨
    (lowest_free (ofile s) fd ∧ s' = set_ofile (<[Z.to_nat fd := f]> (ofile s)) s)) s.
Proof.
  intros Hl. unfold fdalloc.
  apply (wp_loop (λ n fd s', s' = s ∧ 0 ≤ fd ≤ NOFILE ∧ n = Z.to_nat (NOFILE - fd) ∧
    ∀ k g, 0 ≤ k < fd → ofile s !! Z.to_nat k = Some g → g ≠ 0) (Z.to_nat NOFILE)); [split_and!; [done..|lia]|lia|].
  intros n fd ? (-> & Hfd & -> & Hk). destruct (Z.ltb_spec fd NOFILE).
  - wp_auto. destruct (lookup_lt_is_Some_2 (ofile s) (Z.to_nat fd)) as [g Hg]; [lia|]. apply (wp_of_option _ g); [done|].
    destruct (Z.eqb_spec g 0) as [->|Hg0].
    + unfold set_fd. wp_auto. right. unfold lowest_free. split_and!; [lia|lia|done..].
    + wp_auto. exists (Z.to_nat (NOFILE - (fd + 1))). split; [lia|]. split_and!; [done|lia..|]. intros k h Hk' Hh.
      destruct (decide (k = fd)) as [->|]; [congruence|]. apply (Hk k h); [lia|done].
  - wp_auto. left. split_and!; [done..|]. intros g (i & Hi)%list_elem_of_lookup. pose proof (lookup_lt_Some _ _ _ Hi).
    apply (Hk (Z.of_nat i) g); [lia|by rewrite Nat2Z.id].
Qed.

Section Calls.

Context (ff osz : Z) (C others : list Z).

Abbreviation tab := (table ff osz C).

Abbreviation ok := (fds_ok ff osz C others).

(** Code on the files, with references [refs] at its start and [refs'] at its
    end. *)
Lemma wlp_on_files {A} (m : prog filest A) s (Q : A → sysfst → Prop) :
  wlp m (λ a t, Q a (set_sf_files t s)) (sf_files s) → wlp (on_files m) Q s.
Proof.
  intros H a s'. unfold on_files, zoom. destruct (m (sf_files s)) as [[b t]| | |] eqn:E; [|done..]. intros [= <- <-]. by apply H.
Qed.

Lemma wlp_on_fs {A} (m : prog fsst A) refs s (Q : A → sysfst → Prop) :
  tab refs (sf_files s) → (∀ a t, tab refs t → Q a (set_sf_files t s)) → wlp (on_fs m) Q s.
Proof. intros H HQ. apply wlp_on_files. by eapply wlp_on_fsys. Qed.

(** Code on the file system only. *)
Lemma wlp_ok_fs {A} (m : prog fsst A) s (Q : A → sysfst → Prop) : ok s → (∀ a s', ok s' → Q a s') → wlp (on_fs m) Q s.
Proof. intros [Hl H] HQ. eapply wlp_on_fs; [done|]. intros a t Ht. by apply HQ. Qed.

(** A descriptor is taken, or given back. *)
Lemma table_insert l i g h s :
  l !! i = Some g → (tab (h :: l ++ others) s → tab (g :: <[i := h]> l ++ others) s).
Proof.
  intros Hi. apply table_less. intros f _. rewrite !occ_cons, !occ_app, (occ_insert f l i g h Hi). lia.
Qed.

Lemma table_cons_null l s : tab l s ↔ tab (0 :: l) s.
Proof. split; apply table_less; intros f Hf; rewrite occ_cons, decide_False by done; lia. Qed.

Lemma wlp_fdalloc f s (Q : Z → sysfst → Prop) :
  length (ofile s) = Z.to_nat NOFILE → f ≠ 0 → tab (f :: ofile s ++ others) (sf_files s) →
  Q (-1) s → (∀ fd s', 0 ≤ fd → sf_files s' = sf_files s → ok s' → Q fd s') → wlp (fdalloc f) Q s.
Proof.
  intros Hl Hf H HN HS. eapply wlp_mono; [by apply wp_wlp, wp_fdalloc|].
  intros fd s' [(-> & -> & _)|((Hfd & H0 & _) & ->)]; [done|]. apply HS; [lia|done|]. split; [simpl; by rewrite length_insert|].
  apply table_cons_null. by apply table_insert.
Qed.

Lemma ok_tab s : ok s → tab (ofile s ++ others) (sf_files s).
Proof. by intros []. Qed.

Lemma ok_len s : ok s → length (ofile s) = Z.to_nat NOFILE.
Proof. by intros []. Qed.

Lemma ok_files s t : ok s → tab (ofile s ++ others) t → ok (set_sf_files t s).
Proof. by intros []. Qed.

Lemma wlp_dup argint s : ok s → wlp (sys_dup argint) (λ _, ok) s.
Proof.
  intros [Hl H]. unfold sys_dup. wlp_auto. apply wlp_argfd; [wlp_auto; by split|]. intros fd0 f _ Hfd Hf. wlp_auto.
  eapply wlp_mono; [by apply wp_wlp, wp_fdalloc|]. intros fd s' [(-> & -> & _)|((Hr & Hz & _) & ->)]; [change (-1 <? 0) with true; cbv iota; wlp_auto; by split|].
  rewrite (proj2 (Z.ltb_ge _ _)) by lia. wlp_auto. apply wlp_on_files. cbn [sf_files set_ofile].
  eapply wlp_filedup; [done..| |].
  { apply elem_of_app. left. by eapply list_elem_of_lookup_2. }
  intros t Ht. wlp_auto. split; simpl; [by rewrite length_insert|]. apply table_cons_null. by apply table_insert.
Qed.

Lemma wlp_close argint s : ok s → wlp (sys_close argint ff) (λ _, ok) s.
Proof.
  intros [Hl H]. unfold sys_close. wlp_auto. apply wlp_argfd; [wlp_auto; by split|]. intros fd f _ Hfd Hf. unfold set_fd. wlp_auto.
  apply wlp_on_files. eapply wlp_fileclose; [done|apply table_insert; [done|by apply table_cons_null in H]|].
  intros t Ht. wlp_auto. split; [|done]. simpl. by rewrite length_insert.
Qed.

(** [open] *)
Lemma wlp_open_fail ip s : ok s → wlp (open_fail ip) (λ _, ok) s.
Proof.
  intros H. unfold open_fail. wlp_auto. apply wlp_ok_fs; [done|]. intros _ s1 H1. wlp_auto.
  apply wlp_ok_fs; [done|]. intros _ s2 H2. by wlp_auto.
Qed.

Lemma wlp_open_fd omode ip d f s :
  length (ofile s) = Z.to_nat NOFILE → f ≠ 0 → tab (f :: ofile s ++ others) (sf_files s) →
  wlp (fd ← fdalloc f;
       if fd <? 0 then _ ← on_files (fileclose ff f); open_fail ip
       else
         _ ← on_files (update_file f (open_file omode ip d));
         _ ← (if flag omode O_TRUNC && (d_type d =? T_FILE) then on_fs (itrunc ip) else mret tt : prog sysfst unit);
         _ ← on_fs (iunlock ip);
         _ ← on_fs end_op_now;
         mret fd) (λ _, ok) s.
Proof.
  intros Hl Hf H. wlp_auto. apply wlp_fdalloc; [done..| |].
  - change (-1 <? 0) with true. cbv iota. wlp_auto. apply wlp_on_files. eapply wlp_fileclose; [done..|]. intros t Ht.
    apply wlp_open_fail. by split.
  - intros fd s1 Hfd _ H1. rewrite (proj2 (Z.ltb_ge _ _)) by lia. wlp_auto. apply wlp_on_files.
    eapply wlp_update_file; [by apply ok_tab|done|intros x _; simpl; by destruct (_ =? _)|]. intros t Ht.
    assert (ok (set_sf_files t s1)) as H2 by (by apply ok_files).
    assert (∀ s', ok s' → wlp (_ ← on_fs (iunlock ip); _ ← on_fs end_op_now; mret fd) (λ _, ok) s') as Hend.
    { intros s' H'. wlp_auto. apply wlp_ok_fs; [done|]. intros ? ? ?. wlp_auto. apply wlp_ok_fs; [done|]. intros ? ? ?. by wlp_auto. }
    apply wlp_bind. destruct (_ && _); [apply wlp_ok_fs; [done|]; intros ? ? ?|apply wlp_ret]; by apply Hend.
Qed.

Lemma wlp_open argint argstr copyout copyin path name iname de dot dotdot s :
  ok s → wlp (sys_open argint argstr copyout copyin path name iname de dot dotdot ff) (λ _, ok) s.
Proof.
  intros H. unfold sys_open. wlp_auto. apply wlp_ok_fs; [done|]. intros n s1 H1. destruct (n <? 0); [by wlp_auto|]. wlp_auto.
  apply wlp_ok_fs; [done|]. intros _ s2 H2. wlp_auto. apply wlp_ok_fs; [done|]. intros ip s3 H3. destruct (ip =? 0).
  { wlp_auto. apply wlp_ok_fs; [done|]. intros _ s4 H4. by wlp_auto. }
  wlp_auto. apply wlp_ok_fs; [done|]. intros x s4 H4. destruct (_ && _); [by apply wlp_open_fail|]. wlp_auto. apply wlp_on_files.
  eapply wlp_filealloc; [by apply ok_tab| |].
  - intros t Ht. change (0 =? 0) with true. cbv iota. by apply wlp_open_fail, ok_files.
  - intros f t Hf Ht. rewrite (proj2 (Z.eqb_neq _ _)) by done. apply wlp_open_fd; [by apply ok_len in H4|done..].
Qed.

Lemma wlp_pipe argaddr copyout junk s :
  ok s → wlp (sys_pipe argaddr copyout ff junk) (λ r s', r = -1 ∧ ok s' ∧ ofile s' = ofile s) s.
Proof.
  intros H. unfold sys_pipe. wlp_auto. apply wlp_on_files. eapply wlp_pipealloc; [by apply ok_tab|].
  intros f0 f1 t Ht. change (-1 <? 0) with true. cbv iota. wlp_auto. split_and!; [done|by apply ok_files|done].
Qed.

End Calls.

(** * The calls of a process *)

(** The environment of the calls: what is not under kernel/sysfile.c and the
    addresses of local variables. *)
Record fcenv := Fcenv {
  e_copyout : Z → list Z → prog bmem bool;
  e_copyin : Z → Z → prog bmem (option (list Z));
  e_piperead : Z → Z → Z → prog filest Z;
  e_pipewrite : Z → Z → Z → prog filest Z;
  e_dev_read : Z → option (Z → Z → prog filest Z);
  e_dev_write : Z → option (Z → Z → prog filest Z);
  e_path : Z; e_old : Z; e_new : Z; e_name : Z; e_iname : Z; e_de : Z; e_uentry : Z; e_poff : Z; e_dot : Z; e_dotdot : Z; e_ff : Z }.

(** The arguments of one call. *)
Record fcargs := Fcargs {
  a_int : Z → Z;
  a_addr : Z → Z;
  a_str : Z → Z → Z → prog bmem Z }.

Inductive fcall : Type :=
  | CDup | CRead | CWrite | CClose | CFstat (pad : list Z) | CLink | CUnlink | COpen | CMkdir | CMknod | CChdir
  | CPipe (junk : list Z).

Definition run_call (e : fcenv) (a : fcargs) (c : fcall) : prog sysfst Z :=
  match c with
  | CDup => sys_dup (a_int a)
  | CRead => sys_read (a_int a) (a_addr a) (e_copyout e) (e_piperead e) (e_dev_read e)
  | CWrite => sys_write (a_int a) (a_addr a) (e_copyin e) (e_pipewrite e) (e_dev_write e)
  | CClose => sys_close (a_int a) (e_ff e)
  | CFstat pad => sys_fstat (a_int a) (a_addr a) (e_copyout e) pad
  | CLink => sys_link (a_str a) (e_copyout e) (e_copyin e) (e_old e) (e_new e) (e_name e) (e_iname e) (e_de e)
  | CUnlink => sys_unlink (a_str a) (e_copyout e) (e_copyin e) (e_path e) (e_name e) (e_de e) (e_uentry e) (e_poff e) (e_dot e) (e_dotdot e)
  | COpen => sys_open (a_int a) (a_str a) (e_copyout e) (e_copyin e) (e_path e) (e_name e) (e_iname e) (e_de e) (e_dot e) (e_dotdot e) (e_ff e)
  | CMkdir => sys_mkdir (a_str a) (e_copyout e) (e_copyin e) (e_path e) (e_name e) (e_de e) (e_dot e) (e_dotdot e)
  | CMknod => sys_mknod (a_int a) (a_str a) (e_copyout e) (e_copyin e) (e_path e) (e_name e) (e_de e) (e_dot e) (e_dotdot e)
  | CChdir => sys_chdir (a_str a) (e_copyout e) (e_path e) (e_iname e) (e_de e)
  | CPipe junk => sys_pipe (a_addr a) (e_copyout e) (e_ff e) junk
  end.

Fixpoint run_calls (e : fcenv) (l : list (fcargs * fcall)) : prog sysfst (list Z) :=
  match l with
  | [] => mret []
  | (a, c) :: l => r ← run_call e a c; rs ← run_calls e l; mret (r :: rs)
  end.

Lemma wlp_run_call e osz C others a c s :
  driver_ok (e_dev_read e) → driver_ok (e_dev_write e) → fds_ok (e_ff e) osz C others s →
  wlp (run_call e a c) (λ _, fds_ok (e_ff e) osz C others) s.
Proof.
  intros Hr Hw H. pose proof (ok_tab _ _ _ _ _ H) as Ht.
  assert (∀ m : prog fsst Z, wlp (on_fs m) (λ _, fds_ok (e_ff e) osz C others) s) as Hfs by (intros m; eapply wlp_ok_fs; eauto).
  destruct c; simpl; try apply Hfs.
  - by apply wlp_dup.
  - unfold sys_read. wlp_auto. apply wlp_argfd; [by wlp_auto|]. intros fd f _ _ _. apply wlp_on_files.
    eapply wlp_fileread; [done..|]. intros r t. by apply ok_files.
  - unfold sys_write. wlp_auto. apply wlp_argfd; [by wlp_auto|]. intros fd f _ _ _. apply wlp_on_files.
    eapply wlp_filewrite; [done..|]. intros r t. by apply ok_files.
  - by apply wlp_close.
  - unfold sys_fstat. wlp_auto. apply wlp_argfd; [by wlp_auto|]. intros fd f _ _ _. apply wlp_on_files.
    eapply wlp_filestat; [done..|]. intros r t. by apply ok_files.
  - by apply wlp_open.
  - eapply wlp_mono; [by apply wlp_pipe|]. by intros r s' (_ & ? & _).
Qed.

(** What the invariant gives: a file a process holds is counted as often as it
    is held, is in use in the cache of files, and is no pipe. *)
Definition held_ok (osz : Z) (others : list Z) (s : sysfst) : Prop :=
  ∀ f, f ≠ 0 → f ∈ ofile s ++ others →
  ∃ x G, files (sf_files s) !! f = Some x ∧ occ f (ofile s) + occ f others ≤ f_ref x ∧ f_type x ≠ FD_PIPE ∧
    live (fl_kst (sf_files s)) G (file_cache (sf_files s)) f osz.

Lemma fds_ok_held ff osz C others s : fds_ok ff osz C others s → held_ok osz others s.
Proof.
  intros [Hl H] f Hf Hin. destruct (table_held ff osz C _ _ f H Hf Hin) as (x & Hx & Hr).
  pose proof (table_ref ff osz C _ _ f H Hf) as Ho. unfold ref_of in Ho. rewrite Hx, occ_app in Ho.
  destruct H as (G & H). exists x, G. split_and!; [done..|by eapply tb_nopipe|eapply tb_live; [done..|lia]].
Qed.

(** The files of a booted system: the size-128 cache stands for the cache of
    files, the process has no descriptor open. *)
Definition no_files : sysfst := SysfSt (FileSt booted example_fs false 0 66560 NULL NULL ∅ ∅) (replicate 16 0).

#[local] Opaque booted.

Lemma no_files_ok : ∃ C, fds_ok 1 128 C [] no_files.
Proof.
  destruct booted_rep as (C & Hrep & _). exists C. split; [done|]. exists ∅. split; cbn; [|..|done].
  - assert (match caches booted !! 66560 with Some c => is_used c && (object_size c =? 128) | None => false end = true) as Hc
      by (vm_compute; reflexivity).
    assert (addr_to_index (bud booted) (page_align_down 1) = -1) as Hi by (vm_compute; reflexivity).
    destruct (caches booted !! 66560) as [c|] eqn:E; [|discriminate Hc]. apply andb_prop in Hc as [Hu Ho].
    apply Z.eqb_eq in Ho. split; [exists ∅; exact Hrep|exists c; exact (conj E (conj Hu Ho))|intros Hn; discriminate Hn|split; [intros Hn; discriminate Hn|exact Hi]|reflexivity].
  - intros f Hf. rewrite !occ_cons, !decide_False by done. done.
  - intros f x. by rewrite lookup_empty.
  - intros f x. by rewrite lookup_empty.
Qed.

(** One file open, as descriptor 0. *)
Definition one_file : sysfst :=
  set_ofile (<[0%nat := 225376]> (ofile no_files)) (set_sf_files (state_of (filealloc (sf_files no_files)) (sf_files no_files)) no_files).

Lemma filealloc_fd ff osz C others s r t i :
  fds_ok ff osz C others s → filealloc (sf_files s) = Ok (r, t) → r ≠ 0 → ofile s !! i = Some 0 →
  fds_ok ff osz C others (set_ofile (<[i := r]> (ofile s)) (set_sf_files t s)).
Proof.
  intros [Hl H] E Hr Hi. split; simpl; [by rewrite length_insert|]. apply table_cons_null, table_insert; [done|].
  revert Hr. apply (wlp_filealloc ff osz C (ofile s ++ others) (sf_files s) (λ r s', r ≠ 0 → table ff osz C (r :: ofile s ++ others) s') H);
    [done|done|done].
Qed.

Lemma one_file_ok : ∃ C, fds_ok 1 128 C [] one_file.
Proof.
  destruct no_files_ok as (C & H). exists C.
  assert (match filealloc (sf_files no_files) with Ok (r, _) => r =? 225376 | _ => false end = true) as Hr by (vm_compute; reflexivity).
  unfold one_file. pose proof (filealloc_fd _ _ _ _ _ 225376 (state_of (filealloc (sf_files no_files)) (sf_files no_files)) 0 H) as W.
  apply W; [|discriminate|reflexivity]. clear W. revert Hr. generalize (filealloc (sf_files no_files)).
  intros [[r t]| | |]; [|discriminate..]. by intros ->%Z.eqb_eq.
Qed.

(** * The properties *)

(** C25: whatever sequence of the calls of kernel/sysfile.c a process makes,
    every file that one of its descriptors, or a reference of another process,
    names stays counted as often as it is held, and so stays in use in the
    cache of files: no call frees an open file.  None of them is a pipe. *)
Theorem descriptors_stay_valid e osz C others l s :
  driver_ok (e_dev_read e) → driver_ok (e_dev_write e) → fds_ok (e_ff e) osz C others s →
  wlp (run_calls e l) (λ _ s', fds_ok (e_ff e) osz C others s' ∧ held_ok osz others s') s.
Proof.
  intros Hr Hw. revert s. induction l as [|[a c] l IH]; intros s H; simpl; wlp_auto.
  - split; [done|by eapply fds_ok_held].
  - eapply wlp_mono; [by apply wlp_run_call|]. intros r s' H'. wlp_auto. eapply wlp_mono; [by apply IH|]. intros rs s'' ?. by wlp_auto.
Qed.

(** A console that takes all it is given. *)
Definition console_at_1 (major : Z) : option (Z → Z → prog filest Z) := if major =? 1 then Some (λ _ n, mret n) else None.

Definition plain_env : fcenv :=
  Fcenv (λ _ _, mret true) (λ _ n, mret (Some (replicate (Z.to_nat n) 0))) (λ _ _ _, mret 0) (λ _ _ _, mret 0)
    console_at_1 console_at_1 0 0 0 0 0 0 0 0 0 0 1.

(** The call has descriptor 0 as its first argument, and no path. *)
Definition plain_args : fcargs := Fcargs (λ _, 0) (λ _, 0) (λ _ _ _, mret (-1)).

Lemma console_driver_ok : driver_ok console_at_1.
Proof. intros major m addr n s. unfold console_at_1. destruct (major =? 1); [|done]. intros [= <-]. wlp_auto. exists (fl_fs s). by destruct s. Qed.

Lemma descriptors_stay_valid_witness :
  ∃ s', match run_calls plain_env [(plain_args, CDup); (plain_args, CClose); (plain_args, CPipe [])] one_file with
        | Ok (rs, s'') => rs = [1; 0; -1] ∧ s'' = s' ∧ held_ok 128 [] s'
        | _ => False
        end.
Proof.
  destruct one_file_ok as (C & H).
  pose proof (descriptors_stay_valid plain_env 128 C [] [(plain_args, CDup); (plain_args, CClose); (plain_args, CPipe [])] one_file
    console_driver_ok console_driver_ok H) as W.
  assert (match run_calls plain_env [(plain_args, CDup); (plain_args, CClose); (plain_args, CPipe [])] one_file with
          | Ok (rs, _) => bool_decide (rs = [1; 0; -1]) | _ => false end = true) as Hr by (vm_compute; reflexivity).
  revert W Hr. unfold wlp. destruct (run_calls _ _ _) as [[rs t]| | |]; [|discriminate..]. intros W Hr%bool_decide_eq_true.
  exists t. exact (conj Hr (conj eq_refl (proj2 (W _ _ eq_refl)))).
Defined.

(** [dup] of an open descriptor installs the file at the lowest free
    descriptor, which it returns, and counts the reference; it fails, and
    changes nothing, exactly when there is no free descriptor.  An argument
    that is not an open descriptor is refused. *)
Theorem sys_dup_correct ff osz C others argint s :
  fds_ok ff osz C others s → (∀ f x, files (sf_files s) !! f = Some x → f_ref x < int_max) →
  wp (sys_dup argint) (λ fd s', fds_ok ff osz C others s' ∧
    match ofile s !! Z.to_nat (argint 0) with
    | Some f =>
        if (argint 0 <? 0) || (f =? 0) then fd = -1 ∧ s' = s
        else
          (fd = -1 ∧ s' = s ∧ 0 ∉ ofile s) ∨
          (lowest_free (ofile s) fd ∧ ofile s' = <[Z.to_nat fd := f]> (ofile s) ∧
           ref_of (files (sf_files s')) f = ref_of (files (sf_files s)) f + 1 ∧
           ∀ g, g ≠ f → files (sf_files s') !! g = files (sf_files s) !! g)
    | None => fd = -1 ∧ s' = s
    end) s.
Proof.
  intros H Hm. pose proof H as [Hl Ht]. unfold sys_dup, argfd. wp_auto. destruct (Z.ltb_spec (argint 0) 0) as [|Ha].
  { simpl. wp_auto. split; [done|]. by destruct (_ !! _). }
  destruct (Z.leb_spec NOFILE (argint 0)).
  { simpl. wp_auto. split; [done|]. by rewrite lookup_ge_None_2 by lia. }
  simpl. destruct (lookup_lt_is_Some_2 (ofile s) (Z.to_nat (argint 0))) as [f Hf]; [lia|]. wp_auto.
  apply (wp_of_option _ f); [done|]. rewrite Hf. destruct (Z.eqb_spec f 0) as [->|Hf0]; wp_auto; [by split|].
  eapply wp_mono; [by apply wp_fdalloc|]. intros fd s' [(-> & -> & Hn)|(Hlow & ->)].
  { wp_auto. split; [done|]. left. split_and!; [done..|]. intros ?%Hn. done. }
  pose proof Hlow as (Hr & Hz & _). rewrite (proj2 (Z.ltb_ge _ _)) by lia. unfold on_files. wp_auto. cbn [sf_files set_ofile].
  assert (f ∈ ofile s ++ others) as Hin by (apply elem_of_app; left; by eapply list_elem_of_lookup_2).
  destruct (table_held _ _ _ _ _ f Ht Hf0 Hin) as (x & Hx & _).
  eapply wp_mono; [apply (wp_filedup ff osz C (ofile s ++ others) (sf_files s) f x); eauto|].
  intros r t (-> & Ht' & Ef). wp_auto. split; [split; simpl; [by rewrite length_insert|]|].
  - apply table_cons_null. by apply table_insert.
  - right. simpl. unfold ref_of. rewrite Ef, Hx, lookup_insert_eq. split_and!; [done..|]. intros g Hg. by rewrite lookup_insert_ne.
Qed.

(** [pipe] fails for every process and in every state of the booted
    system, whatever descriptors are free: it returns -1, leaves the
    descriptors, the pipes and the count of open files as they were, and keeps
    every open file.  (The file structures it takes on the way are never given
    back to the allocator.) *)
Theorem sys_pipe_always_fails ff osz C others argaddr copyout junk s :
  fds_ok ff osz C others s →
  wp (sys_pipe argaddr copyout ff junk) (λ r s', r = -1 ∧ ofile s' = ofile s ∧ fds_ok ff osz C others s' ∧
    pipes (sf_files s') = pipes (sf_files s) ∧ nfiles (sf_files s') = nfiles (sf_files s)) s.
Proof.
  intros H. eapply wp_mono.
  - apply (wp_and_wlp _ (λ _ s', pipes (sf_files s') = pipes (sf_files s) ∧ nfiles (sf_files s') = nfiles (sf_files s))); [|exact (wlp_pipe _ _ _ _ _ _ _ _ H)].
    pose proof (ok_tab _ _ _ _ _ H) as (G & HG). unfold sys_pipe, on_files. wp_auto.
    eapply wp_mono; [apply (pipealloc_always_fails ff osz (sf_files s) G C junk); [by eapply tb_files|by eapply tb_cache]|].
    intros [[r f0] f1] t (-> & Hp & Hn & _). change (-1 <? 0) with true. cbv iota. wp_auto. exact (conj Hp Hn).
  - intros r s' ([Hp Hn] & -> & Hok & Hof). exact (conj eq_refl (conj Hof (conj Hok (conj Hp Hn)))).
Qed.
