(* ===== verification/Exec.v ===== *)
(** Loading programs (kernel/exec.c) and the system call [exec]
    (kernel/sysfile.c): the file system of Fs.v and the page tables of Vm.v work
    on the same kernel memory. *)

From S2P Require Import Prelude.
From S2P Require Import Cstring.
From S2P Require Import Vm.
From S2P Require Import Sysproc.
From S2P Require Import Log.
From S2P Require Import Fs.

(** * Constants *)

Definition MAXARG : Z := 32.

Definition USERSTACK : Z := 1.

Definition ELF_MAGIC : Z := 0x464C457F.

Definition ELF_PROG_LOAD : Z := 1.

(** The sizes of [struct elfhdr] and [struct proghdr] and the places of their
    fields. *)
Definition elfhdr_size : Z := 64.

Definition elf_entry : Z := 24.

Definition elf_phoff : Z := 32.

Definition elf_phnum : Z := 56.

Definition proghdr_size : Z := 56.

Definition ph_flags : Z := 4.

Definition ph_off : Z := 8.

Definition ph_vaddr : Z := 16.

Definition ph_filesz : Z := 32.

Definition ph_memsz : Z := 40.

Definition flags2perm (flags : Z) : Z :=
  let perm := if negb (Z.land flags 1 =? 0) then PTE_X else 0 in
  if negb (Z.land flags 2 =? 0) then Z.lor perm PTE_W else perm.

(** * State *)

(** The fields of the trap frame that [kexec] sets. *)
Record trapframe := Trapframe {
  tf_a1 : Z;
  tf_epc : Z;
  tf_sp : Z }.

(** The running process with its memory, and the file system without the
    memory, which it shares. *)
Record execst := ExecSt {
  ex_sys : sysst;
  ex_fs : fsst;
  ex_tf : trapframe }.

Definition set_ex_sys (x : sysst) (s : execst) : execst := ExecSt x (ex_fs s) (ex_tf s).

Definition set_ex_tf (x : trapframe) (s : execst) : execst := ExecSt (ex_sys s) (ex_fs s) x.

Definition on_xsys {A} (m : prog sysst A) : prog execst A := zoom ex_sys set_ex_sys m.

Definition on_xvm {A} (m : prog (vmst allocs) A) : prog execst A := on_xsys (on_vm m).

Definition on_xram {A} (m : prog bmem A) : prog execst A := on_xvm (on_ram m).

(** The file system runs on the process's view of kernel memory. *)
Definition put_fs (f : fsst) (s : execst) : execst :=
  ExecSt (set_vm (set_ram (fmem f) (vm (ex_sys s))) (ex_sys s)) f (ex_tf s).

Definition on_xfs {A} (m : prog fsst A) : prog execst A :=
  zoom (λ s, set_fmem (ram (vm (ex_sys s))) (ex_fs s)) put_fs m.

Definition load16 (a : Z) : prog bmem Z := b0 ← load8 a; b1 ← load8 (a + 1); mret (b0 + 256 * b1).

Definition load32 (a : Z) : prog bmem Z := h0 ← load16 a; h1 ← load16 (a + 2); mret (h0 + 65536 * h1).

(** * The stack of the new program *)

Section Args.

Context {A : Type} (kalloc : prog A Z) (kfree : Z → prog A unit).

(** The pointers to the arguments, with the null that ends them, and the place
    of the array [ustack]. *)
Variables (argv : list Z) (ustack : Z).

(** The argument strings, from the top of the stack down; [None] is a failure,
    and the result the number of arguments and the stack pointer. *)
Definition push_strings (pagetable sz : Z) : prog (vmst A) (option (Z * Z)) :=
  let stackbase := u64 (sz - USERSTACK * PGSIZE) in
  loop (S (Z.to_nat MAXARG))
    (λ '(argc, sp),
       a ← of_option (argv !! Z.to_nat argc);
       if a =? 0 then mret (inr (Some (argc, sp)))
       else if MAXARG <=? argc then mret (inr None)
       else
         n ← on_ram (strlen a);
         let sp := u64 (sp - (n + 1)) in
         let sp := sp - sp mod 16 in
         if sp <? stackbase then mret (inr None)
         else
           r ← copyout kalloc kfree pagetable sp a (n + 1);
           if r <? 0 then mret (inr None)
           else
             _ ← on_ram (store64 (ustack + 8 * argc) sp);
             mret (inl (argc + 1, sp)))
    (0, sz).

(** Writing the null behind the last pointer is undefined when [ustack] is
    full. *)
Definition push_args (pagetable sz : Z) : prog (vmst A) (option (Z * Z)) :=
  let stackbase := u64 (sz - USERSTACK * PGSIZE) in
  r ← push_strings pagetable sz;
  match r with
  | None => mret None
  | Some (argc, sp) =>
      if MAXARG <=? argc then undefined
      else
        _ ← on_ram (store64 (ustack + 8 * argc) 0);
        let sp := u64 (sp - (argc + 1) * 8) in
        let sp := sp - sp mod 16 in
        if sp <? stackbase then mret None
        else
          r ← copyout kalloc kfree pagetable sp ustack ((argc + 1) * 8);
          if r <? 0 then mret None else mret (Some (argc, sp))
  end.

End Args.

(** * [kexec] *)

Section Kexec.

(** Copies between files and user memory, which [kexec] does not use. *)
Variable ucopyout : Z → list Z → prog bmem bool.

(** The addresses of the trampoline, the trap frame and the name of the
    process, and of local variables: the ELF header, the program header, the
    array [ustack], and the directory entry and name of [namei]. *)
Variables (trampoline p_trapframe p_name : Z) (elf ph ustack de name : Z).

Definition xreadi (ip dst off n : Z) : prog execst Z := on_xfs (readi ucopyout ip false dst off n).

Definition xend_op : prog execst unit := on_xfs (_ ← on_log end_op; mret tt).

(** The loop ends because [i] passes [sz], unless it wraps. *)
Definition loadseg (pagetable va ip offset sz : Z) : prog execst Z :=
  loop (S (Z.to_nat sz))
    (λ i,
       if i <? sz then
         pa ← on_xvm (walkaddr curr_kalloc pagetable (u64 (va + i)));
         if pa =? 0 then panic "loadseg: address should exist"
         else
           let n := if u32 (sz - i) <? PGSIZE then u32 (sz - i) else PGSIZE in
           r ← xreadi ip pa (u32 (offset + i)) n;
           if negb (r =? n) then mret (inr (-1)) else mret (inl (u32 (i + PGSIZE)))
       else mret (inr 0))
    0.

(** The program headers; [inr sz] when every segment is loaded, [inl sz] on the
    way to [bad]. *)
Definition load_segments (pagetable ip phoff phnum : Z) : prog execst (Z + Z) :=
  loop (S (Z.to_nat phnum))
    (λ '(i, off, sz),
       if i <? phnum then
         r ← xreadi ip ph (u32 off) proghdr_size;
         if negb (r =? proghdr_size) then mret (inr (inl sz))
         else
           type ← on_xram (load32 ph);
           if negb (type =? ELF_PROG_LOAD) then mret (inl (i + 1, s32 (off + proghdr_size), sz))
           else
             memsz ← on_xram (load64 (ph + ph_memsz));
             filesz ← on_xram (load64 (ph + ph_filesz));
             if memsz <? filesz then mret (inr (inl sz))
             else
               vaddr ← on_xram (load64 (ph + ph_vaddr));
               if u64 (vaddr + memsz) <? vaddr then mret (inr (inl sz))
               else if negb (vaddr mod PGSIZE =? 0) then mret (inr (inl sz))
               else
                 flags ← on_xram (load32 (ph + ph_flags));
                 sz1 ← on_xvm (uvmalloc curr_kalloc curr_kfree pagetable sz (u64 (vaddr + memsz)) (flags2perm (s32 flags)));
                 if sz1 =? 0 then mret (inr (inl sz))
                 else
                   foff ← on_xram (load64 (ph + ph_off));
                   r ← loadseg pagetable vaddr ip (u32 foff) (u32 filesz);
                   if r <? 0 then mret (inr (inl sz1))
                   else mret (inl (i + 1, s32 (off + proghdr_size), sz1))
       else mret (inr (inr sz)))
    (0, s32 phoff, 0).

(** The last element of the path. *)
Definition last_elem (path : Z) : prog bmem Z :=
  m ← get;
  loop (S (size m))
    (λ '(last, s),
       c ← load8 s;
       if c =? 0 then mret (inr last) else mret (inl (if c =? SLASH then s + 1 else last, s + 1)))
    (path, path).

(** The label [bad]. *)
Definition exec_bad (pagetable sz ip : Z) : prog execst Z :=
  _ ← (if pagetable =? 0 then mret tt else on_xvm (proc_freepagetable curr_kalloc curr_kfree pagetable sz) : prog execst unit);
  _ ← (if ip =? 0 then mret tt else _ ← on_xfs (iunlockput ip); xend_op : prog execst unit);
  mret (-1).

(** Commit to the user image. *)
Definition commit_image (pagetable sz entry sp : Z) (s : execst) : execst :=
  let x := ex_sys s in
  ExecSt
    (SysSt (VmSt (ram (vm x)) (pages (vm x)) sz pagetable) (set_ubase sz (win x)) (targs x))
    (ex_fs s) (Trapframe (tf_a1 (ex_tf s)) entry sp).

(** From the loaded segments on. *)
Definition exec_stack (path : Z) (argv : list Z) (pagetable sz : Z) : prog execst Z :=
  s ← get;
  let oldsz := p_sz (vm (ex_sys s)) in
  let sz := PGROUNDUP sz in
  sz1 ← on_xvm (uvmalloc curr_kalloc curr_kfree pagetable sz (u64 (sz + (USERSTACK + 1) * PGSIZE)) PTE_W);
  if sz1 =? 0 then exec_bad pagetable sz 0
  else
    let sz := sz1 in
    _ ← on_xvm (uvmclear curr_kalloc pagetable (u64 (sz - (USERSTACK + 1) * PGSIZE)));
    r ← on_xvm (push_args curr_kalloc curr_kfree argv ustack pagetable sz);
    match r with
    | None => exec_bad pagetable sz 0
    | Some (argc, sp) =>
        _ ← modify (λ s, set_ex_tf (Trapframe sp (tf_epc (ex_tf s)) (tf_sp (ex_tf s))) s);
        last ← on_xram (last_elem path);
        _ ← on_xram (safestrcpy p_name last 16);
        s ← get;
        let oldpagetable := p_pagetable (vm (ex_sys s)) in
        entry ← on_xram (load64 (elf + elf_entry));
        _ ← modify (commit_image pagetable sz entry sp);
        _ ← on_xvm (proc_freepagetable curr_kalloc curr_kfree oldpagetable oldsz);
        mret (s32 argc)
    end.

Definition kexec (path : Z) (argv : list Z) : prog execst Z :=
  _ ← on_xfs begin_op_now;
  ip ← on_xfs (namei ucopyout de name path);
  if ip =? 0 then _ ← xend_op; mret (-1)
  else
    _ ← on_xfs (ilock ip);
    r ← xreadi ip elf 0 elfhdr_size;
    if negb (r =? elfhdr_size) then exec_bad 0 0 ip
    else
      magic ← on_xram (load32 elf);
      if negb (magic =? ELF_MAGIC) then exec_bad 0 0 ip
      else
        pagetable ← on_xvm (proc_pagetable curr_kalloc curr_kfree trampoline p_trapframe);
        if pagetable =? 0 then exec_bad 0 0 ip
        else
          phoff ← on_xram (load64 (elf + elf_phoff));
          phnum ← on_xram (load16 (elf + elf_phnum));
          r ← load_segments pagetable ip phoff phnum;
          match r with
          | inl sz => exec_bad pagetable sz ip
          | inr sz =>
              _ ← on_xfs (iunlockput ip);
              _ ← xend_op;
              exec_stack path argv pagetable sz
          end.

(** * [sys_exec] *)

(** The pages that hold the arguments are freed up to the first null. *)
Definition free_argv (argv : list Z) : prog execst unit :=
  loop (S (Z.to_nat MAXARG))
    (λ i,
       if i <? MAXARG then
         a ← of_option (argv !! Z.to_nat i);
         if a =? 0 then mret (inr tt) else _ ← on_xvm (on_pages (curr_kfree a)); mret (inl (i + 1))
       else mret (inr tt))
    0.

(** The arguments are fetched one by one; the flag says whether all of them,
    with the null, arrived. *)
Definition fetch_argv (uargv uarg : Z) : prog execst (bool * list Z) :=
  loop (S (Z.to_nat MAXARG))
    (λ '(i, argv),
       if MAXARG <=? i then mret (inr (false, argv))
       else
         r ← on_xsys (fetchaddr (u64 (uargv + 8 * i)) uarg);
         if r <? 0 then mret (inr (false, argv))
         else
           a ← on_xram (load64 uarg);
           if a =? 0 then mret (inr (true, <[Z.to_nat i := 0]> argv))
           else
             pg ← on_xvm (on_pages curr_kalloc);
             let argv := <[Z.to_nat i := pg]> argv in
             if pg =? 0 then mret (inr (false, argv))
             else
               r ← on_xsys (fetchstr a pg PGSIZE);
               if r <? 0 then mret (inr (false, argv)) else mret (inl (i + 1, argv)))
    (0, replicate (Z.to_nat MAXARG) 0).

Definition sys_exec (path uarg : Z) : prog execst Z :=
  uargv ← on_xsys (argaddr 1);
  r ← on_xsys (argstr 0 path 128);
  if r <? 0 then mret (-1)
  else
    '(ok, argv) ← fetch_argv uargv uarg;
    if (ok : bool) then
      ret ← kexec path argv;
      _ ← free_argv argv;
      mret ret
    else
      _ ← free_argv argv;
      mret (-1).

End Kexec.
