(* ===== verification/ExecProps.v ===== *)
(** [exec]: a call that fails leaves the process as it was, a call that succeeds
    installs the new image, and the new program finds its arguments on its
    stack. *)

From S2P Require Import Prelude.
From S2P Require Import Cstring.
From S2P Require Import Vm.
From S2P Require Import VmInv.
From S2P Require Import VmProps.
From S2P Require Import VmTheorems.
From S2P Require Import Sysproc.
From S2P Require Import Log.
From S2P Require Import Fs.
From S2P Require Import Exec.

(** * What the helpers leave alone *)

Section Same.

Context {A : Type} (kalloc : prog A Z) (kfree : Z → prog A unit).

(** The size and the page table of the running process. *)
Definition same_map (s s' : vmst A) : Prop := p_sz s' = p_sz s ∧ p_pagetable s' = p_pagetable s.

#[local] Instance same_map_preorder : PreOrder same_map.
Proof. split; [by split|]. intros s1 s2 s3 [? ?] [? ?]. split; congruence. Qed.

Lemma keeps_on_ram {B} (m : prog bmem B) : keeps same_map (on_ram m).
Proof. by apply keeps_zoom. Qed.

Lemma keeps_on_pages {B} (m : prog A B) : keeps same_map (on_pages m).
Proof. by apply keeps_zoom. Qed.

Lemma keeps_panic {B} msg : keeps same_map (panic msg : prog (vmst A) B).
Proof. by intros s a s'. Qed.

Lemma keeps_of_option {B} (o : option B) : keeps same_map (of_option o : prog (vmst A) B).
Proof. destruct o; [apply keeps_ret, _|apply keeps_undefined]. Qed.

Ltac vm_keeps :=
  repeat first
    [ progress keeps_auto | apply keeps_on_ram | apply keeps_on_pages | apply keeps_panic | apply keeps_of_option
    | match goal with |- keeps _ (match ?x with _ => _ end) => destruct x end | progress cbv zeta | by intros ? ? ? ].

Lemma keeps_walk pt va alloc : keeps same_map (walk kalloc pt va alloc).
Proof. unfold walk, read_pte, write_pte. vm_keeps. Qed.

Lemma keeps_walkaddr pt va : keeps same_map (walkaddr kalloc pt va).
Proof. unfold walkaddr, read_pte. pose proof keeps_walk. vm_keeps; auto. Qed.

Lemma keeps_mappages pt va size pa perm : keeps same_map (mappages kalloc pt va size pa perm).
Proof. unfold mappages, map_page, read_pte, write_pte. pose proof keeps_walk. vm_keeps; auto; vm_keeps. Qed.

Lemma keeps_uvmunmap pt va n f : keeps same_map (uvmunmap kalloc kfree pt va n f).
Proof. unfold uvmunmap, read_pte, write_pte. pose proof keeps_walk. vm_keeps; auto; vm_keeps. Qed.

Lemma keeps_uvmdealloc pt a b : keeps same_map (uvmdealloc kalloc kfree pt a b).
Proof. unfold uvmdealloc. pose proof keeps_uvmunmap. vm_keeps; auto; vm_keeps. Qed.

Lemma keeps_uvmalloc pt a b x : keeps same_map (uvmalloc kalloc kfree pt a b x).
Proof. unfold uvmalloc. pose proof keeps_uvmdealloc. pose proof keeps_mappages. vm_keeps; auto; vm_keeps. Qed.

Lemma keeps_freewalk n pt : keeps same_map (freewalk kfree n pt).
Proof. revert pt. induction n as [|n IH]; intros pt; cbn [freewalk]; [by intros s a s'|]. unfold read_pte, write_pte. vm_keeps; auto; vm_keeps. Qed.

Lemma keeps_proc_freepagetable pt sz : keeps same_map (proc_freepagetable kalloc kfree pt sz).
Proof. unfold proc_freepagetable, uvmfree. vm_keeps. Qed.

Lemma keeps_proc_pagetable a b : keeps same_map (proc_pagetable kalloc kfree a b).
Proof.
  unfold proc_pagetable, uvmcreate, uvmfree. vm_keeps.
Qed.

Lemma keeps_uvmclear pt va : keeps same_map (uvmclear kalloc pt va).
Proof. unfold uvmclear, read_pte, write_pte. pose proof keeps_walk. vm_keeps; auto; vm_keeps. Qed.

Lemma keeps_copyout pt d a n : keeps same_map (copyout kalloc kfree pt d a n).
Proof.
  unfold copyout, user_page, vmfault, ismapped, read_pte. pose proof keeps_walk. pose proof keeps_walkaddr. pose proof keeps_mappages.
  vm_keeps; auto; vm_keeps; auto.
Qed.

Lemma keeps_push_args argv ustack pt sz : keeps same_map (push_args kalloc kfree argv ustack pt sz).
Proof. unfold push_args, push_strings. pose proof keeps_copyout. vm_keeps; auto; vm_keeps; auto. Qed.

End Same.

(** * The image of the process *)

(** Size, page table and window of the process, and the trap frame. *)
Definition image (s : execst) : Z * Z * window * trapframe :=
  (p_sz (vm (ex_sys s)), p_pagetable (vm (ex_sys s)), win (ex_sys s), ex_tf s).

Definition same_image (s s' : execst) : Prop := image s' = image s.

#[local] Instance same_image_preorder : PreOrder same_image.
Proof. split; [by intros s|]. intros s1 s2 s3 E1 E2. unfold same_image in *. congruence. Qed.

Lemma keeps_on_xvm {B} (m : prog (vmst allocs) B) : keeps same_map m → keeps same_image (on_xvm m).
Proof.
  intros Hm s a s'. unfold on_xvm, on_xsys, on_vm, zoom. destruct (m (vm (ex_sys s))) as [[b v]| | |] eqn:E; [|done..].
  intros [= <- <-]. destruct (Hm _ _ _ E) as [E1 E2]. unfold same_image, image. cbn. by rewrite E1, E2.
Qed.

Lemma keeps_on_xram {B} (m : prog bmem B) : keeps same_image (on_xram m).
Proof. apply keeps_on_xvm, keeps_on_ram. Qed.

Lemma keeps_on_xfs {B} (m : prog fsst B) : keeps same_image (on_xfs m).
Proof. by apply keeps_zoom. Qed.

Lemma wlp_on_xvm {B} (m : prog (vmst allocs) B) (P : B → Prop) s :
  wlp m (λ b _, P b) (vm (ex_sys s)) → wlp (on_xvm m) (λ b _, P b) s.
Proof.
  intros Hm b s'. unfold on_xvm, on_xsys, on_vm, zoom. destruct (m (vm (ex_sys s))) as [[c v]| | |] eqn:E; [|done..].
  intros [= <- <-]. by eapply Hm.
Qed.

Section Image.

Variables (ucopyout : Z → list Z → prog bmem bool) (trampoline p_trapframe p_name elf ph ustack de name : Z).

Ltac x_keeps :=
  repeat first
    [ progress keeps_auto | apply keeps_on_xram | apply keeps_on_xfs | by intros ? ? ?
    | apply keeps_on_xvm; first [apply keeps_walkaddr | apply keeps_uvmalloc | apply keeps_proc_freepagetable | apply keeps_proc_pagetable]
    | match goal with |- keeps _ (match ?x with _ => _ end) => destruct x end | progress cbv zeta ].

Lemma keeps_loadseg pt va ip off sz : keeps same_image (loadseg ucopyout pt va ip off sz).
Proof. unfold loadseg, xreadi. x_keeps. Qed.

Lemma keeps_load_segments pt ip phoff phnum : keeps same_image (load_segments ucopyout ph pt ip phoff phnum).
Proof. unfold load_segments, xreadi. pose proof keeps_loadseg. x_keeps; auto; x_keeps. Qed.

Lemma keeps_exec_bad pt sz ip : keeps same_image (exec_bad pt sz ip).
Proof. unfold exec_bad, xend_op. x_keeps. Qed.

(** [n] arguments and the null. *)
Definition has_args (argv : list Z) (n : Z) : Prop :=
  0 ≤ n ∧ argv !! Z.to_nat n = Some 0 ∧ ∀ i, 0 ≤ i < n → ∃ a, argv !! Z.to_nat i = Some a ∧ a ≠ 0.

(** The stack pointer is aligned and above the guard page. *)
Definition on_stack (sz sp : Z) : Prop := sp mod 16 = 0 ∧ u64 (sz - USERSTACK * PGSIZE) ≤ sp.

Lemma align16 x : (x - x mod 16) mod 16 = 0.
Proof. rewrite Zminus_mod_idemp_r. by rewrite Z.sub_diag. Qed.

Lemma push_strings_count {A} (kalloc : prog A Z) kfree argv pt sz s :
  wlp (push_strings kalloc kfree argv ustack pt sz) (λ r _, match r with Some (argc, _) => has_args argv argc | None => True end) s.
Proof.
  unfold push_strings. cbv zeta.
  apply (wlp_loop (λ '(argc, _) _, 0 ≤ argc ∧ ∀ i, 0 ≤ i < argc → ∃ a, argv !! Z.to_nat i = Some a ∧ a ≠ 0)); [split; [lia|intros; lia]|].
  intros [argc sp] s1 [Hn Hall]. wlp_auto. destruct (Z.eqb_spec a 0) as [->|H0]; wlp_auto; [done|].
  destruct (MAXARG <=? argc); wlp_auto; [done|]. apply wlp_any. intros n s2. destruct (_ <? _); wlp_auto; [done|].
  apply wlp_any. intros r s3. destruct (r <? 0); wlp_auto; [done|]. apply wlp_any. intros [] s4. wlp_auto. split; [lia|].
  intros i Hi. destruct (decide (i = argc)) as [->|]; [by exists a|apply Hall; lia].
Qed.

Lemma push_args_frame {A} (kalloc : prog A Z) kfree argv pt sz s :
  wlp (push_args kalloc kfree argv ustack pt sz) (λ r _, match r with
    | Some (argc, sp) => has_args argv argc ∧ argc < MAXARG ∧ on_stack sz sp | None => True end) s.
Proof.
  unfold push_args. cbv zeta. apply wlp_bind. eapply wlp_mono; [apply push_strings_count|]. cbv beta. intros [[argc sp]|] s1 Ha; wlp_auto; [|done].
  destruct (Z.leb_spec MAXARG argc); wlp_auto. apply wlp_any. intros [] s2. destruct (Z.ltb_spec (u64 (sp - (argc + 1) * 8) - u64 (sp - (argc + 1) * 8) mod 16) (u64 (sz - USERSTACK * PGSIZE))); wlp_auto; [done|].
  apply wlp_any. intros r s3. destruct (r <? 0); wlp_auto; [done|]. split_and!; [done|lia|]. split; [apply align16|done].
Qed.

(** The new image. *)
Definition installed (argv : list Z) (s s' : execst) (argc : Z) : Prop :=
  ∃ pt sz sp entry, has_args argv argc ∧ argc < MAXARG ∧ on_stack sz sp ∧
    image s' = (sz, pt, set_ubase sz (win (ex_sys s)), Trapframe sp entry sp).

Lemma exec_bad_image argv s pt sz ip s1 :
  same_image s s1 → wlp (exec_bad pt sz ip) (λ r s', r = -1 ∧ same_image s s' ∨ installed argv s s' r) s1.
Proof.
  intros H1. apply (wlp_mono _ (λ r s', r = -1 ∧ same_image s1 s')).
  - apply wlp_and; [|eapply wlp_keeps; [apply keeps_exec_bad|auto]]. unfold exec_bad. do 2 (apply wlp_bind, wlp_any; intros ? ?). by wlp_auto.
  - intros r s' [-> H2]. left. split; [done|by etrans].
Qed.

Lemma exec_stack_image path argv pt sz s :
  wlp (exec_stack p_name elf ustack path argv pt sz) (λ r s', r = -1 ∧ same_image s s' ∨ installed argv s s' r) s.
Proof.
  assert (∀ pt sz s1, same_image s s1 → wlp (exec_bad pt sz 0) (λ r s', r = -1 ∧ same_image s s' ∨ installed argv s s' r) s1) as Hbad
    by (intros; by apply exec_bad_image).
  unfold exec_stack. cbv zeta. wlp_auto. eapply wlp_keeps; [apply keeps_on_xvm, keeps_uvmalloc|]. intros sz1 s1 H1.
  destruct (sz1 =? 0); [by apply Hbad|]. apply wlp_bind. eapply wlp_keeps; [apply keeps_on_xvm, keeps_uvmclear|]. intros [] s2 H2.
  apply wlp_bind. eapply wlp_mono; [apply wlp_and; [apply wlp_on_xvm, push_args_frame|]|].
  { eapply wlp_keeps; [apply keeps_on_xvm, keeps_push_args|]. intros r s3 H3. exact H3. }
  cbv beta. intros r s3 [Hr H3]. assert (same_image s s3) as H03 by (etrans; [exact H1|etrans; [exact H2|exact H3]]).
  destruct r as [[argc sp]|]; [|by apply Hbad]. destruct Hr as (Ha & Hlt & Hs). wlp_auto.
  eapply wlp_keeps; [apply keeps_on_xram|]. intros last s4 H4. wlp_auto. eapply wlp_keeps; [apply keeps_on_xram|]. intros x s5 H5. wlp_auto.
  eapply wlp_keeps; [apply keeps_on_xram|]. intros entry s6 H6. wlp_auto.
  eapply wlp_keeps; [apply keeps_on_xvm, keeps_proc_freepagetable|]. intros [] s7 H7. wlp_auto. right.
  exists pt, sz1, sp, entry. unfold MAXARG in *. destruct Ha as (Ha0 & Ha).
  assert (s32 argc = argc) as -> by (unfold s32; rewrite Z.mod_small; lia). split_and!; [done|lia|done|].
  unfold same_image, image in *. rewrite H7. injection H4 as _ _ W4 T4. injection H5 as _ _ W5 T5. injection H6 as _ _ W6 T6. injection H03 as _ _ W3 T3.
  cbn in W4, T4 |- *. rewrite T6, T5, T4, W6, W5, W4, W3. done.
Qed.


End Image.
