(* ===== verification/ExecArgs.v ===== *)
(** The stack of a new program: [kexec] leaves the argument strings and the
    array of pointers to them where [main] expects them. *)

From S2P Require Import Prelude.
From S2P Require Import Cstring.
From S2P Require Import Vm.
From S2P Require Import VmInv.
From S2P Require Import VmProps.
From S2P Require Import Buddy.
From S2P Require Import VmTheorems.
From S2P Require Import Exec.

(** * Where the arguments go *)

(** Room for [n] bytes below [sp], aligned. *)
Definition down (sp n : Z) : Z := (sp - n) - (sp - n) mod 16.

Lemma down_spec sp n : sp - n - 16 < down sp n ≤ sp - n ∧ down sp n mod 16 = 0.
Proof.
  unfold down. pose proof (Z.mod_pos_bound (sp - n) 16 ltac:(lia)). split; [lia|]. by rewrite Zminus_mod_idemp_r, Z.sub_diag.
Qed.

(** The stack pointer below the strings of [strs], and below the array of
    pointers. *)
Definition sp_below (sz : Z) (strs : list (list Z)) : Z := foldl (λ sp l, down sp (zlen l + 1)) sz strs.

Definition sp_at (sz : Z) (strs : list (list Z)) (k : nat) : Z := sp_below sz (take k strs).

Definition args_sp (sz : Z) (strs : list (list Z)) : Z := down (sp_below sz strs) ((zlen strs + 1) * 8).

Lemma sp_at_0 sz strs : sp_at sz strs 0 = sz.
Proof. done. Qed.

Lemma sp_at_S sz strs k l : strs !! k = Some l → sp_at sz strs (S k) = down (sp_at sz strs k) (zlen l + 1).
Proof. intros Hl. unfold sp_at, sp_below. by rewrite (take_S_r _ _ _ Hl), foldl_app. Qed.

Lemma sp_at_all sz strs : sp_at sz strs (length strs) = sp_below sz strs.
Proof. unfold sp_at. by rewrite take_ge. Qed.

Lemma sp_at_le sz strs i k : (i ≤ k ≤ length strs)%nat → sp_at sz strs k ≤ sp_at sz strs i.
Proof.
  intros [Hik Hk]. induction Hik as [|k Hik IH]; [lia|]. destruct (lookup_lt_is_Some_2 strs k ltac:(lia)) as [l Hl].
  rewrite (sp_at_S _ _ _ _ Hl). pose proof (down_spec (sp_at sz strs k) (zlen l + 1)). specialize (IH ltac:(lia)). lia.
Qed.

(** * One page of stack *)

Section Args.

Context {A : Type} {kalloc : prog A Z} {kfree : Z → prog A unit}.

Context {owns : A → gset Z → Prop} {arena : Z → Prop} {PS : PageSource kalloc kfree owns arena}.

Context (s : vmst A) (root : Z) (T : tmap) (O : gset Z) (Hi : vm_inv (owns:=owns) (arena:=arena) s root T O).

Context (sz : Z) (Hsz : PGSIZE ≤ sz ≤ MAXVA) (Hal : sz mod PGSIZE = 0).

Abbreviation base := (sz - PGSIZE).

(** The page frame of the stack. *)
Abbreviation frame := (user_pa s T (sz - PGSIZE)).

Context (Hu : user_ok s T base) (Hw : has PTE_W (pte_at (ram s) T (base / PGSIZE)) = true).

Lemma in_stack va : base ≤ va < sz → va / PGSIZE = base / PGSIZE ∧ va mod PGSIZE = va - base.
Proof.
  unfold PGSIZE in *. intros Hva. pose proof (Z.div_mod sz 4096 ltac:(lia)) as Hd. rewrite Hal in Hd.
  split; [symmetry; transitivity (sz / 4096 - 1); [|symmetry]|].
  - symmetry. apply (Z.div_unique _ _ _ 0); lia.
  - symmetry. apply (Z.div_unique _ _ _ (va - (sz - 4096))); lia.
  - symmetry. apply (Z.mod_unique _ _ (sz / 4096 - 1)); lia.
Qed.

(** Memory in which the page tables are as before. *)
Definition tables_kept (m : bmem) : Prop := same_dom (ram s) m ∧ ∀ a, in_tables T a → m !! a = ram s !! a.

(** A buffer of the kernel, apart from the tables and the stack. *)
Definition kbuf (a n : Z) : Prop := (∀ b, a ≤ b < a + n → ¬ in_tables T b) ∧ (frame + PGSIZE ≤ a ∨ a + n ≤ frame).

Lemma stack_user_ok m va : tables_kept m → base ≤ va < sz → user_ok (set_ram m s) T va ∧ user_pa (set_ram m s) T va = frame.
Proof.
  intros [Hd Ht] Hva. destruct (inv_data _ _ _ _ m Hi Hd Ht) as [_ Hpa]. destruct (in_stack va Hva) as [E _].
  assert (user_pa s T va = frame) as Ef by (by apply user_pa_page). split; [|by rewrite Hpa].
  apply user_ok_mem; [|done..]. destruct Hu as [H1 H2 H3 H4]. split; rewrite ?Ef; try done. lia.
Qed.

Lemma wp_stack_copyout m va src len :
  tables_kept m → base ≤ va → va + len ≤ sz → 0 ≤ len → mapped (ram s) src len → kbuf src len →
  wp (copyout kalloc kfree root va src len)
    (λ r s', r = 0 ∧ ∃ m2, s' = set_ram m2 s ∧ tables_kept m2 ∧ copied m (frame + (va - base)) src 0 len m2) (set_ram m s).
Proof.
  intros Hk Hva Hle Hlen Hm [Hbt Hbf]. pose proof Hk as [Hd Ht]. destruct (inv_data _ _ _ _ m Hi Hd Ht) as [Hi1 Hpa].
  destruct (pt_ok_ext _ _ _ (vi_pt _ _ _ _ Hi) m Hd Ht) as [_ Hpte].
  assert (∀ i, 0 ≤ i < len → user_ok (set_ram m s) T (va + i) ∧ user_pa (set_ram m s) T (va + i) = frame) as Hst
    by (intros; apply stack_user_ok; [done|lia]).
  eapply wp_mono; [apply (wp_copyout (set_ram m s) root T O Hi1 va src len)|].
  - split_and!; [pose proof (uo_va _ _ _ Hu); lia|lia|]. intros i Hi'. by apply Hst.
  - split_and!; [by eapply same_dom_mapped|done|]. intros i Hi'. rewrite (proj2 (Hst i Hi')). done.
  - intros i Hi'. cbn. rewrite Hpte. by rewrite (proj1 (in_stack (va + i) ltac:(lia))).
  - intros i j Hi' Hj _. by rewrite (proj1 (in_stack (va + i) ltac:(lia))), (proj1 (in_stack (va + j) ltac:(lia))).
  - change MAXVA with (2 ^ 38) in Hsz. unfold PGSIZE in *. lia.
  - intros r s' (-> & _ & m2 & -> & Hd2 & Hin & Hout). split; [done|]. exists m2. split; [done|].
    assert (∀ j, 0 ≤ j < len → uaddr (set_ram m s) T va j = frame + (va - base) + j) as Hua.
    { intros j Hj. unfold uaddr. rewrite (proj2 (Hst j Hj)), (proj2 (in_stack (va + j) ltac:(lia))). lia. }
    split.
    + split; [by eapply same_dom_trans|]. intros a Ha. rewrite Hout; [by apply Ht|]. intros j Hj ->. rewrite Hua in Ha by done.
      eapply (user_not_table s root T O base); [exact Hi|exact Hu| |exact Ha]. unfold PGSIZE in *. lia.
    + intros a. rewrite Z.add_0_r. destruct (decide _) as [Ha|Ha].
      * pose proof (Hin (a - (frame + (va - base))) ltac:(lia)) as E. rewrite Hua in E by lia. cbn in E. rewrite <- E. f_equal. lia.
      * apply Hout. intros j Hj ->. rewrite Hua in Ha by done. lia.
Qed.

(** An address above every page table is refused. *)
Lemma wp_copyout_high (s1 : vmst A) va src len :
  0 < len → MAXVA + PGSIZE ≤ va → wp (copyout kalloc kfree root va src len) (λ r s', r = -1 ∧ s' = s1) s1.
Proof.
  intros Hlen Hva. unfold copyout, copy_fuel. cbn [loop]. rewrite (proj2 (Z.ltb_lt _ _)) by done. cbv zeta.
  change MAXVA with (2 ^ 38) in *. unfold PGSIZE in Hva. rewrite rounddown by lia. unfold PGSIZE.
  rewrite (proj2 (Z.leb_le _ _)) by (Z.to_euclidean_division_equations; lia). by wp_auto.
Qed.

(** * The arguments *)

(** The strings, the pointers to them, and the array on the kernel stack. *)
Context (strs : list (list Z)) (ptrs rest : list Z) (ustack : Z).

Context (Hlen : length ptrs = length strs) (Hmax : zlen strs < MAXARG).

Context (Harg : ∀ i a l, ptrs !! i = Some a → strs !! i = Some l →
  a ≠ 0 ∧ cstr (ram s) a l ∧ zlen l < int_max ∧ kbuf a (zlen l + 1) ∧ apart a (zlen l + 1) ustack (8 * MAXARG)).

Context (Hus : mapped (ram s) ustack (8 * MAXARG)) (Hub : kbuf ustack (8 * MAXARG)).

Abbreviation sp_at := (sp_at sz strs).

(** The first [k] strings and the pointers to them are in place. *)
Record pushed (k : nat) (m : bmem) : Prop := {
  pu_room : base ≤ sp_at k;
  pu_tables : tables_kept m;
  pu_other a : ¬ (frame ≤ a < frame + PGSIZE) → ¬ (ustack ≤ a < ustack + 8 * MAXARG) → m !! a = ram s !! a;
  pu_str i a l j : (i < k)%nat → ptrs !! i = Some a → strs !! i = Some l → 0 ≤ j < zlen l + 1 →
    m !! (frame + (sp_at (S i) - base) + j) = ram s !! (a + j);
  pu_ptr i b : (i < k)%nat → 0 ≤ b < 8 → m !! (ustack + 8 * Z.of_nat i + b) = Some (byte_of (sp_at (S i)) b) }.

Lemma pushed_0 : pushed 0 (ram s).
Proof. split; [rewrite sp_at_0; unfold PGSIZE; lia|by split|done|intros; lia|intros; lia]. Qed.

(** Memory with the same contents outside the stack and the array. *)
Lemma pushed_cstr k m i a l : pushed k m → ptrs !! i = Some a → strs !! i = Some l → cstr m a l.
Proof.
  intros Hp Ha Hl. destruct (Harg i a l Ha Hl) as (_ & (H0 & H1 & H2 & H3 & H4) & _ & [_ Hf] & Hap).
  assert (∀ b, a ≤ b < a + (zlen l + 1) → m !! b = ram s !! b) as Hb.
  { intros b Hb. apply (pu_other _ _ Hp); [lia|]. unfold apart in Hap. lia. }
  split_and!; [done..| |].
  - intros j c Hj. apply lookup_lt_Some in Hj as Hlt. rewrite Hb by lia. by apply H3.
  - intros Hlt. rewrite Hb by lia. by apply H4.
Qed.

(** The next string. *)
Lemma pushed_S k m m2 a l :
  pushed k m → ptrs !! k = Some a → strs !! k = Some l → base ≤ sp_at (S k) → tables_kept m2 →
  copied m (frame + (sp_at (S k) - base)) a 0 (zlen l + 1) m2 →
  pushed (S k) (wr64 m2 (ustack + 8 * Z.of_nat k) (sp_at (S k))).
Proof.
  intros Hp Ha Hl Hroom Hk2 Hc. destruct (Harg k a l Ha Hl) as (_ & Hcs & _ & [_ Hf] & Hap). apply lookup_lt_Some in Hl as Hkl.
  pose proof (sp_at_S sz _ _ _ Hl) as Esp. pose proof (down_spec (sp_at k) (zlen l + 1)) as [Hdn _]. rewrite <- Esp in Hdn.
  assert (sp_at k ≤ sz) as Htop by (rewrite <- (sp_at_0 sz strs); apply sp_at_le; lia). unfold MAXARG in *.
  assert (∀ b, frame ≤ b < frame + PGSIZE → wr64 m2 (ustack + 8 * Z.of_nat k) (sp_at (S k)) !! b = m2 !! b) as Hst.
  { intros b Hb. apply wr64_outside. destruct Hub as [_ Hub2]. lia. }
  split.
  - done.
  - destruct Hk2 as [Hd Ht]. assert (mapped m2 (ustack + 8 * Z.of_nat k) 8) as Hm.
    { eapply same_dom_mapped; [done|]. eapply mapped_sub; [exact Hus|lia..]. }
    split; [eapply same_dom_trans; [done|by apply same_dom_wr64]|]. intros b Hb. rewrite wr64_outside; [by apply Ht|].
    intros Hin. eapply (proj1 Hub); [|exact Hb]. lia.
  - intros b Hb1 Hb2. unfold MAXARG in Hb2. rewrite wr64_outside by lia. rewrite Hc, decide_False by (unfold PGSIZE in *; lia). by apply (pu_other _ _ Hp).
  - intros i a' l' j Hi' Ha' Hl' Hj. apply lookup_lt_Some in Hl' as Hil. pose proof (sp_at_S sz _ _ _ Hl') as Ei.
    pose proof (down_spec (sp_at i) (zlen l' + 1)) as [Hdi _]. rewrite <- Ei in Hdi.
    assert (sp_at i ≤ sz) by (rewrite <- (sp_at_0 sz strs); apply sp_at_le; lia).
    assert (sp_at (S k) ≤ sp_at (S i)) by (apply sp_at_le; lia).
    rewrite Hst by (unfold PGSIZE in *; lia). rewrite Hc. destruct (decide (i = k)) as [->|Hne].
    + assert (a' = a ∧ l' = l) as [-> ->] by (split; congruence). rewrite decide_True by lia.
      replace (a + (frame + (sp_at (S k) - base) + j - (frame + (sp_at (S k) - base)))) with (a + j) by lia.
      apply (pu_other _ _ Hp); [lia|]. unfold apart in Hap. unfold MAXARG. lia.
    + assert (sp_at k ≤ sp_at (S i)) by (apply sp_at_le; lia). rewrite decide_False by lia. eapply (pu_str _ _ Hp); [lia|done..].
  - intros i b Hi' Hb. destruct (decide (i = k)) as [->|Hne]; [by apply wr64_inside|]. rewrite wr64_outside by lia.
    rewrite Hc, decide_False; [apply (pu_ptr _ _ Hp); lia|]. destruct Hub as [_ Hub2]. unfold PGSIZE in *. lia.
Qed.

Abbreviation argv := (ptrs ++ 0 :: rest).

Lemma wp_push_strings :
  wp (push_strings kalloc kfree argv ustack root sz) (λ r s', ∃ m, s' = set_ram m s ∧ tables_kept m ∧
    match r with
    | Some (argc, sp) => argc = zlen strs ∧ sp = sp_below sz strs ∧ pushed (length strs) m
    | None => sp_below sz strs < base
    end) s.
Proof.
  change MAXVA with (2 ^ 38) in Hsz. unfold push_strings. cbv zeta. replace (u64 (sz - USERSTACK * PGSIZE)) with base.
  2:{ unfold USERSTACK. symmetry. rewrite Z.mul_1_l. apply Z.mod_small. unfold PGSIZE in *. lia. }
  apply (wp_loop (λ n '(argc, sp) s', ∃ k m, (k + n = length strs)%nat ∧ argc = Z.of_nat k ∧ sp = sp_at k ∧ s' = set_ram m s ∧ pushed k m) (length strs)).
  { exists 0%nat, (ram s). split_and!; [done..|by destruct s|apply pushed_0]. }
  { unfold MAXARG in *. lia. }
  intros n [argc sp] s1 (k & m & Hn & -> & -> & -> & Hp). rewrite Nat2Z.id. pose proof (pu_tables _ _ Hp) as Hk.
  destruct n as [|n].
  { assert (k = length ptrs) as Ek by lia. rewrite lookup_app_r, Ek, Nat.sub_diag by lia. cbn [lookup list_lookup of_option]. wp_auto. cbn. wp_auto.
    exists m. rewrite Hlen, sp_at_all in *. rewrite Ek in Hp. split_and!; try done. }
  destruct (lookup_lt_is_Some_2 ptrs k ltac:(lia)) as [a Ha]. destruct (lookup_lt_is_Some_2 strs k ltac:(lia)) as [l Hl].
  rewrite (lookup_app_l_Some _ _ _ _ Ha). destruct (Harg k a l Ha Hl) as (Ha0 & Hcs & Hll & Hkb & Hap). cbn [of_option]. wp_auto.
  rewrite (proj2 (Z.eqb_neq a 0)), (proj2 (Z.leb_gt MAXARG _)) by (unfold MAXARG in *; lia). wp_auto.
  apply wp_zoom. eapply wp_mono; [eapply wp_strlen; [by eapply pushed_cstr|unfold int_max in *; lia]|]. cbv beta. intros len m' [-> ->]. cbv zeta.
  change (set_ram m (set_ram m s)) with (set_ram m s).
  pose proof (sp_at_S sz _ _ _ Hl) as Esp. destruct (down_spec (sp_at k) (zlen l + 1)) as [Hdn _]. rewrite <- Esp in Hdn.
  assert (sp_at k ≤ sz) as Htop by (rewrite <- (sp_at_0 sz strs); apply sp_at_le; lia).
  assert (sp_below sz strs ≤ sp_at (S k)) as Hbot by (rewrite <- sp_at_all; apply sp_at_le; lia).
  pose proof (pu_room _ _ Hp) as Hroom. unfold int_max in *. destruct (decide (0 ≤ sp_at k - (zlen l + 1))) as [Hpos|Hneg].
  - assert (u64 (sp_at k - (zlen l + 1)) = sp_at k - (zlen l + 1)) as -> by (apply Z.mod_small; lia).
    replace (sp_at k - (zlen l + 1) - (sp_at k - (zlen l + 1)) mod 16) with (sp_at (S k)) by (by rewrite Esp).
    destruct (Z.ltb_spec (sp_at (S k)) base) as [Hlt|Hge]; [wp_auto; exists m; split_and!; [done..|lia]|]. apply wp_bind.
    eapply wp_mono; [apply wp_stack_copyout; [done|lia|lia|lia| |done]|].
    { destruct Hcs as (H0 & H1 & _ & H3 & H4). split_and!; [done|done|]. intros j Hj. destruct (decide (j = zlen l)) as [->|Hne]; [rewrite H4 by lia; done|].
      destruct (lookup_lt_is_Some_2 l (Z.to_nat j) ltac:(lia)) as [c Hc]. apply H3 in Hc as [Hc _]. rewrite Z2Nat.id in Hc by lia. by exists c. }
    cbv beta. intros r s2 (-> & m2 & -> & Hk2 & Hc). rewrite (proj2 (Z.ltb_ge 0 0)) by lia. wp_auto. apply wp_zoom, wp_store64.
    { eapply same_dom_mapped; [apply Hk2|]. eapply mapped_sub; [exact Hus|unfold MAXARG in *; lia..]. }
    wp_auto. exists n. split; [lia|]. exists (S k), (wr64 m2 (ustack + 8 * Z.of_nat k) (sp_at (S k))).
    split_and!; [lia..|done|done|]. by eapply pushed_S.
  - set (x := sp_at k - (zlen l + 1)) in *. assert (u64 x = x + 2 ^ 64) as Eu.
    { unfold u64. rewrite <- (Z.mod_add x 1) by lia. apply Z.mod_small. lia. }
    pose proof (Z.mod_pos_bound (u64 x) 16 ltac:(lia)). rewrite (proj2 (Z.ltb_ge _ base)) by lia. apply wp_bind.
    eapply wp_mono; [apply wp_copyout_high; [lia|change MAXVA with (2 ^ 38); unfold PGSIZE in *; lia]|]. cbv beta. intros r s2 [-> ->].
    rewrite (proj2 (Z.ltb_lt _ _)) by lia. wp_auto. exists m. split_and!; [done..|]. unfold PGSIZE in *. lia.
Qed.

(** The stack as the new program sees it. *)
Definition ustr (s' : vmst A) (va : Z) (l : list Z) : Prop :=
  (∀ i c, l !! i = Some c → ubyte s' T (va + Z.of_nat i) = Some c) ∧ ubyte s' T (va + zlen l) = Some 0.

Definition uword (s' : vmst A) (va w : Z) : Prop := ∀ b, 0 ≤ b < 8 → ubyte s' T (va + b) = Some (byte_of w b).

Definition args_ok (s' : vmst A) : Prop :=
  (∀ i l, strs !! i = Some l → ustr s' (sp_at (S i)) l ∧ uword s' (args_sp sz strs + 8 * Z.of_nat i) (sp_at (S i))) ∧
  uword s' (args_sp sz strs + 8 * zlen strs) 0.

Lemma stack_byte m va : tables_kept m → base ≤ va < sz → ubyte (set_ram m s) T va = m !! (frame + (va - base)).
Proof.
  intros Hk Hva. destruct (stack_user_ok m va Hk Hva) as [Hok E]. rewrite ubyte_at, E by done. by rewrite (proj2 (in_stack va Hva)).
Qed.

(** The array of pointers is copied below the strings. *)
Lemma pushed_args m m2 :
  pushed (length strs) m → base ≤ args_sp sz strs → tables_kept m2 →
  copied (wr64 m (ustack + 8 * zlen strs) 0) (frame + (args_sp sz strs - base)) ustack 0 ((zlen strs + 1) * 8) m2 → args_ok (set_ram m2 s).
Proof.
  intros Hp Hroom Hk Hc. destruct (down_spec (sp_below sz strs) ((zlen strs + 1) * 8)) as [Hdn _]. fold (args_sp sz strs) in Hdn.
  assert (sp_below sz strs ≤ sz) as Htop by (rewrite <- sp_at_all, <- (sp_at_0 sz strs); apply sp_at_le; lia).
  pose proof Hub as [_ Hub2]. unfold MAXARG in *.
  assert (∀ j, 0 ≤ j < (zlen strs + 1) * 8 → ubyte (set_ram m2 s) T (args_sp sz strs + j) = wr64 m (ustack + 8 * zlen strs) 0 !! (ustack + j)) as Harr.
  { intros j Hj. rewrite stack_byte by (done || lia). rewrite Hc, decide_True by lia. f_equal. lia. }
  split.
  - intros i l Hl. apply lookup_lt_Some in Hl as Hil. destruct (lookup_lt_is_Some_2 ptrs i ltac:(lia)) as [a Ha].
    destruct (Harg i a l Ha Hl) as (_ & (_ & _ & _ & H3 & H4) & _). pose proof (sp_at_S sz _ _ _ Hl) as Ei.
    destruct (down_spec (sp_at i) (zlen l + 1)) as [Hdi _]. rewrite <- Ei in Hdi.
    assert (sp_at i ≤ sz) by (rewrite <- (sp_at_0 sz strs); apply sp_at_le; lia).
    assert (sp_below sz strs ≤ sp_at (S i)) by (rewrite <- sp_at_all; apply sp_at_le; lia).
    assert (∀ j, 0 ≤ j < zlen l + 1 → ubyte (set_ram m2 s) T (sp_at (S i) + j) = ram s !! (a + j)) as Hs.
    { intros j Hj. rewrite stack_byte by (done || lia). rewrite Hc, decide_False by lia. rewrite wr64_outside by (unfold PGSIZE in *; lia).
      rewrite <- (pu_str _ _ Hp i a l j Hil Ha Hl Hj). f_equal. lia. }
    split; [split|].
    + intros j c Hj. apply lookup_lt_Some in Hj as Hjl. rewrite Hs by lia. by apply H3.
    + rewrite Hs by lia. apply H4. lia.
    + intros b Hb. rewrite <- Z.add_assoc, Harr by lia. rewrite wr64_outside by lia. rewrite Z.add_assoc. by apply (pu_ptr _ _ Hp).
  - intros b Hb. rewrite <- Z.add_assoc, Harr by lia. rewrite Z.add_assoc. by apply wr64_inside.
Qed.

(** C33: the stack [kexec] builds: when the argument strings and the array of
    pointers fit into the stack page, and only then, it succeeds with the number
    of arguments and a stack pointer that is a multiple of 16; each string is in
    user memory with its NUL, the word [i] at the stack pointer is the address
    of string [i], the word behind them is null, and the page tables are as
    before.  Otherwise it fails, also when the sizes would take the stack
    pointer below address 0. *)
Theorem push_args_correct :
  wp (push_args kalloc kfree argv ustack root sz) (λ r s', vm_inv (owns:=owns) (arena:=arena) s' root T O ∧
    if decide (base ≤ args_sp sz strs)
    then r = Some (zlen strs, args_sp sz strs) ∧ args_sp sz strs mod 16 = 0 ∧ args_ok s'
    else r = None) s.
Proof.
  change MAXVA with (2 ^ 38) in Hsz. destruct (down_spec (sp_below sz strs) ((zlen strs + 1) * 8)) as [Hdn H16]. fold (args_sp sz strs) in Hdn, H16.
  assert (∀ m, tables_kept m → vm_inv (owns:=owns) (arena:=arena) (set_ram m s) root T O) as Hinv by (intros m [Hd Ht]; by apply inv_data).
  unfold push_args. cbv zeta. replace (u64 (sz - USERSTACK * PGSIZE)) with base.
  2:{ unfold USERSTACK. symmetry. rewrite Z.mul_1_l. apply Z.mod_small. unfold PGSIZE in *. lia. }
  apply wp_bind. eapply wp_mono; [apply wp_push_strings|]. cbv beta. intros r s1 (m & -> & Hk & Hr).
  destruct r as [[argc sp]|]; [|wp_auto; rewrite decide_False by lia; by split; [apply Hinv|]]. destruct Hr as (-> & -> & Hp).
  unfold MAXARG in *. rewrite (proj2 (Z.leb_gt _ _)) by lia.
  assert (sp_below sz strs ≤ sz) as Htop by (rewrite <- sp_at_all, <- (sp_at_0 sz strs); apply sp_at_le; lia).
  pose proof (pu_room _ _ Hp) as Hroom. rewrite sp_at_all in Hroom.
  assert (mapped m (ustack + 8 * zlen strs) 8) as Hms by (eapply same_dom_mapped; [apply Hk|]; eapply mapped_sub; [exact Hus|lia..]).
  apply wp_bind, wp_zoom, wp_store64; [exact Hms|]. cbn [ram set_ram]. change (set_ram ?x (set_ram m s)) with (set_ram x s).
  assert (tables_kept (wr64 m (ustack + 8 * zlen strs) 0)) as Hk1.
  { destruct Hk as [Hd Ht]. split; [eapply same_dom_trans; [done|by apply same_dom_wr64]|]. intros b Hb. rewrite wr64_outside; [by apply Ht|].
    intros Hin. eapply (proj1 Hub); [|exact Hb]. unfold MAXARG. lia. }
  destruct (decide (0 ≤ sp_below sz strs - (zlen strs + 1) * 8)) as [Hpos|Hneg].
  - assert (u64 (sp_below sz strs - (zlen strs + 1) * 8) = sp_below sz strs - (zlen strs + 1) * 8) as -> by (apply Z.mod_small; unfold PGSIZE in *; lia).
    replace (_ - _ mod 16) with (args_sp sz strs) by done.
    destruct (Z.ltb_spec (args_sp sz strs) base) as [Hlt|Hge]; [wp_auto; rewrite decide_False by lia; by split; [apply Hinv|]|].
    apply wp_bind. eapply wp_mono; [apply wp_stack_copyout; [done|lia|lia|lia|eapply mapped_sub; [exact Hus|unfold MAXARG; lia..]|]|].
    { destruct Hub as [Hb1 Hb2]. unfold MAXARG in *. split; [intros b Hb; apply Hb1; lia|lia]. }
    cbv beta. intros r s2 (-> & m2 & -> & Hk2 & Hc). rewrite (proj2 (Z.ltb_ge 0 0)) by lia. wp_auto. rewrite decide_True by lia.
    split; [by apply Hinv|]. split_and!; [done|done|]. by eapply pushed_args.
  - set (x := sp_below sz strs - (zlen strs + 1) * 8) in *. assert (u64 x = x + 2 ^ 64) as Eu.
    { unfold u64. rewrite <- (Z.mod_add x 1) by lia. apply Z.mod_small. unfold PGSIZE in *. lia. }
    pose proof (Z.mod_pos_bound (u64 x) 16 ltac:(lia)). rewrite (proj2 (Z.ltb_ge _ base)) by (unfold PGSIZE in *; lia). apply wp_bind.
    eapply wp_mono; [apply wp_copyout_high; [lia|change MAXVA with (2 ^ 38); unfold PGSIZE in *; lia]|]. cbv beta. intros r s2 [-> ->].
    rewrite (proj2 (Z.ltb_lt _ _)) by lia. wp_auto. rewrite decide_False by (unfold PGSIZE in *; lia). by split; [apply Hinv|].
Qed.

End Args.

(** * A witness: the argument "hi" *)

Definition hi_ram (m : bmem) : bmem := <[24578 := 0]> (<[24577 := 105]> (<[24576 := 104]> m)).

Lemma hi_bytes m : hi_ram m !! 24576 = Some 104 ∧ hi_ram m !! 24577 = Some 105 ∧ hi_ram m !! 24578 = Some 0.
Proof. unfold hi_ram. split_and!; rewrite ?lookup_insert_ne by lia; apply lookup_insert_eq. Qed.

Lemma hi_dom s root T O : user_world s root T O → same_dom (ram s) (hi_ram (ram s)).
Proof.
  intros W. unfold hi_ram. assert (∀ a, 24576 ≤ a < 24580 → is_Some (ram s !! a)) as Hm.
  { intros a Ha. destruct (uw_ram _ _ _ _ W 24576 4 ltac:(lia) ltac:(lia)) as (_ & _ & H). specialize (H (a - 24576) ltac:(lia)).
    by replace (24576 + (a - 24576)) with a in H by lia. }
  eapply same_dom_trans; [apply (same_dom_insert _ 24576 104), Hm; lia|].
  eapply same_dom_trans; [apply (same_dom_insert _ 24577 105); rewrite lookup_insert_ne by lia; apply Hm; lia|].
  apply same_dom_insert. rewrite !lookup_insert_ne by lia. apply Hm. lia.
Qed.

Lemma push_args_correct_witness : ∃ s root T O, user_world s root T O ∧
  wp (push_args kalloc kfree ([24576] ++ 0 :: []) 25000 root 4096) (λ r s', r = Some (1, 4064) ∧ args_ok T 4096 [[104; 105]] s')
    (set_ram (hi_ram (ram s)) s).
Proof.
  destruct user_world_exists as (s & root & T & O & W). exists s, root, T, O. split; [exact W|].
  pose proof (hi_dom s root T O W) as Hd.
  assert (∀ a, in_tables T a → hi_ram (ram s) !! a = ram s !! a) as Ht.
  { intros a (k & pg & Hk & Hr). apply (uw_tables _ _ _ _ W) in Hk. unfold PGSIZE in Hr. unfold hi_ram. by rewrite !lookup_insert_ne by lia. }
  destruct (inv_data _ _ _ _ _ (uw_inv _ _ _ _ W) Hd Ht) as [Hinv Hpa].
  destruct (pt_ok_ext _ _ _ (vi_pt _ _ _ _ (uw_inv _ _ _ _ W)) _ Hd Ht) as [_ Hpte].
  assert (user_pa (set_ram (hi_ram (ram s)) s) T (4096 - PGSIZE) = 28672) as Hf.
  { rewrite Hpa, (world_user_pa s root T O) by done. reflexivity. }
  assert (∀ a n, 24576 ≤ a → a + n ≤ 28672 → kbuf (set_ram (hi_ram (ram s)) s) T 4096 a n) as Hkb.
  { intros a n Ha Hn. split; [|rewrite Hf; unfold PGSIZE; lia]. intros b Hb (k & pg & Hk & Hr). apply (uw_tables _ _ _ _ W) in Hk. unfold PGSIZE in Hr. lia. }
  eapply wp_mono; [apply (push_args_correct (set_ram (hi_ram (ram s)) s) root T O Hinv 4096) with (strs := [[104; 105]])|].
  - change MAXVA with (2 ^ 38). unfold PGSIZE. lia.
  - reflexivity.
  - apply user_ok_mem; [|exact Hd|exact Hpa]. apply (world_user_ok s root T O _ W). unfold PGSIZE. lia.
  - cbn [ram set_ram]. rewrite Hpte, (uw_pte _ _ _ _ W). reflexivity.
  - reflexivity.
  - reflexivity.
  - intros [|i] a l; [|discriminate]. intros [= <-] [= <-]. split_and!; [lia| | | |].
    + destruct (hi_bytes (ram s)) as (H0 & H1 & H2). split_and!; [cbn; lia..| |intros _; exact H2].
      intros [|[|j]] c [= <-]; (split; [assumption|lia]).
    + reflexivity.
    + apply Hkb; cbn; lia.
    + left. cbn. lia.
  - eapply same_dom_mapped; [exact Hd|]. apply (uw_ram _ _ _ _ W); unfold MAXARG; lia.
  - apply Hkb; unfold MAXARG; lia.
  - intros r s' (_ & Hr). rewrite decide_True in Hr by (vm_compute; discriminate). destruct Hr as (-> & _ & Hok). split; [reflexivity|exact Hok].
Defined.
