(* ===== verification/Ring.v ===== *)
(** Circular buffers with free-running counters: an array of [size] entries,
    indexed by counters that wrap at a multiple [M] of [size].  The entries
    between two counters are a list, and the operations at its ends are those
    of the counters.  The rings of the disk driver and the input buffer of the
    console are of this kind. *)

From S2P Require Import Prelude.

Section Ring.

Context (size M : Z) (Hsize : 0 < size) (HM : 0 < M) (Hdiv : (size | M)).

Implicit Types ring : Z → Z.

(** The entries from counter [lo] to counter [hi]. *)
Definition window ring (lo hi : Z) : list Z :=
  (λ k, ring ((lo + Z.of_nat k) mod size)) <$> seq 0 (Z.to_nat ((hi - lo) mod M)).

Lemma length_window ring lo hi : length (window ring lo hi) = Z.to_nat ((hi - lo) mod M).
Proof. unfold window. by rewrite length_fmap, length_seq. Qed.

Lemma window_empty ring lo : window ring lo lo = [].
Proof. unfold window. by rewrite Z.sub_diag, Z.mod_0_l by lia. Qed.

Lemma mod_ring a : (a mod M) mod size = a mod size.
Proof.
  destruct Hdiv as [q E]. rewrite (Z.mod_eq a M) by lia.
  replace (a - M * (a / M)) with (a + (- (q * (a / M))) * size) by nia. apply Z_mod_plus_full.
Qed.

Lemma mod_ring_add a b : (a mod M + b) mod size = (a + b) mod size.
Proof. by rewrite <- (Zplus_mod_idemp_l (a mod M)), mod_ring, Zplus_mod_idemp_l. Qed.

(** The place of the upper counter. *)
Lemma window_end lo hi : hi mod size = (lo + (hi - lo) mod M) mod size.
Proof. rewrite (Z.add_comm lo), mod_ring_add. f_equal. lia. Qed.

Lemma window_place lo i j : 0 ≤ i < j → j < size → (lo + i) mod size ≠ (lo + j) mod size.
Proof.
  intros Hi Hj E. pose proof (Z.div_mod (lo + i) size ltac:(lia)) as H1. pose proof (Z.div_mod (lo + j) size ltac:(lia)) as H2.
  rewrite E in H1. set (q := (lo + j) / size - (lo + i) / size). assert (j - i = size * q) as Hq by (unfold q; lia).
  destruct (Z.le_gt_cases q 0); nia.
Qed.

Lemma window_push ring lo hi x :
  (length (window ring lo hi) < Z.to_nat size)%nat → size < M →
  window (upd ring (hi mod size) x) lo ((hi + 1) mod M) = window ring lo hi ++ [x].
Proof.
  rewrite length_window. intros Hn HsM. unfold window. set (n := (hi - lo) mod M) in *.
  assert (0 ≤ n < size) as Hn8 by (pose proof (Z.mod_pos_bound (hi - lo) M HM); lia).
  assert (((hi + 1) mod M - lo) mod M = n + 1) as ->.
  { rewrite Zminus_mod_idemp_l. replace (hi + 1 - lo) with (hi - lo + 1) by lia. rewrite <- Zplus_mod_idemp_l. fold n. apply Z.mod_small. lia. }
  rewrite (window_end lo hi). fold n. replace (Z.to_nat (n + 1)) with (S (Z.to_nat n)) by lia. rewrite seq_S, fmap_app. f_equal.
  - apply list_fmap_ext. intros i k Hk. apply lookup_seq in Hk as [-> Hi]. rewrite upd_ne; [done|]. apply window_place; lia.
  - simpl. by rewrite Z2Nat.id, upd_eq by lia.
Qed.

Lemma window_gap lo hi : 0 ≤ lo < M → 0 ≤ hi < M → lo ≠ hi → 0 < (hi - lo) mod M < M.
Proof.
  intros Hlo Hhi Hne. pose proof (Z.mod_pos_bound (hi - lo) M HM). assert ((hi - lo) mod M ≠ 0); [|lia]. intros E.
  pose proof (Z.div_mod (hi - lo) M ltac:(lia)) as Hd. rewrite E in Hd. set (q := (hi - lo) / M) in *.
  destruct (Z.lt_trichotomy q 0) as [|[|]]; nia.
Qed.

Lemma window_pop ring lo hi :
  0 ≤ lo < M → 0 ≤ hi < M → lo ≠ hi → window ring lo hi = ring (lo mod size) :: window ring ((lo + 1) mod M) hi.
Proof.
  intros Hlo Hhi Hne. unfold window. set (n := (hi - lo) mod M).
  assert (0 < n < M) as Hn.
  { by apply window_gap. }
  assert ((hi - (lo + 1) mod M) mod M = n - 1) as ->.
  { rewrite Zminus_mod_idemp_r. replace (hi - (lo + 1)) with (hi - lo - 1) by lia. rewrite <- Zminus_mod_idemp_l. fold n. apply Z.mod_small. lia. }
  replace (Z.to_nat n) with (S (Z.to_nat (n - 1))) by lia. simpl. f_equal; [f_equal; f_equal; lia|].
  rewrite <- seq_shift, <- list_fmap_compose. apply list_fmap_ext. intros i k _. unfold compose. f_equal.
  rewrite mod_ring_add. f_equal. lia.
Qed.

(** The upper counter moves back. *)
Lemma window_back ring lo hi :
  0 ≤ lo < M → 0 ≤ hi < M → lo ≠ hi → window ring lo hi = window ring lo ((hi - 1) mod M) ++ [ring ((hi - 1) mod M mod size)].
Proof.
  intros Hlo Hhi Hne. unfold window. set (n := (hi - lo) mod M).
  assert (0 < n < M) as Hn.
  { by apply window_gap. }
  assert (((hi - 1) mod M - lo) mod M = n - 1) as E.
  { rewrite Zminus_mod_idemp_l. replace (hi - 1 - lo) with (hi - lo - 1) by lia. rewrite <- Zminus_mod_idemp_l. fold n. apply Z.mod_small. lia. }
  rewrite E, (window_end lo), E. replace (Z.to_nat n) with (S (Z.to_nat (n - 1))) by lia. rewrite seq_S, fmap_app. simpl.
  by rewrite Z2Nat.id by lia.
Qed.

(** A counter in between splits the entries. *)
Lemma window_split ring lo mid hi :
  (mid - lo) mod M + (hi - mid) mod M < M → window ring lo hi = window ring lo mid ++ window ring mid hi.
Proof.
  intros Hs. unfold window. pose proof (Z.mod_pos_bound (mid - lo) M HM). pose proof (Z.mod_pos_bound (hi - mid) M HM).
  assert ((hi - lo) mod M = (mid - lo) mod M + (hi - mid) mod M) as ->.
  { rewrite <- (Z.mod_small ((mid - lo) mod M + (hi - mid) mod M) M) by lia. rewrite <- Zplus_mod. f_equal. lia. }
  rewrite Z2Nat.inj_add, seq_app, fmap_app by lia. f_equal. simpl. set (a := Z.to_nat ((mid - lo) mod M)).
  set (b := Z.to_nat ((hi - mid) mod M)). replace (seq a b) with (Nat.add a <$> seq 0 b) by (rewrite fmap_add_seq; f_equal; lia).
  rewrite <- list_fmap_compose. apply list_fmap_ext. intros i k _. unfold compose. f_equal.
  subst a. rewrite Nat2Z.inj_add, Z2Nat.id, Z.add_assoc by lia. rewrite <- (Zplus_mod_idemp_l (lo + _)), <- (window_end lo mid).
  by rewrite Zplus_mod_idemp_l.
Qed.

End Ring.
