(* ===== verification/Virtio.v ===== *)
(** The disk driver (kernel/virtio_disk.c): descriptors, the available and the
    used ring, the processes that wait for a transfer and the interrupt
    handler, with the device working beside them. *)

From S2P Require Import Prelude.

(** * Data (kernel/virtio.h) *)

Definition NUM : Z := 8.

Definition VRING_DESC_F_NEXT : Z := 1.

Definition VRING_DESC_F_WRITE : Z := 2.

Definition VIRTIO_BLK_T_IN : Z := 0.

Definition VIRTIO_BLK_T_OUT : Z := 1.

(** The bytes of a block and of a sector. *)
Definition BLOCK_BYTES : Z := 1024.

Definition SECTOR_BYTES : Z := 512.

(** The addresses the driver gives the device: a command header [ops[i]], the
    data of a buffer, a status byte [info[i].status], and 0. *)
Inductive dma : Set :=
  | ANull
  | AOps (i : Z)
  | AData (b : Z)
  | AStatus (i : Z).

#[export] Instance dma_eq_dec : EqDecision dma.
Proof. solve_decision. Defined.

Record virtq_desc := VDesc {
  vd_addr : dma;
  vd_len : Z;
  vd_flags : Z;
  vd_next : Z }.

Definition zero_desc : virtq_desc := VDesc ANull 0 0 0.

Record virtio_blk_req := VReq {
  rq_type : Z;
  rq_reserved : Z;
  rq_sector : Z }.

(** Where a process is: outside of [virtio_disk_rw]; asleep on [free[0]]
    because there were no descriptors, or woken from there; asleep on its
    buffer [b], with its three descriptors, or woken from there. *)
Inductive rwpc : Set :=
  | PIdle
  | PSleepFree (b : Z) (write : bool)
  | PRetry (b : Z) (write : bool)
  | PSleepBuf (b : Z) (write : bool) (i0 i1 i2 : Z)
  | PCheckBuf (b : Z) (write : bool) (i0 i1 i2 : Z).

#[export] Instance rwpc_eq_dec : EqDecision rwpc.
Proof. solve_decision. Defined.

(** * State *)

(** [struct disk] with the two rings; the flag [disk], the data and the block
    number of the buffers; the processes; and what the device keeps: how far it
    has read the available ring, the chains it works on and the sectors.
    [v_lock] is [vdisk_lock] while the interrupt handler has it. *)
Record vst := VSt {
  desc : Z → virtq_desc;
  avail_ring : Z → Z;
  avail_idx : Z;
  used_ring : Z → Z;
  used_dev_idx : Z;
  vfree : Z → bool;
  used_idx : Z;
  info_b : Z → Z;
  info_status : Z → Z;
  ops : Z → virtio_blk_req;
  v_lock : bool;
  b_disk : Z → Z;
  v_data : Z → list Z;
  v_blockno : Z → Z;
  v_pc : nat → rwpc;
  dev_avail : Z;
  dev_taken : list Z;
  sectors : Z → list Z }.

Definition set_desc (i : Z) (d : virtq_desc) (s : vst) : vst :=
  VSt (upd (desc s) i d) (avail_ring s) (avail_idx s) (used_ring s) (used_dev_idx s) (vfree s) (used_idx s) (info_b s) (info_status s) (ops s)
    (v_lock s) (b_disk s) (v_data s) (v_blockno s) (v_pc s) (dev_avail s) (dev_taken s) (sectors s).

Definition set_avail (r : Z → Z) (n : Z) (s : vst) : vst :=
  VSt (desc s) r n (used_ring s) (used_dev_idx s) (vfree s) (used_idx s) (info_b s) (info_status s) (ops s)
    (v_lock s) (b_disk s) (v_data s) (v_blockno s) (v_pc s) (dev_avail s) (dev_taken s) (sectors s).

Definition set_free (i : Z) (f : bool) (s : vst) : vst :=
  VSt (desc s) (avail_ring s) (avail_idx s) (used_ring s) (used_dev_idx s) (upd (vfree s) i f) (used_idx s) (info_b s) (info_status s) (ops s)
    (v_lock s) (b_disk s) (v_data s) (v_blockno s) (v_pc s) (dev_avail s) (dev_taken s) (sectors s).

Definition set_used_idx (n : Z) (s : vst) : vst :=
  VSt (desc s) (avail_ring s) (avail_idx s) (used_ring s) (used_dev_idx s) (vfree s) n (info_b s) (info_status s) (ops s)
    (v_lock s) (b_disk s) (v_data s) (v_blockno s) (v_pc s) (dev_avail s) (dev_taken s) (sectors s).

Definition set_info_b (i b : Z) (s : vst) : vst :=
  VSt (desc s) (avail_ring s) (avail_idx s) (used_ring s) (used_dev_idx s) (vfree s) (used_idx s) (upd (info_b s) i b) (info_status s) (ops s)
    (v_lock s) (b_disk s) (v_data s) (v_blockno s) (v_pc s) (dev_avail s) (dev_taken s) (sectors s).

Definition set_info_status (i x : Z) (s : vst) : vst :=
  VSt (desc s) (avail_ring s) (avail_idx s) (used_ring s) (used_dev_idx s) (vfree s) (used_idx s) (info_b s) (upd (info_status s) i x) (ops s)
    (v_lock s) (b_disk s) (v_data s) (v_blockno s) (v_pc s) (dev_avail s) (dev_taken s) (sectors s).

Definition set_op (i : Z) (r : virtio_blk_req) (s : vst) : vst :=
  VSt (desc s) (avail_ring s) (avail_idx s) (used_ring s) (used_dev_idx s) (vfree s) (used_idx s) (info_b s) (info_status s) (upd (ops s) i r)
    (v_lock s) (b_disk s) (v_data s) (v_blockno s) (v_pc s) (dev_avail s) (dev_taken s) (sectors s).

Definition set_vlock (l : bool) (s : vst) : vst :=
  VSt (desc s) (avail_ring s) (avail_idx s) (used_ring s) (used_dev_idx s) (vfree s) (used_idx s) (info_b s) (info_status s) (ops s)
    l (b_disk s) (v_data s) (v_blockno s) (v_pc s) (dev_avail s) (dev_taken s) (sectors s).

Definition set_bdisk (b x : Z) (s : vst) : vst :=
  VSt (desc s) (avail_ring s) (avail_idx s) (used_ring s) (used_dev_idx s) (vfree s) (used_idx s) (info_b s) (info_status s) (ops s)
    (v_lock s) (upd (b_disk s) b x) (v_data s) (v_blockno s) (v_pc s) (dev_avail s) (dev_taken s) (sectors s).

Definition set_buffer (b : Z) (d : list Z) (n : Z) (s : vst) : vst :=
  VSt (desc s) (avail_ring s) (avail_idx s) (used_ring s) (used_dev_idx s) (vfree s) (used_idx s) (info_b s) (info_status s) (ops s)
    (v_lock s) (b_disk s) (upd (v_data s) b d) (upd (v_blockno s) b n) (v_pc s) (dev_avail s) (dev_taken s) (sectors s).

Definition set_vpc (f : nat → rwpc) (s : vst) : vst :=
  VSt (desc s) (avail_ring s) (avail_idx s) (used_ring s) (used_dev_idx s) (vfree s) (used_idx s) (info_b s) (info_status s) (ops s)
    (v_lock s) (b_disk s) (v_data s) (v_blockno s) f (dev_avail s) (dev_taken s) (sectors s).

(** ** Sleep and wakeup *)

Definition wake_free (p : rwpc) : rwpc := match p with PSleepFree b w => PRetry b w | _ => p end.

Definition wake_buf (b : Z) (p : rwpc) : rwpc :=
  match p with
  | PSleepBuf b' w i0 i1 i2 => if b' =? b then PCheckBuf b' w i0 i1 i2 else p
  | _ => p
  end.

(** [wakeup(&disk->free[0])] and [wakeup(b)] *)
Definition wakeup_free : prog vst unit := modify (λ s, set_vpc (λ q, wake_free (v_pc s q)) s).

Definition wakeup_buf (b : Z) : prog vst unit := modify (λ s, set_vpc (λ q, wake_buf b (v_pc s q)) s).

Definition go_to (p : nat) (x : rwpc) : prog vst unit := modify (λ s, set_vpc (upd (v_pc s) p x) s).

(** * Descriptors *)

Definition alloc_desc : prog vst Z :=
  loop (S (Z.to_nat NUM))
    (λ i,
       if i <? NUM then
         s ← get;
         if vfree s i then _ ← modify (set_free i false); mret (inr i) else mret (inl (i + 1))
       else mret (inr (-1)))
    0.

Definition free_desc (i : Z) : prog vst unit :=
  if NUM <=? i then panic "free_desc 1"
  else if i <? 0 then undefined
  else
    s ← get;
    if vfree s i then panic "free_desc 2"
    else
      _ ← modify (set_desc i zero_desc);
      _ ← modify (set_free i true);
      wakeup_free.

Definition free_chain (i : Z) : prog vst unit :=
  loop (S (Z.to_nat NUM))
    (λ i,
       s ← get;
       let flag := vd_flags (desc s i) in
       let nxt := vd_next (desc s i) in
       _ ← free_desc i;
       if negb (Z.land flag VRING_DESC_F_NEXT =? 0) then mret (inl nxt) else mret (inr tt))
    i.

Fixpoint free_descs (l : list Z) : prog vst unit :=
  match l with
  | [] => mret tt
  | i :: l => _ ← free_desc i; free_descs l
  end.

(** The descriptors allocated so far are [idx[0..i)]. *)
Definition alloc3_desc : prog vst (option (list Z)) :=
  loop 4
    (λ idx : list Z,
       if Z.of_nat (length idx) <? 3 then
         i ← alloc_desc;
         if i <? 0 then _ ← free_descs idx; mret (inr None)
         else mret (inl (idx ++ [i]))
       else mret (inr (Some idx)))
    [].

(** * Transfers *)

(** [uint64 sector = b->blockno * (BSIZE / 512)]: the product is a [uint]. *)
Definition sector_of (blockno : Z) : Z := u32 (blockno * (BLOCK_BYTES / SECTOR_BYTES)).

(** The three descriptors are formatted and the chain is made available. *)
Definition rw_submit (b : Z) (write : bool) (i0 i1 i2 : Z) : prog vst unit :=
  s ← get;
  _ ← modify (set_op i0 (VReq (if write then VIRTIO_BLK_T_OUT else VIRTIO_BLK_T_IN) 0 (sector_of (v_blockno s b))));
  _ ← modify (set_desc i0 (VDesc (AOps i0) 16 VRING_DESC_F_NEXT i1));
  _ ← modify (set_desc i1 (VDesc (AData b) BLOCK_BYTES (Z.lor (if write then 0 else VRING_DESC_F_WRITE) VRING_DESC_F_NEXT) i2));
  _ ← modify (set_info_status i0 255);
  _ ← modify (set_desc i2 (VDesc (AStatus i0) 1 VRING_DESC_F_WRITE 0));
  _ ← modify (set_bdisk b 1);
  _ ← modify (set_info_b i0 b);
  _ ← modify (λ s, set_avail (upd (avail_ring s) (avail_idx s mod NUM) i0) (avail_idx s) s);
  modify (λ s, set_avail (avail_ring s) (u16 (avail_idx s + 1)) s).

(** [while(b->disk == 1) sleep(b, ...)] and what follows it. *)
Definition rw_wait (p : nat) (b : Z) (write : bool) (i0 i1 i2 : Z) : prog vst unit :=
  s ← get;
  if b_disk s b =? 1 then go_to p (PSleepBuf b write i0 i1 i2)
  else
    _ ← modify (set_info_b i0 0);
    _ ← free_chain i0;
    go_to p PIdle.

(** One round of the first loop of [virtio_disk_rw]. *)
Definition rw_try (p : nat) (b : Z) (write : bool) : prog vst unit :=
  r ← alloc3_desc;
  match r with
  | Some [i0; i1; i2] => _ ← rw_submit b write i0 i1 i2; rw_wait p b write i0 i1 i2
  | Some _ => undefined
  | None => go_to p (PSleepFree b write)
  end.

(** One round of the loop of [virtio_disk_intr], or its end. *)
Definition intr_round : prog vst unit :=
  s ← get;
  if used_idx s =? used_dev_idx s then modify (set_vlock false)
  else
    let id := used_ring s (used_idx s mod NUM) in
    if (id <? 0) || (NUM <=? id) then undefined
    else if negb (info_status s id =? 0) then panic "virtio_disk_intr status"
    else
      let b := info_b s id in
      if b =? 0 then undefined
      else
        _ ← modify (set_bdisk b 0);
        _ ← wakeup_buf b;
        modify (set_used_idx (u16 (used_idx s + 1))).

(** * Initialisation *)

(** The control registers (offsets of the memory-mapped device). *)
Definition VIRTIO_MMIO_MAGIC_VALUE : Z := 0x000.
Definition VIRTIO_MMIO_VERSION : Z := 0x004.
Definition VIRTIO_MMIO_DEVICE_ID : Z := 0x008.
Definition VIRTIO_MMIO_VENDOR_ID : Z := 0x00c.
Definition VIRTIO_MMIO_DEVICE_FEATURES : Z := 0x010.
Definition VIRTIO_MMIO_DRIVER_FEATURES : Z := 0x020.
Definition VIRTIO_MMIO_QUEUE_SEL : Z := 0x030.
Definition VIRTIO_MMIO_QUEUE_NUM_MAX : Z := 0x034.
Definition VIRTIO_MMIO_QUEUE_NUM : Z := 0x038.
Definition VIRTIO_MMIO_QUEUE_READY : Z := 0x044.
Definition VIRTIO_MMIO_STATUS : Z := 0x070.
Definition VIRTIO_MMIO_QUEUE_DESC_LOW : Z := 0x080.
Definition VIRTIO_MMIO_QUEUE_DESC_HIGH : Z := 0x084.
Definition VIRTIO_MMIO_DRIVER_DESC_LOW : Z := 0x090.
Definition VIRTIO_MMIO_DRIVER_DESC_HIGH : Z := 0x094.
Definition VIRTIO_MMIO_DEVICE_DESC_LOW : Z := 0x0a0.
Definition VIRTIO_MMIO_DEVICE_DESC_HIGH : Z := 0x0a4.

Definition VIRTIO_CONFIG_S_ACKNOWLEDGE : Z := 1.
Definition VIRTIO_CONFIG_S_DRIVER : Z := 2.
Definition VIRTIO_CONFIG_S_DRIVER_OK : Z := 4.
Definition VIRTIO_CONFIG_S_FEATURES_OK : Z := 8.

(** The features the driver turns down, by their bits: VIRTIO_BLK_F_RO, _SCSI,
    _CONFIG_WCE, _MQ, VIRTIO_F_ANY_LAYOUT, VIRTIO_RING_F_EVENT_IDX and
    _INDIRECT_DESC. *)
Definition refused_features : list Z := [5; 7; 11; 12; 27; 29; 28].

Definition accepted (features : Z) : Z := foldl (λ f k, Z.ldiff f (2 ^ k)) features refused_features.

(** The registers written so far, and the driver. *)
Record initst := InitSt {
  mmio : list (Z * Z);
  i_disk : vst }.

Section Init.

(** [rd] is what the device answers to a read after the writes so far; [a]
    is what [kmalloc] returned for [struct disk], and [pages] what [kalloc]
    returned for the three parts of the queue. *)
Variables (rd : list (Z * Z) → Z → Z) (a : Z) (pages : Z * Z * Z).

Definition read_reg (r : Z) : prog initst Z := s ← get; mret (rd (mmio s) r).

Definition write_reg (r x : Z) : prog initst unit := modify (λ s, InitSt (mmio s ++ [(r, u32 x)]) (i_disk s)).

(** [memset(disk, 0, sizeof( *disk))], and the three zeroed pages *)
Definition zero_disk (s : vst) : vst :=
  VSt (desc s) (avail_ring s) (avail_idx s) (used_ring s) (used_dev_idx s) (λ _, false) 0 (λ _, 0) (λ _, 0) (λ _, VReq 0 0 0)
    false (b_disk s) (v_data s) (v_blockno s) (v_pc s) (dev_avail s) (dev_taken s) (sectors s).

Definition zero_queue (s : vst) : vst :=
  VSt (λ _, zero_desc) (λ _, 0) 0 (λ _, 0) 0 (vfree s) (used_idx s) (info_b s) (info_status s) (ops s)
    (v_lock s) (b_disk s) (v_data s) (v_blockno s) (v_pc s) (dev_avail s) (dev_taken s) (sectors s).

Definition on_disk (f : vst → vst) : prog initst unit := modify (λ s, InitSt (mmio s) (f (i_disk s))).

(** The queue is given to the device. *)
Definition init_queue : prog initst unit :=
  let '(d, v, u) := pages in
  if (d =? 0) || (v =? 0) || (u =? 0) then panic "virtio disk kalloc"
  else
    _ ← on_disk zero_queue;
    _ ← write_reg VIRTIO_MMIO_QUEUE_NUM NUM;
    _ ← write_reg VIRTIO_MMIO_QUEUE_DESC_LOW d;
    _ ← write_reg VIRTIO_MMIO_QUEUE_DESC_HIGH (Z.shiftr d 32);
    _ ← write_reg VIRTIO_MMIO_DRIVER_DESC_LOW v;
    _ ← write_reg VIRTIO_MMIO_DRIVER_DESC_HIGH (Z.shiftr v 32);
    _ ← write_reg VIRTIO_MMIO_DEVICE_DESC_LOW u;
    _ ← write_reg VIRTIO_MMIO_DEVICE_DESC_HIGH (Z.shiftr u 32);
    write_reg VIRTIO_MMIO_QUEUE_READY 1.

Definition virtio_disk_init : prog initst unit :=
  if a =? 0 then panic "virtio disk kmalloc"
  else
    _ ← on_disk zero_disk;
    magic ← read_reg VIRTIO_MMIO_MAGIC_VALUE;
    version ← read_reg VIRTIO_MMIO_VERSION;
    device ← read_reg VIRTIO_MMIO_DEVICE_ID;
    vendor ← read_reg VIRTIO_MMIO_VENDOR_ID;
    if negb (magic =? 0x74726976) || negb (version =? 2) || negb (device =? 2) || negb (vendor =? 0x554d4551)
    then panic "could not find virtio disk"
    else
      _ ← write_reg VIRTIO_MMIO_STATUS 0;
      let status := VIRTIO_CONFIG_S_ACKNOWLEDGE in
      _ ← write_reg VIRTIO_MMIO_STATUS status;
      let status := Z.lor status VIRTIO_CONFIG_S_DRIVER in
      _ ← write_reg VIRTIO_MMIO_STATUS status;
      features ← read_reg VIRTIO_MMIO_DEVICE_FEATURES;
      _ ← write_reg VIRTIO_MMIO_DRIVER_FEATURES (accepted features);
      let status := Z.lor status VIRTIO_CONFIG_S_FEATURES_OK in
      _ ← write_reg VIRTIO_MMIO_STATUS status;
      status ← read_reg VIRTIO_MMIO_STATUS;
      if Z.land status VIRTIO_CONFIG_S_FEATURES_OK =? 0 then panic "virtio disk FEATURES_OK unset"
      else
        _ ← write_reg VIRTIO_MMIO_QUEUE_SEL 0;
        ready ← read_reg VIRTIO_MMIO_QUEUE_READY;
        if negb (ready =? 0) then panic "virtio disk should not be ready"
        else
          max ← read_reg VIRTIO_MMIO_QUEUE_NUM_MAX;
          if max =? 0 then panic "virtio disk has no queue 0"
          else if max <? NUM then panic "virtio disk max queue too short"
          else
            _ ← init_queue;
            _ ← for_range 0 NUM (λ i, on_disk (set_free i true));
            write_reg VIRTIO_MMIO_STATUS (Z.lor status VIRTIO_CONFIG_S_DRIVER_OK).

End Init.
