(* ===== verification/VirtioProps.v ===== *)
(** The disk driver and its device: for any number of processes, in any
    interleaving with the interrupt handler and the device, [virtio_disk_rw]
    performs one transfer of its block, and nobody waits for nothing. *)

From S2P Require Import Prelude.
From S2P Require Import Ring.
From S2P Require Import Virtio.

(** * Rings *)

(** The entries of a ring of descriptors, whose counters are [uint16]. *)
Abbreviation window := (Ring.window NUM (2 ^ 16)).

Lemma ring_push ring lo hi x :
  (length (window ring lo hi) < 8)%nat → window (upd ring (hi mod NUM) x) lo (u16 (hi + 1)) = window ring lo hi ++ [x].
Proof. intros H. apply window_push; [reflexivity|reflexivity|by exists (2 ^ 13)|exact H|reflexivity]. Qed.

Lemma ring_pop ring lo hi :
  u16 lo = lo → u16 hi = hi → lo ≠ hi → window ring lo hi = ring (lo mod NUM) :: window ring (u16 (lo + 1)) hi.
Proof.
  intros Hlo Hhi Hne. apply window_pop; [reflexivity|by exists (2 ^ 13)| | |done].
  - rewrite <- Hlo. by apply Z.mod_pos_bound.
  - rewrite <- Hhi. by apply Z.mod_pos_bound.
Qed.

(** Descriptor numbers, each at most once. *)
Lemma NoDup_num (l : list Z) : NoDup l → (∀ i, i ∈ l → 0 ≤ i < NUM) → (length l ≤ 8)%nat.
Proof.
  intros Hd Hr. change 8%nat with (length (seqZ 0 8)). apply submseteq_length, NoDup_submseteq; [done|].
  intros i Hi. apply elem_of_seqZ. apply Hr in Hi. unfold NUM in Hi. lia.
Qed.

(** * The system *)

(** A request under way: the buffer, the direction and the three descriptors. *)
Record chain := Chain {
  c_b : Z;
  c_w : bool;
  c_0 : Z;
  c_1 : Z;
  c_2 : Z }.

Definition chain_of (p : rwpc) : option chain :=
  match p with
  | PSleepBuf b w i0 i1 i2 | PCheckBuf b w i0 i1 i2 => Some (Chain b w i0 i1 i2)
  | _ => None
  end.

Definition c_ids (c : chain) : list Z := [c_0 c; c_1 c; c_2 c].

(** The buffer a process works on. *)
Definition buf_of (p : rwpc) : option Z :=
  match p with
  | PIdle => None
  | PSleepFree b _ | PRetry b _ | PSleepBuf b _ _ _ _ | PCheckBuf b _ _ _ _ => Some b
  end.

Lemma chain_buf p c : chain_of p = Some c → buf_of p = Some (c_b c).
Proof. destruct p; intros H; simplify_eq/=; done. Qed.

(** ** The device *)

(** It takes a chain from the available ring. *)
Definition dev_take (s : vst) : vst :=
  VSt (desc s) (avail_ring s) (avail_idx s) (used_ring s) (used_dev_idx s) (vfree s) (used_idx s) (info_b s) (info_status s) (ops s)
    (v_lock s) (b_disk s) (v_data s) (v_blockno s) (v_pc s) (u16 (dev_avail s + 1)) (avail_ring s (dev_avail s mod NUM) :: dev_taken s) (sectors s).

(** It moves the data of a request on buffer [b], writes the status byte and
    puts the chain on the used ring. *)
Definition dev_move (rq : virtio_blk_req) (b : Z) (s : vst) : vst :=
  let n := rq_sector rq in
  let out := rq_type rq =? VIRTIO_BLK_T_OUT in
  VSt (desc s) (avail_ring s) (avail_idx s) (used_ring s) (used_dev_idx s) (vfree s) (used_idx s) (info_b s) (info_status s) (ops s)
    (v_lock s) (b_disk s)
    (if out then v_data s else upd (v_data s) b (sectors s n ++ sectors s (n + 1)))
    (v_blockno s) (v_pc s) (dev_avail s) (dev_taken s)
    (if out then upd (upd (sectors s) n (take (Z.to_nat SECTOR_BYTES) (v_data s b))) (n + 1) (drop (Z.to_nat SECTOR_BYTES) (v_data s b))
     else sectors s).

Definition dev_finish (k h : Z) (taken : list Z) (s : vst) : vst :=
  VSt (desc s) (avail_ring s) (avail_idx s) (upd (used_ring s) (used_dev_idx s mod NUM) h) (u16 (used_dev_idx s + 1)) (vfree s) (used_idx s)
    (info_b s) (upd (info_status s) k 0) (ops s)
    (v_lock s) (b_disk s) (v_data s) (v_blockno s) (v_pc s) (dev_avail s) taken (sectors s).

(** The chain at [h] is a request of the block device on buffer [b], with its
    status byte at [k]: a header the device reads, the data, which it reads or
    writes as the type of the request says, and the status, which it writes. *)
Definition request (s : vst) (h : Z) (rq : virtio_blk_req) (b k : Z) : Prop :=
  let d0 := desc s h in
  let d1 := desc s (vd_next d0) in
  let d2 := desc s (vd_next d1) in
  (∃ j, vd_addr d0 = AOps j ∧ ops s j = rq) ∧ vd_len d0 = 16 ∧ vd_flags d0 = VRING_DESC_F_NEXT ∧
  vd_addr d1 = AData b ∧ vd_len d1 = BLOCK_BYTES ∧
  ((rq_type rq = VIRTIO_BLK_T_OUT ∧ vd_flags d1 = VRING_DESC_F_NEXT) ∨
   (rq_type rq = VIRTIO_BLK_T_IN ∧ vd_flags d1 = Z.lor VRING_DESC_F_WRITE VRING_DESC_F_NEXT)) ∧
  vd_addr d2 = AStatus k ∧ vd_len d2 = 1 ∧ vd_flags d2 = VRING_DESC_F_WRITE.

(** What the device may do. *)
Inductive device_step : vst → vst → Prop :=
  | dev_takes s : dev_avail s ≠ avail_idx s → device_step s (dev_take s)
  | dev_finishes s h l1 l2 rq b k :
      dev_taken s = l1 ++ h :: l2 → request s h rq b k → device_step s (dev_finish k h (l1 ++ l2) (dev_move rq b s)).

(** ** Steps *)

Section System.

Context (device : vst → vst → Prop).

(** A process calls [virtio_disk_rw] for a buffer it has locked, so that no
    other process uses it.  Outside of the driver the owner of a buffer changes
    its data and its block. *)
Inductive vstep : vst → vst → Prop :=
  | v_call p b w s s' :
      v_pc s p = PIdle → b ≠ 0 → (∀ q, buf_of (v_pc s q) ≠ Some b) → v_lock s = false →
      rw_try p b w s = Ok (tt, s') → vstep s s'
  | v_retry p b w s s' :
      v_pc s p = PRetry b w → v_lock s = false → rw_try p b w s = Ok (tt, s') → vstep s s'
  | v_check p b w i0 i1 i2 s s' :
      v_pc s p = PCheckBuf b w i0 i1 i2 → v_lock s = false → rw_wait p b w i0 i1 i2 s = Ok (tt, s') → vstep s s'
  | v_intr s : v_lock s = false → vstep s (set_vlock true s)
  | v_round s s' : v_lock s = true → intr_round s = Ok (tt, s') → vstep s s'
  | v_edit b d n s : (∀ q, buf_of (v_pc s q) ≠ Some b) → 0 ≤ n < 2 ^ 31 → vstep s (set_buffer b d n s)
  | v_device s s' : device s s' → vstep s s'.

End System.

(** * The invariant *)

Definition rq_of (s : vst) (c : chain) : virtio_blk_req :=
  VReq (if c_w c then VIRTIO_BLK_T_OUT else VIRTIO_BLK_T_IN) 0 (sector_of (v_blockno s (c_b c))).

(** The three descriptors of a request. *)
Record chain_ok (s : vst) (c : chain) : Prop := {
  ch_buf : c_b c ≠ 0;
  ch_nodup : NoDup (c_ids c);
  ch_ids : ∀ i, i ∈ c_ids c → 0 ≤ i < NUM ∧ vfree s i = false;
  ch_0 : desc s (c_0 c) = VDesc (AOps (c_0 c)) 16 VRING_DESC_F_NEXT (c_1 c);
  ch_1 : desc s (c_1 c) = VDesc (AData (c_b c)) BLOCK_BYTES (Z.lor (if c_w c then 0 else VRING_DESC_F_WRITE) VRING_DESC_F_NEXT) (c_2 c);
  ch_2 : desc s (c_2 c) = VDesc (AStatus (c_0 c)) 1 VRING_DESC_F_WRITE 0;
  ch_info : info_b s (c_0 c) = c_b c;
  ch_op : ops s (c_0 c) = rq_of s c }.

(** The requests the interrupt handler has not seen, by their first
    descriptors: available, at the device, and used. *)
Definition used_now (s : vst) : list Z := window (used_ring s) (used_idx s) (used_dev_idx s).

Definition flight (s : vst) : list Z := window (avail_ring s) (dev_avail s) (avail_idx s) ++ dev_taken s ++ used_now s.

Definition nfree (s : vst) : nat := length (filter (λ i, vfree s i = true) (seqZ 0 NUM)).

Record vinv (s : vst) : Prop := {
  vi_u16 : u16 (avail_idx s) = avail_idx s ∧ u16 (dev_avail s) = dev_avail s ∧ u16 (used_idx s) = used_idx s ∧ u16 (used_dev_idx s) = used_dev_idx s;
  vi_chain : ∀ p c, chain_of (v_pc s p) = Some c → chain_ok s c;
  vi_apart : ∀ p q c d i, chain_of (v_pc s p) = Some c → chain_of (v_pc s q) = Some d → i ∈ c_ids c → i ∈ c_ids d → p = q;
  vi_bufs : ∀ p q b, buf_of (v_pc s p) = Some b → buf_of (v_pc s q) = Some b → p = q;
  vi_nonnull : ∀ p, buf_of (v_pc s p) ≠ Some 0;
  vi_owned : ∀ i, 0 ≤ i < NUM → vfree s i = false → ∃ p c, chain_of (v_pc s p) = Some c ∧ i ∈ c_ids c;
  vi_nodup : NoDup (flight s);
  vi_flight : ∀ i, i ∈ flight s ↔ ∃ p c, chain_of (v_pc s p) = Some c ∧ c_0 c = i ∧ b_disk s (c_b c) = 1;
  vi_status : ∀ i, i ∈ used_now s → info_status s i = 0;
  vi_sleep_buf : ∀ p b w i0 i1 i2, v_pc s p = PSleepBuf b w i0 i1 i2 → b_disk s b = 1;
  vi_sleep_free : ∀ p b w, v_pc s p = PSleepFree b w → (nfree s < 3)%nat;
  vi_blockno : ∀ b, 0 ≤ v_blockno s b < 2 ^ 31 }.

Lemma chain_ok_frame s s' c :
  (∀ i, i ∈ c_ids c → vfree s' i = vfree s i ∧ desc s' i = desc s i) → info_b s' (c_0 c) = info_b s (c_0 c) →
  ops s' (c_0 c) = ops s (c_0 c) → v_blockno s' (c_b c) = v_blockno s (c_b c) → chain_ok s c → chain_ok s' c.
Proof.
  intros Hd Hi Ho Hb [H1 H2 H3 H4 H5 H6 H7 H8].
  assert (∀ i, i ∈ c_ids c → desc s' i = desc s i) as Hd' by (intros; by apply Hd).
  split; try done.
  - intros i Hin. destruct (Hd i Hin) as [-> _]. by apply H3.
  - by rewrite Hd' by (unfold c_ids; set_solver).
  - by rewrite Hd' by (unfold c_ids; set_solver).
  - by rewrite Hd' by (unfold c_ids; set_solver).
  - congruence.
  - unfold rq_of in *. congruence.
Qed.

Lemma nfree_ext s s' : (∀ i, vfree s' i = vfree s i) → nfree s' = nfree s.
Proof. intros H. unfold nfree. f_equal. apply list_filter_iff. intros i. by rewrite H. Qed.

Lemma flight_range s i : vinv s → i ∈ flight s → 0 ≤ i < NUM.
Proof.
  intros H (p & c & Hc & <- & _)%(vi_flight _ H). eapply (ch_ids _ _ (vi_chain _ H _ _ Hc)). unfold c_ids. set_solver.
Qed.

Lemma flight_length s : vinv s → (length (flight s) ≤ 8)%nat.
Proof. intros H. apply NoDup_num; [by apply vi_nodup|]. intros i. by apply flight_range. Qed.

(** A change that concerns neither the descriptors nor the processes. *)
Lemma vinv_flight s s' :
  vinv s → desc s' = desc s → vfree s' = vfree s → info_b s' = info_b s → ops s' = ops s → v_pc s' = v_pc s → b_disk s' = b_disk s →
  (∀ p b, buf_of (v_pc s p) = Some b → v_blockno s' b = v_blockno s b) →
  u16 (avail_idx s') = avail_idx s' ∧ u16 (dev_avail s') = dev_avail s' ∧ u16 (used_idx s') = used_idx s' ∧ u16 (used_dev_idx s') = used_dev_idx s' →
  flight s' ≡ₚ flight s → (∀ i, i ∈ used_now s' → info_status s' i = 0) → (∀ b, 0 ≤ v_blockno s' b < 2 ^ 31) → vinv s'.
Proof.
  intros H Ed Ef Ei Eo Ep Eb En Hu Hp Hs Hn. split; rewrite ?Ep, ?Ef, ?Eb; try done; try apply H.
  - intros p c Hc. eapply chain_ok_frame; [..|by eapply (vi_chain _ H)]; rewrite ?Ed, ?Ef, ?Ei, ?Eo; try done.
    apply (En p). by apply chain_buf.
  - rewrite Hp. by apply vi_nodup.
  - intros i. rewrite Hp. apply (vi_flight _ H).
  - intros p b w. unfold nfree. rewrite Ef. apply (vi_sleep_free _ H).
Qed.

Lemma u16_idem x : u16 (u16 x) = u16 x.
Proof. unfold u16. by rewrite Zmod_mod. Qed.

Lemma device_inv s s' : device_step s s' → vinv s → vinv s'.
Proof.
  intros [s0 Hne|s0 h l1 l2 rq b k Ht Hrq] H; pose proof (vi_u16 _ H) as (U1 & U2 & U3 & U4).
  - apply (vinv_flight s0); try done; [split_and!; try done; apply u16_idem| |apply (vi_status _ H)|apply (vi_blockno _ H)].
    unfold flight, dev_take, used_now. cbn. rewrite (ring_pop _ (dev_avail s0)) by done. simpl. symmetry. apply Permutation_middle.
  - assert (h ∈ flight s0) as Hh by (unfold flight; rewrite Ht; set_solver).
    assert (length (window (used_ring s0) (used_idx s0) (used_dev_idx s0)) < 8)%nat as Hlen.
    { pose proof (flight_length _ H) as Hl. unfold flight, used_now in Hl. rewrite Ht, !length_app in Hl. simpl in Hl. lia. }
    pose proof (vi_flight _ H h) as [(p & c & Hc & <- & Hb) _]; [done|]. destruct (vi_chain _ H _ _ Hc) as [_ _ _ D0 D1 D2 _ _].
    assert (k = c_0 c) as ->.
    { unfold request in Hrq. rewrite D0 in Hrq; cbn in Hrq; rewrite D1 in Hrq; cbn in Hrq; rewrite D2 in Hrq. cbn in Hrq. destruct Hrq as (_ & _ & _ & _ & _ & _ & Hk & _). congruence. }
    apply (vinv_flight s0); try done; [split_and!; try done; apply u16_idem| | |apply (vi_blockno _ H)].
    + unfold flight, used_now. cbn. rewrite ring_push, Ht by done. solve_Permutation.
    + intros i. unfold used_now. cbn. rewrite ring_push by done. intros [Hi|Hi%list_elem_of_singleton]%elem_of_app.
      * unfold upd. case_decide; [done|]. by apply (vi_status _ H).
      * subst. apply upd_eq.
Qed.

Lemma chain_wake_buf b p : chain_of (wake_buf b p) = chain_of p.
Proof. destruct p; simpl; try case_match; done. Qed.

Lemma buf_wake_buf b p : buf_of (wake_buf b p) = buf_of p.
Proof. destruct p; simpl; try case_match; done. Qed.

Lemma chain_wake_free p : chain_of (wake_free p) = chain_of p.
Proof. by destruct p. Qed.

Lemma buf_wake_free p : buf_of (wake_free p) = buf_of p.
Proof. by destruct p. Qed.

(** ** The interrupt handler *)

(** The state after the handler has seen the completion of [c]. *)
Definition seen (c : chain) (s : vst) : vst :=
  set_used_idx (u16 (used_idx s + 1)) (set_vpc (λ q, wake_buf (c_b c) (v_pc s q)) (set_bdisk (c_b c) 0 s)).

Lemma wp_intr_round s (Q : unit → vst → Prop) :
  vinv s → Q tt (set_vlock false s) →
  (∀ p c, chain_of (v_pc s p) = Some c → b_disk s (c_b c) = 1 → used_now s = c_0 c :: used_now (seen c s) → Q tt (seen c s)) →
  wp intr_round Q s.
Proof.
  intros H H0 HQ. pose proof (vi_u16 _ H) as (U1 & U2 & U3 & U4). unfold intr_round. wp_auto.
  destruct (Z.eqb_spec (used_idx s) (used_dev_idx s)) as [E|E]; wp_auto; [done|].
  set (id := used_ring s (used_idx s mod NUM)).
  assert (used_now s = id :: window (used_ring s) (u16 (used_idx s + 1)) (used_dev_idx s)) as Ew by by apply ring_pop.
  assert (id ∈ flight s) as Hid by (unfold flight; rewrite Ew; set_solver).
  pose proof (flight_range _ _ H Hid). rewrite (proj2 (Z.ltb_ge _ _)), (proj2 (Z.leb_gt _ _)) by lia. simpl.
  rewrite (vi_status _ H id) by (rewrite Ew; left). change (0 =? 0) with true. cbn [negb].
  pose proof (vi_flight _ H id) as [(p & c & Hc & Ec & Hb) _]; [done|]. pose proof (vi_chain _ H _ _ Hc) as Hok.
  assert (info_b s id = c_b c) as -> by (rewrite <- Ec; apply Hok). rewrite (proj2 (Z.eqb_neq _ _)) by apply Hok.
  unfold wakeup_buf. wp_auto. apply (HQ p c Hc Hb). by rewrite Ec.
Qed.

(** Requests the handler has not seen are other requests. *)
Lemma seen_other p c q d s :
  vinv s → chain_of (v_pc s p) = Some c → chain_of (v_pc s q) = Some d → q ≠ p → c_b d ≠ c_b c ∧ c_0 d ≠ c_0 c.
Proof.
  intros H Hc Hd Hq. split; intros E; apply Hq.
  - apply (vi_bufs _ H q p (c_b c)); [rewrite <- E; by apply chain_buf|by apply chain_buf].
  - apply (vi_apart _ H q p d c (c_0 c) Hd Hc); [rewrite <- E|]; by left.
Qed.

Lemma vinv_seen p c s :
  vinv s → chain_of (v_pc s p) = Some c → b_disk s (c_b c) = 1 → used_now s = c_0 c :: used_now (seen c s) → vinv (seen c s).
Proof.
  intros H Hc Hb Ew. pose proof (vi_u16 _ H) as (U1 & U2 & U3 & U4). set (s' := seen c s) in *.
  assert (flight s ≡ₚ c_0 c :: flight s') as Hp by (unfold flight; rewrite Ew; cbn; solve_Permutation).
  pose proof (vi_nodup _ H) as Hn. rewrite Hp in Hn. apply NoDup_cons in Hn as [Hn1 Hn2].
  split; try done; try apply H; cbn.
  - split_and!; try done. apply u16_idem.
  - intros q d. rewrite chain_wake_buf. intros Hd. by eapply chain_ok_frame, (vi_chain _ H).
  - intros q q' d d' i. rewrite !chain_wake_buf. apply (vi_apart _ H).
  - intros q q' x. rewrite !buf_wake_buf. apply (vi_bufs _ H).
  - intros q. rewrite buf_wake_buf. apply (vi_nonnull _ H).
  - intros i Hi Hf. destruct (vi_owned _ H i Hi Hf) as (q & d & ? & ?). exists q, d. by rewrite chain_wake_buf.
  - intros i. assert (i ∈ flight s' ↔ i ∈ flight s ∧ i ≠ c_0 c) as ->.
    { rewrite Hp, elem_of_cons. split; [intros ?; split; [by right|congruence]|]. by intros [[->|?] ?]. }
    rewrite (vi_flight _ H). split.
    + intros [(q & d & Hd & <- & Hdb) Hne]. exists q, d. rewrite chain_wake_buf. split_and!; [done..|].
      rewrite upd_ne; [done|]. apply (seen_other p c q d s H Hc Hd). congruence.
    + intros (q & d & Hd & <- & Hdb). rewrite chain_wake_buf in Hd. destruct (decide (q = p)) as [->|Hq].
      { assert (d = c) as -> by congruence. by rewrite upd_eq in Hdb. }
      destruct (seen_other p c q d s H Hc Hd Hq) as [Eb E0]. rewrite upd_ne in Hdb by done. split; [by exists q, d|done].
  - intros i Hi. apply (vi_status _ H). rewrite Ew. by right.
  - intros q b w i0 i1 i2 Hq. destruct (v_pc s q) as [| | |b' w' j0 j1 j2|] eqn:Eq; simpl in Hq; try done.
    destruct (Z.eqb_spec b' (c_b c)); simplify_eq. rewrite upd_ne by done. by eapply (vi_sleep_buf _ H).
  - intros q b w Hq. destruct (v_pc s q) as [| | |b' w' j0 j1 j2|] eqn:Eq; simpl in Hq; simplify_eq; [by eapply (vi_sleep_free _ H)|].
    by case_match.
Qed.

Lemma intr_round_inv s : vinv s → wp intr_round (λ _ s', vinv s') s.
Proof.
  intros H. apply wp_intr_round; [done|apply (vinv_flight s); try done; apply H|]. intros p c ? ? ?. by eapply vinv_seen.
Qed.

(** ** Descriptors *)

(** The parts the allocation of descriptors changes. *)
Definition with_parts (d : Z → virtq_desc) (f : Z → bool) (pc : nat → rwpc) (s : vst) : vst :=
  VSt d (avail_ring s) (avail_idx s) (used_ring s) (used_dev_idx s) f (used_idx s) (info_b s) (info_status s) (ops s)
    (v_lock s) (b_disk s) (v_data s) (v_blockno s) pc (dev_avail s) (dev_taken s) (sectors s).

Lemma wp_alloc_desc s :
  wp alloc_desc (λ r s', (r = -1 ∧ s' = s ∧ ∀ i, 0 ≤ i < NUM → vfree s i = false) ∨
    (0 ≤ r < NUM ∧ vfree s r = true ∧ s' = set_free r false s)) s.
Proof.
  unfold alloc_desc.
  apply (wp_loop (λ n i s', s' = s ∧ 0 ≤ i ≤ NUM ∧ n = Z.to_nat (NUM - i) ∧ ∀ k, 0 ≤ k < i → vfree s k = false) (Z.to_nat NUM));
    [split_and!; [done..|lia]|lia|].
  intros n i ? (-> & Hi & -> & Hk). destruct (Z.ltb_spec i NUM); wp_auto; [|left; split_and!; [done..|]; intros k ?; apply Hk; lia].
  destruct (vfree s i) eqn:E; wp_auto; [right; split_and!; [lia..|done|done]|].
  exists (Z.to_nat (NUM - (i + 1))). split; [lia|]. split_and!; [done|lia..|]. intros k Hk'.
  destruct (decide (k = i)) as [->|]; [done|]. apply Hk. lia.
Qed.

Definition freed (i : Z) (s : vst) : vst :=
  with_parts (upd (desc s) i zero_desc) (upd (vfree s) i true) (λ q, wake_free (v_pc s q)) s.

Lemma wp_free_desc i s (Q : unit → vst → Prop) :
  0 ≤ i < NUM → vfree s i = false → Q tt (freed i s) → wp (free_desc i) Q s.
Proof.
  intros Hi Hf HQ. unfold free_desc. rewrite (proj2 (Z.leb_gt _ _)), (proj2 (Z.ltb_ge _ _)) by lia. wp_auto. rewrite Hf.
  unfold wakeup_free. by wp_auto.
Qed.

(** [s'] is [s] with the descriptors of [l] given back, and with them taken. *)
Definition frees (l : list Z) (s s' : vst) : Prop :=
  ∃ d f pc, s' = with_parts d f pc s ∧ (∀ i, d i = if decide (i ∈ l) then zero_desc else desc s i) ∧
    (∀ i, f i = if decide (i ∈ l) then true else vfree s i) ∧
    (∀ q, pc q = if decide (l = []) then v_pc s q else wake_free (v_pc s q)).

Definition takes (l : list Z) (s s' : vst) : Prop :=
  ∃ f, s' = with_parts (desc s) f (v_pc s) s ∧ ∀ i, f i = if decide (i ∈ l) then false else vfree s i.

Lemma frees_nil s : frees [] s s.
Proof. exists (desc s), (vfree s), (v_pc s). split_and!; try done. by destruct s. Qed.

Lemma wake_free_idem p : wake_free (wake_free p) = wake_free p.
Proof. by destruct p. Qed.

Lemma frees_cons i l s s' : frees l (freed i s) s' → frees (i :: l) s s'.
Proof.
  intros (d & f & pc & -> & Hd & Hf & Hpc). exists d, f, pc. split_and!; [done|..].
  - intros j. rewrite Hd. cbn. unfold upd. repeat case_decide; set_solver.
  - intros j. rewrite Hf. cbn. unfold upd. repeat case_decide; set_solver.
  - intros q. rewrite (decide_False (P := i :: l = [])), Hpc by done. cbn. case_decide; [done|]. apply wake_free_idem.
Qed.

Lemma wp_free_descs l s (Q : unit → vst → Prop) :
  NoDup l → (∀ i, i ∈ l → 0 ≤ i < NUM ∧ vfree s i = false) → (∀ s', frees l s s' → Q tt s') → wp (free_descs l) Q s.
Proof.
  revert s. induction l as [|i l IH]; intros s Hd Hl HQ; simpl; wp_auto; [by apply HQ, frees_nil|].
  apply NoDup_cons in Hd as [Hi Hd]. destruct (Hl i) as [Hr Hf]; [by left|]. apply wp_free_desc; [done..|]. apply IH; [done| |].
  - intros j Hj. cbn. rewrite upd_ne by congruence. apply Hl. by right.
  - intros s' Hs'. by apply HQ, frees_cons.
Qed.

Lemma takes_nil s : takes [] s s.
Proof. exists (vfree s). split; [by destruct s|done]. Qed.

Lemma takes_snoc l i s s' : takes l s s' → takes (l ++ [i]) s (set_free i false s').
Proof.
  intros (f & -> & Hf). exists (upd f i false). split; [done|]. intros j. unfold upd.
  destruct (decide (j = i)) as [->|]; [rewrite decide_True; [done|set_solver]|]. rewrite Hf.
  destruct (decide (j ∈ l)); [rewrite decide_True|rewrite decide_False]; set_solver.
Qed.

Lemma nfree_le s l : (∀ i, 0 ≤ i < NUM → vfree s i = true → i ∈ l) → (nfree s ≤ length l)%nat.
Proof.
  intros H. unfold nfree. apply submseteq_length, NoDup_submseteq; [apply NoDup_filter, NoDup_seqZ|].
  intros i [Hi Hin]%list_elem_of_filter. apply elem_of_seqZ in Hin. apply H; [lia|done].
Qed.

Lemma nfree_some s : (nfree s < 8)%nat → ∃ i, 0 ≤ i < NUM ∧ vfree s i = false.
Proof.
  intros Hn. destruct (decide (Exists (λ i, vfree s i = false) (seqZ 0 NUM))) as [He|He].
  - apply Exists_exists in He as (i & Hi & Hf). apply elem_of_seqZ in Hi. exists i. split; [lia|done].
  - exfalso. assert (∀ i, i ∈ seqZ 0 NUM → vfree s i = true) as Hall.
    { intros i Hi. destruct (vfree s i) eqn:E; [done|]. destruct He. apply Exists_exists. eauto. }
    assert (length (seqZ 0 NUM) ≤ nfree s)%nat as Hl; [|change (length (seqZ 0 NUM)) with 8%nat in Hl; lia].
    apply submseteq_length, NoDup_submseteq; [apply NoDup_seqZ|]. intros i Hi. apply list_elem_of_filter. auto.
Qed.

(** Descriptors were taken and given back. *)
Definition quiet (s s' : vst) : Prop :=
  ∃ d f pc, s' = with_parts d f pc s ∧ (∀ i, vfree s i = false → d i = desc s i) ∧ (∀ i, f i = vfree s i) ∧
    ((∀ q, pc q = v_pc s q) ∨ ∀ q, pc q = wake_free (v_pc s q)).

Lemma takes_frees_quiet l s s1 s2 : (∀ i, i ∈ l → vfree s i = true) → takes l s s1 → frees l s1 s2 → quiet s s2.
Proof.
  intros Hl (f1 & -> & Hf1) (d & f & pc & -> & Hd & Hf & Hpc). exists d, f, pc. split_and!; [done|..].
  - intros i Hi. rewrite Hd. cbn. destruct (decide (i ∈ l)) as [E|]; [|done]. rewrite (Hl _ E) in Hi. done.
  - intros i. rewrite Hf. cbn. destruct (decide (i ∈ l)) as [E|E]; [by rewrite Hl|]. by rewrite Hf1, decide_False.
  - destruct (decide (l = [])); [left|right]; intros q; by rewrite Hpc.
Qed.

Lemma wp_alloc3_desc s :
  wp alloc3_desc (λ r s',
    match r with
    | Some idx => ∃ i0 i1 i2, idx = [i0; i1; i2] ∧ NoDup idx ∧ (∀ i, i ∈ idx → 0 ≤ i < NUM ∧ vfree s i = true) ∧ takes idx s s'
    | None => quiet s s' ∧ (nfree s < 3)%nat
    end) s.
Proof.
  unfold alloc3_desc.
  apply (wp_loop (λ n idx s', n = (3 - length idx)%nat ∧ (length idx ≤ 3)%nat ∧ NoDup idx ∧
    (∀ i, i ∈ idx → 0 ≤ i < NUM ∧ vfree s i = true) ∧ takes idx s s') 3).
  { split_and!; [done|simpl; lia|constructor|by intros i ?%elem_of_nil|apply takes_nil]. }
  { lia. }
  intros n idx s1 (-> & Hlen & Hnd & Hidx & Ht). destruct (Z.ltb_spec (Z.of_nat (length idx)) 3).
  - wp_auto. eapply wp_mono; [apply wp_alloc_desc|]. intros i s2 [(-> & -> & Hno)|(Hi & Hfree & ->)].
    + change (-1 <? 0) with true. cbv iota. wp_auto. pose proof Ht as (f & -> & Hf). apply wp_free_descs; [done| |].
      * intros i Hi. split; [by apply Hidx|]. cbn. by rewrite Hf, decide_True.
      * intros s3 Hs3. wp_auto. split; [eapply takes_frees_quiet; [|done..]; intros i ?; by apply Hidx|].
        eapply Nat.le_lt_trans; [apply (nfree_le s idx)|lia]. intros i Hi Hv. specialize (Hno i Hi). cbn in Hno. rewrite Hf in Hno.
        by case_decide; [|congruence].
    + rewrite (proj2 (Z.ltb_ge _ _)) by lia. wp_auto. exists (3 - length (idx ++ [i]))%nat. rewrite length_app. simpl.
      pose proof Ht as (f & -> & Hf). cbn in Hfree. rewrite Hf in Hfree. case_decide as Hin; [done|].
      split; [lia|]. split_and!; [done|lia| | |by apply takes_snoc].
      * apply NoDup_app. split_and!; [done| |apply NoDup_singleton]. by intros j Hj ->%list_elem_of_singleton.
      * intros j [Hj| ->%list_elem_of_singleton]%elem_of_app; [by apply Hidx|done].
  - wp_auto. destruct idx as [|i0 [|i1 [|i2 [|]]]]; simpl in *; try lia. by exists i0, i1, i2.
Qed.

(** The chain of a request is given back. *)
Lemma wp_free_chain c s0 s (Q : unit → vst → Prop) :
  chain_ok s0 c → desc s = desc s0 → vfree s = vfree s0 → (∀ s', frees (c_ids c) s s' → Q tt s') → wp (free_chain (c_0 c)) Q s.
Proof.
  intros [_ Hnd Hids D0 D1 D2 _ _] Ed Ef HQ. rewrite <- Ed in D0, D1, D2. rewrite <- Ef in Hids. unfold c_ids in *.
  apply NoDup_cons in Hnd as [N0 Hnd]. apply NoDup_cons in Hnd as [N1 _].
  assert (c_1 c ≠ c_0 c) as E1 by set_solver. assert (c_2 c ≠ c_0 c) as E2 by set_solver. assert (c_2 c ≠ c_1 c) as E3 by set_solver.
  destruct (Hids (c_0 c)) as [R0 F0]; [by left|]. destruct (Hids (c_1 c)) as [R1 F1]; [by right; left|].
  destruct (Hids (c_2 c)) as [R2 F2]; [by right; right; left|]. clear Hids N0 N1.
  unfold free_chain. change (S (Z.to_nat NUM)) with 9%nat. simpl loop.
  wp_auto. rewrite D0. cbn [vd_flags vd_next]. apply wp_free_desc; [done..|]. change (Z.land VRING_DESC_F_NEXT VRING_DESC_F_NEXT =? 0) with false.
  cbn [negb]. wp_auto. assert (desc (freed (c_0 c) s) (c_1 c) = desc s (c_1 c)) as -> by (cbn; by rewrite upd_ne).
  rewrite D1. cbn [vd_flags vd_next]. apply wp_free_desc; [done|cbn; by rewrite upd_ne|].
  assert ((Z.land (Z.lor (if c_w c then 0 else VRING_DESC_F_WRITE) VRING_DESC_F_NEXT) VRING_DESC_F_NEXT =? 0) = false) as -> by (by destruct (c_w c)).
  cbn [negb]. wp_auto. assert (desc (freed (c_1 c) (freed (c_0 c) s)) (c_2 c) = desc s (c_2 c)) as -> by (cbn; by rewrite !upd_ne).
  rewrite D2. cbn [vd_flags vd_next]. apply wp_free_desc; [done|cbn; by rewrite !upd_ne|].
  change (Z.land VRING_DESC_F_WRITE VRING_DESC_F_NEXT =? 0) with true. cbn [negb]. wp_auto. apply HQ. do 3 apply frees_cons. apply frees_nil.
Qed.

(** ** Processes *)

(** Process [p] may ask for a transfer of buffer [b]. *)
Definition may_ask (s : vst) (p : nat) (b : Z) : Prop :=
  b ≠ 0 ∧ chain_of (v_pc s p) = None ∧ ∀ q, q ≠ p → buf_of (v_pc s q) ≠ Some b.

Lemma may_ask_idle s p b : b ≠ 0 → v_pc s p = PIdle → (∀ q, buf_of (v_pc s q) ≠ Some b) → may_ask s p b.
Proof. intros Hb Hp Hq. split_and!; [done|by rewrite Hp|]. intros q _. apply Hq. Qed.

Lemma may_ask_retry s p b w : vinv s → v_pc s p = PRetry b w → may_ask s p b.
Proof.
  intros H Hp. split_and!; [|by rewrite Hp|].
  - intros ->. apply (vi_nonnull _ H p). by rewrite Hp.
  - intros q Hq Hb. apply Hq. apply (vi_bufs _ H q p b); [done|by rewrite Hp].
Qed.

Lemma vinv_quiet s s' : quiet s s' → vinv s → vinv s'.
Proof.
  intros (d & f & pc & -> & Hd & Hf & Hpc) H.
  assert (∀ q, chain_of (pc q) = chain_of (v_pc s q)) as Hc by (intros q; destruct Hpc as [E|E]; rewrite E; [done|apply chain_wake_free]).
  assert (∀ q, buf_of (pc q) = buf_of (v_pc s q)) as Hb by (intros q; destruct Hpc as [E|E]; rewrite E; [done|apply buf_wake_free]).
  split; cbn; try apply H.
  - intros q c. rewrite Hc. intros E. pose proof (vi_chain _ H _ _ E) as Hok. eapply chain_ok_frame; [..|exact Hok]; try done.
    intros i Hi. cbn. split; [done|]. apply Hd. by apply (ch_ids _ _ Hok).
  - intros p q c c' i. rewrite !Hc. apply (vi_apart _ H).
  - intros p q b. rewrite !Hb. apply (vi_bufs _ H).
  - intros p. rewrite Hb. apply (vi_nonnull _ H).
  - intros i Hi. rewrite Hf. intros Hi'. destruct (vi_owned _ H i Hi Hi') as (q & c & ? & ?). exists q, c. by rewrite Hc.
  - intros i. rewrite (vi_flight _ H). by setoid_rewrite Hc.
  - intros p b w i0 i1 i2 E. apply (vi_sleep_buf _ H p b w i0 i1 i2). destruct Hpc as [E'|E']; rewrite E' in E; [done|]. by destruct (v_pc s p).
  - intros p b w E. rewrite (nfree_ext s) by done. apply (vi_sleep_free _ H p b w).
    destruct Hpc as [E'|E']; rewrite E' in E; [done|]. by destruct (v_pc s p).
Qed.

Lemma vinv_sleep_free s p b w :
  vinv s → may_ask s p b → (nfree s < 3)%nat → vinv (set_vpc (upd (v_pc s) p (PSleepFree b w)) s).
Proof.
  intros H (Hb & Hp & Hq) Hn.
  assert (∀ q, chain_of (upd (v_pc s) p (PSleepFree b w) q) = chain_of (v_pc s q)) as Hc.
  { intros q. unfold upd. case_decide; [by subst|done]. }
  split; cbn; try apply H.
  - intros q c. rewrite Hc. intros E. by eapply chain_ok_frame, (vi_chain _ H).
  - intros p' q c c' i. rewrite !Hc. apply (vi_apart _ H).
  - intros q q' b'. unfold upd. repeat case_decide; subst; try done.
    + intros [= <-] E. by destruct (Hq q').
    + intros E [= <-]. by destruct (Hq q).
    + apply (vi_bufs _ H).
  - intros q. unfold upd. case_decide; [by intros [= ?]|apply (vi_nonnull _ H)].
  - intros i Hi Hf. destruct (vi_owned _ H i Hi Hf) as (q & c & ? & ?). exists q, c. by rewrite Hc.
  - intros i. rewrite (vi_flight _ H). by setoid_rewrite Hc.
  - intros q b' w' i0 i1 i2. unfold upd. case_decide; [done|]. apply (vi_sleep_buf _ H).
  - intros q b' w'. unfold upd. case_decide; [done|]. apply (vi_sleep_free _ H).
Qed.

(** The state after a request has been submitted and its process sleeps. *)
Definition submitted (p : nat) (c : chain) (f : Z → bool) (s : vst) : vst :=
  VSt (upd (upd (upd (desc s) (c_0 c) (VDesc (AOps (c_0 c)) 16 VRING_DESC_F_NEXT (c_1 c)))
             (c_1 c) (VDesc (AData (c_b c)) BLOCK_BYTES (Z.lor (if c_w c then 0 else VRING_DESC_F_WRITE) VRING_DESC_F_NEXT) (c_2 c)))
        (c_2 c) (VDesc (AStatus (c_0 c)) 1 VRING_DESC_F_WRITE 0))
    (upd (avail_ring s) (avail_idx s mod NUM) (c_0 c)) (u16 (avail_idx s + 1)) (used_ring s) (used_dev_idx s) f (used_idx s)
    (upd (info_b s) (c_0 c) (c_b c)) (upd (info_status s) (c_0 c) 255) (upd (ops s) (c_0 c) (rq_of s c))
    (v_lock s) (upd (b_disk s) (c_b c) 1) (v_data s) (v_blockno s)
    (upd (v_pc s) p (PSleepBuf (c_b c) (c_w c) (c_0 c) (c_1 c) (c_2 c))) (dev_avail s) (dev_taken s) (sectors s).

Lemma wp_rw_try p b w s (Q : unit → vst → Prop) :
  (∀ s', quiet s s' → (nfree s < 3)%nat → Q tt (set_vpc (upd (v_pc s') p (PSleepFree b w)) s')) →
  (∀ c f, c_b c = b → c_w c = w → NoDup (c_ids c) → (∀ i, i ∈ c_ids c → 0 ≤ i < NUM ∧ vfree s i = true) →
     (∀ i, f i = if decide (i ∈ c_ids c) then false else vfree s i) → Q tt (submitted p c f s)) →
  wp (rw_try p b w) Q s.
Proof.
  intros HN HS. unfold rw_try. wp_auto. eapply wp_mono; [apply wp_alloc3_desc|]. intros [idx|] s'.
  - intros (i0 & i1 & i2 & -> & Hnd & Hi & (f & -> & Hf)). unfold rw_submit, rw_wait, go_to. wp_auto. cbn [b_disk set_avail set_info_b set_bdisk].
    rewrite upd_eq. change (1 =? 1) with true. cbv iota. wp_auto. by apply (HS (Chain b w i0 i1 i2) f).
  - intros [Hs' Hn]. unfold go_to. wp_auto. by apply HN.
Qed.

Section Submit.

Context (s : vst) (p : nat) (c : chain) (f : Z → bool) (H : vinv s) (Hask : may_ask s p (c_b c)) (Hnd : NoDup (c_ids c)).

Context (Hids : ∀ i, i ∈ c_ids c → 0 ≤ i < NUM ∧ vfree s i = true).

Context (Hf : ∀ i, f i = if decide (i ∈ c_ids c) then false else vfree s i).

Abbreviation s' := (submitted p c f s).

(** The other requests have other descriptors. *)
Lemma sub_apart q d i : chain_of (v_pc s q) = Some d → i ∈ c_ids d → i ∉ c_ids c.
Proof.
  intros Hd Hi Hi'. destruct (ch_ids _ _ (vi_chain _ H _ _ Hd) i Hi) as [_ E]. rewrite (proj2 (Hids i Hi')) in E. done.
Qed.

Lemma sub_chain : chain_ok s' c.
Proof.
  pose proof Hnd as Hnd'. unfold c_ids in Hnd'. apply NoDup_cons in Hnd' as [N0 N1]. apply NoDup_cons in N1 as [N1 _].
  assert (c_0 c ≠ c_1 c) by set_solver. assert (c_0 c ≠ c_2 c) by set_solver. assert (c_1 c ≠ c_2 c) by set_solver. clear N0 N1.
  split; cbn; rewrite_upd; try done; [apply Hask|]. intros i Hi. rewrite Hf, decide_True by done. split; [by apply Hids|done].
Qed.

Lemma sub_chain_other q d : q ≠ p → chain_of (v_pc s q) = Some d → chain_ok s' d.
Proof.
  intros Hq Hd. pose proof (vi_chain _ H _ _ Hd) as Hok. assert (∀ i, i ∈ c_ids d → i ∉ c_ids c) as Ha by (intros i; by apply (sub_apart q)).
  assert (c_0 d ≠ c_0 c) by (intros E; apply (Ha (c_0 d)); [by left|rewrite E; by left]).
  eapply chain_ok_frame; [..|exact Hok]; cbn; rewrite_upd; try done. intros i Hi. specialize (Ha i Hi). rewrite Hf, decide_False by done.
  split; [done|]. unfold c_ids in Ha. rewrite !upd_ne; set_solver.
Qed.

Lemma sub_new : c_0 c ∉ flight s.
Proof.
  intros (q & d & Hd & E & _)%(vi_flight _ H). apply (sub_apart q d (c_0 c) Hd); [rewrite <- E; by left|by left].
Qed.

Lemma sub_flight : flight s' ≡ₚ c_0 c :: flight s.
Proof.
  unfold flight, used_now. cbn. rewrite ring_push; [solve_Permutation|].
  assert (length (c_0 c :: flight s) ≤ 8)%nat as Hl.
  { apply NoDup_num; [constructor; [apply sub_new|by apply vi_nodup]|]. intros i [->|Hi]%elem_of_cons; [apply Hids; by left|by apply (flight_range s)]. }
  unfold flight in Hl. simpl in Hl. rewrite !length_app in Hl. lia.
Qed.

(** Whose chain a process has. *)
Lemma sub_of q d : chain_of (v_pc s' q) = Some d ↔ (q = p ∧ d = c) ∨ (q ≠ p ∧ chain_of (v_pc s q) = Some d).
Proof.
  cbn. unfold upd. case_decide; [subst|naive_solver]. simpl. replace (Chain _ _ _ _ _) with c by (by destruct c). naive_solver.
Qed.

Lemma sub_buf q : q ≠ p → ∀ d, chain_of (v_pc s q) = Some d → c_b d ≠ c_b c.
Proof. intros Hq d Hd E. destruct Hask as (_ & _ & Hq'). apply (Hq' q Hq). rewrite <- E. by apply chain_buf. Qed.

Lemma vinv_submitted : vinv s'.
Proof.
  pose proof Hask as (Hb & Hp & Hq). pose proof (vi_u16 _ H) as (U1 & U2 & U3 & U4). split.
  - split_and!; try done. apply u16_idem.
  - intros q d [[-> ->]|[? ?]]%sub_of; [apply sub_chain|by eapply sub_chain_other].
  - intros q q' d d' i [[-> ->]|[? Hd]]%sub_of [[-> ->]|[? Hd']]%sub_of Hi Hi'; [done| | |by eapply (vi_apart _ H)].
    + by destruct (sub_apart q' d' i).
    + by destruct (sub_apart q d i).
  - intros q q' b. cbn. unfold upd. repeat case_decide; subst; try done.
    + intros [= <-] E. by destruct (Hq q').
    + intros E [= <-]. by destruct (Hq q).
    + apply (vi_bufs _ H).
  - intros q. cbn. unfold upd. case_decide; [by intros [= ?]|apply (vi_nonnull _ H)].
  - intros i Hi. cbn. rewrite Hf. case_decide; intros Hv; [exists p, c; split; [by apply sub_of; left|done]|].
    destruct (vi_owned _ H i Hi Hv) as (q & d & Hd & ?). exists q, d. split; [|done]. apply sub_of. right. split; [|done].
    intros ->. congruence.
  - rewrite sub_flight. constructor; [apply sub_new|by apply vi_nodup].
  - intros i. rewrite sub_flight, elem_of_cons, (vi_flight _ H). split.
    + intros [->|(q & d & Hd & <- & Hdb)]; [exists p, c; split_and!; [by apply sub_of; left|done|cbn; by rewrite upd_eq]|].
      assert (q ≠ p) by (intros ->; congruence). exists q, d. split_and!; [by apply sub_of; right|done|]. cbn. rewrite upd_ne; [done|]. by apply (sub_buf q).
    + intros (q & d & [[-> ->]|[Hne Hd]]%sub_of & <- & Hdb); [by left|]. right. exists q, d. split_and!; [done..|].
      cbn in Hdb. rewrite upd_ne in Hdb; [done|]. by apply (sub_buf q).
  - intros i Hi. cbn. rewrite upd_ne; [by apply (vi_status _ H)|]. intros ->. apply sub_new. unfold flight. change (used_now s') with (used_now s) in Hi. set_solver.
  - intros q b w i0 i1 i2. cbn. unfold upd at 1. case_decide; [intros [= <- _ _ _ _]; apply upd_eq|]. intros Eq.
    rewrite upd_ne; [by eapply (vi_sleep_buf _ H)|]. by apply (sub_buf q) with (d := Chain b w i0 i1 i2); [|rewrite Eq].
  - intros q b w. cbn. unfold upd. case_decide; [done|]. intros Eq. eapply Nat.le_lt_trans; [|by eapply (vi_sleep_free _ H)].
    apply nfree_le. intros i Hi. cbn. rewrite Hf. case_decide; [done|]. intros Hv. apply list_elem_of_filter. split; [done|]. apply elem_of_seqZ. lia.
  - apply (vi_blockno _ H).
Qed.

End Submit.

(** ** The end of a transfer *)

(** The state after process [p] has given the descriptors of [c] back. *)
Definition returned (p : nat) (c : chain) (s s' : vst) : Prop :=
  ∃ d f pc, s' = with_parts d f pc (set_info_b (c_0 c) 0 s) ∧
    (∀ i, i ∉ c_ids c → d i = desc s i) ∧ (∀ i, f i = if decide (i ∈ c_ids c) then true else vfree s i) ∧
    pc p = PIdle ∧ (∀ q, q ≠ p → pc q = wake_free (v_pc s q)).

Lemma wp_rw_wait p b w i0 i1 i2 s (Q : unit → vst → Prop) :
  chain_ok s (Chain b w i0 i1 i2) →
  (b_disk s b = 1 → Q tt (set_vpc (upd (v_pc s) p (PSleepBuf b w i0 i1 i2)) s)) →
  (∀ s', b_disk s b ≠ 1 → returned p (Chain b w i0 i1 i2) s s' → Q tt s') → wp (rw_wait p b w i0 i1 i2) Q s.
Proof.
  intros Hok H1 H2. unfold rw_wait. wp_auto. destruct (Z.eqb_spec (b_disk s b) 1) as [E|E]; unfold go_to; wp_auto; [auto|].
  apply (wp_free_chain (Chain b w i0 i1 i2) s); [done..|]. intros s' (d & f & pc & -> & Hd & Hf & Hpc). wp_auto.
  apply H2; [done|]. exists d, f, (upd pc p PIdle). split_and!; [done| |done|apply upd_eq|].
  - intros i Hi. by rewrite Hd, decide_False.
  - intros q Hq. rewrite upd_ne by done. by rewrite Hpc.
Qed.

Lemma vinv_wait_again p b w i0 i1 i2 s :
  vinv s → v_pc s p = PCheckBuf b w i0 i1 i2 → b_disk s b = 1 → vinv (set_vpc (upd (v_pc s) p (PSleepBuf b w i0 i1 i2)) s).
Proof.
  intros H Hp Hb.
  assert (∀ q, chain_of (upd (v_pc s) p (PSleepBuf b w i0 i1 i2) q) = chain_of (v_pc s q)) as Hc.
  { intros q. unfold upd. case_decide; [subst; by rewrite Hp|done]. }
  assert (∀ q, buf_of (upd (v_pc s) p (PSleepBuf b w i0 i1 i2) q) = buf_of (v_pc s q)) as Hbf.
  { intros q. unfold upd. case_decide; [subst; by rewrite Hp|done]. }
  split; cbn; try apply H.
  - intros q c. rewrite Hc. intros E. by eapply chain_ok_frame, (vi_chain _ H).
  - intros p' q c c' i. rewrite !Hc. apply (vi_apart _ H).
  - intros q q' b'. rewrite !Hbf. apply (vi_bufs _ H).
  - intros q. rewrite Hbf. apply (vi_nonnull _ H).
  - intros i Hi Hf. destruct (vi_owned _ H i Hi Hf) as (q & c & ? & ?). exists q, c. by rewrite Hc.
  - intros i. rewrite (vi_flight _ H). by setoid_rewrite Hc.
  - intros q b' w' j0 j1 j2. unfold upd. case_decide; [by intros [= <- <- <- <- <-]|]. apply (vi_sleep_buf _ H).
  - intros q b' w'. unfold upd. case_decide; [done|]. apply (vi_sleep_free _ H).
Qed.

Lemma vinv_returned p c s s' :
  vinv s → chain_of (v_pc s p) = Some c → b_disk s (c_b c) ≠ 1 → returned p c s s' → vinv s'.
Proof.
  intros H Hp Hb (d & f & pc & -> & Hd & Hf & Hpp & Hpq).
  assert (∀ q e, chain_of (pc q) = Some e ↔ q ≠ p ∧ chain_of (v_pc s q) = Some e) as Hc.
  { intros q e. destruct (decide (q = p)) as [->|Hq]; [rewrite Hpp; naive_solver|]. rewrite Hpq, chain_wake_free by done. naive_solver. }
  assert (∀ q x, buf_of (pc q) = Some x ↔ q ≠ p ∧ buf_of (v_pc s q) = Some x) as Hbf.
  { intros q e. destruct (decide (q = p)) as [->|Hq]; [rewrite Hpp; naive_solver|]. rewrite Hpq, buf_wake_free by done. naive_solver. }
  assert (∀ q e i, q ≠ p → chain_of (v_pc s q) = Some e → i ∈ c_ids e → i ∉ c_ids c) as Ha.
  { intros q e i Hq He Hi Hi'. apply Hq. by eapply (vi_apart _ H). }
  split; cbn; try apply H.
  - intros q e [Hq He]%Hc. pose proof (vi_chain _ H _ _ He) as Hok. eapply chain_ok_frame; [..|exact Hok]; cbn; try done.
    + intros i Hi. pose proof (Ha q e i Hq He Hi). rewrite Hf, Hd, decide_False by done. done.
    + rewrite upd_ne; [done|]. intros E. apply (Ha q e (c_0 e) Hq He); [by left|rewrite E; by left].
  - intros q q' e e' i [Hq He]%Hc [Hq' He']%Hc. by apply (vi_apart _ H q q' e e' i).
  - intros q q' x [Hq He]%Hbf [Hq' He']%Hbf. by apply (vi_bufs _ H q q' x).
  - intros q [_ Hq]%Hbf. by apply (vi_nonnull _ H q).
  - intros i Hi. rewrite Hf. case_decide as Hin; [done|]. intros Hv. destruct (vi_owned _ H i Hi Hv) as (q & e & He & Hie).
    exists q, e. split; [|done]. apply Hc. split; [|done]. intros ->. congruence.
  - intros i. rewrite (vi_flight _ H). split; intros (q & e & He & <- & Hdb).
    + exists q, e. split_and!; [|done..]. apply Hc. split; [|done]. intros ->. congruence.
    + apply Hc in He as [_ He]. by exists q, e.
  - intros q b w i0 i1 i2 E. destruct (decide (q = p)) as [->|Hq]; [congruence|]. rewrite Hpq in E by done.
    apply (vi_sleep_buf _ H q b w i0 i1 i2). by destruct (v_pc s q).
  - intros q b w E. destruct (decide (q = p)) as [->|Hq]; [congruence|]. rewrite Hpq in E by done. by destruct (v_pc s q).
Qed.

Lemma may_ask_quiet s s' p b : quiet s s' → may_ask s p b → may_ask s' p b.
Proof.
  intros (d & f & pc & -> & _ & _ & Hpc) (Hb & Hp & Hq). split_and!; [done|..]; cbn.
  - destruct Hpc as [E|E]; rewrite E; [done|by rewrite chain_wake_free].
  - intros q Hne. destruct Hpc as [E|E]; rewrite E; [by apply Hq|rewrite buf_wake_free; by apply Hq].
Qed.

Lemma rw_try_inv p b w s : vinv s → may_ask s p b → wp (rw_try p b w) (λ _ s', vinv s') s.
Proof.
  intros H Ha. apply wp_rw_try.
  - intros s' Hq Hn. apply vinv_sleep_free; [by eapply vinv_quiet|by eapply may_ask_quiet|].
    destruct Hq as (d & f & pc & -> & _ & Hf & _). by rewrite (nfree_ext s).
  - intros c f <- <- Hnd Hids Hf. by apply vinv_submitted.
Qed.

Lemma rw_wait_inv p b w i0 i1 i2 s :
  vinv s → v_pc s p = PCheckBuf b w i0 i1 i2 → wp (rw_wait p b w i0 i1 i2) (λ _ s', vinv s') s.
Proof.
  intros H Hp. assert (chain_of (v_pc s p) = Some (Chain b w i0 i1 i2)) as Hc by (by rewrite Hp).
  apply wp_rw_wait; [by eapply (vi_chain _ H)|intros; by apply vinv_wait_again|]. intros s' Hb Hr. by eapply (vinv_returned p).
Qed.

(** The invariant holds in every step. *)
Lemma vstep_inv device s s' : (∀ t t', device t t' → device_step t t') → vstep device s s' → vinv s → vinv s'.
Proof.
  intros Hdev Hs H. destruct Hs as [p b w s s' Hp Hb Hq _ E|p b w s s' Hp _ E|p b w i0 i1 i2 s s' Hp _ E|s _|s s' _ E|b d n s Hq Hn|s s' E].
  - refine (wp_result _ _ _ _ _ (rw_try_inv p b w s H _) E). by apply may_ask_idle.
  - refine (wp_result _ _ _ _ _ (rw_try_inv p b w s H _) E). by eapply may_ask_retry.
  - exact (wp_result _ _ _ _ _ (rw_wait_inv p b w i0 i1 i2 s H Hp) E).
  - apply (vinv_flight s); try done; apply H.
  - exact (wp_result _ _ _ _ _ (intr_round_inv s H) E).
  - apply (vinv_flight s); try done; try apply H; cbn.
    + intros q x Hx. rewrite upd_ne; [done|]. intros ->. by apply (Hq q).
    + intros x. unfold upd. case_decide; [done|apply (vi_blockno _ H)].
  - apply Hdev in E. by eapply device_inv.
Qed.

(** * The abstract disk *)

(** A process is outside, has asked for a transfer, or its transfer is done. *)
Inductive apc : Set :=
  | AIdle
  | APend (b : Z) (write : bool)
  | ADone (b : Z) (write : bool).

Record ast := ASt {
  a_pc : nat → apc;
  a_data : Z → list Z;
  a_blockno : Z → Z;
  a_disk : Z → list Z }.

#[export] Instance ast_equiv : Equiv ast := λ a a',
  (∀ p, a_pc a p = a_pc a' p) ∧ (∀ b, a_data a b = a_data a' b) ∧ (∀ b, a_blockno a b = a_blockno a' b) ∧
  (∀ n, 0 ≤ n < 2 ^ 31 → a_disk a n = a_disk a' n).

#[export] Instance ast_equivalence : Equivalence (≡@{ast}).
Proof.
  split.
  - by intros a.
  - intros a a' (H1 & H2 & H3 & H4). split_and!; intros; symmetry; auto.
  - intros a a' a'' (H1 & H2 & H3 & H4) (E1 & E2 & E3 & E4). split_and!; intros; [by rewrite H1|by rewrite H2|by rewrite H3|by rewrite H4, E4].
Qed.

Definition abuf (p : apc) : option Z := match p with AIdle => None | APend b _ | ADone b _ => Some b end.

(** The block of a buffer is read or written at once. *)
Definition transfer (b : Z) (write : bool) (a : ast) : ast :=
  let n := a_blockno a b in
  ASt (a_pc a) (if write then a_data a else upd (a_data a) b (a_disk a n)) (a_blockno a)
    (if write then upd (a_disk a) n (a_data a b) else a_disk a).

Definition set_apc (p : nat) (x : apc) (a : ast) : ast := ASt (upd (a_pc a) p x) (a_data a) (a_blockno a) (a_disk a).

Definition set_abuf (b : Z) (d : list Z) (n : Z) (a : ast) : ast := ASt (a_pc a) (upd (a_data a) b d) (upd (a_blockno a) b n) (a_disk a).

(** Every call makes one transfer between its start and its return. *)
Inductive astep : ast → ast → Prop :=
  | a_call p b w a a' : a_pc a p = AIdle → (∀ q, abuf (a_pc a q) ≠ Some b) → a' ≡ set_apc p (APend b w) a → astep a a'
  | a_transfer p b w a a' : a_pc a p = APend b w → a' ≡ set_apc p (ADone b w) (transfer b w a) → astep a a'
  | a_return p b w a a' : a_pc a p = ADone b w → a' ≡ set_apc p AIdle a → astep a a'
  | a_edit b d n a a' : (∀ q, abuf (a_pc a q) ≠ Some b) → a' ≡ set_abuf b d n a → astep a a'
  | a_stutter a a' : a' ≡ a → astep a a'.

(** ** Abstraction *)

(** A request is done when the device has put it on the used ring. *)
Definition abs_pc (s : vst) (p : rwpc) : apc :=
  match p with
  | PIdle => AIdle
  | PSleepFree b w | PRetry b w => APend b w
  | PSleepBuf b w i _ _ | PCheckBuf b w i _ _ => if decide (b_disk s b = 1 ∧ i ∉ used_now s) then APend b w else ADone b w
  end.

Definition abs (s : vst) : ast :=
  ASt (λ p, abs_pc s (v_pc s p)) (v_data s) (v_blockno s) (λ n, sectors s (2 * n) ++ sectors s (2 * n + 1)).

Lemma abuf_abs s p : abuf (abs_pc s p) = buf_of p.
Proof. destruct p; simpl; try case_decide; done. Qed.

Lemma abs_wake_free s p : abs_pc s (wake_free p) = abs_pc s p.
Proof. by destruct p. Qed.

Lemma abs_wake_buf s b p : abs_pc s (wake_buf b p) = abs_pc s p.
Proof. destruct p; simpl; try case_match; done. Qed.

Lemma abs_quiet s s' : quiet s s' → abs s' ≡ abs s.
Proof.
  intros (d & f & pc & -> & _ & _ & Hpc). split_and!; try done. intros p. cbn.
  change (abs_pc (with_parts d f pc s)) with (abs_pc s). destruct Hpc as [E|E]; rewrite E; [done|apply abs_wake_free].
Qed.

Lemma abs_submitted s p c f :
  vinv s → may_ask s p (c_b c) → (∀ i, i ∈ c_ids c → 0 ≤ i < NUM ∧ vfree s i = true) →
  abs (submitted p c f s) ≡ set_apc p (APend (c_b c) (c_w c)) (abs s).
Proof.
  intros H Ha Hids. split_and!; try done. intros q. cbn. change (used_now (submitted p c f s)) with (used_now s).
  unfold upd at 2. destruct (decide (q = p)) as [->|Hq].
  - rewrite !upd_eq. simpl. rewrite decide_True; [done|]. split; [apply upd_eq|]. intros Hi. apply (sub_new s c H Hids).
    unfold flight. change (used_now (submitted p c f s)) with (used_now s) in Hi. set_solver.
  - rewrite upd_ne by done. assert (∀ d, chain_of (v_pc s q) = Some d → c_b d ≠ c_b c) as Hb by (by apply (sub_buf s p c Ha)).
    destruct (v_pc s q) as [| | |b w i0 i1 i2|b w i0 i1 i2]; simpl in *; try done; specialize (Hb _ eq_refl); simpl in Hb; by rewrite upd_ne.
Qed.

Lemma rw_try_abs p b w s : vinv s → may_ask s p b → wp (rw_try p b w) (λ _ s', abs s' ≡ set_apc p (APend b w) (abs s)) s.
Proof.
  intros H Ha. apply wp_rw_try.
  - intros s' Hq _. apply abs_quiet in Hq as (E1 & E2 & E3 & E4). split_and!; try done. intros q. cbn.
    change (abs_pc (set_vpc (upd (v_pc s') p (PSleepFree b w)) s')) with (abs_pc s'). unfold upd. case_decide; [done|]. apply E1.
  - intros c f <- <- _ Hids _. by apply abs_submitted.
Qed.

Lemma rw_wait_abs p b w i0 i1 i2 s :
  vinv s → v_pc s p = PCheckBuf b w i0 i1 i2 →
  wp (rw_wait p b w i0 i1 i2) (λ _ s', abs s' ≡ abs s ∨ (a_pc (abs s) p = ADone b w ∧ abs s' ≡ set_apc p AIdle (abs s))) s.
Proof.
  intros H Hp. assert (chain_of (v_pc s p) = Some (Chain b w i0 i1 i2)) as Hc by (by rewrite Hp).
  apply wp_rw_wait; [by eapply (vi_chain _ H)|intros Hb; left|intros s' Hb (d & f & pc & -> & _ & _ & Hpp & Hpq); right].
  - split_and!; try done. intros q. cbn. change (abs_pc (set_vpc (upd (v_pc s) p (PSleepBuf b w i0 i1 i2)) s)) with (abs_pc s).
    unfold upd. case_decide; [subst; by rewrite Hp|done].
  - split; [cbn; rewrite Hp; simpl; by rewrite decide_False by tauto|]. split_and!; try done. intros q. cbn.
    match goal with |- abs_pc ?x _ = _ => change (abs_pc x) with (abs_pc s) end.
    unfold upd. case_decide; [subst; by rewrite Hpp|]. by rewrite Hpq, abs_wake_free.
Qed.

Lemma intr_round_abs s : vinv s → wp intr_round (λ _ s', abs s' ≡ abs s) s.
Proof.
  intros H. apply wp_intr_round; [done..|]. intros p c Hc Hb Ew. split_and!; try done. intros q. cbn. rewrite abs_wake_buf.
  assert (∀ d, chain_of (v_pc s q) = Some d →
    (b_disk (seen c s) (c_b d) = 1 ∧ c_0 d ∉ used_now (seen c s)) ↔ (b_disk s (c_b d) = 1 ∧ c_0 d ∉ used_now s)) as Hd.
  { intros d Hd. rewrite Ew. cbn. destruct (decide (q = p)) as [->|Hq].
    - assert (d = c) as -> by congruence. rewrite upd_eq. split; [by intros []|]. intros [_ []]. by left.
    - destruct (seen_other p c q d s H Hc Hd Hq). rewrite upd_ne by done. set_solver. }
  destruct (v_pc s q) as [| | |b w i0 i1 i2|b w i0 i1 i2]; try done; specialize (Hd _ eq_refl); simpl in *; by apply decide_ext.
Qed.

(** What the device does. *)
Lemma request_chain s c rq b k : chain_ok s c → request s (c_0 c) rq b k → rq = rq_of s c ∧ b = c_b c ∧ k = c_0 c.
Proof.
  intros [_ _ _ D0 D1 D2 _ Ho] Hrq. unfold request in Hrq. rewrite D0 in Hrq. cbn in Hrq. rewrite D1 in Hrq. cbn in Hrq.
  rewrite D2 in Hrq. cbn in Hrq. destruct Hrq as ((j & [= <-] & <-) & _ & _ & [= <-] & _ & _ & [= <-] & _). done.
Qed.

Lemma chain_request s c : chain_ok s c → request s (c_0 c) (rq_of s c) (c_b c) (c_0 c).
Proof.
  intros [_ _ _ D0 D1 D2 _ Ho]. unfold request. rewrite D0. cbn. rewrite D1. cbn. rewrite D2. cbn. split_and!; try done; [by exists (c_0 c)|].
  destruct (c_w c); [by left|by right].
Qed.

Lemma sector_of_small n : 0 ≤ n < 2 ^ 31 → sector_of n = 2 * n.
Proof. intros Hn. unfold sector_of, u32. change (BLOCK_BYTES / SECTOR_BYTES) with 2. rewrite Z.mod_small; lia. Qed.

(** The transfer itself. *)
Lemma abs_move s c :
  (∀ b, 0 ≤ v_blockno s b < 2 ^ 31) →
  let s1 := dev_move (rq_of s c) (c_b c) s in let a1 := transfer (c_b c) (c_w c) (abs s) in
  (∀ b, v_data s1 b = a_data a1 b) ∧ (∀ n, 0 ≤ n < 2 ^ 31 → sectors s1 (2 * n) ++ sectors s1 (2 * n + 1) = a_disk a1 n).
Proof.
  intros Hn. cbn. rewrite sector_of_small by done. pose proof (Hn (c_b c)) as Hb. set (m := v_blockno s (c_b c)) in *.
  destruct (c_w c); cbn; (split; [done|]); intros n Hn'; [|done]. unfold upd. destruct (decide (n = m)) as [->|Hne].
  - rewrite (decide_False (P := 2 * m = 2 * m + 1)) by lia. rewrite !decide_True by done. apply take_drop.
  - by rewrite !decide_False by lia.
Qed.

Lemma device_abs s s' : device_step s s' → vinv s → astep (abs s) (abs s').
Proof.
  intros [s0 Hne|s0 h l1 l2 rq b k Ht Hrq] H; [by apply a_stutter|].
  assert (h ∈ flight s0) as Hh by (unfold flight; rewrite Ht; set_solver).
  pose proof (vi_flight _ H h) as [(p & c & Hc & <- & Hb) _]; [done|].
  destruct (request_chain s0 c rq b k (vi_chain _ H _ _ Hc) Hrq) as (-> & -> & ->).
  pose proof (abs_move s0 c (vi_blockno _ H)) as [Hd1 Hd2].
  assert (c_0 c ∉ used_now s0) as Hu.
  { intros Hu. pose proof (vi_nodup _ H) as Hnd. unfold flight in Hnd. apply NoDup_app in Hnd as (_ & _ & Hnd).
    apply NoDup_app in Hnd as (_ & Hnd & _). apply (Hnd (c_0 c)); [rewrite Ht; set_solver|done]. }
  set (s1 := dev_move (rq_of s0 c) (c_b c) s0) in *. set (s2 := dev_finish (c_0 c) (c_0 c) (l1 ++ l2) s1).
  assert (used_now s2 = used_now s0 ++ [c_0 c]) as Ew.
  { unfold used_now. cbn. apply ring_push. pose proof (flight_length _ H) as Hl. unfold flight, used_now in Hl.
    rewrite Ht, !length_app in Hl. simpl in Hl. lia. }
  assert (abs_pc s0 (v_pc s0 p) = APend (c_b c) (c_w c)) as Hp.
  { destruct (v_pc s0 p); simplify_eq/=; by rewrite decide_True. }
  apply (a_transfer p (c_b c) (c_w c)); [done|]. split_and!; try done. intros q. cbn. unfold upd. destruct (decide (q = p)) as [->|Hq].
  - destruct (v_pc s0 p); simplify_eq/=; rewrite decide_False; try done; rewrite Ew; set_solver.
  - assert (∀ d, chain_of (v_pc s0 q) = Some d → c_0 d ∈ used_now s2 ↔ c_0 d ∈ used_now s0) as Hd.
    { intros d Hd. destruct (seen_other p c q d s0 H Hc Hd Hq). rewrite Ew. set_solver. }
    destruct (v_pc s0 q) as [| | |b w i0 i1 i2|b w i0 i1 i2]; try done; specialize (Hd _ eq_refl); simpl in *; apply decide_ext; by rewrite Hd.
Qed.

Lemma vstep_abs device s s' : (∀ t t', device t t' → device_step t t') → vstep device s s' → vinv s → astep (abs s) (abs s').
Proof.
  intros Hdev Hs H. destruct Hs as [p b w s s' Hp Hb Hq _ E|p b w s s' Hp _ E|p b w i0 i1 i2 s s' Hp _ E|s _|s s' _ E|b d n s Hq Hn|s s' E].
  - pose proof (wp_result _ _ _ _ _ (rw_try_abs p b w s H (may_ask_idle _ _ _ Hb Hp Hq)) E) as Ha.
    apply (a_call p b w); [cbn; by rewrite Hp| |done]. intros q. cbn. rewrite abuf_abs. apply Hq.
  - pose proof (wp_result _ _ _ _ _ (rw_try_abs p b w s H (may_ask_retry _ _ _ _ H Hp)) E) as Ha. apply a_stutter. rewrite Ha.
    split_and!; try done. intros q. cbn. unfold upd. case_decide; [subst; by rewrite Hp|done].
  - destruct (wp_result _ _ _ _ _ (rw_wait_abs p b w i0 i1 i2 s H Hp) E) as [Ha|[Hd Ha]]; [by apply a_stutter|by apply (a_return p b w)].
  - by apply a_stutter.
  - apply a_stutter. exact (wp_result _ _ _ _ _ (intr_round_abs s H) E).
  - apply (a_edit b d n); [|done]. intros q. cbn. rewrite abuf_abs. apply Hq.
  - apply Hdev in E. by apply device_abs.
Qed.

(** * Initialisation *)

(** No process is in the driver, and the device has been reset. *)
Record ready (s : vst) : Prop := {
  rd_idle : ∀ p, v_pc s p = PIdle;
  rd_device : dev_avail s = 0 ∧ dev_taken s = [];
  rd_blockno : ∀ b, 0 ≤ v_blockno s b < 2 ^ 31 }.

(** What [virtio_disk_init] leaves. *)
Definition started (s : vst) : Prop :=
  ready s ∧ avail_idx s = 0 ∧ used_dev_idx s = 0 ∧ used_idx s = 0 ∧ v_lock s = false ∧ ∀ i, 0 ≤ i < NUM → vfree s i = true.

Lemma started_inv s : started s → vinv s.
Proof.
  intros ([Hidle (Ea & Et) Hb] & E1 & E2 & E3 & _ & Hf).
  assert (flight s = []) as Efl by (unfold flight, used_now; by rewrite Ea, Et, E1, E2, E3, !(window_empty NUM (2 ^ 16) eq_refl)).
  split; try done.
  - by rewrite Ea, E1, E2, E3.
  - intros p c. by rewrite Hidle.
  - intros p q c d i. by rewrite Hidle.
  - intros p q b. by rewrite Hidle.
  - intros p. by rewrite Hidle.
  - intros i Hi. by rewrite Hf.
  - rewrite Efl. constructor.
  - intros i. rewrite Efl. split; [by intros ?%elem_of_nil|]. intros (p & c & Hc & _). by rewrite Hidle in Hc.
  - intros i. unfold used_now. rewrite E2, E3, (window_empty NUM (2 ^ 16) eq_refl). by intros ?%elem_of_nil.
  - intros p b w i0 i1 i2. by rewrite Hidle.
  - intros p b w. by rewrite Hidle.
Qed.

(** A device that answers as the driver wants. *)
Record good_device (rd : list (Z * Z) → Z → Z) : Prop := {
  gd_id : ∀ l, rd l VIRTIO_MMIO_MAGIC_VALUE = 0x74726976 ∧ rd l VIRTIO_MMIO_VERSION = 2 ∧ rd l VIRTIO_MMIO_DEVICE_ID = 2 ∧
    rd l VIRTIO_MMIO_VENDOR_ID = 0x554d4551;
  gd_features : ∀ l, Z.land (rd l VIRTIO_MMIO_STATUS) VIRTIO_CONFIG_S_FEATURES_OK ≠ 0;
  gd_queue : ∀ l, rd l VIRTIO_MMIO_QUEUE_READY = 0 ∧ NUM ≤ rd l VIRTIO_MMIO_QUEUE_NUM_MAX }.

Lemma wp_on_disk f m s (Q : unit → initst → Prop) : Q tt (InitSt m (f s)) → wp (on_disk f) Q (InitSt m s).
Proof. intros HQ. unfold on_disk. by wp_auto. Qed.

Lemma wp_init_loop m s (Q : unit → initst → Prop) :
  (∀ f, (∀ i, 0 ≤ i < NUM → f i = true) → Q tt (InitSt m (with_parts (desc s) f (v_pc s) s))) →
  wp (for_range 0 NUM (λ i, on_disk (set_free i true))) Q (InitSt m s).
Proof.
  intros HQ. apply (wp_for_range (λ n t, ∃ f, (∀ i, 0 ≤ i < n → f i = true) ∧ t = InitSt m (with_parts (desc s) f (v_pc s) s))).
  - done.
  - exists (vfree s). split; [lia|]. by destruct s.
  - intros n t Hn (f & Hf & ->). unfold on_disk. wp_auto. exists (upd f n true). split; [|done].
    intros i Hi. unfold upd. case_decide; [done|]. apply Hf. lia.
  - intros t (f & Hf & ->). auto.
Qed.

Lemma wp_write_reg r x m s (Q : unit → initst → Prop) : (∀ m', Q tt (InitSt m' s)) → wp (write_reg r x) Q (InitSt m s).
Proof. intros HQ. unfold write_reg. wp_auto. apply HQ. Qed.

Lemma wp_read_reg rd r m s (Q : Z → initst → Prop) : Q (rd m r) (InitSt m s) → wp (read_reg rd r) Q (InitSt m s).
Proof. intros HQ. unfold read_reg. by wp_auto. Qed.

(** The steps of the initialisation; what was written no longer matters. *)
Ltac init_auto :=
  repeat (wp_auto; match goal with
  | |- wp (on_disk _) _ _ => apply wp_on_disk
  | |- wp (write_reg _ _) _ (InitSt ?m _) => apply wp_write_reg; clear m; intros m
  | |- wp (read_reg _ _) _ _ => apply wp_read_reg
  end); wp_auto.

Lemma wp_init_queue d v u m s (Q : unit → initst → Prop) :
  d ≠ 0 → v ≠ 0 → u ≠ 0 → (∀ m', Q tt (InitSt m' (zero_queue s))) → wp (init_queue (d, v, u)) Q (InitSt m s).
Proof.
  intros Hd Hv Hu HQ. unfold init_queue. rewrite (proj2 (Z.eqb_neq d 0)), (proj2 (Z.eqb_neq v 0)), (proj2 (Z.eqb_neq u 0)) by done.
  init_auto. apply HQ.
Qed.

Lemma wp_virtio_disk_init rd a d v u m s :
  good_device rd → a ≠ 0 → d ≠ 0 → v ≠ 0 → u ≠ 0 → ready s →
  wp (virtio_disk_init rd a (d, v, u)) (λ _ s', started (i_disk s') ∧ sectors (i_disk s') = sectors s) (InitSt m s).
Proof.
  intros [Hid Hfe Hq] Ha Hd Hv Hu [Hidle Hdev Hb]. unfold virtio_disk_init. rewrite (proj2 (Z.eqb_neq a 0)) by done.
  init_auto. destruct (Hid m) as (-> & -> & -> & ->). cbn [Z.eqb negb orb Pos.eqb]. cbv zeta. init_auto.
  rewrite (proj2 (Z.eqb_neq (Z.land _ _) 0)) by apply Hfe. generalize (rd m VIRTIO_MMIO_STATUS). intros status. init_auto.
  destruct (Hq m) as [-> Hmax]. cbn [Z.eqb negb]. init_auto.
  rewrite (proj2 (Z.eqb_neq _ 0)), (proj2 (Z.ltb_ge _ NUM)) by (unfold NUM in *; lia). init_auto.
  apply wp_init_queue; [done..|]. intros m'. apply wp_bind. apply wp_init_loop. intros f Hf. init_auto. split; [|done]. by split_and!.
Qed.

(** * The properties *)

Lemma reach_inv device s0 s :
  (∀ t t', device t t' → device_step t t') → started s0 → rtc (vstep device) s0 s → vinv s.
Proof.
  intros Hd H0 Hs. apply started_inv in H0. induction Hs as [|s0 s1 s2 H1 _ IH]; [done|]. apply IH. by eapply vstep_inv.
Qed.

Lemma wp_total {S} (m : prog S unit) Q s : wp m Q s → ∃ s', m s = Ok (tt, s').
Proof. unfold wp. destruct (m s) as [[[] s']| | |]; [eauto|done..]. Qed.

(** C26: for every number of processes and every interleaving of their calls
    with the interrupt handler and a device that follows the virtio
    specification, [virtio_disk_rw] transfers exactly one block: each call
    takes effect at one moment between its start and its return, when its
    buffer is exchanged with its block of the disk, and no other buffer or block
    changes. *)
Theorem disk_refines_transfers device s0 s :
  (∀ t t', device t t' → device_step t t') → started s0 → rtc (vstep device) s0 s → rtc astep (abs s0) (abs s).
Proof.
  intros Hd H0 Hs. apply started_inv in H0. induction Hs as [|s0 s1 s2 H1 _ IH]; [done|].
  eapply rtc_l; [by eapply vstep_abs|]. apply IH. by eapply vstep_inv.
Qed.

(** The driver after start-up: all buffers empty, block [b] for buffer [b]. *)
Definition first_disk : vst :=
  VSt (λ _, zero_desc) (λ _, 0) 0 (λ _, 0) 0 (λ _, true) 0 (λ _, 0) (λ _, 0) (λ _, VReq 0 0 0) false (λ _, 0)
    (λ b, [b]) (λ b, b mod 2 ^ 31) (λ _, PIdle) 0 [] (λ n, [n]).

Lemma first_disk_started : started first_disk.
Proof. split; [split; [done|done|]|done]. intros b. cbn. apply Z.mod_pos_bound. lia. Qed.

Definition after {B} (m : prog vst B) (s : vst) : vst := match m s with Ok (_, s') => s' | _ => s end.

Lemma after_ok (m : prog vst unit) s : (match m s with Ok _ => true | _ => false end) = true → m s = Ok (tt, after m s).
Proof. unfold after. by destruct (m s) as [[[] s']| | |]. Qed.

(** Process 0 writes buffer 5, and the device serves the request. *)
Definition asked : vst := after (rw_try 0 5 true) first_disk.

Definition moved : vst := dev_finish 0 0 [] (dev_move (VReq 1 0 10) 5 (dev_take asked)).

Lemma disk_refines_transfers_witness :
  rtc astep (abs first_disk) (abs moved) ∧ a_pc (abs moved) 0%nat = ADone 5 true ∧ a_disk (abs moved) 5 = [5].
Proof.
  split; [|split; vm_compute; reflexivity].
  apply (disk_refines_transfers device_step first_disk moved); [done|exact first_disk_started|].
  eapply (rtc_l _ _ asked).
  { eapply (v_call _ 0 5 true); [done..| |done|]; [intros q; done|]. apply after_ok. vm_compute. reflexivity. }
  eapply (rtc_l _ _ (dev_take asked)); [apply v_device, dev_takes; vm_compute; discriminate|]. apply rtc_once, v_device.
  apply (dev_finishes (dev_take asked) 0 [] [] (VReq 1 0 10) 5 0); [vm_compute; reflexivity|].
  split; [exists 0; split; vm_compute; reflexivity|]. repeat split; try (vm_compute; reflexivity). left. split; vm_compute; reflexivity.
Defined.


