(* ===== verification/Console.v ===== *)
(** The console (kernel/console.c) and the serial line under it (kernel/uart.c):
    line editing in the interrupt handler, reads by processes that sleep until
    a line has arrived, and output that waits for the transmitter. *)

From S2P Require Import Prelude.

(** * Data *)

Definition BACKSPACE : Z := 0x100.

Definition INPUT_BUF_SIZE : Z := 128.

(** Control characters, and C('P'), C('U'), C('H'), C('D'). *)
Definition NEWLINE : Z := 10.

Definition RETURN : Z := 13.

Definition DELETE : Z := 127.

Definition CTRL (x : Z) : Z := x - 64.

Definition C_P : Z := CTRL 80.

Definition C_U : Z := CTRL 85.

Definition C_H : Z := CTRL 72.

Definition C_D : Z := CTRL 68.

(** [cons], with the number of calls of [wakeup(&cons.r)]; the transmitter:
    [tx_busy], the bytes written to its register so far and the calls of
    [wakeup(&tx_chan)]; and the bytes the receiver has waiting. *)
Record consst := ConsSt {
  cbuf : Z → Z;
  c_r : Z;
  c_w : Z;
  c_e : Z;
  c_wakes : nat;
  tx_busy : bool;
  tx_out : list Z;
  tx_wakes : nat;
  rx : list Z }.

Definition set_cbuf (f : Z → Z) (s : consst) : consst :=
  ConsSt f (c_r s) (c_w s) (c_e s) (c_wakes s) (tx_busy s) (tx_out s) (tx_wakes s) (rx s).

Definition set_r (x : Z) (s : consst) : consst :=
  ConsSt (cbuf s) x (c_w s) (c_e s) (c_wakes s) (tx_busy s) (tx_out s) (tx_wakes s) (rx s).

Definition set_w (x : Z) (s : consst) : consst :=
  ConsSt (cbuf s) (c_r s) x (c_e s) (c_wakes s) (tx_busy s) (tx_out s) (tx_wakes s) (rx s).

Definition set_e (x : Z) (s : consst) : consst :=
  ConsSt (cbuf s) (c_r s) (c_w s) x (c_wakes s) (tx_busy s) (tx_out s) (tx_wakes s) (rx s).

Definition wake_readers (s : consst) : consst :=
  ConsSt (cbuf s) (c_r s) (c_w s) (c_e s) (S (c_wakes s)) (tx_busy s) (tx_out s) (tx_wakes s) (rx s).

Definition set_tx_busy (b : bool) (s : consst) : consst :=
  ConsSt (cbuf s) (c_r s) (c_w s) (c_e s) (c_wakes s) b (tx_out s) (tx_wakes s) (rx s).

Definition send (c : Z) (s : consst) : consst :=
  ConsSt (cbuf s) (c_r s) (c_w s) (c_e s) (c_wakes s) (tx_busy s) (tx_out s ++ [u8 c]) (tx_wakes s) (rx s).

Definition wake_senders (s : consst) : consst :=
  ConsSt (cbuf s) (c_r s) (c_w s) (c_e s) (c_wakes s) (tx_busy s) (tx_out s) (S (tx_wakes s)) (rx s).

Definition set_rx (l : list Z) (s : consst) : consst :=
  ConsSt (cbuf s) (c_r s) (c_w s) (c_e s) (c_wakes s) (tx_busy s) (tx_out s) (tx_wakes s) l.

(** * Output *)

(** The spin for the transmitter ends when it is idle. *)
Definition uartputc_sync (c : Z) : prog consst unit := modify (send c).

Definition consputc (c : Z) : prog consst unit :=
  if c =? BACKSPACE then _ ← uartputc_sync 8; _ ← uartputc_sync 32; uartputc_sync 8
  else uartputc_sync c.

(** [uartwrite] from index [i] until it is done or sleeps; the result is the
    index it has reached. *)
Definition uartwrite_run (buf : list Z) (i : Z) : prog consst Z :=
  loop (S (Z.to_nat (zlen buf - i)))
    (λ i,
       if i <? zlen buf then
         s ← get;
         if tx_busy s then mret (inr i)
         else
           c ← of_option (buf !! Z.to_nat i);
           _ ← modify (send c);
           _ ← modify (set_tx_busy true);
           mret (inl (i + 1))
       else mret (inr i))
    i.

(** * Input *)

(** The loop of [^U]. *)
Definition kill_line : prog consst unit :=
  loop (S (Z.to_nat INPUT_BUF_SIZE))
    (λ _ : unit,
       s ← get;
       if (c_e s =? c_w s) || (cbuf s (u32 (c_e s - 1) mod INPUT_BUF_SIZE) =? NEWLINE) then mret (inr tt)
       else
         _ ← modify (set_e (u32 (c_e s - 1)));
         _ ← consputc BACKSPACE;
         mret (inl tt))
    tt.

(** A character that is stored. *)
Definition store_char (c : Z) : prog consst unit :=
  let c := if c =? RETURN then NEWLINE else c in
  _ ← consputc c;
  s ← get;
  _ ← modify (set_cbuf (upd (cbuf s) (c_e s mod INPUT_BUF_SIZE) (u8 c)));
  _ ← modify (set_e (u32 (c_e s + 1)));
  s ← get;
  if (c =? NEWLINE) || (c =? C_D) || (u32 (c_e s - c_r s) =? INPUT_BUF_SIZE) then
    _ ← modify (set_w (c_e s));
    modify wake_readers
  else mret tt.

(** [^P] prints the processes and changes nothing here. *)
Definition consoleintr (c : Z) : prog consst unit :=
  if c =? C_P then mret tt
  else if c =? C_U then kill_line
  else if (c =? C_H) || (c =? DELETE) then
    s ← get;
    if c_e s =? c_w s then mret tt
    else _ ← modify (set_e (u32 (c_e s - 1))); consputc BACKSPACE
  else
    s ← get;
    if negb (c =? 0) && (u32 (c_e s - c_r s) <? INPUT_BUF_SIZE) then store_char c else mret tt.

(** [-1] is "no character". *)
Definition uartgetc : prog consst Z :=
  s ← get;
  match rx s with
  | [] => mret (-1)
  | c :: l => _ ← modify (set_rx l); mret c
  end.

Definition uartintr (idle : bool) : prog consst unit :=
  _ ← (if idle then _ ← modify (set_tx_busy false); modify wake_senders else mret tt : prog consst unit);
  s ← get;
  loop (S (length (rx s)))
    (λ _ : unit,
       c ← uartgetc;
       if c =? -1 then mret (inr tt) else _ ← consoleintr c; mret (inl tt))
    tt.

(** * Writing *)

(** [uartwrite] to its end: whenever it sleeps, the interrupt that says the
    transmitter is idle wakes it. *)
Definition uartwrite (buf : list Z) : prog consst unit :=
  loop (S (S (length buf)))
    (λ i,
       i ← uartwrite_run buf i;
       if i <? zlen buf then _ ← uartintr true; mret (inl i) else mret (inr tt))
    0.

(** The buffer of [consolewrite]. *)
Definition write_part : Z := 32.

(** [src i nn] are the [nn] bytes from offset [i] of the source, when they can
    be copied. *)
Definition consolewrite (src : Z → Z → option (list Z)) (n : Z) : prog consst Z :=
  loop (S (Z.to_nat n))
    (λ i,
       if i <? n then
         let nn := if n - i <? write_part then n - i else write_part in
         match src i nn with
         | None => mret (inr i)
         | Some part => _ ← uartwrite part; mret (inl (i + nn))
         end
       else mret (inr i))
    0.

(** * Reading *)

(** How a run of [consoleread] ends: it returns a value, or it sleeps with [n]
    bytes left to read.  Both carry the bytes copied out in the run. *)
Inductive cread : Type :=
  | CReturn (v : Z) (bytes : list Z)
  | CSleep (n : Z) (bytes : list Z).

(** [consoleread] for [target] bytes, from its start or from where it slept,
    with [n] bytes left; [dst i] says whether the copy of byte [i] succeeds. *)
Definition consoleread_run (killed : bool) (dst : Z → bool) (target n : Z) : prog consst cread :=
  loop (S (Z.to_nat n))
    (λ '(n, bytes),
       if 0 <? n then
         s ← get;
         if c_r s =? c_w s then
           if killed then mret (inr (CReturn (-1) bytes)) else mret (inr (CSleep n bytes))
         else
           let c := cbuf s (c_r s mod INPUT_BUF_SIZE) in
           _ ← modify (set_r (u32 (c_r s + 1)));
           if c =? C_D then
             _ ← (if n <? target then modify (λ s, set_r (u32 (c_r s - 1)) s) else mret tt : prog consst unit);
             mret (inr (CReturn (target - n) bytes))
           else if negb (dst (target - n)) then mret (inr (CReturn (target - n) bytes))
           else
             let bytes := bytes ++ [c] in
             if c =? NEWLINE then mret (inr (CReturn (target - (n - 1)) bytes)) else mret (inl (n - 1, bytes))
       else mret (inr (CReturn (target - n) bytes)))
    (n, []).
