(* ===== verification/ConsoleProps.v ===== *)
(** The console is a line discipline: typed characters are edited in the
    current line, lines are handed over whole, and reads take them in order. *)

From S2P Require Import Prelude.
From S2P Require Import Ring.
From S2P Require Import Console.

(** * The abstract console *)

(** [ready] are the characters a read can take, [edit] is the line that is
    being typed. *)
Record aline := ALine {
  ready : list Z;
  edit : list Z }.

Definition held (a : aline) : Z := zlen (ready a ++ edit a).

Definition typed (c : Z) : Z := if c =? RETURN then NEWLINE else c.

(** Whether character [c] hands the line over. *)
Definition ends_line (c : Z) (a : aline) : bool := (typed c =? NEWLINE) || (typed c =? C_D) || (held a + 1 =? INPUT_BUF_SIZE).

Definition erase : list Z := [8; 32; 8].

Inductive key : Set := KNone | KKill | KErase | KChar.

Definition key_of (c : Z) (a : aline) : key :=
  if c =? C_P then KNone
  else if c =? C_U then KKill
  else if (c =? C_H) || (c =? DELETE) then if bool_decide (edit a = []) then KNone else KErase
  else if negb (c =? 0) && (held a <? INPUT_BUF_SIZE) then KChar else KNone.

Definition a_intr (c : Z) (a : aline) : aline :=
  match key_of c a with
  | KNone => a
  | KKill => ALine (ready a) []
  | KErase => ALine (ready a) (removelast (edit a))
  | KChar => if ends_line c a then ALine (ready a ++ edit a ++ [typed c]) [] else ALine (ready a) (edit a ++ [typed c])
  end.

Definition a_echo (c : Z) (a : aline) : list Z :=
  match key_of c a with
  | KNone => []
  | KKill => mjoin (replicate (length (edit a)) erase)
  | KErase => erase
  | KChar => [typed c]
  end.

Definition a_wakes (c : Z) (a : aline) : nat :=
  match key_of c a with KChar => if ends_line c a then 1 else 0 | _ => 0 end.

(** A read of [target] bytes of which [n] are left: it ends with a line, before
    an end of file unless that is all there is, or when a copy fails, and it
    sleeps when there is nothing to take. *)
Fixpoint a_read (killed : bool) (dst : Z → bool) (target n : Z) (l bytes : list Z) : cread * list Z :=
  if 0 <? n then
    match l with
    | [] => (if killed then CReturn (-1) bytes else CSleep n bytes, [])
    | c :: l' =>
        if c =? C_D then (CReturn (target - n) bytes, if n <? target then l else l')
        else if negb (dst (target - n)) then (CReturn (target - n) bytes, l')
        else if c =? NEWLINE then (CReturn (target - (n - 1)) (bytes ++ [c]), l')
        else a_read killed dst target (n - 1) l' (bytes ++ [c])
    end
  else (CReturn (target - n) bytes, l).

(** What the receiver delivers. *)
Definition is_byte (c : Z) : Prop := 0 ≤ c < 256.

(** * Representation *)

Abbreviation cwindow := (window INPUT_BUF_SIZE (2 ^ 32)).

Record crep (s : consst) (a : aline) : Prop := {
  cr_r : 0 ≤ c_r s < 2 ^ 32;
  cr_w : 0 ≤ c_w s < 2 ^ 32;
  cr_e : 0 ≤ c_e s < 2 ^ 32;
  cr_ready : cwindow (cbuf s) (c_r s) (c_w s) = ready a;
  cr_edit : cwindow (cbuf s) (c_w s) (c_e s) = edit a;
  cr_held : held a ≤ INPUT_BUF_SIZE;
  cr_line : NEWLINE ∉ edit a }.

Lemma size_pos : 0 < INPUT_BUF_SIZE.
Proof. done. Qed.

Lemma M_pos : 0 < 2 ^ 32.
Proof. done. Qed.

Lemma size_div : (INPUT_BUF_SIZE | 2 ^ 32).
Proof. by exists (2 ^ 25). Qed.

Lemma u32_range x : 0 ≤ u32 x < 2 ^ 32.
Proof. by apply Z.mod_pos_bound. Qed.

(** The distances of the counters. *)
Lemma crep_dist s a :
  crep s a → u32 (c_w s - c_r s) = zlen (ready a) ∧ u32 (c_e s - c_w s) = zlen (edit a) ∧ u32 (c_e s - c_r s) = held a.
Proof.
  intros H. pose proof (cr_held _ _ H) as Hh. unfold held in *. rewrite length_app in *.
  assert (u32 (c_w s - c_r s) = zlen (ready a)) as E1.
  { rewrite <- (cr_ready _ _ H), length_window. pose proof (u32_range (c_w s - c_r s)). unfold u32 in *. lia. }
  assert (u32 (c_e s - c_w s) = zlen (edit a)) as E2.
  { rewrite <- (cr_edit _ _ H), length_window. pose proof (u32_range (c_e s - c_w s)). unfold u32 in *. lia. }
  split_and!; [done..|]. unfold u32, INPUT_BUF_SIZE in *.
  replace (c_e s - c_r s) with (c_w s - c_r s + (c_e s - c_w s)) by lia. rewrite Zplus_mod, E1, E2, Z.mod_small; lia.
Qed.

Lemma crep_all s a : crep s a → cwindow (cbuf s) (c_r s) (c_e s) = ready a ++ edit a.
Proof.
  intros H. destruct (crep_dist _ _ H) as (E1 & E2 & _). pose proof (cr_held _ _ H) as Hh. unfold held in Hh. rewrite length_app in Hh.
  rewrite (window_split _ _ M_pos size_div _ _ (c_w s)), (cr_ready _ _ H), (cr_edit _ _ H); [done|].
  unfold u32, INPUT_BUF_SIZE in *. lia.
Qed.

Lemma eq_counters lo hi ring : 0 ≤ lo < 2 ^ 32 → 0 ≤ hi < 2 ^ 32 → lo = hi ↔ cwindow ring lo hi = [].
Proof.
  intros Hlo Hhi. split; [intros ->; apply (window_empty _ _ M_pos)|]. intros E. destruct (decide (lo = hi)) as [|Hne]; [done|].
  rewrite (window_pop _ _ M_pos size_div) in E by done. done.
Qed.

(** The last character typed is taken back. *)
Lemma crep_back s a :
  crep s a → c_e s ≠ c_w s →
  ∃ c, edit a = removelast (edit a) ++ [c] ∧ cbuf s (u32 (c_e s - 1) mod INPUT_BUF_SIZE) = c ∧
    crep (set_e (u32 (c_e s - 1)) s) (ALine (ready a) (removelast (edit a))).
Proof.
  intros H Hne. pose proof (window_back INPUT_BUF_SIZE _ M_pos size_div (cbuf s) _ _ (cr_w _ _ H) (cr_e _ _ H) ltac:(congruence)) as E.
  fold (u32 (c_e s - 1)) in E. rewrite (cr_edit _ _ H) in E. exists (cbuf s (u32 (c_e s - 1) mod INPUT_BUF_SIZE)).
  assert (removelast (edit a) = cwindow (cbuf s) (c_w s) (u32 (c_e s - 1))) as Er by (rewrite E; apply removelast_last).
  rewrite <- Er in E. split_and!; [exact E|done|]. split; cbn; try apply H.
  - apply u32_range.
  - done.
  - pose proof (cr_held _ _ H) as Hh. unfold held in *. cbn. rewrite E in Hh. rewrite !length_app in *. lia.
  - intros Hin. apply (cr_line _ _ H). rewrite E. set_solver.
Qed.

(** Output does not change the input buffer. *)
Lemma crep_ext s s' a :
  cbuf s' = cbuf s → c_r s' = c_r s → c_w s' = c_w s → c_e s' = c_e s → crep s a → crep s' a.
Proof. intros E1 E2 E3 E4 []. split; rewrite ?E1, ?E2, ?E3, ?E4; done. Qed.

Lemma wp_consputc c s (Q : unit → consst → Prop) :
  Q tt (ConsSt (cbuf s) (c_r s) (c_w s) (c_e s) (c_wakes s) (tx_busy s) (tx_out s ++ (if c =? BACKSPACE then erase else [u8 c])) (tx_wakes s) (rx s)) →
  wp (consputc c) Q s.
Proof. intros HQ. unfold consputc, uartputc_sync. destruct (c =? BACKSPACE); wp_auto; unfold send; cbn; rewrite <- ?app_assoc; done. Qed.

Lemma wp_kill_line s a :
  crep s a →
  wp kill_line (λ _ s', crep s' (ALine (ready a) []) ∧ tx_out s' = tx_out s ++ mjoin (replicate (length (edit a)) erase) ∧ c_wakes s' = c_wakes s ∧ rx s' = rx s) s.
Proof.
  intros H. unfold kill_line.
  apply (wp_loop (λ n _ s', ∃ l, n = length l ∧ crep s' (ALine (ready a) l) ∧ c_wakes s' = c_wakes s ∧ rx s' = rx s ∧
    tx_out s' ++ mjoin (replicate (length l) erase) = tx_out s ++ mjoin (replicate (length (edit a)) erase)) (length (edit a))).
  { exists (edit a). split_and!; try done. by destruct a. }
  { pose proof (cr_held _ _ H) as Hh. unfold held, INPUT_BUF_SIZE in *. rewrite length_app in Hh. lia. }
  intros n [] s1 (l & -> & H1 & Hw & Hx & Ho). wp_auto. destruct (Z.eqb_spec (c_e s1) (c_w s1)) as [E|E]; cbn [orb].
  - wp_auto. assert (l = []) as -> by (pose proof (cr_edit _ _ H1) as El; cbn in El; rewrite <- El, E; apply (window_empty _ _ M_pos)).
    split_and!; try done. rewrite <- Ho. cbn. by rewrite app_nil_r.
  - destruct (crep_back _ _ H1 E) as (c & El & Ec & H2). cbn in El, H2.
    rewrite Ec, (proj2 (Z.eqb_neq c NEWLINE)); [|intros ->; apply (cr_line _ _ H1); cbn; rewrite El; set_solver]. wp_auto.
    apply wp_consputc. wp_auto. exists (length (removelast l)). rewrite El at 2. rewrite length_app. cbn. split; [lia|].
    exists (removelast l). split_and!; [done| |done|done|].
    + by eapply crep_ext, H2.
    + rewrite <- Ho. rewrite El at 2. rewrite length_app, Nat.add_comm. cbn. by rewrite <- !app_assoc.
Qed.

(** A character is appended to the line. *)
Lemma crep_push s a c :
  crep s a → held a < INPUT_BUF_SIZE →
  let s' := set_e (u32 (c_e s + 1)) (set_cbuf (upd (cbuf s) (c_e s mod INPUT_BUF_SIZE) c) s) in
  cwindow (cbuf s') (c_r s') (c_w s') = ready a ∧ cwindow (cbuf s') (c_w s') (c_e s') = edit a ++ [c] ∧
  cwindow (cbuf s') (c_r s') (c_e s') = ready a ++ edit a ++ [c] ∧ u32 (c_e s' - c_r s') = held a + 1.
Proof.
  intros H Hh s'. destruct (crep_dist _ _ H) as (E1 & E2 & E3).
  assert (∀ lo, (length (cwindow (cbuf s) lo (c_e s)) < Z.to_nat INPUT_BUF_SIZE)%nat →
    cwindow (cbuf s') lo (c_e s') = cwindow (cbuf s) lo (c_e s) ++ [c]) as Hpush.
  { intros lo Hl. apply window_push; [apply size_pos|apply M_pos|apply size_div|exact Hl|done]. }
  assert (cwindow (cbuf s') (c_w s') (c_e s') = edit a ++ [c]) as Ee.
  { pose proof (Hpush (c_w s)) as P. rewrite (cr_edit _ _ H) in P. apply P. unfold held in Hh. rewrite length_app in Hh. lia. }
  assert (cwindow (cbuf s') (c_r s') (c_e s') = ready a ++ edit a ++ [c]) as Ea.
  { pose proof (Hpush (c_r s)) as P. rewrite (crep_all _ _ H), <- app_assoc in P. apply P. unfold held in Hh. lia. }
  assert (u32 (c_e s' - c_r s') = held a + 1) as Ed.
  { cbn. rewrite <- E3. unfold u32. rewrite Zminus_mod_idemp_l. replace (c_e s + 1 - c_r s) with (c_e s - c_r s + 1) by lia.
    rewrite <- Zplus_mod_idemp_l. apply Z.mod_small. unfold u32 in E3. rewrite E3. unfold held, INPUT_BUF_SIZE in *. lia. }
  split_and!; [|done..].
  pose proof (window_split INPUT_BUF_SIZE _ M_pos size_div (cbuf s') (c_r s') (c_w s') (c_e s')) as Hs.
  rewrite Ea, Ee in Hs. apply (inj (λ l, l ++ edit a ++ [c])). symmetry. apply Hs.
  change (u32 (c_w s' - c_r s') + u32 (c_e s' - c_w s') < 2 ^ 32). change (c_w s' - c_r s') with (c_w s - c_r s). rewrite E1.
  assert (u32 (c_e s' - c_w s') = zlen (edit a ++ [c])) as ->.
  { rewrite <- Ee, length_window. pose proof (u32_range (c_e s' - c_w s')). unfold u32 in *. lia. }
  unfold held, INPUT_BUF_SIZE in Hh. rewrite length_app in *. cbn. lia.
Qed.

(** A byte is stored as it is. *)
Lemma u8_typed c : is_byte c → u8 (typed c) = typed c.
Proof. intros [? ?]. unfold u8, typed. destruct (c =? RETURN); apply Z.mod_small; unfold NEWLINE; lia. Qed.

Lemma typed_shown c : is_byte c → (if typed c =? BACKSPACE then erase else [u8 (typed c)]) = [typed c].
Proof.
  intros Hc. rewrite (u8_typed c Hc), (proj2 (Z.eqb_neq _ _)); [done|]. destruct Hc. unfold typed, BACKSPACE, NEWLINE. destruct (c =? RETURN); lia.
Qed.

Lemma wp_store_char s a c :
  is_byte c → crep s a → held a < INPUT_BUF_SIZE →
  wp (store_char c) (λ _ s',
    crep s' (if ends_line c a then ALine (ready a ++ edit a ++ [typed c]) [] else ALine (ready a) (edit a ++ [typed c])) ∧
    tx_out s' = tx_out s ++ [typed c] ∧
    c_wakes s' = (c_wakes s + if ends_line c a then 1 else 0)%nat ∧ rx s' = rx s) s.
Proof.
  intros Hc H Hh. unfold store_char. fold (typed c). rewrite (u8_typed c Hc). wp_auto. apply wp_consputc. rewrite (typed_shown c Hc). wp_auto. cbn [cbuf c_e set_cbuf set_e].
  destruct (crep_push s a (typed c) H Hh) as (W1 & W2 & W3 & W4). cbn in W1, W2, W3, W4 |- *. rewrite W4. unfold ends_line.
  assert (zlen (ready a ++ edit a ++ [typed c]) = held a + 1) as El by (unfold held; rewrite !length_app; cbn; lia).
  destruct ((typed c =? NEWLINE) || (typed c =? C_D) || (held a + 1 =? INPUT_BUF_SIZE)) eqn:E; wp_auto.
  - split_and!; [|done|cbn; lia|done]. split; cbn; try apply H; try apply u32_range; [done|apply (window_empty _ _ M_pos)| |by apply not_elem_of_nil].
    unfold held in *. cbn. rewrite app_nil_r. lia.
  - split_and!; [|done|cbn; lia|done]. split; cbn; try apply H; [apply u32_range|done|done|unfold held; cbn; lia|].
    apply orb_false_iff in E as [[E _]%orb_false_iff _]. intros [Hin|Hin%list_elem_of_singleton]%elem_of_app; [by apply (cr_line _ _ H)|].
    by rewrite <- Hin in E.
Qed.

Lemma wp_consoleintr s a c :
  is_byte c → crep s a →
  wp (consoleintr c) (λ _ s', crep s' (a_intr c a) ∧ tx_out s' = tx_out s ++ a_echo c a ∧ c_wakes s' = (c_wakes s + a_wakes c a)%nat ∧ rx s' = rx s) s.
Proof.
  intros Hc H. assert (crep s a ∧ tx_out s = tx_out s ++ [] ∧ c_wakes s = (c_wakes s + 0)%nat ∧ rx s = rx s) as Hid by (rewrite app_nil_r, Nat.add_0_r; done).
  unfold consoleintr, a_intr, a_echo, a_wakes, key_of. destruct (c =? C_P); [by wp_auto|].
  destruct (c =? C_U).
  { eapply wp_mono; [by apply wp_kill_line|]. intros _ s' (H1 & H2 & H3 & H4). by rewrite Nat.add_0_r. }
  destruct ((c =? C_H) || (c =? DELETE)).
  - wp_auto. assert (c_e s = c_w s ↔ edit a = []) as He.
    { rewrite <- (cr_edit _ _ H). rewrite <- (eq_counters (c_w s) (c_e s)); [|apply H..]. split; congruence. }
    destruct (Z.eqb_spec (c_e s) (c_w s)) as [E|E].
    + rewrite bool_decide_eq_true_2 by tauto. by wp_auto.
    + rewrite bool_decide_eq_false_2 by tauto. wp_auto. destruct (crep_back _ _ H E) as (x & _ & _ & H2). apply wp_consputc.
      split_and!; [by eapply crep_ext, H2|done|cbn; lia|done].
  - wp_auto. destruct (crep_dist _ _ H) as (_ & _ & E3). rewrite E3. destruct (negb (c =? 0)); cbn [andb]; [|by wp_auto].
    destruct (Z.ltb_spec (held a) INPUT_BUF_SIZE); [by apply wp_store_char|by wp_auto].
Qed.

(** ** Reading *)

(** A character is taken, and possibly put back. *)
Lemma crep_take s a c l :
  crep s a → ready a = c :: l →
  c_r s ≠ c_w s ∧ cbuf s (c_r s mod INPUT_BUF_SIZE) = c ∧ crep (set_r (u32 (c_r s + 1)) s) (ALine l (edit a)) ∧
  u32 (u32 (c_r s + 1) - 1) = c_r s.
Proof.
  intros H El. assert (c_r s ≠ c_w s) as Hne.
  { intros E. pose proof (cr_ready _ _ H) as Er. rewrite E, (window_empty _ _ M_pos) in Er. congruence. }
  pose proof (window_pop INPUT_BUF_SIZE _ M_pos size_div (cbuf s) _ _ (cr_r _ _ H) (cr_w _ _ H) Hne) as E.
  rewrite (cr_ready _ _ H), El in E. injection E as E1 E2. split_and!; [done|done| |].
  - split; cbn; try apply H; [apply u32_range|done|]. pose proof (cr_held _ _ H) as Hh. unfold held in *. rewrite El in Hh. cbn in *. lia.
  - pose proof (cr_r _ _ H). unfold u32. rewrite Zminus_mod_idemp_l. replace (c_r s + 1 - 1) with (c_r s) by lia. by apply Z.mod_small.
Qed.

Lemma wp_consoleread killed dst target n s a :
  crep s a →
  wp (consoleread_run killed dst target n) (λ r s', ∃ l, a_read killed dst target n (ready a) [] = (r, l) ∧ crep s' (ALine l (edit a)) ∧
    tx_out s' = tx_out s ∧ c_wakes s' = c_wakes s ∧ rx s' = rx s) s.
Proof.
  intros H. unfold consoleread_run.
  apply (wp_loop (λ j '(m, bytes) s', j = Z.to_nat m ∧ ∃ l, crep s' (ALine l (edit a)) ∧ tx_out s' = tx_out s ∧ c_wakes s' = c_wakes s ∧ rx s' = rx s ∧
    a_read killed dst target m l bytes = a_read killed dst target n (ready a) []) (Z.to_nat n)).
  { split; [done|]. exists (ready a). split_and!; try done. by destruct a. }
  { lia. }
  intros j [m bytes] s1 (-> & l & H1 & Ho & Hw & Hx & <-). destruct (Z.ltb_spec 0 m) as [Hm|Hm].
  2:{ wp_auto. exists l. split_and!; try done. destruct l; cbn; by rewrite (proj2 (Z.ltb_ge _ _)) by lia. }
  wp_auto. destruct l as [|c l].
  - assert (c_r s1 = c_w s1) as E by (apply (eq_counters _ _ (cbuf s1)); [apply H1..|apply (cr_ready _ _ H1)]).
    rewrite E, Z.eqb_refl. cbn. rewrite (proj2 (Z.ltb_lt 0 m)) by done. destruct killed; wp_auto; by exists [].
  - destruct (crep_take _ _ c l H1 eq_refl) as (Hne & Ec & H2 & Eb). rewrite (proj2 (Z.eqb_neq _ _)) by done. cbv zeta. rewrite Ec.
    cbn [a_read]. rewrite (proj2 (Z.ltb_lt 0 m)) by done. wp_auto. destruct (c =? C_D); wp_auto.
    + destruct (m <? target); wp_auto; [|by exists l]. exists (c :: l). split_and!; try done. cbn. rewrite Eb.
      by eapply crep_ext, H1.
    + destruct (negb (dst (target - m))); wp_auto; [by exists l|]. destruct (c =? NEWLINE); wp_auto; [by exists l|].
      exists (Z.to_nat (m - 1)). split; [lia|]. split; [done|]. by exists l.
Qed.

(** ** Interrupts *)

Definition a_intrs (l : list Z) (a : aline) : aline := foldl (λ a c, a_intr c a) a l.

Fixpoint a_echos (l : list Z) (a : aline) : list Z :=
  match l with [] => [] | c :: l => a_echo c a ++ a_echos l (a_intr c a) end.

Fixpoint a_waking (l : list Z) (a : aline) : nat :=
  match l with [] => O | c :: l => (a_wakes c a + a_waking l (a_intr c a))%nat end.

(** One interrupt handles every byte the receiver has, in order. *)
Lemma wp_uartintr idle s a :
  Forall is_byte (rx s) → crep s a →
  wp (uartintr idle) (λ _ s', crep s' (a_intrs (rx s) a) ∧ tx_out s' = tx_out s ++ a_echos (rx s) a ∧
    c_wakes s' = (c_wakes s + a_waking (rx s) a)%nat ∧ rx s' = []) s.
Proof.
  intros Hb H. unfold uartintr. apply wp_bind.
  apply (wp_mono _ (λ _ s1, crep s1 a ∧ tx_out s1 = tx_out s ∧ c_wakes s1 = c_wakes s ∧ rx s1 = rx s)).
  { destruct idle; wp_auto; [|done]. split_and!; [|done..]. by eapply crep_ext, H. }
  intros _ s1 (H1 & Ho & Hw & Hx). wp_auto. rewrite <- Hx, <- Ho, <- Hw in *. clear s H Ho Hw Hx.
  apply (wp_loop (λ n _ s', ∃ b, n = length (rx s') ∧ Forall is_byte (rx s') ∧ crep s' b ∧ a_intrs (rx s') b = a_intrs (rx s1) a ∧
    tx_out s' ++ a_echos (rx s') b = tx_out s1 ++ a_echos (rx s1) a ∧
    (c_wakes s' + a_waking (rx s') b)%nat = (c_wakes s1 + a_waking (rx s1) a)%nat) (length (rx s1))).
  { by exists a. }
  { lia. }
  intros n [] s' (b & -> & Hb' & H & <- & <- & <-). unfold uartgetc. wp_auto. destruct (rx s') as [|c l] eqn:Hr; wp_auto.
  - cbn. rewrite app_nil_r, Nat.add_0_r. split_and!; [done..|by rewrite Hr].
  - apply Forall_cons in Hb' as [Hc Hl]. rewrite (proj2 (Z.eqb_neq c (-1))) by (destruct Hc; lia). wp_auto.
    eapply wp_mono; [apply (wp_consoleintr _ b c Hc); by eapply crep_ext, H|]. cbn. intros _ s2 (H2 & Ho2 & Hw2 & Hx2). wp_auto.
    exists (length l). split; [lia|]. exists (a_intr c b). rewrite Hx2, Ho2, Hw2, <- app_assoc. split_and!; try done. lia.
Qed.

(** * Refinement *)

(** What happens to the console: an interrupt with the bytes that have arrived,
    and a run of a read. *)
Inductive cevent : Type :=
  | EInput (idle : bool) (l : list Z)
  | ERead (killed : bool) (dst : Z → bool) (target n : Z).

Definition event_ok (e : cevent) : Prop := match e with EInput _ l => Forall is_byte l | ERead _ _ _ _ => True end.

Definition console_event (e : cevent) : prog consst (list cread) :=
  match e with
  | EInput idle l => _ ← modify (λ s, set_rx (rx s ++ l) s); _ ← uartintr idle; mret []
  | ERead killed dst target n => r ← consoleread_run killed dst target n; mret [r]
  end.

Fixpoint console_run (l : list cevent) : prog consst (list cread) :=
  match l with
  | [] => mret []
  | e :: l => r ← console_event e; rs ← console_run l; mret (r ++ rs)
  end.

(** The line discipline: the next state, what the reads give, what is shown and
    how often readers are woken. *)
Definition a_event (e : cevent) (a : aline) : aline * list cread * list Z * nat :=
  match e with
  | EInput _ l => (a_intrs l a, [], a_echos l a, a_waking l a)
  | ERead killed dst target n =>
      let '(r, l) := a_read killed dst target n (ready a) [] in (ALine l (edit a), [r], [], O)
  end.

Fixpoint a_run (l : list cevent) (a : aline) : aline * list cread * list Z * nat :=
  match l with
  | [] => (a, [], [], O)
  | e :: l =>
      let '(a1, r1, o1, w1) := a_event e a in
      let '(a2, r2, o2, w2) := a_run l a1 in (a2, r1 ++ r2, o1 ++ o2, (w1 + w2)%nat)
  end.

(** [s'] is what [s] becomes when the line discipline gives [x]. *)
Definition shows (s s' : consst) (x : aline * list cread * list Z * nat) (rs : list cread) : Prop :=
  let '(a, r, o, w) := x in
  crep s' a ∧ rx s' = rx s ∧ rs = r ∧ tx_out s' = tx_out s ++ o ∧ c_wakes s' = (c_wakes s + w)%nat.

Lemma wp_console_event e s a :
  event_ok e → rx s = [] → crep s a → wp (console_event e) (λ rs s', shows s s' (a_event e a) rs) s.
Proof.
  intros He Hx H. destruct e as [idle l|killed dst target n]; cbn [console_event a_event].
  - wp_auto. eapply wp_mono; [apply (wp_uartintr idle _ a); cbn; rewrite Hx; [done|by eapply crep_ext, H]|].
    cbn. rewrite Hx. cbn. intros _ s' (H1 & H2 & H3 & H4). wp_auto. rewrite ?Hx. done.
  - apply wp_bind. eapply wp_mono; [by apply wp_consoleread|]. cbv beta. intros r s' (l & -> & H1 & H2 & H3 & H4). wp_auto.
    split_and!; try done; [by rewrite app_nil_r|lia].
Qed.

(** Properties compose: what a run shows, and then what the next one shows. *)
Lemma wp_console_run l s a :
  Forall event_ok l → rx s = [] → crep s a → wp (console_run l) (λ rs s', shows s s' (a_run l a) rs) s.
Proof.
  revert s a. induction l as [|e l IH]; intros s a Hl Hx H; cbn [console_run a_run].
  - wp_auto. unfold shows. by rewrite app_nil_r, Nat.add_0_r.
  - apply Forall_cons in Hl as [He Hl]. apply wp_bind. eapply wp_mono; [by apply wp_console_event|]. cbv beta.
    intros r1 s1. destruct (a_event e a) as [[[a1 r1'] o1] w1]. intros (H1 & Hx1 & -> & Ho1 & Hw1). apply wp_bind.
    eapply wp_mono; [apply (IH s1 a1); congruence|]. cbv beta.
    intros r2 s2. destruct (a_run l a1) as [[[a2 r2'] o2] w2]. intros (H2 & Hx2 & -> & Ho2 & Hw2). wp_auto.
    split_and!; [done|congruence|done|by rewrite Ho2, Ho1, app_assoc|lia].
Qed.

(** ** Output *)

(** A run of [uartwrite] sends at most one byte: none when the transmitter is
    busy, and it makes the transmitter busy. *)
Lemma wp_uartwrite_run buf i s :
  0 ≤ i ≤ zlen buf →
  wp (uartwrite_run buf i) (λ j s', match buf !! Z.to_nat i with
    | Some c => if tx_busy s then j = i ∧ s' = s else j = i + 1 ∧ s' = set_tx_busy true (send c s)
    | None => j = i ∧ s' = s
    end) s.
Proof.
  intros Hi. unfold uartwrite_run.
  apply (wp_loop (λ n j s', n = Z.to_nat (zlen buf - j) ∧ ((j = i ∧ s' = s) ∨
    (j = i + 1 ∧ ∃ c, buf !! Z.to_nat i = Some c ∧ tx_busy s = false ∧ s' = set_tx_busy true (send c s)))) (Z.to_nat (zlen buf - i))).
  { split; [done|by left]. }
  { lia. }
  intros n j s1 (-> & [(-> & ->)|(-> & c & Hc & Hb & ->)]).
  - destruct (Z.ltb_spec i (zlen buf)) as [Hlt|Hge].
    + destruct (lookup_lt_is_Some_2 buf (Z.to_nat i) ltac:(lia)) as [c Hc]. rewrite Hc. wp_auto.
      destruct (tx_busy s) eqn:Hb; wp_auto; [done|]. cbn. wp_auto. exists (Z.to_nat (zlen buf - (i + 1))). split; [lia|].
      split; [done|]. right. split; [done|]. by exists c.
    + wp_auto. by rewrite lookup_ge_None_2 by lia.
  - rewrite Hc, Hb. destruct (i + 1 <? zlen buf); wp_auto; [|done]. cbn. by wp_auto.
Qed.

(** The transmitter interrupt alone. *)
Lemma wp_uartintr_idle s :
  rx s = [] → wp (uartintr true) (λ _ s', tx_busy s' = false ∧ tx_out s' = tx_out s ∧ rx s' = []) s.
Proof. intros Hx. unfold uartintr. wp_auto. cbn. rewrite Hx. cbn. unfold uartgetc. wp_auto. cbn. rewrite Hx. by cbn. Qed.

Lemma wp_uartwrite buf s :
  rx s = [] → wp (uartwrite buf) (λ _ s', tx_out s' = tx_out s ++ (u8 <$> buf) ∧ rx s' = []) s.
Proof.
  intros Hx. unfold uartwrite.
  apply (wp_loop (λ n j s', 0 ≤ j ≤ zlen buf ∧ n = (Z.to_nat (zlen buf - j) + if tx_busy s' then 1 else 0)%nat ∧ rx s' = [] ∧
    tx_out s' = tx_out s ++ (u8 <$> take (Z.to_nat j) buf)) (length buf + if tx_busy s then 1 else 0)%nat).
  { split_and!; [lia..|f_equal; lia|done|by rewrite app_nil_r]. }
  { destruct (tx_busy s); lia. }
  intros n j s1 (Hj & -> & Hx1 & Ho). apply wp_bind. eapply wp_mono; [by apply wp_uartwrite_run|]. cbv beta. intros k s2 Hk.
  assert (tx_out s2 = tx_out s ++ (u8 <$> take (Z.to_nat k) buf) ∧ rx s2 = [] ∧ 0 ≤ k ≤ zlen buf ∧
    (k < zlen buf → (Z.to_nat (zlen buf - k) < Z.to_nat (zlen buf - j) + if tx_busy s1 then 1 else 0)%nat)) as (Ho2 & Hx2 & Hk2 & Hm).
  { destruct (buf !! Z.to_nat j) as [c|] eqn:Hc; [destruct (tx_busy s1); destruct Hk as (-> & ->)|destruct Hk as (-> & ->)]; cbn.
    - split_and!; try done; lia.
    - apply lookup_lt_Some in Hc as Hlt. split_and!; [|done|lia..]. rewrite Ho.
      replace (Z.to_nat (j + 1)) with (S (Z.to_nat j)) by lia. by rewrite (take_S_r _ _ c Hc), fmap_app, app_assoc.
    - apply lookup_ge_None_1 in Hc. split_and!; try done; lia. }
  destruct (Z.ltb_spec k (zlen buf)) as [Hlt|Hge]; wp_auto.
  - eapply wp_mono; [by apply wp_uartintr_idle|]. intros [] s3 (Hb3 & Ho3 & Hx3). wp_auto. eexists. split; [|split_and!; [lia..|done|done|]].
    + rewrite Hb3. specialize (Hm Hlt). lia.
    + congruence.
  - split; [|done]. by rewrite Ho2, take_ge by lia.
Qed.

(** * The claims *)


(** A write to the console sends the bytes of its source to the
    transmitter, each once and in order, sleeping whenever the transmitter is
    busy and resuming at its interrupt, and returns how many it sent: all of
    them, or the offset of the first part that cannot be copied. *)
Theorem consolewrite_delivers src data n s :
  0 ≤ n ≤ zlen data → rx s = [] →
  (∀ i nn part, src i nn = Some part → part = take (Z.to_nat nn) (drop (Z.to_nat i) data)) →
  wp (consolewrite src n) (λ k s', 0 ≤ k ≤ n ∧ tx_out s' = tx_out s ++ (u8 <$> take (Z.to_nat k) data) ∧
    (k = n ∨ ∃ nn, 0 < nn ≤ 32 ∧ k + nn ≤ n ∧ src k nn = None)) s.
Proof.
  intros Hn Hx Hsrc. unfold consolewrite.
  apply (wp_loop (λ m i s', m = Z.to_nat (n - i) ∧ 0 ≤ i ≤ n ∧ rx s' = [] ∧ tx_out s' = tx_out s ++ (u8 <$> take (Z.to_nat i) data)) (Z.to_nat n)).
  { split_and!; [f_equal; lia|lia..|done|by rewrite app_nil_r]. }
  { lia. }
  intros m i s1 (-> & Hi & Hx1 & Ho). destruct (Z.ltb_spec i n) as [Hlt|Hge]; [|wp_auto; split_and!; [lia..|done|left; lia]].
  cbv zeta. set (nn := if n - i <? write_part then n - i else write_part).
  assert (0 < nn ≤ 32 ∧ i + nn ≤ n) as [Hnn Hin] by (unfold nn, write_part; destruct (Z.ltb_spec (n - i) 32); lia).
  destruct (src i nn) as [part|] eqn:Hs; wp_auto.
  - eapply wp_mono; [by apply wp_uartwrite|]. intros [] s2 (Ho2 & Hx2). wp_auto. exists (Z.to_nat (n - (i + nn))). split; [lia|].
    split_and!; [done|lia..|done|]. rewrite Ho2, Ho, (Hsrc _ _ _ Hs), <- app_assoc, <- fmap_app. do 2 f_equal.
    by rewrite take_take_drop, Z2Nat.inj_add by lia.
  - split_and!; [lia..|done|]. right. by exists nn.
Qed.

(** * Witnesses *)

(** The counters are about to wrap. *)
Definition near_wrap : consst := ConsSt (λ _, 0) (2 ^ 32 - 2) (2 ^ 32 - 2) (2 ^ 32 - 2) 0 false [] 0 [].

(** "ab", delete, "c", return; a read of ten bytes; a read that sleeps. *)
Definition typing : list cevent :=
  [EInput true [97; 98; 127]; EInput false [99; 13]; ERead false (λ _, true) 10 10; ERead false (λ _, true) 10 10].

Lemma near_wrap_empty : crep near_wrap (ALine [] []).
Proof. split; try (cbn; lia); [done|done|done|by apply not_elem_of_nil]. Qed.


(** Forty bytes, of which only the first part can be copied. *)
Definition forty : list Z := replicate 40 65.

Definition first_part (i nn : Z) : option (list Z) := if i =? 0 then Some (take (Z.to_nat nn) (drop (Z.to_nat i) forty)) else None.

Lemma consolewrite_delivers_witness :
  wp (consolewrite first_part 40) (λ k s', 0 ≤ k ≤ 40 ∧ tx_out s' = tx_out near_wrap ++ (u8 <$> take (Z.to_nat k) forty) ∧
    (k = 40 ∨ ∃ nn, 0 < nn ≤ 32 ∧ k + nn ≤ 40 ∧ first_part k nn = None)) near_wrap.
Proof.
  apply (consolewrite_delivers first_part forty 40 near_wrap); [split; vm_compute; discriminate|reflexivity|].
  unfold first_part. intros i nn part. destruct (i =? 0); congruence.
Defined.
