(* ===== verification/PrintfProps.v ===== *)
(** The two formatted printers agree, and numbers can be read back. *)

From Stdlib Require Import Ascii.
From S2P Require Import Prelude.
From S2P Require Import Console.
From S2P Require Import Printf.

(** * Equalities of programs *)

Lemma bind_ext {S A B} (m : prog S A) (f g : A → prog S B) s :
  (∀ a s', m s = Ok (a, s') → f a s' = g a s') → (m ≫= f) s = (m ≫= g) s.
Proof. unfold mbind, prog_bind. intros H. destruct (m s) as [[a s']| | |]; [by apply H|done..]. Qed.

Lemma bind_assoc {S A B C} (m : prog S A) (f : A → prog S B) (g : B → prog S C) s :
  ((m ≫= f) ≫= g) s = (m ≫= λ a, f a ≫= g) s.
Proof. unfold mbind, prog_bind. by destruct (m s) as [[a s']| | |]. Qed.

Lemma bind_ret {S A B} (a : A) (f : A → prog S B) s : (mret a ≫= f) s = f a s.
Proof. done. Qed.

Lemma bind_map {S A B C} (m : prog S A) (f : A → B) (g : B → prog S C) s :
  ((a ← m; mret (f a)) ≫= g) s = (m ≫= λ a, g (f a)) s.
Proof. rewrite bind_assoc. by apply bind_ext. Qed.

Section Agree.

Context {D : Type} (putc : Z → prog D unit) (digits : list Z) (cstr : Z → option (list Z)).

Abbreviation kdir := (directive putc digits cstr).
Abbreviation vdir := (vdirective putc digits cstr).
Abbreviation kbody := (printf_body putc digits cstr).
Abbreviation vbody := (vprintf_body putc digits cstr).

(** ** Directives *)

(** The two readings of a kdir. *)
Lemma directive_agrees c0 c1 c2 s :
  c0 ≠ 0 → kdir c0 c1 c2 s = (k ← vdir c0 c1 c2; mret (Some k)) s.
Proof.
  intros H0%Z.eqb_neq. unfold directive, vdirective. rewrite H0.
  repeat match goal with |- context [if ?b then _ else _] => destruct b end;
    rewrite bind_assoc; apply bind_ext; intros a s1 _; rewrite ?bind_assoc; try done;
    apply bind_ext; intros; done.
Qed.

Lemma directive_bind {B} c0 c1 c2 (f : option Z → prog (pst D) B) s :
  c0 ≠ 0 → (kdir c0 c1 c2 ≫= f) s = (vdir c0 c1 c2 ≫= λ k, f (Some k)) s.
Proof.
  intros H0. unfold mbind, prog_bind. rewrite (directive_agrees _ _ _ _ H0). unfold mbind, prog_bind.
  by destruct (vdir c0 c1 c2 s) as [[? ?]| | |].
Qed.

(** What is skipped has been looked at. *)
Definition skips (c1 c2 k : Z) : Prop := k = 0 ∨ k = 1 ∧ c1 ≠ 0 ∨ k = 2 ∧ c1 ≠ 0 ∧ c2 ≠ 0.

Lemma vdirective_skips c0 c1 c2 s : wlp (vdir c0 c1 c2) (λ k _, skips c1 c2 k) s.
Proof.
  unfold vdirective.
  repeat match goal with |- context [if ?b then _ else _] => destruct b eqn:? end;
    apply wlp_bind, wlp_any; intros; wlp_auto; try (by left);
    try (apply wlp_any; intros; wlp_auto; unfold skips); try (by left);
    repeat match goal with H : _ && _ = true |- _ => apply andb_true_iff in H as [? ?] | H : (_ =? _) = true |- _ => apply Z.eqb_eq in H end;
    subst; [right; left|right; right|right; left|right; right|right; left|right; right]; done.
Qed.

(** ** The loops *)

Lemma fmt_at_ok fmt i (s : pst D) :
  0 ≤ i ≤ zlen fmt → ∃ c, fmt_at fmt i = (mret c : prog (pst D) Z) ∧ (c ≠ 0 → i < zlen fmt).
Proof.
  intros Hi. unfold fmt_at. destruct (decide (i < zlen fmt)).
  - destruct (lookup_lt_is_Some_2 (fmt ++ [0]) (Z.to_nat i)) as [c ->]; [rewrite length_app; lia|]. by exists c.
  - exists 0. replace i with (zlen fmt) by lia. by rewrite lookup_app_r, Nat2Z.id, Nat.sub_diag by lia.
Qed.

Lemma look_ahead_ok fmt c i (s : pst D) :
  (c ≠ 0 → 0 ≤ i ≤ zlen fmt) → ∃ d, look_ahead fmt c i = (mret d : prog (pst D) Z) ∧ (d ≠ 0 → c ≠ 0 ∧ i < zlen fmt).
Proof.
  intros Hi. unfold look_ahead. destruct (Z.eqb_spec c 0) as [->|H0]; [by exists 0|].
  destruct (fmt_at_ok fmt i s) as (d & -> & Hd); [by apply Hi|]. exists d. split; [done|]. auto.
Qed.

Lemma loops_agree fmt n1 n2 i s :
  0 ≤ i ≤ zlen fmt → (Z.to_nat (zlen fmt - i) < n1)%nat → (Z.to_nat (zlen fmt - i) < n2)%nat →
  loop n2 (vbody fmt) (i, false) s = loop n1 (kbody fmt) i s.
Proof.
  revert n2 i s. induction n1 as [|n1 IH]; intros n2 i s Hi H1 H2; [lia|]. destruct n2 as [|n2]; [lia|]. cbn [loop].
  unfold vprintf_body at 2, printf_body at 2. destruct (fmt_at_ok fmt i s) as (c & -> & Hc); [done|].
  cbn [negb]. rewrite !bind_assoc. apply bind_ext. intros c' s' [= <- <-].
  destruct (Z.eqb_spec c 0) as [E0|H0]; [done|]. specialize (Hc H0).
  destruct (Z.eqb_spec c (chr "%")) as [Ep|Hp]; cbn [negb].
  2:{ rewrite !bind_assoc. apply bind_ext. intros [] s' _. apply IH; lia. }
  destruct n2 as [|n2]; [lia|]. rewrite bind_ret. cbn [loop]. unfold vprintf_body at 2. cbv zeta. destruct (fmt_at_ok fmt (i + 1) s) as (c0 & -> & Hc0); [lia|].
  rewrite !bind_assoc. apply bind_ext. intros c0' s' [= <- <-]. cbn [negb].
  destruct (Z.eqb_spec c0 0) as [->|Hne]; [done|]. specialize (Hc0 Hne).
  destruct (look_ahead_ok fmt c0 (i + 1 + 1) s) as (c1 & -> & Hc1); [lia|].
  destruct (look_ahead_ok fmt c1 (i + 1 + 2) s) as (c2 & E2 & Hc2); [lia|].
  rewrite !bind_assoc. apply bind_ext. intros c1' s' [= <- <-]. rewrite E2, !bind_assoc. apply bind_ext. intros c2' s' [= <- <-].
  rewrite !bind_assoc, (directive_bind _ _ _ _ _ Hne). apply bind_ext. intros k s' Hk. rewrite !bind_ret.
  pose proof (vdirective_skips _ _ _ _ _ _ Hk) as Hs. unfold skips in Hs. apply IH; lia.
Qed.

End Agree.

(** * Numbers *)

Section Numbers.

Context {D : Type} (putc : Z → prog D unit) (digits : list Z).
Context (Hdup : NoDup (take 16 digits)) (Hlen : (16 ≤ length digits)%nat) (Hminus : chr "-" ∉ take 16 digits).

Abbreviation dloop := (digits_loop (D := D) digits).
Abbreviation pint := (printint putc digits).

(** ** Reading numbers *)

Definition digit_val (c : Z) : option Z := (λ p, Z.of_nat p.1) <$> list_find (λ d, d = c) (take 16 digits).

Definition read_digit (base : Z) (acc : option Z) (c : Z) : option Z := a ← acc; v ← digit_val c; Some (a * base + v).

Definition read_int (base : Z) (l : list Z) : option Z :=
  match l with
  | c :: r => if c =? chr "-" then Z.opp <$> foldl (read_digit base) (Some 0) r else foldl (read_digit base) (Some 0) l
  | [] => None
  end.

Lemma digit_val_at i c : (i < 16)%nat → digits !! i = Some c → digit_val c = Some (Z.of_nat i) ∧ c ≠ chr "-".
Proof.
  intros Hi Hc. assert (take 16 digits !! i = Some c) as Ht by (by rewrite lookup_take_lt by lia).
  split; [|intros ->; apply Hminus; by eapply list_elem_of_lookup_2]. unfold digit_val.
  assert (list_find (λ d, d = c) (take 16 digits) = Some (i, c)) as ->; [|done].
  apply list_find_Some. split_and!; [done|done|]. intros j y Hj Hji ->. pose proof (NoDup_lookup _ _ _ _ Hdup Hj Ht). lia.
Qed.

(** What the digits in the buffer say, when [y] is left to print. *)
Definition reads (base y : Z) (buf : list Z) : option Z := foldl (read_digit base) (Some y) (rev buf).

Lemma reads_digit base y buf d v :
  digit_val d = Some v → reads base y (buf ++ [d]) = reads base (y * base + v) buf.
Proof. unfold reads. rewrite rev_app_distr. cbn. intros ->. done. Qed.

Lemma wp_digits_loop base x (m : nat) s :
  2 ≤ base ≤ 16 → 0 ≤ x < base ^ Z.of_nat m → (0 < m ≤ 20)%nat →
  wp (dloop x base) (λ buf s', s' = s ∧ reads base 0 buf = Some x ∧ (0 < length buf ≤ m)%nat ∧ chr "-" ∉ buf) s.
Proof.
  intros Hb Hx Hm. unfold digits_loop.
  apply (wp_loop (λ n '(y, buf) s', s' = s ∧ reads base y buf = Some x ∧ (length buf + n = m)%nat ∧ (0 < n)%nat ∧
    0 ≤ y < base ^ Z.of_nat n ∧ chr "-" ∉ buf) m).
  { split_and!; try done; [lia..|by apply not_elem_of_nil]. }
  { lia. }
  intros n [y buf] s' (-> & Hr & Hl & Hn & Hy & Hmi). pose proof (Z.mod_pos_bound y base ltac:(lia)) as Hmod.
  destruct (lookup_lt_is_Some_2 digits (Z.to_nat (y mod base)) ltac:(lia)) as [d Hd]. rewrite Hd. wp_auto.
  destruct (digit_val_at (Z.to_nat (y mod base)) d ltac:(lia) Hd) as [Hv Hne]. rewrite Z2Nat.id in Hv by lia.
  assert (reads base (y / base) (buf ++ [d]) = Some x) as Hr2.
  { rewrite (reads_digit _ _ _ _ _ Hv), <- Hr. f_equal. pose proof (Z.div_mod y base ltac:(lia)). lia. }
  assert (chr "-" ∉ buf ++ [d]) as Hmi2 by (rewrite elem_of_app, list_elem_of_singleton; intuition congruence).
  unfold store, NUMBUF. rewrite (proj2 (Z.ltb_lt _ _)) by lia. wp_auto.
  destruct (Z.eqb_spec (y / base) 0) as [E|E]; wp_auto.
  - rewrite E in Hr2. split_and!; try done; rewrite length_app; cbn; lia.
  - destruct n as [|n]; [lia|]. exists n. split; [lia|]. rewrite Nat2Z.inj_succ, Z.pow_succ_r in Hy by lia.
    assert (y / base < base ^ Z.of_nat n) by (apply Z.div_lt_upper_bound; lia). pose proof (Z.div_pos y base ltac:(lia) ltac:(lia)).
    split_and!; try done; [rewrite length_app; cbn; lia|]. destruct n; [|lia]. cbn in *. lia.
Qed.

(** The number is printed as a list of characters that reads back as it. *)
Lemma printint_reads xx base sign s :
  base = 10 ∨ base = 16 → - 2 ^ 63 < xx < 2 ^ 63 →
  ∃ l, pint xx base sign s = puts putc l s ∧ read_int base l = Some (if sign then xx else u64 xx) ∧ (length l ≤ 20)%nat.
Proof.
  intros Hb Hx. unfold printint. cbv zeta. rewrite (proj2 (Z.eqb_neq xx (- 2 ^ 63))), andb_false_r by lia.
  assert (∀ buf x, reads base 0 buf = Some x → (0 < length buf)%nat → chr "-" ∉ buf → read_int base (rev buf) = Some x) as Hread.
  { intros buf x Hr Hl Hn. unfold read_int. destruct (rev buf) as [|c r] eqn:E; [apply (f_equal length) in E; rewrite length_rev in E; cbn in E; lia|].
    rewrite (proj2 (Z.eqb_neq c _)); [rewrite <- E; exact Hr|]. intros ->. apply Hn, list_elem_of_In, in_rev. rewrite E. by left. }
  destruct (sign && (xx <? 0)) eqn:Hneg.
  - apply andb_true_iff in Hneg as [-> Hneg%Z.ltb_lt]. replace (u64 (- xx)) with (- xx) by (symmetry; apply Z.mod_small; lia).
    pose proof (wp_digits_loop base (- xx) 19 s ltac:(lia)) as Hw. unfold wp, mbind, prog_bind in *.
    destruct (dloop (- xx) base s) as [[buf s']| | |]; try (exfalso; apply Hw; [destruct Hb as [-> | ->]; lia|lia]).
    destruct Hw as (-> & Hr & Hl & Hn); [destruct Hb as [-> | ->]; lia|lia|]. exists (rev (buf ++ [chr "-"])).
    unfold store, NUMBUF. rewrite (proj2 (Z.ltb_lt _ _)) by lia. split; [done|]. rewrite length_rev, length_app. cbn [length]. split; [|lia].
    rewrite rev_app_distr. cbn. unfold reads in Hr. rewrite Hr. cbn. f_equal. lia.
  - assert (if sign then u64 xx = xx else True) as Hs.
    { destruct sign; [|done]. cbn in Hneg. apply Z.ltb_ge in Hneg. apply Z.mod_small. lia. }
    pose proof (wp_digits_loop base (u64 xx) 20 s ltac:(lia)) as Hw. pose proof (Z.mod_pos_bound xx (2 ^ 64) ltac:(lia)) as H64. fold (u64 xx) in H64.
    unfold wp, mbind, prog_bind in *.
    destruct (dloop (u64 xx) base s) as [[buf s']| | |]; try (exfalso; apply Hw; [destruct Hb as [-> | ->]; lia|lia]).
    destruct Hw as (-> & Hr & Hl & Hn); [destruct Hb as [-> | ->]; lia|lia|]. exists (rev buf).
    split; [done|]. rewrite length_rev. split; [|lia]. rewrite (Hread _ _ Hr) by (done || lia). destruct sign; [by rewrite Hs|done].
Qed.

End Numbers.

(** * Termination *)

Definition ends {S A} (m : prog S A) (s : S) : Prop := m s ≠ NoFuel.

Lemma ends_bind {S A B} (m : prog S A) (f : A → prog S B) s :
  ends m s → (∀ a s', m s = Ok (a, s') → ends (f a) s') → ends (m ≫= f) s.
Proof. unfold ends, mbind, prog_bind. intros Hm Hf. destruct (m s) as [[a s']| | |]; [by apply Hf|done..]. Qed.

Lemma ends_zoom {S T A} (view : S → T) upd (m : prog T A) s : ends m (view s) → ends (zoom view upd m) s.
Proof. unfold ends, zoom. by destruct (m (view s)) as [[a t]| | |]. Qed.

Lemma ends_loop {S A B} (I : nat → A → Prop) n fuel (body : A → prog S (A + B)) a s :
  I n a → (n < fuel)%nat →
  (∀ n a s, I n a → ends (body a) s ∧ wlp (body a) (λ r _, match r with inl a' => ∃ n', (n' < n)%nat ∧ I n' a' | inr _ => True end) s) →
  ends (loop fuel body a) s.
Proof.
  intros Ha Hn Hb. revert n a s Ha Hn. induction fuel as [|fuel IH]; intros n a s Ha Hn; [lia|]. cbn [loop].
  destruct (Hb n a s Ha) as [He Hw]. apply ends_bind; [done|]. intros [a'|b] s' E; [|done].
  destruct (Hw _ _ E) as (n' & Hn' & Ha'). eapply IH; [done|lia].
Qed.

Section Ends.

Context {D : Type} (putc : Z → prog D unit) (digits : list Z) (cstr : Z → option (list Z)).
Context (Hputc : ∀ c d, ends (putc c) d).

Lemma ends_put c s : ends (put putc c) s.
Proof. apply ends_zoom, Hputc. Qed.

Lemma ends_puts l s : ends (puts putc l) s.
Proof. revert s. induction l as [|c l IH]; intros s; [done|]. apply ends_bind; [apply ends_put|]. intros [] s' _. apply IH. Qed.

Lemma ends_of_option {S A} (o : option A) (s : S) : ends (of_option o) s.
Proof. by destruct o. Qed.

Lemma ends_va_arg cast (s : pst D) : ends (va_arg cast) s.
Proof. unfold va_arg. apply ends_bind; [done|]. intros s1 s2 [= <- <-]. by destruct (p_args s). Qed.

Lemma ends_printint xx base sign s : base = 10 ∨ base = 16 → ends (printint putc digits xx base sign) s.
Proof.
  intros Hb. unfold printint. cbv zeta. destruct (_ && (xx =? _)); [done|]. apply ends_bind; [|intros buf s1 _; apply ends_bind; [|intros; apply ends_puts]].
  - unfold digits_loop. apply (ends_loop (λ n '(y, _), (n < 64)%nat ∧ 0 ≤ y < 2 ^ (Z.of_nat n + 1)) 63).
    + split; [lia|]. apply Z.mod_pos_bound. lia.
    + lia.
    + intros n [y buf] s1 [Hn Hy]. split.
      { apply ends_bind; [apply ends_of_option|]. intros d s2 _. apply ends_bind; [unfold store; by destruct (_ <? _)|].
        intros buf' s3 _. by destruct (_ =? 0). }
      apply wlp_bind, wlp_any. intros d s2. apply wlp_bind, wlp_any. intros buf' s3. destruct (Z.eqb_spec (y / base) 0) as [E|E]; wlp_auto; [done|].
      pose proof (Z.div_le_compat_l y 2 base ltac:(lia) ltac:(lia)). pose proof (Z.div_pos y base ltac:(lia) ltac:(lia)).
      destruct n as [|n]; [pose proof (Z.div_small y 2 ltac:(lia)); lia|]. exists n. split; [lia|]. split; [lia|].
      replace (Z.of_nat (S n) + 1) with (Z.succ (Z.of_nat n + 1)) in Hy by lia. rewrite Z.pow_succ_r in Hy by lia.
      pose proof (Z.div_lt_upper_bound y 2 (2 ^ (Z.of_nat n + 1)) ltac:(lia) ltac:(lia)). lia.
  - destruct (sign && _); [|done]. unfold store. by destruct (_ <? _).
Qed.

Lemma ends_printptr x s : ends (printptr putc digits x) s.
Proof.
  unfold printptr. apply ends_bind; [apply ends_put|intros [] s1 _]. apply ends_bind; [apply ends_put|intros [] s2 _].
  apply (ends_loop (λ n '(i, _), 0 ≤ i ≤ 16 ∧ n = Z.to_nat (16 - i)) 16); [lia|lia|]. intros n [i y] s3 [Hi ->].
  destruct (Z.ltb_spec i 16); split; wlp_auto; try done.
  - apply ends_bind; [apply ends_of_option|intros d s4 _]. apply ends_bind; [apply ends_put|done].
  - apply wlp_any. intros. wlp_auto. eexists. split; [|split; [lia|done]]. lia.
Qed.

Lemma ends_directive c0 c1 c2 s : ends (directive putc digits cstr c0 c1 c2) s.
Proof.
  assert (∀ cast base sign k s, base = 10 ∨ base = 16 →
    ends (x ← va_arg cast; _ ← printint putc digits x base sign; mret (Some k : option Z)) s) as Hnum.
  { intros cast base sign k s' Hb. apply ends_bind; [apply ends_va_arg|intros x s1 _]. apply ends_bind; [by apply ends_printint|done]. }
  unfold directive. repeat (match goal with |- ends (if ?b then _ else _) _ => destruct b end; [first [by apply Hnum; auto | idtac]|]).
  - apply ends_bind; [apply ends_va_arg|intros x s1 _]. apply ends_bind; [apply ends_printptr|done].
  - apply ends_bind; [apply ends_va_arg|intros x s1 _]. apply ends_bind; [apply ends_put|done].
  - apply ends_bind; [|done]. unfold put_string. apply ends_bind; [apply ends_va_arg|intros x s1 _]. destruct (x =? 0); [apply ends_puts|].
    apply ends_bind; [apply ends_of_option|intros l s2 _; apply ends_puts].
  - apply ends_bind; [apply ends_put|done].
  - done.
  - apply ends_bind; [apply ends_put|intros [] s1 _]. apply ends_bind; [apply ends_put|done].
Qed.

Lemma directive_skips c0 c1 c2 s :
  wlp (directive putc digits cstr c0 c1 c2) (λ r _, match r with Some k => c0 ≠ 0 ∧ skips c1 c2 k | None => True end) s.
Proof.
  destruct (decide (c0 = 0)) as [->|H0]; [by intros a s' [= <- <-]|]. unfold wlp. rewrite (directive_agrees _ _ _ _ _ _ _ H0).
  apply wlp_bind. eapply wlp_mono; [apply vdirective_skips|]. intros k s1 Hk. by apply wlp_ret.
Qed.

(** What one iteration does. *)
Lemma printf_body_at fmt i s :
  0 ≤ i ≤ zlen fmt → let body := printf_body putc digits cstr fmt i s in
  body = Ok (inr tt, s) ∨ i < zlen fmt ∧ ((∃ c, body = (_ ← put putc c; mret (inl (i + 1))) s) ∨
    ∃ c0 c1 c2, (c0 ≠ 0 → i + 1 < zlen fmt) ∧ (c1 ≠ 0 → i + 2 < zlen fmt) ∧ (c2 ≠ 0 → i + 3 < zlen fmt) ∧
      body = (k ← directive putc digits cstr c0 c1 c2; match k with None => mret (inr tt) | Some k => mret (inl (i + 1 + k + 1)) end) s).
Proof.
  intros Hi. unfold printf_body. destruct (fmt_at_ok fmt i s Hi) as (c & -> & Hc). cbv zeta. rewrite bind_ret.
  destruct (Z.eqb_spec c 0) as [->|H0]; [by left|]. right. split; [auto|]. specialize (Hc H0).
  destruct (Z.eqb_spec c (chr "%")) as [->|Hp]; cbn [negb]; [right|left; by exists c].
  destruct (fmt_at_ok fmt (i + 1) s ltac:(lia)) as (c0 & -> & Hc0).
  destruct (look_ahead_ok fmt c0 (i + 1 + 1) s ltac:(lia)) as (c1 & E1 & Hc1).
  destruct (look_ahead_ok fmt c1 (i + 1 + 2) s ltac:(lia)) as (c2 & E2 & Hc2).
  exists c0, c1, c2. rewrite bind_ret, E1, bind_ret, E2, bind_ret. split_and!; [auto|lia|lia|done].
Qed.

Lemma ends_printf fmt s : ends (printf putc digits cstr fmt) s.
Proof.
  unfold printf. apply (ends_loop (λ n i, 0 ≤ i ≤ zlen fmt ∧ n = Z.to_nat (zlen fmt - i)) (length fmt)); [lia|lia|].
  intros n i s1 [Hi ->]. unfold ends, wlp. destruct (printf_body_at fmt i s1 Hi) as [->|(Hlt & [(c & ->)|(c0 & c1 & c2 & H0 & H1 & H2 & ->)])].
  - split; [done|]. by intros r s' [= <- <-].
  - split; [apply ends_bind; [apply ends_put|done]|]. apply wlp_bind, wlp_any. intros. wlp_auto. eexists. split; [|split; [|done]]; lia.
  - split; [apply ends_bind; [apply ends_directive|by intros [] ? _]|]. apply wlp_bind. eapply wlp_mono; [apply directive_skips|].
    intros [k|] s2 Hk; wlp_auto; [|done]. destruct Hk as [Hn Hk]. unfold skips in Hk. eexists. split; [|split; [|done]]; lia.
Qed.

End Ends.

(** * The claims *)


(** C32: [printint] writes a number so that it can be read back: the characters
    it puts out, a minus sign first when the number is negative and signed
    output was asked for, are the number in the base; it never writes past its
    buffer of 20 characters, for any 64-bit number whose negation exists. *)
Theorem printint_roundtrip {D} (putc : Z → prog D unit) digits xx base sign s :
  NoDup (take 16 digits) → (16 ≤ length digits)%nat → chr "-" ∉ take 16 digits →
  base = 10 ∨ base = 16 → - 2 ^ 63 < xx < 2 ^ 63 →
  ∃ l, printint putc digits xx base sign s = puts putc l s ∧ read_int digits base l = Some (if sign then xx else u64 xx) ∧ (length l ≤ 20)%nat.
Proof. intros. by apply printint_reads. Qed.

(** * Witnesses *)

(** A device that records what is written. *)
Definition tape_putc (c : Z) : prog (list Z) unit := modify (λ l, l ++ [c]).


Lemma printint_roundtrip_witness :
  ∃ l, printint tape_putc kernel_digits (- 2 ^ 63 + 1) 10 true (Pst [] []) = puts tape_putc l (Pst [] []) ∧
    read_int kernel_digits 10 l = Some (- 2 ^ 63 + 1) ∧ (length l ≤ 20)%nat.
Proof.
  apply (printint_roundtrip tape_putc kernel_digits (- 2 ^ 63 + 1) 10 true (Pst [] [])); [|vm_compute; lia| |left; reflexivity|lia].
  - apply (bool_decide_unpack _). vm_compute. exact I.
  - apply (bool_decide_unpack _). vm_compute. exact I.
Defined.
