(* ===== verification/Trap.v ===== *)
(** Traps (kernel/trap.c), the interrupt controller (kernel/plic.c) and the
    dispatch of system calls (kernel/syscall.c), over the control registers of a
    hart.  What they call of the rest of the kernel is an interface. *)

From S2P Require Import Prelude.
From S2P Require Import Vm.

(** * Constants *)

Definition SSTATUS_SPP : Z := Z.shiftl 1 8.

Definition SSTATUS_SPIE : Z := Z.shiftl 1 5.

Definition SSTATUS_SIE : Z := Z.shiftl 1 1.

Definition SATP_SV39 : Z := Z.shiftl 8 60.

Definition MAKE_SATP (pagetable : Z) : Z := Z.lor SATP_SV39 (Z.shiftr pagetable 12).

Definition UART0_IRQ : Z := 10.

Definition VIRTIO0_IRQ : Z := 1.

Definition SCAUSE_EXTERNAL : Z := 0x8000000000000009.

Definition SCAUSE_TIMER : Z := 0x8000000000000005.

(** * State *)

(** The control registers, and [tp], which holds the number of the hart. *)
Record csrs := Csrs {
  sstatus : Z;
  sepc : Z;
  scause : Z;
  stval : Z;
  stvec : Z;
  satp : Z;
  stimecmp : Z;
  time : Z;
  tp : Z }.

(** The trap frame: what the trampoline needs, the program counter and the
    registers of a system call. *)
Record tframe := Tframe {
  kernel_satp : Z;
  kernel_sp : Z;
  kernel_trap : Z;
  kernel_hartid : Z;
  tf_epc : Z;
  tf_a0 : Z;
  tf_a7 : Z }.

(** The interrupt controller: the interrupts that wait, in the order they will
    be handed out, and those that were claimed and not completed; [ticks]; and
    the rest of the kernel. *)
Record tst (W : Type) := Tst {
  regs : csrs;
  tf : tframe;
  waiting : list Z;
  active : list Z;
  ticks : Z;
  rest : W }.

Arguments Tst {W} _ _ _ _ _ _.
Arguments regs {W} _.
Arguments tf {W} _.
Arguments waiting {W} _.
Arguments active {W} _.
Arguments ticks {W} _.
Arguments rest {W} _.

Section State.

Context {W : Type}.

Definition set_regs (f : csrs → csrs) (s : tst W) : tst W := Tst (f (regs s)) (tf s) (waiting s) (active s) (ticks s) (rest s).

Definition set_tf (f : tframe → tframe) (s : tst W) : tst W := Tst (regs s) (f (tf s)) (waiting s) (active s) (ticks s) (rest s).

Definition set_irqs (w a : list Z) (s : tst W) : tst W := Tst (regs s) (tf s) w a (ticks s) (rest s).

Definition set_ticks (t : Z) (s : tst W) : tst W := Tst (regs s) (tf s) (waiting s) (active s) t (rest s).

Definition set_rest (w : W) (s : tst W) : tst W := Tst (regs s) (tf s) (waiting s) (active s) (ticks s) w.

Definition on_rest {A} (m : prog W A) : prog (tst W) A := zoom rest set_rest m.

End State.

(** Register writes. *)
Definition w_sstatus (x : Z) (r : csrs) : csrs := Csrs x (sepc r) (scause r) (stval r) (stvec r) (satp r) (stimecmp r) (time r) (tp r).

Definition w_sepc (x : Z) (r : csrs) : csrs := Csrs (sstatus r) x (scause r) (stval r) (stvec r) (satp r) (stimecmp r) (time r) (tp r).

Definition w_stvec (x : Z) (r : csrs) : csrs := Csrs (sstatus r) (sepc r) (scause r) (stval r) x (satp r) (stimecmp r) (time r) (tp r).

Definition w_stimecmp (x : Z) (r : csrs) : csrs := Csrs (sstatus r) (sepc r) (scause r) (stval r) (stvec r) (satp r) x (time r) (tp r).

Definition intr_on (r : csrs) : csrs := w_sstatus (Z.lor (sstatus r) SSTATUS_SIE) r.

Definition intr_off (r : csrs) : csrs := w_sstatus (Z.land (sstatus r) (Z.lnot SSTATUS_SIE)) r.

Definition intr_get (r : csrs) : bool := negb (Z.land (sstatus r) SSTATUS_SIE =? 0).

Definition w_epc (x : Z) (f : tframe) : tframe := Tframe (kernel_satp f) (kernel_sp f) (kernel_trap f) (kernel_hartid f) x (tf_a0 f) (tf_a7 f).

Definition w_a0 (x : Z) (f : tframe) : tframe := Tframe (kernel_satp f) (kernel_sp f) (kernel_trap f) (kernel_hartid f) (tf_epc f) x (tf_a7 f).

(** * What traps need of the kernel

    A system call and [yield] run with interrupts on, or on another hart: they
    may change the registers.  [k_proc] says whether a process is running. *)
Class Kernel (W : Type) := {
  k_uartintr : prog W unit;
  k_virtio_disk_intr : prog W unit;
  k_wakeup_ticks : prog W unit;
  k_syscalls : Z → option (prog (tst W) Z);
  k_vmfault : Z → bool → prog W Z;
  k_killed : prog W bool;
  k_setkilled : prog W unit;
  k_yield : prog (tst W) unit;
  k_pagetable : W → Z;
  k_kstack : W → Z;
  k_proc : W → bool }.

(** A completed interrupt is claimed no more. *)
Fixpoint remove1 (x : Z) (l : list Z) : list Z :=
  match l with [] => [] | y :: l => if x =? y then l else y :: remove1 x l end.

Section Traps.

Context {W : Type} {K : Kernel W}.

(** The addresses of the two trap vectors and of [usertrap]. *)
Variables (kernelvec uservec_offset usertrap_addr : Z).

(** * The interrupt controller *)

(** Reading the claim register: 0 when nothing waits. *)
Definition plic_claim : prog (tst W) Z :=
  s ← get;
  match waiting s with
  | [] => mret 0
  | irq :: w => _ ← modify (set_irqs w (irq :: active s)); mret irq
  end.

Definition plic_complete (irq : Z) : prog (tst W) unit :=
  modify (λ s, set_irqs (waiting s) (remove1 irq (active s)) s).

(** * Interrupts *)

Definition clockintr : prog (tst W) unit :=
  s ← get;
  _ ← (if tp (regs s) =? 0 then _ ← modify (set_ticks (u32 (ticks s + 1))); on_rest k_wakeup_ticks else mret tt : prog (tst W) unit);
  modify (set_regs (λ r, w_stimecmp (u64 (time r + 1000000)) r)).

Definition devintr : prog (tst W) Z :=
  s ← get;
  if scause (regs s) =? SCAUSE_EXTERNAL then
    irq ← plic_claim;
    _ ← (if irq =? UART0_IRQ then on_rest k_uartintr
         else if irq =? VIRTIO0_IRQ then on_rest k_virtio_disk_intr
         else mret tt : prog (tst W) unit);
    _ ← (if irq =? 0 then mret tt else plic_complete irq : prog (tst W) unit);
    mret 1
  else if scause (regs s) =? SCAUSE_TIMER then _ ← clockintr; mret 2
  else mret 0.

(** * System calls *)

(** The table has the numbers 1 to 29. *)
Definition NSYSCALLS : Z := 30.

Definition syscall : prog (tst W) unit :=
  s ← get;
  let num := s32 (tf_a7 (tf s)) in
  match (if (0 <? num) && (num <? NSYSCALLS) then k_syscalls num else None) with
  | Some f => r ← f; modify (set_tf (w_a0 (u64 r)))
  | None => modify (set_tf (w_a0 (u64 (-1))))
  end.

(** * Entry and return *)

Definition prepare_return : prog (tst W) unit :=
  _ ← modify (set_regs intr_off);
  _ ← modify (set_regs (w_stvec (u64 (TRAMPOLINE + uservec_offset))));
  _ ← modify (λ s, set_tf (λ f, Tframe (satp (regs s)) (u64 (k_kstack (rest s) + PGSIZE)) usertrap_addr (tp (regs s)) (tf_epc f) (tf_a0 f) (tf_a7 f)) s);
  _ ← modify (set_regs (λ r, w_sstatus (Z.lor (Z.land (sstatus r) (Z.lnot SSTATUS_SPP)) SSTATUS_SPIE) r));
  modify (λ s, set_regs (w_sepc (tf_epc (tf s))) s).

(** The body of [usertrap] up to the second test of [killed]: [None] is a call
    of [kexit], [Some d] the value of [which_dev]. *)
Definition usertrap_cause : prog (tst W) (option Z) :=
  s ← get;
  if scause (regs s) =? 8 then
    k ← on_rest k_killed;
    if (k : bool) then mret None
    else
      _ ← modify (set_tf (λ f, w_epc (u64 (tf_epc f + 4)) f));
      _ ← modify (set_regs intr_on);
      _ ← syscall;
      mret (Some 0)
  else
    which_dev ← devintr;
    if negb (which_dev =? 0) then mret (Some which_dev)
    else
      s ← get;
      let c := scause (regs s) in
      fixed ← (if (c =? 15) || (c =? 13) then r ← on_rest (k_vmfault (stval (regs s)) (c =? 13)); mret (negb (r =? 0))
               else mret false : prog (tst W) bool);
      if (fixed : bool) then mret (Some 0) else _ ← on_rest k_setkilled; mret (Some 0).

(** The value for the trampoline, or [None] when the process has exited. *)
Definition usertrap : prog (tst W) (option Z) :=
  s ← get;
  if negb (Z.land (sstatus (regs s)) SSTATUS_SPP =? 0) then panic "usertrap: not from user mode"
  else
    _ ← modify (set_regs (w_stvec kernelvec));
    _ ← modify (set_tf (w_epc (sepc (regs s))));
    d ← usertrap_cause;
    match d with
    | None => mret None
    | Some which_dev =>
        k ← on_rest k_killed;
        if (k : bool) then mret None
        else
          _ ← (if which_dev =? 2 then k_yield else mret tt : prog (tst W) unit);
          _ ← prepare_return;
          s ← get;
          mret (Some (MAKE_SATP (k_pagetable (rest s))))
    end.

Definition kerneltrap : prog (tst W) unit :=
  s ← get;
  let r := regs s in
  if Z.land (sstatus r) SSTATUS_SPP =? 0 then panic "kerneltrap: not from supervisor mode"
  else if intr_get r then panic "kerneltrap: interrupts enabled"
  else
    which_dev ← devintr;
    if which_dev =? 0 then panic "kerneltrap"
    else
      s ← get;
      _ ← (if (which_dev =? 2) && k_proc (rest s) then k_yield else mret tt : prog (tst W) unit);
      _ ← modify (set_regs (w_sepc (sepc r)));
      modify (set_regs (w_sstatus (sstatus r))).

(** * The clock (kernel/sysproc.c) *)

(** [sys_pause] from its start or from a wake-up: [None] means that it sleeps. *)
Definition sys_pause_run (n ticks0 : Z) : prog (tst W) (option Z) :=
  s ← get;
  let n := if n <? 0 then 0 else n in
  if u32 (ticks s - ticks0) <? n then
    k ← on_rest k_killed;
    if (k : bool) then mret (Some (-1)) else mret None
  else mret (Some 0).

Definition sys_uptime : prog (tst W) Z := s ← get; mret (ticks s).

End Traps.
