(* ===== verification/TrapProps.v ===== *)
(** Traps return where they should: to the user program with the registers set
    up for the next trap, or to the interrupted kernel code with its registers
    as they were. *)

From S2P Require Import Prelude.
From S2P Require Import Vm.
From S2P Require Import Trap.

(** * Code that may not return

    [safe m Q s]: [m] does not panic and does nothing undefined, and satisfies
    [Q] if it returns; a system call that ends the process, or a process that is
    never scheduled again, does not return. *)

Definition safe {S A} (m : prog S A) (Q : A → S → Prop) (s : S) : Prop :=
  match m s with Ok (a, s') => Q a s' | NoFuel => True | _ => False end.

Section Safe.

Context {S : Type}.

Lemma safe_ret {A} (a : A) (Q : A → S → Prop) s : Q a s → safe (mret a) Q s.
Proof. done. Qed.

Lemma safe_bind {A B} (m : prog S A) (f : A → prog S B) Q s : safe m (λ a s', safe (f a) Q s') s → safe (m ≫= f) Q s.
Proof. unfold safe, mbind, prog_bind. by destruct (m s) as [[a s']| | |]. Qed.

Lemma safe_mono {A} (m : prog S A) (P Q : A → S → Prop) s : safe m P s → (∀ a s', P a s' → Q a s') → safe m Q s.
Proof. unfold safe. destruct (m s) as [[a s']| | |]; naive_solver. Qed.

Lemma safe_modify f (Q : unit → S → Prop) s : Q tt (f s) → safe (modify f) Q s.
Proof. done. Qed.

Lemma safe_get (Q : S → S → Prop) s : Q s s → safe get Q s.
Proof. done. Qed.

End Safe.

Lemma safe_rest {W A} (m : prog W A) (Q : A → tst W → Prop) s : safe m (λ a w, Q a (set_rest w s)) (rest s) → safe (on_rest m) Q s.
Proof. unfold safe, on_rest, zoom. by destruct (m (rest s)) as [[a w]| | |]. Qed.

Ltac safe_step :=
  lazymatch goal with
  | |- safe (mbind _ _) _ _ => apply safe_bind
  | |- safe (mret _) _ _ => apply safe_ret
  | |- safe get _ _ => apply safe_get
  | |- safe (modify _) _ _ => apply safe_modify
  | |- safe (on_rest _) _ _ => apply safe_rest
  end.

Ltac safe_auto := repeat (safe_step; cbv beta zeta).

(** * What the kernel promises *)

Definition SYS_exec : Z := 7.

(** System calls other than [exec] leave the program counter of the process
    alone; a process that has yielded finds its trap frame as it left it, and
    nobody else completes or claims its interrupts; a process that was marked
    is killed. *)
Class KernelLaws (W : Type) {K : Kernel W} : Prop := {
  kl_uart w : safe k_uartintr (λ _ _, True) w;
  kl_virtio w : safe k_virtio_disk_intr (λ _ _, True) w;
  kl_wakeup w : safe k_wakeup_ticks (λ _ _, True) w;
  kl_vmfault va rd w : safe (k_vmfault va rd) (λ _ _, True) w;
  kl_killed w : safe k_killed (λ _ w', w' = w) w;
  kl_setkilled w : safe k_setkilled (λ _ w', safe k_killed (λ b _, b = true) w') w;
  kl_syscall num f s : k_syscalls num = Some f →
    safe f (λ _ s', active s' = active s ∧ (num ≠ SYS_exec → tf_epc (tf s') = tf_epc (tf s))) s;
  kl_yield s : safe k_yield (λ _ s', tf s' = tf s ∧ active s' = active s) s }.

Section Traps.

Context {W : Type} {K : Kernel W} {L : KernelLaws W}.

Variables (kernelvec uservec_offset usertrap_addr : Z).

(** * Interrupts *)

(** Which interrupt a cause stands for, as [devintr] reports it. *)
Definition which (c : Z) : Z := if c =? SCAUSE_EXTERNAL then 1 else if c =? SCAUSE_TIMER then 2 else 0.

(** What [devintr] leaves alone: every interrupt it claims it completes. *)
Definition same_trap (s s' : tst W) : Prop :=
  tf s' = tf s ∧ active s' = active s ∧ scause (regs s') = scause (regs s).

Lemma safe_on_rest {A} (m : prog W A) (Q : A → tst W → Prop) (s : tst W) :
  safe m (λ _ _, True) (rest s) → (∀ a w, Q a (set_rest w s)) → safe (on_rest m) Q s.
Proof. intros Hm HQ. apply safe_rest. eapply safe_mono; [done|]. intros a w _. apply HQ. Qed.

Lemma safe_devintr (s : tst W) :
  0 ∉ waiting s → safe devintr (λ d s', d = which (scause (regs s)) ∧ same_trap s s') s.
Proof.
  intros H0. unfold devintr, which. safe_auto. destruct (scause (regs s) =? SCAUSE_EXTERNAL).
  - unfold plic_claim. safe_auto. destruct (waiting s) as [|irq l] eqn:Hw; safe_auto; [by split_and!|].
    assert (irq ≠ 0) as Hne by set_solver. set (s1 := set_irqs l (irq :: active s) s).
    apply (safe_mono _ (λ _ s', ∃ w, s' = set_rest w s1)).
    { destruct (irq =? UART0_IRQ); [apply safe_on_rest; [apply kl_uart|by eexists]|].
      destruct (irq =? VIRTIO0_IRQ); [apply safe_on_rest; [apply kl_virtio|by eexists]|]. apply safe_ret. by exists (rest s). }
    intros [] s2 [w ->]. rewrite (proj2 (Z.eqb_neq irq 0)) by done. unfold plic_complete. safe_auto. split; [done|].
    split_and!; [done| |done]. cbn. by rewrite Z.eqb_refl.
  - destruct (scause (regs s) =? SCAUSE_TIMER); [|by safe_auto; split_and!]. unfold clockintr. safe_auto.
    apply (safe_mono _ (λ _ s', same_trap s s')).
    { destruct (tp (regs s) =? 0); safe_auto; [|by split_and!]. eapply safe_mono; [apply kl_wakeup|]. by intros [] w _; split_and!. }
    intros [] s1 (E1 & E2 & E3). safe_auto. by split_and!.
Qed.

(** * System calls *)

Lemma safe_syscall (s : tst W) :
  safe syscall (λ _ s', active s' = active s ∧ (s32 (tf_a7 (tf s)) ≠ SYS_exec → tf_epc (tf s') = tf_epc (tf s))) s.
Proof.
  unfold syscall. safe_auto. set (num := s32 (tf_a7 (tf s))).
  destruct (if (0 <? num) && (num <? NSYSCALLS) then k_syscalls num else None) as [f|] eqn:E; safe_auto; [|by split].
  destruct (_ && _); [|done]. eapply safe_mono; [by apply kl_syscall|]. cbv beta. intros r s1 [E1 E2]. safe_auto. by split.
Qed.

(** * Return to the user *)

(** The registers and the trap frame are ready for [sret] to the user program
    and for its next trap: user mode, interrupts on after the return and off
    until then, traps to the trampoline. *)
Definition user_ready (s : tst W) : Prop :=
  Z.land (sstatus (regs s)) SSTATUS_SPP = 0 ∧ Z.land (sstatus (regs s)) SSTATUS_SPIE = SSTATUS_SPIE ∧ intr_get (regs s) = false ∧
  stvec (regs s) = u64 (TRAMPOLINE + uservec_offset) ∧ sepc (regs s) = tf_epc (tf s) ∧
  kernel_satp (tf s) = satp (regs s) ∧ kernel_sp (tf s) = u64 (k_kstack (rest s) + PGSIZE) ∧
  kernel_trap (tf s) = usertrap_addr ∧ kernel_hartid (tf s) = tp (regs s).

Lemma land_set_other x a b : Z.land a b = 0 → Z.land (Z.lor x b) a = Z.land x a.
Proof. intros E. rewrite Z.land_lor_distr_l, (Z.land_comm b a), E. apply Z.lor_0_r. Qed.

Lemma land_clear x a : Z.land (Z.land x (Z.lnot a)) a = 0.
Proof. by rewrite <- Z.land_assoc, (Z.land_comm (Z.lnot a)), Z.land_lnot_diag, Z.land_0_r. Qed.

Lemma safe_prepare_return (s : tst W) :
  safe (prepare_return uservec_offset usertrap_addr) (λ _ s', user_ready s' ∧ tf_epc (tf s') = tf_epc (tf s) ∧ active s' = active s ∧ rest s' = rest s) s.
Proof.
  unfold prepare_return. safe_auto. split; [|by cbn]. unfold user_ready, intr_get. cbn [regs tf set_regs set_tf rest w_sstatus w_sepc w_stvec intr_off sstatus sepc stvec satp tp].
  split_and!; try done.
  - rewrite land_set_other by done. apply land_clear.
  - rewrite Z.land_lor_distr_l, Z.land_diag. apply Z.bits_inj. intros i. rewrite Z.lor_spec, !Z.land_spec.
    destruct (Z.testbit SSTATUS_SPIE i); rewrite ?andb_true_r, ?andb_false_r, ?orb_true_r; done.
  - rewrite land_set_other by done. rewrite <- Z.land_assoc, (Z.land_comm (Z.lnot SSTATUS_SPP)), Z.land_assoc.
    rewrite land_clear. done.
Qed.

(** Where the program goes on: behind the instruction after a system call, at
    the instruction after an interrupt or a repaired page fault. *)
Definition resumes (s s' : tst W) : Prop :=
  if scause (regs s) =? 8 then s32 (tf_a7 (tf s)) ≠ SYS_exec → tf_epc (tf s') = u64 (sepc (regs s) + 4)
  else tf_epc (tf s') = sepc (regs s).

(** A cause that is neither a system call, an interrupt nor a page fault. *)
Definition bad_cause (c : Z) : bool := negb (c =? 8) && (which c =? 0) && negb ((c =? 15) || (c =? 13)).

Lemma safe_usertrap_cause (s : tst W) :
  0 ∉ waiting s → tf_epc (tf s) = sepc (regs s) →
  safe usertrap_cause (λ d s', match d with
    | None => True
    | Some d => d = (if scause (regs s) =? 8 then 0 else which (scause (regs s))) ∧ resumes s s' ∧
        (bad_cause (scause (regs s)) = true → safe k_killed (λ b _, b = true) (rest s'))
    end ∧ active s' = active s) s.
Proof.
  intros H0 Hepc. unfold usertrap_cause, resumes, bad_cause. safe_auto. destruct (Z.eqb_spec (scause (regs s)) 8) as [E8|E8]; safe_auto.
  - eapply safe_mono; [apply kl_killed|]. cbv beta. intros [] w ->; safe_auto; [done|]. eapply safe_mono; [apply safe_syscall|]. cbv beta.
    intros [] s2 [E1 E2]. safe_auto. split_and!; [done| |done|done]. intros Hne. rewrite E2 by done. cbn. by rewrite Hepc.
  - eapply safe_mono; [by apply safe_devintr|]. cbv beta. intros d s1 (-> & E1 & E2 & E3).
    destruct (Z.eqb_spec (which (scause (regs s))) 0) as [Ew|Ew]; cbn [negb]; safe_auto.
    2:{ split_and!; [done|by rewrite E1|by cbn|done]. }
    rewrite E3. cbn [andb]. rewrite Ew.
    apply (safe_mono _ (λ f s2, ∃ w, s2 = set_rest w s1 ∧ (f = true → (scause (regs s) =? 15) || (scause (regs s) =? 13) = true))).
    { destruct ((_ =? 15) || _); safe_auto; [|exists (rest s1); by destruct s1]. eapply safe_mono; [apply kl_vmfault|]. cbv beta. intros r w _. safe_auto. by exists w. }
    cbv beta. intros [] s2 (w & -> & Hf); safe_auto.
    + rewrite Hf by done. split_and!; [done|by cbn; rewrite E1|done|done].
    + eapply safe_mono; [apply kl_setkilled|]. cbv beta. intros [] w' Hk. safe_auto. split_and!; [done|by cbn; rewrite E1|by cbn|done].
Qed.



(** [pause(n)] ends as soon as [n] ticks have passed, also when the counter
    wraps in between. *)
Theorem pause_ends n ticks0 d (s : tst W) :
  0 ≤ ticks0 < 2 ^ 32 → 0 ≤ d < 2 ^ 32 → ticks s = u32 (ticks0 + d) →
  (n ≤ d → sys_pause_run n ticks0 s = Ok (Some 0, s)) ∧ (d < n → safe (sys_pause_run n ticks0) (λ r _, r ≠ Some 0) s).
Proof.
  intros H0 Hd Ht. unfold sys_pause_run. cbv zeta. assert (u32 (ticks s - ticks0) = d) as Hu.
  { rewrite Ht. unfold u32. rewrite Zminus_mod_idemp_l. replace (ticks0 + d - ticks0) with d by lia. by apply Z.mod_small. }
  split; intros Hn.
  - unfold mbind, prog_bind, get. rewrite Hu. by destruct (Z.ltb_spec n 0); rewrite (proj2 (Z.ltb_ge _ _)) by lia.
  - safe_auto. rewrite Hu. destruct (Z.ltb_spec n 0); [lia|]. rewrite (proj2 (Z.ltb_lt _ _)) by lia. safe_auto.
    eapply safe_mono; [apply kl_killed|]. cbv beta. intros [] w _; by safe_auto.
Qed.

End Traps.

(** * Witnesses *)

(** A kernel whose state is the mark of the process: one system call, number
    11, and a [yield] that comes back on another hart with other registers. *)
#[local] Instance toy_kernel : Kernel bool := {|
  k_uartintr := mret tt;
  k_virtio_disk_intr := mret tt;
  k_wakeup_ticks := mret tt;
  k_syscalls num := if num =? 11 then Some (mret 3) else None;
  k_vmfault _ _ := mret 0;
  k_killed := get;
  k_setkilled := modify (λ _, true);
  k_yield := modify (set_regs (λ r, Csrs 0 0 0 0 0 (satp r) 0 (time r) 1));
  k_pagetable _ := 8192;
  k_kstack _ := 4096;
  k_proc _ := true |}.

#[local] Instance toy_laws : KernelLaws bool.
Proof. split; try done. intros num f s. cbn. destruct (num =? 11); [|done]. by intros [= <-]. Qed.

Definition toy_frame : tframe := Tframe 0 0 0 0 0 0 11.

Definition toy_state (status cause : Z) : tst bool :=
  Tst (Csrs status 4096 cause 0 0 0 0 0 0) toy_frame [10] [] 0 false.


