(* ===== verification/Sh.v ===== *)
(** The command language of the shell (user/sh.c): tokens, the recursive-descent
    parser and the NUL-termination of its words. *)

From Stdlib Require Import Ascii.
From S2P Require Import Prelude.
From S2P Require Import Sysfile.

(** * Data *)

Definition MAXARGS : Z := 10.

Definition ch (a : ascii) : Z := Z.of_nat (nat_of_ascii a).

Definition text (s : string) : list Z := ch <$> String.list_ascii_of_string s.

(** Words are places in the line: [argv] and [eargv], [file] and [efile]. *)
Record redir := Redir {
  file : Z;
  efile : Z;
  mode : Z;
  fd : Z }.

Inductive cmd : Type :=
  | EXEC (argv : list (Z * Z))
  | REDIR (c : cmd) (r : redir)
  | PIPE (left right : cmd)
  | LIST (left right : cmd)
  | BACK (c : cmd).

(** space, tab, return, newline, vertical tab *)
Definition whitespace : list Z := [32; 9; 13; 10; 11].

Definition symbols : list Z := text "<|>&;()".

(** [strchr] as a condition, for a character that is not NUL. *)
Definition strchr (l : list Z) (c : Z) : bool := existsb (Z.eqb c) l.

(** * Tokens *)

Section Parse.

(** The line without its NUL; the state of the parser is [*ps], the place it has
    reached. *)
Variable line : list Z.

Definition es : Z := zlen line.

(** [*s] *)
Definition cur : prog Z Z := s ← get; of_option ((line ++ [0]) !! Z.to_nat s).

Definition advance : prog Z unit := modify (Z.add 1).

(** [while(s < es && p( *s)) s++] *)
Definition skip_chars (p : Z → bool) : prog Z unit :=
  loop (S (length line))
    (λ _ : unit,
       s ← get;
       if s <? es then
         c ← cur;
         if p c then _ ← advance; mret (inl tt) else mret (inr tt)
       else mret (inr tt))
    tt.

Definition skip_space : prog Z unit := skip_chars (strchr whitespace).

(** The token, and the places [*q] and [*eq] of its text. *)
Definition gettoken : prog Z (Z * Z * Z) :=
  _ ← skip_space;
  q ← get;
  c ← cur;
  ret ← (if c =? 0 then mret 0
         else if strchr (text "|();&<") c then _ ← advance; mret c
         else if c =? ch ">" then
           _ ← advance;
           d ← cur;
           if d =? ch ">" then _ ← advance; mret (ch "+") else mret c
         else _ ← skip_chars (λ c, negb (strchr whitespace c) && negb (strchr symbols c)); mret (ch "a") : prog Z Z);
  eq ← get;
  _ ← skip_space;
  mret (ret, q, eq).

Definition peek (toks : list Z) : prog Z bool :=
  _ ← skip_space;
  c ← cur;
  mret (negb (c =? 0) && strchr toks c).

(** * Commands *)

(** One round of [parseredirs]: the redirections so far, the innermost first. *)
Definition redirs_body (rs : list redir) : prog Z (list redir + list redir) :=
  p ← peek (text "<>");
  if (p : bool) then
    '(tok, _, _) ← gettoken;
    '(t, q, eq) ← gettoken;
    if negb (t =? ch "a") then panic "missing file for redirection"
    else if tok =? ch "<" then mret (inl (rs ++ [Redir q eq O_RDONLY 0]))
    else if tok =? ch ">" then mret (inl (rs ++ [Redir q eq (Z.lor (Z.lor O_WRONLY O_CREATE) O_TRUNC) 1]))
    else if tok =? ch "+" then mret (inl (rs ++ [Redir q eq (Z.lor O_WRONLY O_CREATE) 1]))
    else mret (inl rs)
  else mret (inr rs).

Definition parse_redirs : prog Z (list redir) := loop (S (length line)) redirs_body [].

Definition redirect (c : cmd) (rs : list redir) : cmd := foldl REDIR c rs.

Definition parseredirs (c : cmd) : prog Z cmd := rs ← parse_redirs; mret (redirect c rs).

(** The words of a simple command, with the redirections between them. *)
Definition args_body (st : list (Z * Z) * list redir) : prog Z (list (Z * Z) * list redir + cmd) :=
  let '(argv, rs) := st in
  p ← peek (text "|)&;");
  if (p : bool) then mret (inr (redirect (EXEC argv) rs))
  else
    '(tok, q, eq) ← gettoken;
    if tok =? 0 then mret (inr (redirect (EXEC argv) rs))
    else if negb (tok =? ch "a") then panic "syntax"
    else
      let argv := argv ++ [(q, eq)] in
      if MAXARGS <=? zlen argv then panic "too many args"
      else
        rs' ← parse_redirs;
        mret (inl (argv, rs ++ rs')).

Definition parse_args (rs : list redir) : prog Z cmd := loop (S (length line)) args_body ([], rs).

(** [while(peek(ps, es, "&"))] of [parseline] *)
Definition backs_body (c : cmd) : prog Z (cmd + cmd) :=
  p ← peek (text "&");
  if (p : bool) then _ ← gettoken; mret (inl (BACK c)) else mret (inr c).

Definition parse_backs (c : cmd) : prog Z cmd := loop (S (length line)) backs_body c.

(** The four functions call each other; [fuel] bounds the nesting. *)
Fixpoint parseline (fuel : nat) : prog Z cmd :=
  match fuel with
  | O => λ _, NoFuel
  | S fuel =>
      c ← parsepipe fuel;
      c ← parse_backs c;
      p ← peek (text ";");
      if (p : bool) then _ ← gettoken; r ← parseline fuel; mret (LIST c r) else mret c
  end
with parsepipe (fuel : nat) : prog Z cmd :=
  match fuel with
  | O => λ _, NoFuel
  | S fuel =>
      c ← parseexec fuel;
      p ← peek (text "|");
      if (p : bool) then _ ← gettoken; r ← parsepipe fuel; mret (PIPE c r) else mret c
  end
with parseexec (fuel : nat) : prog Z cmd :=
  match fuel with
  | O => λ _, NoFuel
  | S fuel =>
      p ← peek (text "(");
      if (p : bool) then parseblock fuel else rs ← parse_redirs; parse_args rs
  end
with parseblock (fuel : nat) : prog Z cmd :=
  match fuel with
  | O => λ _, NoFuel
  | S fuel =>
      p ← peek (text "(");
      if negb p then panic "parseblock"
      else
        _ ← gettoken;
        c ← parseline fuel;
        p ← peek (text ")");
        if negb p then panic "syntax - missing )" else _ ← gettoken; parseredirs c
  end.

(** The nesting is bounded by the length of the line. *)
Definition parse_fuel : nat := 4 * S (length line).

End Parse.

(** * The end of words *)

(** [*p = 0] *)
Definition nul_at (p : Z) : prog (list Z) unit :=
  buf ← get;
  if (0 <=? p) && (p <? zlen buf) then modify (<[Z.to_nat p := 0]>) else undefined.

Fixpoint nul_args (l : list (Z * Z)) : prog (list Z) unit :=
  match l with [] => mret tt | (_, e) :: l => _ ← nul_at e; nul_args l end.

Fixpoint nulterminate (c : cmd) : prog (list Z) unit :=
  match c with
  | EXEC argv => nul_args argv
  | REDIR c r => _ ← nulterminate c; nul_at (efile r)
  | PIPE l r => _ ← nulterminate l; nulterminate r
  | LIST l r => _ ← nulterminate l; nulterminate r
  | BACK c => nulterminate c
  end.

(** The parser on the whole line. *)
Definition parse_whole (line : list Z) : prog Z cmd :=
  c ← parseline line (parse_fuel line);
  _ ← peek line [];
  mret c.

(** [parsecmd] on the buffer that holds the line and its NUL. *)
Definition parsecmd (line : list Z) : prog (list Z) cmd :=
  '(c, s) ← (λ buf, match parse_whole line 0 with
                    | Ok (c, s) => Ok ((c, s), buf)
                    | Panic msg => Panic msg
                    | UB => UB
                    | NoFuel => NoFuel
                    end : outcome (cmd * Z * list Z));
  if negb (s =? es line) then panic "syntax" else _ ← nulterminate c; mret c.
