(* ===== verification/ShProps.v ===== *)
(** The shell's parser reads back every command tree that is printed, and
    leaves its words NUL-terminated in the line; it ends on every line. *)

From Stdlib Require Import Ascii.
From S2P Require Import Prelude.
From S2P Require Import Sysfile.
From S2P Require Import Sh.

(** * Printed commands *)

Inductive rdir : Set := RIn | ROut | RAppend.

Inductive tree : Type :=
  | TExec (args : list (list Z))
  | TRedir (t : tree) (d : rdir) (w : list Z)
  | TPipe (l r : tree)
  | TList (l r : tree)
  | TBack (t : tree).

Definition rsym (d : rdir) : list Z := match d with RIn => text "<" | ROut => text ">" | RAppend => text ">>" end.

Definition rmode (d : rdir) : Z * Z :=
  match d with
  | RIn => (O_RDONLY, 0)
  | ROut => (Z.lor (Z.lor O_WRONLY O_CREATE) O_TRUNC, 1)
  | RAppend => (Z.lor O_WRONLY O_CREATE, 1)
  end.

Definition in_parens (l : list Z) : list Z := text "(" ++ l ++ text ")".

Definition pr_args (ws : list (list Z)) : list Z := mjoin ((λ w, w ++ [32]) <$> ws).

Fixpoint pr (t : tree) : list Z :=
  match t with
  | TExec ws => pr_args ws
  | TRedir t d w => in_parens (pr t) ++ rsym d ++ w
  | TPipe l r => in_parens (pr l) ++ text "|" ++ in_parens (pr r)
  | TList l r => in_parens (pr l) ++ text ";" ++ in_parens (pr r)
  | TBack t => in_parens (pr t) ++ text "&"
  end.

(** Words are not empty and have no white space, symbols or NUL; a command has
    fewer than [MAXARGS] of them. *)
Definition wordchar (c : Z) : bool := negb (strchr whitespace c) && negb (strchr symbols c).

Definition is_word (w : list Z) : Prop := w ≠ [] ∧ Forall (λ c, c ≠ 0 ∧ wordchar c = true) w.

Fixpoint tree_ok (t : tree) : Prop :=
  match t with
  | TExec ws => Forall is_word ws ∧ zlen ws < MAXARGS
  | TRedir t _ w => tree_ok t ∧ is_word w
  | TPipe l r => tree_ok l ∧ tree_ok r
  | TList l r => tree_ok l ∧ tree_ok r
  | TBack t => tree_ok t
  end.

(** * The parser on the rest of the line *)

Fixpoint dropw (p : Z → bool) (l : list Z) : list Z :=
  match l with [] => [] | c :: l' => if p c then dropw p l' else l end.

Abbreviation strip := (dropw (strchr whitespace)).

Lemma dropw_idem p l : dropw p (dropw p l) = dropw p l.
Proof. induction l as [|c l IH]; [done|]. cbn. destruct (p c) eqn:E; [done|]. cbn. by rewrite E. Qed.

Lemma dropw_app p l l' : Forall (λ c, p c = true) l → dropw p (l ++ l') = dropw p l'.
Proof. induction 1 as [|c l Hc _ IH]; [done|]. cbn. by rewrite Hc. Qed.

Lemma dropw_le p l : (length (dropw p l) ≤ length l)%nat.
Proof. induction l as [|c l IH]; [done|]. cbn. destruct (p c); cbn; lia. Qed.

(** The first character is one of [toks]. *)
Definition starts (toks l : list Z) : bool := match strip l with [] => false | c :: _ => strchr toks c end.

Lemma starts_strip toks l : starts toks (strip l) = starts toks l.
Proof. unfold starts. by rewrite dropw_idem. Qed.

(** The token at the start of a line, and what follows it. *)
Definition lex (l : list Z) : Z * list Z :=
  match l with
  | [] => (0, [])
  | c :: r =>
      if strchr (text "|();&<") c then (c, r)
      else if c =? ch ">" then
        match r with
        | d :: r' => if d =? ch ">" then (ch "+", r') else (c, r)
        | [] => (c, r)
        end
      else (ch "a", dropw wordchar l)
  end.

(** ** Characters *)

Lemma strchr_in l c : strchr l c = true ↔ c ∈ l.
Proof.
  unfold strchr. rewrite existsb_exists. setoid_rewrite Z.eqb_eq. split.
  - intros (x & Hx & ->). by apply list_elem_of_In.
  - intros H. exists c. split; [by apply list_elem_of_In|done].
Qed.

Lemma symbol_cases c : strchr symbols c = true → c = 60 ∨ c = 124 ∨ c = 62 ∨ c = 38 ∨ c = 59 ∨ c = 40 ∨ c = 41.
Proof. intros H%strchr_in. change symbols with [60; 124; 62; 38; 59; 40; 41] in H. set_solver. Qed.

Lemma strip_symbol c l : strchr symbols c = true → strip (c :: l) = c :: l.
Proof. intros H%symbol_cases. destruct H as [->|[->|[->|[->|[->|[->| ->]]]]]]; done. Qed.

Lemma starts_symbol toks c l : strchr symbols c = true → starts toks (c :: l) = strchr toks c.
Proof. intros H. unfold starts. by rewrite strip_symbol. Qed.

Lemma wordchar_not toks c : forallb (strchr symbols) toks = true → wordchar c = true → strchr toks c = false.
Proof.
  intros Ht [_ Hc%negb_true_iff]%andb_true_iff. destruct (strchr toks c) eqn:E; [|done]. apply strchr_in in E.
  rewrite forallb_forall in Ht. rewrite Ht in Hc; [done|]. by apply list_elem_of_In.
Qed.

(** What may follow a word. *)
Definition delim (l : list Z) : Prop := match l with [] => True | c :: _ => wordchar c = false end.

Lemma word_head w : is_word w → ∃ c w', w = c :: w' ∧ c ≠ 0 ∧ wordchar c = true.
Proof. intros [Hne Hw]. destruct w as [|c w']; [done|]. apply Forall_cons in Hw as [[? ?] _]. by exists c, w'. Qed.

Lemma strip_word w l : is_word w → strip (w ++ l) = w ++ l.
Proof. intros Hw. destruct (word_head w Hw) as (c & w' & -> & _ & [H%negb_true_iff _]%andb_true_iff). cbn [app dropw]. by rewrite H. Qed.

Lemma starts_word toks w l : is_word w → forallb (strchr symbols) toks = true → starts toks (w ++ l) = false.
Proof.
  intros Hw Ht. unfold starts. rewrite strip_word by done. destruct (word_head w Hw) as (c & w' & -> & _ & Hc). cbn. by apply wordchar_not.
Qed.

Lemma lex_word w l : is_word w → delim l → lex (w ++ l) = (ch "a", l).
Proof.
  intros Hw Hl. assert (dropw wordchar (w ++ l) = l) as Hd.
  { rewrite dropw_app; [|eapply Forall_impl; [apply Hw|by intros c [_ ?]]]. destruct l as [|c l]; [done|]. cbn in *. by rewrite Hl. }
  destruct (word_head w Hw) as (c & w' & -> & _ & Hc). cbn [app] in *. unfold lex. rewrite Hd.
  rewrite (wordchar_not (text "|();&<") _ eq_refl Hc).
  destruct (Z.eqb_spec c (ch ">")) as [->|]; [done|]. done.
Qed.

Section Rest.

Context (line : list Z) (Hnz : 0 ∉ line).

Abbreviation pos r := (zlen line - zlen r).

(** [r] is what is left of the line. *)
Definition left_over (r : list Z) : Prop := ∃ pre, line = pre ++ r.

Lemma left_cons c r : left_over (c :: r) → left_over r.
Proof. intros [pre E]. exists (pre ++ [c]). by rewrite <- app_assoc. Qed.

Lemma left_app l r : left_over (l ++ r) → left_over r.
Proof. intros [pre E]. exists (pre ++ l). by rewrite <- app_assoc. Qed.

Lemma left_dropw p r : left_over r → left_over (dropw p r).
Proof. induction r as [|c r IH]; [done|]. cbn. intros H. destruct (p c); [|done]. eapply IH, left_cons, H. Qed.

Lemma left_nz c r : left_over (c :: r) → c ≠ 0.
Proof. intros [pre E] ->. apply Hnz. rewrite E. set_solver. Qed.

Lemma left_len r : left_over r → zlen r ≤ zlen line.
Proof. intros [pre E]. apply (f_equal length) in E. rewrite length_app in E. lia. Qed.

Lemma wp_cur r (Q : Z → Z → Prop) : left_over r → Q (hd 0 r) (pos r) → wp (cur line) Q (pos r).
Proof.
  intros [pre E] HQ. unfold cur. wp_auto. assert ((line ++ [0]) !! Z.to_nat (pos r) = Some (hd 0 r)) as ->; [|exact HQ].
  rewrite E, length_app. replace (Z.to_nat _) with (length pre) by lia. rewrite <- app_assoc, lookup_app_r, Nat.sub_diag by lia. by destruct r.
Qed.

Lemma pos_tail (c : Z) (r : list Z) : 1 + pos (c :: r) = pos r.
Proof. cbn [length]. lia. Qed.

Lemma wp_skip_chars p r (Q : unit → Z → Prop) :
  left_over r → Q tt (pos (dropw p r)) → wp (skip_chars line p) Q (pos r).
Proof.
  intros Hr HQ. unfold skip_chars.
  apply (wp_loop (λ n _ s, ∃ r', n = length r' ∧ s = pos r' ∧ left_over r' ∧ dropw p r' = dropw p r) (length r)).
  { by exists r. }
  { pose proof (left_len r Hr). lia. }
  intros n [] s (r' & -> & -> & Hr' & E). wp_auto. unfold es. destruct r' as [|c r'].
  - rewrite (proj2 (Z.ltb_ge _ _)) by (cbn; lia). wp_auto. by rewrite <- E in HQ.
  - rewrite (proj2 (Z.ltb_lt _ _)) by (cbn; lia). apply wp_bind, wp_cur; [done|]. cbn [hd]. cbn in E. destruct (p c) eqn:Hp; unfold advance; wp_auto.
    + exists (length r'). split; [cbn; lia|]. exists r'. split_and!; [done|by rewrite pos_tail|by eapply left_cons|done].
    + by rewrite <- E in HQ.
Qed.

Lemma wp_skip_space r (Q : unit → Z → Prop) : left_over r → Q tt (pos (strip r)) → wp (skip_space line) Q (pos r).
Proof. apply wp_skip_chars. Qed.

Lemma wp_peek toks r (Q : bool → Z → Prop) :
  left_over r → Q (starts toks r) (pos (strip r)) → wp (peek line toks) Q (pos r).
Proof.
  intros Hr HQ. unfold peek. apply wp_bind, wp_skip_space; [done|]. apply wp_bind, wp_cur; [by apply left_dropw|]. wp_auto.
  unfold starts in HQ. destruct (strip r) as [|c r'] eqn:E; [done|]. cbn [hd].
  rewrite (proj2 (Z.eqb_neq c 0)); [done|]. eapply left_nz. rewrite <- E. by apply left_dropw.
Qed.

Lemma wp_gettoken r (Q : Z * Z * Z → Z → Prop) :
  left_over r → (let '(t, r2) := lex (strip r) in Q (t, pos (strip r), pos r2) (pos (strip r2))) → wp (gettoken line) Q (pos r).
Proof.
  intros Hr HQ. unfold gettoken. apply wp_bind, wp_skip_space; [done|]. pose proof (left_dropw (strchr whitespace) r Hr) as Hs. wp_auto.
  assert (∀ t r2, left_over r2 → Q (t, pos (strip r), pos r2) (pos (strip r2)) →
    wp (skip_space line) (λ _ s', wp (mret (t, pos (strip r), pos r2)) Q s') (pos r2)) as Hend.
  { intros t r2 H2 HQ2. apply wp_skip_space; [done|]. by wp_auto. }
  apply wp_cur; [done|]. apply wp_bind. unfold lex in HQ. destruct (strip r) as [|c r'] eqn:E; cbn [hd]; [rewrite Z.eqb_refl; wp_auto; by apply (Hend 0 [])|].
  rewrite (proj2 (Z.eqb_neq c 0)) by (by eapply left_nz). unfold advance. pose proof (left_cons _ _ Hs) as Hs'.
  destruct (strchr _ c); [wp_auto; rewrite pos_tail; by apply Hend|].
  destruct (c =? ch ">").
  - wp_auto. rewrite pos_tail. apply wp_cur; [done|]. destruct r' as [|d r'']; cbn [hd]; [change (0 =? ch ">") with false; cbv iota; wp_auto; by apply (Hend c [])|].
    destruct (d =? ch ">"); wp_auto; [rewrite pos_tail; apply Hend; [by eapply left_cons|done]|by apply Hend].
  - apply wp_bind, wp_skip_chars; [done|]. wp_auto. apply Hend; [by apply left_dropw|done].
Qed.

(** ** Parsed trees *)

(** The place of a word in the line. *)
Definition wordat (p : Z * Z) (w : list Z) : Prop :=
  ∃ l, p = (pos (w ++ l), pos l) ∧ left_over (w ++ l) ∧ is_word w ∧ delim l.

Fixpoint matches (c : cmd) (t : tree) : Prop :=
  match c, t with
  | EXEC argv, TExec ws => Forall2 wordat argv ws
  | REDIR c r, TRedir t d w => matches c t ∧ wordat (file r, efile r) w ∧ (mode r, fd r) = rmode d
  | PIPE l r, TPipe l' r' => matches l l' ∧ matches r r'
  | LIST l r, TList l' r' => matches l l' ∧ matches r r'
  | BACK c, TBack t => matches c t
  | _, _ => False
  end.

Lemma wp_gettoken_word r w l (Q : Z * Z * Z → Z → Prop) :
  left_over r → strip r = w ++ l → is_word w → delim l →
  (wordat (pos (w ++ l), pos l) w → Q (ch "a", pos (w ++ l), pos l) (pos (strip l))) → wp (gettoken line) Q (pos r).
Proof.
  intros Hr E Hw Hl HQ. apply wp_gettoken; [done|]. rewrite E, lex_word by done. apply HQ. exists l. split_and!; [done| |done..].
  rewrite <- E. by apply left_dropw.
Qed.

(** A token of one character. *)
Lemma wp_gettoken_sym r c l (Q : Z * Z * Z → Z → Prop) :
  left_over r → strip r = c :: l → strchr (text "|();&<") c = true →
  (∀ q e, Q (c, q, e) (pos (strip l))) → wp (gettoken line) Q (pos r).
Proof. intros Hr E Hc HQ. apply wp_gettoken; [done|]. rewrite E. unfold lex. rewrite Hc. apply HQ. Qed.

Lemma left_strip r c l : left_over r → strip r = c :: l → left_over l.
Proof. intros Hr E. eapply left_cons. rewrite <- E. by apply left_dropw. Qed.

(** No redirection follows. *)
Lemma wp_parse_redirs_none r (Q : list redir → Z → Prop) :
  left_over r → starts (text "<>") r = false → Q [] (pos (strip r)) → wp (parse_redirs line) Q (pos r).
Proof. intros Hr Hs HQ. unfold parse_redirs, redirs_body. cbn [loop]. apply wp_bind, wp_bind, wp_peek; [done|]. rewrite Hs. by wp_auto. Qed.

Lemma wp_loop_step {S A B} fuel (body : A → prog S (A + B)) a s Q :
  wp (body a) (λ r s', match r with inl a' => wp (loop fuel body a') Q s' | inr b => Q b s' end) s → wp (loop (Datatypes.S fuel) body a) Q s.
Proof. intros H. cbn [loop]. apply wp_bind. eapply wp_mono; [exact H|]. by intros [a'|b] s' H'; [|wp_auto]. Qed.

Lemma lex_redir d w l : is_word w → ∃ t, lex (rsym d ++ w ++ l) = (t, w ++ l) ∧ t ≠ 0 ∧
  ((t = ch "<" ∧ d = RIn) ∨ (t = ch ">" ∧ d = ROut) ∨ (t = ch "+" ∧ d = RAppend)).
Proof.
  intros Hw. destruct (word_head w Hw) as (c & w' & -> & _ & Hc). destruct d; [exists (ch "<")|exists (ch ">")|exists (ch "+")]; (split; [|split; [done|tauto]]); try done.
  unfold lex. cbn [app rsym text fmap list_fmap String.list_ascii_of_string]. change (strchr _ (ch ">")) with false. cbv iota. rewrite Z.eqb_refl.
  destruct (Z.eqb_spec c (ch ">")) as [->|]; done.
Qed.

Lemma redir_start d l : strip (rsym d ++ l) = rsym d ++ l ∧ starts (text "<>") (rsym d ++ l) = true.
Proof. by destruct d. Qed.

(** One redirection follows. *)
Lemma wp_parse_redirs_one r d w l (Q : list redir → Z → Prop) :
  left_over r → strip r = rsym d ++ w ++ l → is_word w → delim l → starts (text "<>") l = false →
  (∀ x, wordat (file x, efile x) w → (mode x, fd x) = rmode d → Q [x] (pos (strip l))) → wp (parse_redirs line) Q (pos r).
Proof.
  intros Hr E Hw Hl Hs HQ. unfold parse_redirs. destruct (redir_start d (w ++ l)) as [E1 E2].
  assert (left_over (rsym d ++ w ++ l)) as Hl1 by (rewrite <- E; by apply left_dropw). assert (left_over (w ++ l)) as Hl2 by (by eapply left_app).
  assert (∃ n, S (length line) = S (S n)) as [n ->].
  { pose proof (left_len _ Hl1) as H. destruct Hw as [Hne _]. rewrite !length_app in H. destruct w; [done|]. destruct (length line) as [|n]; [cbn in H; lia|by exists n]. }
  apply wp_loop_step. unfold redirs_body at 1. apply wp_bind, wp_peek; [done|]. rewrite <- starts_strip, E, E2. apply wp_bind, wp_gettoken; [done|].
  rewrite E1. destruct (lex_redir d w l Hw) as (t & -> & _ & Ht). apply wp_bind. cbv beta iota.
  rewrite strip_word by done. eapply wp_gettoken_word; [done|by apply strip_word|done|done|]. intros Hat. rewrite Z.eqb_refl. cbn [negb].
  assert (left_over (strip l)) as Hl3 by (apply left_dropw; by eapply left_app).
  assert (∀ x, wordat (file x, efile x) w → (mode x, fd x) = rmode d → wp (loop (S n) (redirs_body line) [x]) Q (pos (strip l))) as Hrest.
  { intros x H1 H2. apply wp_loop_step. unfold redirs_body at 1. apply wp_bind, wp_peek; [done|]. rewrite starts_strip, Hs, dropw_idem. wp_auto. by apply HQ. }
  destruct Ht as [(-> & ->)|[(-> & ->)|(-> & ->)]]; wp_auto; cbn [app]; by apply Hrest.
Qed.

(** ** Commands *)

(** The command ends here: at the end of the line, or before one of the
    characters that end a simple command. *)
Definition ended (l : list Z) : Prop := strip l = [] ∨ starts (text "|)&;") l = true.

Lemma ended_cases l : ended l → strip l = [] ∨ ∃ c l', strip l = c :: l' ∧ (c = 124 ∨ c = 41 ∨ c = 38 ∨ c = 59).
Proof.
  intros [H|H]; [by left|right]. unfold starts in H. destruct (strip l) as [|c l']; [done|]. exists c, l'. split; [done|].
  apply strchr_in in H. change (text "|)&;") with [124; 41; 38; 59] in H. set_solver.
Qed.

Lemma ended_not toks l : ended l → forallb (λ c, negb (strchr (text "|)&;") c)) toks = true → starts toks l = false.
Proof.
  intros He Ht. unfold starts. destruct (strip l) as [|c l'] eqn:E; [done|]. destruct He as [He|He]; [congruence|]. unfold starts in He. rewrite E in He.
  destruct (strchr toks c) eqn:Hc; [|done]. apply strchr_in, list_elem_of_In in Hc. rewrite forallb_forall in Ht. apply Ht in Hc. by rewrite He in Hc.
Qed.

Lemma space_delim l : delim (32 :: l).
Proof. done. Qed.

Lemma pr_args_cons w ws l : pr_args (w :: ws) ++ l = w ++ 32 :: pr_args ws ++ l.
Proof. unfold pr_args. cbn. by rewrite <- !app_assoc. Qed.

(** What follows the words that have been read. *)
Lemma args_start toks ws l :
  Forall is_word ws → ended l → forallb (λ c, negb (strchr (text "|)&;") c)) toks = true → forallb (strchr symbols) toks = true →
  starts toks (pr_args ws ++ l) = false.
Proof.
  intros Hws He H1 H2. destruct Hws as [|w ws Hw Hws]; [by apply ended_not|]. rewrite pr_args_cons. by apply starts_word.
Qed.

Lemma wp_parse_args ws r l (Q : cmd → Z → Prop) :
  left_over r → strip r = strip (pr_args ws ++ l) → Forall is_word ws → zlen ws < MAXARGS → ended l →
  (∀ c, matches c (TExec ws) → Q c (pos (strip l))) → wp (parse_args line []) Q (pos r).
Proof.
  intros Hr E Hws Hlen He HQ. unfold parse_args.
  apply (wp_loop (λ n '(argv, rs) s, ∃ ws1 ws2 r', ws = ws1 ++ ws2 ∧ n = length ws2 ∧ rs = [] ∧ Forall2 wordat argv ws1 ∧ s = pos r' ∧
    left_over r' ∧ strip r' = strip (pr_args ws2 ++ l)) (length ws)).
  { exists [], ws, r. split_and!; try done. }
  { apply left_dropw with (p := strchr whitespace) in Hr as Hl. rewrite E in Hl. clear -Hl Hws E. assert (length ws ≤ length (pr_args ws))%nat as H.
    { clear. induction ws as [|w ws IH]; [done|]. rewrite <- (app_nil_r (pr_args (w :: ws))), pr_args_cons, app_nil_r, length_app. cbn [length]. lia. }
    destruct Hws as [|w ws Hw Hws]; [cbn; lia|]. rewrite pr_args_cons, strip_word, <- pr_args_cons in Hl by done. apply left_len in Hl. rewrite length_app in Hl. lia. }
  intros n [argv rs] s (ws1 & ws2 & r' & -> & -> & -> & Hargv & -> & Hr' & E'). apply Forall_app in Hws as [Hws1 Hws2]. unfold args_body.
  apply wp_bind, wp_peek; [done|]. rewrite <- starts_strip, E', starts_strip. destruct Hws2 as [|w ws2 Hw Hws2].
  - destruct He as [He|He].
    + change (pr_args [] ++ l) with l in *. assert (starts (text "|)&;") l = false) as -> by (unfold starts; by rewrite He).
      apply wp_bind, wp_gettoken; [rewrite <- E'; by apply left_dropw|]. rewrite dropw_idem, He. cbn. wp_auto. rewrite app_nil_r in *. by rewrite He in HQ; apply HQ.
    + change (pr_args [] ++ l) with l in *. rewrite He. wp_auto. rewrite app_nil_r in *. by apply HQ.
  - rewrite pr_args_cons in *. rewrite starts_word by done. rewrite strip_word in E' |- * by done.
    assert (left_over (w ++ 32 :: pr_args ws2 ++ l)) as Hl1 by (rewrite <- E'; by apply left_dropw).
    apply wp_bind. eapply wp_gettoken_word; [done|by apply strip_word|done|done|]. intros Hat. cbv iota beta.
    change (ch "a" =? 0) with false. rewrite Z.eqb_refl. cbn [negb]. cbv iota zeta.
    assert (zlen (argv ++ [(pos (w ++ 32 :: pr_args ws2 ++ l), pos (32 :: pr_args ws2 ++ l))]) < MAXARGS) as Hn.
    { apply Forall2_length in Hargv. rewrite !length_app in *. cbn [length] in *. lia. }
    rewrite (proj2 (Z.leb_gt _ _)) by exact Hn. apply wp_bind.
    assert (left_over (strip (32 :: pr_args ws2 ++ l))) as Hl2 by (apply left_dropw; by eapply left_app).
    apply wp_parse_redirs_none; [done| |].
    { rewrite starts_strip. by apply args_start. }
    wp_auto. exists (length ws2). split; [cbn; lia|]. exists (ws1 ++ [w]), ws2, (strip (strip (32 :: pr_args ws2 ++ l))).
    split_and!; [by rewrite <- app_assoc|done|done|by apply Forall2_app; [|constructor]|done|by apply left_dropw|by rewrite !dropw_idem].
Qed.

(** ** The grammar *)

(** [m] reads [t], when the rest of the line starts with [text], and stops
    before [l]. *)
Definition reads_as (m : prog Z cmd) (txt : list Z) (t : tree) (l : list Z) : Prop :=
  ∀ r, left_over r → strip r = strip (txt ++ l) → wp m (λ c s, matches c t ∧ s = pos (strip l)) (pos r).

(** A line ends at the end of the input or before a parenthesis. *)
Definition closed (l : list Z) : Prop := strip l = [] ∨ starts (text ")") l = true.

Lemma closed_ended l : closed l → ended l.
Proof.
  intros [H|H]; [by left|right]. unfold starts in *. destruct (strip l) as [|c l']; [done|]. apply strchr_in in H.
  change (text ")") with [41] in H. apply list_elem_of_singleton in H as ->. done.
Qed.

Lemma closed_not toks l : closed l → strchr toks 41 = false → starts toks l = false.
Proof.
  intros [H|H] Ht; unfold starts in *; destruct (strip l) as [|c l']; try done. apply strchr_in in H.
  change (text ")") with [41] in H. by apply list_elem_of_singleton in H as ->.
Qed.

Lemma left_rest r txt l : left_over r → strip r = strip (txt ++ l) → left_over (strip l).
Proof.
  intros Hr E. apply left_dropw with (p := strchr whitespace) in Hr. rewrite E in Hr. clear E. induction txt as [|c txt IH]; [done|].
  cbn [app dropw] in Hr. destruct (strchr whitespace c); [by apply IH|]. apply left_dropw. eapply (left_app (c :: txt)), Hr.
Qed.

Lemma parsepipe_S n :
  parsepipe line (S n) = (c ← parseexec line n; p ← peek line (text "|");
    if (p : bool) then _ ← gettoken line; r ← parsepipe line n; mret (PIPE c r) else mret c).
Proof. done. Qed.

Lemma parseline_S n :
  parseline line (S n) = (c ← parsepipe line n; c ← parse_backs line c; p ← peek line (text ";");
    if (p : bool) then _ ← gettoken line; r ← parseline line n; mret (LIST c r) else mret c).
Proof. done. Qed.

Lemma pipe_of_exec n txt t l : starts (text "|") l = false → reads_as (parseexec line n) txt t l → reads_as (parsepipe line (S n)) txt t l.
Proof.
  intros Hs H r Hr E. cbn [parsepipe]. apply wp_bind. eapply wp_mono; [by apply H|]. cbv beta. intros c s [Hc ->].
  apply wp_bind, wp_peek; [by eapply left_rest|]. rewrite starts_strip, Hs, dropw_idem. by wp_auto.
Qed.

(** No [&] follows. *)
Lemma wp_parse_backs_none c r (Q : cmd → Z → Prop) :
  left_over r → starts (text "&") r = false → Q c (pos (strip r)) → wp (parse_backs line c) Q (pos r).
Proof. intros Hr Hs HQ. unfold parse_backs, backs_body. cbn [loop]. apply wp_bind, wp_bind, wp_peek; [done|]. rewrite Hs. by wp_auto. Qed.

Lemma line_of_pipe n txt t l : closed l → reads_as (parsepipe line n) txt t l → reads_as (parseline line (S n)) txt t l.
Proof.
  intros Hl H r Hr E. cbn [parseline]. apply wp_bind. eapply wp_mono; [by apply H|]. cbv beta. intros c s [Hc ->].
  pose proof (left_rest _ _ _ Hr E) as Hs. apply wp_bind, wp_parse_backs_none; [done|rewrite starts_strip; by apply closed_not|].
  rewrite dropw_idem. apply wp_bind, wp_peek; [done|]. rewrite starts_strip, (closed_not (text ";") l Hl), dropw_idem by done. by wp_auto.
Qed.

(** A line in parentheses, and what comes behind it. *)
Lemma wp_block n t l r (Q : cmd → Z → Prop) :
  reads_as (parseline line n) (pr t) t (text ")" ++ l) → left_over r → strip r = in_parens (pr t) ++ l →
  (∀ c, matches c t → wp (parseredirs line c) Q (pos (strip l))) → wp (parseexec line (S (S n))) Q (pos r).
Proof.
  intros H Hr E HQ. assert (strip r = 40 :: pr t ++ text ")" ++ l) as E1 by (rewrite E; unfold in_parens; by rewrite <- !app_assoc).
  assert (∀ toks, starts toks r = strchr toks 40) as Hst by (intros; unfold starts; by rewrite E1).
  assert (left_over (strip r)) as Hl0 by (by apply left_dropw). assert (left_over (pr t ++ text ")" ++ l)) as Hl1 by (eapply left_cons; by rewrite <- E1).
  cbn [parseexec]. apply wp_bind, wp_peek; [done|]. rewrite Hst. change (strchr (text "(") 40) with true. cbv iota.
  cbn [parseblock]. apply wp_bind, wp_peek; [done|]. rewrite starts_strip, Hst. change (strchr (text "(") 40) with true. cbn [negb]. rewrite dropw_idem.
  apply wp_bind. eapply wp_gettoken_sym; [done|rewrite dropw_idem; exact E1|done|]. intros q e. apply wp_bind.
  eapply wp_mono; [apply H; [by apply left_dropw|by rewrite dropw_idem]|]. cbv beta. intros c s [Hc ->].
  assert (left_over (strip (text ")" ++ l))) as Hl2 by (apply left_dropw; by eapply left_app).
  apply wp_bind, wp_peek; [done|]. rewrite starts_strip, dropw_idem. change (starts (text ")") (text ")" ++ l)) with true. cbn [negb].
  apply wp_bind. eapply wp_gettoken_sym; [done|rewrite dropw_idem; apply (strip_symbol 41); done|done|]. intros q2 e2. by apply HQ.
Qed.

Lemma atom n t l :
  starts (text "<>") l = false → reads_as (parseline line n) (pr t) t (text ")" ++ l) → reads_as (parseexec line (S (S n))) (in_parens (pr t)) t l.
Proof.
  intros Hs H r Hr E. pose proof (left_rest _ _ _ Hr E) as Hl. eapply wp_block; [done|done|by rewrite E|]. intros c Hc. unfold parseredirs.
  apply wp_bind, wp_parse_redirs_none; [done|by rewrite starts_strip|]. rewrite dropw_idem. by wp_auto.
Qed.

Lemma parens_length x : length (in_parens x) = (2 + length x)%nat.
Proof. unfold in_parens. rewrite !length_app. cbn. lia. Qed.

Lemma parens_ended l : closed (text ")" ++ l).
Proof. right. done. Qed.

Lemma closed_delim l : closed l → delim l.
Proof.
  intros Hl. destruct l as [|c l]; [done|]. cbn. unfold wordchar. destruct (strchr whitespace c) eqn:Hc; [done|]. cbn [negb andb].
  destruct Hl as [H|H]; [|unfold starts in H]; cbn [dropw] in H; rewrite Hc in H; [done|]. apply strchr_in in H.
  change (text ")") with [41] in H. by apply list_elem_of_singleton in H as ->.
Qed.

Lemma reads_exec n ws l :
  Forall is_word ws → zlen ws < MAXARGS → closed l → reads_as (parseexec line (S n)) (pr_args ws) (TExec ws) l.
Proof.
  intros Hws Hn Hl r Hr E. pose proof (closed_ended l Hl) as He. cbn [parseexec]. apply wp_bind, wp_peek; [done|].
  rewrite <- starts_strip, E, starts_strip, args_start by done. assert (left_over (strip (pr_args ws ++ l))) as Hl1 by (rewrite <- E; by apply left_dropw).
  apply wp_bind, wp_parse_redirs_none; [done|by rewrite starts_strip, args_start|]. rewrite dropw_idem.
  eapply wp_parse_args; [done|by rewrite dropw_idem|done|done|done|]. intros c Hc. by split.
Qed.

(** The second half of a pipe or a list. *)
Lemma reads_pipe_right n t l :
  closed l → (∀ l, closed l → reads_as (parseline line n) (pr t) t l) → reads_as (parsepipe line (S (S (S n)))) (in_parens (pr t)) t l.
Proof. intros Hl H. apply pipe_of_exec; [by apply closed_not|]. apply atom; [by apply closed_not|]. apply H, parens_ended. Qed.

(** [n] is enough for the line of a tree in parentheses. *)
Abbreviation reads_inside n t := (∀ l, closed l → reads_as (parseline line n) (pr t) t l).

Lemma reads_redir n t d w l :
  is_word w → closed l → reads_inside n t → reads_as (parseexec line (S (S n))) (pr (TRedir t d w)) (TRedir t d w) l.
Proof.
  intros Hw Hl IH r Hr E. cbn [pr] in E. rewrite <- app_assoc in E. eapply (wp_block n t (rsym d ++ w ++ l)); [apply IH, parens_ended|done| |].
  { rewrite E, <- app_assoc. apply (strip_symbol 40). done. }
  intros c Hc. unfold parseredirs. apply wp_bind. rewrite (proj1 (redir_start d _)).
  assert (left_over (rsym d ++ w ++ l)) as Hl1.
  { pose proof (left_rest r (in_parens (pr t)) (rsym d ++ w ++ l) Hr) as H. rewrite (proj1 (redir_start d _)) in H. apply H. by rewrite E, <- app_assoc. }
  eapply wp_parse_redirs_one; [done|apply redir_start|done|by apply closed_delim|by apply closed_not|]. intros x Hx Hm. wp_auto. by split.
Qed.

Lemma reads_pipe n t1 t2 l :
  closed l → reads_inside (S n) t1 → reads_inside n t2 → reads_as (parsepipe line (S (S (S (S n))))) (pr (TPipe t1 t2)) (TPipe t1 t2) l.
Proof.
  intros Hl IH1 IH2 r Hr E. cbn [pr] in E. rewrite <- !app_assoc in E. rewrite parsepipe_S. apply wp_bind.
  eapply wp_mono; [apply (atom (S n) t1 (text "|" ++ in_parens (pr t2) ++ l)); [done|apply IH1, parens_ended|done|exact E]|].
  cbv beta. intros c1 s [Hc1 ->]. pose proof (left_rest _ _ _ Hr E) as Hl1. apply wp_bind, wp_peek; [done|].
  rewrite starts_strip, dropw_idem. change (starts (text "|") (text "|" ++ ?x)) with true. apply wp_bind.
  eapply wp_gettoken_sym; [done|rewrite dropw_idem; by apply (strip_symbol 124)|done|]. intros q e. apply wp_bind.
  assert (left_over (in_parens (pr t2) ++ l)) as Hl2 by (eapply (left_cons 124), Hl1).
  eapply wp_mono; [apply (reads_pipe_right n t2 l Hl IH2); [by apply left_dropw|by rewrite dropw_idem]|].
  cbv beta. intros c2 s [Hc2 ->]. by wp_auto.
Qed.

Lemma reads_list n t1 t2 l :
  closed l → reads_inside (S n) t1 → reads_inside n t2 → reads_as (parseline line (S (S (S (S (S n)))))) (pr (TList t1 t2)) (TList t1 t2) l.
Proof.
  intros Hl IH1 IH2 r Hr E. cbn [pr] in E. rewrite <- !app_assoc in E. rewrite parseline_S. apply wp_bind.
  eapply wp_mono; [apply (pipe_of_exec (S (S (S n))) (in_parens (pr t1)) t1 (text ";" ++ in_parens (pr t2) ++ l)); [done| |done|exact E]|].
  { apply (atom (S n)); [done|]. apply IH1, parens_ended. }
  cbv beta. intros c1 s [Hc1 ->]. pose proof (left_rest _ _ _ Hr E) as Hl1. apply wp_bind, wp_parse_backs_none; [done|done|]. rewrite dropw_idem.
  apply wp_bind, wp_peek; [done|]. rewrite starts_strip, dropw_idem. change (starts (text ";") (text ";" ++ ?x)) with true. apply wp_bind.
  eapply wp_gettoken_sym; [done|rewrite dropw_idem; by apply (strip_symbol 59)|done|]. intros q e. apply wp_bind.
  assert (left_over (in_parens (pr t2) ++ l)) as Hl2 by (eapply (left_cons 59), Hl1).
  eapply wp_mono; [apply (line_of_pipe (S (S (S n))) (in_parens (pr t2)) t2 l Hl); [by apply reads_pipe_right|by apply left_dropw|by rewrite dropw_idem]|].
  cbv beta. intros c2 s [Hc2 ->]. by wp_auto.
Qed.

Lemma reads_back n t l :
  closed l → reads_inside n t → reads_as (parseline line (S (S (S (S n))))) (pr (TBack t)) (TBack t) l.
Proof.
  intros Hl IH r Hr E. cbn [pr] in E. rewrite <- !app_assoc in E. rewrite parseline_S. apply wp_bind.
  eapply wp_mono; [apply (pipe_of_exec (S (S n)) (in_parens (pr t)) t (text "&" ++ l)); [done| |done|exact E]|].
  { apply (atom n); [done|]. apply IH, parens_ended. }
  cbv beta. intros c s [Hc ->]. pose proof (left_rest _ _ _ Hr E) as Hl1. apply wp_bind. unfold parse_backs.
  assert (∃ m, S (length line) = S (S m)) as [m ->].
  { pose proof (left_len _ Hl1) as H. change (strip (text "&" ++ l)) with (38 :: l) in H. destruct (length line) as [|m]; [cbn in H; lia|by exists m]. }
  apply wp_loop_step. unfold backs_body at 1. apply wp_bind, wp_peek; [done|]. rewrite starts_strip, dropw_idem.
  change (starts (text "&") (text "&" ++ ?x)) with true. apply wp_bind.
  eapply wp_gettoken_sym; [done|rewrite dropw_idem; by apply (strip_symbol 38)|done|]. intros q e. wp_auto.
  assert (left_over (strip l)) as Hl2 by (apply left_dropw; eapply (left_cons 38), Hl1).
  apply wp_loop_step. unfold backs_body at 1. apply wp_bind, wp_peek; [done|]. rewrite starts_strip, (closed_not (text "&") l Hl), dropw_idem by done. wp_auto.
  apply wp_peek; [done|]. rewrite starts_strip, (closed_not (text ";") l Hl), dropw_idem by done. by wp_auto.
Qed.

Lemma reads_line t : tree_ok t → ∀ n l, closed l → (4 * length (pr t) + 4 ≤ n)%nat → reads_as (parseline line n) (pr t) t l.
Proof.
  induction t as [ws|t IH d w|t1 IH1 t2 IH2|t1 IH1 t2 IH2|t IH]; intros Hok n l Hl Hn; cbn [tree_ok] in Hok;
    cbn [pr] in Hn; rewrite ?length_app, ?parens_length in Hn; destruct n as [|[|[|[|n]]]]; try lia.
  - destruct Hok as [Hws Hlen]. apply line_of_pipe; [done|]. apply pipe_of_exec; [by apply closed_not|]. by apply reads_exec.
  - destruct Hok as [Hok Hw]. apply line_of_pipe; [done|]. apply pipe_of_exec; [by apply closed_not|]. apply reads_redir; [done|done|].
    intros l' Hl'. apply IH; [done|done|lia].
  - destruct Hok as [Hok1 Hok2]. destruct n as [|n]; [lia|]. apply line_of_pipe; [done|].
    apply reads_pipe; [done|intros l' Hl'; apply IH1; [done|done|lia]|intros l' Hl'; apply IH2; [done|done|lia]].
  - destruct Hok as [Hok1 Hok2]. destruct n as [|n]; [lia|].
    apply reads_list; [done|intros l' Hl'; apply IH1; [done|done|lia]|intros l' Hl'; apply IH2; [done|done|lia]].
  - apply reads_back; [done|]. intros l' Hl'. apply IH; [done|done|lia].
Qed.

(** ** The ends of words *)

Fixpoint stops (c : cmd) : list Z :=
  match c with
  | EXEC argv => snd <$> argv
  | REDIR c r => stops c ++ [efile r]
  | PIPE l r => stops l ++ stops r
  | LIST l r => stops l ++ stops r
  | BACK c => stops c
  end.

Definition nulled (ps : list Z) (buf : list Z) : list Z := foldl (λ b p, <[Z.to_nat p := 0]> b) buf ps.

Lemma nulled_cons p ps buf : nulled (p :: ps) buf = nulled ps (<[Z.to_nat p := 0]> buf).
Proof. done. Qed.

Lemma length_nulled ps buf : length (nulled ps buf) = length buf.
Proof. revert buf. induction ps as [|p ps IH]; intros buf; [done|]. by rewrite nulled_cons, IH, length_insert. Qed.

Lemma nulled_other ps buf i : (∀ p, p ∈ ps → Z.to_nat p ≠ i) → nulled ps buf !! i = buf !! i.
Proof.
  revert buf. induction ps as [|p ps IH]; intros buf H; [done|]. rewrite nulled_cons, IH by set_solver. apply list_lookup_insert_ne. set_solver.
Qed.

Lemma nulled_stays ps buf i : buf !! i = Some 0 → nulled ps buf !! i = Some 0.
Proof.
  revert buf. induction ps as [|p ps IH]; intros buf H; [done|]. rewrite nulled_cons. apply IH. apply lookup_lt_Some in H as Hl.
  destruct (decide (Z.to_nat p = i)) as [<-|Hne]; [by apply list_lookup_insert_eq|by rewrite list_lookup_insert_ne].
Qed.

Lemma nulled_at ps buf p : p ∈ ps → (Z.to_nat p < length buf)%nat → nulled ps buf !! Z.to_nat p = Some 0.
Proof.
  revert buf. induction ps as [|p' ps IH]; intros buf H Hl; [set_solver|]. rewrite nulled_cons. destruct (decide (p = p')) as [->|Hne].
  - apply nulled_stays. by apply list_lookup_insert_eq.
  - apply IH; [set_solver|]. by rewrite length_insert.
Qed.

(** A place where a word may end. *)
Definition stop_ok (p : Z) : Prop := ∃ l, p = pos l ∧ left_over l ∧ delim l.

Lemma wordat_stop q e w : wordat (q, e) w → stop_ok e.
Proof. intros (l & [= -> ->] & Hl & _ & Hd). exists l. split_and!; [done|by eapply left_app|done]. Qed.

Lemma stops_ok c t : matches c t → Forall stop_ok (stops c).
Proof.
  revert t. induction c as [argv|c IH r|c1 IH1 c2 IH2|c1 IH1 c2 IH2|c IH]; intros [ws|t d w|t1 t2|t1 t2|t] Hm; cbn [matches stops] in *; try done.
  - induction Hm as [|[q e] w argv ws Hw _ IH]; [by constructor|]. constructor; [by eapply wordat_stop|done].
  - destruct Hm as (Hc & Hw & _). apply Forall_app. split; [by eapply IH|]. constructor; [by eapply wordat_stop|done].
  - destruct Hm. apply Forall_app. eauto.
  - destruct Hm. apply Forall_app. eauto.
  - eauto.
Qed.

Lemma stop_in p : stop_ok p → 0 ≤ p ≤ zlen line.
Proof. intros (l & -> & Hl & _). pose proof (left_len _ Hl). lia. Qed.

Lemma wp_nul_at p buf (Q : unit → list Z → Prop) :
  length buf = S (length line) → 0 ≤ p ≤ zlen line → Q tt (<[Z.to_nat p := 0]> buf) → wp (nul_at p) Q buf.
Proof.
  intros Hb Hp HQ. unfold nul_at. wp_auto.
  rewrite (proj2 (Z.leb_le _ _)), (proj2 (Z.ltb_lt _ _)) by lia. by wp_auto.
Qed.

Lemma wp_nulterminate c buf (Q : unit → list Z → Prop) :
  length buf = S (length line) → Forall (λ p, 0 ≤ p ≤ zlen line) (stops c) → Q tt (nulled (stops c) buf) → wp (nulterminate c) Q buf.
Proof.
  revert buf Q. induction c as [argv|c IH r|c1 IH1 c2 IH2|c1 IH1 c2 IH2|c IH]; intros buf Q Hb Hs HQ; cbn [stops nulterminate] in *.
  - revert buf Hb Hs HQ. induction argv as [|[q e] argv IH]; intros buf Hb Hs HQ; cbn in *; [by wp_auto|]. apply Forall_cons in Hs as [He Hs].
    apply wp_bind, wp_nul_at; [done|done|]. apply IH; [by rewrite length_insert|done|done].
  - apply Forall_app in Hs as [Hs [He _]%Forall_cons]. apply wp_bind, IH; [done|done|]. apply wp_nul_at; [by rewrite length_nulled|done|].
    unfold nulled in *. by rewrite foldl_app in HQ.
  - apply Forall_app in Hs as [H1 H2]. apply wp_bind, IH1; [done|done|]. apply IH2; [by rewrite length_nulled|done|]. unfold nulled in *. by rewrite foldl_app in HQ.
  - apply Forall_app in Hs as [H1 H2]. apply wp_bind, IH1; [done|done|]. apply IH2; [by rewrite length_nulled|done|]. unfold nulled in *. by rewrite foldl_app in HQ.
  - by apply IH.
Qed.

(** The string a pointer into the buffer points to. *)
Fixpoint upto_nul (l : list Z) : list Z := match l with [] => [] | c :: l => if c =? 0 then [] else c :: upto_nul l end.

Definition cstring (buf : list Z) (p : Z) : list Z := upto_nul (drop (Z.to_nat p) buf).

Lemma upto_nul_word w l : Forall (λ c, c ≠ 0) w → upto_nul (w ++ 0 :: l) = w.
Proof. induction 1 as [|c w Hc _ IH]; [done|]. cbn. by rewrite (proj2 (Z.eqb_neq c 0)), IH by done. Qed.

Lemma word_string ps q e w :
  Forall stop_ok ps → e ∈ ps → wordat (q, e) w → cstring (nulled ps (line ++ [0])) q = w.
Proof.
  intros Hps He (l & [= -> ->] & Hl & [Hne Hw] & Hd). destruct Hl as [pre E]. set (buf := nulled ps (line ++ [0])).
  assert (zlen line = zlen pre + zlen w + zlen l) as El by (rewrite E, !length_app; lia). rewrite length_app. unfold cstring.
  replace (Z.to_nat (zlen line - Z.of_nat (length w + length l))) with (length pre) by lia.
  assert (∀ j c, w !! j = Some c → buf !! (length pre + j)%nat = Some c) as Hin.
  { intros j c Hj. apply lookup_lt_Some in Hj as Hlt. unfold buf. rewrite nulled_other.
    - rewrite E, <- app_assoc, lookup_app_r by lia. replace (length pre + j - length pre)%nat with j by lia. rewrite <- app_assoc, lookup_app_l; [done|lia].
    - intros p Hp Ep. rewrite Forall_forall in Hps. destruct (Hps p Hp) as (l2 & -> & [pre2 E2] & Hd2).
      assert ((line ++ [0]) !! (length pre + j)%nat = Some c) as H1.
      { rewrite E, <- app_assoc, lookup_app_r by lia. replace (length pre + j - length pre)%nat with j by lia. rewrite <- app_assoc, lookup_app_l; [done|lia]. }
      assert ((line ++ [0]) !! (length pre + j)%nat = Some (hd 0 l2)) as H2.
      { rewrite <- Ep, E2, length_app. replace (Z.to_nat _) with (length pre2) by lia. rewrite <- app_assoc, lookup_app_r, Nat.sub_diag by lia. by destruct l2. }
      rewrite Forall_forall in Hw. destruct (Hw c) as [Hc0 Hcw]; [by eapply list_elem_of_lookup_2|]. rewrite H1 in H2. injection H2 as ->.
      destruct l2 as [|c2 l2]; cbn in *; congruence. }
  assert (buf !! (length pre + length w)%nat = Some 0) as Hend.
  { replace (length pre + length w)%nat with (Z.to_nat (zlen line - zlen l)) by lia. apply nulled_at; [done|]. rewrite length_app. cbn. lia. }
  assert (drop (length pre) buf = w ++ 0 :: drop (length pre + length w + 1) buf) as ->.
  { rewrite <- (take_drop (length w) (drop (length pre) buf)). f_equal.
    - apply list_eq. intros j. destruct (w !! j) as [c|] eqn:Hj.
      + apply lookup_lt_Some in Hj as Hlt. rewrite lookup_take_lt, lookup_drop by lia. by apply Hin.
      + apply lookup_ge_None in Hj. rewrite lookup_take_ge; done.
    - rewrite drop_drop. rewrite (drop_S _ 0 _ Hend). do 2 f_equal. lia. }
  apply upto_nul_word. eapply Forall_impl; [exact Hw|]. by intros c [? _].
Qed.

(** ** The tree in the buffer *)

Definition rdir_of (m f : Z) : rdir := if f =? 0 then RIn else if m =? Z.lor O_WRONLY O_CREATE then RAppend else ROut.

Fixpoint view (buf : list Z) (c : cmd) : tree :=
  match c with
  | EXEC argv => TExec ((λ p, cstring buf p.1) <$> argv)
  | REDIR c r => TRedir (view buf c) (rdir_of (mode r) (fd r)) (cstring buf (file r))
  | PIPE l r => TPipe (view buf l) (view buf r)
  | LIST l r => TList (view buf l) (view buf r)
  | BACK c => TBack (view buf c)
  end.

Lemma view_ok ps c t :
  Forall stop_ok ps → matches c t → (∀ e, e ∈ stops c → e ∈ ps) → view (nulled ps (line ++ [0])) c = t.
Proof.
  intros Hps. revert t. induction c as [argv|c IH r|c1 IH1 c2 IH2|c1 IH1 c2 IH2|c IH]; intros [ws|t d w|t1 t2|t1 t2|t] Hm Hin; cbn [matches stops view] in *; try done.
  - f_equal. induction Hm as [|[q e] w argv ws Hw _ IH]; [done|]. cbn. rewrite IH by (intros; apply Hin; set_solver).
    rewrite (word_string ps q e w); [done|done| |done]. apply Hin. set_solver.
  - destruct Hm as (Hc & Hw & Em). rewrite (IH t) by (done || set_solver). rewrite (word_string ps (file r) (efile r) w); [|done|set_solver|done].
    f_equal. destruct r as [q e m f]. cbn in *. destruct d; injection Em as -> ->; done.
  - destruct Hm. rewrite (IH1 t1), (IH2 t2); [done|done|set_solver|done|set_solver].
  - destruct Hm. rewrite (IH1 t1), (IH2 t2); [done|done|set_solver|done|set_solver].
  - by rewrite (IH t).
Qed.

End Rest.

Lemma pr_nz t : tree_ok t → 0 ∉ pr t.
Proof.
  assert (∀ w, is_word w → 0 ∉ w) as Hword.
  { intros w [_ Hw] Hin. rewrite Forall_forall in Hw. by destruct (Hw 0 Hin). }
  induction t as [ws|t IH d w|t1 IH1 t2 IH2|t1 IH1 t2 IH2|t IH]; intros Hok; cbn [pr tree_ok] in *; unfold in_parens; rewrite ?not_elem_of_app.
  - destruct Hok as [Hws _]. induction Hws as [|w ws Hw _ IH]; [by apply not_elem_of_nil|]. unfold pr_args in *. cbn. rewrite !not_elem_of_app. set_solver.
  - destruct Hok as [H1 H2]. split_and!; [set_solver|by apply IH|set_solver| |by apply Hword]. destruct d; set_solver.
  - destruct Hok. split_and!; try (by auto); set_solver.
  - destruct Hok. split_and!; try (by auto); set_solver.
  - split_and!; try (by auto); set_solver.
Qed.

(** * The claims *)

(** C37: parsing is the inverse of printing: for every command tree, of simple
    commands with at most nine words, redirections, pipes, lists and background
    commands nested in any way, [parsecmd] of the printed line succeeds, and the
    tree that its result denotes in the buffer, where [nulterminate] has ended
    every word with a NUL, is that tree. *)
Theorem parse_print_roundtrip t :
  tree_ok t → wp (parsecmd (pr t)) (λ c buf, view buf c = t) (pr t ++ [0]).
Proof.
  intros Hok. pose proof (pr_nz t Hok) as Hnz. set (line := pr t) in *. unfold parsecmd.
  assert (wp (parse_whole line) (λ c s, matches line c t ∧ s = zlen line) 0) as Hp.
  { assert (left_over line line) as Hl by (by exists []). replace 0 with (zlen line - zlen line) by lia. unfold parse_whole. apply wp_bind.
    eapply wp_mono; [apply (reads_line line Hnz t Hok (parse_fuel line) []); [by left|unfold parse_fuel; fold line; lia|done|by rewrite app_nil_r]|].
    cbv beta. intros c s [Hc ->]. apply wp_bind, (wp_peek line Hnz); [exists line; by rewrite app_nil_r|]. wp_auto. split; [done|]. cbn. lia. }
  unfold wp in Hp |- *. unfold mbind at 1, prog_bind at 1. destruct (parse_whole line 0) as [[c s]| | |]; [|done..]. destruct Hp as [Hc ->].
  unfold es. rewrite Z.eqb_refl. cbn [negb]. change (wp (_ ← nulterminate c; mret c) (λ c buf, view buf c = t) (line ++ [0])).
  pose proof (stops_ok line c t Hc) as Hs. apply wp_bind, (wp_nulterminate line c); [rewrite length_app; cbn; lia| |].
  - eapply Forall_impl; [exact Hs|]. apply stop_in.
  - wp_auto. by eapply view_ok.
Qed.

(** [(ls -l & ) | wc > out] *)
Lemma parse_print_roundtrip_witness :
  wp (parsecmd (pr (TPipe (TBack (TExec [text "ls"; text "-l"])) (TRedir (TExec [text "wc"]) ROut (text "out")))))
    (λ c buf, view buf c = TPipe (TBack (TExec [text "ls"; text "-l"])) (TRedir (TExec [text "wc"]) ROut (text "out")))
    (pr (TPipe (TBack (TExec [text "ls"; text "-l"])) (TRedir (TExec [text "wc"]) ROut (text "out"))) ++ [0]).
Proof.
  apply parse_print_roundtrip. unfold tree_ok, is_word. repeat (split || constructor); by vm_compute.
Defined.
