(* ===== verification/ShTotal.v ===== *)
(** The shell's parser on every line: it returns a tree or reports a syntax
    error, it does not read or write outside the line and the argument arrays,
    and it ends. *)

From Stdlib Require Import Ascii.
From S2P Require Import Prelude.
From S2P Require Import Sh.
From S2P Require Import ShProps.

(** * Code that may report an error *)

Definition fine {S A} (m : prog S A) (Q : A → S → Prop) (s : S) : Prop :=
  match m s with Ok (a, s') => Q a s' | Panic _ => True | _ => False end.

Section Fine.

Context {S : Type}.

Lemma fine_wp {A} (m : prog S A) Q s : wp m Q s → fine m Q s.
Proof. unfold wp, fine. by destruct (m s) as [[a s']| | |]. Qed.

Lemma fine_ret {A} (a : A) (Q : A → S → Prop) s : Q a s → fine (mret a) Q s.
Proof. done. Qed.

Lemma fine_panic {A} msg (Q : A → S → Prop) s : fine (panic msg) Q s.
Proof. done. Qed.

Lemma fine_bind {A B} (m : prog S A) (f : A → prog S B) Q s : fine m (λ a s', fine (f a) Q s') s → fine (m ≫= f) Q s.
Proof. unfold fine, mbind, prog_bind. by destruct (m s) as [[a s']| | |]. Qed.

Lemma fine_mono {A} (m : prog S A) (P Q : A → S → Prop) s : fine m P s → (∀ a s', P a s' → Q a s') → fine m Q s.
Proof. unfold fine. destruct (m s) as [[a s']| | |]; naive_solver. Qed.

Lemma fine_loop {A B} (I : A → S → Prop) (measure : S → nat) fuel (body : A → prog S (A + B)) a s Q :
  I a s → (measure s < fuel)%nat →
  (∀ a s, I a s → fine (body a) (λ r s', match r with inl a' => I a' s' ∧ (measure s' < measure s)%nat | inr b => Q b s' end) s) →
  fine (loop fuel body a) Q s.
Proof.
  intros Ha Hf Hb. revert a s Ha Hf. induction fuel as [|fuel IH]; intros a s Ha Hf; [lia|]. cbn [loop]. apply fine_bind.
  eapply fine_mono; [by apply Hb|]. cbv beta. intros [a'|b] s' H; [|by apply fine_ret]. destruct H. apply IH; [done|lia].
Qed.

End Fine.

(** Every simple command has room for its words and the null. *)
Fixpoint args_fit (c : cmd) : Prop :=
  match c with
  | EXEC argv => zlen argv < MAXARGS
  | REDIR c _ => args_fit c
  | PIPE l r => args_fit l ∧ args_fit r
  | LIST l r => args_fit l ∧ args_fit r
  | BACK c => args_fit c
  end.

Section Total.

Context (line : list Z) (Hnz : 0 ∉ line).

(** A place in the line or at its end. *)
Definition in_line (p : Z) : Prop := 0 ≤ p ≤ zlen line.

Definition later (s s' : Z) : Prop := s ≤ s' ≤ zlen line.

(** Something other than space is left. *)
Definition nonblank (s : Z) : Prop := dropw (strchr whitespace) (drop (Z.to_nat s) line) ≠ [].

Definition todo (s : Z) : nat := Z.to_nat (zlen line - s).

(** A tree whose words end inside the line. *)
Definition inside (c : cmd) : Prop := Forall in_line (stops c) ∧ args_fit c.

Lemma rest_at s : in_line s → ∃ r, s = zlen line - zlen r ∧ left_over line r.
Proof.
  intros [H0 H1]. exists (drop (Z.to_nat s) line). split; [rewrite length_drop; lia|]. exists (take (Z.to_nat s) line). by rewrite take_drop.
Qed.

Lemma rest_back r : left_over line r → drop (Z.to_nat (zlen line - zlen r)) line = r.
Proof.
  intros [pre E]. rewrite E at 2. rewrite E, length_app. replace (Z.to_nat _) with (length pre) by lia. apply drop_app_length.
Qed.

Lemma lex_shorter l : dropw (strchr whitespace) l = l → l ≠ [] → (lex l).1 ≠ 0 ∧ (length (lex l).2 < length l)%nat ∨ (lex l).1 = 0 ∧ hd 0 l = 0.
Proof.
  intros Hs Hne. destruct l as [|c l]; [done|]. unfold lex. destruct (strchr (text "|();&<") c) eqn:E1.
  - destruct (decide (c = 0)) as [->|]; [discriminate E1|]. left. cbn. split; [done|lia].
  - left. destruct (Z.eqb_spec c (ch ">")) as [->|E2].
    + destruct l as [|d l]; [cbn; split; [done|lia]|]. destruct (d =? ch ">"); cbn; (split; [done|lia]).
    + cbn [fst snd dropw]. split; [done|]. assert (wordchar c = true) as Hw.
      { unfold wordchar. cbn [dropw] in Hs. destruct (strchr whitespace c) eqn:E3.
        { pose proof (dropw_le (strchr whitespace) l) as Hl. rewrite Hs in Hl. cbn in Hl. lia. }
        cbn [negb andb]. destruct (strchr symbols c) eqn:E4; [|done]. exfalso. apply symbol_cases in E4.
        destruct E4 as [->|[->|[->|[->|[->|[->| ->]]]]]]; done. }
      cbn [dropw]. rewrite Hw. pose proof (dropw_le wordchar l). cbn. lia.
Qed.

(** ** Tokens *)

Lemma lex_left l : left_over line l → left_over line (lex l).2.
Proof.
  intros H. destruct l as [|c l]; [done|]. unfold lex. destruct (strchr _ c); [by eapply left_cons|]. destruct (c =? ch ">").
  - destruct l as [|d l]; [by eapply left_cons|]. destruct (d =? ch ">"); [by eapply left_cons, left_cons|by eapply left_cons].
  - by apply left_dropw.
Qed.

Lemma fine_peek toks s : in_line s → fine (peek line toks) (λ b s', later s s' ∧ (b = true → nonblank s')) s.
Proof.
  intros Hs. destruct (rest_at s Hs) as (r & -> & Hl). apply fine_wp, (wp_peek line Hnz); [done|].
  pose proof (dropw_le (strchr whitespace) r) as Hle. pose proof (left_dropw line (strchr whitespace) _ Hl) as Hl2.
  split; [split; lia|]. intros Hb. unfold nonblank. rewrite rest_back by done. rewrite dropw_idem. unfold starts in Hb.
  by destruct (dropw _ _).
Qed.

Lemma fine_gettoken s : in_line s → fine (gettoken line) (λ '(t, _, e) s', later s s' ∧ in_line e ∧ (nonblank s → s < s') ∧ (t ≠ 0 → s < s')) s.
Proof.
  intros Hs. destruct (rest_at s Hs) as (r & -> & Hl). apply fine_wp, (wp_gettoken line Hnz); [done|].
  pose proof (dropw_le (strchr whitespace) r) as Hle. pose proof (left_dropw line (strchr whitespace) _ Hl) as Hl2.
  set (l := dropw (strchr whitespace) r) in *. pose proof (lex_left l Hl2) as Hl3. pose proof (left_len line _ Hl3) as Hn3.
  pose proof (dropw_le (strchr whitespace) (lex l).2) as Hle2. destruct (lex l) as [t r2] eqn:El. cbn [snd] in *.
  destruct l as [|c l'] eqn:Ec.
  - cbn in El. injection El as <- <-. split_and!; [split; cbn in *; lia|split; cbn in *; lia|intros Hb; unfold nonblank in Hb; rewrite rest_back in Hb by done; done|done].
  - destruct (lex_shorter (c :: l')) as [[Ht Hsh]|[_ Hc]]; [rewrite <- Ec; apply dropw_idem|done| |by apply (left_nz line Hnz) in Hl2].
    rewrite El in Ht, Hsh. cbn [fst snd] in *. split_and!; [split; lia|split; lia|lia|lia].
Qed.

Lemma later_trans s1 s2 s3 : later s1 s2 → later s2 s3 → later s1 s3.
Proof. unfold later. lia. Qed.

Lemma later_in s s' : 0 ≤ s → later s s' → in_line s'.
Proof. unfold later, in_line. lia. Qed.

Lemma todo_less s s' : later s s' → s < s' → (todo s' < todo s)%nat.
Proof. unfold later, todo. lia. Qed.

Lemma todo_start s : 0 ≤ s → (todo s < S (length line))%nat.
Proof. unfold todo. lia. Qed.

Lemma Forall_snoc {A} (P : A → Prop) l x : Forall P l → P x → Forall P (l ++ [x]).
Proof. intros Hl Hx. apply Forall_app. split; [done|]. apply Forall_cons. split; [done|]. apply Forall_nil, I. Qed.

(** ** Loops *)

Definition ends_inside (rs : list redir) : Prop := Forall (λ r, in_line (efile r)) rs.

Lemma fine_parse_redirs s : in_line s → fine (parse_redirs line) (λ rs s', ends_inside rs ∧ later s s') s.
Proof.
  intros Hs. unfold parse_redirs. apply (fine_loop (λ rs s', ends_inside rs ∧ later s s') todo); [split; [constructor|unfold later, in_line in *; lia]|apply todo_start, Hs|].
  intros rs s1 [Hrs H1]. assert (in_line s1) as Hs1 by (eapply later_in, H1; apply Hs). unfold redirs_body.
  apply fine_bind. eapply fine_mono; [by apply fine_peek|]. cbv beta. intros p s2 [H2 Hp]. assert (in_line s2) as Hs2 by (eapply later_in, H2; apply Hs1).
  destruct p; [|apply fine_ret; split; [done|by eapply later_trans]]. specialize (Hp eq_refl).
  apply fine_bind. eapply fine_mono; [by apply fine_gettoken|]. cbv beta. intros [[tok q] e] s3 (H3 & _ & Hlt & _). specialize (Hlt Hp).
  assert (in_line s3) as Hs3 by (eapply later_in, H3; apply Hs2).
  apply fine_bind. eapply fine_mono; [by apply fine_gettoken|]. cbv beta. intros [[t' q'] e'] s4 (H4 & He & _ & _).
  destruct (negb _); [apply fine_panic|]. assert (later s s4 ∧ (todo s4 < todo s1)%nat) as [Hls Hm].
  { unfold later, todo, in_line in *. lia. }
  assert (∀ m f, ends_inside (rs ++ [Redir q' e' m f])) as Hrs' by (intros; by apply Forall_snoc).
  destruct (tok =? ch "<"); [by apply fine_ret|]. destruct (tok =? ch ">"); [by apply fine_ret|]. destruct (tok =? ch "+"); by apply fine_ret.
Qed.

Lemma inside_redirect c rs : inside c → ends_inside rs → inside (redirect c rs).
Proof.
  unfold redirect. revert c. induction rs as [|r rs IH]; intros c Hc Hrs; [done|]. apply Forall_cons in Hrs as [Hr Hrs]. cbn. apply IH; [|done].
  destruct Hc as [Hc Hf]. split; [|done]. by apply Forall_snoc.
Qed.

Lemma fine_parse_args rs s : in_line s → ends_inside rs → fine (parse_args line rs) (λ c s', inside c ∧ later s s') s.
Proof.
  intros Hs Hrs0. unfold parse_args.
  apply (fine_loop (λ '(argv, rs) s', inside (EXEC argv) ∧ ends_inside rs ∧ later s s') todo).
  { split_and!; [split; [constructor|done]|done|unfold later, in_line in *; lia..]. }
  { apply todo_start, Hs. }
  intros [argv rs1] s1 (Hc & Hrs & H1). assert (in_line s1) as Hs1 by (eapply later_in, H1; apply Hs). unfold args_body.
  apply fine_bind. eapply fine_mono; [by apply fine_peek|]. cbv beta. intros p s2 [H2 _]. assert (in_line s2) as Hs2 by (eapply later_in, H2; apply Hs1).
  destruct p; [apply fine_ret; split; [by apply inside_redirect|by eapply later_trans]|].
  apply fine_bind. eapply fine_mono; [by apply fine_gettoken|]. cbv beta. intros [[tok q] e] s3 (H3 & He & _ & Hlt).
  assert (in_line s3) as Hs3 by (eapply later_in, H3; apply Hs2).
  destruct (Z.eqb_spec tok 0) as [->|H0]; [apply fine_ret; split; [by apply inside_redirect|unfold later in *; lia]|]. specialize (Hlt H0).
  destruct (negb _); [apply fine_panic|]. cbv zeta. destruct (Z.leb_spec MAXARGS (zlen (argv ++ [(q, e)]))) as [|Hn]; [apply fine_panic|].
  apply fine_bind. eapply fine_mono; [by apply fine_parse_redirs|]. cbv beta. intros rs' s4 [Hrs' H4]. apply fine_ret.
  split; [|unfold later, todo, in_line in *; lia]. split_and!; [|by apply Forall_app|unfold later in *; lia..].
  split; [|exact Hn]. destruct Hc as [Hc _]. cbn [stops] in *. rewrite fmap_app. by apply Forall_snoc.
Qed.

Lemma fine_parse_backs c s : in_line s → inside c → fine (parse_backs line c) (λ c s', inside c ∧ later s s') s.
Proof.
  intros Hs Hc0. unfold parse_backs. apply (fine_loop (λ c s', inside c ∧ later s s') todo); [split; [done|unfold later, in_line in *; lia]|apply todo_start, Hs|].
  intros c1 s1 [Hc H1]. assert (in_line s1) as Hs1 by (eapply later_in, H1; apply Hs). unfold backs_body.
  apply fine_bind. eapply fine_mono; [by apply fine_peek|]. cbv beta. intros p s2 [H2 Hp]. assert (in_line s2) as Hs2 by (eapply later_in, H2; apply Hs1).
  destruct p; [|apply fine_ret; split; [done|by eapply later_trans]]. specialize (Hp eq_refl).
  apply fine_bind. eapply fine_mono; [by apply fine_gettoken|]. cbv beta. intros [[tok q] e] s3 (H3 & _ & Hlt & _). specialize (Hlt Hp).
  apply fine_ret. unfold later, todo, in_line in *. split; [split; [done|lia]|lia].
Qed.

Lemma fine_parseredirs c s : in_line s → inside c → fine (parseredirs line c) (λ c s', inside c ∧ later s s') s.
Proof.
  intros Hs Hc. unfold parseredirs. apply fine_bind. eapply fine_mono; [by apply fine_parse_redirs|]. cbv beta. intros rs s' [Hrs H].
  apply fine_ret. split; [by apply inside_redirect|done].
Qed.

(** ** The four functions *)

Definition parses (m : prog Z cmd) (s : Z) : Prop := fine m (λ c s', inside c ∧ later s s') s.

Lemma inside_both c r : inside c → inside r → inside (PIPE c r) ∧ inside (LIST c r).
Proof. intros [H1 H2] [H3 H4]. repeat split; by try apply Forall_app. Qed.

(** A separator, and what comes after it. *)
Lemma parses_more toks (m : prog Z cmd) f c s0 s :
  0 ≤ s0 → later s0 s → inside c →
  (∀ c r, inside c → inside r → inside (f c r)) →
  (∀ s', in_line s' → s < s' → parses m s') →
  fine (p ← peek line toks; if (p : bool) then _ ← gettoken line; r ← m; mret (f c r) else mret c) (λ c s', inside c ∧ later s0 s') s.
Proof.
  intros H0 H1 Hc Hf Hm. assert (in_line s) as Hs by (by eapply later_in).
  apply fine_bind. eapply fine_mono; [by apply fine_peek|]. cbv beta. intros p s2 [H2 Hp]. assert (in_line s2) as Hs2 by (eapply later_in, H2; apply Hs).
  destruct p; [|apply fine_ret; split; [done|by eapply later_trans]]. specialize (Hp eq_refl).
  apply fine_bind. eapply fine_mono; [by apply fine_gettoken|]. cbv beta. intros [[tok q] e] s3 (H3 & _ & Hlt & _). specialize (Hlt Hp).
  apply fine_bind. eapply fine_mono; [apply Hm; unfold in_line, later in *; lia|]. cbv beta. intros r s4 [Hr H4]. apply fine_ret.
  split; [by apply Hf|]. unfold later in *. lia.
Qed.

Lemma parseexec_S n : parseexec line (S n) = (p ← peek line (text "("); if (p : bool) then parseblock line n else rs ← parse_redirs line; parse_args line rs).
Proof. done. Qed.

Lemma parseblock_S n :
  parseblock line (S n) = (p ← peek line (text "(");
    if negb p then panic "parseblock"
    else _ ← gettoken line; c ← parseline line n; p ← peek line (text ")");
      if negb p then panic "syntax - missing )" else _ ← gettoken line; parseredirs line c).
Proof. done. Qed.

Lemma parses_exec n s :
  in_line s → (∀ s', in_line s' → s ≤ s' → parses (parseblock line n) s') → parses (parseexec line (S n)) s.
Proof.
  intros Hs Hb. unfold parses. rewrite parseexec_S. apply fine_bind. eapply fine_mono; [by apply fine_peek|]. cbv beta. intros p s2 [H2 _].
  assert (in_line s2) as Hs2 by (eapply later_in, H2; apply Hs). destruct p.
  - eapply fine_mono; [apply Hb; [done|apply H2]|]. cbv beta. intros c s3 [Hc H3]. split; [done|by eapply later_trans].
  - apply fine_bind. eapply fine_mono; [by apply fine_parse_redirs|]. cbv beta. intros rs s3 [Hrs H3].
    eapply fine_mono; [apply fine_parse_args; [eapply later_in, H3; apply Hs2|done]|]. cbv beta. intros c s4 [Hc H4].
    split; [done|]. unfold later in *. lia.
Qed.

Lemma parses_block n s :
  in_line s → (∀ s', in_line s' → s < s' → parses (parseline line n) s') → parses (parseblock line (S n)) s.
Proof.
  intros Hs Hb. unfold parses. rewrite parseblock_S. apply fine_bind. eapply fine_mono; [by apply fine_peek|]. cbv beta. intros p s2 [H2 Hp].
  assert (in_line s2) as Hs2 by (eapply later_in, H2; apply Hs). destruct p; [|apply fine_panic]. specialize (Hp eq_refl). cbn [negb].
  apply fine_bind. eapply fine_mono; [by apply fine_gettoken|]. cbv beta. intros [[tok q] e] s3 (H3 & _ & Hlt & _). specialize (Hlt Hp).
  apply fine_bind. eapply fine_mono; [apply Hb; unfold in_line, later in *; lia|]. cbv beta. intros c s4 [Hc H4].
  assert (in_line s4) as Hs4 by (unfold in_line, later in *; lia).
  apply fine_bind. eapply fine_mono; [by apply fine_peek|]. cbv beta. intros p s5 [H5 _]. destruct p; [|apply fine_panic]. cbn [negb].
  assert (in_line s5) as Hs5 by (unfold in_line, later in *; lia).
  apply fine_bind. eapply fine_mono; [by apply fine_gettoken|]. cbv beta. intros [[tok' q'] e'] s6 (H6 & _).
  eapply fine_mono; [apply fine_parseredirs; [unfold in_line, later in *; lia|done]|]. cbv beta. intros c' s7 [Hc' H7].
  split; [done|]. unfold later in *. lia.
Qed.

Lemma parse_all n :
  ∀ s, in_line s →
    ((4 * todo s + 4 ≤ n)%nat → parses (parseline line n) s) ∧
    ((4 * todo s + 3 ≤ n)%nat → parses (parsepipe line n) s) ∧
    ((4 * todo s + 2 ≤ n)%nat → parses (parseexec line n) s) ∧
    ((4 * todo s + 1 ≤ n)%nat → parses (parseblock line n) s).
Proof.
  induction n as [|n IH]; intros s Hs; [lia|]. unfold in_line, todo in IH. split_and!; intros Hn; unfold todo, in_line in *.
  - unfold parses. rewrite parseline_S. apply fine_bind. eapply fine_mono; [apply (IH s); lia|]. cbv beta. intros c s2 [Hc H2].
    apply fine_bind. eapply fine_mono; [apply fine_parse_backs; [eapply later_in, H2; lia|done]|]. cbv beta. intros c2 s3 [Hc2 H3].
    apply parses_more; [lia|unfold later in *; lia|done|apply inside_both|]. intros s' Hs' Hlt. unfold in_line, later in *. apply IH; lia.
  - unfold parses. rewrite parsepipe_S. apply fine_bind. eapply fine_mono; [apply (IH s); lia|]. cbv beta. intros c s2 [Hc H2].
    apply parses_more; [lia|done|done|apply inside_both|]. intros s' Hs' Hlt. unfold in_line, later in *. apply IH; lia.
  - apply parses_exec; [done|]. intros s' Hs' Hle. unfold in_line in *. apply IH; lia.
  - apply parses_block; [done|]. intros s' Hs' Hlt. unfold in_line in *. apply IH; lia.
Qed.

Lemma fine_parse_whole : fine (parse_whole line) (λ c s, inside c) 0.
Proof.
  unfold parse_whole. assert (in_line 0) as H0 by (unfold in_line; lia). apply fine_bind.
  eapply fine_mono; [apply (parse_all _ 0 H0); unfold todo, parse_fuel; lia|]. cbv beta. intros c s [Hc Hs].
  apply fine_bind. eapply fine_mono; [by apply fine_peek, (later_in 0)|]. cbv beta. intros b s' _. by apply fine_ret.
Qed.

End Total.

(** * The claims *)

(** C38: the parser is total: on every line [parsecmd] returns a command or reports
    a syntax error. The recursion ends, no character outside the line is read,
    [nulterminate] writes inside the buffer only, and no simple command has more
    words than [argv] has room for beside the null pointer that ends it. *)
Theorem parsecmd_total line :
  0 ∉ line → fine (parsecmd line) (λ c buf, args_fit c ∧ length buf = S (length line)) (line ++ [0]).
Proof.
  intros Hnz. pose proof (fine_parse_whole line Hnz) as Hp. unfold parsecmd. unfold fine in Hp |- *. unfold mbind at 1, prog_bind at 1.
  destruct (parse_whole line 0) as [[c s]| | |]; [|done..]. destruct Hp as [Hs Hc]. destruct (negb _); [done|].
  change (fine (_ ← nulterminate c; mret c) (λ c buf, args_fit c ∧ length buf = S (length line)) (line ++ [0])).
  apply fine_wp, wp_bind, (wp_nulterminate line c); [rewrite length_app; cbn; lia|done|]. wp_auto. split; [done|].
  rewrite length_nulled, length_app. cbn. lia.
Qed.

(** [a|(b;c)&>] is a syntax error. *)
Lemma parsecmd_total_witness :
  fine (parsecmd (text "a|(b;c)&>")) (λ c buf, args_fit c ∧ length buf = 10%nat) (text "a|(b;c)&>" ++ [0]).
Proof. apply (parsecmd_total (text "a|(b;c)&>")). vm_compute. intros H. repeat (inversion_clear H as [|? ? ? H']; rename H' into H). Defined.
