(* ===== verification/Ucache.v ===== *)
(** The allocator calls as a user program sees them (user/kmemwrap.c) with the
    table of constructors and destructors behind them (user/ucache.c): the
    kernel cannot run user code, so the wrappers do.  The table is a map from
    caches to functions. *)

From S2P Require Import Prelude.

(** * Data *)

Definition MAX_UCACHES : nat := 128.

(** Functions are addresses, 0 for none. *)
Record ucent := UCent {
  kc : Z;
  ctor : Z;
  dtor : Z;
  objsz : Z;
  used : bool }.

Definition no_ucent : ucent := UCent 0 0 0 0 false.

(** The table and the rest of the world. *)
Record ust (W : Type) := USt { tab : list ucent; world : W }.

Arguments USt {W} _ _.
Arguments tab {W} _.
Arguments world {W} _.

Definition set_tab {W} (t : list ucent) (s : ust W) : ust W := USt t (world s).

Definition set_world {W} (w : W) (s : ust W) : ust W := USt (tab s) w.

(** What the wrappers use: the four system calls, and calling a function of the
    program on an object. *)
Class CacheCalls (W : Type) := {
  k_kmem_cache_create : Z → Z → Z → Z → prog W Z;
  k_kmem_cache_alloc : Z → prog W Z;
  k_kmem_cache_free : Z → Z → prog W Z;
  k_kmem_cache_destroy : Z → prog W Z;
  call : Z → Z → prog W unit }.

Section Ucache.

Context {W : Type} `{!CacheCalls W}.

Definition on_world {A} (m : prog W A) : prog (ust W) A := zoom world set_world m.

(** * The table (user/ucache.c) *)

(** [find], [insert] and [remove_entry] return or use the first entry that fits. *)
Definition find (k : Z) : prog (ust W) (option ucent) :=
  s ← get; mret (snd <$> list_find (λ e, used e = true ∧ kc e = k) (tab s)).

Definition insert (k sz c d : Z) : prog (ust W) bool :=
  s ← get;
  match list_find (λ e, used e = false) (tab s) with
  | Some (i, _) => _ ← modify (set_tab (<[i := UCent k c d sz true]> (tab s))); mret true
  | None => mret false
  end.

Definition remove_entry (k : Z) : prog (ust W) unit :=
  s ← get;
  match list_find (λ e, used e = true ∧ kc e = k) (tab s) with
  | Some (i, _) => modify (set_tab (<[i := no_ucent]> (tab s)))
  | None => mret tt
  end.

(** * The wrappers (user/kmemwrap.c) *)

Definition ukmem_cache_create (name sz c d : Z) : prog (ust W) Z :=
  k ← on_world (k_kmem_cache_create name sz 0 0);
  if k =? 0 then mret 0
  else
    ok ← insert k sz c d;
    if negb ok then _ ← on_world (k_kmem_cache_destroy k); mret 0
    else mret k.

Definition ukmem_cache_alloc (cache : Z) : prog (ust W) Z :=
  if cache =? 0 then mret 0
  else
    p ← on_world (k_kmem_cache_alloc cache);
    if p =? 0 then mret 0
    else
      e ← find cache;
      match e with
      | Some e => if negb (ctor e =? 0) then _ ← on_world (call (ctor e) p); mret p else mret p
      | None => mret p
      end.

(** The [int] of the system call becomes a [uint64]. *)
Definition ukmem_cache_free (cache obj : Z) : prog (ust W) Z :=
  if (cache =? 0) || (obj =? 0) then mret (u64 (-1))
  else
    e ← find cache;
    _ ← (match e with
         | Some e => if negb (dtor e =? 0) then on_world (call (dtor e) obj) else mret tt
         | None => mret tt
         end : prog (ust W) unit);
    r ← on_world (k_kmem_cache_free cache obj);
    mret (u64 r).

Definition ukmem_cache_destroy (cache : Z) : prog (ust W) Z :=
  if cache =? 0 then mret (u64 (-1))
  else
    r ← on_world (k_kmem_cache_destroy cache);
    _ ← remove_entry cache;
    mret (u64 r).

End Ucache.
