(* ===== verification/UcacheProps.v ===== *)
(** The wrappers of the allocator calls keep a map from caches to their
    constructors and destructors. *)

From S2P Require Import Prelude.
From S2P Require Import Ucache.

(** * The map *)

Section Spec.

Context {W : Type} `{!CacheCalls W}.

Definition on_snd {A} (m : prog W A) : prog (gmap Z (Z * Z) * W) A := zoom snd (λ w s, (s.1, w)) m.

(** A new cache is entered if the map has room for it. *)
Definition spec_create (name sz c d : Z) : prog (gmap Z (Z * Z) * W) Z :=
  k ← on_snd (k_kmem_cache_create name sz 0 0);
  if k =? 0 then mret 0
  else
    s ← get;
    if decide (size s.1 < MAX_UCACHES)%nat then _ ← modify (λ s, (<[k := (c, d)]> s.1, s.2)); mret k
    else _ ← on_snd (k_kmem_cache_destroy k); mret 0.

Definition spec_call (f p : Z) : prog (gmap Z (Z * Z) * W) unit := if f =? 0 then mret tt else on_snd (call f p).

(** Objects are constructed before they are handed out. *)
Definition spec_alloc (cache : Z) : prog (gmap Z (Z * Z) * W) Z :=
  if cache =? 0 then mret 0
  else
    p ← on_snd (k_kmem_cache_alloc cache);
    if p =? 0 then mret 0
    else s ← get; _ ← (if s.1 !! cache is Some (c, _) then spec_call c p else mret tt); mret p.

(** Objects are destructed before they are given back. *)
Definition spec_free (cache obj : Z) : prog (gmap Z (Z * Z) * W) Z :=
  if (cache =? 0) || (obj =? 0) then mret (u64 (-1))
  else
    s ← get;
    _ ← (if s.1 !! cache is Some (_, d) then spec_call d obj else mret tt);
    r ← on_snd (k_kmem_cache_free cache obj);
    mret (u64 r).

Definition spec_destroy (cache : Z) : prog (gmap Z (Z * Z) * W) Z :=
  if cache =? 0 then mret (u64 (-1))
  else
    r ← on_snd (k_kmem_cache_destroy cache);
    _ ← modify (λ s, (delete cache s.1, s.2));
    mret (u64 r).

End Spec.

(** What the wrappers rely on: a cache that is alive is not created again, and
    only destroying it ends its life. *)
Class CacheLaws (W : Type) `{!CacheCalls W} (alive : W → gset Z) := {
  create_fresh n sz c d w k w' :
    k_kmem_cache_create n sz c d w = Ok (k, w') → alive w ⊆ alive w' ∧ (k ≠ 0 → (k ∉ alive w) ∧ k ∈ alive w');
  alloc_alive k : keeps (λ w w', alive w ⊆ alive w') (k_kmem_cache_alloc k);
  free_alive k p : keeps (λ w w', alive w ⊆ alive w') (k_kmem_cache_free k p);
  call_alive f p : keeps (λ w w', alive w ⊆ alive w') (call f p);
  destroy_alive k : keeps (λ w w', alive w ∖ {[k]} ⊆ alive w') (k_kmem_cache_destroy k) }.

(** * Tables and maps *)

Definition entry (e : ucent) : Z * (Z * Z) := (kc e, (ctor e, dtor e)).

Definition entries (t : list ucent) : list (Z * (Z * Z)) := entry <$> filter (λ e, used e = true) t.

Definition registered (t : list ucent) : gmap Z (Z * Z) := list_to_map (entries t).

Lemma entries_perm t t' : t ≡ₚ t' → entries t ≡ₚ entries t'.
Proof. intros H. unfold entries. by rewrite H. Qed.

Lemma entries_cons e t : entries (e :: t) = if used e then entry e :: entries t else entries t.
Proof. unfold entries. cbn. destruct (used e) eqn:E; [rewrite decide_True by done|rewrite decide_False by congruence]; done. Qed.

(** The entry at [i] and the others. *)
Lemma entry_first (t : list ucent) (i : nat) (e : ucent) : t !! i = Some e → ∃ t', t ≡ₚ e :: t' ∧ ∀ e', <[i := e']> t ≡ₚ e' :: t'.
Proof.
  intros H. exists (take i t ++ drop (S i) t). apply lookup_lt_Some in H as Hl. split.
  - rewrite <- (take_drop_middle t i e H) at 1. by rewrite Permutation_middle.
  - intros e'. rewrite insert_take_drop by done. by rewrite Permutation_middle.
Qed.

Lemma registered_perm t t' : NoDup (entries t).*1 → t ≡ₚ t' → registered t = registered t'.
Proof. intros Hd H. by apply list_to_map_proper, entries_perm. Qed.

Lemma nodup_perm t t' : t ≡ₚ t' → NoDup (entries t).*1 → NoDup (entries t').*1.
Proof. intros H%entries_perm. by rewrite H. Qed.

Lemma registered_None t k : registered t !! k = None → k ∉ (entries t).*1.
Proof. apply not_elem_of_list_to_map_2. Qed.

Lemma find_registered t k :
  registered t !! k = (λ e, (ctor e.2, dtor e.2)) <$> list_find (λ e, used e = true ∧ kc e = k) t.
Proof.
  unfold registered. induction t as [|e t IH]; [done|]. rewrite entries_cons. cbn [list_find]. destruct (decide (used e = true ∧ kc e = k)) as [[Hu <-]|Hn].
  - rewrite Hu. cbn. by rewrite lookup_insert_eq.
  - destruct (used e) eqn:Hu.
    + cbn. rewrite lookup_insert_ne by tauto. rewrite IH. by destruct (list_find _ t) as [[]|].
    + rewrite IH. by destruct (list_find _ t) as [[]|].
Qed.

Lemma insert_registered t i e k sz c d :
  NoDup (entries t).*1 → registered t !! k = None → t !! i = Some e → used e = false →
  NoDup (entries (<[i := UCent k c d sz true]> t)).*1 ∧ registered (<[i := UCent k c d sz true]> t) = <[k := (c, d)]> (registered t).
Proof.
  intros Hd Hk%registered_None Hi Hu. destruct (entry_first t i e Hi) as (t' & Ht & Ht'). specialize (Ht' (UCent k c d sz true)).
  assert (entries t ≡ₚ entries t') as He by (rewrite (entries_perm _ _ Ht), entries_cons; by rewrite Hu).
  assert (NoDup (entries (UCent k c d sz true :: t')).*1) as Hd'.
  { rewrite entries_cons. cbn. apply NoDup_cons. split; [by rewrite <- He|by rewrite <- He]. }
  split; [by eapply nodup_perm, Hd'|]. rewrite <- (registered_perm _ _ Hd') by done.
  unfold registered. rewrite entries_cons. cbn. f_equal. symmetry. by apply list_to_map_proper.
Qed.

Lemma remove_registered t i e k :
  NoDup (entries t).*1 → t !! i = Some e → used e = true → kc e = k →
  NoDup (entries (<[i := no_ucent]> t)).*1 ∧ registered (<[i := no_ucent]> t) = delete k (registered t).
Proof.
  intros Hd Hi Hu <-. destruct (entry_first t i e Hi) as (t' & Ht & Ht'). specialize (Ht' no_ucent).
  pose proof (nodup_perm _ _ Ht Hd) as Hd1. rewrite (registered_perm _ _ Hd Ht). rewrite entries_cons, Hu in Hd1. cbn in Hd1. apply NoDup_cons in Hd1 as [Hn Hd'].
  assert (NoDup (entries (no_ucent :: t')).*1) as Hd2 by (by rewrite entries_cons).
  split; [by eapply nodup_perm, Hd2|]. rewrite <- (registered_perm _ _ Hd2) by done. unfold registered. rewrite !entries_cons, Hu. cbn.
  rewrite delete_insert_id; [done|]. by apply not_elem_of_list_to_map_1.
Qed.

Lemma registered_size t : NoDup (entries t).*1 → (size (registered t) ≤ length t)%nat.
Proof. intros Hd. unfold registered. rewrite map_size_list_to_map by done. unfold entries. rewrite length_fmap. apply length_filter. Qed.

Lemma table_full t :
  NoDup (entries t).*1 → list_find (λ e, used e = false) t = None ↔ size (registered t) = length t.
Proof.
  intros Hd. unfold registered. rewrite map_size_list_to_map by done. unfold entries. rewrite length_fmap. rewrite list_find_None. split.
  - intros H. f_equal. induction H as [|e t He H IH]; [done|]. rewrite filter_cons_True by (by apply not_false_iff_true). cbn. f_equal. apply IH.
    rewrite entries_cons in Hd. destruct (used e); [by apply NoDup_cons in Hd as [_ Hd]|done].
  - clear Hd. induction t as [|e t IH]; [by constructor|]. rewrite filter_cons. intros H. pose proof (length_filter (λ e, used e = true) t) as Hl.
    destruct (decide (used e = true)) as [Hu|Hu]; cbn [length] in H; [|lia]. constructor; [congruence|]. apply IH. lia.
Qed.

(** * The simulation *)

Section Sim.

Context {W : Type} `{!CacheCalls W} (alive : W → gset Z) `{!CacheLaws W alive}.

Definition agree (s : ust W) (x : gmap Z (Z * Z) * W) : Prop :=
  length (tab s) = MAX_UCACHES ∧ NoDup (entries (tab s)).*1 ∧ x = (registered (tab s), world s) ∧
  dom x.1 ⊆ alive (world s).

(** The same result, or the same end. *)
Definition same {A} (o1 : outcome (A * ust W)) (o2 : outcome (A * (gmap Z (Z * Z) * W))) : Prop :=
  match o1, o2 with
  | Ok (a, s), Ok (b, x) => a = b ∧ agree s x
  | Panic msg, Panic msg' => msg = msg'
  | UB, UB => True
  | NoFuel, NoFuel => True
  | _, _ => False
  end.

Definition sim {A} (m1 : prog (ust W) A) (m2 : prog (gmap Z (Z * Z) * W) A) : Prop :=
  ∀ s x, agree s x → same (m1 s) (m2 x).

Lemma sim_ret {A} (a : A) : sim (mret a) (mret a).
Proof. by intros s x H. Qed.

Lemma sim_bind {A B} (m1 : prog (ust W) A) m2 (f1 : A → prog (ust W) B) f2 :
  sim m1 m2 → (∀ a, sim (f1 a) (f2 a)) → sim (m1 ≫= f1) (m2 ≫= f2).
Proof.
  intros Hm Hf s x H. specialize (Hm s x H). unfold mbind, prog_bind. destruct (m1 s) as [[a s']| | |], (m2 x) as [[b x']| | |]; try done.
  destruct Hm as [-> Hm]. by apply Hf.
Qed.

Lemma sim_world {A} (m : prog W A) : keeps (λ w w', alive w ⊆ alive w') m → sim (on_world m) (on_snd m).
Proof.
  intros Hk s x (Hl & Hd & -> & Ha). unfold on_world, on_snd, zoom. cbn [snd]. destruct (m (world s)) as [[a w]| | |] eqn:E; try done.
  apply Hk in E. split; [done|]. split_and!; try done. cbn in *. set_solver.
Qed.

Lemma sim_call f p : sim (if negb (f =? 0) then on_world (call f p) else mret tt) (spec_call f p).
Proof. unfold spec_call. destruct (f =? 0); [apply sim_ret|apply sim_world, call_alive]. Qed.

Lemma sim_find {B} k (F : option ucent → prog (ust W) B) G :
  (∀ o, sim (F o) (G ((λ e, (ctor e, dtor e)) <$> o))) → sim (find k ≫= F) (x ← get; G (x.1 !! k)).
Proof.
  intros H s x Hs. pose proof Hs as (Hl & Hd & -> & Ha). specialize (H (snd <$> list_find (λ e, used e = true ∧ kc e = k) (tab s)) s _ Hs).
  change (same (F (snd <$> list_find (λ e, used e = true ∧ kc e = k) (tab s)) s) (G (registered (tab s) !! k) (registered (tab s), world s))).
  rewrite find_registered.
  by destruct (list_find _ (tab s)) as [[]|].
Qed.

Lemma sim_create name sz c d : sim (ukmem_cache_create name sz c d) (spec_create name sz c d).
Proof.
  intros s x (Hl & Hd & -> & Ha). unfold ukmem_cache_create, spec_create, mbind, prog_bind, on_world, on_snd, zoom. cbn [snd].
  destruct (k_kmem_cache_create name sz 0 0 (world s)) as [[k w]| | |] eqn:E; try done. apply create_fresh in E as [Hsub Hk].
  assert (agree (set_world w s) (registered (tab s), w)) as Hs by (split_and!; try done; cbn in *; set_solver).
  destruct (Z.eqb_spec k 0) as [->|H0]; [by split|]. specialize (Hk H0) as [Hk1 Hk2].
  change (same ((ok ← insert k sz c d; if negb ok then _ ← on_world (k_kmem_cache_destroy k); mret 0 else mret k) (set_world w s))
    ((if decide (size (registered (tab s)) < MAX_UCACHES)%nat then _ ← modify (λ s, (<[k := (c, d)]> s.1, s.2)); mret k
      else _ ← on_snd (k_kmem_cache_destroy k); mret 0) (registered (tab s), w))).
  assert (registered (tab s) !! k = None) as Hn by (apply not_elem_of_dom; cbn in *; set_solver).
  unfold insert, get, mbind at 1, prog_bind at 1, mbind at 1, prog_bind at 1. cbn [tab set_world].
  pose proof (table_full (tab s) Hd) as Hfull. destruct (list_find _ (tab s)) as [[i e]|] eqn:El.
  - apply list_find_Some in El as (Hi & Hu & _). rewrite decide_True.
    + destruct (insert_registered _ _ _ k sz c d Hd Hn Hi Hu) as [Hd' Hr]. split; [done|].
      split_and!; [by rewrite <- Hl; apply length_insert|done|apply (f_equal2 pair); [symmetry; exact Hr|done]|]. cbn in *. set_solver.
    + pose proof (registered_size (tab s) Hd). assert (size (registered (tab s)) ≠ length (tab s)) by (by intros ?%Hfull). lia.
  - rewrite decide_False by (pose proof (proj1 Hfull eq_refl); lia). unfold mbind, prog_bind, on_world, on_snd, zoom. cbn [snd world set_world mret prog_ret negb].
    destruct (k_kmem_cache_destroy k w) as [[r w']| | |] eqn:E; try done. apply destroy_alive in E. split; [done|]. split_and!; try done. cbn in *. set_solver.
Qed.

Lemma sim_alloc k : sim (ukmem_cache_alloc k) (spec_alloc k).
Proof.
  unfold ukmem_cache_alloc, spec_alloc. destruct (k =? 0); [apply sim_ret|]. apply sim_bind; [apply sim_world, alloc_alive|]. intros p.
  destruct (p =? 0); [apply sim_ret|]. apply (sim_find k _ (λ o, _ ← (if o is Some (c, _) then spec_call c p else mret tt); mret p)).
  intros [e|]; [|apply sim_ret]. cbn [fmap option_fmap option_map]. unfold spec_call. destruct (ctor e =? 0); [apply sim_ret|].
  apply sim_bind; [apply sim_world, call_alive|]. intros []. apply sim_ret.
Qed.

Lemma sim_free k p : sim (ukmem_cache_free k p) (spec_free k p).
Proof.
  unfold ukmem_cache_free, spec_free. destruct (_ || _); [apply sim_ret|].
  apply (sim_find k _ (λ o, _ ← (if o is Some (_, d) then spec_call d p else mret tt); r ← on_snd (k_kmem_cache_free k p); mret (u64 r))).
  intros o. apply sim_bind.
  - destruct o as [e|]; [apply sim_call|apply sim_ret].
  - intros _. apply sim_bind; [apply sim_world, free_alive|]. intros r. apply sim_ret.
Qed.

(** Destroying a cache ends its entry, whatever the kernel says. *)
Lemma sim_destroy k : sim (ukmem_cache_destroy k) (spec_destroy k).
Proof.
  unfold ukmem_cache_destroy, spec_destroy. destruct (k =? 0); [apply sim_ret|]. intros s x (Hl & Hd & -> & Ha).
  unfold mbind, prog_bind, on_world, on_snd, zoom. cbn [snd]. destruct (k_kmem_cache_destroy k (world s)) as [[r w]| | |] eqn:E; try done.
  apply destroy_alive in E. unfold remove_entry, get, mbind, prog_bind. cbn [tab set_world].
  pose proof (find_registered (tab s) k) as Hf. destruct (list_find _ (tab s)) as [[i e]|] eqn:El.
  - apply list_find_Some in El as (Hi & (Hu & Hk) & _). destruct (remove_registered _ _ _ _ Hd Hi Hu Hk) as [Hd' Hr]. split; [done|].
    split_and!; [by rewrite <- Hl; apply length_insert|done|apply (f_equal2 pair); [symmetry; exact Hr|done]|]. cbn in *. set_solver.
  - split; [done|]. cbn in Hf. split_and!; [done|done|apply (f_equal2 pair); [by apply delete_id|done]|]. cbn in *. set_solver.
Qed.

(** * Sequences of calls *)

Inductive uop : Type :=
  | UCreate (name sz c d : Z)
  | UAlloc (cache : Z)
  | UFree (cache obj : Z)
  | UDestroy (cache : Z).

Definition run_op (o : uop) : prog (ust W) Z :=
  match o with
  | UCreate name sz c d => ukmem_cache_create name sz c d
  | UAlloc cache => ukmem_cache_alloc cache
  | UFree cache obj => ukmem_cache_free cache obj
  | UDestroy cache => ukmem_cache_destroy cache
  end.

Definition spec_op (o : uop) : prog (gmap Z (Z * Z) * W) Z :=
  match o with
  | UCreate name sz c d => spec_create name sz c d
  | UAlloc cache => spec_alloc cache
  | UFree cache obj => spec_free cache obj
  | UDestroy cache => spec_destroy cache
  end.

Fixpoint run_all {S O} (f : O → prog S Z) (os : list O) : prog S (list Z) :=
  match os with [] => mret [] | o :: os => r ← f o; rs ← run_all f os; mret (r :: rs) end.

Lemma sim_op o : sim (run_op o) (spec_op o).
Proof. destruct o; [apply sim_create|apply sim_alloc|apply sim_free|apply sim_destroy]. Qed.

Lemma sim_all os : sim (run_all run_op os) (run_all spec_op os).
Proof.
  induction os as [|o os IH]; [apply sim_ret|]. apply sim_bind; [apply sim_op|]. intros r. apply sim_bind; [exact IH|]. intros rs. apply sim_ret.
Qed.

Definition empty_tab : list ucent := replicate MAX_UCACHES no_ucent.

Lemma agree_empty w : agree (USt empty_tab w) (∅, w).
Proof. split_and!; [done|by vm_compute; constructor|done|set_solver]. Qed.

End Sim.

(** * The theorem *)

(** Whatever sequence of creations, allocations, frees and destructions a
    program makes, from the empty table on, the wrappers return what they would
    return, and do to the rest of the world (system calls, constructors and
    destructors, in their order) what they would do, if the table were a map
    from caches to constructor and destructor with room for 128 caches: an object
    is constructed with the function its cache was created with before it is
    handed out, destructed before it is given back, and a cache the table has no
    room for is destroyed again. *)
Theorem wrappers_refine_map {W} `{!CacheCalls W} (alive : W → gset Z) (L : CacheLaws W alive) w os :
  same alive (run_all run_op os (USt empty_tab w)) (run_all spec_op os (∅, w)).
Proof. exact (sim_all alive os _ _ (agree_empty alive w)). Qed.

(** A kernel that numbers caches and objects, beside the calls of functions that
    were made. *)
#[local] Instance counting_calls : CacheCalls (nat * list (Z * Z)) := {
  k_kmem_cache_create _ _ _ _ := λ w, Ok (Z.of_nat w.1, (S w.1, w.2));
  k_kmem_cache_alloc _ := λ w, Ok (Z.of_nat w.1, (S w.1, w.2));
  k_kmem_cache_free _ _ := λ w, Ok (0, w);
  k_kmem_cache_destroy _ := λ w, Ok (0, w);
  call f p := λ w, Ok (tt, (w.1, w.2 ++ [(f, p)])) }.

Definition below (w : nat * list (Z * Z)) : gset Z := list_to_set (seqZ 0 (Z.of_nat w.1)).

Lemma below_grows (n : nat) l l' : below (n, l) ⊆ below (S n, l').
Proof. intros k. unfold below. rewrite !elem_of_list_to_set, !elem_of_seqZ. cbn. lia. Qed.

#[local] Instance counting_laws : CacheLaws (nat * list (Z * Z)) below.
Proof.
  split; [intros n sz c d w k w'|intros k w a w'|intros k p w a w'|intros f p w a w'|intros k w a w']; intros [= <- <-].
  - split; [destruct w; apply below_grows|]. intros H. unfold below. rewrite !elem_of_list_to_set, !elem_of_seqZ. cbn. lia.
  - destruct w. apply below_grows.
  - done.
  - done.
  - set_solver.
Qed.

(** An object is constructed when it is handed out and destructed when it is given
    back; after the cache has been destroyed there is no constructor. *)
Example counting_run :
  match run_all run_op [UCreate 0 16 100 200; UAlloc 7; UFree 7 8; UDestroy 7; UAlloc 7] (USt empty_tab (7%nat, [])) with
  | Ok (rs, s) => rs = [7; 8; 0; 0; 9] ∧ (world s).2 = [(100, 8); (200, 8)]
  | _ => False
  end.
Proof. split; reflexivity. Qed.
