(* ===== verification/Umalloc.v ===== *)
(** The allocator of the user library (user/umalloc.c): a ring of free blocks in
    the order of their addresses, threaded through the memory it manages.  Data
    and operations, over the bytes of the process. *)

From S2P Require Import Prelude.
From S2P Require Import Cstring.
From S2P Require Import Vm.

(** * Data *)

(** [sizeof(Header)]: a pointer, a 32-bit size in units of headers, padding. *)
Definition HEADER : Z := 16.

(** The memory of the process up to its break, the variable [freep], and how
    often the kernel was asked for memory. *)
Record heap := Heap {
  mem : bmem;
  brk : Z;
  freep : Z;
  asked : nat }.

Definition set_mem (m : bmem) (h : heap) : heap := Heap m (brk h) (freep h) (asked h).

Definition set_freep (p : Z) (h : heap) : heap := Heap (mem h) (brk h) p (asked h).

Definition on_mem {A} (m : prog bmem A) : prog heap A := zoom mem set_mem m.

Definition load_size (a : Z) : prog bmem Z :=
  b0 ← load8 a; b1 ← load8 (a + 1); b2 ← load8 (a + 2); b3 ← load8 (a + 3);
  mret (b0 + 256 * (b1 + 256 * (b2 + 256 * b3))).

Definition store_size (a v : Z) : prog bmem unit := for_range 0 4 (λ i, store8 (a + i) (byte_of v i)).

(** [p->s.ptr] and [p->s.size] *)
Definition get_ptr (p : Z) : prog heap Z := on_mem (load64 p).

Definition set_ptr (p q : Z) : prog heap unit := on_mem (store64 p q).

Definition get_size (p : Z) : prog heap Z := on_mem (load_size (p + 8)).

Definition set_size (p n : Z) : prog heap unit := on_mem (store_size (p + 8) n).

(** [p + n] on headers *)
Definition units (p n : Z) : Z := u64 (p + n * HEADER).

Definition SBRK_ERROR : Z := u64 (-1).

(** Zero bytes from [a] on. *)
Fixpoint fresh (n : nat) (a : Z) (m : bmem) : bmem :=
  match n with O => m | S n => <[a := 0]> (fresh n (a + 1) m) end.

Fixpoint forget (n : nat) (a : Z) (m : bmem) : bmem :=
  match n with O => m | S n => delete a (forget n (a + 1) m) end.

Section Malloc.

(** Where the linker has put [base], and whether the kernel finds the pages for
    the [k]th request. *)
Variable base : Z.

Variable grant : nat → bool.

(** ** The system call

    [sbrk(n)] of user/ulib.c, as [sys_sbrk] and [growproc] of the kernel answer it.
    The answer of [uvmalloc] is [grant]; it allocates a page of memory for every
    page of the process, so the break stays below the size of the memory. *)
Definition sbrk (n : Z) : prog heap Z :=
  h ← get;
  if 0 <? n then
    _ ← modify (λ h, Heap (mem h) (brk h) (freep h) (S (asked h)));
    if TRAPFRAME <? brk h + n then mret SBRK_ERROR
    else if (brk h + n <=? PHYSTOP - KERNBASE) && grant (asked h) then
      _ ← modify (λ h, Heap (fresh (Z.to_nat n) (brk h) (mem h)) (brk h + n) (freep h) (asked h));
      mret (brk h)
    else mret SBRK_ERROR
  else
    let newsz := u64 (brk h + n) in
    if brk h <=? newsz then mret (brk h)
    else
      _ ← modify (λ h, Heap (forget (Z.to_nat (brk h - newsz)) newsz (mem h)) newsz (freep h) (asked h));
      mret (brk h).

(** ** [free] *)

(** A bound on the length of the ring: every block has an address of its own. *)
Definition ring_fuel (h : heap) : nat := S (Z.to_nat (brk h)).

(** The free block after which [bp] belongs. *)
Definition free_place (bp : Z) : prog heap Z :=
  h ← get;
  loop (ring_fuel h)
    (λ p,
       next ← get_ptr p;
       if (p <? bp) && (bp <? next) then mret (inr p)
       else if (next <=? p) && ((p <? bp) || (bp <? next)) then mret (inr p)
       else mret (inl next))
    (freep h).

Definition ufree (ap : Z) : prog heap unit :=
  let bp := u64 (ap - HEADER) in
  p ← free_place bp;
  n ← get_size bp;
  next ← get_ptr p;
  _ ← (if units bp n =? next then
         m ← get_size next;
         _ ← set_size bp (u32 (n + m));
         next ← get_ptr p;
         q ← get_ptr next;
         set_ptr bp q
       else set_ptr bp next);
  k ← get_size p;
  _ ← (if units p k =? bp then
         n ← get_size bp;
         _ ← set_size p (u32 (k + n));
         q ← get_ptr bp;
         set_ptr p q
       else set_ptr p bp);
  modify (set_freep p).

(** ** [malloc] *)

Definition morecore (nu : Z) : prog heap Z :=
  let nu := if nu <? 4096 then 4096 else nu in
  p ← sbrk (s32 (nu * HEADER));
  if p =? SBRK_ERROR then mret 0
  else
    _ ← set_size p nu;
    _ ← ufree (units p 1);
    gets freep.

(** Taking [nunits] units from the block [p] after [prevp]. *)
Definition carve (prevp p nunits size : Z) : prog heap Z :=
  p ← (if size =? nunits then
         q ← get_ptr p;
         _ ← set_ptr prevp q;
         mret p
       else
         let size := u32 (size - nunits) in
         _ ← set_size p size;
         let p := units p size in
         _ ← set_size p nunits;
         mret p);
  _ ← modify (set_freep prevp);
  mret (units p 1).

(** One round of the loop: the block before and the block to try. *)
Definition malloc_body (nunits : Z) (st : Z * Z) : prog heap (Z * Z + Z) :=
  let '(prevp, p) := st in
  size ← get_size p;
  if nunits <=? size then
    q ← carve prevp p nunits size;
    mret (inr q)
  else
    h ← get;
    if p =? freep h then
      p ← morecore nunits;
      if p =? 0 then mret (inr 0)
      else next ← get_ptr p; mret (inl (p, next))
    else next ← get_ptr p; mret (inl (p, next)).

Definition umalloc (nbytes : Z) : prog heap Z :=
  let nunits := u32 ((nbytes + HEADER - 1) / HEADER + 1) in
  h ← get;
  _ ← (if freep h =? 0 then
         _ ← modify (set_freep base);
         _ ← set_ptr base base;
         set_size base 0
       else mret tt);
  prevp ← gets freep;
  p ← get_ptr prevp;
  loop (2 * ring_fuel h + 2) (malloc_body nunits) (prevp, p).

End Malloc.
