(* ===== verification/UmallocInv.v ===== *)
(** The blocks of the user allocator and the ring of the free ones: which blocks
    there are, what splitting and merging does to them, and the order of the
    ring. *)

From S2P Require Import Prelude.
From S2P Require Import Cstring.
From S2P Require Import Vm.
From S2P Require Import VmInv.
From S2P Require Import Umalloc.

Section Blocks.

Context (base : Z).

(** * Blocks

    [N] has the free blocks with their sizes in units, [base] among them, and [A]
    the blocks that are in use. *)

Implicit Types N A : gmap Z Z.

Definition blk N A (a n : Z) : Prop := N !! a = Some n ∨ A !! a = Some n.

Record tiles N A (top : Z) : Prop := {
  t_base : N !! base = Some 0;
  t_low : 0 < base ∧ base + 16 ≤ top;
  t_disj a n k : N !! a = Some n → A !! a = Some k → False;
  t_pos a n : blk N A a n → a ≠ base → base + 16 ≤ a ∧ 1 ≤ n ∧ a + 16 * n ≤ top;
  t_sep a n b k : blk N A a n → blk N A b k → a < b → a + 16 * n ≤ b }.

(** Free blocks that touch have been merged. *)
Definition gaps N : Prop := ∀ a n, N !! a = Some n → a ≠ base → N !! (a + 16 * n) = None.

(** Every byte from [lo] on is in a block. *)
Definition cover N A (lo top : Z) : Prop := ∀ x, lo ≤ x < top → ∃ a n, blk N A a n ∧ a ≤ x < a + 16 * n.

Definition sep (a b : Z) : Prop := a = b ∨ a + 16 ≤ b ∨ b + 16 ≤ a.

Lemma tiles_A_base N A top a n : tiles N A top → A !! a = Some n → a ≠ base.
Proof. intros H Ha ->. eapply t_disj; [done|apply (t_base _ _ _ H)|done]. Qed.

Lemma tiles_low N A top a n : tiles N A top → blk N A a n → base ≤ a ∧ a + 16 ≤ top.
Proof.
  intros H Hb. pose proof (t_low _ _ _ H). destruct (decide (a = base)) as [->|Hne]; [lia|]. pose proof (t_pos _ _ _ H _ _ Hb Hne). lia.
Qed.

Lemma tiles_hdr N A top a n b k : tiles N A top → blk N A a n → blk N A b k → a < b → a + 16 ≤ b ∧ a + 16 * n ≤ b.
Proof.
  intros H Ha Hb Hlt. split; [|by eapply t_sep]. destruct (decide (a = base)) as [->|Hne].
  - eapply t_pos; [done|exact Hb|lia].
  - pose proof (t_pos _ _ _ H _ _ Ha Hne). pose proof (t_sep _ _ _ H _ _ _ _ Ha Hb Hlt). lia.
Qed.

Lemma tiles_headers N A top a n b k : tiles N A top → blk N A a n → blk N A b k → sep a b.
Proof.
  intros H Ha Hb. unfold sep. destruct (Ztrichotomy a b) as [Hlt|[->|Hgt]]; [| |apply Z.gt_lt in Hgt].
  - pose proof (tiles_hdr _ _ _ _ _ _ _ H Ha Hb Hlt). lia.
  - lia.
  - pose proof (tiles_hdr _ _ _ _ _ _ _ H Hb Ha Hgt). lia.
Qed.

(** The contents of a block in use are not part of any header. *)
Lemma tiles_payload N A top c k a n x :
  tiles N A top → blk N A c k → A !! a = Some n → a + 16 ≤ x < a + 16 * n → ¬ (c ≤ x < c + 16).
Proof.
  intros H Hc Ha Hx. assert (blk N A a n) as Hb by (by right). destruct (Ztrichotomy a c) as [Hlt|[->|Hgt]]; [|lia|apply Z.gt_lt in Hgt].
  - pose proof (t_sep _ _ _ H _ _ _ _ Hb Hc Hlt). lia.
  - pose proof (tiles_hdr _ _ _ _ _ _ _ H Hc Hb Hgt). lia.
Qed.

(** A block is given back. *)
Lemma tiles_release N A top a n : tiles N A top → A !! a = Some n → tiles (<[a := n]> N) (delete a A) top.
Proof.
  intros H Ha. assert (a ≠ base) as Hne by (by eapply tiles_A_base).
  assert (∀ b k, blk (<[a := n]> N) (delete a A) b k → blk N A b k) as Hb.
  { intros b k [[[-> ->]|[_ Hk]]%lookup_insert_Some|[_ Hk]%lookup_delete_Some]; [by right|by left|by right]. }
  split.
  - rewrite lookup_insert_ne by done. apply H.
  - apply H.
  - intros b k k' [[<- <-]|[_ Hk]]%lookup_insert_Some [Hn Hk']%lookup_delete_Some; [done|]. by eauto using t_disj.
  - intros b k Hk. by apply (t_pos _ _ _ H), Hb.
  - intros b k c k' Hk Hk'. eapply t_sep; [done|by apply Hb..].
Qed.

(** A free block is handed out. *)
Lemma tiles_take N A top a n : tiles N A top → N !! a = Some n → a ≠ base → tiles (delete a N) (<[a := n]> A) top.
Proof.
  intros H Ha Hne. assert (∀ b k, blk (delete a N) (<[a := n]> A) b k → blk N A b k) as Hb.
  { intros b k [[_ Hk]%lookup_delete_Some|[[-> ->]|[_ Hk]]%lookup_insert_Some]; [by left|by left|by right]. }
  split.
  - rewrite lookup_delete_ne by done. apply H.
  - apply H.
  - intros b k k' [Hn Hk]%lookup_delete_Some [[<- <-]|[_ Hk']]%lookup_insert_Some; [done|]. by eauto using t_disj.
  - intros b k Hk. by apply (t_pos _ _ _ H), Hb.
  - intros b k c k' Hk Hk'. eapply t_sep; [done|by apply Hb..].
Qed.

(** Two free blocks that touch become one. *)
Lemma tiles_merge N A top a n b k :
  tiles N A top → N !! a = Some n → N !! b = Some k → a ≠ base → b ≠ base → a + 16 * n = b →
  tiles (<[a := n + k]> (delete b N)) A top.
Proof.
  intros H Ha Hb Hna Hnb E. pose proof (t_pos _ _ _ H a n (or_introl Ha) Hna) as Pa. pose proof (t_pos _ _ _ H b k (or_introl Hb) Hnb) as Pb.
  assert (∀ c j, blk (<[a := n + k]> (delete b N)) A c j → (c = a ∧ j = n + k) ∨ (c ≠ a ∧ c ≠ b ∧ blk N A c j)) as Hc.
  { intros c j [[[<- <-]|[Hn1 [Hn2 Hj]%lookup_delete_Some]]%lookup_insert_Some|Hj]; [by left|right; split_and!; [done|done|by left]|].
    right. split_and!; [| |by right]; intros ->; by eauto using t_disj. }
  split.
  - rewrite lookup_insert_ne, lookup_delete_ne by done. apply H.
  - apply H.
  - intros c j j' [[<- <-]|[_ [_ Hj]%lookup_delete_Some]]%lookup_insert_Some Hj'; by eauto using t_disj.
  - intros c j [[-> ->]|(_ & _ & Hj)]%Hc Hcb; [lia|]. by apply (t_pos _ _ _ H).
  - intros c j d j' [[-> ->]|(Hc1 & Hc2 & Hj)]%Hc [[-> ->]|(Hd1 & Hd2 & Hj')]%Hc Hlt; [lia| | |].
    + pose proof (t_sep _ _ _ H _ _ _ _ (or_introl Ha) Hj' Hlt). assert (b < d) as Hbd by lia.
      pose proof (t_sep _ _ _ H _ _ _ _ (or_introl Hb) Hj' Hbd). lia.
    + by eapply (t_sep _ _ _ H _ _ _ _ Hj (or_introl Ha)).
    + by eapply t_sep.
Qed.

(** The end of a free block is handed out. *)
Lemma tiles_split N A top a n k :
  tiles N A top → N !! a = Some n → 1 ≤ k < n → tiles (<[a := n - k]> N) (<[a + 16 * (n - k) := k]> A) top.
Proof.
  intros H Ha Hk. assert (a ≠ base) as Hne by (intros ->; rewrite (t_base _ _ _ H) in Ha; injection Ha; lia).
  pose proof (t_pos _ _ _ H a n (or_introl Ha) Hne) as Pa. set (e := a + 16 * (n - k)).
  assert (∀ c j, blk (<[a := n - k]> N) (<[e := k]> A) c j → (c = a ∧ j = n - k) ∨ (c = e ∧ j = k) ∨ (c ≠ a ∧ blk N A c j)) as Hc.
  { intros c j [[[<- <-]|[Hn1 Hj]]%lookup_insert_Some|[[<- <-]|[Hn1 Hj]]%lookup_insert_Some]; [by left|right; right; split; [done|by left]|by right; left|].
    right; right. split; [|by right]. intros ->. by eauto using t_disj. }
  assert (∀ c j, c ≠ a → blk N A c j → c + 16 * j ≤ a ∨ a + 16 * n ≤ c) as Hout.
  { intros c j Hca Hj. destruct (Ztrichotomy c a) as [Hlt|[->|Hgt]]; [|done|apply Z.gt_lt in Hgt].
    - left. by eapply (t_sep _ _ _ H _ _ _ _ Hj (or_introl Ha)).
    - right. by eapply (t_sep _ _ _ H _ _ _ _ (or_introl Ha) Hj). }
  assert (∀ c j, c ≠ base → blk N A c j → 1 ≤ j) as Hpos by (intros c j Hcb Hj; by apply (t_pos _ _ _ H _ _ Hj)).
  assert (N !! e = None) as Hen.
  { destruct (N !! e) as [j|] eqn:Ej; [|done]. pose proof (Hpos e j ltac:(unfold e; lia) (or_introl Ej)).
    destruct (Hout e j ltac:(unfold e; lia) (or_introl Ej)); unfold e in *; lia. }
  split.
  - rewrite lookup_insert_ne by done. apply H.
  - apply H.
  - intros c j j' [[<- <-]|[Hn1 Hj]]%lookup_insert_Some [[He <-]|[Hn2 Hj']]%lookup_insert_Some; [unfold e in He; lia|by eauto using t_disj|congruence|by eauto using t_disj].
  - intros c j [[-> ->]|[[-> ->]|[Hca Hj]]]%Hc Hcb; [unfold e in *; lia|unfold e in *; lia|]. by apply (t_pos _ _ _ H).
  - intros c j d j' [[-> ->]|[[-> ->]|[Hca Hj]]]%Hc [[-> ->]|[[-> ->]|[Hda Hj']]]%Hc Hlt; try (unfold e in *; lia).
    + destruct (Hout _ _ Hda Hj'); [|unfold e in *; lia]. destruct (decide (d = base)) as [->|Hdb]; [lia|]. pose proof (Hpos _ _ Hdb Hj'). lia.
    + destruct (Hout _ _ Hda Hj'); [|unfold e in *; lia]. destruct (decide (d = base)) as [->|Hdb]; [unfold e in *; lia|]. pose proof (Hpos _ _ Hdb Hj'). unfold e in *. lia.
    + destruct (Hout _ _ Hca Hj); lia.
    + destruct (Hout _ _ Hca Hj); unfold e in *; lia.
    + by eapply t_sep.
Qed.

(** Memory from the kernel is a block in use. *)
Lemma tiles_more N A top n : tiles N A top → 1 ≤ n → tiles N (<[top := n]> A) (top + 16 * n).
Proof.
  intros H Hn. pose proof (t_low _ _ _ H) as Hlow.
  assert (∀ c j, blk N (<[top := n]> A) c j → (c = top ∧ j = n) ∨ (c < top ∧ c + 16 * j ≤ top ∧ blk N A c j)) as Hc.
  { assert (∀ c j, blk N A c j → c < top ∧ c + 16 * j ≤ top ∧ blk N A c j) as Hold.
    { intros c j Hj. destruct (decide (c = base)) as [->|Hcb].
      - destruct Hj as [Hj|Hj]; [|by destruct (tiles_A_base _ _ _ _ _ H Hj)]. rewrite (t_base _ _ _ H) in Hj. injection Hj as <-.
        split_and!; [lia|lia|left; apply H].
      - pose proof (t_pos _ _ _ H _ _ Hj Hcb). split_and!; [lia|lia|done]. }
    intros c j [Hj|[[<- <-]|[_ Hj]]%lookup_insert_Some]; [right; apply Hold; by left|by left|right; apply Hold; by right]. }
  split.
  - apply H.
  - lia.
  - intros c j j' Hj [[<- <-]|[_ Hj']]%lookup_insert_Some; [|exfalso; by eauto using t_disj]. destruct (Hc top j (or_introl Hj)) as [[_ ->]|]; [|lia].
    destruct (decide (top = base)) as [->|Hne]; [lia|]. pose proof (t_pos _ _ _ H _ _ (or_introl Hj) Hne). lia.
  - intros c j [[-> ->]|(_ & _ & Hj)]%Hc Hcb; [lia|]. pose proof (t_pos _ _ _ H _ _ Hj Hcb). lia.
  - intros c j d j' [[-> ->]|(Hc1 & Hc2 & Hj)]%Hc [[-> ->]|(Hd1 & Hd2 & Hj')]%Hc Hlt; [lia|lia|lia|]. by eapply t_sep.
Qed.

(** ** No byte is lost *)

Lemma cover_release N A top lo a n : tiles N A top → A !! a = Some n → cover N A lo top → cover (<[a := n]> N) (delete a A) lo top.
Proof.
  intros H Ha Hc x Hx. destruct (Hc x Hx) as (b & k & Hb & Hin). exists b, k. split; [|done]. destruct (decide (b = a)) as [->|Hne].
  - left. rewrite lookup_insert_eq. f_equal. destruct Hb as [Hb|Hb]; [exfalso; by eauto using t_disj|congruence].
  - destruct Hb as [Hb|Hb]; [left; by rewrite lookup_insert_ne|right; by rewrite lookup_delete_ne].
Qed.

Lemma cover_take N A top lo a n : tiles N A top → N !! a = Some n → cover N A lo top → cover (delete a N) (<[a := n]> A) lo top.
Proof.
  intros H Ha Hc x Hx. destruct (Hc x Hx) as (b & k & Hb & Hin). exists b, k. split; [|done]. destruct (decide (b = a)) as [->|Hne].
  - right. rewrite lookup_insert_eq. f_equal. destruct Hb as [Hb|Hb]; [congruence|exfalso; by eauto using t_disj].
  - destruct Hb as [Hb|Hb]; [left; by rewrite lookup_delete_ne|right; by rewrite lookup_insert_ne].
Qed.

Lemma cover_merge N A top lo a n b k :
  tiles N A top → N !! a = Some n → N !! b = Some k → a ≠ base → b ≠ base → a + 16 * n = b →
  cover N A lo top → cover (<[a := n + k]> (delete b N)) A lo top.
Proof.
  intros H Ha Hb Hna Hnb E Hc x Hx. destruct (Hc x Hx) as (c & j & Hj & Hin).
  pose proof (t_pos _ _ _ H a n (or_introl Ha) Hna) as Pa. pose proof (t_pos _ _ _ H b k (or_introl Hb) Hnb) as Pb.
  destruct (decide (c = a ∨ c = b)) as [Hab|Hn].
  - exists a, (n + k). split; [left; by rewrite lookup_insert_eq|].
    destruct Hab as [-> | ->]; (destruct Hj as [Hj|Hj]; [|exfalso; by eauto using t_disj]).
    + rewrite Ha in Hj. injection Hj as <-. lia.
    + rewrite Hb in Hj. injection Hj as <-. lia.
  - exists c, j. split; [|done]. destruct Hj as [Hj|Hj]; [left|by right].
    apply Decidable.not_or in Hn as [Hn1 Hn2]. by rewrite lookup_insert_ne, lookup_delete_ne by done.
Qed.

Lemma cover_split N A top lo a n k :
  tiles N A top → tiles (<[a := n - k]> N) (<[a + 16 * (n - k) := k]> A) top → N !! a = Some n → 1 ≤ k < n →
  cover N A lo top → cover (<[a := n - k]> N) (<[a + 16 * (n - k) := k]> A) lo top.
Proof.
  intros H H' Ha Hk Hc x Hx. destruct (Hc x Hx) as (c & j & Hj & Hin). destruct (decide (c = a)) as [->|Hn].
  - assert (j = n) as -> by (destruct Hj as [Hj|Hj]; [congruence|exfalso; by eauto using t_disj]). destruct (decide (x < a + 16 * (n - k))).
    + exists a, (n - k). split; [left; by rewrite lookup_insert_eq|lia].
    + exists (a + 16 * (n - k)), k. split; [right; by rewrite lookup_insert_eq|lia].
  - exists c, j. split; [|done]. destruct Hj as [Hj|Hj]; [left; by rewrite lookup_insert_ne|right].
    rewrite lookup_insert_ne; [done|]. intros <-. assert (blk N A (a + 16 * (n - k)) j) as Hb by (by right).
    pose proof (t_sep _ _ _ H _ _ _ _ (or_introl Ha) Hb). lia.
Qed.

Lemma cover_more N A top lo n : tiles N A top → 1 ≤ n → cover N A lo top → cover N (<[top := n]> A) lo (top + 16 * n).
Proof.
  intros H Hn Hc x Hx. destruct (decide (x < top)) as [Hlt|Hge].
  - destruct (Hc x) as (c & j & Hj & Hin); [lia|]. exists c, j. split; [|done]. destruct Hj as [Hj|Hj]; [by left|right].
    rewrite lookup_insert_ne; [done|]. lia.
  - exists top, n. split; [right; by rewrite lookup_insert_eq|lia].
Qed.

(** * The ring

    [f] gives the next free block. *)

Definition is_next (D : gset Z) (a b : Z) : Prop :=
  b ∈ D ∧ ((a < b ∧ ∀ c, c ∈ D → c ≤ a ∨ b ≤ c) ∨ (b = base ∧ ∀ c, c ∈ D → c ≤ a)).

Definition ring (D : gset Z) (f : Z → Z) : Prop :=
  base ∈ D ∧ (∀ c, c ∈ D → base ≤ c) ∧ ∀ a, a ∈ D → is_next D a (f a).

Lemma ring_ext D f g : ring D f → (∀ a, a ∈ D → g a = f a) → ring D g.
Proof. intros (Hb & Hm & Hr) H. split_and!; [done..|]. intros a Ha. rewrite H by done. by apply Hr. Qed.

(** A new block after [p]. *)
Lemma ring_insert D f p b :
  ring D f → p ∈ D → b ∉ D → p < b → (∀ c, c ∈ D → c < b → c ≤ p) →
  ring ({[b]} ∪ D) (upd (upd f b (f p)) p b).
Proof.
  intros (Hb & Hm & Hr) Hp Hbd Hlt Hpred. split_and!; [set_solver|intros c [->%elem_of_singleton|Hc]%elem_of_union; [pose proof (Hm p Hp); lia|by apply Hm]|].
  assert (∀ c, c ∈ D → c < b ∨ b < c) as Hne by (intros c Hc; destruct (Ztrichotomy c b) as [?|[->|?]]; [by left|done|right; lia]).
  intros a Ha. destruct (decide (a = p)) as [->|Hap].
  - rewrite upd_eq. split; [set_solver|]. left. split; [done|]. intros c [->%elem_of_singleton|Hc]%elem_of_union; [by right|].
    destruct (Hne c Hc); [left; by apply Hpred|lia].
  - rewrite upd_ne by done. destruct (decide (a = b)) as [->|Hab].
    + rewrite upd_eq. destruct (Hr p Hp) as (Hin & [[H1 H2]|[H1 H2]]); (split; [set_solver|]).
      * left. split; [destruct (Hne _ Hin) as [Hl|]; [pose proof (Hpred _ Hin Hl); lia|done]|].
        intros c [->%elem_of_singleton|Hc]%elem_of_union; [by left|]. destruct (H2 c Hc); lia.
      * right. split; [done|]. intros c [->%elem_of_singleton|Hc]%elem_of_union; [done|]. pose proof (H2 c Hc). lia.
    + rewrite upd_ne by done. assert (a ∈ D) as HaD by set_solver. destruct (Hr a HaD) as (Hin & [[H1 H2]|[H1 H2]]); (split; [set_solver|]).
      * left. split; [done|]. intros c [->%elem_of_singleton|Hc]%elem_of_union; [|by apply H2].
        destruct (Hne a HaD) as [Hl|]; [|lia]. pose proof (Hpred _ HaD Hl). destruct (H2 p Hp); lia.
      * right. split; [done|]. intros c [->%elem_of_singleton|Hc]%elem_of_union; [|by apply H2]. pose proof (H2 p Hp). destruct (Hne a HaD) as [Hl|]; [|lia].
        pose proof (Hpred a HaD Hl). lia.
Qed.

(** The block after [p] goes. *)
Lemma ring_delete D f p :
  ring D f → p ∈ D → f p ≠ base → ring (D ∖ {[f p]}) (upd f p (f (f p))).
Proof.
  intros (Hb & Hm & Hr) Hp Hq. destruct (Hr p Hp) as (Hin & [[H1 H2]|[H1 _]]); [|done]. set (q := f p) in *.
  split_and!; [set_solver|intros c Hc; apply Hm; set_solver|]. destruct (Hr q Hin) as (Hrin & Hrq). intros a Ha. destruct (decide (a = p)) as [->|Hap].
  - rewrite upd_eq. assert (f q ≠ q) as Hfq by (destruct Hrq as [[? _]|[-> _]]; [lia|done]). split; [set_solver|].
    destruct Hrq as [[H3 H4]|[H3 H4]].
    + left. split; [lia|]. intros c Hc. assert (c ∈ D ∧ c ≠ q) as [HcD Hcq] by set_solver. destruct (H2 c HcD), (H4 c HcD); lia.
    + right. split; [done|]. intros c Hc. assert (c ∈ D ∧ c ≠ q) as [HcD Hcq] by set_solver. pose proof (H4 c HcD). destruct (H2 c HcD); lia.
  - rewrite upd_ne by done. assert (a ∈ D ∧ a ≠ q) as [HaD Haq] by set_solver. destruct (Hr a HaD) as (Hfa & Hfr).
    assert (f a ≠ q) as Hne. { intros E. rewrite E in Hfr. destruct Hfr as [[H3 H4]|[? _]]; [|done]. destruct (H4 p Hp), (H2 a HaD); lia. }
    split; [set_solver|]. destruct Hfr as [[H3 H4]|[H3 H4]]; [left|right]; (split; [done|]); intros c Hc; apply H4; set_solver.
Qed.

End Blocks.
