(* ===== verification/UmallocSpec.v ===== *)
(** The operations of the user allocator against its blocks and its ring. *)

From S2P Require Import Prelude.
From S2P Require Import Cstring.
From S2P Require Import Vm.
From S2P Require Import VmInv.
From S2P Require Import Umalloc.
From S2P Require Import UmallocInv.

(** * Headers in memory *)

Definition rd32 (m : bmem) (a : Z) : Z := bt m a + 256 * (bt m (a + 1) + 256 * (bt m (a + 2) + 256 * bt m (a + 3))).

Definition wr32 (m : bmem) (a v : Z) : bmem :=
  <[a + 3 := byte_of v 3]> (<[a + 2 := byte_of v 2]> (<[a + 1 := byte_of v 1]> (<[a + 0 := byte_of v 0]> m))).

Lemma wp_load_size a m (Q : Z → bmem → Prop) : mapped m a 4 → Q (rd32 m a) m → wp (load_size a) Q m.
Proof.
  intros Hm HQ. assert (∀ i, 0 ≤ i < 4 → m !! (a + i) = Some (bt m (a + i))) as H.
  { intros i Hi. unfold bt. by destruct (mapped_at m a 4 i Hm Hi) as [c ->]. }
  unfold load_size. wp_auto. replace a with (a + 0) at 1 by lia. apply (wp_load8 _ _ _ _ (H 0 ltac:(lia))).
  wp_auto. apply (wp_load8 _ _ _ _ (H 1 ltac:(lia))). wp_auto. apply (wp_load8 _ _ _ _ (H 2 ltac:(lia))).
  wp_auto. apply (wp_load8 _ _ _ _ (H 3 ltac:(lia))). wp_auto. rewrite Z.add_0_r. exact HQ.
Qed.

Lemma wp_store_size a v m (Q : unit → bmem → Prop) : mapped m a 4 → Q tt (wr32 m a v) → wp (store_size a v) Q m.
Proof.
  intros Hm HQ. unfold store_size. change (for_range 0 4 ?f) with (_ ← f 0; _ ← f 1; _ ← f 2; _ ← f 3; mret tt : prog bmem unit).
  assert (∀ i m', 0 ≤ i < 4 → mapped m' a 4 → is_Some (m' !! (a + i))) as Hat by (intros; by eapply mapped_at).
  do 4 (wp_auto; apply wp_store8; [apply Hat; [lia|done]|];
    match goal with |- context [<[a + ?i := ?b]> ?m'] =>
      assert (mapped (<[a + i := b]> m') a 4) by (apply mapped_insert; [done|apply Hat; [lia|done]]) end).
  by wp_auto.
Qed.

Lemma wr32_outside m a v b : ¬ (a ≤ b < a + 4) → wr32 m a v !! b = m !! b.
Proof. intros H. unfold wr32. by rewrite !lookup_insert_ne by lia. Qed.

Lemma wr32_inside m a v i : 0 ≤ i < 4 → wr32 m a v !! (a + i) = Some (byte_of v i).
Proof.
  intros H. unfold wr32. assert (i = 0 ∨ i = 1 ∨ i = 2 ∨ i = 3) as [->|[->|[->| ->]]] by lia;
    rewrite ?lookup_insert_ne by lia; by rewrite lookup_insert_eq.
Qed.

Lemma rd32_ext m m' a : (∀ i, 0 ≤ i < 4 → m' !! (a + i) = m !! (a + i)) → rd32 m' a = rd32 m a.
Proof.
  intros H. assert (∀ i, 0 ≤ i < 4 → bt m' (a + i) = bt m (a + i)) as E by (intros i Hi; unfold bt; by rewrite H).
  unfold rd32. rewrite !E by lia. pose proof (E 0) as E0. rewrite Z.add_0_r in E0. by rewrite E0 by lia.
Qed.

Lemma rd32_wr32 m a v : 0 ≤ v < 2 ^ 32 → rd32 (wr32 m a v) a = v.
Proof.
  intros Hv. assert (∀ i, 0 ≤ i < 4 → bt (wr32 m a v) (a + i) = byte_of v i) as E by (intros i Hi; unfold bt; by rewrite wr32_inside).
  unfold rd32. rewrite !E by lia. pose proof (E 0) as E0. rewrite Z.add_0_r in E0.
  rewrite E0 by lia. unfold byte_of. rewrite !Z.shiftr_div_pow2 by lia. simpl. Z.to_euclidean_division_equations. lia.
Qed.

Lemma same_dom_wr32 m a v : mapped m a 4 → same_dom m (wr32 m a v).
Proof.
  intros Hm b. destruct (decide (a ≤ b < a + 4)) as [Hb|Hb].
  - replace b with (a + (b - a)) by lia. rewrite wr32_inside by lia. destruct (mapped_at m a 4 (b - a) Hm ltac:(lia)) as [c ->]. by split.
  - by rewrite wr32_outside.
Qed.

Definition nx (m : bmem) (a : Z) : Z := rd64 m a.

Definition sz (m : bmem) (a : Z) : Z := rd32 m (a + 8).

(** ** Sets of headers

    [H] is a set of places of headers, [m0] a memory to compare with. *)
Section Headers.

Context (H : Z → Prop) (m0 : bmem).
Context (Hsep : ∀ a b, H a → H b → sep a b) (Hmap : ∀ a, H a → mapped m0 a 16).

(** Headers are as [f] and [g] say, and nothing else has changed. *)
Definition hview (m : bmem) (f g : Z → Z) : Prop :=
  (∀ a, H a → nx m a = f a ∧ sz m a = g a) ∧ same_dom m0 m ∧ ∀ x, (∀ a, H a → ¬ (a ≤ x < a + 16)) → m !! x = m0 !! x.

Lemma hview_mapped m f g a : hview m f g → H a → mapped m a 16.
Proof. intros (_ & Hd & _) Ha. by eapply same_dom_mapped, Hmap. Qed.

Lemma wp_get_ptr p f g (Q : Z → heap → Prop) h : hview (mem h) f g → H p → Q (f p) h → wp (get_ptr p) Q h.
Proof.
  intros Hv Hp HQ. unfold get_ptr, on_mem. apply wp_zoom, wp_load64; [eapply mapped_sub; [by eapply hview_mapped|lia..]|].
  destruct h. change (rd64 ?m ?a) with (nx m a). by rewrite (proj1 (proj1 Hv p Hp)).
Qed.

Lemma wp_get_size p f g (Q : Z → heap → Prop) h : hview (mem h) f g → H p → Q (g p) h → wp (get_size p) Q h.
Proof.
  intros Hv Hp HQ. unfold get_size, on_mem. apply wp_zoom, wp_load_size; [eapply mapped_sub; [by eapply hview_mapped|lia..]|].
  destruct h. change (rd32 ?m (?a + 8)) with (sz m a). by rewrite (proj2 (proj1 Hv p Hp)).
Qed.

Lemma wp_set_ptr p q f g (Q : unit → heap → Prop) h :
  hview (mem h) f g → H p → 0 ≤ q < 2 ^ 64 → (∀ m', hview m' (upd f p q) g → Q tt (set_mem m' h)) → wp (set_ptr p q) Q h.
Proof.
  intros Hv Hp Hq HQ. assert (mapped (mem h) p 8) as Hm by (eapply mapped_sub; [by eapply hview_mapped|lia..]).
  unfold set_ptr, on_mem. apply wp_zoom, wp_store64; [done|]. apply HQ. destruct Hv as (Hh & Hd & Hx). split_and!.
  - intros a Ha. destruct (Hh a Ha) as [H1 H2], (Hsep p a Hp Ha) as [<-|Hne].
    + rewrite upd_eq. split; [by apply rd64_wr64|]. rewrite <- H2. apply rd32_ext. intros i Hi. apply wr64_outside. lia.
    + rewrite upd_ne by lia. rewrite <- H1, <- H2. split; [apply rd64_ext|apply rd32_ext]; intros i Hi; apply wr64_outside; lia.
  - eapply same_dom_trans; [done|by apply same_dom_wr64].
  - intros x Hn. rewrite wr64_outside; [by apply Hx|]. pose proof (Hn p Hp). lia.
Qed.

Lemma wp_set_size p n f g (Q : unit → heap → Prop) h :
  hview (mem h) f g → H p → 0 ≤ n < 2 ^ 32 → (∀ m', hview m' f (upd g p n) → Q tt (set_mem m' h)) → wp (set_size p n) Q h.
Proof.
  intros Hv Hp Hq HQ. assert (mapped (mem h) (p + 8) 4) as Hm by (eapply mapped_sub; [by eapply hview_mapped|lia..]).
  unfold set_size, on_mem. apply wp_zoom, wp_store_size; [done|]. apply HQ. destruct Hv as (Hh & Hd & Hx). split_and!.
  - intros a Ha. destruct (Hh a Ha) as [H1 H2], (Hsep p a Hp Ha) as [<-|Hne].
    + rewrite upd_eq. split; [|by apply rd32_wr32]. rewrite <- H1. apply rd64_ext. intros i Hi. apply wr32_outside. lia.
    + rewrite upd_ne by lia. rewrite <- H1, <- H2. split; [apply rd64_ext|apply rd32_ext]; intros i Hi; apply wr32_outside; lia.
  - eapply same_dom_trans; [done|by apply same_dom_wr32].
  - intros x Hn. rewrite wr32_outside; [by apply Hx|]. pose proof (Hn p Hp). lia.
Qed.

End Headers.

Lemma hview_start H m : hview H m m (nx m) (sz m).
Proof. split_and!; [done|intros b; reflexivity|done]. Qed.

(** * Walking round the ring *)

Lemma set_range_size (D : gset Z) top : (∀ c, c ∈ D → 0 ≤ c < top) → (size D ≤ Z.to_nat top)%nat.
Proof.
  intros H. transitivity (size (list_to_set (seqZ 0 top) : gset Z)).
  - apply subseteq_size. intros c Hc. apply elem_of_list_to_set, elem_of_seqZ. pose proof (H c Hc). lia.
  - rewrite size_list_to_set by apply NoDup_seqZ. by rewrite length_seqZ.
Qed.

Lemma filter_less (P Q : Z → Prop) `{∀ c, Decision (P c), ∀ c, Decision (Q c)} (D : gset Z) b :
  (∀ c, c ∈ D → P c → Q c) → b ∈ D → Q b → ¬ P b → (size (filter P D) < size (filter Q D))%nat.
Proof.
  intros HPQ Hb HQ HP. apply subset_size. split; [set_solver|]. intros Hs. specialize (Hs b). set_solver.
Qed.

Lemma filter_size_le (P : Z → Prop) `{∀ c, Decision (P c)} (D : gset Z) : (size (filter P D) ≤ size D)%nat.
Proof. apply subseteq_size. set_solver. Qed.

Section Walk.

Context (base : Z) (D : gset Z) (f : Z → Z) (Hring : ring base D f).

(** How far it is from [a] to the block before the place [b]. *)
Definition way (b a : Z) : nat :=
  if decide (a < b) then size (filter (λ c, a < c < b) D)
  else S (size (filter (λ c, a < c) D) + size (filter (λ c, c < b) D)).

Lemma way_shorter b a : base < b → b ∉ D → a ∈ D → (f a < b ∧ (a < b → a < f a)) ∨ (b ≤ f a ∧ b < a) → (way b (f a) < way b a)%nat.
Proof.
  intros Hb Hn Ha Hc. destruct Hring as (H0 & Hm & Hr). destruct (Hr a Ha) as [Hin Hnext]. unfold way.
  destruct Hc as [[Hf Hlt]|[Hf Hlt]].
  - rewrite (decide_True _ _ Hf). destruct (decide (a < b)) as [Hab|Hab].
    + specialize (Hlt Hab). apply (filter_less _ _ D (f a)); [intros c _; lia|done|lia|lia].
    + apply Nat.lt_succ_r, Nat.lt_le_incl, Nat.lt_lt_add_l, (filter_less _ _ D (f a)); [intros c _; lia|done|lia|lia].
  - rewrite decide_False by lia. rewrite decide_False by lia. destruct Hnext as [[H1 _]|[E _]]; [|lia].
    apply -> Nat.succ_lt_mono. apply Nat.add_lt_mono_r, (filter_less _ _ D (f a)); [intros c _; lia|done|lia|lia].
Qed.

Lemma way_bound b a : a ∈ D → b ∉ D → (way b a ≤ size D)%nat.
Proof.
  intros Ha Hb. unfold way. destruct (decide (a < b)) as [Hlt|Hge]; [apply filter_size_le|].
  assert (size (filter (λ c, a < c)%Z D ∪ filter (λ c, c < b)%Z D) < size D)%nat as Hs.
  { apply subset_size. split; [set_solver|]. intros Hs. specialize (Hs a Ha). apply elem_of_union in Hs as [Hs|Hs]; apply elem_of_filter in Hs; lia. }
  rewrite size_union in Hs; [lia|]. intros c [H1 _]%elem_of_filter [H2 _]%elem_of_filter. lia.
Qed.

End Walk.

(** * The invariant *)

Section Heap.

Context (base : Z) (grant : nat → bool).

(** The blocks [N] and [A] in the heap, which begins at [lo]. *)
Record rep (lo : Z) (h : heap) (N A : gmap Z Z) : Prop := {
  r_tiles : tiles base N A (brk h);
  r_gaps : gaps base N;
  r_cover : cover N A lo (brk h);
  r_top : brk h ≤ PHYSTOP - KERNBASE;
  r_ring : ring base (dom N) (nx (mem h));
  r_size a n : blk N A a n → sz (mem h) a = n;
  r_map a n : blk N A a n → mapped (mem h) a (16 * Z.max 1 n);
  r_freep : freep h ∈ dom N }.

(** The contents of the blocks in use. *)
Definition kept (A : gmap Z Z) (m m' : bmem) : Prop :=
  ∀ a n x, A !! a = Some n → a + 16 ≤ x < a + 16 * n → m' !! x = m !! x.

(** The headers of the blocks. *)
Definition hdrs (N A : gmap Z Z) (a : Z) : Prop := ∃ n, blk N A a n.

Lemma hdrs_sep N A top : tiles base N A top → ∀ a b, hdrs N A a → hdrs N A b → sep a b.
Proof. intros H a b [n Ha] [k Hb]. by eapply tiles_headers. Qed.

Lemma rep_mapped lo h N A : rep lo h N A → ∀ a, hdrs N A a → mapped (mem h) a 16.
Proof. intros H a [n Ha]. eapply mapped_sub; [by eapply r_map|lia|lia]. Qed.

Lemma dom_hdrs N A a : a ∈ dom N → hdrs N A a.
Proof. intros [n Hn]%elem_of_dom. exists n. by left. Qed.

Lemma rep_dom lo h N A c : rep lo h N A → c ∈ dom N → 0 ≤ c < brk h.
Proof.
  intros H [n Hc]%elem_of_dom. pose proof (t_low _ _ _ _ (r_tiles _ _ _ _ H)).
  pose proof (tiles_low _ _ _ _ _ _ (r_tiles _ _ _ _ H) (or_introl Hc)). lia.
Qed.

Lemma wp_free_place lo h N A bp (Q : Z → heap → Prop) :
  rep lo h N A → base < bp → bp ∉ dom N →
  (∀ p, p ∈ dom N → p < bp → (∀ c, c ∈ dom N → c < bp → c ≤ p) → Q p h) →
  wp (free_place bp) Q h.
Proof.
  intros Hr Hb Hn HQ. set (D := dom N) in *. unfold free_place. wp_auto.
  pose proof (r_ring _ _ _ _ Hr) as Hring. pose proof Hring as (H0 & Hmin & Hnext).
  pose proof (set_range_size D (brk h) (λ c, rep_dom lo h N A c Hr)) as Hsize.
  pose proof (way_bound base D (nx (mem h)) Hring bp (freep h) (r_freep _ _ _ _ Hr) Hn) as Hway.
  apply (wp_loop (λ k p s, s = h ∧ p ∈ D ∧ k = way D bp p) (way D bp (freep h))); [split_and!; [done|apply Hr|done]|unfold ring_fuel; lia|].
  intros k p s (-> & Hp & ->). apply wp_bind.
  apply (wp_get_ptr (hdrs N A) (mem h) (rep_mapped _ _ _ _ Hr) p _ _ _ _ (hview_start _ _) (dom_hdrs _ _ _ Hp)).
  destruct (Hnext p Hp) as [Hin Hnx]. assert (nx (mem h) p ≠ bp) as Hne by (by intros E; rewrite E in Hin). assert (p ≠ bp) as Hpb by (by intros ->).
  assert ((nx (mem h) p < bp ∧ (p < bp → p < nx (mem h) p)) ∨ (bp ≤ nx (mem h) p ∧ bp < p) →
    ∃ n', (n' < way D bp p)%nat ∧ h = h ∧ nx (mem h) p ∈ D ∧ n' = way D bp (nx (mem h) p)) as Hgo.
  { intros Hc. exists (way D bp (nx (mem h) p)). split_and!; [by eapply way_shorter|done..]. }
  destruct (Z.ltb_spec p bp) as [H1|H1], (Z.ltb_spec bp (nx (mem h) p)) as [H2|H2], (Z.leb_spec (nx (mem h) p) p) as [H3|H3];
    cbn [andb orb]; apply wp_ret; try lia; try (apply Hgo; lia).
  - apply HQ; [done..|]. intros c Hc Hlt. destruct Hnx as [[_ H4]|[_ H4]]; [destruct (H4 c Hc); lia|by apply H4].
  - apply HQ; [done..|]. intros c Hc Hlt. destruct Hnx as [[H4 _]|[_ H4]]; [lia|by apply H4].
Qed.

(** ** Blocks and ring together

    [f] and [g] stand for the pointers and sizes in the headers. *)
Record shape (lo top : Z) (m0 : bmem) (N A : gmap Z Z) (f g : Z → Z) : Prop := {
  s_tiles : tiles base N A top;
  s_cover : cover N A lo top;
  s_ring : ring base (dom N) f;
  s_size a n : blk N A a n → g a = n;
  s_map a n : blk N A a n → mapped m0 a (16 * Z.max 1 n) }.

Lemma rep_shape lo h N A : rep lo h N A → shape lo (brk h) (mem h) N A (nx (mem h)) (sz (mem h)).
Proof. intros H. split; apply H. Qed.

Lemma mapped_app m a n k : mapped m a (16 * n) → mapped m (a + 16 * n) (16 * k) → 0 ≤ n → 0 ≤ k → mapped m a (16 * (n + k)).
Proof.
  intros (H1 & H2 & H3) (_ & H5 & H6) Hn Hk. split_and!; [lia|lia|]. intros i Hi. destruct (decide (i < 16 * n)); [apply H3; lia|].
  replace (a + i) with (a + 16 * n + (i - 16 * n)) by lia. apply H6. lia.
Qed.

Lemma shape_release lo top m0 N A f g b n p :
  shape lo top m0 N A f g → A !! b = Some n → p ∈ dom N → p < b → (∀ c, c ∈ dom N → c < b → c ≤ p) →
  shape lo top m0 (<[b := n]> N) (delete b A) (upd (upd f b (f p)) p b) g.
Proof.
  intros [Ht Hc Hr Hs Hm] Hb Hp Hlt Hpred.
  assert (∀ c j, blk (<[b := n]> N) (delete b A) c j → blk N A c j) as Hblk.
  { intros c j [[[<- <-]|[_ Hj]]%lookup_insert_Some|[_ Hj]%lookup_delete_Some]; [by right|by left|by right]. }
  split; [by apply tiles_release|by apply (cover_release base)| |by auto|by auto].
  rewrite dom_insert_L. apply ring_insert; try done. intros [k Hk]%elem_of_dom. by eauto using t_disj.
Qed.

Lemma shape_merge lo top m0 N A f g a n b k :
  shape lo top m0 N A f g → N !! a = Some n → N !! b = Some k → f a = b → a ≠ base → b ≠ base → a + 16 * n = b →
  shape lo top m0 (<[a := n + k]> (delete b N)) A (upd f a (f b)) (upd g a (n + k)).
Proof.
  intros [Ht Hc Hr Hs Hm] Ha Hb Hf Hna Hnb E.
  pose proof (t_pos _ _ _ _ Ht a n (or_introl Ha) Hna) as Pa. pose proof (t_pos _ _ _ _ Ht b k (or_introl Hb) Hnb) as Pb.
  assert (∀ c j, blk (<[a := n + k]> (delete b N)) A c j → (c = a ∧ j = n + k) ∨ (c ≠ a ∧ blk N A c j)) as Hblk.
  { intros c j [[[<- <-]|[Hn1 [_ Hj]%lookup_delete_Some]]%lookup_insert_Some|Hj]; [by left|right; split; [done|by left]|].
    right. split; [|by right]. intros ->. by eauto using t_disj. }
  split; [by apply tiles_merge|by apply (cover_merge base)| | |].
  - replace (dom (<[a := n + k]> (delete b N))) with (dom N ∖ {[f a]}); [|rewrite Hf, dom_insert_L, dom_delete_L].
    + rewrite <- Hf. apply ring_delete; [done|by apply elem_of_dom_2 in Ha|by rewrite Hf].
    + assert (a ∈ dom N) by (by apply elem_of_dom_2 in Ha). assert (a ≠ b) by lia. apply set_eq. intros c.
      rewrite elem_of_union, elem_of_difference, !elem_of_singleton. split; [tauto|]. intros [->|]; [by split|done].
  - intros c j [[-> ->]|[Hne Hj]]%Hblk; [by rewrite upd_eq|rewrite upd_ne by done; by apply Hs].
  - intros c j [[-> ->]|[Hne Hj]]%Hblk; [|by apply Hm]. rewrite Z.max_r by lia. apply mapped_app; [| |lia..].
    + pose proof (Hm a n (or_introl Ha)) as H. by rewrite Z.max_r in H by lia.
    + pose proof (Hm b k (or_introl Hb)) as H. rewrite Z.max_r in H by lia. by rewrite E.
Qed.

(** What the operations leave behind in memory. *)
Lemma shape_rep lo h h' N A N' A' f g :
  shape lo (brk h') (mem h) N' A' f g → gaps base N' → brk h' ≤ PHYSTOP - KERNBASE → freep h' ∈ dom N' →
  (∀ a, hdrs N' A' a → hdrs N A a) →
  hview (hdrs N A) (mem h) (mem h') f g → rep lo h' N' A'.
Proof.
  intros [Ht Hc Hr Hs Hm] Hg Htop Hf Hh (Hv & Hd & _). split; [done..| | | |done].
  - eapply ring_ext; [done|]. intros a Ha. apply Hv, Hh. by apply dom_hdrs.
  - intros a n Ha. rewrite <- (Hs a n Ha). apply Hv, Hh. by exists n.
  - intros a n Ha. eapply same_dom_mapped; [done|by apply Hm].
Qed.

Lemma hview_kept top N A A' m m' f g :
  tiles base N A top → A' ⊆ A → hview (hdrs N A) m m' f g → kept A' m m'.
Proof.
  intros Ht Hsub (_ & _ & Hx) a n x Ha Hin. apply Hx. intros c [k Hc]. eapply tiles_payload; [done|done| |exact Hin]. by eapply lookup_weaken.
Qed.

(** ** Gaps *)

(** All free blocks but those in [X] end before the next one. *)
Definition gapx (X : Z → Prop) (N : gmap Z Z) : Prop := ∀ a n, N !! a = Some n → a ≠ base → X a ∨ N !! (a + 16 * n) = None.

Lemma gaps_gapx N : gaps base N ↔ gapx (λ _, False) N.
Proof. split; intros H a n Ha Hne; [right; by eapply H|by destruct (H a n Ha Hne)]. Qed.

Lemma gapx_merge X N A top a n b k :
  tiles base N A top → gapx (λ c, c = a ∨ X c) N → N !! a = Some n → N !! b = Some k → a ≠ base → b ≠ base → a + 16 * n = b → ¬ X b →
  gapx X (<[a := n + k]> (delete b N)).
Proof.
  intros Ht Hg Ha Hb Hna Hnb E HX c j Hc Hcb.
  pose proof (t_pos _ _ _ _ Ht a n (or_introl Ha) Hna) as Pa. pose proof (t_pos _ _ _ _ Ht b k (or_introl Hb) Hnb) as Pb.
  assert (∀ y, y ≠ a → N !! y = None → <[a := n + k]> (delete b N) !! y = None) as Hno.
  { intros y Hy HN. rewrite lookup_insert_ne by done. destruct (decide (y = b)) as [->|]; [by rewrite lookup_delete_eq|by rewrite lookup_delete_ne]. }
  apply lookup_insert_Some in Hc as [[<- <-]|[Hca [Hcb' Hc]%lookup_delete_Some]].
  - right. destruct (Hg b k Hb Hnb) as [[?|?]|HN]; [lia|done|]. apply Hno; [lia|]. by replace (a + 16 * (n + k)) with (b + 16 * k) by lia.
  - destruct (Hg c j Hc Hcb) as [[?|?]|HN]; [lia|by left|]. right. destruct (decide (c + 16 * j = a)) as [E'|]; [congruence|by apply Hno].
Qed.

Lemma gapx_drop X N a n : gapx (λ c, c = a ∨ X c) N → N !! a = Some n → (a ≠ base → N !! (a + 16 * n) = None) → gapx X N.
Proof.
  intros Hg Ha HN c j Hc Hcb. destruct (Hg c j Hc Hcb) as [[->|?]|?]; [|by left|by right]. right. rewrite Ha in Hc. injection Hc as <-. auto.
Qed.

Lemma gapx_release N A top b n p k :
  tiles base N A top → gaps base N → A !! b = Some n → N !! p = Some k → p < b → (∀ c, c ∈ dom N → c < b → c ≤ p) →
  gapx (λ c, c = b ∨ c = p) (<[b := n]> N).
Proof.
  intros Ht Hg Hb Hp Hlt Hpred c j Hc Hcb. apply lookup_insert_Some in Hc as [[<- <-]|[Hne Hc]]; [left; by left|].
  destruct (decide (c = p)) as [->|Hcp]; [left; by right|]. right. pose proof (Hg c j Hc Hcb) as HN. rewrite lookup_insert_ne; [done|]. intros E.
  pose proof (t_pos _ _ _ _ Ht c j (or_introl Hc) Hcb) as Pc. assert (c ≤ p) as Hle by (apply Hpred; [by apply elem_of_dom_2 in Hc|lia]).
  assert (c < p) as Hcl by lia. pose proof (t_sep _ _ _ _ Ht _ _ _ _ (or_introl Hc) (or_introl Hp) Hcl). lia.
Qed.

Lemma shape_ext lo top m0 N A f f' g : shape lo top m0 N A f g → (∀ a, a ∈ dom N → f' a = f a) → shape lo top m0 N A f' g.
Proof. intros [Ht Hc Hr Hs Hm] H. split; [done..| |done|done]. by eapply ring_ext. Qed.

Lemma shape_dom lo top m0 N A f g c : shape lo top m0 N A f g → c ∈ dom N → 0 < c < top ∧ 0 < f c < top.
Proof.
  intros H Hc. assert (∀ a, a ∈ dom N → 0 < a < top) as Hin.
  { intros a [n Ha]%elem_of_dom. pose proof (t_low _ _ _ _ (s_tiles _ _ _ _ _ _ _ H)).
    pose proof (tiles_low _ _ _ _ _ _ (s_tiles _ _ _ _ _ _ _ H) (or_introl Ha)). lia. }
  split; apply Hin; [done|]. by apply (s_ring _ _ _ _ _ _ _ H).
Qed.

Lemma shape_units lo top m0 N A f g a n : shape lo top m0 N A f g → top ≤ PHYSTOP - KERNBASE → blk N A a n → units a n = a + 16 * n ∧ 0 ≤ n < 2 ^ 27.
Proof.
  intros H Htop Ha. pose proof (t_low _ _ _ _ (s_tiles _ _ _ _ _ _ _ H)) as Hl. change (PHYSTOP - KERNBASE) with (2 ^ 27) in Htop.
  unfold units, HEADER. destruct (decide (a = base)) as [->|Hne].
  - assert (n = 0) as ->. { destruct Ha as [Ha|Ha]; [rewrite (t_base _ _ _ _ (s_tiles _ _ _ _ _ _ _ H)) in Ha; congruence|].
      by destruct (tiles_A_base _ _ _ _ _ _ (s_tiles _ _ _ _ _ _ _ H) Ha). }
    rewrite u64_small by lia. lia.
  - pose proof (t_pos _ _ _ _ (s_tiles _ _ _ _ _ _ _ H) _ _ Ha Hne). rewrite u64_small by lia. lia.
Qed.

(** ** Freeing *)

Section Free.

Context (lo : Z) (h : heap) (N A : gmap Z Z) (Hrep : rep lo h N A) (b n p k : Z).
Context (Hb : A !! b = Some n) (Hp : N !! p = Some k) (Hlt : p < b) (Hpred : ∀ c, c ∈ dom N → c < b → c ≤ p).

Let H := hdrs N A.

Let Hsep := hdrs_sep N A _ (r_tiles _ _ _ _ Hrep).

Let Hmap := rep_mapped _ _ _ _ Hrep.

(** [b] has been joined with the block after it, and the pointer of [p] is not
    yet set. *)
Record joined (m : bmem) (N1 : gmap Z Z) (f g : Z → Z) (n1 : Z) : Prop := {
  j_view : hview H (mem h) m f g;
  j_shape : shape lo (brk h) (mem h) N1 (delete b A) (upd f p b) g;
  j_gap : gapx (λ c, c = p) N1;
  j_hdrs a : hdrs N1 (delete b A) a → H a;
  j_b : N1 !! b = Some n1 ∧ n ≤ n1;
  j_p : N1 !! p = Some k;
  j_dom c : c ∈ dom N1 → c ≤ p ∨ b ≤ c;
  j_num : (size N1 ≤ S (size N))%nat }.

Lemma wp_join_prev m N1 f g n1 (Q : unit → heap → Prop) :
  joined m N1 f g n1 →
  (∀ h' N', rep lo h' N' (delete b A) → brk h' = brk h → asked h' = asked h → kept (delete b A) (mem h) (mem h') →
     (size N' ≤ S (size N))%nat → (∃ c j, N' !! c = Some j ∧ n ≤ j) → Q tt h') →
  wp (k ← get_size p;
      _ ← (if units p k =? b then
             n ← get_size b;
             _ ← set_size p (u32 (k + n));
             q ← get_ptr b;
             set_ptr p q
           else set_ptr p b);
      modify (set_freep p)) Q (set_mem m h).
Proof.
  intros [Hv Hs Hg Hh [Hb1 Hn1] Hp1 Hd Hnum] HQ. assert (H p ∧ H b) as [HHp HHb] by (split; [exists k; by left|exists n; by right]).
  pose proof (r_top _ _ _ _ Hrep) as Htop. pose proof (shape_units _ _ _ _ _ _ _ _ _ Hs Htop (or_introl Hp1)) as [Hu Hk].
  pose proof (shape_units _ _ _ _ _ _ _ _ _ Hs Htop (or_introl Hb1)) as [_ Hn1r].
  assert (p ∈ dom N1 ∧ b ∈ dom N1) as [Hpd Hbd] by (split; by eapply elem_of_dom_2).
  pose proof (proj1 (shape_dom _ _ _ _ _ _ _ _ Hs Hbd)) as Hbr. pose proof (proj2 (shape_dom _ _ _ _ _ _ _ _ Hs Hbd)) as Hfb.
  rewrite upd_ne in Hfb by lia. change (PHYSTOP - KERNBASE) with (2 ^ 27) in Htop.
  assert (g p = k ∧ g b = n1) as [Hgp Hgb] by (split; apply (s_size _ _ _ _ _ _ _ Hs); by left).
  apply wp_bind, (wp_get_size H (mem h) Hmap p f g); [done..|]. rewrite Hgp, Hu. destruct (Z.eqb_spec (p + 16 * k) b) as [E|E].
  - assert (p ≠ base) as Hpb. { intros ->. rewrite (t_base _ _ _ _ (s_tiles _ _ _ _ _ _ _ Hs)) in Hp1. injection Hp1 as <-. lia. }
    assert (b ≠ base) as Hbb by (pose proof (t_pos _ _ _ _ (s_tiles _ _ _ _ _ _ _ Hs) _ _ (or_introl Hp1) Hpb); lia).
    apply wp_bind. apply wp_bind, (wp_get_size H (mem h) Hmap b f g); [done..|]. rewrite Hgb.
    apply wp_bind, (wp_set_size H (mem h) Hsep Hmap p _ f g); [done..|rewrite u32_small by lia; lia|]. intros m1 Hv1. rewrite u32_small in Hv1 by lia.
    apply wp_bind. eapply (wp_get_ptr H (mem h) Hmap b); [exact Hv1|exact HHb|].
    eapply (wp_set_ptr H (mem h) Hsep Hmap p); [exact Hv1|exact HHp|lia|]. intros m2 Hv2. apply wp_modify.
    pose proof (shape_merge _ _ _ _ _ _ _ _ _ _ _ Hs Hp1 Hb1 (upd_eq _ _ _) Hpb Hbb E) as Hs2. rewrite upd_ne in Hs2 by lia.
    apply (HQ _ (<[p := k + n1]> (delete b N1))); [|done|done| | |].
    + eapply (shape_rep _ h); [eapply shape_ext; [exact Hs2|]| |exact (r_top _ _ _ _ Hrep)|rewrite dom_insert_L; set_solver| |exact Hv2].
      * intros a _. upd_cases.
      * apply gaps_gapx, (gapx_merge _ N1 (delete b A) (brk h) p k b n1); [apply Hs| |done|done|done|done|done|tauto]. intros c j Hc Hcb. destruct (Hg c j Hc Hcb); [left; by left|by right].
      * intros a [j [[[<- _]|[_ [_ Hj]%lookup_delete_Some]]%lookup_insert_Some|Hj]]; [done|apply Hh; exists j; by left|apply Hh; exists j; by right].
    + eapply hview_kept; [apply Hrep|apply delete_subseteq|exact Hv2].
    + etransitivity; [|exact Hnum]. rewrite map_size_insert_Some by (exists k; by rewrite lookup_delete_ne by lia). rewrite map_size_delete_Some by (by exists n1). lia.
    + exists p, (k + n1). split; [by rewrite lookup_insert_eq|lia].
  - apply wp_bind. eapply (wp_set_ptr H (mem h) Hsep Hmap p); [exact Hv|exact HHp|lia|]. intros m2 Hv2. apply wp_modify.
    apply (HQ _ N1); [|done|done| |done|by exists b, n1].
    + eapply (shape_rep _ h); [exact Hs| |exact (r_top _ _ _ _ Hrep)|done|done|exact Hv2]. apply gaps_gapx. eapply (gapx_drop _ _ p k); [|done|].
      * intros c j Hc Hcb. destruct (Hg c j Hc Hcb); [left; by left|by right].
      * intros Hpb. destruct (N1 !! (p + 16 * k)) as [j|] eqn:Ej; [|done]. exfalso.
        pose proof (t_pos _ _ _ _ (s_tiles _ _ _ _ _ _ _ Hs) _ _ (or_introl Hp1) Hpb).
        pose proof (t_sep _ _ _ _ (s_tiles _ _ _ _ _ _ _ Hs) _ _ _ _ (or_introl Hp1) (or_introl Hb1) Hlt).
        destruct (Hd (p + 16 * k)); [by eapply elem_of_dom_2|lia|lia].
    + eapply hview_kept; [apply Hrep|apply delete_subseteq|exact Hv2].
Qed.

(** The state before anything has been joined, with the pointer of [b] set. *)
Lemma free_shape : shape lo (brk h) (mem h) (<[b := n]> N) (delete b A) (upd (upd (nx (mem h)) b (nx (mem h) p)) p b) (sz (mem h)).
Proof. apply shape_release; [by apply rep_shape|done|by eapply elem_of_dom_2|done|done]. Qed.

Lemma free_dom c : c ∈ dom (<[b := n]> N) → c ≤ p ∨ b ≤ c.
Proof. rewrite dom_insert_L. intros [->%elem_of_singleton|Hc]%elem_of_union; [by right|]. destruct (Z.lt_ge_cases c b); [left; by apply Hpred|by right]. Qed.

Lemma free_hdrs a : hdrs (<[b := n]> N) (delete b A) a → H a.
Proof. intros [j [[[<- _]|[_ Hj]]%lookup_insert_Some|[_ Hj]%lookup_delete_Some]]; [exists n; by right|exists j; by left|exists j; by right]. Qed.

Lemma free_gapx : gapx (λ c, c = b ∨ c = p) (<[b := n]> N).
Proof. eapply gapx_release; [apply Hrep|apply Hrep|done..]. Qed.

Lemma free_num : (size (<[b := n]> N) ≤ S (size N))%nat.
Proof. destruct (N !! b) eqn:E; [rewrite map_size_insert_Some by done; lia|by rewrite map_size_insert_None]. Qed.

Lemma wp_join_next (Q : unit → heap → Prop) :
  (∀ m N1 f g n1, joined m N1 f g n1 → Q tt (set_mem m h)) →
  wp (if units b n =? nx (mem h) p then
        m ← get_size (nx (mem h) p);
        _ ← set_size b (u32 (n + m));
        next ← get_ptr p;
        q ← get_ptr next;
        set_ptr b q
      else set_ptr b (nx (mem h) p)) Q h.
Proof.
  intros HQ. pose proof free_shape as Hs. pose proof (hview_start H (mem h)) as Hv. assert (H p ∧ H b) as [HHp HHb] by (split; [exists k; by left|exists n; by right]).
  assert (p ∈ dom N) as Hpd by (by eapply elem_of_dom_2). pose proof (r_top _ _ _ _ Hrep) as Htop.
  assert (<[b := n]> N !! b = Some n) as Hb1 by apply lookup_insert_eq. assert (b ∈ dom (<[b := n]> N)) as Hbd by (by eapply elem_of_dom_2).
  pose proof (shape_units _ _ _ _ _ _ _ _ _ Hs Htop (or_introl Hb1)) as [Hu Hn].
  assert (base < b) as Hbb. { pose proof (tiles_low _ _ _ _ _ _ (r_tiles _ _ _ _ Hrep) (or_introl Hp)). lia. }
  set (f := nx (mem h)) in *. set (q := f p) in *. destruct (r_ring _ _ _ _ Hrep) as (_ & _ & Hnext). destruct (Hnext p Hpd) as [Hq Hnx]. fold f q in Hq, Hnx.
  pose proof (proj1 (shape_dom _ _ _ _ _ _ _ q (rep_shape _ _ _ _ Hrep) Hq)) as Hqr. pose proof (proj2 (shape_dom _ _ _ _ _ _ _ q (rep_shape _ _ _ _ Hrep) Hq)) as Hfq.
  fold f in Hfq. assert (b ≠ q) as Hbq. { intros <-. apply elem_of_dom in Hq as [j Hj]. eauto using t_disj, r_tiles. }
  pose proof Htop as Htop2. change (PHYSTOP - KERNBASE) with (2 ^ 27) in Htop2. rewrite Hu. destruct (Z.eqb_spec (b + 16 * n) q) as [E|E].
  - apply elem_of_dom in Hq as [j Hj]. assert (<[b := n]> N !! q = Some j) as Hj1 by (by rewrite lookup_insert_ne).
    pose proof (shape_units _ _ _ _ _ _ _ _ _ Hs Htop (or_introl Hj1)) as [_ Hjr].
    assert (H q) as HHq by (exists j; by left). assert (q ≠ base) as Hqb by lia. assert (b < q) as Hbq2 by lia.
    apply wp_bind. eapply (wp_get_size H (mem h) Hmap q); [exact Hv|exact HHq|]. rewrite (r_size _ _ _ _ Hrep q j) by (by left).
    apply wp_bind. eapply (wp_set_size H (mem h) Hsep Hmap b); [exact Hv|exact HHb|rewrite u32_small by lia; lia|]. intros m1 Hv1. rewrite u32_small in Hv1 by lia.
    apply wp_bind. eapply (wp_get_ptr H (mem h) Hmap p); [exact Hv1|exact HHp|]. fold f q.
    apply wp_bind. eapply (wp_get_ptr H (mem h) Hmap q); [exact Hv1|exact HHq|]. fold f.
    eapply (wp_set_ptr H (mem h) Hsep Hmap b); [exact Hv1|exact HHb|lia|]. intros m2 Hv2. fold f in Hv2.
    change (set_mem m2 (set_mem m1 h)) with (set_mem m2 h). eapply (HQ m2 (<[b := n + j]> (delete q (<[b := n]> N))) _ _ (n + j)).
    assert (upd (upd f b q) p b b = q) as Hfb by (rewrite upd_ne by lia; apply upd_eq).
    pose proof (shape_merge _ _ _ _ _ _ _ _ _ _ _ Hs Hb1 Hj1 Hfb ltac:(lia) Hqb E) as Hs2. split.
    + exact Hv2.
    + eapply shape_ext; [exact Hs2|]. intros a _. rewrite (upd_ne (upd f b q) p q) by lia. rewrite (upd_ne f b q) by lia. upd_cases.
    + apply (gapx_merge _ _ (delete b A) (brk h) b n q j); [apply Hs|apply free_gapx|done|done|lia|done|done|lia].
    + intros a [i [[[<- _]|[_ [_ Hi]%lookup_delete_Some]]%lookup_insert_Some|Hi]]; apply free_hdrs; [exists n; by left|exists i; by left|exists i; by right].
    + split; [apply lookup_insert_eq|lia].
    + rewrite lookup_insert_ne, lookup_delete_ne, lookup_insert_ne by lia. done.
    + intros c Hc. apply free_dom. rewrite dom_insert_L, dom_delete_L in Hc. set_solver.
    + etransitivity; [|apply free_num]. rewrite map_size_insert_Some by (exists n; by rewrite lookup_delete_ne). rewrite map_size_delete_Some by (by exists j). lia.
  - eapply (wp_set_ptr H (mem h) Hsep Hmap b); [exact Hv|exact HHb|lia|]. intros m2 Hv2. eapply (HQ m2 (<[b := n]> N) _ _ n). split.
    + exact Hv2.
    + exact Hs.
    + apply (gapx_drop _ _ b n); [apply free_gapx|done|]. intros _. rewrite lookup_insert_ne by (pose proof (t_pos _ _ _ _ (s_tiles _ _ _ _ _ _ _ Hs) _ _ (or_introl Hb1)); lia).
      destruct (N !! (b + 16 * n)) as [j|] eqn:Ej; [|done]. exfalso. assert (b + 16 * n ∈ dom N) as Hd by (by eapply elem_of_dom_2).
      pose proof (t_pos _ _ _ _ (s_tiles _ _ _ _ _ _ _ Hs) _ _ (or_introl Hb1) ltac:(lia)).
      destruct Hnx as [[H1 H2]|[H1 H2]]; [|pose proof (H2 _ Hd); lia]. destruct (H2 _ Hd) as [|Hle]; [lia|].
      assert (b < q) as Hbq2. { destruct (Z.lt_ge_cases q b) as [Hl|]; [pose proof (Hpred q Hq Hl); lia|lia]. }
      apply elem_of_dom in Hq as [i Hi]. assert (blk (<[b := n]> N) (delete b A) q i) as Hbi by (left; by rewrite lookup_insert_ne).
      pose proof (t_sep _ _ _ _ (s_tiles _ _ _ _ _ _ _ Hs) _ _ _ _ (or_introl Hb1) Hbi Hbq2). lia.
    + apply free_hdrs.
    + done.
    + by rewrite lookup_insert_ne by lia.
    + apply free_dom.
    + apply free_num.
Qed.

End Free.

Lemma wp_ufree lo h N A b n (Q : unit → heap → Prop) :
  rep lo h N A → A !! b = Some n →
  (∀ h' N', rep lo h' N' (delete b A) → brk h' = brk h → asked h' = asked h → kept (delete b A) (mem h) (mem h') →
     (size N' ≤ S (size N))%nat → (∃ c j, N' !! c = Some j ∧ n ≤ j) → Q tt h') →
  wp (ufree (b + 16)) Q h.
Proof.
  intros Hrep Hb HQ. pose proof (tiles_low _ _ _ _ _ _ (r_tiles _ _ _ _ Hrep) (or_intror Hb)) as Hlow.
  pose proof (tiles_A_base _ _ _ _ _ _ (r_tiles _ _ _ _ Hrep) Hb) as Hne. pose proof (r_top _ _ _ _ Hrep) as Htop. change (PHYSTOP - KERNBASE) with (2 ^ 27) in Htop.
  pose proof (t_low _ _ _ _ (r_tiles _ _ _ _ Hrep)) as Hl0. pose proof (hview_start (hdrs N A) (mem h)) as Hv. pose proof (rep_mapped _ _ _ _ Hrep) as Hmap.
  assert (b ∉ dom N) as Hbd by (intros [j Hj]%elem_of_dom; eauto using t_disj, r_tiles).
  unfold ufree. unfold HEADER. rewrite u64_small by lia. replace (b + 16 - 16) with b by lia.
  apply wp_bind. eapply wp_free_place; [exact Hrep|lia|exact Hbd|]. intros p Hp Hlt Hpred. pose proof Hp as [k Hk]%elem_of_dom.
  apply wp_bind. eapply (wp_get_size _ _ Hmap b); [exact Hv|exists n; by right|]. rewrite (r_size _ _ _ _ Hrep b n) by (by right).
  apply wp_bind. eapply (wp_get_ptr _ _ Hmap p); [exact Hv|by apply dom_hdrs|].
  apply wp_bind. eapply (wp_join_next lo h N A Hrep b n p k); [done..|]. intros m N1 f g n1 Hj.
  eapply (wp_join_prev lo h N A Hrep b n p k); [done..|exact HQ].
Qed.

End Heap.
