(* ===== verification/UmallocProps.v ===== *)
(** [malloc] and [free] of the user library: the blocks a program holds are
    separate arrays of bytes, and no memory is lost. *)

From S2P Require Import Prelude.
From S2P Require Import Cstring.
From S2P Require Import Vm.
From S2P Require Import VmInv.
From S2P Require Import Umalloc.
From S2P Require Import UmallocInv.
From S2P Require Import UmallocSpec.

(** * More memory *)

Lemma fresh_lookup n a m x : fresh n a m !! x = if decide (a ≤ x < a + Z.of_nat n) then Some 0 else m !! x.
Proof.
  revert a. induction n as [|n IH]; intros a; cbn [fresh]; [by rewrite decide_False by lia|].
  destruct (decide (x = a)) as [->|Hne]; [rewrite lookup_insert_eq, decide_True by lia; done|]. rewrite lookup_insert_ne, IH by done.
  destruct (decide (a + 1 ≤ x < a + 1 + Z.of_nat n)); [by rewrite decide_True by lia|by rewrite decide_False by lia].
Qed.

Section Heap.

Context (base : Z) (grant : nat → bool).

(** The kernel has no memory for a block of [nu] units. *)
Definition refused (h : heap) (nu : Z) : Prop := PHYSTOP - KERNBASE < brk h + 16 * Z.max 4096 nu ∨ grant (asked h) = false.

Lemma wp_sbrk n h (Q : Z → heap → Prop) :
  0 < n → 0 ≤ brk h →
  ((PHYSTOP - KERNBASE < brk h + n ∨ grant (asked h) = false) → Q SBRK_ERROR (Heap (mem h) (brk h) (freep h) (S (asked h)))) →
  (brk h + n ≤ PHYSTOP - KERNBASE → Q (brk h) (Heap (fresh (Z.to_nat n) (brk h) (mem h)) (brk h + n) (freep h) (S (asked h)))) →
  wp (sbrk grant n) Q h.
Proof.
  intros Hn Hb Hfail Hok. unfold sbrk. wp_auto. rewrite (proj2 (Z.ltb_lt 0 n) Hn). wp_auto. destruct (Z.ltb_spec TRAPFRAME (brk h + n)) as [Ht|Ht].
  - wp_auto. apply Hfail. left. change TRAPFRAME with 274877898752 in Ht. change (PHYSTOP - KERNBASE) with 134217728. lia.
  - destruct (Z.leb_spec (brk h + n) (PHYSTOP - KERNBASE)) as [Hl|Hl]; cbn [andb]; [|wp_auto; apply Hfail; by left].
    destruct (grant (asked h)) eqn:Eg; wp_auto; [by apply Hok|apply Hfail; by right].
Qed.

(** The heap with new memory, which is a block in use. *)
Lemma rep_more lo h N A nu m2 :
  rep base lo h N A → 1 ≤ nu → brk h + 16 * nu ≤ PHYSTOP - KERNBASE →
  let m1 := fresh (Z.to_nat (16 * nu)) (brk h) (mem h) in
  hview (hdrs N (<[brk h := nu]> A)) m1 m2 (nx m1) (upd (sz m1) (brk h) nu) →
  rep base lo (Heap m2 (brk h + 16 * nu) (freep h) (S (asked h))) N (<[brk h := nu]> A) ∧ kept A (mem h) m2.
Proof.
  intros Hr Hnu Htop m1 Hv. pose proof (r_tiles _ _ _ _ _ Hr) as Ht. pose proof (tiles_more _ _ _ _ nu Ht Hnu) as Ht'. pose proof (t_low _ _ _ _ Ht) as Hlow.
  assert (∀ x, x < brk h → m1 !! x = mem h !! x) as Hold by (intros x Hx; unfold m1; rewrite fresh_lookup, decide_False by lia; done).
  assert (∀ a n, blk N A a n → nx m1 a = nx (mem h) a ∧ sz m1 a = sz (mem h) a ∧ a ≠ brk h) as Hhd.
  { intros a n Ha. pose proof (tiles_low _ _ _ _ _ _ Ht Ha). split_and!; [apply rd64_ext|apply rd32_ext|lia]; intros i Hi; apply Hold; lia. }
  assert (∀ a n, blk N (<[brk h := nu]> A) a n → (a = brk h ∧ n = nu) ∨ blk N A a n) as Hblk.
  { intros a n [Ha|[[<- <-]|[_ Ha]]%lookup_insert_Some]; [right; by left|by left|right; by right]. }
  destruct Hv as (Hh & Hd & Hx). split; [split; cbn [mem brk freep]|].
  - done.
  - apply Hr.
  - by apply (cover_more base), Hr.
  - done.
  - eapply ring_ext; [apply Hr|]. intros a Ha. rewrite (proj1 (Hh a (dom_hdrs _ _ _ Ha))). apply elem_of_dom in Ha as [n Ha]. by apply (Hhd a n); left.
  - intros a n Ha. rewrite (proj2 (Hh a (ex_intro _ n Ha))). apply Hblk in Ha as [[-> ->]|Ha]; [apply upd_eq|].
    destruct (Hhd a n Ha) as (_ & E & Hne). rewrite upd_ne, E by done. by apply Hr.
  - intros a n Ha. eapply same_dom_mapped; [exact Hd|]. change (PHYSTOP - KERNBASE) with (2 ^ 27) in Htop. apply Hblk in Ha as [[-> ->]|Ha].
    + split_and!; [lia|lia|]. intros i Hi. unfold m1. rewrite fresh_lookup, decide_True by lia. done.
    + destruct (r_map _ _ _ _ _ Hr a n Ha) as (H1 & H2 & H3). split_and!; [done..|]. intros i Hi. unfold m1. rewrite fresh_lookup. case_decide; [done|by apply H3].
  - apply Hr.
  - intros a n x Ha Hin. pose proof (t_pos _ _ _ _ Ht a n (or_intror Ha) (tiles_A_base _ _ _ _ _ _ Ht Ha)) as Hpos. rewrite Hx; [apply Hold; lia|].
    intros c [k Hc]. eapply tiles_payload; [exact Ht'|exact Hc| |exact Hin]. rewrite lookup_insert_ne by lia. exact Ha.
Qed.

Lemma wp_morecore lo h N A nu (Q : Z → heap → Prop) :
  rep base lo h N A → 1 ≤ nu → 16 * nu < 2 ^ 31 →
  (refused h nu → Q 0 (Heap (mem h) (brk h) (freep h) (S (asked h)))) →
  (∀ h' N', rep base lo h' N' A → kept A (mem h) (mem h') → (size N' ≤ S (size N))%nat → (∃ c j, N' !! c = Some j ∧ nu ≤ j) →
     brk h ≤ brk h' → Q (freep h') h') →
  wp (morecore grant nu) Q h.
Proof.
  intros Hr Hnu Hsmall Hfail Hok. pose proof (t_low _ _ _ _ (r_tiles _ _ _ _ _ Hr)) as Hlow. pose proof (r_top _ _ _ _ _ Hr) as Htop.
  unfold morecore. cbv zeta. replace (if nu <? 4096 then 4096 else nu) with (Z.max 4096 nu) by (destruct (Z.ltb_spec nu 4096); lia).
  unfold HEADER. rewrite s32_small by lia. apply wp_bind, wp_sbrk; [lia|lia| |].
  - intros Hx. rewrite Z.eqb_refl. apply wp_ret, Hfail. unfold refused. by replace (16 * Z.max 4096 nu) with (Z.max 4096 nu * 16) by lia.
  - replace (Z.max 4096 nu * 16) with (16 * Z.max 4096 nu) by lia. set (n := Z.max 4096 nu) in *. intros Hroom.
    pose proof Hroom as Hroom2. change (PHYSTOP - KERNBASE) with (2 ^ 27) in Hroom2. rewrite (proj2 (Z.eqb_neq _ _)) by (change SBRK_ERROR with (2 ^ 64 - 1); lia).
    pose proof (tiles_more _ _ _ _ n (r_tiles _ _ _ _ _ Hr) ltac:(lia)) as Ht. set (A1 := <[brk h := n]> A) in *. set (m1 := fresh _ _ _).
    apply wp_bind. eapply (wp_set_size (hdrs N A1) m1 (hdrs_sep base _ _ _ Ht)); [|apply hview_start|exists n; right; apply lookup_insert_eq|cbn; lia|].
    { intros a [k Ha]. pose proof (tiles_low _ _ _ _ _ _ Ht Ha).
      destruct (decide (a = brk h)) as [->|Hne].
      - split_and!; [lia|lia|]. intros i Hi. unfold m1. rewrite fresh_lookup, decide_True by lia. done.
      - assert (blk N A a k) as Hb by (destruct Ha as [Ha|Ha]; [by left|right; unfold A1 in Ha; by rewrite lookup_insert_ne in Ha]).
        destruct (r_map _ _ _ _ _ Hr a k Hb) as (H1 & H2 & H3). split_and!; [lia|lia|]. intros i Hi. unfold m1. rewrite fresh_lookup. case_decide; [done|apply H3; lia]. }
    intros m2 Hv. cbn [mem] in Hv. destruct (rep_more lo h N A n m2 Hr ltac:(lia) Hroom Hv) as [Hr1 Hk]. fold A1 in Hr1.
    apply wp_bind. unfold units, HEADER. rewrite u64_small by lia. change (brk h + 1 * 16) with (brk h + 16).
    eapply (wp_ufree base); [exact Hr1|apply lookup_insert_eq|]. intros h' N' Hr' Hbrk Hask Hk' Hsize (c & j & Hc & Hj).
    assert (A !! brk h = None) as Hn.
    { destruct (A !! brk h) as [i|] eqn:Ei; [|done]. pose proof (t_pos _ _ _ _ (r_tiles _ _ _ _ _ Hr) _ _ (or_intror Ei) (tiles_A_base _ _ _ _ _ _ (r_tiles _ _ _ _ _ Hr) Ei)). lia. }
    unfold A1 in Hr', Hk'. rewrite delete_insert_id in Hr', Hk' by done. apply wp_gets, (Hok h' N'); [done| |done|exists c, j; split; [done|lia]|rewrite Hbrk; cbn; lia].
    intros a i x Ha Hx. rewrite (Hk' a i x Ha Hx). by eapply Hk.
Qed.

(** * Taking a block *)

Lemma kept_trans A m1 m2 m3 : kept A m1 m2 → kept A m2 m3 → kept A m1 m3.
Proof. intros H1 H2 a n x Ha Hx. rewrite (H2 a n x Ha Hx). by eapply H1. Qed.

(** A block of [nu] units in front of [q] that was not in use. *)
Definition taken (lo : Z) (h : heap) (A : gmap Z Z) (nu q : Z) (h' : heap) : Prop :=
  q ≠ 0 ∧ A !! (q - 16) = None ∧ kept A (mem h) (mem h') ∧ brk h ≤ brk h' ∧ ∃ N', rep base lo h' N' (<[q - 16 := nu]> A).

Section Carve.

Context (lo : Z) (h : heap) (N A : gmap Z Z) (Hrep : rep base lo h N A) (prevp p nu s : Z).
Context (Hprev : prevp ∈ dom N) (Hnext : nx (mem h) prevp = p) (Hp : N !! p = Some s) (Hnu : 1 ≤ nu ≤ s).

Let Ht := r_tiles _ _ _ _ _ Hrep.

Lemma carve_base : p ≠ base ∧ prevp ≠ p.
Proof.
  assert (p ≠ base) as Hne. { intros ->. rewrite (t_base _ _ _ _ Ht) in Hp. injection Hp as <-. lia. }
  split; [done|]. intros ->. destruct (r_ring _ _ _ _ _ Hrep) as (_ & _ & Hr). destruct (Hr p Hprev) as (_ & [[H1 _]|[H1 _]]); [lia|congruence].
Qed.

Lemma carve_range : base + 16 ≤ p ∧ p + 16 * s ≤ brk h ∧ brk h ≤ 2 ^ 27 ∧ 0 < base.
Proof.
  pose proof (t_pos _ _ _ _ Ht p s (or_introl Hp) (proj1 carve_base)). pose proof (r_top _ _ _ _ _ Hrep) as Htop.
  change (PHYSTOP - KERNBASE) with (2 ^ 27) in Htop. pose proof (t_low _ _ _ _ Ht). lia.
Qed.

Lemma carve_exact m : s = nu →
  hview (hdrs N A) (mem h) m (upd (nx (mem h)) prevp (nx (mem h) p)) (sz (mem h)) → taken lo h A nu (p + 16) (set_freep prevp (set_mem m h)).
Proof.
  intros E Hv. destruct carve_base as [Hpb Hpp]. pose proof carve_range. subst s. unfold taken. replace (p + 16 - 16) with p by lia.
  split_and!; [lia| |eapply (hview_kept base); [exact Ht|reflexivity|exact Hv]|done|].
  - destruct (A !! p) as [j|] eqn:Ej; [|done]. exfalso. eauto using t_disj.
  - exists (delete p N). eapply (shape_rep base lo h); [split| |apply Hrep|rewrite dom_delete_L; set_solver| |exact Hv].
    + by apply tiles_take.
    + by apply (cover_take base), Hrep.
    + rewrite dom_delete_L, <- Hnext. apply ring_delete; [apply Hrep|done|by rewrite Hnext].
    + intros a n [[_ Ha]%lookup_delete_Some|[[<- <-]|[_ Ha]]%lookup_insert_Some]; eapply r_size; [exact Hrep|by left|exact Hrep|by left|exact Hrep|by right].
    + intros a n [[_ Ha]%lookup_delete_Some|[[<- <-]|[_ Ha]]%lookup_insert_Some]; eapply r_map; [exact Hrep|by left|exact Hrep|by left|exact Hrep|by right].
    + intros a n [_ Ha]%lookup_delete_Some Hab. apply lookup_delete_None. right. by eapply r_gaps.
    + intros a [n [[_ Ha]%lookup_delete_Some|[[<- <-]|[_ Ha]]%lookup_insert_Some]]; [exists n; by left|exists nu; by left|exists n; by right].
Qed.

Lemma carve_split m : nu < s → let e := p + 16 * (s - nu) in
  hview (hdrs (<[p := s - nu]> N) (<[e := nu]> A)) (mem h) m (nx (mem h)) (upd (upd (sz (mem h)) p (s - nu)) e nu) →
  taken lo h A nu (e + 16) (set_freep prevp (set_mem m h)).
Proof.
  intros Hlt e Hv. destruct carve_base as [Hpb Hpp]. pose proof carve_range. unfold taken. replace (e + 16 - 16) with e by lia.
  pose proof (tiles_split _ _ _ _ p s nu Ht Hp ltac:(lia)) as Ht'. fold e in Ht'. pose proof (t_sep _ _ _ _ Ht) as Hsep.
  assert (A !! e = None) as He.
  { destruct (A !! e) as [j|] eqn:Ej; [|done]. pose proof (Hsep p s e j (or_introl Hp) (or_intror Ej) ltac:(lia)). lia. }
  assert (∀ a n, blk (<[p := s - nu]> N) (<[e := nu]> A) a n → (a = p ∧ n = s - nu) ∨ (a = e ∧ n = nu) ∨ (a ≠ p ∧ a ≠ e ∧ blk N A a n)) as Hblk.
  { intros a n [[[<- <-]|[Hn1 Ha]]%lookup_insert_Some|[[<- <-]|[Hn1 Ha]]%lookup_insert_Some]; [by left| |by right; left|].
    - right; right. split_and!; [done| |by left]. intros ->. pose proof (Hsep p s e n (or_introl Hp) (or_introl Ha) ltac:(lia)). lia.
    - right; right. split_and!; [|done|by right]. intros ->. eauto using t_disj. }
  split_and!; [lia|done|eapply (hview_kept base); [exact Ht'|by apply insert_subseteq|exact Hv]|done|].
  assert (dom (<[p := s - nu]> N) = dom N) as Hdom by (rewrite dom_insert_L; assert (p ∈ dom N) by (by eapply elem_of_dom_2); set_solver).
  exists (<[p := s - nu]> N). eapply (shape_rep base lo h); [split| |apply Hrep|rewrite Hdom; done|intros a Ha; exact Ha|exact Hv].
  - done.
  - apply (cover_split base); [done..|lia|apply Hrep].
  - rewrite Hdom. apply Hrep.
  - intros a n [[-> ->]|[[-> ->]|(H1 & H2 & Ha)]]%Hblk; [rewrite upd_ne by lia; apply upd_eq|apply upd_eq|]. rewrite !upd_ne by done. by eapply r_size.
  - pose proof (r_map _ _ _ _ _ Hrep p s (or_introl Hp)) as Hm. rewrite Z.max_r in Hm by lia.
    intros a n [[-> ->]|[[-> ->]|(H1 & H2 & Ha)]]%Hblk; [eapply mapped_sub; [exact Hm|lia|lia]|eapply mapped_sub; [exact Hm|lia|lia]|by eapply r_map].
  - intros a n Ha Hab. assert (∀ y, y ≠ p → N !! y = None → <[p := s - nu]> N !! y = None) as Hno by (intros; by rewrite lookup_insert_ne).
    apply lookup_insert_Some in Ha as [[<- <-]|[Hne Ha]].
    + apply Hno; [lia|]. destruct (N !! (p + 16 * (s - nu))) as [j|] eqn:Ej; [|done]. pose proof (Hsep p s _ j (or_introl Hp) (or_introl Ej) ltac:(lia)). lia.
    + pose proof (r_gaps _ _ _ _ _ Hrep a n Ha Hab) as Hg. apply Hno; [|done]. intros E. rewrite E in Hg. congruence.
Qed.

Lemma wp_carve (Q : Z → heap → Prop) : (∀ q h', taken lo h A nu q h' → Q q h') → wp (carve prevp p nu s) Q h.
Proof.
  intros HQ. destruct carve_base as [Hpb Hpp]. pose proof carve_range as Hrange. unfold carve. apply wp_bind.
  pose proof (rep_mapped base _ _ _ _ Hrep) as Hmap. pose proof (hview_start (hdrs N A) (mem h)) as Hv.
  assert (p ∈ dom N) as Hpd by (by eapply elem_of_dom_2). destruct (Z.eqb_spec s nu) as [E|E].
  - apply wp_bind. eapply (wp_get_ptr _ _ Hmap p); [exact Hv|by apply dom_hdrs|].
    apply wp_bind. eapply (wp_set_ptr _ _ (hdrs_sep base _ _ _ Ht) Hmap prevp); [exact Hv|by apply dom_hdrs| |].
    { pose proof (proj2 (shape_dom base _ _ _ _ _ _ _ p (rep_shape base _ _ _ _ Hrep) Hpd)). lia. }
    intros m Hv2. apply wp_ret. wp_auto. unfold units, HEADER. rewrite u64_small by lia. apply HQ.
    replace (p + 1 * 16) with (p + 16) by lia. by apply carve_exact.
  - cbv zeta. rewrite u32_small by lia. pose proof (tiles_split _ _ _ _ p s nu Ht Hp ltac:(lia)) as Ht'.
    unfold units at 1 2. unfold HEADER. rewrite (u64_small (p + (s - nu) * 16)) by lia. replace (p + (s - nu) * 16) with (p + 16 * (s - nu)) by lia.
    set (e := p + 16 * (s - nu)) in *. set (H := hdrs (<[p := s - nu]> N) (<[e := nu]> A)).
    assert (∀ a, H a → mapped (mem h) a 16) as Hmap'.
    { intros a [n [[[<- <-]|[_ Ha]]%lookup_insert_Some|[[<- <-]|[_ Ha]]%lookup_insert_Some]];
        [apply Hmap; by apply dom_hdrs|apply Hmap; exists n; by left| |apply Hmap; exists n; by right].
      eapply mapped_sub; [apply (r_map _ _ _ _ _ Hrep p s); by left|lia|lia]. }
    pose proof (hview_start H (mem h)) as Hv1.
    apply wp_bind. eapply (wp_set_size H _ (hdrs_sep base _ _ _ Ht') Hmap' p); [exact Hv1|exists (s - nu); left; apply lookup_insert_eq|lia|]. intros m1 Hv2.
    apply wp_bind. eapply (wp_set_size H _ (hdrs_sep base _ _ _ Ht') Hmap' e); [exact Hv2|exists nu; right; apply lookup_insert_eq|lia|]. intros m2 Hv3.
    apply wp_ret. wp_auto. unfold units, HEADER. rewrite u64_small by lia. apply HQ. replace (e + 1 * 16) with (e + 16) by lia.
    apply carve_split; [lia|exact Hv3].
Qed.

End Carve.

(** * The search *)

(** The free blocks from [p] round the ring to [e]. *)
Definition ahead (D : gset Z) (e p : Z) : gset Z :=
  if decide (p ≤ e) then filter (λ c, p ≤ c ≤ e) D else filter (λ c, p ≤ c ∨ c ≤ e) D.

Lemma ahead_start D f e : ring base D f → e ∈ D → ahead D e (f e) = D.
Proof.
  intros (_ & Hm & Hr) He. destruct (Hr e He) as (Hin & Hnext). unfold ahead. apply set_eq. intros c.
  destruct (decide (f e ≤ e)); rewrite elem_of_filter; (split; [tauto|]); intros Hc; (split; [|done]);
    pose proof (Hm c Hc); destruct Hnext as [[H1 H2]|[H1 H2]]; pose proof (H2 c Hc); lia.
Qed.

Lemma ahead_end D e c : c ∈ ahead D e e → c = e.
Proof. unfold ahead. rewrite decide_True by lia. rewrite elem_of_filter. lia. Qed.

Lemma ahead_next D f e p : ring base D f → e ∈ D → p ∈ D → p ≠ e → ∀ c, c ∈ ahead D e (f p) ↔ c ∈ ahead D e p ∧ c ≠ p.
Proof.
  intros (_ & Hm & Hr) He Hp Hne c. destruct (Hr p Hp) as (Hin & Hnext). unfold ahead.
  destruct (decide (f p ≤ e)), (decide (p ≤ e)); rewrite !elem_of_filter;
    (split; [intros [Hc Hd]|intros [[Hc Hd] Hcp]]; pose proof (Hm c Hd); pose proof (Hm e He); pose proof (Hm p Hp);
     destruct Hnext as [[Hn1 Hn2]|[Hn1 Hn2]]; pose proof (Hn2 c Hd); pose proof (Hn2 e He); split_and?; try done; lia).
Qed.

Lemma ahead_self D e p : p ∈ D → p ∈ ahead D e p.
Proof. intros Hp. unfold ahead. destruct (decide (p ≤ e)); rewrite elem_of_filter; (split; [lia|done]). Qed.

(** Where the search is: the blocks behind [p] are too small. *)
Definition searching (lo : Z) (h : heap) (A : gmap Z Z) (nu prevp p : Z) (N : gmap Z Z) (s : heap) : Prop :=
  rep base lo s N A ∧ kept A (mem h) (mem s) ∧ brk h ≤ brk s ∧ prevp ∈ dom N ∧ nx (mem s) prevp = p ∧
  ∀ c j, N !! c = Some j → c ∉ ahead (dom N) (freep s) p → j < nu.

(** Before the kernel is asked, and after. *)
Definition search_inv (lo : Z) (h : heap) (A : gmap Z Z) (nu : Z) (cnt : nat) (st : Z * Z) (s : heap) : Prop :=
  ∃ N, searching lo h A nu st.1 st.2 N s ∧
    ((s = h ∧ cnt = size (ahead (dom N) (freep s) st.2) + size N + 2)%nat ∨
     ((∃ c j, N !! c = Some j ∧ nu ≤ j) ∧ cnt = size (ahead (dom N) (freep s) st.2))).

Definition malloc_post (lo : Z) (h : heap) (A : gmap Z Z) (nu q : Z) (h' : heap) : Prop :=
  taken lo h A nu q h' ∨
  (q = 0 ∧ refused h nu ∧ kept A (mem h) (mem h') ∧ brk h ≤ brk h' ∧ ∃ N, rep base lo h' N A ∧ ∀ c j, N !! c = Some j → j < nu).

Lemma searching_next lo h A nu prevp p N s j :
  searching lo h A nu prevp p N s → N !! p = Some j → j < nu → p ≠ freep s →
  searching lo h A nu p (nx (mem s) p) N s ∧ (size (ahead (dom N) (freep s) (nx (mem s) p)) < size (ahead (dom N) (freep s) p))%nat.
Proof.
  intros (Hr & Hk & Hbrk & Hp & Hnx & Hsmall) Hj Hlt Hne. assert (p ∈ dom N) as Hpd by (by eapply elem_of_dom_2).
  pose proof (ahead_next _ _ _ _ (r_ring _ _ _ _ _ Hr) (r_freep _ _ _ _ _ Hr) Hpd Hne) as Ha. split.
  - split_and!; try done. intros c i Hc Hn. destruct (decide (c = p)) as [->|Hcp]; [congruence|]. apply (Hsmall c i Hc). intros Hin. apply Hn, Ha. by split.
  - apply subset_size. split; [intros c Hc; by apply Ha|]. intros Hs. specialize (Hs p (ahead_self _ _ _ Hpd)). by apply Ha in Hs as [_ ?].
Qed.

Lemma wp_malloc_body lo h A nu cnt st s :
  1 ≤ nu → 16 * nu < 2 ^ 31 → search_inv lo h A nu cnt st s →
  wp (malloc_body grant nu st) (λ r s', match r with
    | inl st' => ∃ cnt', (cnt' < cnt)%nat ∧ search_inv lo h A nu cnt' st' s'
    | inr q => malloc_post lo h A nu q s'
    end) s.
Proof.
  intros Hnu Hmax (N & Hse & Hphase). destruct st as [prevp p]. cbn [fst snd] in *. pose proof Hse as (Hr & Hk & Hbrk & Hp & Hnx & Hsmall).
  destruct (r_ring _ _ _ _ _ Hr) as (_ & _ & Hring). assert (p ∈ dom N) as Hpd by (rewrite <- Hnx; by apply Hring). pose proof Hpd as [j Hj]%elem_of_dom.
  pose proof (rep_mapped base _ _ _ _ Hr) as Hmap. pose proof (hview_start (hdrs N A) (mem s)) as Hv. unfold malloc_body.
  apply wp_bind. eapply (wp_get_size _ _ Hmap p); [exact Hv|by apply dom_hdrs|]. rewrite (r_size _ _ _ _ _ Hr p j) by (by left).
  destruct (Z.leb_spec nu j) as [Hfit|Hfit].
  - apply wp_bind. eapply (wp_carve lo s N A Hr prevp p nu j); [done|done|done|lia|]. intros q s' (H1 & H2 & H3 & H4 & H5). apply wp_ret. left.
    split_and!; [done|done|by eapply kept_trans|lia|done].
  - apply wp_bind, wp_get. destruct (Z.eqb_spec p (freep s)) as [E|E].
    + assert (∀ c i, N !! c = Some i → i < nu) as Hall.
      { intros c i Hc. destruct (decide (c = p)) as [->|Hne]; [congruence|]. apply (Hsmall c i Hc). rewrite <- E. by intros ?%ahead_end. }
      destruct Hphase as [[-> ->]|[(c & i & Hc & Hi) _]]; [|pose proof (Hall c i Hc); lia].
      apply wp_bind, (wp_morecore lo h N A nu); [done..| |].
      * intros Href. rewrite Z.eqb_refl. apply wp_ret. right. split_and!; [done|done|done|done|]. exists N. split; [|done]. destruct Hr. by split.
      * intros h' N' Hr' Hk' Hsize Hex Hbrk'. pose proof (r_freep _ _ _ _ _ Hr') as Hfp. pose proof (rep_dom base _ _ _ _ _ Hr' Hfp) as Hf0.
        assert (0 < freep h') as Hf1. { pose proof (proj1 (shape_dom base _ _ _ _ _ _ _ _ (rep_shape base _ _ _ _ Hr') Hfp)). lia. }
        rewrite (proj2 (Z.eqb_neq _ _)) by lia.
        apply wp_bind. eapply (wp_get_ptr _ _ (rep_mapped base _ _ _ _ Hr') (freep h')); [apply hview_start|by apply dom_hdrs|]. apply wp_ret.
        pose proof (ahead_start _ _ _ (r_ring _ _ _ _ _ Hr') Hfp) as Hst. exists (size (ahead (dom N') (freep h') (nx (mem h') (freep h')))).
        split; [rewrite Hst, size_dom; lia|]. exists N'. split; [|right; by split]. split_and!; try done.
        intros c i Hc Hn. cbn [snd] in Hn. rewrite Hst in Hn. destruct Hn. by eapply elem_of_dom_2.
    + apply wp_bind. eapply (wp_get_ptr _ _ Hmap p); [exact Hv|by apply dom_hdrs|]. apply wp_ret.
      destruct (searching_next _ _ _ _ _ _ _ _ _ Hse Hj Hfit E) as [Hse' Hless].
      destruct Hphase as [[-> ->]|[Hex ->]].
      * eexists. split; [|exists N; split; [exact Hse'|left; by split]]. cbn [snd]. lia.
      * eexists. split; [|exists N; split; [exact Hse'|right; by split]]. cbn [snd]. lia.
Qed.

(** * The operations *)

(** Before the first call, and later. *)
Definition heap_inv (lo : Z) (h : heap) (A : gmap Z Z) : Prop :=
  (freep h = 0 ∧ A = ∅ ∧ lo = brk h ∧ 0 < base ∧ base + 16 ≤ brk h ≤ PHYSTOP - KERNBASE ∧ mapped (mem h) base 16) ∨
  ∃ N, rep base lo h N A.

(** The empty ring. *)
Lemma rep_start h m :
  0 < base → base + 16 ≤ brk h ≤ PHYSTOP - KERNBASE → mapped (mem h) base 16 →
  hview (λ a, a = base) (mem h) m (upd (nx (mem h)) base base) (upd (sz (mem h)) base 0) →
  rep base (brk h) (set_freep base (set_mem m h)) {[base := 0]} ∅.
Proof.
  intros H0 Hb Hm (Hh & Hd & _). destruct (Hh base eq_refl) as [Hnx Hsz]. rewrite upd_eq in Hnx, Hsz.
  assert (∀ a n, blk {[base := 0]} ∅ a n → a = base ∧ n = 0) as Hblk by (intros a n [[<- <-]%lookup_singleton_Some|[]%lookup_empty_Some]; done).
  split; cbn [brk mem freep set_freep set_mem].
  - split; [apply lookup_singleton_eq|lia|by intros a n k _ ?%lookup_empty_Some|intros a n [-> ->]%Hblk; done|intros a n b k [-> ->]%Hblk [-> ->]%Hblk; lia].
  - intros a n [<- <-]%lookup_singleton_Some; done.
  - intros x Hx. lia.
  - lia.
  - rewrite dom_singleton_L. split_and!; [set_solver|set_solver|]. intros a ->%elem_of_singleton. rewrite Hnx. split; [set_solver|]. right. split; [done|]. set_solver.
  - intros a n [-> ->]%Hblk. done.
  - intros a n [-> ->]%Hblk. eapply same_dom_mapped; [exact Hd|exact Hm].
  - rewrite dom_singleton_L. set_solver.
Qed.

Definition units_for (nbytes : Z) : Z := (nbytes + 15) / 16 + 1.

Lemma units_for_bound nbytes : 0 ≤ nbytes ≤ 2 ^ 31 - 32 → 1 ≤ units_for nbytes ∧ 16 * units_for nbytes < 2 ^ 31 ∧ nbytes ≤ 16 * (units_for nbytes - 1).
Proof. intros H. unfold units_for. Z.to_euclidean_division_equations. lia. Qed.

Lemma wp_malloc_search lo h N A nu fuel :
  rep base lo h N A → 1 ≤ nu → 16 * nu < 2 ^ 31 → (2 * size N + 2 < fuel)%nat →
  wp (prevp ← gets freep; p ← get_ptr prevp; loop fuel (malloc_body grant nu) (prevp, p)) (malloc_post lo h A nu) h.
Proof.
  intros Hr H1 H2 Hf. pose proof (r_freep _ _ _ _ _ Hr) as Hfp. apply wp_bind, wp_gets.
  apply wp_bind. eapply (wp_get_ptr _ _ (rep_mapped base _ _ _ _ Hr) (freep h)); [apply hview_start|by apply dom_hdrs|].
  pose proof (ahead_start _ _ _ (r_ring _ _ _ _ _ Hr) Hfp) as Hst.
  apply (wp_loop (search_inv lo h A nu) (2 * size N + 2)%nat); [|done|intros n st s Hi; by apply wp_malloc_body].
  exists N. cbn [fst snd]. split; [|left; split; [done|rewrite Hst, size_dom; lia]]. split_and!; try done.
  intros c j Hc Hn. rewrite Hst in Hn. destruct Hn. by eapply elem_of_dom_2.
Qed.

Lemma wp_umalloc lo h A nbytes :
  heap_inv lo h A → 0 ≤ nbytes ≤ 2 ^ 31 - 32 →
  wp (umalloc base grant nbytes) (malloc_post lo h A (units_for nbytes)) h.
Proof.
  intros Hi Hn. destruct (units_for_bound nbytes Hn) as (H1 & H2 & _). unfold umalloc. cbv zeta. unfold HEADER.
  replace (nbytes + 16 - 1) with (nbytes + 15) by lia. change ((nbytes + 15) / 16 + 1) with (units_for nbytes). rewrite u32_small by lia. apply wp_bind, wp_get.
  destruct Hi as [(E & -> & -> & H0 & Hb & Hm)|[N Hr]].
  - rewrite E. cbn [Z.eqb]. assert (∀ a b, a = base → b = base → sep a b) as Hsep by (intros a b -> ->; by left).
    assert (∀ a, a = base → mapped (mem h) a 16) as Hmap by (by intros a ->).
    change (PHYSTOP - KERNBASE) with (2 ^ 27) in Hb. apply wp_bind. wp_auto.
    apply (wp_set_ptr (λ a, a = base) (mem h) Hsep Hmap base base (nx (mem h)) (sz (mem h))); [apply hview_start|done|lia|]. intros m1 Hv1.
    eapply (wp_set_size (λ a, a = base) (mem h) Hsep Hmap base); [exact Hv1|done|lia|]. intros m2 Hv2.
    change (set_mem m2 (set_mem m1 (set_freep base h))) with (set_freep base (set_mem m2 h)).
    pose proof (rep_start h m2 H0 Hb Hm Hv2) as Hr. eapply wp_mono; [apply (wp_malloc_search _ _ _ _ _ _ Hr H1 H2)|].
    + rewrite map_size_singleton. unfold ring_fuel. lia.
    + intros q h' [(G1 & G2 & _ & G4 & G5)|(G1 & G2 & _ & G4 & G5)]; [left|right]; split_and!; try done; intros a n x []%lookup_empty_Some.
  - pose proof (r_freep _ _ _ _ _ Hr) as Hfp. pose proof (proj1 (shape_dom base _ _ _ _ _ _ _ _ (rep_shape base _ _ _ _ Hr) Hfp)) as Hpos.
    rewrite (proj2 (Z.eqb_neq _ _)) by lia. apply wp_bind, wp_ret. apply (wp_malloc_search lo h N A); [done..|].
    pose proof (set_range_size (dom N) (brk h) (λ c, rep_dom base _ _ _ _ c Hr)) as Hsize. rewrite size_dom in Hsize. unfold ring_fuel. lia.
Qed.

End Heap.
