(* ===== verification/UmallocArrays.v ===== *)
(** A program that uses [malloc] and [free] has separate arrays of bytes. *)

From S2P Require Import Prelude.
From S2P Require Import Cstring.
From S2P Require Import Vm.
From S2P Require Import VmInv.
From S2P Require Import Umalloc.
From S2P Require Import UmallocInv.
From S2P Require Import UmallocSpec.
From S2P Require Import UmallocProps.

(** * Arrays

    The abstract state has the pointers a program holds, with the bytes behind
    them. *)

Abbreviation arrays := (gmap Z (list Z)).

Inductive aop : Type :=
  | AMalloc (nbytes : Z)
  | AFree (q : Z)
  | ALoad (q i : Z)
  | AStore (q i v : Z).

(** What a program may do: sizes below 2 GB, pointers it holds, places inside the
    array. *)
Definition legal (a : arrays) (o : aop) : Prop :=
  match o with
  | AMalloc nbytes => 0 ≤ nbytes ≤ 2 ^ 31 - 32
  | AFree q => is_Some (a !! q)
  | ALoad q i => ∃ l, a !! q = Some l ∧ 0 ≤ i < zlen l
  | AStore q i v => (∃ l, a !! q = Some l ∧ 0 ≤ i < zlen l) ∧ 0 ≤ v < 256
  end.

(** The array [l] at [q] and the arrays of [a] have no byte in common. *)
Definition separate (a : arrays) (q : Z) (l : list Z) : Prop :=
  ∀ q' l', a !! q' = Some l' → q + zlen l ≤ q' ∨ q' + zlen l' ≤ q.

Inductive astep (a : arrays) : aop → Z → arrays → Prop :=
  | astep_malloc nbytes q l :
      q ≠ 0 → a !! q = None → nbytes ≤ zlen l → separate a q l → astep a (AMalloc nbytes) q (<[q := l]> a)
  | astep_none nbytes : astep a (AMalloc nbytes) 0 a
  | astep_free q : is_Some (a !! q) → astep a (AFree q) 0 (delete q a)
  | astep_load q i l v : a !! q = Some l → l !! Z.to_nat i = Some v → astep a (ALoad q i) v a
  | astep_store q i v l : a !! q = Some l → astep a (AStore q i v) 0 (<[q := <[Z.to_nat i := v]> l]> a).

Section Arrays.

Context (base : Z) (grant : nat → bool).

Definition run_aop (o : aop) : prog heap Z :=
  match o with
  | AMalloc nbytes => umalloc base grant nbytes
  | AFree q => _ ← ufree q; mret 0
  | ALoad q i => on_mem (load8 (q + i))
  | AStore q i v => _ ← on_mem (store8 (q + i) v); mret 0
  end.

(** * The relation *)

Definition holds (m : bmem) (q : Z) (l : list Z) : Prop := ∀ i v, l !! i = Some v → m !! (q + Z.of_nat i) = Some v.

Record related (lo : Z) (h : heap) (a : arrays) (A : gmap Z Z) : Prop := {
  rel_inv : heap_inv base lo h A;
  rel_array q l : a !! q = Some l → ∃ n, A !! (q - 16) = Some n ∧ zlen l = 16 * (n - 1) ∧ holds (mem h) q l;
  rel_block p n : A !! p = Some n → is_Some (a !! (p + 16)) }.

Lemma inv_rep lo h A p n : heap_inv base lo h A → A !! p = Some n → ∃ N, rep base lo h N A.
Proof. intros [(_ & -> & _)|H] Hp; [done|exact H]. Qed.

(** The program writes into one of its blocks. *)
Lemma rep_write lo h N A p n x v :
  rep base lo h N A → A !! p = Some n → p + 16 ≤ x < p + 16 * n → rep base lo (set_mem (<[x := v]> (mem h)) h) N A.
Proof.
  intros Hr Hp Hx. assert (∀ c k i, blk N A c k → 0 ≤ i < 16 → <[x := v]> (mem h) !! (c + i) = mem h !! (c + i)) as Hhd.
  { intros c k i Hc Hi. rewrite lookup_insert_ne; [done|]. pose proof (tiles_payload base _ _ _ _ _ _ _ _ (r_tiles _ _ _ _ _ Hr) Hc Hp Hx). lia. }
  assert (is_Some (mem h !! x)) as Hsx.
  { destruct (r_map _ _ _ _ _ Hr p n (or_intror Hp)) as (_ & _ & Hm). replace x with (p + (x - p)) by lia. apply Hm. lia. }
  destruct Hr as [Ht Hg Hc Htop Hring Hs Hm Hf]. split; cbn [brk mem freep set_mem]; [done..| | | |done].
  - eapply ring_ext; [done|]. intros a [k Ha]%elem_of_dom. apply rd64_ext. intros i Hi. apply (Hhd a k); [by left|lia].
  - intros a k Ha. rewrite <- (Hs a k Ha). apply rd32_ext. intros i Hi. rewrite <- Z.add_assoc. apply (Hhd a k); [done|lia].
  - intros a k Ha. by apply mapped_insert, Hsx; apply Hm.
Qed.

(** The bytes of a block. *)
Definition bytes_at (m : bmem) (q : Z) (n : nat) : list Z := (λ i, bt m (q + Z.of_nat i)) <$> seq 0 n.

Lemma bytes_at_holds m q n : mapped m q (Z.of_nat n) → holds m q (bytes_at m q n).
Proof.
  intros Hm i v H. unfold bytes_at in H. apply list_lookup_fmap_Some in H as (j & -> & [-> Hj]%lookup_seq). cbn [Nat.add].
  destruct (mapped_at m q _ (Z.of_nat i) Hm ltac:(lia)) as [c Hc]. unfold bt. by rewrite Hc.
Qed.

Lemma holds_kept lo h h' a A A' :
  related lo h a A → kept A' (mem h) (mem h') → ∀ q l, a !! q = Some l → ∀ n, A !! (q - 16) = Some n → A' !! (q - 16) = Some n → holds (mem h') q l.
Proof.
  intros Hr Hk q l Hq n Hn Hn' i v Hv. destruct (rel_array _ _ _ _ Hr q l Hq) as (k & Hk1 & Hlen & Hh). assert (k = n) as -> by congruence.
  rewrite (Hk _ n _ Hn'); [by apply Hh|]. apply lookup_lt_Some in Hv. lia.
Qed.

(** ** One operation *)

Lemma malloc_related lo h a A nbytes q h' :
  related lo h a A → 0 ≤ nbytes ≤ 2 ^ 31 - 32 → malloc_post base grant lo h A (units_for nbytes) q h' →
  ∃ a' A', astep a (AMalloc nbytes) q a' ∧ related lo h' a' A'.
Proof.
  intros Hrel Hn [(Hq & HA & Hk & _ & N & Hr)|(-> & _ & Hk & _ & N & Hr & _)].
  - destruct (units_for_bound nbytes Hn) as (H1 & H2 & H3). set (nu := units_for nbytes) in *.
    pose proof (r_map _ _ _ _ _ Hr (q - 16) nu (or_intror (lookup_insert_eq _ _ _))) as Hm. rewrite Z.max_r in Hm by lia.
    set (l := bytes_at (mem h') q (Z.to_nat (16 * (nu - 1)))). assert (zlen l = 16 * (nu - 1)) as Hl by (unfold l, bytes_at; rewrite length_fmap, length_seq; lia).
    assert (a !! q = None) as Hnone. { destruct (a !! q) as [l'|] eqn:E; [|done]. destruct (rel_array _ _ _ _ Hrel q l' E) as (n & Hn' & _). congruence. }
    exists (<[q := l]> a), (<[q - 16 := nu]> A). split.
    + apply astep_malloc; [done|done|lia|]. intros q' l' Hq'. destruct (rel_array _ _ _ _ Hrel q' l' Hq') as (n & HA' & Hl' & _).
      assert (q' ≠ q) as Hne by congruence. assert (<[q - 16 := nu]> A !! (q' - 16) = Some n) as HA2 by (by rewrite lookup_insert_ne by lia).
      pose proof (t_sep _ _ _ _ (r_tiles _ _ _ _ _ Hr)) as Hsep. assert (<[q - 16 := nu]> A !! (q - 16) = Some nu) as HA1 by apply lookup_insert_eq.
      destruct (Ztrichotomy q q') as [Hlt|[->|Hgt]]; [|done|apply Z.gt_lt in Hgt].
      * left. pose proof (Hsep _ _ _ _ (or_intror HA1) (or_intror HA2) ltac:(lia)). lia.
      * right. pose proof (Hsep _ _ _ _ (or_intror HA2) (or_intror HA1) ltac:(lia)). lia.
    + split; [right; by exists N| |].
      * intros q' l' [[<- <-]|[Hne Hq']]%lookup_insert_Some.
        { exists nu. split_and!; [apply lookup_insert_eq|done|]. apply bytes_at_holds. eapply mapped_sub; [exact Hm|lia|lia]. }
        destruct (rel_array _ _ _ _ Hrel q' l' Hq') as (n & HA' & Hl' & _). exists n. split_and!; [by rewrite lookup_insert_ne by lia|done|].
        by eapply holds_kept.
      * intros p n [[<- <-]|[Hne Hp]]%lookup_insert_Some; [replace (q - 16 + 16) with q by lia; by rewrite lookup_insert_eq|].
        rewrite lookup_insert_ne by lia. by eapply rel_block.
  - exists a, A. split; [apply astep_none|]. split; [right; by exists N| |apply Hrel].
    intros q l Hq. destruct (rel_array _ _ _ _ Hrel q l Hq) as (n & HA' & Hl' & _). exists n. split_and!; [done|done|]. by eapply holds_kept.
Qed.

Lemma free_related lo h a A N q n h' :
  related lo h a A → A !! (q - 16) = Some n → is_Some (a !! q) → rep base lo h' N (delete (q - 16) A) → kept (delete (q - 16) A) (mem h) (mem h') →
  related lo h' (delete q a) (delete (q - 16) A).
Proof.
  intros Hrel Hn Hq Hr Hk. split; [right; by exists N| |].
  - intros q' l [Hne Hl]%lookup_delete_Some. destruct (rel_array _ _ _ _ Hrel q' l Hl) as (k & HA & Hlen & _).
    assert (delete (q - 16) A !! (q' - 16) = Some k) as HA' by (by rewrite lookup_delete_ne by lia). exists k. split_and!; [done|done|]. by eapply holds_kept.
  - intros p k [Hne Hp]%lookup_delete_Some. rewrite lookup_delete_ne by lia. by eapply rel_block.
Qed.

Lemma store_related lo h a A q i v l :
  related lo h a A → a !! q = Some l → 0 ≤ i < zlen l → related lo (set_mem (<[q + i := v]> (mem h)) h) (<[q := <[Z.to_nat i := v]> l]> a) A.
Proof.
  intros Hrel Hq Hi. destruct (rel_array _ _ _ _ Hrel q l Hq) as (n & HA & Hlen & Hh). destruct (inv_rep _ _ _ _ _ (rel_inv _ _ _ _ Hrel) HA) as [N Hr].
  split.
  - right. exists N. eapply rep_write; [done|exact HA|lia].
  - intros q' l' [[<- <-]|[Hne Hq']]%lookup_insert_Some.
    + exists n. rewrite length_insert. split_and!; [done|done|]. intros j w Hj. cbn [mem set_mem]. destruct (decide (Z.to_nat i = j)) as [<-|Hij].
      * rewrite list_lookup_insert_eq in Hj by lia. rewrite Z2Nat.id, lookup_insert_eq by lia. done.
      * rewrite list_lookup_insert_ne in Hj by done. rewrite lookup_insert_ne by lia. by apply Hh.
    + destruct (rel_array _ _ _ _ Hrel q' l' Hq') as (k & HA' & Hlen' & Hh'). exists k. split_and!; [done|done|]. intros j w Hj. cbn [mem set_mem].
      rewrite lookup_insert_ne; [by apply Hh'|]. apply lookup_lt_Some in Hj. pose proof (t_sep _ _ _ _ (r_tiles _ _ _ _ _ Hr)) as Hsep.
      destruct (Ztrichotomy q q') as [Hlt|[->|Hgt]]; [|done|apply Z.gt_lt in Hgt].
      * pose proof (Hsep _ _ _ _ (or_intror HA) (or_intror HA') ltac:(lia)). lia.
      * pose proof (Hsep _ _ _ _ (or_intror HA') (or_intror HA) ltac:(lia)). lia.
  - intros p k Hp. destruct (decide (q = p + 16)) as [->|Hne]; [by rewrite lookup_insert_eq|]. rewrite lookup_insert_ne by done. by eapply rel_block.
Qed.

(** If a request for memory failed, the kernel had none: it refused, or the memory
    of the machine was used up. *)
Definition denied (h : heap) (e : aop * Z) : Prop :=
  match e with
  | (AMalloc nbytes, 0) => (∃ k, grant k = false) ∨ PHYSTOP - KERNBASE < brk h + 16 * Z.max 4096 (units_for nbytes)
  | _ => True
  end.

Lemma denied_later h h' e : brk h ≤ brk h' → denied h e → denied h' e.
Proof. intros Hb. destruct e as [[nbytes|q|q i|q i v] [|r|r]]; cbn; try done. intros [H|H]; [by left|right; lia]. Qed.

Lemma aop_related lo h a A o :
  related lo h a A → legal a o →
  wp (run_aop o) (λ r h', (∃ a' A', astep a o r a' ∧ related lo h' a' A') ∧ brk h ≤ brk h' ∧ denied h' (o, r)) h.
Proof.
  intros Hrel Hl. destruct o as [nbytes|q|q i|q i v]; cbn [legal run_aop] in *.
  - eapply wp_mono; [by apply (wp_umalloc base grant lo), Hl; apply Hrel|]. cbv beta. intros q h' Hp. split; [by eapply malloc_related|].
    destruct Hp as [(Hq & _ & _ & Hb & _)|(-> & Href & _ & Hb & _)]; (split; [done|]); [by destruct q|]. destruct Href as [H|H]; [right; lia|left; by eexists].
  - pose proof Hl as [l Hq]. destruct (rel_array _ _ _ _ Hrel q l Hq) as (n & HA & _). destruct (inv_rep _ _ _ _ _ (rel_inv _ _ _ _ Hrel) HA) as [N Hr].
    apply wp_bind. replace q with (q - 16 + 16) at 1 by lia. eapply (wp_ufree base); [exact Hr|exact HA|]. intros h' N' Hr' Hb _ Hk _ _. apply wp_ret. split; [|split; [lia|done]].
    exists (delete q a), (delete (q - 16) A). split; [by apply astep_free|]. by eapply free_related.
  - destruct Hl as (l & Hq & Hi). destruct (rel_array _ _ _ _ Hrel q l Hq) as (n & HA & Hlen & Hh).
    destruct (lookup_lt_is_Some_2 l (Z.to_nat i) ltac:(lia)) as [v Hv]. pose proof (Hh _ _ Hv) as Hm. rewrite Z2Nat.id in Hm by lia.
    unfold on_mem. apply wp_zoom, (wp_load8 _ v); [done|]. split; [|done]. exists a, A. split; [by eapply astep_load|]. by destruct h.
  - destruct Hl as ((l & Hq & Hi) & Hv). destruct (rel_array _ _ _ _ Hrel q l Hq) as (n & HA & Hlen & Hh).
    destruct (lookup_lt_is_Some_2 l (Z.to_nat i) ltac:(lia)) as [w Hw]. pose proof (Hh _ _ Hw) as Hm. rewrite Z2Nat.id in Hm by lia.
    unfold on_mem. apply wp_bind, wp_zoom, wp_store8; [by rewrite Hm|]. apply wp_ret. split; [|done]. exists (<[q := <[Z.to_nat i := v]> l]> a), A.
    split; [by apply astep_store|]. by apply store_related.
Qed.

(** * Programs *)

(** A program is an operation and what follows for each result. *)
Inductive client : Type :=
  | Done
  | Op (o : aop) (k : Z → client).

Fixpoint run_client (c : client) : prog heap (list (aop * Z)) :=
  match c with
  | Done => mret []
  | Op o k => r ← run_aop o; t ← run_client (k r); mret ((o, r) :: t)
  end.

(** The program does legal operations only, as far as arrays are concerned. *)
Fixpoint sound (c : client) (a : arrays) : Prop :=
  match c with
  | Done => True
  | Op o k => legal a o ∧ ∀ r a', astep a o r a' → sound (k r) a'
  end.

Inductive atrace : arrays → list (aop * Z) → Prop :=
  | atrace_nil a : atrace a []
  | atrace_cons a o r a' t : astep a o r a' → atrace a' t → atrace a ((o, r) :: t).

Lemma client_related c lo h a A : related lo h a A → sound c a → wp (run_client c) (λ t h', atrace a t ∧ Forall (denied h') t ∧ brk h ≤ brk h') h.
Proof.
  revert h a A. induction c as [|o k IH]; intros h a A Hrel Hs; [apply wp_ret; split_and!; [apply atrace_nil|by constructor|done]|]. destruct Hs as [Hl Hk].
  apply wp_bind. eapply wp_mono; [by eapply aop_related|]. cbv beta. intros r h' ((a' & A' & Hst & Hrel') & Hb & Hd).
  apply wp_bind. eapply wp_mono; [by eapply IH, Hk|]. cbv beta. intros t h'' (Ht & Hf & Hb'). apply wp_ret.
  split_and!; [by eapply atrace_cons|constructor; [by eapply denied_later|done]|lia].
Qed.

End Arrays.

(** * The claims *)

(** C39: a program that allocates, frees, reads and writes, and that would be
    correct if every pointer it holds were an array of its own, runs to its end
    on [malloc] and [free] with results it could see from such arrays: a new
    pointer has at least the bytes asked for and shares none of them with another
    array, an array keeps its contents until the program writes to it or frees
    it, a request fails only when the kernel has no memory, and the search of the
    ring, merging and asking the kernel, whatever it grants, always end. *)
Theorem malloc_refines_arrays base grant h c :
  freep h = 0 → 0 < base → base + 16 ≤ brk h ≤ PHYSTOP - KERNBASE → mapped (mem h) base 16 → sound c ∅ →
  wp (run_client base grant c) (λ t h', atrace ∅ t ∧ Forall (denied grant h') t) h.
Proof.
  intros H1 H2 H3 H4 Hs. eapply wp_mono; [eapply (client_related _ _ _ (brk h) h ∅ ∅); [|exact Hs]|cbv beta; intros t h' (Ht & Hd & _); by split].
  split; [left; split_and!; [done..|apply H3|apply H3|done]|by intros q l ?%lookup_empty_Some|by intros p n ?%lookup_empty_Some].
Qed.

Definition example_client : client :=
  Op (AMalloc 5) (λ q, if q =? 0 then Done else Op (AStore q 4 7) (λ _, Op (ALoad q 4) (λ _, Op (AFree q) (λ _, Done)))).

Lemma example_sound : sound example_client ∅.
Proof.
  split; [cbn; lia|]. intros q a1 H1. destruct (Z.eqb_spec q 0) as [|Hq]; [done|]. inversion H1 as [n q' l _ _ Hl _|n| | |]; subst; [|done].
  assert (<[q := l]> (∅ : gmap Z (list Z)) !! q = Some l) as E1 by apply lookup_insert_eq. split; [split; [exists l; split; [done|lia]|lia]|].
  intros r2 a2 H2. inversion H2 as [| | | |? ? ? l2 E2]; subst. assert (l2 = l) as -> by congruence.
  split; [exists (<[Z.to_nat 4 := 7]> l); split; [apply lookup_insert_eq|rewrite length_insert; lia]|].
  intros r3 a3 H3. inversion H3 as [| | |? ? ? ? E3 _|]; subst. split; [by exists l0|]. done.
Qed.

Lemma malloc_refines_arrays_witness :
  wp (run_client 16 (λ _, true) example_client) (λ t h', atrace ∅ t ∧ Forall (denied (λ _, true) h') t) (Heap (fresh 16 16 ∅) 32 0 0).
Proof.
  apply (malloc_refines_arrays 16 (λ _, true)); [reflexivity|lia|split; vm_compute; discriminate| |exact example_sound].
  split; [lia|]. split; [vm_compute; reflexivity|]. intros i Hi. cbn [mem]. rewrite fresh_lookup, decide_True by lia. by exists 0.
Defined.

(** A request of almost 4 GB: the size in bytes does not fit the [int] of [sbrk],
    the heap grows by 16 bytes and the call succeeds. *)
Theorem malloc_huge_succeeds :
  match umalloc 16 (λ _, true) (2 ^ 32 - 1) (Heap (fresh 16 16 ∅) 32 0 0) with
  | Ok (q, h) => q = 48 ∧ brk h = 48
  | _ => False
  end.
Proof. vm_compute. split; reflexivity. Qed.
